(* ===== verification/_CoqProject ===== *)
-Q . S2P
Prelude.v
Effects.v
Gas.v
PriceList.v
WasmPrices.v
Address.v
Decimal.v
AddressText.v
Values.v
Signature.v
HistoryMap.v
Types.v
Sector.v
Proofs.v
Amt.v
AmtRep.v
AmtMap.v
AmtTop.v
AmtIter.v
AmtDiff.v
HamtBits.v
HamtCommon.v
Hamt.v
HamtRep.v
HamtMap.v
HamtTop.v
HamtIter.v
HamtWalk.v
KamtExt.v
KamtPaths.v
Kamt.v
KamtRep.v
KamtMap.v
KamtTop.v
KamtIter.v
KamtWalk.v
StateTree.v
Access.v
Blocks.v
Machine.v
Ipld.v
Buffered.v
Car.v
AmtEvents.v
Host.v
CallManager.v
Frame.v
Kernel.v
FilKernel.v
Syscalls.v
Invocation.v
Sdk.v
Encoding.v
Executor.v
EnginePool.v
Engine.v
Carry.v
Supply.v
Persist.v
BitRanges.v
BitField.v
RlePlus.v
RleStream.v
MemoryEnv.v
HamtDemo.v
KamtDemo.v
AmtDemo.v
Depth.v
Demo.v
PersistDemo.v
EngineDemo.v
CarDemo.v
Metering.v
KernelSpec.v
SdkLogic.v
SdkSpec.v
SdkDemo.v
FilSpec.v
Safety.v
Messages.v
