(* ===== verification/Prelude.v ===== *)
(** * Reference Filecoin VM: a verification library

    This library models the Filecoin virtual machine of this repository
    (crates [fvm], [fvm_shared] and the parts of [fvm_ipld_*] they run on) and
    proves what makes it safe to run untrusted actors on shared money and state.

    ** The program

    A client builds a machine ([fvm/src/machine]) over a blockstore and a state
    root and gives messages to an executor ([fvm/src/executor]). The executor
    validates a message and takes the gas deposit from the sender, creates a
    call manager ([fvm/src/call_manager]) for it, runs it in a transaction, and
    settles the bill. The call manager calls actors: it resolves addresses,
    moves funds, creates receivers, and runs the callee's Wasm code
    ([fvm/src/engine]) under a kernel ([fvm/src/kernel]), which the code reaches
    through host calls ([fvm/src/syscalls]); through them it calls further
    actors, up to the network's call depth. Everything is metered
    ([fvm/src/gas]), and all state lives in a state tree
    ([fvm/src/state_tree.rs]) with nested transactions over an IPLD HAMT. Actors
    reach the host calls through the SDK ([sdk/src]).

    ** The files, in order

    - [Prelude]: machine integers, the error types of fvm/src/kernel/error.rs
      and shared/src/error, their conversions, shared tactics.
    - [Effects]: the state-and-error monad of every stateful operation (a failing
      operation keeps what it changed before failing, as [&mut self] methods do)
      and the logic [pres R m]: [m] relates start and end state by [R].
    - [Gas] (gas/mod.rs, charge.rs, outputs.rs): saturating milligas, the tracker
      with nested limits, fee settlement. [PriceList] (gas/price_list.rs): every
      [on_*] price and the price table. [WasmPrices]: the price of every Wasm
      instruction.
    - [Address] (shared/src/address): address kinds and their byte encoding.
      [Decimal], [AddressText]: their text form with network prefix and checksum.
    - [Values] (shared/src/econ, bigint, clock/quantize.rs, smooth): token amounts
      and their printed form, big integers as bytes, epochs rounded to a schedule,
      the reward filter's fixed-point arithmetic. [Signature] (shared/src/crypto):
      the wire form of signatures and their verification.
    - [HistoryMap] (history_map.rs): the undo log under caches and trackers.
    - [Types]: CIDs, actor states, state roots; blockstores, CBOR and HAMTs as the
      classes [Cbor], [BS], [HamtOps], [Env] with the laws the VM relies on
      ([BSSpec], [EnvSpec]).
    - The AMT (ipld/amt). [Amt]: nodes, lazily loaded links, the array's
      operations, the encoded form. [AmtRep]: a node represents a finite map over
      a store. [AmtMap]: every node operation against it. [AmtTop]: the array.
      [AmtIter]: paged iteration. [AmtDiff]: the difference of two arrays.
      [AmtEvents]: the events root the call manager computes.
    - The HAMT (ipld/hamt). [HamtBits]: bit field and hash bits. [HamtCommon]:
      what HAMT and KAMT share (configuration, buckets, the occupied slots of a
      node, the sub-maps below them, the operations as data). [Hamt]: nodes,
      pointers, the map's operations. [HamtRep], [HamtMap], [HamtTop]:
      the represented map and the operations against it. [HamtIter], [HamtWalk]:
      iteration and paging.
    - The KAMT (ipld/kamt). [KamtExt]: key bits and path extensions. [KamtPaths]:
      keys as paths of slots. [Kamt]: nodes, pointers with extensions, the map's
      operations. [KamtRep], [KamtMap], [KamtTop]: the represented map and the
      operations against it. [KamtIter], [KamtWalk]: iteration.
    - [StateTree] (state_tree.rs, init_actor.rs): cached actors and address
      resolution, transactions, registration, flushing.
    - [Access] (state_access_tracker.rs): which accesses are still to be paid for.
    - [Blocks] (kernel/blocks.rs): handles and reachability.
    - [Machine] (machine/mod.rs, limiter.rs, manifest.rs, the events accumulator
      and backtraces of call_manager): configuration, memory limits, manifest,
      events.
    - [Ipld] (fvm/src/ipld): the metered scan of a block for links.
    - [Buffered] (fvm/src/blockstore/buffered.rs): the write buffer over the
      client's store and its flush; the counting store of ipld/blockstore.
    - [Car] (ipld/car): CAR files, written and loaded into a store.
    - [Host]: guest code and the outside world. A [Guest] is the well-founded
      tree of the host calls of one invocation with arbitrary arguments, memory
      and gas counters, so theorems hold for every program; [Host] collects the
      Wasm engine's module cache, cryptography and the client's externs.
    - [Sector] (shared/src/sector, piece, commcid, consensus): proof types, piece
      sizes, commitments as CIDs. [Proofs] (kernel/filecoin.rs): what the Filecoin
      kernel passes to the proofs library. [FilKernel]: its kernel operations.
    - [CallManager] (call_manager/default.rs): the state of a message's execution
      and the operations that run no guest code. [Kernel] (kernel/default.rs):
      one definition per kernel operation. [Syscalls] (syscalls/*.rs): argument
      decoding, memory bounds, results. [Invocation] (syscalls/mod.rs, linker.rs,
      engine/mod.rs, call_manager): gas around host calls, instantiation, running
      a callee, nested calls. [Executor] (executor/*.rs, shared/src/message.rs):
      preflight, execution, receipts, settlement.
    - [Sdk] (sdk/src): the actor's side of the host calls, as pieces of guest code
      over the guest's memory. [SdkLogic]: rules about such code run against the
      real host calls. [SdkSpec]: its theorems.
    - [Encoding] (ipld/encoding): the raw codec, strict byte strings, nullable
      lists and blocks of encoded values, over serde's data model, with the value
      types that are byte strings on the wire as instances of one interface.
    - [EnginePool] (engine/concurrency.rs, instance_pool.rs): executors on threads
      that share a pool of Wasm instances, as interleaved steps with condition
      variables. [Engine] (engine/mod.rs): engine configuration, engines by
      network, the module cache, installing code.
    - [Frame], [Carry]: what every operation respects ([cm_frame]), which further
      relations survive a whole call tree (class [Adm]), and the induction over
      guests and calls that carries them ([rel_call_actor]).
    - [Supply]: the sum of balances and the proof that no operation raises it.
    - [Persist]: the machine's flush through the buffer to the client's store.
    - Bit fields (ipld/bitfield). [BitRanges]: iterators over runs and their
      combinators. [BitField]: the buffered bit field. [RlePlus], [RleStream]: the
      RLE+ encoding.
    - [MemoryEnv] (ipld/blockstore/src/memory.rs), [Demo], [HamtDemo], [KamtDemo],
      [AmtDemo], [PersistDemo], [EngineDemo], [SdkDemo],
      [CarDemo]: a concrete blockstore, codecs, host and
      machine that satisfy every law and run end to end; the witnesses evaluate
      in them.
    - [Depth]: fuel. [Metering], [KernelSpec], [FilSpec], [Safety], [Messages]: the
      theorems about invocations, kernel operations, calls and messages.

    ** What the theorems show

    - Messages ([Messages]): which messages are accepted and what they are
      charged; a failed message only pays for gas; no message creates tokens;
      the receipt's gas is within the limit and the payments add up.
    - Calls ([Safety]): for every guest program, a call never mints, is invisible
      when read-only, leaves nothing behind when it fails, and gives back limits,
      depth, stack and memory; transfers are all or nothing.
    - Invocations ([Metering]): guest counter and gas tracker agree around host
      calls, with the one exception that is proved to charge twice.
    - Kernel ([KernelSpec]): events, blocks, state roots, creation, destruction.
    - Filecoin ([Proofs], [FilSpec]): the proofs library gets exactly the
      converted inputs, a sector's pieces are laid out aligned and padded, the
      calls change gas and the actor's memory only, panics included.
    - State ([StateTree], [HistoryMap], [Blocks], [Address], [Ipld], [Machine]):
      the cached, transactional tree refines a map with saved versions; flush and
      reload; registration and lookup; undo; handles; address encoding; the link
      scan's result, cost and termination; the manifest.
    - Persistence ([Buffered], [Persist]): the flush moves exactly the reachable
      blocks, accepts what the kernel accepted, and leaves a client store from
      which the whole state is read back.
    - Containers ([HamtTop], [HamtWalk], [KamtTop], [KamtWalk], [AmtTop],
      [AmtIter], [AmtDiff]): any
      history of operations answers as a finite map, equal contents flush to
      equal roots, iteration ends, is ordered and resumes, differences are exact;
      the events root is the root of a real AMT ([AmtEvents]).
    - Bit fields ([BitField], [RleStream]): set semantics of every operation, and
      one accepted encoding per bit field.
    - Engines ([Engine]): in every interleaving no thread waits forever and all
      instances come back; the module cache answers as compiling anew would.
    - Value types ([AddressText], [Values], [Signature]): which texts are
      addresses, what printed amounts and stored integers read back as, rounding
      of epochs, which signatures are accepted.
    - CAR files ([Car]): loading never adds a block under a wrong CID, and a
      written file loads back.
    - The SDK ([SdkSpec]): what an actor stores it loads unchanged, blocks are read
      exactly for every size hint, events arrive as emitted, and host calls return
      values of the declared shape.
    - Encodings ([Encoding]): byte-shaped values come back from blocks of every
      supported codec, and other codecs are refused on both sides.
    - Gas ([Gas], [PriceList]): exact charges, exact nested limits, settlement.

    ** Bounds and fuel

    [call_actor] recurses through guest code; its fuel is the number of frames,
    and [call_depth_fuel] proves that any fuel above the frames the network
    still allows gives the same run. [cbor_scan] gets one more than the length of
    the block, which [scan_fuel_enough] proves to suffice. AMT growth has 64
    turns, one more than the heights a 64-bit index needs; the descent
    in a HAMT or KAMT ends with the bits of the key; the iterators of HAMT, KAMT
    and AMT are step functions whose runs are proved to end for all fuel above a
    number that depends on the container alone; the buffered flush carries the
    weight of the blocks still in the buffer, which falls with every block it
    takes; reading a CAR file consumes a byte per turn ([read_loop_fuel]).
    Everything else is structurally recursive. [u64] milligas are [N] with saturation; other
    integers are [Z] with wrap-around or saturation written out where the code
    has it. Amounts of tokens are unbounded, as in the code.

    ** What is a parameter

    Third-party code and the client: the blockstore behind [BS], CBOR of the
    persisted types, the key hash of the HAMT, varints, multihashes and digests,
    CIDs as bytes, base32, Wasm compilation and execution, the BLS and secp256k1
    libraries, randomness, the library that checks
    storage proofs, CBOR of the proof records, the client's answer on consensus
    faults, the map from KAMT keys to hashed keys (32 bytes), the compiler, the
    allocator and the panic texts of guest code written with the SDK ([Runtime]),
    the DAG-CBOR library below serde ([DagCbor]). The state tree is proved
    against the interface [HamtOps] (a finite map with a persistent root).
    Error texts are the format strings of the source.

    ** Not modelled

    Wall-clock timers of gas charges, logging, artifacts written for debugging,
    Wasm compilation, the thread of the threaded executor (it only forwards). Guests
    do not make the host call [install_actor], linked only with a feature that no
    supported network has; it is modelled apart, in [Engine]. HAMT keys are byte
    strings: the generic key types and the hashing of integers and strings are not
    modelled. The bytes of a HAMT node are the parameter
    [Cbor (NodeBlock V)], so that the tagged pointers of version 0 are not told
    from the untagged ones of version 3. The test harness runs outside the VM.

    ** Plan

    What could follow: HAMTs with typed keys, and the two wire forms of HAMT
    pointers over the data model of [Encoding]. *)

From stdpp Require Import gmap strings list fin_maps.
From Stdlib Require Import ZArith Lia.

Declare Scope fvm_scope.
Delimit Scope fvm_scope with fvm.
#[local] Open Scope Z_scope.

(** ** Machine integers

    Rust's [u64], [u32], [i64] and [usize] are kept as [Z]; every operation
    that saturates or wraps says so. [usize] is 64 bits wide. *)

Definition u64_max : Z := 18446744073709551615.
Definition i64_max : Z := 9223372036854775807.
Definition i64_min : Z := -9223372036854775808.
Definition u32_max : Z := 4294967295.
Definition i32_max : Z := 2147483647.

Definition in_u64 (x : Z) : Prop := 0 ≤ x ≤ u64_max.
Definition in_u32 (x : Z) : Prop := 0 ≤ x ≤ u32_max.
Definition in_i64 (x : Z) : Prop := i64_min ≤ x ≤ i64_max.

Definition is_byte (b : Z) : Prop := 0 ≤ b < 256.

(** [u64::saturating_add], [saturating_sub], [saturating_mul]. *)
Definition sat_add (a b : Z) : Z := Z.min (a + b) u64_max.
Definition sat_sub (a b : Z) : Z := Z.max (a - b) 0.
Definition sat_mul (a b : Z) : Z := Z.min (a * b) u64_max.

(** Unchecked addition of a release build wraps. *)
Definition wrap64 (x : Z) : Z := x `mod` 18446744073709551616.
Definition wrap32 (x : Z) : Z := x `mod` 4294967296.

Create HintDb machine.
#[export] Hint Unfold sat_add sat_sub sat_mul in_u64 in_u32 in_i64
  u64_max i64_max i64_min u32_max i32_max : machine.

(** Unfold the machine-integer vocabulary, then linear arithmetic. *)
Ltac mlia := repeat (autounfold with machine in * ); lia.

Lemma wrap64_small x : in_u64 x → wrap64 x = x.
Proof. intros. unfold wrap64. apply Z.mod_small. mlia. Qed.
Lemma wrap32_small x : in_u32 x → wrap32 x = x.
Proof. intros. unfold wrap32. apply Z.mod_small. mlia. Qed.

(** Split every boolean test the code makes into its two cases. *)
Ltac case_tests :=
  repeat match goal with
  | |- context [bool_decide ?P] => case_bool_decide
  | |- context [decide ?P] => case_decide
  | |- context [if ?a <? ?b then _ else _] => destruct (Z.ltb_spec a b)
  | |- context [if ?a <=? ?b then _ else _] => destruct (Z.leb_spec a b)
  | |- context [if ?a =? ?b then _ else _] => destruct (Z.eqb_spec a b)
  | |- context [if ?b then _ else _] => destruct b eqn:?
  end.

(** Split on whole conditions, leaving compound tests together. *)
Ltac ifs := repeat match goal with |- context [if ?t then _ else _] => destruct t eqn:? end.

(** ** Errors (fvm/src/kernel/error.rs, shared/src/error/mod.rs) *)

Inductive ErrorNumber :=
  | IllegalArgument | IllegalOperation | LimitExceeded | AssertionFailed
  | InsufficientFunds | NotFound | InvalidHandle | IllegalCid | IllegalCodec
  | Serialization | Forbidden | BufferTooSmall | ReadOnly.

#[export] Instance ErrorNumber_eq_dec : EqDecision ErrorNumber.
Proof. solve_decision. Defined.

(** The message is the source's format literal, without the interpolated values. *)
Record SyscallError := mkSyscallError { se_message : string; se_number : ErrorNumber }.

Inductive ExecutionError :=
  | OutOfGas
  | Syscall (e : SyscallError)
  | Fatal (msg : string).

Inductive result (E A : Type) :=
  | Ok (a : A)
  | Err (e : E).
Arguments Ok {E A} a.
Arguments Err {E A} e.

Abbreviation Result := (result ExecutionError).

Definition syscall_error (n : ErrorNumber) (msg : string) : ExecutionError :=
  Syscall (mkSyscallError msg n).

(** [ExecutionError::is_fatal]. *)
Definition is_fatal (e : ExecutionError) : bool :=
  match e with Fatal _ => true | OutOfGas | Syscall _ => false end.

(** [ClassifyResult::or_fatal], [or_error] and [or_illegal_argument], on a
    result whose error carries its display text. *)
Definition or_fatal {A} (r : result string A) : Result A :=
  match r with Ok a => Ok a | Err msg => Err (Fatal msg) end.
Definition or_error {A} (n : ErrorNumber) (r : result string A) : Result A :=
  match r with Ok a => Ok a | Err msg => Err (syscall_error n msg) end.
Definition or_illegal_argument {A} (r : result string A) : Result A :=
  or_error IllegalArgument r.

(** [From<ExecutionError> for anyhow::Error] followed by [or_fatal]: the error
    code is thrown away. *)
Definition err_or_fatal {A} (r : Result A) : Result A :=
  match r with
  | Ok a => Ok a
  | Err OutOfGas => Err (Fatal "out of gas")
  | Err (Syscall e) => Err (Fatal (se_message e))
  | Err (Fatal m) => Err (Fatal m)
  end.

(** [Option::context(msg)] and [Option::ok_or_else(msg)]. *)
Definition ok_or {E A} (o : option A) (e : E) : result E A :=
  match o with Some a => Ok a | None => Err e end.

(** Exit codes (shared/src/error/mod.rs) are the [u32] the code wraps. *)
Abbreviation ExitCode := Z (only parsing).
Definition EXIT_OK : ExitCode := 0.
Definition SYS_SENDER_INVALID : ExitCode := 1.
Definition SYS_SENDER_STATE_INVALID : ExitCode := 2.
Definition SYS_ILLEGAL_INSTRUCTION : ExitCode := 4.
Definition SYS_INVALID_RECEIVER : ExitCode := 5.
Definition SYS_INSUFFICIENT_FUNDS : ExitCode := 6.
Definition SYS_OUT_OF_GAS : ExitCode := 7.
Definition SYS_ILLEGAL_EXIT_CODE : ExitCode := 9.
Definition SYS_ASSERTION_FAILED : ExitCode := 10.
Definition SYS_MISSING_RETURN : ExitCode := 11.
Definition FIRST_USER_EXIT_CODE : Z := 16.

Definition is_success (c : ExitCode) : bool := c =? 0.
Definition is_system_error (c : ExitCode) : bool := c <? FIRST_USER_EXIT_CODE.
