(* ===== verification/Effects.v ===== *)
(** * State and errors

    The monad every stateful operation is written in: a Rust method on
    [&mut self] (or on [&self] with interior mutability) returning
    [Result<T>] becomes [M S T]. A failing operation keeps the mutations it
    made before it failed, as in the source.

    The second half is a small program logic: [pres R m] says that [m]
    relates every start state to its final state by [R], whatever it returns.
    With [R] a preorder the rule for sequencing is composition, so that the
    theorems about whole call trees are proved from facts about primitives. *)

From S2P Require Import Prelude.
From stdpp Require Import gmap strings list fin_maps.
From Stdlib Require Import ZArith Lia.
#[local] Open Scope Z_scope.

(** [ME Er S A]: the errors are [Er]; almost everywhere they are execution
    errors, and aborts inside an invocation. *)
Definition ME (Er S A : Type) : Type := S → result Er A * S.
Abbreviation M := (ME ExecutionError).

#[export] Instance M_ret Er S : MRet (ME Er S) := λ A a s, (Ok a, s).
#[export] Instance M_bind Er S : MBind (ME Er S) := λ A B k m s,
  match m s with
  | (Ok a, s') => k a s'
  | (Err e, s') => (Err e, s')
  end.

Definition throw {Er S A} (e : Er) : ME Er S A := λ s, (Err e, s).
Definition gets {Er S A} (f : S → A) : ME Er S A := λ s, (Ok (f s), s).
Definition modify {Er S} (f : S → S) : ME Er S unit := λ s, (Ok tt, f s).
Definition lift {Er S A} (r : result Er A) : ME Er S A := λ s, (r, s).

(** Run a computation and observe its result without propagating the error. *)
Definition attempt {Er Er' S A} (m : ME Er S A) : ME Er' S (result Er A) :=
  λ s, let '(r, s') := m s in (Ok r, s').

(** Run a computation on a component of the state. *)
Definition zoom {Er S T A} (get : S → T) (set : T → S → S) (m : ME Er T A) : ME Er S A :=
  λ s, let '(r, t) := m (get s) in (r, set t s).

(** [Result::map_err]. *)
Definition map_err {Er Er' S A} (f : Er → Er') (m : ME Er S A) : ME Er' S A :=
  λ s, let '(r, s') := m s in (match r with Ok a => Ok a | Err e => Err (f e) end, s').

(** ** Preservation *)

Definition pres {Er S A} (R : relation S) (m : ME Er S A) : Prop := ∀ s, R s (m s).2.

Create HintDb pres.

Section pres.
Context {Er S : Type} (R : relation S) `{HR : !PreOrder R}.

Lemma pres_ret {A} (a : A) : pres R (mret a : ME Er S A).
Proof. intros s. reflexivity. Qed.
Lemma pres_throw {A} e : pres R (throw e : ME Er S A).
Proof. intros s. reflexivity. Qed.
Lemma pres_lift {A} (r : result Er A) : pres R (lift r : ME Er S A).
Proof. intros s. reflexivity. Qed.
Lemma pres_gets {A} (f : S → A) : pres R (gets f : ME Er S A).
Proof. intros s. reflexivity. Qed.
Lemma pres_modify (f : S → S) : (∀ s, R s (f s)) → pres R (modify f : ME Er S unit).
Proof. intros H s. apply H. Qed.
Lemma pres_bind {A B} (m : ME Er S A) (k : A → ME Er S B) :
  pres R m → (∀ a, pres R (k a)) → pres R (m ≫= k).
Proof.
  intros Hm Hk s. unfold mbind, M_bind. specialize (Hm s).
  destruct (m s) as [[a|e] s'] eqn:E; simpl in *; [|done].
  etrans; [exact Hm|apply Hk].
Qed.
Lemma pres_attempt {Er' A} (m : ME Er S A) : pres R m → pres R (attempt m : ME Er' S _).
Proof. intros Hm s. unfold attempt. specialize (Hm s). by destruct (m s). Qed.
Lemma pres_map_err {Er' A} (f : Er → Er') (m : ME Er S A) : pres R m → pres R (map_err f m).
Proof. intros Hm s. unfold map_err. specialize (Hm s). by destruct (m s). Qed.
Lemma pres_zoom {T A} (g : S → T) u (m : ME Er T A) :
  (∀ s, R s (u (m (g s)).2 s)) → pres R (zoom g u m).
Proof. intros H s. unfold zoom. specialize (H s). by destruct (m (g s)). Qed.
End pres.

#[export] Hint Resolve pres_ret pres_throw pres_lift pres_gets : pres.

(** Decompose a computation along its control flow; the leaves are the
    primitives, closed by the [pres] hint database. *)
Ltac pres_step :=
  match goal with
  | |- pres _ (mbind _ _) => apply pres_bind; [try exact _| |intros ?]
  | |- pres _ (attempt _) => apply pres_attempt
  | |- pres _ (map_err _ _) => apply pres_map_err
  | |- pres _ (let '(_, _) := ?p in _) => destruct p
  | |- pres _ (match ?x with _ => _ end) => destruct x
  | |- pres _ _ => solve [eauto with pres typeclass_instances]
  end.
Ltac solve_pres := intros; repeat pres_step; try done.

(** Evaluation equations, used when a proof follows one run. *)
Lemma bind_ok {Er S A B} (m : ME Er S A) (k : A → ME Er S B) s a s' :
  m s = (Ok a, s') → (m ≫= k) s = k a s'.
Proof. intros H. unfold mbind, M_bind. by rewrite H. Qed.
Lemma bind_err {Er S A B} (m : ME Er S A) (k : A → ME Er S B) s e s' :
  m s = (Err e, s') → (m ≫= k) s = (Err e, s').
Proof. intros H. unfold mbind, M_bind. by rewrite H. Qed.
Lemma bind_inv_ok {Er S A B} (m : ME Er S A) (k : A → ME Er S B) s b s'' :
  (m ≫= k) s = (Ok b, s'') → ∃ a s', m s = (Ok a, s') ∧ k a s' = (Ok b, s'').
Proof. unfold mbind, M_bind. destruct (m s) as [[a|e] s']; naive_solver. Qed.
