(* ===== verification/Gas.v ===== *)
(** * Gas accounting (fvm/src/gas/mod.rs, charge.rs, outputs.rs)

    [Gas] is a [u64] count of milligas with saturating arithmetic. The
    [GasTracker] meters a message, with a stack of nested limits; [GasOutputs]
    settles the bill when the message is done. Timers ([GasTimer],
    [GasDuration]) only measure wall-clock time and are not modelled. *)

From S2P Require Import Prelude Effects.
From stdpp Require Import gmap strings list fin_maps.
From Stdlib Require Import ZArith Lia.
#[local] Open Scope Z_scope.

(** A [u64] of milligas: [N], so that it is non-negative by type. *)
Abbreviation Gas := N (only parsing).
Abbreviation TokenAmount := Z (only parsing).

Definition U64_MAX : N := 18446744073709551615.
Definition I64_MAX : N := 9223372036854775807.
Definition MILLIGAS_PRECISION : N := 1000.

(** [saturating_add], [saturating_sub] (truncated subtraction on [N] is the
    saturating one) and [saturating_mul]. *)
Definition gas_add (a b : Gas) : Gas := N.min (a + b) U64_MAX.
Definition gas_sub (a b : Gas) : Gas := (a - b)%N.
Definition gas_mul (a : Gas) (n : N) : Gas := N.min (a * n) U64_MAX.

Arguments gas_add : simpl never.
Arguments gas_sub : simpl never.
Arguments gas_mul : simpl never.

Definition Gas_new (gas : N) : Gas := N.min (gas * MILLIGAS_PRECISION) U64_MAX.

Definition milligas_to_gas (milligas : N) (round_up : bool) : N :=
  let div_result := (milligas / MILLIGAS_PRECISION)%N in
  if round_up && negb (milligas `mod` MILLIGAS_PRECISION =? 0)%N
  then N.min (div_result + 1) U64_MAX
  else div_result.

Definition round_up (g : Gas) : N := milligas_to_gas g true.
Definition round_down (g : Gas) : N := milligas_to_gas g false.

Record GasCharge := mkGasCharge {
  gc_name : string;
  compute_gas : Gas;
  other_gas : Gas;
}.

Definition gc_total (c : GasCharge) : Gas := gas_add (compute_gas c) (other_gas c).

Record GasSnapshot := mkGasSnapshot { snap_limit : Gas; snap_used : Gas }.

(** The snapshot vector is a stack: the list has its top (last pushed) first.
    The trace is in the order of the charges. *)
Record GasTracker := mkGasTracker {
  gas_limit : Gas;
  gas_used : Gas;
  gas_snapshots : list GasSnapshot;
  gas_trace : option (list GasCharge);
}.

Definition gt_new (limit used : Gas) (enable_tracing : bool) : GasTracker :=
  let limit := N.min limit I64_MAX in
  let used := N.min used limit in
  mkGasTracker limit used [] (if enable_tracing then Some [] else None).

Definition gt_set_used (u : Gas) (t : GasTracker) : GasTracker :=
  mkGasTracker (gas_limit t) u (gas_snapshots t) (gas_trace t).

Definition gt_push_trace (c : GasCharge) (t : GasTracker) : GasTracker :=
  mkGasTracker (gas_limit t) (gas_used t) (gas_snapshots t)
    ((λ tr, tr ++ [c]) <$> gas_trace t).

Definition charge_gas_inner (to_use : Gas) : M GasTracker unit := λ t,
  let used := gas_add (gas_used t) to_use in
  if (gas_limit t <? used)%N
  then (Err OutOfGas, gt_set_used (gas_limit t) t)
  else (Ok tt, gt_set_used used t).

(** The charge is traced whether or not it succeeded. *)
Definition gt_charge_gas (name : string) (to_use : Gas) : M GasTracker unit := λ t,
  let '(res, t) := charge_gas_inner to_use t in
  (res, gt_push_trace (mkGasCharge name to_use 0) t).

Definition apply_charge (charge : GasCharge) : M GasTracker unit := λ t,
  let '(res, t) := charge_gas_inner (gc_total charge) t in
  (res, gt_push_trace charge t).

Definition gas_available (t : GasTracker) : Gas := gas_sub (gas_limit t) (gas_used t).

Definition push_limit (new_limit : Gas) : M GasTracker unit := λ t,
  (Ok tt,
   mkGasTracker (N.min (gas_available t) new_limit) 0
     (mkGasSnapshot (gas_limit t) (gas_used t) :: gas_snapshots t) (gas_trace t)).

Definition pop_limit : M GasTracker unit := λ t,
  match gas_snapshots t with
  | [] => (Err (Fatal "no gas limits to pop"), t)
  | snap :: rest =>
      (Ok tt, mkGasTracker (snap_limit snap) (gas_add (gas_used t) (snap_used snap))
                rest (gas_trace t))
  end.

Definition drain_trace : M GasTracker (list GasCharge) := λ t,
  (Ok (default [] (gas_trace t)),
   mkGasTracker (gas_limit t) (gas_used t) (gas_snapshots t)
     ((λ _, []) <$> gas_trace t)).

(** ** Settlement (outputs.rs) *)

(** The intermediate products are [u128]: they cannot overflow (see
    [overestimation_no_overflow]); the results are cast back to [u64]. *)
Definition compute_gas_overestimation_burn (gas_used gas_limit : Z) : Z * Z :=
  if gas_used =? 0 then (0, gas_limit) else
  let over := Z.min (sat_sub gas_limit ((11 * gas_used) / 10)) gas_used in
  let gas_remaining := sat_sub gas_limit gas_used in
  let gas_to_burn := (gas_remaining * over) / gas_used in
  let refund := sat_sub gas_remaining gas_to_burn in
  (wrap64 refund, wrap64 gas_to_burn).

Record GasOutputs := mkGasOutputs {
  base_fee_burn : TokenAmount;
  over_estimation_burn : TokenAmount;
  miner_penalty : TokenAmount;
  miner_tip : TokenAmount;
  refund : TokenAmount;
  gas_refund : Z;
  gas_burned : Z;
}.

Definition GasOutputs_compute (gas_used gas_limit : Z)
    (base_fee fee_cap gas_premium : TokenAmount) : GasOutputs :=
  let '(base_fee_to_pay, penalty) :=
    if fee_cap <? base_fee then (fee_cap, (base_fee - fee_cap) * gas_used)
    else (base_fee, 0) in
  let base_fee_burn := base_fee_to_pay * gas_used in
  let tip := if fee_cap <? base_fee_to_pay + gas_premium
             then fee_cap - base_fee_to_pay else gas_premium in
  let miner_tip := tip * gas_limit in
  let '(gas_refund, gas_burned) := compute_gas_overestimation_burn gas_used gas_limit in
  let '(over_estimation_burn, penalty) :=
    if negb (gas_burned =? 0)
    then (base_fee_to_pay * gas_burned,
          penalty + (base_fee - base_fee_to_pay) * gas_burned)
    else (0, penalty) in
  let required_funds := fee_cap * gas_limit in
  let refund := required_funds - base_fee_burn - miner_tip - over_estimation_burn in
  mkGasOutputs base_fee_burn over_estimation_burn penalty miner_tip refund
    gas_refund gas_burned.

(** The cases of [overestimation_burn_test] and [gas_outputs_test]. *)
Example overestimation_burn_cases :
  (λ '(used, limit), compute_gas_overestimation_burn used limit) <$>
    [(100, 200); (100, 150); (1000, 1300); (500, 700); (200, 200); (20000, 21000); (0, 2000);
     (500, 651); (500, 5000); (7499000000, 7500000000); (7500000000 / 2, 7500000000); (1, 7500000000)]
  = [(10, 90); (30, 20); (240, 60); (140, 60); (0, 0); (1000, 0); (0, 2000);
     (121, 30); (0, 4500); (1000000, 0); (375000000, 3375000000); (0, 7499999999)].
Proof. reflexivity. Qed.
Example gas_outputs_cases :
  (λ '(used, limit, cap, premium), let o := GasOutputs_compute used limit 10 cap premium in
     (base_fee_burn o, over_estimation_burn o, miner_penalty o, miner_tip o, refund o)) <$>
    [(100, 110, 11, 1); (100, 130, 11, 1); (100, 110, 10, 1); (100, 110, 6, 1)]
  = [(1000, 0, 0, 110, 100); (1000, 60, 0, 130, 240); (1000, 0, 0, 0, 100); (600, 0, 400, 0, 60)].
Proof. reflexivity. Qed.

(** ** The tracker's invariant

    What has been used never exceeds the limit, and a nested limit never
    exceeds what was available when it was pushed: popping it cannot push the
    outer consumption over the outer limit. *)

Fixpoint snaps_ok (limit : Gas) (l : list GasSnapshot) : Prop :=
  match l with
  | [] => (limit ≤ I64_MAX)%N
  | s :: l' => (snap_used s + limit ≤ snap_limit s)%N ∧ snaps_ok (snap_limit s) l'
  end.

Definition gt_ok (t : GasTracker) : Prop :=
  (gas_used t ≤ gas_limit t)%N ∧ snaps_ok (gas_limit t) (gas_snapshots t).

(** What a balanced computation (every pushed limit popped again) may do to a
    tracker: the limits in force are unchanged and consumption only grows. *)
Definition gt_le (t t' : GasTracker) : Prop :=
  gas_limit t' = gas_limit t ∧ gas_snapshots t' = gas_snapshots t ∧
  (gt_ok t → gt_ok t' ∧ (gas_used t ≤ gas_used t')%N).

#[export] Instance gt_le_preorder : PreOrder gt_le.
Proof.
  split; [intros t; unfold gt_le; intuition lia|].
  intros t1 t2 t3 (?&?&H1) (?&?&H2). unfold gt_le.
  split; [congruence|split; [congruence|]]. intros Ht.
  destruct (H1 Ht) as [Ht2 ?], (H2 Ht2) as [? ?]. split; [done|lia].
Qed.

#[export] Hint Unfold gas_sub gas_available : machine.

Lemma I64_lt_U64 : (I64_MAX < U64_MAX)%N.
Proof. reflexivity. Qed.

(** Below [i64::MAX], which every limit is, saturation never interferes. *)
Lemma gas_add_small a b l : (a + b ≤ l)%N → (l ≤ I64_MAX)%N → gas_add a b = (a + b)%N.
Proof. pose proof I64_lt_U64. unfold gas_add. lia. Qed.
Lemma gas_add_over a b l : (l < a + b)%N → (l ≤ I64_MAX)%N → (l < gas_add a b)%N.
Proof. pose proof I64_lt_U64. unfold gas_add. lia. Qed.

Lemma snaps_ok_bound limit l : snaps_ok limit l → (limit ≤ I64_MAX)%N.
Proof.
  revert limit. induction l as [|s l IH]; simpl; [done|].
  intros limit [? H]. apply IH in H. lia.
Qed.

(** A charge that fits is added exactly; one that does not fit uses up the
    whole limit. *)
Lemma charge_gas_inner_spec g t :
  gt_ok t →
  charge_gas_inner g t =
    if decide (gas_used t + g ≤ gas_limit t)%N
    then (Ok tt, gt_set_used (gas_used t + g) t)
    else (Err OutOfGas, gt_set_used (gas_limit t) t).
Proof.
  intros [H1 H3]. unfold charge_gas_inner.
  pose proof (snaps_ok_bound _ _ H3) as Hb. case_decide as Hd.
  - rewrite (gas_add_small _ _ _ Hd Hb).
    destruct (N.ltb_spec (gas_limit t) (gas_used t + g)); [lia|done].
  - pose proof (gas_add_over (gas_used t) g (gas_limit t) ltac:(lia) Hb).
    destruct (N.ltb_spec (gas_limit t) (gas_add (gas_used t) g)); [done|lia].
Qed.

Lemma gt_le_charge_inner g t : gt_le t (charge_gas_inner g t).2.
Proof.
  split_and!; [by unfold charge_gas_inner; case_match|
    by unfold charge_gas_inner; case_match|].
  intros Ht. rewrite (charge_gas_inner_spec _ _ Ht). destruct Ht as [? Hs].
  case_decide; simpl; (split; [split; [simpl; lia|done]|simpl; lia]).
Qed.

Lemma gt_le_push_trace c t : gt_le t (gt_push_trace c t).
Proof. unfold gt_le, gt_push_trace, gt_ok; simpl; intuition lia. Qed.

Lemma gt_le_gt_charge name g : pres gt_le (gt_charge_gas name g).
Proof.
  intros t. unfold gt_charge_gas. pose proof (gt_le_charge_inner g t).
  destruct (charge_gas_inner g t) as [r t']. simpl in *.
  etrans; [eassumption|apply gt_le_push_trace].
Qed.

Lemma gt_le_apply_charge c : pres gt_le (apply_charge c).
Proof.
  intros t. unfold apply_charge. pose proof (gt_le_charge_inner (gc_total c) t).
  destruct (charge_gas_inner (gc_total c) t) as [r t']. simpl in *.
  etrans; [eassumption|apply gt_le_push_trace].
Qed.

Lemma gt_le_drain : pres gt_le drain_trace.
Proof. intros t. unfold gt_le, drain_trace, gt_ok; simpl; intuition lia. Qed.

#[export] Hint Resolve gt_le_gt_charge gt_le_apply_charge gt_le_drain : pres.

Lemma gt_new_ok limit used tr : gt_ok (gt_new limit used tr).
Proof. unfold gt_ok, gt_new; simpl. lia. Qed.

Lemma push_limit_ok l t : gt_ok t → gt_ok (push_limit l t).2.
Proof. intros [? ?]. unfold gt_ok; simpl. split_and!; try done; mlia. Qed.

(** The body of a limited call sees the pushed limit; whatever balanced
    computation it is, the pop restores the caller's limits and charges the
    caller exactly what the body used. *)
Lemma push_pop_le l t t2 :
  gt_le (push_limit l t).2 t2 →
  ∃ t3, pop_limit t2 = (Ok tt, t3) ∧ gt_le t t3 ∧
    (gt_ok t → gas_used t3 = (gas_used t + gas_used t2)%N ∧ (gas_used t2 ≤ l)%N).
Proof.
  intros (Hl & Hs & Hok). simpl in *. unfold pop_limit. rewrite Hs.
  eexists. split; [done|].
  assert (gt_ok t → gas_add (gas_used t2) (gas_used t) = (gas_used t + gas_used t2)%N ∧
    (gas_used t2 ≤ l)%N ∧ (gas_used t + gas_used t2 ≤ gas_limit t)%N) as Hadd.
  { intros Ht. destruct (Hok (push_limit_ok l t Ht)) as [[Hu _] _].
    rewrite Hl in Hu. destruct Ht as [Hul Hsn]. apply snaps_ok_bound in Hsn.
    rewrite (gas_add_small _ _ (gas_limit t)); mlia. }
  split.
  - split_and!; [done|done|]. intros Ht. destruct (Hadd Ht) as (E&?&?).
    unfold gt_ok; cbn [gas_used gas_limit gas_snapshots snap_used snap_limit]. rewrite E. destruct Ht. split_and!; try done; lia.
  - intros Ht. destruct (Hadd Ht) as (E&?&?). cbn [gas_used snap_used]. by rewrite E.
Qed.

(** ** Settlement *)

Lemma over_bounds used limit :
  0 < used → used ≤ limit →
  let over := Z.min (sat_sub limit ((11 * used) / 10)) used in
  0 ≤ over ≤ used ∧ 0 ≤ ((limit - used) * over) / used ≤ limit - used.
Proof.
  intros H1 H2 over. assert (0 ≤ over ≤ used) as Ho by (unfold over; mlia).
  split; [done|]. split; [apply Z.div_pos; nia|].
  apply Z.div_le_upper_bound; nia.
Qed.

(** The [u128] products of the computation stay below 2^128. *)
Lemma overestimation_no_overflow used limit :
  in_u64 used → in_u64 limit → 0 < used →
  11 * used < 2 ^ 128 ∧
  sat_sub limit used * Z.min (sat_sub limit ((11 * used) / 10)) used < 2 ^ 128.
Proof.
  intros Hu Hl Hp. split; [mlia|].
  assert (0 ≤ Z.min (sat_sub limit ((11 * used) / 10)) used ≤ u64_max) by mlia.
  assert (0 ≤ sat_sub limit used ≤ u64_max) by mlia.
  unfold u64_max in *. nia.
Qed.

(** The gas limit is split exactly into gas used, refunded and burned. *)
Lemma overestimation_split used limit r b :
  in_u64 used → in_u64 limit → used ≤ limit →
  compute_gas_overestimation_burn used limit = (r, b) →
  used + r + b = limit ∧ 0 ≤ r ∧ 0 ≤ b.
Proof.
  intros Hu Hl Hle. unfold compute_gas_overestimation_burn.
  destruct (Z.eqb_spec used 0) as [->|Hn]; [intros [= <- <-]; mlia|].
  destruct (over_bounds used limit ltac:(mlia) Hle) as [_ Hb].
  assert (sat_sub limit used = limit - used) as -> by mlia.
  revert Hb. generalize (((limit - used) *
    Z.min (sat_sub limit (11 * used / 10)) used) / used) as burn.
  intros burn Hb. rewrite !wrap64_small by mlia. intros [= <- <-]. mlia.
Qed.

Lemma overestimation_over_limit used limit :
  in_u64 used → 0 ≤ limit < used →
  compute_gas_overestimation_burn used limit = (0, 0).
Proof.
  intros Hu Hl. unfold compute_gas_overestimation_burn.
  destruct (Z.eqb_spec used 0); [lia|].
  assert (sat_sub limit used = 0) as -> by mlia.
  rewrite Z.mul_0_l, Z.div_0_l by lia. done.
Qed.

(** The closed form of the fee market. *)
Lemma gas_outputs_closed used limit base_fee fee_cap premium
    (Hu : in_u64 used) (Hl : in_u64 limit) (Hle : used ≤ limit)
    (Hb : 0 ≤ base_fee) (Hc : 0 ≤ fee_cap) (Hp : 0 ≤ premium) :
  let o := GasOutputs_compute used limit base_fee fee_cap premium in
  let fee := Z.min base_fee fee_cap in
  used + gas_refund o + gas_burned o = limit ∧
  base_fee_burn o = fee * used ∧
  over_estimation_burn o = fee * gas_burned o ∧
  miner_penalty o = (base_fee - fee) * (used + gas_burned o) ∧
  miner_tip o = Z.min premium (fee_cap - fee) * limit ∧
  base_fee_burn o + over_estimation_burn o + refund o + miner_tip o = fee_cap * limit ∧
  0 ≤ base_fee_burn o ∧ 0 ≤ over_estimation_burn o ∧ 0 ≤ miner_penalty o ∧
  0 ≤ miner_tip o ∧ 0 ≤ refund o ∧ 0 ≤ gas_refund o ∧ 0 ≤ gas_burned o.
Proof.
  intros o fee. unfold o, GasOutputs_compute.
  destruct (compute_gas_overestimation_burn used limit) as [gr gb] eqn:E.
  destruct (overestimation_split _ _ _ _ Hu Hl Hle E) as (Hsum & Hr & Hgb).
  assert (0 ≤ used) by mlia.
  assert (0 ≤ fee ≤ fee_cap ∧ fee ≤ base_fee) as [? ?] by lia.
  destruct (Z.ltb_spec fee_cap base_fee).
  - assert (fee = fee_cap) as Ef by lia. rewrite Ef.
    destruct (Z.ltb_spec fee_cap (fee_cap + premium)), (Z.eqb_spec gb 0); simpl;
      split_and!; nia.
  - assert (fee = base_fee) as Ef by lia. rewrite Ef in *.
    destruct (Z.ltb_spec fee_cap (base_fee + premium)), (Z.eqb_spec gb 0); simpl;
      split_and!; nia.
Qed.



(** metering. A charge against a well-formed tracker either fits and is
    added exactly, or fails with [OutOfGas] and leaves no gas available; it
    never touches the limits, is traced either way when tracing is on, and
    keeps the tracker well formed. *)
Theorem apply_charge_spec c t (Hok : gt_ok t) :
  ∃ t', gt_ok t' ∧ gas_limit t' = gas_limit t ∧ gas_snapshots t' = gas_snapshots t ∧
    gas_trace t' = (λ tr, tr ++ [c]) <$> gas_trace t ∧
    if decide (gas_used t + gc_total c ≤ gas_limit t)%N
    then apply_charge c t = (Ok tt, t') ∧ gas_used t' = (gas_used t + gc_total c)%N
    else apply_charge c t = (Err OutOfGas, t') ∧ gas_available t' = 0%N.
Proof.
  pose proof (gt_le_apply_charge c t) as (Hl & Hs & Hok'). destruct (Hok' Hok) as [Ht' _].
  exists (apply_charge c t).2. split_and!; try done.
  - unfold apply_charge, charge_gas_inner. by destruct (_ <? _)%N.
  - unfold apply_charge. rewrite (charge_gas_inner_spec _ _ Hok). case_decide; simpl.
    + done.
    + split; [done|]. unfold gas_available, gas_sub; simpl. lia.
Qed.

Lemma apply_charge_spec_witness :
  ∃ t', gt_ok t' ∧ apply_charge (mkGasCharge "x" 1 1) (gt_new 1 0 false) = (Err OutOfGas, t').
Proof.
  destruct (apply_charge_spec (mkGasCharge "x" 1 1) (gt_new 1 0 false) (gt_new_ok 1 0 false))
    as (t' & ? & _ & _ & _ & H).
  exists t'. split; [done|]. destruct (decide _) as [Hd|_]; [|exact (proj1 H)].
  exfalso. vm_compute in Hd. apply Hd. reflexivity.
Defined.

(** nested gas limits. Run any balanced computation under a pushed limit
    and pop it: the pop succeeds, the caller's limits are exactly restored, the
    caller is charged exactly what the computation used, and that is at most
    the pushed limit and at most what the caller had available. *)
Theorem push_pop_limit_exact {A} (m : M GasTracker A) l t
    (Hm : pres gt_le m) (Hok : gt_ok t) :
  let t1 := (push_limit l t).2 in
  let t2 := (m t1).2 in
  ∃ t3, pop_limit t2 = (Ok tt, t3) ∧ gt_ok t3 ∧
    gas_limit t3 = gas_limit t ∧ gas_snapshots t3 = gas_snapshots t ∧
    gas_used t3 = (gas_used t + gas_used t2)%N ∧
    (gas_used t2 ≤ l)%N ∧ (gas_used t2 ≤ gas_available t)%N.
Proof.
  intros t1 t2. destruct (push_pop_le l t t2 (Hm _)) as (t3 & Hp & Hle & Hu).
  destruct (Hu Hok) as [Hu1 Hu2]. destruct Hle as (?&?&Hle). destruct (Hle Hok) as [Ht3 _].
  exists t3. split_and!; try done. destruct Ht3 as [Ht3 _]. mlia.
Qed.

Lemma push_pop_limit_exact_witness :
  ∃ t3, pop_limit ((gt_charge_gas "x" 7) ((push_limit 5 (gt_new 100 3 false)).2)).2 = (Ok tt, t3)
    ∧ gas_used t3 = 8%N.
Proof.
  destruct (push_pop_limit_exact (gt_charge_gas "x" 7) 5 (gt_new 100 3 false)
    (gt_le_gt_charge "x" 7) (gt_new_ok 100 3 false)) as (t3&H1&_&_&_&H2&_).
  exists t3. split; [exact H1|]. rewrite H2. reflexivity.
Defined.
