(* ===== verification/PriceList.v ===== *)
(** * Gas prices (fvm/src/gas/price_list.rs)

    The price list in force since network version 21, and one definition per
    price the VM charges. Hash maps with one entry per enum member
    ([total_enum_map!]) are functions; partial hash maps are functions into
    [option]. The per-instruction Wasm table is [WasmPrices]. *)

From S2P Require Import Prelude Effects Gas.
From stdpp Require Import gmap strings list fin_maps.
From Stdlib Require Import ZArith Lia.
#[local] Open Scope Z_scope.

Abbreviation ActorID := Z (only parsing).

Inductive SignatureType := Secp256k1 | BLS.
Inductive SupportedHashes := Sha2_256 | Blake2b256 | Blake2b512 | Keccak256 | Ripemd160.

#[export] Instance SupportedHashes_eq_dec : EqDecision SupportedHashes.
Proof. solve_decision. Defined.

Inductive RegisteredSealProof :=
  | StackedDRG2KiBV1 | StackedDRG512MiBV1 | StackedDRG8MiBV1
  | StackedDRG32GiBV1 | StackedDRG64GiBV1
  | StackedDRG2KiBV1P1 | StackedDRG512MiBV1P1 | StackedDRG8MiBV1P1
  | StackedDRG32GiBV1P1 | StackedDRG64GiBV1P1
  | StackedDRG2KiBV1P1_Feat_SyntheticPoRep | StackedDRG512MiBV1P1_Feat_SyntheticPoRep
  | StackedDRG8MiBV1P1_Feat_SyntheticPoRep | StackedDRG32GiBV1P1_Feat_SyntheticPoRep
  | StackedDRG64GiBV1P1_Feat_SyntheticPoRep
  | StackedDRG2KiBV1P2_Feat_NiPoRep | StackedDRG512MiBV1P2_Feat_NiPoRep
  | StackedDRG8MiBV1P2_Feat_NiPoRep | StackedDRG32GiBV1P2_Feat_NiPoRep
  | StackedDRG64GiBV1P2_Feat_NiPoRep
  | SealInvalid (i : Z).

Inductive RegisteredPoStProof :=
  | StackedDRGWinning2KiBV1 | StackedDRGWinning8MiBV1 | StackedDRGWinning512MiBV1
  | StackedDRGWinning32GiBV1 | StackedDRGWinning64GiBV1
  | StackedDRGWindow2KiBV1P1 | StackedDRGWindow8MiBV1P1 | StackedDRGWindow512MiBV1P1
  | StackedDRGWindow32GiBV1P1 | StackedDRGWindow64GiBV1P1
  | PoStInvalid (i : Z).

Record ScalingCost := mkScalingCost { sc_flat : Gas; sc_scale : Gas }.

Definition sc_apply (c : ScalingCost) (value : N) : Gas :=
  gas_add (sc_flat c) (gas_mul (sc_scale c) value).
Definition sc_fixed (g : Gas) : ScalingCost := mkScalingCost g 0.
Definition sc_zero : ScalingCost := mkScalingCost 0 0.

Record Step := mkStep { step_start : N; step_cost : Gas }.

(** [StepCost::lookup]: the last step starting at or before [x]. *)
Definition step_lookup (steps : list Step) (x : N) : Gas :=
  match List.find (λ s, (step_start s <=? x)%N) (reverse steps) with
  | Some s => step_cost s
  | None => 0%N
  end.

Record WasmGasPrices := mkWasmGasPrices {
  instruction_default : Gas;
  math_default : Gas;
  jump_unconditional : Gas;
  jump_conditional : Gas;
  jump_indirect : Gas;
  wasm_call : Gas;
  memory_fill_base_cost : Gas;
  memory_fill_per_byte_cost : Gas;
  memory_access_cost : Gas;
  memory_copy_per_byte_cost : Gas;
  host_call_cost : Gas;
}.

Record PriceList := mkPriceList {
  on_chain_message_compute : ScalingCost;
  on_chain_message_storage : ScalingCost;
  on_chain_return_compute : ScalingCost;
  on_chain_return_storage : ScalingCost;
  send_transfer_funds : Gas;
  send_invoke_method : Gas;
  address_lookup : Gas;
  address_assignment : Gas;
  actor_lookup : Gas;
  actor_update : Gas;
  actor_create_storage : Gas;
  sig_cost : SignatureType → ScalingCost;
  secp256k1_recover_cost : Gas;
  bls_pairing_cost : Gas;
  bls_hashing_cost : ScalingCost;
  hashing_cost : SupportedHashes → ScalingCost;
  lookback_cost : ScalingCost;
  compute_unsealed_sector_cid_base : Gas;
  verify_seal_base : Gas;
  verify_aggregate_seal_per : RegisteredSealProof → option Gas;
  verify_aggregate_seal_steps : RegisteredSealProof → option (list Step);
  verify_post_lookup : RegisteredPoStProof → option ScalingCost;
  verify_consensus_fault : Gas;
  verify_replica_update : Gas;
  block_memcpy : ScalingCost;
  block_allocate : ScalingCost;
  block_memory_retention_minimum : ScalingCost;
  pl_block_open : ScalingCost;
  block_persist_storage : ScalingCost;
  block_persist_compute : Gas;
  wasm_rules : WasmGasPrices;
  event_per_entry : ScalingCost;
  builtin_actor_manifest_lookup : Gas;
  utf8_validation : ScalingCost;
  pl_network_context : Gas;
  pl_message_context : Gas;
  install_wasm_per_byte_cost : Gas;
  preloaded_actors : list ActorID;
  ipld_cbor_scan_per_field : Gas;
  ipld_cbor_scan_per_cid : Gas;
  ipld_link_tracked : Gas;
  ipld_link_checked : Gas;
}.

Definition WATERMELON_PRICES : PriceList := {|
  on_chain_message_compute := sc_fixed (Gas_new 38863);
  on_chain_message_storage := mkScalingCost (Gas_new (36 * 1300)) (Gas_new 1300);
  on_chain_return_compute := sc_zero;
  on_chain_return_storage := mkScalingCost 0 (Gas_new 1300);
  send_transfer_funds := Gas_new 6000;
  send_invoke_method := Gas_new 75000;
  actor_lookup := Gas_new 500000;
  actor_update := Gas_new 475000;
  actor_create_storage := Gas_new 650000;
  address_lookup := Gas_new 1050000;
  address_assignment := Gas_new 1000000;
  sig_cost := λ t, match t with
    | Secp256k1 => mkScalingCost (Gas_new 1637292) (Gas_new 10)
    | BLS => mkScalingCost (Gas_new 16598605) (Gas_new 26)
    end;
  secp256k1_recover_cost := Gas_new 1637292;
  bls_pairing_cost := Gas_new 8299302;
  bls_hashing_cost := mkScalingCost 0 (Gas_new 7);
  hashing_cost := λ h, match h with
    | Sha2_256 => mkScalingCost 0 (Gas_new 7)
    | Blake2b256 => mkScalingCost 0 (Gas_new 10)
    | Blake2b512 => mkScalingCost 0 (Gas_new 10)
    | Keccak256 => mkScalingCost 0 (Gas_new 33)
    | Ripemd160 => mkScalingCost 0 (Gas_new 35)
    end;
  compute_unsealed_sector_cid_base := Gas_new 98647;
  verify_seal_base := Gas_new 2000;
  verify_aggregate_seal_per := λ p, match p with
    | StackedDRG32GiBV1P1 => Some (Gas_new 449900)
    | StackedDRG64GiBV1P1 => Some (Gas_new 359272)
    | _ => None
    end;
  verify_aggregate_seal_steps := λ p, match p with
    | StackedDRG32GiBV1P1 => Some
        [mkStep 4 (Gas_new 103994170); mkStep 7 (Gas_new 112356810);
         mkStep 13 (Gas_new 122912610); mkStep 26 (Gas_new 137559930);
         mkStep 52 (Gas_new 162039100); mkStep 103 (Gas_new 210960780);
         mkStep 205 (Gas_new 318351180); mkStep 410 (Gas_new 528274980)]
    | StackedDRG64GiBV1P1 => Some
        [mkStep 4 (Gas_new 102581240); mkStep 7 (Gas_new 110803030);
         mkStep 13 (Gas_new 120803700); mkStep 26 (Gas_new 134642130);
         mkStep 52 (Gas_new 157357890); mkStep 103 (Gas_new 203017690);
         mkStep 205 (Gas_new 304253590); mkStep 410 (Gas_new 509880640)]
    | _ => None
    end;
  verify_consensus_fault := Gas_new 516422;
  verify_replica_update := Gas_new 36316136;
  verify_post_lookup := λ p, match p with
    | StackedDRGWindow512MiBV1P1 | StackedDRGWindow32GiBV1P1
    | StackedDRGWindow64GiBV1P1 => Some (mkScalingCost (Gas_new 117680921) (Gas_new 43780))
    | _ => None
    end;
  lookback_cost := mkScalingCost (Gas_new (5800 * 19 + 15000 + 21000)) (Gas_new 75);
  block_allocate := mkScalingCost 0 (Gas_new 2);
  block_memcpy := mkScalingCost 0 400;
  block_memory_retention_minimum := mkScalingCost 0 (Gas_new 10);
  pl_block_open := mkScalingCost (Gas_new 187440) 0;
  block_persist_storage := mkScalingCost (Gas_new 334000) (Gas_new 3340);
  block_persist_compute := Gas_new 172000;
  builtin_actor_manifest_lookup := 0;
  pl_network_context := 0;
  pl_message_context := 0;
  install_wasm_per_byte_cost := 0;
  wasm_rules := {|
    instruction_default := Gas_new 4;
    math_default := Gas_new 4;
    jump_unconditional := Gas_new 4;
    jump_conditional := Gas_new 4;
    jump_indirect := Gas_new 4;
    wasm_call := 0;
    memory_fill_base_cost := 0;
    memory_access_cost := 0;
    memory_copy_per_byte_cost := 400;
    memory_fill_per_byte_cost := 400;
    host_call_cost := Gas_new 14000;
  |};
  event_per_entry := mkScalingCost (Gas_new 2000) (Gas_new 1400);
  utf8_validation := mkScalingCost (Gas_new 500) (Gas_new 16);
  preloaded_actors := [0; 1; 2; 3; 4; 5; 6; 7; 10; 99];
  ipld_cbor_scan_per_cid := Gas_new 400;
  ipld_cbor_scan_per_field := Gas_new 35;
  ipld_link_tracked := Gas_new 300;
  ipld_link_checked := Gas_new 300;
|}.

(** [None] is the panic of an unsupported version. *)
Definition price_list_by_network_version (network_version : Z) : option PriceList :=
  if bool_decide (network_version ∈ [21; 22; 23; 24; 25]) then Some WATERMELON_PRICES else None.

Definition TABLE_ELEMENT_SIZE : N := 8.
Definition EVENT_OVERHEAD : N := 12.
Definition EVENT_ENTRY_OVERHEAD : N := 9.

Definition init_memory_gas (w : WasmGasPrices) (min_memory_bytes : N) : Gas :=
  gas_add (memory_fill_base_cost w) (gas_mul (memory_fill_per_byte_cost w) min_memory_bytes).
Definition grow_memory_gas (w : WasmGasPrices) (grow_memory_bytes : N) : Gas :=
  gas_add (memory_fill_base_cost w) (gas_mul (memory_fill_per_byte_cost w) grow_memory_bytes).
Definition init_table_gas (w : WasmGasPrices) (min_table_elements : N) : Gas :=
  gas_add (memory_fill_base_cost w)
    (gas_mul (gas_mul (memory_fill_per_byte_cost w) min_table_elements) TABLE_ELEMENT_SIZE).

(** [ChainEpoch as u64]: a negative lookback wraps. *)
Definition epoch_as_u64 (e : Z) : N := Z.to_N (wrap64 e).

Section prices.
Context (pl : PriceList).

Definition on_chain_message (msg_size : N) : GasCharge :=
  mkGasCharge "OnChainMessage" (sc_apply (on_chain_message_compute pl) msg_size)
    (gas_add (actor_update pl) (sc_apply (on_chain_message_storage pl) msg_size)).
Definition on_value_transfer : GasCharge :=
  mkGasCharge "OnValueTransfer" (send_transfer_funds pl) 0.
Definition on_method_invocation (param_size param_links : N) : GasCharge :=
  mkGasCharge "OnMethodInvocation"
    (gas_add (send_invoke_method pl) (gas_mul (ipld_link_tracked pl) param_links)) 0.
Definition on_method_return (call_depth : Z) (return_size return_links : N) : GasCharge :=
  if call_depth =? 1 then
    mkGasCharge "OnChainReturnValue" (sc_apply (on_chain_return_compute pl) return_size)
      (sc_apply (on_chain_return_storage pl) return_size)
  else
    mkGasCharge "OnReturnValue" (gas_mul (ipld_link_tracked pl) return_links) 0.
Definition on_create_actor (new_address : bool) : GasCharge :=
  let gas := actor_create_storage pl in
  let gas := if new_address
    then gas_add gas (gas_add (address_assignment pl) (address_lookup pl)) else gas in
  mkGasCharge "OnCreateActor" 0 gas.
Definition on_delete_actor : GasCharge := mkGasCharge "OnDeleteActor" 0 0.
Definition on_verify_signature (sig_type : SignatureType) (data_len : N) : GasCharge :=
  mkGasCharge "OnVerifySignature" (sc_apply (sig_cost pl sig_type) data_len) 0.
Definition on_verify_aggregate_signature (num_sigs data_len : N) : GasCharge :=
  let num_pairings := ((num_sigs + 1) `mod` 18446744073709551616)%N in
  let gas_pairings := gas_mul (bls_pairing_cost pl) num_pairings in
  let gas_hashing := sc_apply (bls_hashing_cost pl) data_len in
  mkGasCharge "OnVerifyBlsAggregateSignature" (gas_add gas_pairings gas_hashing) 0.
Definition on_recover_secp_public_key : GasCharge :=
  mkGasCharge "OnRecoverSecpPublicKey" (secp256k1_recover_cost pl) 0.
Definition on_hashing (hasher : SupportedHashes) (data_len : N) : GasCharge :=
  mkGasCharge "OnHashing" (sc_apply (hashing_cost pl hasher) data_len) 0.
Definition on_utf8_validation (len : N) : GasCharge :=
  mkGasCharge "OnUtf8Validation" (sc_apply (utf8_validation pl) len) 0.
Definition on_compute_unsealed_sector_cid : GasCharge :=
  mkGasCharge "OnComputeUnsealedSectorCid" (compute_unsealed_sector_cid_base pl) 0.
Definition on_verify_seal : GasCharge := mkGasCharge "OnVerifySeal" (verify_seal_base pl) 0.

(** [None] is the panic when the table lacks the fallback entry. *)
Definition on_verify_aggregate_seals (proof_type : RegisteredSealProof) (num : N)
    : option GasCharge :=
  let with_fallback {A} (get : RegisteredSealProof → option A) :=
    match get proof_type with Some x => Some x | None => get StackedDRG32GiBV1P1 end in
  per_proof ← with_fallback (verify_aggregate_seal_per pl);
  step ← with_fallback (verify_aggregate_seal_steps pl);
  Some (mkGasCharge "OnVerifyAggregateSeals"
    (gas_add (gas_mul per_proof num) (step_lookup step num)) 0).
Definition on_verify_replica_update : GasCharge :=
  mkGasCharge "OnVerifyReplicaUpdate" (verify_replica_update pl) 0.
Definition on_verify_post (first_proof : option RegisteredPoStProof) (challenged : N)
    : option GasCharge :=
  let p_proof := default StackedDRGWindow512MiBV1P1 first_proof in
  cost ← match verify_post_lookup pl p_proof with
         | Some c => Some c
         | None => verify_post_lookup pl StackedDRGWindow512MiBV1P1
         end;
  Some (mkGasCharge "OnVerifyPost" (sc_apply cost challenged) 0).
Definition on_verify_consensus_fault : GasCharge :=
  mkGasCharge "OnVerifyConsensusFault" 0 (verify_consensus_fault pl).
Definition on_get_randomness (lookback : Z) : GasCharge :=
  mkGasCharge "OnGetRandomness" 0 (sc_apply (lookback_cost pl) (epoch_as_u64 lookback)).
Definition on_block_open_base : GasCharge :=
  mkGasCharge "OnBlockOpenBase" (ipld_link_checked pl) (sc_flat (pl_block_open pl)).
Definition on_block_open (data_size links : N) : GasCharge :=
  let compute := gas_mul (ipld_link_tracked pl) links in
  let block_open :=
    gas_add (gas_add (gas_mul (sc_scale (pl_block_open pl)) data_size)
                     (sc_apply (block_allocate pl) data_size))
            (sc_apply (block_memcpy pl) data_size) in
  let retention_min := sc_apply (block_memory_retention_minimum pl) data_size in
  let retention_surcharge := N.max (gas_sub retention_min (gas_add compute block_open)) 0 in
  mkGasCharge "OnBlockOpen" compute (gas_add block_open retention_surcharge).
Definition on_block_read (data_size : N) : GasCharge :=
  mkGasCharge "OnBlockRead" (sc_apply (block_memcpy pl) data_size) 0.
Definition on_block_create (data_size links : N) : GasCharge :=
  let compute :=
    gas_add (gas_add (sc_apply (block_memcpy pl) data_size)
                     (sc_apply (block_allocate pl) data_size))
            (gas_mul (ipld_link_checked pl) links) in
  let retention_min := sc_apply (block_memory_retention_minimum pl) data_size in
  let retention_surcharge := N.max (gas_sub retention_min compute) 0 in
  mkGasCharge "OnBlockCreate" compute retention_surcharge.
Definition on_block_link (hash_code : SupportedHashes) (data_size : N) : GasCharge :=
  let memcpy := sc_apply (block_memcpy pl) data_size in
  let alloc := sc_apply (block_allocate pl) data_size in
  let hashing := sc_apply (hashing_cost pl hash_code) data_size in
  let initial_compute :=
    gas_add (gas_add (gas_add memcpy alloc) hashing) (ipld_link_tracked pl) in
  let storage := sc_apply (block_persist_storage pl) data_size in
  let deferred_compute := block_persist_compute pl in
  mkGasCharge "OnBlockLink" initial_compute (gas_add deferred_compute storage).
Definition on_block_stat : GasCharge := mkGasCharge "OnBlockStat" 0 0.
Definition on_actor_lookup : GasCharge := mkGasCharge "OnActorLookup" 0 (actor_lookup pl).
Definition on_actor_update : GasCharge := mkGasCharge "OnActorUpdate" 0 (actor_update pl).
Definition on_actor_create : GasCharge :=
  mkGasCharge "OnActorCreate" 0 (actor_create_storage pl).
Definition on_self_balance : GasCharge := mkGasCharge "OnSelfBalance" 0 0.
Definition on_balance_of : GasCharge := mkGasCharge "OnBalanceOf" 0 0.
Definition on_resolve_address : GasCharge := mkGasCharge "OnResolveAddress" 0 0.
Definition on_lookup_delegated_address : GasCharge := mkGasCharge "OnLookupAddress" 0 0.
Definition on_get_actor_code_cid : GasCharge := mkGasCharge "OnGetActorCodeCid" 0 0.
Definition on_get_builtin_actor_type : GasCharge :=
  mkGasCharge "OnGetBuiltinActorType" (builtin_actor_manifest_lookup pl) 0.
Definition on_get_code_cid_for_type : GasCharge :=
  mkGasCharge "OnGetCodeCidForType" (builtin_actor_manifest_lookup pl) 0.
Definition on_tipset_cid (lookback : Z) : GasCharge :=
  mkGasCharge "OnTipsetCid" 0 (sc_apply (lookback_cost pl) (epoch_as_u64 lookback)).
Definition on_network_context : GasCharge :=
  mkGasCharge "OnNetworkContext" (pl_network_context pl) 0.
Definition on_message_context : GasCharge :=
  mkGasCharge "OnMessageContext" (pl_message_context pl) 0.
Definition on_install_actor (wasm_size : N) : GasCharge :=
  mkGasCharge "OnInstallActor" (gas_mul (install_wasm_per_byte_cost pl) wasm_size) 0.
Definition on_actor_event (entries keysize valuesize : N) : GasCharge :=
  let validate_entries := sc_apply (event_per_entry pl) entries in
  let validate_utf8 := sc_apply (utf8_validation pl) keysize in
  let estimated_size :=
    gas_add (gas_add (gas_add EVENT_OVERHEAD (gas_mul EVENT_ENTRY_OVERHEAD entries)) keysize)
            valuesize in
  let mem := gas_add (sc_apply (block_memcpy pl) estimated_size)
                     (sc_apply (block_allocate pl) estimated_size) in
  let hash := sc_apply (hashing_cost pl Blake2b256) estimated_size in
  mkGasCharge "OnActorEvent"
    (gas_add (gas_add (gas_mul mem 2) validate_entries) validate_utf8)
    (gas_add hash mem).
Definition on_get_root : GasCharge := mkGasCharge "OnActorGetRoot" (ipld_link_tracked pl) 0.
Definition on_set_root : GasCharge := mkGasCharge "OnActorSetRoot" (ipld_link_checked pl) 0.

End prices.

(** ** Properties *)

Lemma gas_add_sub_max a b : (a ≤ U64_MAX)%N → (b ≤ U64_MAX)%N →
  gas_add a (N.max (gas_sub b a) 0) = N.max a b.
Proof. intros. unfold gas_add, gas_sub. lia. Qed.

Lemma sc_apply_le c v : (sc_apply c v ≤ U64_MAX)%N.
Proof. unfold sc_apply, gas_add. lia. Qed.

Lemma gas_add_assoc a b c : gas_add a (gas_add b c) = gas_add (gas_add a b) c.
Proof. unfold gas_add. lia. Qed.

(** memory retention. Whatever the price list, opening or creating a block
    is charged the maximum of its compute cost and the retention minimum for
    its size: the surcharge tops the charge up to the minimum, it never makes
    it smaller. *)
Theorem block_charges_retention pl data_size links :
  let min := sc_apply (block_memory_retention_minimum pl) data_size in
  let open_compute :=
    gas_add (gas_mul (ipld_link_tracked pl) links)
      (gas_add (gas_add (gas_mul (sc_scale (pl_block_open pl)) data_size)
                        (sc_apply (block_allocate pl) data_size))
               (sc_apply (block_memcpy pl) data_size)) in
  let create_compute :=
    gas_add (gas_add (sc_apply (block_memcpy pl) data_size)
                     (sc_apply (block_allocate pl) data_size))
            (gas_mul (ipld_link_checked pl) links) in
  gc_total (on_block_open pl data_size links) = N.max open_compute min ∧
  gc_total (on_block_create pl data_size links) = N.max create_compute min.
Proof.
  simpl. split.
  - unfold gc_total, on_block_open; simpl. rewrite gas_add_assoc.
    apply gas_add_sub_max; [unfold gas_add; lia|apply sc_apply_le].
  - unfold gc_total, on_block_create; simpl.
    apply gas_add_sub_max; [unfold gas_add; lia|apply sc_apply_le].
Qed.
