(* ===== verification/WasmPrices.v ===== *)
(** * Prices of Wasm instructions (fvm/src/gas/price_list.rs)

    The table [Rules::instruction_cost] of [WasmGasPrices], which the gas
    metering of actor code is generated from. The operators are those of the
    Wasm parser ([wasmparser::Operator]) without their immediates, which no
    price depends on. *)

From S2P Require Import Prelude Gas PriceList.
From stdpp Require Import gmap strings list fin_maps.
From Stdlib Require Import ZArith Lia.
#[local] Open Scope N_scope.

Inductive Operator :=
  | OpNop | OpBlock | OpLoop | OpUnreachable | OpReturn | OpElse | OpEnd | OpBr | OpBrIf | OpIf | OpBrTable
  | OpCall | OpCallIndirect | OpDrop | OpI64ExtendI32U | OpI32WrapI64 | OpI32ReinterpretF32
  | OpI64ReinterpretF64 | OpF32ReinterpretI32 | OpF64ReinterpretI64 | OpI32Const | OpI64Const | OpF32Const
  | OpF64Const | OpLocalGet | OpLocalSet | OpLocalTee | OpGlobalGet | OpGlobalSet | OpSelect | OpTypedSelect
  | OpI32Extend8S | OpI32Extend16S | OpI64Extend8S | OpI64Extend16S | OpI64Extend32S | OpI64ExtendI32S
  | OpI32And | OpI32Or | OpI32Xor | OpI32Shl | OpI32ShrS | OpI32ShrU | OpI32Rotl | OpI32Rotr | OpI64And
  | OpI64Or | OpI64Xor | OpI64Shl | OpI64ShrS | OpI64ShrU | OpI64Rotl | OpI64Rotr | OpI32Eqz | OpI32Eq
  | OpI32Ne | OpI32LtS | OpI32LtU | OpI32GtS | OpI32GtU | OpI32LeS | OpI32LeU | OpI32GeS | OpI32GeU
  | OpI64Eqz | OpI64Eq | OpI64Ne | OpI64LtS | OpI64LtU | OpI64GtS | OpI64GtU | OpI64LeS | OpI64LeU | OpI64GeS
  | OpI64GeU | OpI32Clz | OpI32Ctz | OpI32Popcnt | OpI32Add | OpI32Sub | OpI32Mul | OpI32DivS | OpI32DivU
  | OpI32RemS | OpI32RemU | OpI64Clz | OpI64Ctz | OpI64Popcnt | OpI64Add | OpI64Sub | OpI64Mul | OpI64DivS
  | OpI64DivU | OpI64RemS | OpI64RemU | OpI32TruncF32S | OpI32TruncF32U | OpI32TruncF64S | OpI32TruncF64U
  | OpI64TruncF32S | OpI64TruncF32U | OpI64TruncF64S | OpI64TruncF64U | OpI32TruncSatF32S | OpI32TruncSatF32U
  | OpI32TruncSatF64S | OpI32TruncSatF64U | OpI64TruncSatF32S | OpI64TruncSatF32U | OpI64TruncSatF64S
  | OpI64TruncSatF64U | OpF32Eq | OpF32Ne | OpF32Lt | OpF32Gt | OpF32Le | OpF32Ge | OpF64Eq | OpF64Ne
  | OpF64Lt | OpF64Gt | OpF64Le | OpF64Ge | OpF32Abs | OpF32Neg | OpF32Ceil | OpF32Floor | OpF32Trunc
  | OpF32Nearest | OpF32Add | OpF32Sub | OpF32Mul | OpF32Div | OpF32Min | OpF32Max | OpF64Abs | OpF64Neg
  | OpF64Ceil | OpF64Floor | OpF64Trunc | OpF64Nearest | OpF64Add | OpF64Sub | OpF64Mul | OpF64Div | OpF64Min
  | OpF64Max | OpF64Copysign | OpF32Copysign | OpF32DemoteF64 | OpF64PromoteF32 | OpF32ConvertI32S
  | OpF32ConvertI32U | OpF32ConvertI64S | OpF32ConvertI64U | OpF64ConvertI32S | OpF64ConvertI32U
  | OpF64ConvertI64S | OpF64ConvertI64U | OpF32Sqrt | OpF64Sqrt | OpF32Load | OpI32Load | OpI32Load8U
  | OpI32Load16U | OpF64Load | OpI64Load | OpI64Load8U | OpI64Load16U | OpI64Load32U | OpTableGet
  | OpI32Load16S | OpI32Load8S | OpI64Load8S | OpI64Load16S | OpI64Load32S | OpF32Store | OpI32Store
  | OpI32Store8 | OpI32Store16 | OpF64Store | OpI64Store | OpI64Store8 | OpI64Store16 | OpI64Store32
  | OpTableSet | OpTableInit | OpTableCopy | OpTableFill | OpTableGrow | OpMemoryGrow | OpMemoryFill
  | OpMemoryInit | OpMemoryCopy | OpDataDrop | OpElemDrop | OpMemorySize | OpTableSize | OpTry | OpCatch
  | OpThrow | OpRethrow | OpCatchAll | OpDelegate | OpReturnCall | OpReturnCallIndirect | OpRefNull
  | OpRefIsNull | OpRefFunc | OpMemoryAtomicNotify | OpMemoryAtomicWait32 | OpMemoryAtomicWait64
  | OpAtomicFence | OpI32AtomicLoad | OpI32AtomicLoad8U | OpI32AtomicLoad16U | OpI64AtomicLoad
  | OpI64AtomicLoad8U | OpI64AtomicLoad16U | OpI64AtomicLoad32U | OpI32AtomicStore | OpI32AtomicStore8
  | OpI32AtomicStore16 | OpI64AtomicStore | OpI64AtomicStore8 | OpI64AtomicStore16 | OpI64AtomicStore32
  | OpI32AtomicRmwAdd | OpI32AtomicRmw8AddU | OpI32AtomicRmw16AddU | OpI64AtomicRmwAdd | OpI64AtomicRmw8AddU
  | OpI64AtomicRmw16AddU | OpI64AtomicRmw32AddU | OpI32AtomicRmwSub | OpI32AtomicRmw8SubU
  | OpI32AtomicRmw16SubU | OpI64AtomicRmwSub | OpI64AtomicRmw8SubU | OpI64AtomicRmw16SubU
  | OpI64AtomicRmw32SubU | OpI32AtomicRmwAnd | OpI32AtomicRmw8AndU | OpI32AtomicRmw16AndU | OpI64AtomicRmwAnd
  | OpI64AtomicRmw8AndU | OpI64AtomicRmw16AndU | OpI64AtomicRmw32AndU | OpI32AtomicRmwOr | OpI32AtomicRmw8OrU
  | OpI32AtomicRmw16OrU | OpI64AtomicRmwOr | OpI64AtomicRmw8OrU | OpI64AtomicRmw16OrU | OpI64AtomicRmw32OrU
  | OpI32AtomicRmwXor | OpI32AtomicRmw8XorU | OpI32AtomicRmw16XorU | OpI64AtomicRmwXor | OpI64AtomicRmw8XorU
  | OpI64AtomicRmw16XorU | OpI64AtomicRmw32XorU | OpI32AtomicRmwXchg | OpI32AtomicRmw8XchgU
  | OpI32AtomicRmw16XchgU | OpI64AtomicRmwXchg | OpI64AtomicRmw8XchgU | OpI64AtomicRmw16XchgU
  | OpI64AtomicRmw32XchgU | OpI32AtomicRmwCmpxchg | OpI32AtomicRmw8CmpxchgU | OpI32AtomicRmw16CmpxchgU
  | OpI64AtomicRmwCmpxchg | OpI64AtomicRmw8CmpxchgU | OpI64AtomicRmw16CmpxchgU | OpI64AtomicRmw32CmpxchgU
  | OpV128Load | OpV128Store | OpV128Const | OpV128Load8x8S | OpV128Load16x4S | OpV128Load32x2S
  | OpV128Load8x8U | OpV128Load16x4U | OpV128Load32x2U | OpV128Load8Splat | OpV128Load16Splat
  | OpV128Load32Splat | OpV128Load64Splat | OpV128Load32Zero | OpV128Load64Zero | OpV128Load8Lane
  | OpV128Load16Lane | OpV128Load32Lane | OpV128Load64Lane | OpV128Store8Lane | OpV128Store16Lane
  | OpV128Store32Lane | OpV128Store64Lane | OpI8x16Shuffle | OpI8x16ReplaceLane | OpI8x16ExtractLaneS
  | OpI16x8ExtractLaneS | OpI16x8ReplaceLane | OpI8x16ExtractLaneU | OpI16x8ExtractLaneU | OpI32x4ExtractLane
  | OpI64x2ExtractLane | OpF32x4ExtractLane | OpF64x2ExtractLane | OpI32x4ReplaceLane | OpI64x2ReplaceLane
  | OpF32x4ReplaceLane | OpF64x2ReplaceLane | OpI8x16Swizzle | OpI8x16RelaxedSwizzle | OpI8x16Splat
  | OpI16x8Splat | OpI32x4Splat | OpI64x2Splat | OpF32x4Splat | OpF64x2Splat | OpI8x16Eq | OpI8x16Ne
  | OpI8x16LtS | OpI8x16LtU | OpI8x16GtS | OpI8x16GtU | OpI8x16LeS | OpI8x16LeU | OpI8x16GeS | OpI8x16GeU
  | OpI16x8Eq | OpI16x8Ne | OpI16x8LtS | OpI16x8LtU | OpI16x8GtS | OpI16x8GtU | OpI16x8LeS | OpI16x8LeU
  | OpI16x8GeS | OpI16x8GeU | OpI32x4Eq | OpI32x4Ne | OpI32x4LtS | OpI32x4LtU | OpI32x4GtS | OpI32x4GtU
  | OpI32x4LeS | OpI32x4LeU | OpI32x4GeS | OpI32x4GeU | OpI64x2Eq | OpI64x2Ne | OpI64x2LtS | OpI64x2GtS
  | OpI64x2LeS | OpI64x2GeS | OpF32x4Eq | OpF32x4Ne | OpF32x4Lt | OpF32x4Gt | OpF32x4Le | OpF32x4Ge
  | OpF64x2Eq | OpF64x2Ne | OpF64x2Lt | OpF64x2Gt | OpF64x2Le | OpF64x2Ge | OpV128Not | OpV128And
  | OpV128AndNot | OpV128Or | OpV128Xor | OpV128Bitselect | OpV128AnyTrue | OpI8x16Abs | OpI8x16Neg
  | OpI8x16Popcnt | OpI8x16AllTrue | OpI8x16Bitmask | OpI8x16NarrowI16x8S | OpI8x16NarrowI16x8U | OpI8x16Shl
  | OpI8x16ShrS | OpI8x16ShrU | OpI8x16Add | OpI8x16AddSatS | OpI8x16AddSatU | OpI8x16Sub | OpI8x16SubSatS
  | OpI8x16SubSatU | OpI8x16MinS | OpI8x16MinU | OpI8x16MaxS | OpI8x16MaxU | OpI8x16AvgrU
  | OpI16x8ExtAddPairwiseI8x16S | OpI16x8ExtAddPairwiseI8x16U | OpI16x8Abs | OpI16x8Neg | OpI16x8Q15MulrSatS
  | OpI16x8AllTrue | OpI16x8Bitmask | OpI16x8NarrowI32x4S | OpI16x8NarrowI32x4U | OpI16x8ExtendLowI8x16S
  | OpI16x8ExtendHighI8x16S | OpI16x8ExtendLowI8x16U | OpI16x8ExtendHighI8x16U | OpI16x8Shl | OpI16x8ShrS
  | OpI16x8ShrU | OpI16x8Add | OpI16x8AddSatS | OpI16x8AddSatU | OpI16x8Sub | OpI16x8SubSatS | OpI16x8SubSatU
  | OpI16x8Mul | OpI16x8MinS | OpI16x8MinU | OpI16x8MaxS | OpI16x8MaxU | OpI16x8AvgrU
  | OpI16x8ExtMulLowI8x16S | OpI16x8ExtMulHighI8x16S | OpI16x8ExtMulLowI8x16U | OpI16x8ExtMulHighI8x16U
  | OpI32x4ExtAddPairwiseI16x8S | OpI32x4ExtAddPairwiseI16x8U | OpI32x4Abs | OpI32x4Neg | OpI32x4AllTrue
  | OpI32x4Bitmask | OpI32x4ExtendLowI16x8S | OpI32x4ExtendHighI16x8S | OpI32x4ExtendLowI16x8U
  | OpI32x4ExtendHighI16x8U | OpI32x4Shl | OpI32x4ShrS | OpI32x4ShrU | OpI32x4Add | OpI32x4Sub | OpI32x4Mul
  | OpI32x4MinS | OpI32x4MinU | OpI32x4MaxS | OpI32x4MaxU | OpI32x4DotI16x8S | OpI32x4ExtMulLowI16x8S
  | OpI32x4ExtMulHighI16x8S | OpI32x4ExtMulLowI16x8U | OpI32x4ExtMulHighI16x8U | OpI64x2Abs | OpI64x2Neg
  | OpI64x2AllTrue | OpI64x2Bitmask | OpI64x2ExtendLowI32x4S | OpI64x2ExtendHighI32x4S
  | OpI64x2ExtendLowI32x4U | OpI64x2ExtendHighI32x4U | OpI64x2Shl | OpI64x2ShrS | OpI64x2ShrU | OpI64x2Add
  | OpI64x2Sub | OpI64x2Mul | OpI64x2ExtMulLowI32x4S | OpI64x2ExtMulHighI32x4S | OpI64x2ExtMulLowI32x4U
  | OpI64x2ExtMulHighI32x4U | OpF32x4Ceil | OpF32x4Floor | OpF32x4Trunc | OpF32x4Nearest | OpF32x4Abs
  | OpF32x4Neg | OpF32x4Sqrt | OpF32x4Add | OpF32x4Sub | OpF32x4Mul | OpF32x4Div | OpF32x4Min | OpF32x4Max
  | OpF32x4PMin | OpF32x4PMax | OpF64x2Ceil | OpF64x2Floor | OpF64x2Trunc | OpF64x2Nearest | OpF64x2Abs
  | OpF64x2Neg | OpF64x2Sqrt | OpF64x2Add | OpF64x2Sub | OpF64x2Mul | OpF64x2Div | OpF64x2Min | OpF64x2Max
  | OpF64x2PMin | OpF64x2PMax | OpI32x4TruncSatF32x4S | OpI32x4TruncSatF32x4U | OpF32x4ConvertI32x4S
  | OpF32x4ConvertI32x4U | OpI32x4TruncSatF64x2SZero | OpI32x4TruncSatF64x2UZero | OpF64x2ConvertLowI32x4S
  | OpF64x2ConvertLowI32x4U | OpF32x4DemoteF64x2Zero | OpF64x2PromoteLowF32x4 | OpI32x4RelaxedTruncSatF32x4S
  | OpI32x4RelaxedTruncSatF64x2SZero | OpI32x4RelaxedTruncSatF32x4U | OpI32x4RelaxedTruncSatF64x2UZero
  | OpF32x4RelaxedFma | OpF64x2RelaxedFma | OpF32x4RelaxedFnma | OpF64x2RelaxedFnma
  | OpI8x16RelaxedLaneselect | OpI16x8RelaxedLaneselect | OpI32x4RelaxedLaneselect | OpI64x2RelaxedLaneselect
  | OpF32x4RelaxedMin | OpF32x4RelaxedMax | OpF64x2RelaxedMin | OpF64x2RelaxedMax | OpI16x8RelaxedQ15mulrS
  | OpI16x8DotI8x16I7x16S | OpI32x4DotI8x16I7x16AddS | OpF32x4RelaxedDotBf16x8AddF32x4.

(** [InstructionCost]: milligas, and milligas per unit as a non-zero [u32]. *)
Inductive InstructionCost := Fixed (cost : N) | Linear (base : N) (per_unit : N).

Definition WASM_PAGE_BYTES : N := 65536.

(** [linear_cost]. *)
Definition linear_cost (base linear : Gas) (unit_multiplier : N) : result string InstructionCost :=
  let gas_per_unit := gas_mul linear unit_multiplier in
  if 4294967295 <? gas_per_unit then Err "linear gas exceeds u32"%string
  else if gas_per_unit =? 0 then Ok (Fixed base) else Ok (Linear base gas_per_unit).

(** Operators of proposals the network does not support. *)
Definition unsupported_operation (instruction : Operator) : bool :=
  match instruction with
  | OpTry | OpCatch | OpThrow | OpRethrow | OpCatchAll | OpDelegate | OpReturnCall | OpReturnCallIndirect
  | OpRefNull | OpRefIsNull | OpRefFunc | OpMemoryAtomicNotify | OpMemoryAtomicWait32 | OpMemoryAtomicWait64
  | OpAtomicFence | OpI32AtomicLoad | OpI32AtomicLoad8U | OpI32AtomicLoad16U | OpI64AtomicLoad
  | OpI64AtomicLoad8U | OpI64AtomicLoad16U | OpI64AtomicLoad32U | OpI32AtomicStore | OpI32AtomicStore8
  | OpI32AtomicStore16 | OpI64AtomicStore | OpI64AtomicStore8 | OpI64AtomicStore16 | OpI64AtomicStore32
  | OpI32AtomicRmwAdd | OpI32AtomicRmw8AddU | OpI32AtomicRmw16AddU | OpI64AtomicRmwAdd | OpI64AtomicRmw8AddU
  | OpI64AtomicRmw16AddU | OpI64AtomicRmw32AddU | OpI32AtomicRmwSub | OpI32AtomicRmw8SubU
  | OpI32AtomicRmw16SubU | OpI64AtomicRmwSub | OpI64AtomicRmw8SubU | OpI64AtomicRmw16SubU
  | OpI64AtomicRmw32SubU | OpI32AtomicRmwAnd | OpI32AtomicRmw8AndU | OpI32AtomicRmw16AndU | OpI64AtomicRmwAnd
  | OpI64AtomicRmw8AndU | OpI64AtomicRmw16AndU | OpI64AtomicRmw32AndU | OpI32AtomicRmwOr | OpI32AtomicRmw8OrU
  | OpI32AtomicRmw16OrU | OpI64AtomicRmwOr | OpI64AtomicRmw8OrU | OpI64AtomicRmw16OrU | OpI64AtomicRmw32OrU
  | OpI32AtomicRmwXor | OpI32AtomicRmw8XorU | OpI32AtomicRmw16XorU | OpI64AtomicRmwXor | OpI64AtomicRmw8XorU
  | OpI64AtomicRmw16XorU | OpI64AtomicRmw32XorU | OpI32AtomicRmwXchg | OpI32AtomicRmw8XchgU
  | OpI32AtomicRmw16XchgU | OpI64AtomicRmwXchg | OpI64AtomicRmw8XchgU | OpI64AtomicRmw16XchgU
  | OpI64AtomicRmw32XchgU | OpI32AtomicRmwCmpxchg | OpI32AtomicRmw8CmpxchgU | OpI32AtomicRmw16CmpxchgU
  | OpI64AtomicRmwCmpxchg | OpI64AtomicRmw8CmpxchgU | OpI64AtomicRmw16CmpxchgU | OpI64AtomicRmw32CmpxchgU
  | OpV128Load | OpV128Store | OpV128Const | OpV128Load8x8S | OpV128Load16x4S | OpV128Load32x2S
  | OpV128Load8x8U | OpV128Load16x4U | OpV128Load32x2U | OpV128Load8Splat | OpV128Load16Splat
  | OpV128Load32Splat | OpV128Load64Splat | OpV128Load32Zero | OpV128Load64Zero | OpV128Load8Lane
  | OpV128Load16Lane | OpV128Load32Lane | OpV128Load64Lane | OpV128Store8Lane | OpV128Store16Lane
  | OpV128Store32Lane | OpV128Store64Lane | OpI8x16Shuffle | OpI8x16ReplaceLane | OpI8x16ExtractLaneS
  | OpI16x8ExtractLaneS | OpI16x8ReplaceLane | OpI8x16ExtractLaneU | OpI16x8ExtractLaneU | OpI32x4ExtractLane
  | OpI64x2ExtractLane | OpF32x4ExtractLane | OpF64x2ExtractLane | OpI32x4ReplaceLane | OpI64x2ReplaceLane
  | OpF32x4ReplaceLane | OpF64x2ReplaceLane | OpI8x16Swizzle | OpI8x16RelaxedSwizzle | OpI8x16Splat
  | OpI16x8Splat | OpI32x4Splat | OpI64x2Splat | OpF32x4Splat | OpF64x2Splat | OpI8x16Eq | OpI8x16Ne
  | OpI8x16LtS | OpI8x16LtU | OpI8x16GtS | OpI8x16GtU | OpI8x16LeS | OpI8x16LeU | OpI8x16GeS | OpI8x16GeU
  | OpI16x8Eq | OpI16x8Ne | OpI16x8LtS | OpI16x8LtU | OpI16x8GtS | OpI16x8GtU | OpI16x8LeS | OpI16x8LeU
  | OpI16x8GeS | OpI16x8GeU | OpI32x4Eq | OpI32x4Ne | OpI32x4LtS | OpI32x4LtU | OpI32x4GtS | OpI32x4GtU
  | OpI32x4LeS | OpI32x4LeU | OpI32x4GeS | OpI32x4GeU | OpI64x2Eq | OpI64x2Ne | OpI64x2LtS | OpI64x2GtS
  | OpI64x2LeS | OpI64x2GeS | OpF32x4Eq | OpF32x4Ne | OpF32x4Lt | OpF32x4Gt | OpF32x4Le | OpF32x4Ge
  | OpF64x2Eq | OpF64x2Ne | OpF64x2Lt | OpF64x2Gt | OpF64x2Le | OpF64x2Ge | OpV128Not | OpV128And
  | OpV128AndNot | OpV128Or | OpV128Xor | OpV128Bitselect | OpV128AnyTrue | OpI8x16Abs | OpI8x16Neg
  | OpI8x16Popcnt | OpI8x16AllTrue | OpI8x16Bitmask | OpI8x16NarrowI16x8S | OpI8x16NarrowI16x8U | OpI8x16Shl
  | OpI8x16ShrS | OpI8x16ShrU | OpI8x16Add | OpI8x16AddSatS | OpI8x16AddSatU | OpI8x16Sub | OpI8x16SubSatS
  | OpI8x16SubSatU | OpI8x16MinS | OpI8x16MinU | OpI8x16MaxS | OpI8x16MaxU | OpI8x16AvgrU
  | OpI16x8ExtAddPairwiseI8x16S | OpI16x8ExtAddPairwiseI8x16U | OpI16x8Abs | OpI16x8Neg | OpI16x8Q15MulrSatS
  | OpI16x8AllTrue | OpI16x8Bitmask | OpI16x8NarrowI32x4S | OpI16x8NarrowI32x4U | OpI16x8ExtendLowI8x16S
  | OpI16x8ExtendHighI8x16S | OpI16x8ExtendLowI8x16U | OpI16x8ExtendHighI8x16U | OpI16x8Shl | OpI16x8ShrS
  | OpI16x8ShrU | OpI16x8Add | OpI16x8AddSatS | OpI16x8AddSatU | OpI16x8Sub | OpI16x8SubSatS | OpI16x8SubSatU
  | OpI16x8Mul | OpI16x8MinS | OpI16x8MinU | OpI16x8MaxS | OpI16x8MaxU | OpI16x8AvgrU
  | OpI16x8ExtMulLowI8x16S | OpI16x8ExtMulHighI8x16S | OpI16x8ExtMulLowI8x16U | OpI16x8ExtMulHighI8x16U
  | OpI32x4ExtAddPairwiseI16x8S | OpI32x4ExtAddPairwiseI16x8U | OpI32x4Abs | OpI32x4Neg | OpI32x4AllTrue
  | OpI32x4Bitmask | OpI32x4ExtendLowI16x8S | OpI32x4ExtendHighI16x8S | OpI32x4ExtendLowI16x8U
  | OpI32x4ExtendHighI16x8U | OpI32x4Shl | OpI32x4ShrS | OpI32x4ShrU | OpI32x4Add | OpI32x4Sub | OpI32x4Mul
  | OpI32x4MinS | OpI32x4MinU | OpI32x4MaxS | OpI32x4MaxU | OpI32x4DotI16x8S | OpI32x4ExtMulLowI16x8S
  | OpI32x4ExtMulHighI16x8S | OpI32x4ExtMulLowI16x8U | OpI32x4ExtMulHighI16x8U | OpI64x2Abs | OpI64x2Neg
  | OpI64x2AllTrue | OpI64x2Bitmask | OpI64x2ExtendLowI32x4S | OpI64x2ExtendHighI32x4S
  | OpI64x2ExtendLowI32x4U | OpI64x2ExtendHighI32x4U | OpI64x2Shl | OpI64x2ShrS | OpI64x2ShrU | OpI64x2Add
  | OpI64x2Sub | OpI64x2Mul | OpI64x2ExtMulLowI32x4S | OpI64x2ExtMulHighI32x4S | OpI64x2ExtMulLowI32x4U
  | OpI64x2ExtMulHighI32x4U | OpF32x4Ceil | OpF32x4Floor | OpF32x4Trunc | OpF32x4Nearest | OpF32x4Abs
  | OpF32x4Neg | OpF32x4Sqrt | OpF32x4Add | OpF32x4Sub | OpF32x4Mul | OpF32x4Div | OpF32x4Min | OpF32x4Max
  | OpF32x4PMin | OpF32x4PMax | OpF64x2Ceil | OpF64x2Floor | OpF64x2Trunc | OpF64x2Nearest | OpF64x2Abs
  | OpF64x2Neg | OpF64x2Sqrt | OpF64x2Add | OpF64x2Sub | OpF64x2Mul | OpF64x2Div | OpF64x2Min | OpF64x2Max
  | OpF64x2PMin | OpF64x2PMax | OpI32x4TruncSatF32x4S | OpI32x4TruncSatF32x4U | OpF32x4ConvertI32x4S
  | OpF32x4ConvertI32x4U | OpI32x4TruncSatF64x2SZero | OpI32x4TruncSatF64x2UZero | OpF64x2ConvertLowI32x4S
  | OpF64x2ConvertLowI32x4U | OpF32x4DemoteF64x2Zero | OpF64x2PromoteLowF32x4 | OpI32x4RelaxedTruncSatF32x4S
  | OpI32x4RelaxedTruncSatF64x2SZero | OpI32x4RelaxedTruncSatF32x4U | OpI32x4RelaxedTruncSatF64x2UZero
  | OpF32x4RelaxedFma | OpF64x2RelaxedFma | OpF32x4RelaxedFnma | OpF64x2RelaxedFnma
  | OpI8x16RelaxedLaneselect | OpI16x8RelaxedLaneselect | OpI32x4RelaxedLaneselect | OpI64x2RelaxedLaneselect
  | OpF32x4RelaxedMin | OpF32x4RelaxedMax | OpF64x2RelaxedMin | OpF64x2RelaxedMax | OpI16x8RelaxedQ15mulrS
  | OpI16x8DotI8x16I7x16S | OpI32x4DotI8x16I7x16AddS | OpF32x4RelaxedDotBf16x8AddF32x4
      => true
  | _ => false
  end.

Definition instruction_cost (p : WasmGasPrices) (instruction : Operator) : result string InstructionCost :=
  match instruction with
  | OpNop | OpBlock | OpLoop | OpUnreachable | OpReturn | OpElse | OpEnd
      => Ok (Fixed 0)
  | OpBr
      => Ok (Fixed (jump_unconditional p))
  | OpBrIf | OpIf
      => Ok (Fixed (jump_conditional p))
  | OpBrTable
      => Ok (Fixed (gas_add (jump_indirect p) (memory_access_cost p)))
  | OpCall
      => Ok (Fixed (gas_add (jump_unconditional p) (wasm_call p)))
  | OpCallIndirect
      => Ok (Fixed (gas_add (gas_add (jump_indirect p) (memory_access_cost p)) (wasm_call p)))
  | OpDrop
      => Ok (Fixed 0)
  | OpI64ExtendI32U | OpI32WrapI64 | OpI32ReinterpretF32 | OpI64ReinterpretF64 | OpF32ReinterpretI32
  | OpF64ReinterpretI64 | OpI32Const | OpI64Const | OpF32Const | OpF64Const
      => Ok (Fixed (instruction_default p))
  | OpLocalGet | OpLocalSet | OpLocalTee
      => Ok (Fixed (instruction_default p))
  | OpGlobalGet | OpGlobalSet
      => Ok (Fixed (instruction_default p))
  | OpSelect | OpTypedSelect
      => Ok (Fixed (instruction_default p))
  | OpI32Extend8S | OpI32Extend16S | OpI64Extend8S | OpI64Extend16S | OpI64Extend32S | OpI64ExtendI32S
      => Ok (Fixed (math_default p))
  | OpI32And | OpI32Or | OpI32Xor | OpI32Shl | OpI32ShrS | OpI32ShrU | OpI32Rotl | OpI32Rotr | OpI64And
  | OpI64Or | OpI64Xor | OpI64Shl | OpI64ShrS | OpI64ShrU | OpI64Rotl | OpI64Rotr
      => Ok (Fixed (math_default p))
  | OpI32Eqz | OpI32Eq | OpI32Ne | OpI32LtS | OpI32LtU | OpI32GtS | OpI32GtU | OpI32LeS | OpI32LeU | OpI32GeS
  | OpI32GeU | OpI64Eqz | OpI64Eq | OpI64Ne | OpI64LtS | OpI64LtU | OpI64GtS | OpI64GtU | OpI64LeS | OpI64LeU
  | OpI64GeS | OpI64GeU
      => Ok (Fixed (math_default p))
  | OpI32Clz | OpI32Ctz | OpI32Popcnt | OpI32Add | OpI32Sub | OpI32Mul | OpI32DivS | OpI32DivU | OpI32RemS
  | OpI32RemU | OpI64Clz | OpI64Ctz | OpI64Popcnt | OpI64Add | OpI64Sub | OpI64Mul | OpI64DivS | OpI64DivU
  | OpI64RemS | OpI64RemU
      => Ok (Fixed (math_default p))
  | OpI32TruncF32S | OpI32TruncF32U | OpI32TruncF64S | OpI32TruncF64U | OpI64TruncF32S | OpI64TruncF32U
  | OpI64TruncF64S | OpI64TruncF64U | OpI32TruncSatF32S | OpI32TruncSatF32U | OpI32TruncSatF64S
  | OpI32TruncSatF64U | OpI64TruncSatF32S | OpI64TruncSatF32U | OpI64TruncSatF64S | OpI64TruncSatF64U
  | OpF32Eq | OpF32Ne | OpF32Lt | OpF32Gt | OpF32Le | OpF32Ge | OpF64Eq | OpF64Ne | OpF64Lt | OpF64Gt
  | OpF64Le | OpF64Ge | OpF32Abs | OpF32Neg | OpF32Ceil | OpF32Floor | OpF32Trunc | OpF32Nearest | OpF32Add
  | OpF32Sub | OpF32Mul | OpF32Div | OpF32Min | OpF32Max | OpF64Abs | OpF64Neg | OpF64Ceil | OpF64Floor
  | OpF64Trunc | OpF64Nearest | OpF64Add | OpF64Sub | OpF64Mul | OpF64Div | OpF64Min | OpF64Max
  | OpF64Copysign | OpF32Copysign | OpF32DemoteF64 | OpF64PromoteF32 | OpF32ConvertI32S | OpF32ConvertI32U
  | OpF32ConvertI64S | OpF32ConvertI64U | OpF64ConvertI32S | OpF64ConvertI32U | OpF64ConvertI64S
  | OpF64ConvertI64U
      => Ok (Fixed (math_default p))
  | OpF32Sqrt | OpF64Sqrt
      => Ok (Fixed (math_default p))
  | OpF32Load | OpI32Load | OpI32Load8U | OpI32Load16U | OpF64Load | OpI64Load | OpI64Load8U | OpI64Load16U
  | OpI64Load32U | OpTableGet
      => Ok (Fixed (gas_add (instruction_default p) (memory_access_cost p)))
  | OpI32Load16S | OpI32Load8S | OpI64Load8S | OpI64Load16S | OpI64Load32S
      => Ok (Fixed (gas_add (instruction_default p) (memory_access_cost p)))
  | OpF32Store | OpI32Store | OpI32Store8 | OpI32Store16 | OpF64Store | OpI64Store | OpI64Store8
  | OpI64Store16 | OpI64Store32 | OpTableSet
      => Ok (Fixed (gas_add (instruction_default p) (memory_fill_base_cost p)))
  | OpTableInit | OpTableCopy
      => linear_cost (gas_add (instruction_default p) (memory_access_cost p)) (memory_copy_per_byte_cost p) TABLE_ELEMENT_SIZE
  | OpTableFill | OpTableGrow
      => linear_cost (gas_add (instruction_default p) (memory_fill_base_cost p)) (memory_fill_per_byte_cost p) TABLE_ELEMENT_SIZE
  | OpMemoryGrow
      => linear_cost (gas_add (instruction_default p) (memory_fill_base_cost p)) (memory_fill_per_byte_cost p) WASM_PAGE_BYTES
  | OpMemoryFill
      => linear_cost (gas_add (instruction_default p) (memory_fill_base_cost p)) (memory_fill_per_byte_cost p) 1
  | OpMemoryInit | OpMemoryCopy
      => linear_cost (gas_add (instruction_default p) (memory_access_cost p)) (memory_copy_per_byte_cost p) 1
  | OpDataDrop | OpElemDrop
      => Ok (Fixed (instruction_default p))
  | OpMemorySize | OpTableSize
      => Ok (Fixed (instruction_default p))
  | _ => Err "unsupported operation"%string
  end.

(** [gas_charge_cost] and [linear_calc_cost]: the metering itself is free. *)
Definition gas_charge_cost : N := 0.
Definition linear_calc_cost : N := 0.

(** What an instruction over [units] units costs. *)
Definition cost_of (c : InstructionCost) (units : N) : N :=
  match c with Fixed cost => cost | Linear base per_unit => base + per_unit * units end.

(** Operators outside the supported proposals make metering, and with it the
    deployment of the code, fail. *)
Definition supported (o : Operator) : bool :=
  match instruction_cost (wasm_rules WATERMELON_PRICES) o with Ok _ => true | Err _ => false end.

(** The last arm of the table is for the unsupported operators and no others. *)
Lemma unsupported_iff o : unsupported_operation o = negb (supported o).
Proof. by destruct o. Qed.

(** Prices whose linear parts fit the metering's [u32]. *)
Definition fits (p : WasmGasPrices) : Prop :=
  memory_copy_per_byte_cost p * TABLE_ELEMENT_SIZE ≤ 4294967295 ∧
  memory_fill_per_byte_cost p * WASM_PAGE_BYTES ≤ 4294967295.

Lemma linear_cost_ok base linear m :
  linear * m ≤ 4294967295 →
  ∃ c, linear_cost base linear m = Ok c ∧ ∀ units, cost_of c units = base + linear * m * units.
Proof.
  intros H. unfold linear_cost. assert (Hm : gas_mul linear m = linear * m) by (unfold gas_mul, U64_MAX; lia).
  rewrite Hm. destruct (N.ltb_spec 4294967295 (linear * m)); [lia|].
  destruct (N.eqb_spec (linear * m) 0) as [Hz|]; eexists; (split; [done|]); intros units; simpl; [rewrite Hz; lia|done].
Qed.

(** Which operators are priced does not depend on the prices. *)
Lemma supported_iff p o : fits p → supported o = true ↔ ∃ c, instruction_cost p o = Ok c.
Proof.
  intros [Hc Hf]. unfold TABLE_ELEMENT_SIZE, WASM_PAGE_BYTES in *.
  assert (Hl : ∀ base linear m, linear * m ≤ 4294967295 → ∃ c, linear_cost base linear m = Ok c)
    by (intros ??? Hm; destruct (linear_cost_ok base linear m Hm) as (c & ? & _); eauto).
  unfold supported. split.
  - destruct o; intros Hs; try discriminate Hs; cbn [instruction_cost];
      first [eexists; reflexivity|apply Hl; unfold TABLE_ELEMENT_SIZE, WASM_PAGE_BYTES; lia].
  - intros [c Ho]. destruct o; first [reflexivity|discriminate Ho].
Qed.

(** Memory is charged at one rate: growing by [n] pages costs the instruction
    and what [grow_memory_gas] says of the same bytes. *)
Lemma memory_grow_rate p n :
  fits p → memory_fill_base_cost p + memory_fill_per_byte_cost p * (WASM_PAGE_BYTES * n) + instruction_default p ≤ U64_MAX →
  ∃ c, instruction_cost p OpMemoryGrow = Ok c ∧
    cost_of c n = instruction_default p + grow_memory_gas p (WASM_PAGE_BYTES * n).
Proof.
  intros [_ Hf] Hs. cbn [instruction_cost].
  destruct (linear_cost_ok (gas_add (instruction_default p) (memory_fill_base_cost p))
    (memory_fill_per_byte_cost p) WASM_PAGE_BYTES Hf) as (c & -> & Hc).
  exists c. split; [done|]. rewrite Hc. unfold grow_memory_gas, gas_add, gas_mul. nia.
Qed.

(** The prices in force: control markers and drops are free, everything else
    costs four gas, plus four tenths of a gas for every byte it writes. *)
Lemma watermelon_instruction_prices o c units :
  instruction_cost (wasm_rules WATERMELON_PRICES) o = Ok c →
  cost_of c units = 0 ∧ c = Fixed 0 ∨
  ∃ bytes_per_unit, cost_of c units = 4000 + 400 * bytes_per_unit * units ∧ bytes_per_unit ∈ [0; 1; 8; 65536].
Proof.
  destruct o; intros Hc; vm_compute in Hc; try discriminate Hc; injection Hc as <-; unfold cost_of;
    first [left; done|right; exists 0; split; [lia|set_solver]|right; exists 1; split; [lia|set_solver]
      |right; exists 8; split; [lia|set_solver]|right; exists 65536; split; [lia|set_solver]].
Qed.
