(* ===== verification/Address.v ===== *)
(** * Addresses (shared/src/address/)

    An address is its payload. The binary encoding (protocol byte, then the
    payload) is the key of both the state tree and the init actor's address
    map, so its round trip and injectivity matter. Variable-length integers come
    from the [unsigned_varint] crate: they are the interface [Varint]; its errors
    become [InvalidPayload]. The text encoding is [AddressText]. *)

From S2P Require Import Prelude Effects.
From stdpp Require Import gmap strings list fin_maps.
From Stdlib Require Import ZArith Lia.
#[local] Open Scope Z_scope.

Abbreviation byte := Z (only parsing).
Abbreviation bytes := (list Z) (only parsing).

(** The last [n] bytes of a number, big endian: [to_be_bytes] of Rust, and
    [BigEndian::write_u64]. *)
Fixpoint to_be_bytes (n : nat) (x : Z) : bytes :=
  match n with
  | O => []
  | S n => (x / 256 ^ Z.of_nat n) `mod` 256 :: to_be_bytes n x
  end.

Definition PAYLOAD_HASH_LEN : nat := 20.
Definition BLS_PUB_LEN : nat := 48.
Definition MAX_SUBADDRESS_LEN : nat := 54.

Inductive AddressError :=
  | UnknownNetwork | UnknownProtocol | InvalidPayload | InvalidLength
  | InvalidPayloadLength (n : nat) | InvalidBLSLength (n : nat) | InvalidSECPLength (n : nat)
  | InvalidChecksum | Base32Decoding | NonIDAddress | NonDelegatedAddress.

Inductive Protocol := PID | PSecp256k1 | PActor | PBLS | PDelegated.

#[export] Instance Protocol_eq_dec : EqDecision Protocol.
Proof. solve_decision. Defined.

Definition protocol_byte (p : Protocol) : byte :=
  match p with PID => 0 | PSecp256k1 => 1 | PActor => 2 | PBLS => 3 | PDelegated => 4 end.

Definition protocol_from_byte (b : byte) : option Protocol :=
  match b with
  | 0 => Some PID | 1 => Some PSecp256k1 | 2 => Some PActor
  | 3 => Some PBLS | 4 => Some PDelegated
  | _ => None
  end.

(** The subaddress occupies the first [da_length] bytes of a fixed buffer. *)
Record DelegatedAddress := mkDelegated {
  da_namespace : Z;
  da_length : nat;
  da_buffer : bytes;
}.

Inductive Payload :=
  | ID (id : Z)
  | Secp256k1Addr (h : bytes)
  | ActorAddr (h : bytes)
  | BLSAddr (k : bytes)
  | Delegated (da : DelegatedAddress).

(** The [Address] struct has the payload as its only field. *)
Abbreviation Address := Payload (only parsing).

#[export] Instance DelegatedAddress_eq_dec : EqDecision DelegatedAddress.
Proof. solve_decision. Defined.
#[export] Instance Payload_eq_dec : EqDecision Payload.
Proof. solve_decision. Defined.

#[export] Instance DelegatedAddress_countable : Countable DelegatedAddress.
Proof.
  apply (inj_countable' (λ d, (da_namespace d, da_length d, da_buffer d))
    (λ '(n, l, b), mkDelegated n l b)). by intros [].
Defined.
#[export] Instance Payload_countable : Countable Payload.
Proof.
  apply (inj_countable'
    (λ p, match p with
      | ID i => inl (inl i) | Secp256k1Addr h => inl (inr (0, h))
      | ActorAddr h => inl (inr (1, h)) | BLSAddr h => inl (inr (2, h))
      | Delegated d => inr d end)
    (λ s, match s with
      | inl (inl i) => ID i
      | inl (inr (t, h)) => if t =? 0 then Secp256k1Addr h
          else if t =? 1 then ActorAddr h else BLSAddr h
      | inr d => Delegated d end)). by intros [].
Defined.

Definition da_subaddress (d : DelegatedAddress) : bytes := take (da_length d) (da_buffer d).

Definition DelegatedAddress_new (namespace : Z) (subaddress : bytes)
    : result AddressError DelegatedAddress :=
  let len := length subaddress in
  if (MAX_SUBADDRESS_LEN <? len)%nat then Err (InvalidPayloadLength len)
  else Ok (mkDelegated namespace len
             (subaddress ++ replicate (MAX_SUBADDRESS_LEN - len) 0)).

Definition protocol (a : Payload) : Protocol :=
  match a with
  | ID _ => PID | Secp256k1Addr _ => PSecp256k1 | ActorAddr _ => PActor
  | BLSAddr _ => PBLS | Delegated _ => PDelegated
  end.

Definition address_id (a : Address) : result AddressError Z :=
  match a with ID id => Ok id | _ => Err NonIDAddress end.

Definition new_id (id : Z) : Address := ID id.

Definition BLS_ZERO_ADDRESS_BYTES : bytes := 192 :: replicate 47 0.
Definition is_bls_zero_address (a : Address) : bool :=
  match a with BLSAddr b => bool_decide (b = BLS_ZERO_ADDRESS_BYTES) | _ => false end.

(** The part of [unsigned_varint] the code uses: [encode::u64] and [decode::u64],
    which returns the value and the remaining bytes. *)
Class Varint := {
  varint_encode : Z → bytes;
  varint_decode : bytes → option (Z * bytes);
}.

(** Documented behaviour: decoding inverts encoding, and accepts only the
    minimal encoding of a [u64]. *)
Class VarintSpec `{Varint} := {
  varint_decode_encode n rest :
    in_u64 n → varint_decode (varint_encode n ++ rest) = Some (n, rest);
  varint_encode_decode bz n rest :
    varint_decode bz = Some (n, rest) → bz = varint_encode n ++ rest ∧ in_u64 n;
  varint_encode_nonempty n : varint_encode n ≠ [];
}.

Section encoding.
Context `{Varint}.

Definition to_leb_bytes (id : Z) : bytes := varint_encode id.

Definition from_leb_bytes (bz : bytes) : result AddressError Z :=
  match varint_decode bz with
  | None => Err InvalidPayload
  | Some (id, remaining) =>
      match remaining with [] => Ok id | _ => Err InvalidPayload end
  end.

Definition to_raw_bytes (a : Payload) : bytes :=
  match a with
  | ID i => to_leb_bytes i
  | Secp256k1Addr arr | ActorAddr arr | BLSAddr arr => arr
  | Delegated da => to_leb_bytes (da_namespace da) ++ da_subaddress da
  end.

Definition to_bytes (a : Payload) : bytes := protocol_byte (protocol a) :: to_raw_bytes a.

(** [<[u8; N]>::try_from(slice)]. *)
Definition try_into (n : nat) (bz : bytes) : result AddressError bytes :=
  if (length bz =? n)%nat then Ok bz else Err (InvalidPayloadLength (length bz)).

Definition Payload_new (p : Protocol) (payload : bytes) : result AddressError Payload :=
  match p with
  | PID => match from_leb_bytes payload with Ok i => Ok (ID i) | Err e => Err e end
  | PSecp256k1 => match try_into PAYLOAD_HASH_LEN payload with
                  | Ok h => Ok (Secp256k1Addr h) | Err e => Err e end
  | PActor => match try_into PAYLOAD_HASH_LEN payload with
              | Ok h => Ok (ActorAddr h) | Err e => Err e end
  | PBLS => match try_into BLS_PUB_LEN payload with
            | Ok h => Ok (BLSAddr h) | Err e => Err e end
  | PDelegated =>
      match varint_decode payload with
      | None => Err InvalidPayload
      | Some (id, remaining) =>
          match DelegatedAddress_new id remaining with
          | Ok d => Ok (Delegated d) | Err e => Err e end
      end
  end.

Definition from_bytes (bz : bytes) : result AddressError Address :=
  match bz with
  | [] | [_] => Err InvalidLength
  | b :: rest => match protocol_from_byte b with
                 | None => Err UnknownProtocol
                 | Some p => Payload_new p rest
                 end
  end.
End encoding.

(** ** Round trip *)

Definition da_wf (d : DelegatedAddress) : Prop :=
  in_u64 (da_namespace d) ∧ (da_length d ≤ MAX_SUBADDRESS_LEN)%nat ∧
  length (da_buffer d) = MAX_SUBADDRESS_LEN ∧
  drop (da_length d) (da_buffer d) = replicate (MAX_SUBADDRESS_LEN - da_length d) 0.

(** What the constructors of [Address] guarantee. *)
Definition addr_wf (a : Address) : Prop :=
  match a with
  | ID i => in_u64 i
  | Secp256k1Addr h | ActorAddr h => length h = PAYLOAD_HASH_LEN
  | BLSAddr k => length k = BLS_PUB_LEN
  | Delegated d => da_wf d
  end.

Lemma DelegatedAddress_new_spec ns sub d :
  in_u64 ns →
  DelegatedAddress_new ns sub = Ok d ↔
    da_wf d ∧ da_namespace d = ns ∧ da_subaddress d = sub.
Proof.
  intros Hns. unfold DelegatedAddress_new, da_wf, da_subaddress.
  destruct (Nat.ltb_spec MAX_SUBADDRESS_LEN (length sub)) as [Hl|Hl].
  - split; [done|]. intros [(_&Hlen&_) [_ <-]]. rewrite length_take in Hl. lia.
  - split.
    + intros [= <-]; simpl. rewrite length_app, length_replicate, drop_app_length, take_app_length.
      split_and!; try done; lia.
    + destruct d as [ns' l buf]; simpl. intros [(_&Hlen&Hbuf&Hz) [-> <-]].
      rewrite length_take, Hbuf, Nat.min_l by lia.
      by rewrite <-Hz, take_drop.
Qed.

Lemma protocol_byte_inv b p : protocol_from_byte b = Some p ↔ b = protocol_byte p.
Proof.
  split; [|by intros ->; destruct p].
  unfold protocol_from_byte. intros. repeat case_match; simplify_eq/=; done.
Qed.

Section roundtrip.
Context `{VarintSpec}.

Lemma from_leb_bytes_spec bz i : from_leb_bytes bz = Ok i ↔ in_u64 i ∧ bz = to_leb_bytes i.
Proof.
  unfold from_leb_bytes, to_leb_bytes. split.
  - destruct (varint_decode bz) as [[n [|]]|] eqn:E; intros [= <-].
    apply varint_encode_decode in E as [-> ?]. by rewrite app_nil_r.
  - intros [Hi ->]. rewrite <-(app_nil_r (varint_encode i)).
    by rewrite varint_decode_encode.
Qed.

Lemma try_into_spec n bz h : try_into n bz = Ok h ↔ length h = n ∧ bz = h.
Proof.
  unfold try_into. destruct (Nat.eqb_spec (length bz) n); split; try done.
  - by intros [= <-].
  - by intros [_ ->].
  - by intros [<- ->].
Qed.

Lemma Payload_new_complete a : addr_wf a → Payload_new (protocol a) (to_raw_bytes a) = Ok a.
Proof.
  destruct a as [i|h|h|k|d]; simpl; intros Hw.
  - by rewrite (proj2 (from_leb_bytes_spec _ i) (conj Hw eq_refl)).
  - by rewrite (proj2 (try_into_spec _ _ h) (conj Hw eq_refl)).
  - by rewrite (proj2 (try_into_spec _ _ h) (conj Hw eq_refl)).
  - by rewrite (proj2 (try_into_spec _ _ k) (conj Hw eq_refl)).
  - pose proof Hw as [Hns _]. unfold to_leb_bytes. rewrite varint_decode_encode by done.
    by rewrite (proj2 (DelegatedAddress_new_spec _ _ d Hns) (conj Hw (conj eq_refl eq_refl))).
Qed.

Lemma Payload_new_sound p bz a :
  Payload_new p bz = Ok a → addr_wf a ∧ protocol a = p ∧ bz = to_raw_bytes a.
Proof.
  destruct p; simpl; intros E.
  - destruct (from_leb_bytes bz) eqn:E1; simplify_eq/=. by apply from_leb_bytes_spec in E1 as [? ->].
  - destruct (try_into _ bz) eqn:E1; simplify_eq/=. by apply try_into_spec in E1 as [? ->].
  - destruct (try_into _ bz) eqn:E1; simplify_eq/=. by apply try_into_spec in E1 as [? ->].
  - destruct (try_into _ bz) eqn:E1; simplify_eq/=. by apply try_into_spec in E1 as [? ->].
  - destruct (varint_decode bz) as [[n rest]|] eqn:E1; [|done].
    apply varint_encode_decode in E1 as [-> Hn].
    destruct (DelegatedAddress_new n rest) as [d|] eqn:E2; simplify_eq/=.
    apply (DelegatedAddress_new_spec _ _ _ Hn) in E2 as (?&<-&<-). done.
Qed.

Lemma from_bytes_spec bz a :
  from_bytes bz = Ok a ↔ addr_wf a ∧ bz = to_bytes a.
Proof.
  split.
  - destruct bz as [|b [|c rest]]; try done. simpl.
    destruct (protocol_from_byte b) as [p|] eqn:Ep; [|done]. intros E.
    apply protocol_byte_inv in Ep as ->. apply Payload_new_sound in E as (?&<-&->). done.
  - intros [Hw ->]. unfold to_bytes.
    assert (to_raw_bytes a ≠ []) as Hne.
    { destruct a; simpl in *; unfold to_leb_bytes, PAYLOAD_HASH_LEN, BLS_PUB_LEN in *;
        try (intros ->; done); try apply varint_encode_nonempty.
      intros [? _]%app_nil. by eapply varint_encode_nonempty. }
    simpl. destruct (to_raw_bytes a) as [|c rest] eqn:Er; [done|].
    rewrite (proj2 (protocol_byte_inv _ _) eq_refl), <-Er. by apply Payload_new_complete.
Qed.

(** State-tree and address-map keys are distinct for distinct addresses. *)
Lemma to_bytes_inj a b : addr_wf a → addr_wf b → to_bytes a = to_bytes b → a = b.
Proof.
  intros Ha Hb E. assert (from_bytes (to_bytes a) = Ok b) as E1.
  { apply from_bytes_spec. by rewrite E. }
  rewrite (proj2 (from_bytes_spec _ a)) in E1; [by simplify_eq|done].
Qed.
(** address encoding. Parsing address bytes accepts exactly the encodings
    of well-formed addresses, and each well-formed address has exactly one
    encoding: [from_bytes] and [to_bytes] are inverse of each other. *)
Theorem address_bytes_iff bz a :
  from_bytes bz = Ok a ↔ addr_wf a ∧ bz = to_bytes a.
Proof. apply from_bytes_spec. Qed.

End roundtrip.

(** ** LEB128, an instance of the interface *)

Fixpoint leb_encode (fuel : nat) (n : Z) : bytes :=
  match fuel with
  | O => [n]
  | S fuel => if n <? 128 then [n] else (n mod 128 + 128) :: leb_encode fuel (n / 128)
  end.

Fixpoint leb_decode (bz : bytes) : option (Z * bytes) :=
  match bz with
  | [] => None
  | b :: rest =>
      if b <? 128 then Some (b, rest)
      else '(n, rest) ← leb_decode rest; Some (b - 128 + 128 * n, rest)
  end.

Definition leb128 : Varint := {|
  varint_encode := leb_encode 9;
  varint_decode := λ bz,
    '(n, rest) ← leb_decode bz;
    if bool_decide (0 ≤ n ≤ u64_max ∧ bz = leb_encode 9 n ++ rest) then Some (n, rest) else None;
|}.

Lemma leb_decode_encode fuel n rest :
  0 ≤ n < 128 ^ (Z.of_nat (S fuel)) → leb_decode (leb_encode fuel n ++ rest) = Some (n, rest).
Proof.
  revert n. induction fuel as [|fuel IH]; intros n Hn; simpl leb_encode.
  - simpl. destruct (Z.ltb_spec n 128); [done|]. lia.
  - destruct (Z.ltb_spec n 128) as [Hs|Hs]; simpl.
    + destruct (Z.ltb_spec n 128); [done|lia].
    + pose proof (Z.mod_pos_bound n 128 ltac:(lia)).
      destruct (Z.ltb_spec (n mod 128 + 128) 128); [lia|].
      rewrite IH.
      * simpl. do 2 f_equal. pose proof (Z.div_mod n 128). lia.
      * rewrite Nat2Z.inj_succ, Z.pow_succ_r in Hn by lia.
        split; [apply Z.div_pos; lia|apply Z.div_lt_upper_bound; lia].
Qed.

Lemma leb128_spec : @VarintSpec leb128.
Proof.
  split.
  - intros n rest Hn. cbn [varint_decode varint_encode leb128].
    rewrite leb_decode_encode; [|unfold in_u64, u64_max in Hn; lia].
    simpl. by rewrite bool_decide_true.
  - intros bz n rest. cbn [varint_decode varint_encode leb128].
    destruct (leb_decode bz) as [[m r]|]; simpl; [|done].
    case_bool_decide as Hd; [|done]. intros [= <- <-]. destruct Hd; done.
  - intros n. simpl. by destruct (n <? 128).
Qed.

Lemma address_bytes_iff_witness :
  @from_bytes leb128 [0; 128; 1] = Ok (ID 128).
Proof.
  apply (proj2 (@address_bytes_iff leb128 leb128_spec [0; 128; 1] (ID 128))).
  split; [simpl; mlia|reflexivity].
Defined.
