(* ===== verification/Decimal.v ===== *)
(** * Numerals

    How Rust's standard library prints numbers ([Display] of [u64],
    [BigInt::to_str_radix(10)]) and reads them back ([str::parse::<u64>]). Text
    is the list of its bytes. At the end, numbers in any base with a fixed number
    of digits ([to_bytes_be], base32). *)

From S2P Require Import Prelude.
From stdpp Require Import gmap strings list fin_maps.
From Stdlib Require Import ZArith Lia.
#[local] Open Scope Z_scope.

(** The decimal digits of a natural number, most significant first. A number
    has no more digits than bits. *)
Fixpoint digits_fuel (fuel : nat) (n : Z) : list Z :=
  match fuel with
  | O => []
  | S fuel => if n <? 10 then [48 + n] else digits_fuel fuel (n / 10) ++ [48 + n `mod` 10]
  end.
Definition digits (n : Z) : list Z := digits_fuel (S (Z.to_nat (Z.log2 n))) n.

Definition is_digit (c : Z) : bool := (48 <=? c) && (c <=? 57).

(** [str::parse::<u64>]: an optional plus sign, then digits without overflow. *)
Fixpoint parse_digits (acc : Z) (s : list Z) : option Z :=
  match s with
  | [] => Some acc
  | c :: rest =>
      if is_digit c then
        let v := acc * 10 + (c - 48) in
        if v <=? u64_max then parse_digits v rest else None
      else None
  end.
Definition parse_u64 (s : list Z) : option Z :=
  match s with
  | [] | [43] | [45] => None
  | 43 :: rest => parse_digits 0 rest
  | _ => parse_digits 0 s
  end.

(** The number a string of digits stands for. *)
Definition dec_value (s : list Z) : Z := foldl (λ acc c, acc * 10 + (c - 48)) 0 s.

(** ** Printing *)

Lemma digits_fuel_value fuel n :
  0 ≤ n < 2 ^ Z.of_nat fuel → fuel ≠ 0%nat → dec_value (digits_fuel fuel n) = n.
Proof.
  revert n. induction fuel as [|fuel IH]; intros n Hn Hf; [done|]. simpl.
  destruct (Z.ltb_spec n 10); [unfold dec_value; simpl; lia|].
  assert (0 ≤ n / 10 < 2 ^ Z.of_nat fuel).
  { rewrite Nat2Z.inj_succ, Z.pow_succ_r in Hn by lia. split; [apply Z.div_pos; lia|].
    apply Z.div_lt_upper_bound; lia. }
  unfold dec_value in *. rewrite foldl_app. simpl. rewrite IH; [|done|].
  - pose proof (Z.div_mod n 10). lia.
  - intros ->. simpl in *. lia.
Qed.

Lemma digits_fuel_ok fuel n : 0 ≤ n → Forall (λ c, is_digit c = true) (digits_fuel fuel n).
Proof.
  revert n. induction fuel as [|fuel IH]; intros n Hn; simpl; [done|]. unfold is_digit.
  destruct (Z.ltb_spec n 10).
  - apply Forall_singleton. apply andb_true_iff. split; apply Z.leb_le; lia.
  - apply Forall_app. split; [apply IH, Z.div_pos; lia|]. apply Forall_singleton.
    pose proof (Z.mod_pos_bound n 10). apply andb_true_iff. split; apply Z.leb_le; lia.
Qed.

Lemma log2_fuel n : 0 ≤ n → 0 ≤ n < 2 ^ Z.of_nat (S (Z.to_nat (Z.log2 n))).
Proof.
  intros Hn. split; [done|]. pose proof (Z.log2_nonneg n). rewrite Nat2Z.inj_succ, Z2Nat.id by done.
  destruct (decide (n = 0)) as [->|]; [simpl; lia|]. apply Z.log2_spec. lia.
Qed.

Lemma digits_value n : 0 ≤ n → dec_value (digits n) = n.
Proof. intros Hn. apply digits_fuel_value; [by apply log2_fuel|done]. Qed.
Lemma digits_ok n : 0 ≤ n → Forall (λ c, is_digit c = true) (digits n).
Proof. apply digits_fuel_ok. Qed.
Lemma digits_ne n : digits n ≠ [].
Proof. unfold digits. simpl. destruct (n <? 10); [done|]. by intros [_ ?]%app_nil. Qed.

(** The first digit is not zero but for zero itself. *)
Lemma digits_head fuel n c s : 0 < n < 2 ^ Z.of_nat fuel → digits_fuel fuel n = c :: s → c ≠ 48.
Proof.
  revert n c s. induction fuel as [|fuel IH]; intros n c s Hn; simpl in *; [done|].
  destruct (Z.ltb_spec n 10); [intros [= <- <-]; lia|].
  assert (0 < n / 10 < 2 ^ Z.of_nat fuel).
  { split; [apply Z.div_str_pos; lia|]. apply Z.div_lt_upper_bound; [lia|].
    change (S fuel) with (1 + fuel)%nat in Hn. rewrite Nat2Z.inj_add, Z.pow_add_r in Hn by lia. simpl in Hn. lia. }
  destruct (digits_fuel fuel (n / 10)) as [|d r] eqn:Hd; [|by intros [= <- _]; eapply IH].
  intros _. exfalso. pose proof (digits_fuel_value fuel (n / 10) ltac:(lia)) as Hv. rewrite Hd in Hv.
  unfold dec_value in Hv. simpl in Hv. destruct fuel; [simpl in *; lia|]. specialize (Hv ltac:(done)). lia.
Qed.

Lemma dec_value_snoc s c : dec_value (s ++ [c]) = dec_value s * 10 + (c - 48).
Proof. unfold dec_value. by rewrite foldl_app. Qed.

Lemma is_digit_bounds c : is_digit c = true → 48 ≤ c ≤ 57.
Proof. unfold is_digit. intros [?%Z.leb_le ?%Z.leb_le]%andb_true_iff. lia. Qed.

Lemma dec_value_lower c s :
  is_digit c = true → c ≠ 48 → Forall (λ c, is_digit c = true) s →
  10 ^ Z.of_nat (length s) ≤ dec_value (c :: s).
Proof.
  intros Hc Hne. apply is_digit_bounds in Hc. induction s as [|d s IH] using rev_ind; intros Hs; [unfold dec_value; simpl; lia|].
  apply Forall_app in Hs as [Hs Hd]. rewrite Forall_singleton in Hd. apply is_digit_bounds in Hd.
  rewrite app_comm_cons, dec_value_snoc, length_app. simpl. specialize (IH Hs).
  rewrite Nat2Z.inj_add, Z.pow_add_r by lia. lia.
Qed.

Lemma dec_value_nonneg s : Forall (λ c, is_digit c = true) s → 0 ≤ dec_value s.
Proof.
  induction s as [|d s IH] using rev_ind; intros Hs; [done|].
  apply Forall_app in Hs as [Hs Hd]. rewrite Forall_singleton in Hd. apply is_digit_bounds in Hd. rewrite dec_value_snoc. specialize (IH Hs). lia.
Qed.

(** A string of digits without leading zeros is the one printed. *)
Lemma digits_fuel_unique fuel c s :
  is_digit c = true → c ≠ 48 → Forall (λ c, is_digit c = true) s → dec_value (c :: s) < 2 ^ Z.of_nat fuel →
  digits_fuel fuel (dec_value (c :: s)) = c :: s.
Proof.
  intros Hc Hne. revert s. induction fuel as [|fuel IH]; intros s Hs Hf.
  { pose proof (dec_value_lower c s Hc Hne Hs). assert (0 < 10 ^ Z.of_nat (length s)) by (apply Z.pow_pos_nonneg; lia). simpl in Hf. lia. }
  destruct s as [|d s _] using rev_ind.
  - apply is_digit_bounds in Hc. change (dec_value [c]) with (c - 48). cbn [digits_fuel]. destruct (Z.ltb_spec (c - 48) 10); [f_equal; lia|lia].
  - apply Forall_app in Hs as [Hs Hd]. rewrite Forall_singleton in Hd. pose proof (is_digit_bounds d Hd).
    pose proof (dec_value_lower c s Hc Hne Hs). assert (0 < 10 ^ Z.of_nat (length s)) by (apply Z.pow_pos_nonneg; lia).
    rewrite app_comm_cons, dec_value_snoc in *. cbn [digits_fuel].
    destruct (Z.ltb_spec (dec_value (c :: s) * 10 + (d - 48)) 10); [lia|].
    rewrite <-(Z.div_unique (dec_value (c :: s) * 10 + (d - 48)) 10 (dec_value (c :: s)) (d - 48)) by lia.
    rewrite <-(Z.mod_unique (dec_value (c :: s) * 10 + (d - 48)) 10 (dec_value (c :: s)) (d - 48)) by lia.
    rewrite IH; [f_equal; f_equal; lia|done|]. rewrite Nat2Z.inj_succ, Z.pow_succ_r in Hf by lia. lia.
Qed.

Lemma digits_unique s :
  Forall (λ c, is_digit c = true) s → s ≠ [] → ∃ k, s = replicate k 48 ++ digits (dec_value s).
Proof.
  induction s as [|c s IH]; intros Hs Hne; [done|]. apply Forall_cons in Hs as [Hc Hs].
  destruct (decide (c = 48)) as [->|Hc48].
  - destruct (decide (s = [])) as [->|Hs0]; [by exists 0%nat|].
    destruct (IH Hs Hs0) as [k Hk]. exists (S k). simpl. f_equal.
    change (dec_value (48 :: s)) with (dec_value s). done.
  - exists 0%nat. simpl. symmetry. apply digits_fuel_unique; try done.
    apply log2_fuel, dec_value_nonneg. by constructor.
Qed.

Lemma digits_length_pow n k : 0 ≤ n < 10 ^ Z.of_nat k → (1 ≤ k)%nat → (length (digits n) ≤ k)%nat.
Proof.
  intros Hn Hk. destruct (decide (n = 0)) as [->|Hn0]; [simpl; lia|].
  pose proof (digits_ok n ltac:(lia)) as Hok. pose proof (digits_value n ltac:(lia)) as Hv.
  destruct (digits n) as [|c s] eqn:Hd; [simpl; lia|]. apply Forall_cons in Hok as [Hc Hs].
  pose proof (dec_value_lower c s Hc) as Hlow. specialize (Hlow ltac:(eapply digits_head; [|exact Hd];
    pose proof (log2_fuel n ltac:(lia)); lia) Hs). rewrite Hv in Hlow.
  assert (Z.of_nat (length s) < Z.of_nat k); [|simpl; lia].
  apply (Z.pow_lt_mono_r_iff 10); lia.
Qed.

Lemma digits_length n : in_u64 n → (length (digits n) ≤ 20)%nat.
Proof. intros Hn. apply digits_length_pow; [|lia]. split; [mlia|]. change (Z.of_nat 20) with 20. mlia. Qed.

Lemma dec_value_app s t : dec_value (s ++ t) = dec_value s * 10 ^ Z.of_nat (length t) + dec_value t.
Proof.
  induction t as [|c t IH] using rev_ind; [rewrite app_nil_r; unfold dec_value; simpl; lia|].
  rewrite app_assoc, !dec_value_snoc, IH, length_app. cbn [length]. rewrite Nat2Z.inj_add, Z.pow_add_r by lia. lia.
Qed.

Lemma dec_value_zeros k : dec_value (replicate k 48) = 0.
Proof. unfold dec_value. induction k; done. Qed.

Lemma dec_value_upper s : Forall (λ c, is_digit c = true) s → dec_value s < 10 ^ Z.of_nat (length s).
Proof.
  induction s as [|c s IH] using rev_ind; intros Hs; [done|]. apply Forall_app in Hs as [Hs Hc].
  rewrite Forall_singleton in Hc. apply is_digit_bounds in Hc. specialize (IH Hs).
  rewrite dec_value_snoc, length_app. cbn [length]. rewrite Nat2Z.inj_add, Z.pow_add_r by lia. lia.
Qed.

(** The first digits of a numeral. *)
Lemma dec_value_take p s :
  Forall (λ c, is_digit c = true) s → (p ≤ length s)%nat →
  dec_value (take p s) = dec_value s / 10 ^ Z.of_nat (length s - p).
Proof.
  intros Hs Hp. rewrite <-(take_drop p s) at 2. rewrite dec_value_app, length_drop.
  pose proof (Forall_drop _ p _ Hs) as Hd. pose proof (dec_value_upper _ Hd) as Hu. rewrite length_drop in Hu.
  pose proof (dec_value_nonneg _ Hd). rewrite Z.div_add_l by lia. rewrite Z.div_small by lia. lia.
Qed.

(** ** Reading *)

Lemma parse_digits_spec acc s n :
  0 ≤ acc ≤ u64_max →
  parse_digits acc s = Some n ↔
    Forall (λ c, is_digit c = true) s ∧ n = foldl (λ acc c, acc * 10 + (c - 48)) acc s ∧ n ≤ u64_max.
Proof.
  revert acc. induction s as [|c s IH]; intros acc Hacc; simpl.
  { split; [intros [= <-]|intros (_ & -> & _)]; [|done]. split; [done|]. mlia. }
  rewrite Forall_cons. destruct (is_digit c) eqn:Hc; [|split; [done|by intros [[] _]]].
  pose proof (is_digit_bounds c Hc). destruct (Z.leb_spec (acc * 10 + (c - 48)) u64_max) as [Hle|Hgt].
  - rewrite IH by lia. tauto.
  - split; [done|]. intros ([_ Hs] & -> & Hle). exfalso.
    assert (Hmono : ∀ l a, Forall (λ c, is_digit c = true) l → 0 ≤ a → a ≤ foldl (λ acc c, acc * 10 + (c - 48)) a l).
    { induction l as [|d l IHl]; intros a Hl Ha; simpl; [lia|]. apply Forall_cons in Hl as [Hd%is_digit_bounds Hl].
      specialize (IHl (a * 10 + (d - 48)) Hl ltac:(lia)). lia. }
    specialize (Hmono s (acc * 10 + (c - 48)) Hs ltac:(mlia)). lia.
Qed.

(** The texts that denote a number: leading zeros and a plus sign are allowed. *)
Definition numeral (n : Z) (s : list Z) : Prop :=
  ∃ k, s = replicate k 48 ++ digits n ∨ s = 43 :: replicate k 48 ++ digits n.

Lemma numeral_digits n k : 0 ≤ n → Forall (λ c, is_digit c = true) (replicate k 48 ++ digits n).
Proof. intros Hn. apply Forall_app. split; [|by apply digits_ok]. by apply Forall_replicate. Qed.

Lemma numeral_value n k : 0 ≤ n → dec_value (replicate k 48 ++ digits n) = n.
Proof.
  intros Hn. assert (Hz : foldl (λ acc c, acc * 10 + (c - 48)) 0 (replicate k 48) = 0) by (induction k; done).
  unfold dec_value. rewrite foldl_app, Hz. by apply digits_value.
Qed.

Lemma parse_u64_signed s : parse_u64 (43 :: s) = if decide (s = []) then None else parse_digits 0 s.
Proof. by destruct s. Qed.
Lemma parse_u64_plain c s : is_digit c = true → parse_u64 (c :: s) = parse_digits 0 (c :: s).
Proof.
  intros Hc%is_digit_bounds. unfold parse_u64. assert (c ≠ 43) by lia. assert (c ≠ 45) by lia.
  repeat case_match; try done; lia.
Qed.
Lemma parse_u64_other c s : is_digit c = false → c ≠ 43 → parse_u64 (c :: s) = None.
Proof.
  intros Hc Hne. unfold parse_u64. assert (Hp : parse_digits 0 (c :: s) = None) by (simpl; by rewrite Hc).
  repeat case_match; try done; lia.
Qed.

Lemma parse_u64_spec s n : parse_u64 s = Some n ↔ in_u64 n ∧ numeral n s.
Proof.
  assert (Hcore : ∀ t, t ≠ [] → parse_digits 0 t = Some n ↔ in_u64 n ∧ ∃ k, t = replicate k 48 ++ digits n).
  { intros t Ht. rewrite parse_digits_spec by mlia. fold (dec_value t). split.
    - intros (Hd & -> & Hle). pose proof (dec_value_nonneg t Hd). split; [mlia|]. by apply digits_unique.
    - intros (Hn & k & ->). rewrite numeral_value by mlia. split; [apply numeral_digits; mlia|]. mlia. }
  unfold numeral. destruct s as [|c s].
  { split; [done|]. intros (_ & k & [H|H]); [|done]. symmetry in H. apply app_nil in H as [_ H]. by apply digits_ne in H. }
  destruct (decide (c = 43)) as [->|Hc].
  - rewrite parse_u64_signed. case_decide as Hs.
    + split; [done|]. intros (Hn & k & [H|H]).
      * pose proof (numeral_digits n k ltac:(mlia)) as Hd. rewrite <- H in Hd. by apply Forall_cons in Hd as [? _].
      * subst s. injection H as H. symmetry in H. apply app_nil in H as [_ H]. by apply digits_ne in H.
    + rewrite Hcore by done. split; intros (Hn & k & H); (split; [done|]); exists k.
      * right. by rewrite H.
      * destruct H as [H|H]; [|by injection H]. exfalso.
        pose proof (numeral_digits n k ltac:(mlia)) as Hd. rewrite <- H in Hd. by apply Forall_cons in Hd as [? _].
  - destruct (is_digit c) eqn:Hd.
    + rewrite parse_u64_plain, Hcore by done. split; intros (Hn & k & H); (split; [done|]); exists k; [by left|].
      destruct H as [H|H]; [done|]. by injection H.
    + rewrite parse_u64_other by done. split; [done|]. intros (Hn & k & [H|H]); [|by injection H].
      pose proof (numeral_digits n k ltac:(mlia)) as Hds. rewrite <- H in Hds. apply Forall_cons in Hds as [? _]. congruence.
Qed.

(** ** Positional notation, most significant digit first *)

Fixpoint to_base (B : Z) (k : nat) (v : Z) : list Z :=
  match k with O => [] | S k => to_base B k (v / B) ++ [v `mod` B] end.
Definition of_base (B : Z) (l : list Z) : Z := foldl (λ a d, a * B + d) 0 l.

Section base.
Context (B : Z) (HB : 1 < B).

Lemma to_base_length k v : length (to_base B k v) = k.
Proof. revert v. induction k as [|k IH]; intros v; simpl; [done|]. rewrite length_app, IH. simpl. lia. Qed.

Lemma to_base_digits k v : Forall (λ d, 0 ≤ d < B) (to_base B k v).
Proof.
  revert v. induction k as [|k IH]; intros v; simpl; [done|]. apply Forall_app. split; [done|].
  apply Forall_singleton, Z.mod_pos_bound. lia.
Qed.

Lemma of_base_snoc l d : of_base B (l ++ [d]) = of_base B l * B + d.
Proof. unfold of_base. by rewrite foldl_app. Qed.

Lemma of_base_bound l : Forall (λ d, 0 ≤ d < B) l → 0 ≤ of_base B l < B ^ Z.of_nat (length l).
Proof.
  induction l as [|d l IH] using rev_ind; intros Hl; [unfold of_base; simpl; lia|].
  apply Forall_app in Hl as [Hl Hd]. rewrite Forall_singleton in Hd. specialize (IH Hl).
  rewrite of_base_snoc, length_app. cbn [length]. rewrite Nat2Z.inj_add, Z.pow_add_r by lia. simpl (B ^ _). nia.
Qed.

Lemma of_to_base k v : 0 ≤ v < B ^ Z.of_nat k → of_base B (to_base B k v) = v.
Proof.
  revert v. induction k as [|k IH]; intros v Hv; [unfold of_base; simpl in *; lia|].
  cbn [to_base]. rewrite of_base_snoc, IH; [pose proof (Z.div_mod v B); lia|].
  rewrite Nat2Z.inj_succ, Z.pow_succ_r in Hv by lia.
  split; [apply Z.div_pos; lia|]. apply Z.div_lt_upper_bound; lia.
Qed.

Lemma to_of_base l : Forall (λ d, 0 ≤ d < B) l → to_base B (length l) (of_base B l) = l.
Proof.
  induction l as [|d l IH] using rev_ind; intros Hl; [done|].
  apply Forall_app in Hl as [Hl Hd]. rewrite Forall_singleton in Hd. rewrite of_base_snoc, length_app, Nat.add_comm. simpl.
  rewrite Z.div_add_l, (Z.div_small d), Z.add_0_r, IH by (done || lia).
  by rewrite Z.add_comm, Z.mod_add, Z.mod_small by lia.
Qed.
End base.
