(* ===== verification/AddressText.v ===== *)
(** * The text form of addresses (shared/src/address/mod.rs, network.rs)

    An address is printed as the network's letter, the protocol's digit and the
    payload: a decimal id, or base32 of the payload followed by a checksum.
    Base32 (crate [data_encoding]) and blake2b (crate [blake2b_simd]) are
    interfaces; a string is the list of its bytes. *)

From S2P Require Import Prelude Effects Address Decimal.
From stdpp Require Import gmap strings list fin_maps.
From Stdlib Require Import ZArith Lia.
#[local] Open Scope Z_scope.

(** [ADDRESS_ENCODER]: lower-case base32 without padding. *)
Class Base32 := {
  b32_encode : bytes → bytes;
  b32_decode : bytes → option bytes;
}.
(** Documented: decoding inverts encoding and accepts the canonical text alone
    (trailing bits are checked); the symbols are ASCII, one for five bits. *)
Class Base32Spec `{Base32} : Prop := {
  b32_decode_encode b : Forall is_byte b → b32_decode (b32_encode b) = Some b;
  b32_encode_decode s b : b32_decode s = Some b → Forall is_byte b ∧ s = b32_encode b;
  b32_ascii b : Forall (λ c, c < 128) (b32_encode b);
  b32_length b : length (b32_encode b) = ((8 * length b + 4) / 5)%nat;
}.

(** [blake2b_simd::Params::hash_length]. *)
Class Blake2b := blake2b : nat → bytes → bytes.
Class Blake2bSpec `{Blake2b} : Prop := {
  blake2b_length n d : length (blake2b n d) = n;
  blake2b_bytes n d : Forall is_byte (blake2b n d);
}.

Definition SECP_PUB_LEN : nat := 65.
Definition CHECKSUM_HASH_LEN : nat := 4.
Definition MAX_ADDRRESS_TEXT_LEN : nat := 138.
Definition MAINNET_PREFIX : bytes := [102].
Definition TESTNET_PREFIX : bytes := [116].

(** ** Networks *)

Inductive Network := Mainnet | Testnet.
#[export] Instance Network_eq_dec : EqDecision Network.
Proof. solve_decision. Defined.

Definition to_prefix (n : Network) : bytes :=
  match n with Mainnet => MAINNET_PREFIX | Testnet => TESTNET_PREFIX end.
Definition from_prefix (s : bytes) : result AddressError Network :=
  if decide (s = MAINNET_PREFIX) then Ok Mainnet
  else if decide (s = TESTNET_PREFIX) then Ok Testnet
  else Err UnknownNetwork.

(** [ATOMIC_NETWORK] is a byte; [current_network] falls back to the default. *)
Definition current_network (atomic : Z) : Network := if atomic =? 1 then Testnet else Mainnet.
Definition set_current_network (n : Network) : Z := match n with Mainnet => 0 | Testnet => 1 end.

(** ** Strings *)

(** [str::get]: the bounds must be in range and on character boundaries. *)
Definition is_char_boundary (s : bytes) (i : nat) : bool :=
  if (i =? 0)%nat then true
  else match s !! i with
       | Some b => (b <? 128) || (192 <=? b)
       | None => (i =? length s)%nat
       end.
Definition str_get (s : bytes) (i j : nat) : option bytes :=
  if (i <=? j)%nat && is_char_boundary s i && is_char_boundary s j then Some (take (j - i) (drop i s)) else None.

(** [str::split_once], for a one-byte character. *)
Fixpoint split_once (c : Z) (s : bytes) : option (bytes * bytes) :=
  match s with
  | [] => None
  | b :: rest => if b =? c then Some ([], rest)
                 else '(l, r) ← split_once c rest; Some (b :: l, r)
  end.

Section text.
Context `{Varint, Base32, Blake2b}.

(** ** Constructors *)

Definition address_hash (ingest : bytes) : bytes := blake2b PAYLOAD_HASH_LEN ingest.

Definition new_secp256k1 (pubkey : bytes) : result AddressError Address :=
  if negb (length pubkey =? SECP_PUB_LEN)%nat then Err (InvalidSECPLength (length pubkey))
  else Ok (Secp256k1Addr (address_hash pubkey)).
Definition new_actor (data : bytes) : Address := ActorAddr (address_hash data).
Definition new_delegated (ns : Z) (subaddress : bytes) : result AddressError Address :=
  match DelegatedAddress_new ns subaddress with Ok d => Ok (Delegated d) | Err e => Err e end.
Definition new_bls (pubkey : bytes) : result AddressError Address :=
  if negb (length pubkey =? BLS_PUB_LEN)%nat then Err (InvalidBLSLength (length pubkey))
  else Ok (BLSAddr pubkey).

(** ** Printing *)

Definition checksum (p : Protocol) (prefix data : bytes) : bytes :=
  blake2b CHECKSUM_HASH_LEN (protocol_byte p :: prefix ++ data).
Definition write_payload (p : Protocol) (prefix data : bytes) : bytes :=
  b32_encode (data ++ checksum p prefix data).

(** [Display for Address], with the text of the number it contains. *)
Definition address_text (n : Network) (a : Address) (number : bytes) : bytes :=
  to_prefix n ++ [48 + protocol_byte (protocol a)] ++
  match a with
  | ID _ => number
  | Secp256k1Addr data | ActorAddr data | BLSAddr data => write_payload (protocol a) [] data
  | Delegated addr => number ++ 102 :: write_payload PDelegated (varint_encode (da_namespace addr)) (da_subaddress addr)
  end.
Definition address_number (a : Address) : Z :=
  match a with ID i => i | Delegated d => da_namespace d | _ => 0 end.
Definition display (n : Network) (a : Address) : bytes := address_text n a (digits (address_number a)).

(** ** Parsing *)

Definition validate_and_split_checksum (p : Protocol) (prefix payload : bytes) : result AddressError bytes :=
  if (length payload <? CHECKSUM_HASH_LEN)%nat then Err InvalidLength
  else
    let k := (length payload - CHECKSUM_HASH_LEN)%nat in
    let csum := drop k payload in
    let payload := take k payload in
    if decide (checksum p prefix payload = csum) then Ok payload else Err InvalidChecksum.

Definition parse_protocol (s : bytes) : result AddressError Protocol :=
  if decide (s = [48]) then Ok PID
  else if decide (s = [49]) then Ok PSecp256k1
  else if decide (s = [50]) then Ok PActor
  else if decide (s = [51]) then Ok PBLS
  else if decide (s = [52]) then Ok PDelegated
  else Err UnknownProtocol.

(** The payload of a [f1], [f2] or [f3] address. *)
Definition parse_hashed (p : Protocol) (len : nat) (raw : bytes) : result AddressError Address :=
  match b32_decode raw with
  | None => Err Base32Decoding
  | Some payload_csum =>
      match validate_and_split_checksum p [] payload_csum with
      | Err e => Err e
      | Ok payload => if negb (len =? length payload)%nat then Err InvalidPayload else Payload_new p payload
      end
  end.

Definition parse_number (s : bytes) : result AddressError Z :=
  if (20 <? length s)%nat then Err InvalidLength
  else match parse_u64 s with Some id => Ok id | None => Err InvalidPayload end.

Definition parse_delegated (raw : bytes) : result AddressError Address :=
  match split_once 102 raw with
  | None => Err InvalidPayload
  | Some (id, subaddr) =>
      match parse_number id with
      | Err e => Err e
      | Ok id =>
          match b32_decode subaddr with
          | None => Err Base32Decoding
          | Some subaddr_csum =>
              match validate_and_split_checksum PDelegated (varint_encode id) subaddr_csum with
              | Err e => Err e
              | Ok subaddr => new_delegated id subaddr
              end
          end
      end
  end.

Definition parse_raw (p : Protocol) (raw : bytes) : result AddressError Address :=
  match p with
  | PID => match parse_number raw with Ok id => Ok (ID id) | Err e => Err e end
  | PDelegated => parse_delegated raw
  | PSecp256k1 | PActor => parse_hashed p PAYLOAD_HASH_LEN raw
  | PBLS => parse_hashed p BLS_PUB_LEN raw
  end.

Definition parse_address (addr : bytes) : result AddressError (Address * Network) :=
  if (MAX_ADDRRESS_TEXT_LEN <? length addr)%nat || (length addr <? 3)%nat then Err InvalidLength
  else match str_get addr 0 1 with
  | None => Err UnknownNetwork
  | Some s =>
      match from_prefix s with
      | Err e => Err e
      | Ok network =>
          match str_get addr 1 2 with
          | None => Err UnknownProtocol
          | Some s =>
              match parse_protocol s with
              | Err e => Err e
              | Ok p =>
                  match str_get addr 2 (length addr) with
                  | None => Err InvalidPayload
                  | Some raw => match parse_raw p raw with Ok a => Ok (a, network) | Err e => Err e end
                  end
              end
          end
      end
  end.

(** [Network::parse_address]; [FromStr for Address] is this at the current network. *)
Definition network_parse_address (n : Network) (addr : bytes) : result AddressError Address :=
  match parse_address addr with
  | Err e => Err e
  | Ok (a, network) => if decide (network = n) then Ok a else Err UnknownNetwork
  end.
End text.

(** ** Parsing inverts printing *)

Definition addr_bytes (a : Address) : Prop :=
  match a with
  | ID _ => True
  | Secp256k1Addr h | ActorAddr h | BLSAddr h => Forall is_byte h
  | Delegated d => Forall is_byte (da_subaddress d)
  end.

(** The numerals accepted in the text of an address. *)
Definition text_number (a : Address) (number : bytes) : Prop :=
  match a with
  | ID _ | Delegated _ => numeral (address_number a) number ∧ (length number ≤ 20)%nat
  | _ => True
  end.

Lemma split_once_spec c s l r : split_once c s = Some (l, r) ↔ s = l ++ c :: r ∧ c ∉ l.
Proof.
  revert l r. induction s as [|b s IH]; intros l r; simpl; [by split; [|intros [H _]; destruct l]|].
  destruct (Z.eqb_spec b c) as [->|Hb].
  - split; [intros [= <- <-]; split; [done|apply not_elem_of_nil]|]. intros [H Hl]. destruct l as [|d l]; simplify_eq/=; [done|].
    by destruct Hl; left.
  - split.
    + destruct (split_once c s) as [[l' r']|]; simpl; [|done]. intros [= <- <-].
      destruct (proj1 (IH _ _) eq_refl) as [-> Hl]. split; [done|]. by apply not_elem_of_cons.
    + intros [H Hl]. destruct l as [|d l]; simplify_eq/=. apply not_elem_of_cons in Hl as [_ Hl].
      by rewrite (proj2 (IH l r) (conj eq_refl Hl)).
Qed.

Lemma numeral_chars n s c : 0 ≤ n → numeral n s → c ∈ s → 43 ≤ c ≤ 57.
Proof.
  intros Hn [k [->| ->]] Hc.
  - pose proof (numeral_digits n k Hn) as Hd. rewrite Forall_forall in Hd. apply Hd, is_digit_bounds in Hc. lia.
  - apply elem_of_cons in Hc as [->|Hc]; [lia|].
    pose proof (numeral_digits n k Hn) as Hd. rewrite Forall_forall in Hd. apply Hd, is_digit_bounds in Hc. lia.
Qed.

Lemma numeral_nonempty n s : numeral n s → s ≠ [].
Proof. intros [k [->| ->]]; [|done]. intros [_ H]%app_nil. by apply digits_ne in H. Qed.

Lemma numeral_self n : numeral n (digits n).
Proof. exists 0%nat. by left. Qed.

Section inverse.
Context `{Varint, BS32 : Base32Spec, B2 : Blake2bSpec}.

Lemma validate_spec p prefix pl data :
  validate_and_split_checksum p prefix pl = Ok data ↔ pl = data ++ checksum p prefix data.
Proof.
  unfold validate_and_split_checksum. split.
  - destruct (Nat.ltb_spec (length pl) CHECKSUM_HASH_LEN); [done|]. case_decide as Hd; [|done].
    intros [= <-]. rewrite Hd. by rewrite take_drop.
  - intros ->. assert (Hl : length (checksum p prefix data) = CHECKSUM_HASH_LEN) by apply blake2b_length.
    rewrite length_app, Hl. destruct (Nat.ltb_spec (length data + CHECKSUM_HASH_LEN) CHECKSUM_HASH_LEN); [lia|].
    rewrite Nat.add_sub, take_app_length, drop_app_length. by rewrite decide_True.
Qed.

Lemma checksum_bytes p prefix data : Forall is_byte (checksum p prefix data).
Proof. apply blake2b_bytes. Qed.

Lemma decode_payload p prefix raw data :
  (∃ pl, b32_decode raw = Some pl ∧ validate_and_split_checksum p prefix pl = Ok data) ↔
  Forall is_byte data ∧ raw = write_payload p prefix data.
Proof.
  split.
  - intros (pl & Hd & Hv). apply validate_spec in Hv as ->. apply b32_encode_decode in Hd as [Hb ->].
    by apply Forall_app in Hb as [? _].
  - intros [Hb ->]. eexists. split; [|by apply validate_spec]. apply b32_decode_encode, Forall_app.
    split; [done|apply checksum_bytes].
Qed.

Lemma parse_hashed_spec p len raw a :
  parse_hashed p len raw = Ok a ↔
  ∃ data, Forall is_byte data ∧ raw = write_payload p [] data ∧ length data = len ∧ Payload_new p data = Ok a.
Proof.
  unfold parse_hashed. split.
  - destruct (b32_decode raw) as [pl|] eqn:Hd; [|done].
    destruct (validate_and_split_checksum p [] pl) as [data|] eqn:Hv; [|done].
    destruct (Nat.eqb_spec len (length data)); [|done]. simpl. intros Hp.
    destruct (proj1 (decode_payload p [] raw data)) as [? ?]; eauto.
  - intros (data & Hb & Hr & Hl & Hp). destruct (proj2 (decode_payload p [] raw data) (conj Hb Hr)) as (pl & -> & ->).
    rewrite Hl, Nat.eqb_refl. done.
Qed.

Lemma parse_number_spec s n : parse_number s = Ok n ↔ in_u64 n ∧ numeral n s ∧ (length s ≤ 20)%nat.
Proof.
  unfold parse_number. destruct (Nat.ltb_spec 20 (length s)); [split; [done|lia]|].
  pose proof (parse_u64_spec s n) as Hs. destruct (parse_u64 s) as [m|]; split.
  - intros [= ->]. destruct (proj1 Hs eq_refl). done.
  - intros (Hu & Hm & _). by pose proof (proj2 Hs (conj Hu Hm)) as [= ->].
  - done.
  - intros (Hu & Hm & _). by specialize (proj2 Hs (conj Hu Hm)).
Qed.

Lemma parse_delegated_spec raw a :
  parse_delegated raw = Ok a ↔
  ∃ d num, a = Delegated d ∧ da_wf d ∧ Forall is_byte (da_subaddress d) ∧
    numeral (da_namespace d) num ∧ (length num ≤ 20)%nat ∧
    raw = num ++ 102 :: write_payload PDelegated (varint_encode (da_namespace d)) (da_subaddress d).
Proof.
  unfold parse_delegated, new_delegated. split.
  - destruct (split_once 102 raw) as [[num sub]|] eqn:Hs; [|done]. apply split_once_spec in Hs as [-> _].
    destruct (parse_number num) as [id|] eqn:Hn; [|done]. apply parse_number_spec in Hn as (Hid & Hn & Hl).
    destruct (b32_decode sub) as [pl|] eqn:Hd; [|done].
    destruct (validate_and_split_checksum _ _ pl) as [data|] eqn:Hv; [|done].
    destruct (DelegatedAddress_new id data) as [d|] eqn:Hda; [|done]. intros [= <-].
    apply DelegatedAddress_new_spec in Hda as (Hwf & <- & <-); [|done].
    destruct (proj1 (decode_payload PDelegated (varint_encode (da_namespace d)) sub (da_subaddress d))) as [Hb ->]; [by eauto|].
    exists d, num. done.
  - intros (d & num & -> & Hwf & Hb & Hn & Hl & ->). pose proof Hwf as [Hid _].
    set (sub := write_payload _ _ _). assert (Hsp : split_once 102 (num ++ 102 :: sub) = Some (num, sub)).
    { apply split_once_spec. split; [done|]. intros Hc. pose proof (numeral_chars (da_namespace d) num 102 ltac:(mlia) Hn Hc). lia. }
    rewrite Hsp.
    rewrite (proj2 (parse_number_spec num (da_namespace d))) by done.
    destruct (proj2 (decode_payload PDelegated (varint_encode (da_namespace d)) sub (da_subaddress d)) (conj Hb eq_refl))
      as (pl & -> & ->).
    by rewrite (proj2 (DelegatedAddress_new_spec _ _ d Hid) (conj Hwf (conj eq_refl eq_refl))).
Qed.

(** The text after the protocol's digit. *)
Definition text_tail (a : Address) (number : bytes) : bytes := drop 2 (address_text Mainnet a number).

Lemma address_text_eq n a number :
  address_text n a number = match n with Mainnet => 102 | Testnet => 116 end :: (48 + protocol_byte (protocol a)) :: text_tail a number.
Proof. by destruct n. Qed.

(** The three protocols whose payload is a fixed number of bytes. *)
Lemma parse_raw_hashed q len (C : bytes → Address) raw a :
  (∀ data b, Payload_new q data = Ok b ↔ length data = len ∧ b = C data) →
  (∀ data, protocol (C data) = q ∧ addr_bytes (C data) = Forall is_byte data ∧
     (∀ num, text_number (C data) num ∧ text_tail (C data) num = write_payload q [] data) ∧
     (addr_wf (C data) ↔ length data = len)) →
  (∀ b, protocol b = q → ∃ data, b = C data) →
  parse_hashed q len raw = Ok a ↔
  protocol a = q ∧ addr_wf a ∧ addr_bytes a ∧ ∃ num, text_number a num ∧ raw = text_tail a num.
Proof.
  intros HP HC Hex. rewrite parse_hashed_spec. split.
  - intros (data & Hd & -> & Hl & Hp). apply HP in Hp as [_ ->]. destruct (HC data) as (Hpr & Hb & Hn & Hw).
    rewrite Hpr, Hw, Hb. split_and!; try done. exists []. by destruct (Hn []).
  - intros (Hq & Hwf & Hbs & num & _ & ->). destruct (Hex a Hq) as [data ->]. exists data.
    destruct (HC data) as (Hpr & Hb & Hn & Hw). rewrite Hb in Hbs. rewrite Hw in Hwf. rewrite HP. by destruct (Hn num).
Qed.

Lemma try_into_map n data b (C : bytes → Address) :
  match try_into n data with Ok h => Ok (C h) | Err e => Err e end = Ok b ↔ length data = n ∧ b = C data.
Proof.
  unfold try_into. destruct (Nat.eqb_spec (length data) n); split; try done;
    [by intros [= <-]|by intros [_ ->]|by intros [? _]].
Qed.

Lemma parse_raw_spec p raw a :
  parse_raw p raw = Ok a ↔
  protocol a = p ∧ addr_wf a ∧ addr_bytes a ∧ ∃ num, text_number a num ∧ raw = text_tail a num.
Proof.
  destruct p; simpl.
  - split.
    + destruct (parse_number raw) as [id|] eqn:Hp; [|done]. intros [= <-].
      apply parse_number_spec in Hp as (Hi & Hn & Hl). split_and!; try done. exists raw. done.
    + intros (Hp & Hw & _ & num & Hn & ->). destruct a as [i| | | |]; try done. destruct Hn as [Hn Hl].
      change (text_tail (ID i) num) with num. by rewrite (proj2 (parse_number_spec num i)).
  - apply (parse_raw_hashed PSecp256k1 PAYLOAD_HASH_LEN Secp256k1Addr); [intros; apply try_into_map|done|].
    intros []; try done. eauto.
  - apply (parse_raw_hashed PActor PAYLOAD_HASH_LEN ActorAddr); [intros; apply try_into_map|done|]. intros []; try done. eauto.
  - apply (parse_raw_hashed PBLS BLS_PUB_LEN BLSAddr); [intros; apply try_into_map|done|]. intros []; try done. eauto.
  - rewrite parse_delegated_spec. split.
    + intros (d & num & -> & Hw & Hb & Hn & Hl & ->). split_and!; try done. exists num. done.
    + intros (Hp & Hw & Hb & num & Hn & ->). destruct a as [| | | |d]; try done. destruct Hn as [Hn Hl].
      exists d, num. done.
Qed.

Lemma tail_ascii a num c s : addr_wf a → text_number a num → text_tail a num = c :: s → c < 128.
Proof.
  assert (Hb : ∀ d c s, b32_encode d = c :: s → c < 128).
  { intros d x l Hd. pose proof (b32_ascii d) as Ha. rewrite Hd in Ha. by apply Forall_cons in Ha as [? _]. }
  destruct a as [i|h|h|h|d]; intros Hw Hn Ht; [|exact (Hb (_ ++ checksum _ _ _) _ _ Ht)..|].
  - destruct Hn as [Hn _]. change (num = c :: s) in Ht. subst num.
    pose proof (numeral_chars i (c :: s) c ltac:(simpl in Hw; mlia) Hn ltac:(by left)). lia.
  - destruct Hn as [Hn _]. destruct Hw as [Hns _]. unfold text_tail in Ht. simpl in Ht.
    destruct num as [|x num]; simplify_eq/=; [lia|].
    pose proof (numeral_chars (da_namespace d) (c :: num) c ltac:(mlia) Hn ltac:(by left)). lia.
Qed.

Lemma tail_length a num :
  addr_wf a → text_number a num → (1 ≤ length (text_tail a num) ≤ 136)%nat.
Proof.
  destruct a as [i|h|h|h|d]; unfold text_tail; simpl; intros Hw Hn; unfold write_payload; rewrite ?drop_0, ?b32_length, ?length_app.
  - destruct Hn as [Hn ?]. apply numeral_nonempty in Hn. destruct num; [done|]. simpl in *. lia.
  - rewrite Hw. unfold checksum. rewrite blake2b_length. simpl. lia.
  - rewrite Hw. unfold checksum. rewrite blake2b_length. simpl. lia.
  - rewrite Hw. unfold checksum. rewrite blake2b_length. simpl. lia.
  - destruct Hn as [_ Hn]. destruct Hw as (_ & Hl & Hbuf & _). simpl. rewrite b32_length, length_app.
    unfold da_subaddress, checksum. rewrite length_take, blake2b_length, Hbuf. unfold CHECKSUM_HASH_LEN, MAX_SUBADDRESS_LEN in *.
    assert ((8 * (da_length d `min` 54 + 4) + 4) / 5 < 94)%nat by (apply Nat.Div0.div_lt_upper_bound; lia). lia.
Qed.

(** The first two characters, and that the others start a character. *)
Lemma str_get_head x y z s :
  y < 128 → z < 128 →
  str_get (x :: y :: z :: s) 0 1 = Some [x] ∧ str_get (x :: y :: z :: s) 1 2 = Some [y] ∧
  str_get (x :: y :: z :: s) 2 (length (x :: y :: z :: s)) = Some (z :: s).
Proof.
  intros Hy Hz. apply Z.ltb_lt in Hy, Hz. unfold str_get, is_char_boundary. simpl. rewrite Hy, Hz. simpl.
  split_and!; [done..|]. rewrite lookup_ge_None_2 by lia. rewrite Nat.eqb_refl. simpl. by rewrite firstn_all.
Qed.

Lemma str_get_inv s i j t : str_get s i j = Some t → t = take (j - i) (drop i s).
Proof. unfold str_get. destruct (_ && _); [by intros [= <-]|done]. Qed.

Lemma from_prefix_spec s n : from_prefix s = Ok n ↔ s = to_prefix n.
Proof. unfold from_prefix, to_prefix, MAINNET_PREFIX, TESTNET_PREFIX. destruct n; repeat case_decide; subst; split; congruence. Qed.
Lemma parse_protocol_spec s p : parse_protocol s = Ok p ↔ s = [48 + protocol_byte p].
Proof. unfold parse_protocol. destruct p; cbn; repeat case_decide; split; intros; simplify_eq; done. Qed.

Lemma parse_address_spec s a n :
  parse_address s = Ok (a, n) ↔
  addr_wf a ∧ addr_bytes a ∧ ∃ num, text_number a num ∧ s = address_text n a num.
Proof.
  unfold parse_address. split.
  - destruct (Nat.ltb_spec MAX_ADDRRESS_TEXT_LEN (length s)); [done|]. destruct (Nat.ltb_spec (length s) 3); [done|]. simpl.
    destruct (str_get s 0 1) as [s1|] eqn:Hg1; [|done]. apply str_get_inv in Hg1.
    destruct (from_prefix s1) as [m|] eqn:Hm; [|done]. apply from_prefix_spec in Hm.
    destruct (str_get s 1 2) as [s2|] eqn:Hg2; [|done]. apply str_get_inv in Hg2.
    destruct (parse_protocol s2) as [p|] eqn:Hp; [|done]. apply parse_protocol_spec in Hp.
    destruct (str_get s 2 (length s)) as [raw|] eqn:Hg3; [|done]. apply str_get_inv in Hg3.
    destruct (parse_raw p raw) as [b|] eqn:Hr; [|done]. intros [= <- <-].
    apply parse_raw_spec in Hr as (<- & Hw & Hb & num & Hn & Ht). split_and!; try done. exists num. split; [done|].
    rewrite address_text_eq. destruct s as [|x [|y r]]; [simpl in *; lia..|]. rewrite <- Ht, Hg3.
    cbn [length drop]. replace (S (S (length r)) - 2)%nat with (length r) by lia. rewrite firstn_all.
    rewrite Hp in Hg2. rewrite Hm in Hg1. simpl in Hg1, Hg2. unfold MAINNET_PREFIX, TESTNET_PREFIX in *. destruct m; injection Hg1 as <-; injection Hg2 as <-; done.
  - intros (Hw & Hb & num & Hn & ->). rewrite address_text_eq. pose proof (tail_length a num Hw Hn).
    destruct (text_tail a num) as [|z r] eqn:Ht; [simpl in *; lia|].
    pose proof (tail_ascii a num z r Hw Hn Ht) as Hz. set (x := match n with Mainnet => _ | _ => _ end).
    destruct (str_get_head x (48 + protocol_byte (protocol a)) z r) as (Hg1 & Hg2 & Hg3); [destruct a; done|done|].
    set (y := 48 + protocol_byte (protocol a)) in *. rewrite Hg1, Hg2, Hg3.
    assert (Hlen : (MAX_ADDRRESS_TEXT_LEN <? length (x :: y :: z :: r))%nat || (length (x :: y :: z :: r) <? 3)%nat = false).
    { apply orb_false_iff. unfold MAX_ADDRRESS_TEXT_LEN. split; apply Nat.ltb_ge; simpl in *; lia. }
    rewrite Hlen, (proj2 (from_prefix_spec [x] n)) by (subst x; by destruct n).
    rewrite (proj2 (parse_protocol_spec [y] (protocol a)) eq_refl). rewrite (proj2 (parse_raw_spec (protocol a) (z :: r) a)); [done|].
    split_and!; try done. exists num. done.
Qed.

Lemma display_number a : addr_wf a → text_number a (digits (address_number a)).
Proof.
  destruct a as [i| | | |d]; simpl; intros Hw; try done.
  - split; [apply numeral_self|]. by apply digits_length.
  - destruct Hw as [Hw _]. split; [apply numeral_self|]. by apply digits_length.
Qed.

(** C38: the text form of addresses. A text is read as an address exactly when
    it is the printed form of that address but for leading zeros or a plus sign
    in the decimal number, at most 20 characters of it; in particular every
    well-formed address is read back from its printed form, on its own network
    only, and the base32 part and its checksum have one accepted spelling. *)
Theorem address_text_iff s a n :
  (parse_address s = Ok (a, n) ↔
   addr_wf a ∧ addr_bytes a ∧ ∃ num, text_number a num ∧ s = address_text n a num) ∧
  (addr_wf a → addr_bytes a → ∀ m,
   network_parse_address m (display n a) = if decide (n = m) then Ok a else Err UnknownNetwork).
Proof.
  split; [apply parse_address_spec|]. intros Hw Hb m. unfold network_parse_address.
  assert (Hp : parse_address (display n a) = Ok (a, n)).
  { apply parse_address_spec. split_and!; try done. eexists. split; [by apply display_number|done]. }
  by rewrite Hp.
Qed.
End inverse.

(** ** A concrete base32

    Lower-case base32 as a change of base, which satisfies the laws of
    [Base32Spec], and a stand-in for the checksum. *)

Definition symbol (d : Z) : Z := if d <? 26 then 97 + d else 24 + d.
Definition unsymbol (c : Z) : option Z :=
  if (97 <=? c) && (c <=? 122) then Some (c - 97)
  else if (50 <=? c) && (c <=? 55) then Some (c - 24) else None.
Definition symbols (n : nat) : nat := ((8 * n + 4) / 5)%nat.

#[export] Instance base32 : Base32 := {|
  b32_encode b :=
    let n := length b in
    symbol <$> to_base 32 (symbols n) (of_base 256 b * 2 ^ (5 * Z.of_nat (symbols n) - 8 * Z.of_nat n));
  b32_decode s :=
    ds ← mapM unsymbol s;
    let n := (5 * length s / 8)%nat in
    let pad := 2 ^ (5 * Z.of_nat (length s) - 8 * Z.of_nat n) in
    let v := of_base 32 ds in
    if bool_decide (symbols n = length s ∧ v `mod` pad = 0) then Some (to_base 256 n (v / pad)) else None;
|}.

Lemma unsymbol_symbol d : 0 ≤ d < 32 → unsymbol (symbol d) = Some d.
Proof.
  intros Hd. unfold symbol, unsymbol. destruct (Z.ltb_spec d 26).
  - destruct (Z.leb_spec 97 (97 + d)), (Z.leb_spec (97 + d) 122); simpl; try lia. f_equal. lia.
  - destruct (Z.leb_spec 97 (24 + d)), (Z.leb_spec 50 (24 + d)), (Z.leb_spec (24 + d) 55); simpl; try lia. f_equal. lia.
Qed.

Lemma symbol_unsymbol c d : unsymbol c = Some d → 0 ≤ d < 32 ∧ symbol d = c.
Proof.
  unfold symbol, unsymbol. destruct (Z.leb_spec 97 c), (Z.leb_spec c 122), (Z.leb_spec 50 c), (Z.leb_spec c 55); simpl;
    intros [= <-]; try lia; case_tests; lia.
Qed.

Lemma mapM_unsymbol s ds : mapM unsymbol s = Some ds → Forall (λ d, 0 ≤ d < 32) ds ∧ s = symbol <$> ds.
Proof.
  intros H%mapM_Some. induction H as [|c d s ds Hc _ [IH1 IH2]]; [done|].
  apply symbol_unsymbol in Hc as [? <-]. split; [by constructor|]. by rewrite IH2 at 1.
Qed.

Lemma mapM_symbol ds : Forall (λ d, 0 ≤ d < 32) ds → mapM unsymbol (symbol <$> ds) = Some ds.
Proof.
  intros Hd. apply mapM_Some. induction Hd as [|d ds Hd _ IH]; [constructor|]. constructor; [by apply unsymbol_symbol|done].
Qed.

Lemma symbols_bounds n : (8 * n ≤ 5 * symbols n ≤ 8 * n + 4)%nat ∧ (5 * symbols n / 8)%nat = n.
Proof.
  assert (H : (8 * n ≤ 5 * symbols n ≤ 8 * n + 4)%nat).
  { unfold symbols. pose proof (Nat.div_mod_eq (8 * n + 4) 5). pose proof (Nat.mod_upper_bound (8 * n + 4) 5). lia. }
  split; [done|]. symmetry. apply (Nat.div_unique _ _ _ (5 * symbols n - 8 * n)); lia.
Qed.

(** The bits of [n] bytes and the padding fill the symbols exactly. *)
Lemma pad_pow n : 256 ^ Z.of_nat n * 2 ^ (5 * Z.of_nat (symbols n) - 8 * Z.of_nat n) = 32 ^ Z.of_nat (symbols n).
Proof.
  pose proof (symbols_bounds n). change 256 with (2 ^ 8). change 32 with (2 ^ 5).
  rewrite <-!Z.pow_mul_r, <-Z.pow_add_r by lia. f_equal. lia.
Qed.

Lemma base32_spec : Base32Spec.
Proof.
  split.
  - intros b Hb. cbn [b32_decode b32_encode base32]. set (n := length b). set (P := 2 ^ _).
    assert (HP : 0 < P) by (apply Z.pow_pos_nonneg; pose proof (symbols_bounds n); lia).
    rewrite mapM_symbol by (apply to_base_digits; lia). cbn [mbind option_bind].
    rewrite length_fmap, to_base_length. destruct (symbols_bounds n) as [_ ->]. fold P.
    pose proof (of_base_bound 256 ltac:(lia) b Hb) as Hv. fold n in Hv. pose proof (pad_pow n) as Hpp. fold P in Hpp.
    rewrite of_to_base by (try lia; rewrite <- Hpp; nia). rewrite Z.mod_mul, Z.div_mul by lia.
    rewrite bool_decide_true by done. f_equal. by apply to_of_base.
  - intros s b. cbn [b32_decode b32_encode base32]. destruct (mapM unsymbol s) as [ds|] eqn:Hm; cbn [mbind option_bind]; [|done].
    apply mapM_unsymbol in Hm as [Hds ->]. rewrite length_fmap. set (n := (5 * length ds / 8)%nat). set (P := 2 ^ _).
    case_bool_decide as Hc; [|done]. destruct Hc as [Hn Hmod]. intros [= <-].
    assert (HP : 0 < P) by (apply Z.pow_pos_nonneg; pose proof (symbols_bounds n); lia).
    split; [apply to_base_digits; lia|]. rewrite to_base_length, Hn. fold P. f_equal.
    pose proof (of_base_bound 32 ltac:(lia) ds Hds) as Hv. pose proof (pad_pow n) as Hpp. rewrite Hn in Hpp. fold P in Hpp.
    apply Z.div_exact in Hmod; [|lia].
    rewrite of_to_base; [|lia|split; [apply Z.div_pos; lia|apply Z.div_lt_upper_bound; nia]].
    rewrite Z.mul_comm, <- Hmod. symmetry. by apply to_of_base.
  - intros b. cbn [b32_encode base32]. apply Forall_fmap. eapply Forall_impl; [apply to_base_digits; lia|].
    intros d Hd. unfold compose, symbol. cbn beta in *. destruct (Z.ltb_spec d 26); lia.
  - intros b. cbn [b32_encode base32]. by rewrite length_fmap, to_base_length.
Qed.

(** ** Texts *)

#[local] Instance sum_hash : Blake2b := λ n d, to_base 256 n (of_base 256 d).
Lemma sum_hash_spec : Blake2bSpec.
Proof. split; intros; [apply to_base_length|apply to_base_digits; lia]. Qed.
#[local] Existing Instance leb128.

Definition demo_delegated : Address :=
  Delegated (mkDelegated 10 3 ([1; 2; 3] ++ replicate 51 0)).

Lemma address_text_iff_witness :
  network_parse_address Mainnet (display Mainnet demo_delegated) = Ok demo_delegated ∧
  network_parse_address Testnet (display Mainnet demo_delegated) = Err UnknownNetwork.
Proof.
  split.
  - apply (proj2 (@address_text_iff leb128 base32 base32_spec sum_hash sum_hash_spec [] demo_delegated Mainnet)).
    + split; [cbv; split; congruence|]. split; [cbv; lia|]. split; reflexivity.
    + repeat constructor; cbv; congruence.
  - apply (proj2 (@address_text_iff leb128 base32 base32_spec sum_hash sum_hash_spec [] demo_delegated Mainnet)).
    + split; [cbv; split; congruence|]. split; [cbv; lia|]. split; reflexivity.
    + repeat constructor; cbv; congruence.
Defined.

(** f01, f001 and f0+1 are all read as the same address. *)
Example several_spellings :
  parse_address [102; 48; 49] = Ok (ID 1, Mainnet) ∧ parse_address [102; 48; 48; 49] = Ok (ID 1, Mainnet) ∧
  parse_address [102; 48; 43; 49] = Ok (ID 1, Mainnet) ∧ display Mainnet (ID 1) = [102; 48; 49].
Proof. repeat split. Qed.

(** A flipped symbol is caught by the checksum or is no base32 text. *)
Example corrupted_text :
  let s := display Mainnet (ActorAddr (replicate 20 7)) in
  parse_address s = Ok (ActorAddr (replicate 20 7), Mainnet) ∧
  parse_address (<[36%nat := 122]> s) = Err InvalidChecksum ∧
  parse_address (<[5%nat := 48]> s) = Err Base32Decoding ∧
  parse_address (<[1%nat := 53]> s) = Err UnknownProtocol ∧ parse_address (<[0%nat := 97]> s) = Err UnknownNetwork.
Proof. vm_compute. done. Qed.
