(* ===== verification/Values.v ===== *)
(** * Value types of fvm_shared

    Amounts of tokens and their display (econ/mod.rs), the byte form of big
    integers (bigint/), rounding of epochs (clock/quantize.rs) and the smoothed
    estimates of power and reward (smooth/, math.rs). Big integers are [Z];
    text is the list of its bytes; [None] is a panic. *)

From S2P Require Import Prelude Effects Address Decimal.
From stdpp Require Import gmap strings list fin_maps.
From Stdlib Require Import ZArith Lia.
#[local] Open Scope Z_scope.

(** ** TokenAmount (econ/mod.rs) *)

Module Econ.
Record TokenAmount := mkAmount { atto : Z }.
#[export] Instance TokenAmount_eq_dec : EqDecision TokenAmount.
Proof. solve_decision. Defined.

Definition DECIMALS : nat := 18.
Definition PRECISION : Z := 10 ^ 18.

Definition from_atto (a : Z) : TokenAmount := mkAmount a.
Definition from_nano (nano : Z) : TokenAmount := mkAmount (nano * 10 ^ 9).
Definition from_whole (tokens : Z) : TokenAmount := from_atto (tokens * PRECISION).
Definition is_zero (t : TokenAmount) : bool := atto t =? 0.
Definition is_positive (t : TokenAmount) : bool := 0 <? atto t.
Definition is_negative (t : TokenAmount) : bool := atto t <? 0.
Definition neg (t : TokenAmount) : TokenAmount := mkAmount (- atto t).
Definition add (t u : TokenAmount) : TokenAmount := mkAmount (atto t + atto u).
Definition sub (t u : TokenAmount) : TokenAmount := mkAmount (atto t - atto u).
Definition mul (t : TokenAmount) (rhs : Z) : TokenAmount := mkAmount (atto t * rhs).
Definition sum (l : list TokenAmount) : TokenAmount := from_atto (foldl Z.add 0 (atto <$> l)).

(** [div_rem] truncates; division by zero panics. *)
Definition div_rem (t : TokenAmount) (other : Z) : option (TokenAmount * TokenAmount) :=
  if other =? 0 then None
  else Some (mkAmount (Z.quot (atto t) other), mkAmount (Z.rem (atto t) other)).
Definition div_floor (t : TokenAmount) (other : Z) : option TokenAmount :=
  if other =? 0 then None else Some (mkAmount (atto t / other)).
Definition div_ceil (t : TokenAmount) (other : Z) : option TokenAmount :=
  if other =? 0 then None else Some (mkAmount (- (- atto t / other))).

(** [fmt::Formatter]: the options of a format specification. *)
Inductive Alignment := AlignLeft | AlignRight | AlignCenter.
Record Formatter := mkFormatter {
  fmt_precision : option nat; fmt_width : option nat; fmt_zero : bool; fmt_plus : bool;
  fmt_fill : Z; fmt_align : option Alignment }.
Definition fmt_default : Formatter := mkFormatter None None false false 32 None.

(** [Formatter::pad_integral], with an empty prefix. *)
Definition pad_integral (f : Formatter) (nonnegative : bool) (buf : bytes) : bytes :=
  let sign := if nonnegative then (if fmt_plus f then [43] else []) else [45] in
  let width := (length buf + length sign)%nat in
  match fmt_width f with
  | None => sign ++ buf
  | Some min =>
      if (min <=? width)%nat then sign ++ buf
      else if fmt_zero f then sign ++ replicate (min - width) 48 ++ buf
      else
        let padding := (min - width)%nat in
        let left := match fmt_align f with
                    | Some AlignLeft => 0%nat
                    | Some AlignCenter => (padding / 2)%nat
                    | _ => padding end in
        replicate left (fmt_fill f) ++ (sign ++ buf) ++ replicate (padding - left) (fmt_fill f)
  end.

(** [str::trim_end_matches]. *)
Fixpoint drop_while (c : Z) (s : bytes) : bytes :=
  match s with b :: rest => if b =? c then drop_while c rest else s | [] => [] end.
Definition trim_end (c : Z) (s : bytes) : bytes := reverse (drop_while c (reverse s)).

(** [Display for TokenAmount]: the digits after the point, to the precision. *)
Definition after_decimal (r : Z) : bytes :=
  if r =? 0 then [48]
  else
    let fraction_str := digits (Z.abs r) in
    trim_end 48 (replicate (DECIMALS - length fraction_str) 48 ++ fraction_str).
Definition with_precision (precision : option nat) (after : bytes) : bytes :=
  match precision with
  | Some p => if (length after <? p)%nat then after ++ replicate (p - length after) 48 else take p after
  | None => after
  end.
Definition unsigned_text (precision : option nat) (a : Z) : bytes :=
  digits (Z.abs (Z.quot a PRECISION)) ++ 46 :: with_precision precision (after_decimal (Z.rem a PRECISION)).
Definition fmt_amount (f : Formatter) (t : TokenAmount) : bytes :=
  pad_integral f (negb (is_negative t)) (unsigned_text (fmt_precision f) (atto t)).

(** *** Division *)

Lemma div_rem_spec t other q r :
  div_rem t other = Some (q, r) →
  add (mul q other) r = t ∧ Z.abs (atto r) < Z.abs other ∧ 0 ≤ atto r * atto t.
Proof.
  unfold div_rem, add, mul. destruct (Z.eqb_spec other 0); [done|]. intros [= <- <-]. destruct t as [a]; simpl.
  split_and!; [f_equal; pose proof (Z.quot_rem' a other); lia|by apply Z.rem_bound_abs|].
  pose proof (Z.rem_sign_mul a other). lia.
Qed.

Lemma div_ceil_floor t other c f :
  0 < other → div_ceil t other = Some c → div_floor t other = Some f →
  atto f * other ≤ atto t < (atto f + 1) * other ∧ (atto c - 1) * other < atto t ≤ atto c * other.
Proof.
  intros Ho. unfold div_ceil, div_floor. destruct (Z.eqb_spec other 0); [lia|]. intros [= <-] [= <-]. simpl.
  pose proof (Z.mul_div_le (atto t) other Ho). pose proof (Z.mul_succ_div_gt (atto t) other Ho).
  pose proof (Z.mul_div_le (- atto t) other Ho). pose proof (Z.mul_succ_div_gt (- atto t) other Ho). lia.
Qed.

(** *** Display *)

Lemma drop_while_spec c s : ∃ k, s = replicate k c ++ drop_while c s ∧ head (drop_while c s) ≠ Some c.
Proof.
  induction s as [|b s (k & Hs & Hh)]; [by exists 0%nat|]. simpl. destruct (Z.eqb_spec b c) as [->|Hb].
  - exists (S k). simpl. by rewrite <- Hs.
  - exists 0%nat. split; [done|]. simpl. congruence.
Qed.

Lemma trim_end_spec c s : ∃ k, s = trim_end c s ++ replicate k c.
Proof.
  destruct (drop_while_spec c (reverse s)) as (k & Hs & _). exists k. unfold trim_end.
  rewrite <-(reverse_involutive s) at 1. rewrite Hs at 1. by rewrite reverse_app, reverse_replicate.
Qed.

(** The fraction without its trailing zeros. *)
Lemma after_decimal_spec r :
  Z.abs r < PRECISION →
  ∃ k, (length (after_decimal r) + k = DECIMALS)%nat ∧ (1 ≤ length (after_decimal r))%nat ∧
    Forall (λ c, is_digit c = true) (after_decimal r) ∧ dec_value (after_decimal r) * 10 ^ Z.of_nat k = Z.abs r.
Proof.
  intros Hr. unfold after_decimal. destruct (Z.eqb_spec r 0) as [->|Hr0].
  { exists 17%nat. split_and!; [done..|by repeat constructor|done]. }
  set (full := replicate _ _ ++ _). assert (Hlen : length full = DECIMALS).
  { subst full. rewrite length_app, length_replicate.
    pose proof (digits_length_pow (Z.abs r) DECIMALS ltac:(unfold PRECISION in Hr; split; [lia|exact Hr]) ltac:(unfold DECIMALS; lia)). lia. }
  assert (Hval : dec_value full = Z.abs r).
  { subst full. rewrite dec_value_app, dec_value_zeros, digits_value by lia. lia. }
  assert (Hok : Forall (λ c, is_digit c = true) full).
  { subst full. apply Forall_app. split; [by apply Forall_replicate|apply digits_ok; lia]. }
  destruct (trim_end_spec 48 full) as [k Hk]. exists k.
  rewrite Hk, length_app, length_replicate in Hlen. rewrite Hk, Forall_app in Hok. destruct Hok as [Hok _].
  rewrite Hk, dec_value_app, dec_value_zeros, length_replicate in Hval. split_and!; [done| |done|lia].
  destruct (trim_end 48 full); [|simpl; lia]. unfold dec_value in Hval. simpl in Hval. lia.
Qed.

Lemma pow_split k n : 10 ^ Z.of_nat (k + n) = 10 ^ Z.of_nat k * 10 ^ Z.of_nat n.
Proof. rewrite Nat2Z.inj_add. apply Z.pow_add_r; lia. Qed.

(** Cut or filled up to a precision, the fraction is rounded towards zero. *)
Lemma with_precision_spec precision s k R :
  (length s + k = DECIMALS)%nat → Forall (λ c, is_digit c = true) s → dec_value s * 10 ^ Z.of_nat k = R →
  let f := with_precision precision s in
  Forall (λ c, is_digit c = true) f ∧ dec_value f = R * 10 ^ Z.of_nat (length f) / PRECISION ∧
  length f = default (length s) precision.
Proof.
  intros Hlen Hs <-. assert (HP : PRECISION = 10 ^ Z.of_nat (length s) * 10 ^ Z.of_nat k).
  { rewrite <- pow_split, Hlen. done. }
  assert (0 < 10 ^ Z.of_nat (length s)) by (apply Z.pow_pos_nonneg; lia).
  assert (0 < 10 ^ Z.of_nat k) by (apply Z.pow_pos_nonneg; lia).
  assert (Hexact : ∀ q, dec_value s * 10 ^ Z.of_nat k * 10 ^ Z.of_nat q / PRECISION = dec_value s * 10 ^ Z.of_nat q / 10 ^ Z.of_nat (length s)).
  { intros q. rewrite HP. replace (dec_value s * 10 ^ Z.of_nat k * 10 ^ Z.of_nat q)
      with (dec_value s * 10 ^ Z.of_nat q * 10 ^ Z.of_nat k) by lia. apply Z.div_mul_cancel_r; lia. }
  destruct precision as [p|]; simpl; [destruct (Nat.ltb_spec (length s) p)|].
  - rewrite length_app, length_replicate. replace (length s + (p - length s))%nat with p by lia. split_and!; [|rewrite Hexact|done].
    + apply Forall_app. split; [done|]. by apply Forall_replicate.
    + rewrite dec_value_app, dec_value_zeros, length_replicate. replace p with (length s + (p - length s))%nat at 2 by lia.
      rewrite pow_split. rewrite Z.add_0_r. apply Z.div_unique_exact; lia.
  - rewrite length_take, Nat.min_l by lia. split_and!; [by apply Forall_take|rewrite Hexact|done].
    rewrite dec_value_take by done. replace (length s) with ((length s - p) + p)%nat at 2 by lia. rewrite pow_split.
    symmetry. apply Z.div_mul_cancel_r; [|apply Z.pow_nonzero; lia]. apply Z.pow_nonzero; lia.
  - rewrite Hexact. split_and!; [done| |done]. by rewrite Z.div_mul by lia.
Qed.

(** The amount a text without sign denotes: exact, or cut to a precision. *)
Lemma unsigned_text_spec precision a :
  ∃ i f, unsigned_text precision a = i ++ 46 :: f ∧ i ≠ [] ∧
    Forall (λ c, is_digit c = true) i ∧ Forall (λ c, is_digit c = true) f ∧
    dec_value i * 10 ^ Z.of_nat (length f) + dec_value f = Z.abs a * 10 ^ Z.of_nat (length f) / PRECISION ∧
    match precision with
    | Some p => length f = p
    | None => (1 ≤ length f ≤ DECIMALS)%nat ∧
        dec_value i * PRECISION + dec_value f * 10 ^ Z.of_nat (DECIMALS - length f) = Z.abs a
    end.
Proof.
  set (r := Z.rem a PRECISION). assert (Hr : Z.abs r < PRECISION) by (apply (Z.rem_bound_abs a PRECISION); done).
  assert (Ha : Z.abs a = Z.abs (Z.quot a PRECISION) * PRECISION + Z.abs r).
  { subst r. rewrite <-Z.rem_abs_l, <-(Z.quot_abs a PRECISION) by done. change (Z.abs PRECISION) with PRECISION.
    pose proof (Z.quot_rem' (Z.abs a) PRECISION). lia. }
  destruct (after_decimal_spec r Hr) as (k & Hk & H1 & Hd & Hv).
  destruct (with_precision_spec precision _ k _ Hk Hd Hv) as (Hf & Hfv & Hfl).
  exists (digits (Z.abs (Z.quot a PRECISION))), (with_precision precision (after_decimal r)).
  rewrite digits_value by lia. split_and!; [done|apply digits_ne|apply digits_ok; lia|done| |].
  - rewrite Hfv, Ha, Z.mul_add_distr_r.
    replace (Z.abs (Z.quot a PRECISION) * PRECISION * 10 ^ Z.of_nat (length (with_precision precision (after_decimal r))))
      with (Z.abs (Z.quot a PRECISION) * 10 ^ Z.of_nat (length (with_precision precision (after_decimal r))) * PRECISION) by lia.
    by rewrite Z.div_add_l.
  - destruct precision as [p|]; [done|]. simpl in *. replace (DECIMALS - length (after_decimal r))%nat with k by lia. split; lia.
Qed.

(** The sign in front, and nothing else without a width. *)
Lemma fmt_no_width f t :
  fmt_width f = None →
  fmt_amount f t = (if is_negative t then [45] else if fmt_plus f then [43] else []) ++ unsigned_text (fmt_precision f) (atto t).
Proof. intros Hw. unfold fmt_amount, pad_integral. rewrite Hw. by destruct (is_negative t). Qed.

Lemma point_unique i i' f f' :
  Forall (λ c, is_digit c = true) i → Forall (λ c, is_digit c = true) i' → i ++ 46 :: f = i' ++ 46 :: f' → i = i' ∧ f = f'.
Proof.
  revert i'. induction i as [|c i IH]; intros [|c' i'] Hi Hi' H; simplify_eq/=; try done.
  - by apply Forall_cons in Hi' as [? _].
  - by apply Forall_cons in Hi as [? _].
  - apply Forall_cons in Hi as [_ Hi]. apply Forall_cons in Hi' as [_ Hi']. destruct (IH i' Hi Hi' H0) as [-> ->]. done.
Qed.

Lemma unsigned_text_inj a b : unsigned_text None a = unsigned_text None b → Z.abs a = Z.abs b.
Proof.
  destruct (unsigned_text_spec None a) as (i & f & -> & _ & Hi & _ & _ & _ & <-).
  destruct (unsigned_text_spec None b) as (i' & f' & -> & _ & Hi' & _ & _ & _ & <-).
  intros H. by destruct (point_unique i i' f f' Hi Hi' H) as [-> ->].
Qed.

Lemma unsigned_text_head precision a c s : unsigned_text precision a = c :: s → c ≠ 45.
Proof.
  destruct (unsigned_text_spec precision a) as (i & f & -> & Hne & Hi & _). destruct i as [|x i]; [done|].
  apply Forall_cons in Hi as [Hx%is_digit_bounds _]. intros [= <- _]. lia.
Qed.

(** an amount of tokens is shown as what it is. The text is an optional
    minus sign, digits, a point and digits: at least one and at most eighteen
    after the point, which together denote the amount exactly, so different
    amounts have different texts; with a precision there are exactly that many
    digits and the amount is cut towards zero, never rounded up. *)
Theorem amount_display_faithful t u p :
  (∃ i f, fmt_amount fmt_default t = (if is_negative t then [45] else []) ++ i ++ 46 :: f ∧
     Forall (λ c, is_digit c = true) (i ++ f) ∧ (1 ≤ length f ≤ DECIMALS)%nat ∧
     dec_value i * PRECISION + dec_value f * 10 ^ Z.of_nat (DECIMALS - length f) = Z.abs (atto t)) ∧
  (fmt_amount fmt_default t = fmt_amount fmt_default u → t = u) ∧
  ∃ i f, fmt_amount (mkFormatter (Some p) None false false 32 None) t = (if is_negative t then [45] else []) ++ i ++ 46 :: f ∧
    Forall (λ c, is_digit c = true) (i ++ f) ∧ length f = p ∧
    dec_value i * 10 ^ Z.of_nat p + dec_value f = Z.abs (atto t) * 10 ^ Z.of_nat p / PRECISION.
Proof.
  rewrite !fmt_no_width by done. cbn [fmt_precision fmt_plus fmt_default]. split_and!.
  - destruct (unsigned_text_spec None (atto t)) as (i & f & -> & _ & Hi & Hf & _ & Hl & Hv).
    exists i, f. split; [done|]. split; [by apply Forall_app|done].
  - intros H. assert (Hs : is_negative t = is_negative u).
    { destruct (is_negative t), (is_negative u); try done; simpl in H;
        [symmetry in H|]; by apply unsigned_text_head in H. }
    rewrite Hs in H. apply app_inv_head, unsigned_text_inj in H. unfold is_negative in Hs.
    destruct t as [a], u as [b]; simpl in *. f_equal. destruct (Z.ltb_spec a 0), (Z.ltb_spec b 0); try done; lia.
  - destruct (unsigned_text_spec (Some p) (atto t)) as (i & f & -> & _ & Hi & Hf & Hv & <-).
    exists i, f. split_and!; try done. by apply Forall_app.
Qed.

Example amount_texts :
  fmt_amount fmt_default (from_atto 1) = [48; 46] ++ replicate 17 48 ++ [49] ∧
  fmt_amount fmt_default (neg (from_nano 1000)) = [45; 48; 46; 48; 48; 48; 48; 48; 49] ∧
  fmt_amount (mkFormatter (Some 3%nat) (Some 6%nat) true false 32 None) (from_atto 123456789000000000) = [48; 48; 46; 49; 50; 51] ∧
  fmt_amount (mkFormatter (Some 0%nat) None false false 32 None) (from_whole 1) = [49; 46].
Proof. vm_compute. done. Qed.
End Econ.

(** ** Big integers as bytes (bigint/bigint_ser.rs, biguint_ser.rs) *)

Module BigIntSer.
Definition MAX_BIGINT_SIZE : nat := 128.

(** [BigUint::to_bytes_be], and the magnitude of [BigInt::to_bytes_be]: the
    shortest form, one zero byte for zero. *)
Definition to_bytes_be (n : Z) : bytes := to_base 256 (S (Z.to_nat (Z.log2 n / 8))) n.
Definition from_bytes_be (bz : bytes) : Z := of_base 256 bz.

Definition serialize (int : Z) : result string bytes :=
  let bz := if int <? 0 then 1 :: to_bytes_be (- int)
            else if 0 <? int then 0 :: to_bytes_be int
            else [] in
  if (MAX_BIGINT_SIZE <? length bz)%nat then Err "BigInt too large" else Ok bz.

Definition deserialize (bz : bytes) : result string Z :=
  match bz with
  | [] => Ok 0
  | sign_byte :: rest =>
      match (if sign_byte =? 1 then Some (-1) else if sign_byte =? 0 then Some 1 else None) with
      | None => Err "First byte must be valid sign (0, 1)"
      | Some sign =>
          if (MAX_BIGINT_SIZE <? length bz)%nat then Err "BigInt too large"
          else Ok (sign * from_bytes_be rest)
      end
  end.

Definition serialize_uint (int : Z) : result string bytes :=
  let bz := to_bytes_be int in
  let bz := if decide (bz = [0]) then [] else 0 :: bz in
  if (MAX_BIGINT_SIZE <? length bz)%nat then Err "BigInt too large" else Ok bz.

Definition deserialize_uint (bz : bytes) : result string Z :=
  match bz with
  | [] => Ok 0
  | b :: rest =>
      if negb (b =? 0) then Err "First byte must be 0 to decode as BigUint"
      else if (MAX_BIGINT_SIZE <? length bz)%nat then Err "BigInt too large"
      else Ok (from_bytes_be rest)
  end.

(** The bytes of a positive number. *)
Lemma to_bytes_be_value n : 0 < n → from_bytes_be (to_bytes_be n) = n.
Proof.
  intros Hn. apply of_to_base; [lia|]. pose proof (Z.log2_spec n Hn) as [_ Hlog]. pose proof (Z.log2_nonneg n).
  split; [lia|]. rewrite Nat2Z.inj_succ, Z2Nat.id by (apply Z.div_pos; lia). change 256 with (2 ^ 8).
  rewrite <-Z.pow_mul_r by (pose proof (Z.div_pos (Z.log2 n) 8); lia).
  eapply Z.lt_le_trans; [exact Hlog|]. apply Z.pow_le_mono_r; [lia|].
  pose proof (Z.mul_succ_div_gt (Z.log2 n) 8). lia.
Qed.

(** A number needs [k] bytes or fewer exactly when it is below [256 ^ k]. *)
Lemma to_bytes_be_length n k :
  0 < n → (1 ≤ k)%nat → (length (to_bytes_be n) ≤ k)%nat ↔ n < 256 ^ Z.of_nat k.
Proof.
  intros Hn Hk. unfold to_bytes_be. rewrite to_base_length. pose proof (Z.log2_nonneg n).
  pose proof (Z.log2_spec n Hn) as [Hlo Hhi]. change 256 with (2 ^ 8). rewrite <-Z.pow_mul_r by lia.
  pose proof (Z.div_pos (Z.log2 n) 8 ltac:(lia) ltac:(lia)).
  pose proof (Z.mul_div_le (Z.log2 n) 8). pose proof (Z.mul_succ_div_gt (Z.log2 n) 8). split; intros H'.
  - eapply Z.lt_le_trans; [exact Hhi|]. apply Z.pow_le_mono_r; lia.
  - assert (Z.log2 n < 8 * Z.of_nat k) by (apply (Z.pow_lt_mono_r_iff 2); lia). lia.
Qed.

Lemma to_bytes_be_zero : to_bytes_be 0 = [0].
Proof. done. Qed.
Lemma to_bytes_be_nonzero n : 0 < n → to_bytes_be n ≠ [0].
Proof. intros Hn H. pose proof (to_bytes_be_value n Hn) as Hv. rewrite H in Hv. unfold from_bytes_be, of_base in Hv. simpl in Hv. lia. Qed.

(** Both serialisers on a number that is not negative. *)
Lemma serialize_uint_eq n : 0 ≤ n → serialize_uint n = serialize n.
Proof.
  intros Hn. unfold serialize_uint, serialize. destruct (Z.ltb_spec n 0); [lia|]. destruct (Z.ltb_spec 0 n).
  - by rewrite decide_False by (by apply to_bytes_be_nonzero).
  - by replace n with 0 by lia.
Qed.

Lemma serialize_spec n :
  (Z.abs n < 256 ^ 127 → ∃ bz, serialize n = Ok bz ∧ deserialize bz = Ok n) ∧
  (256 ^ 127 ≤ Z.abs n → serialize n = Err "BigInt too large"%string).
Proof.
  assert (Hpos : ∀ m b, 0 < m → (MAX_BIGINT_SIZE <? length (b :: to_bytes_be m))%nat = (256 ^ 127 <=? m)).
  { intros m b Hm. pose proof (to_bytes_be_length m 127 Hm ltac:(lia)) as Hl. change (Z.of_nat 127) with 127 in Hl.
    unfold MAX_BIGINT_SIZE. cbn [length]. destruct (Nat.ltb_spec 128 (S (length (to_bytes_be m)))), (Z.leb_spec (256 ^ 127) m); lia. }
  unfold serialize. destruct (Z.ltb_spec n 0) as [H1|H1]; [|destruct (Z.ltb_spec 0 n) as [H2|H2]].
  - rewrite Hpos by lia. split; intros Ha; destruct (Z.leb_spec (256 ^ 127) (- n)) as [|Hlt]; try lia; [|done].
    eexists. split; [done|]. unfold deserialize. rewrite Hpos by lia. destruct (Z.leb_spec (256 ^ 127) (- n)); [lia|].
    simpl (if 1 =? 1 then _ else _). cbv iota. rewrite to_bytes_be_value by lia. f_equal. lia.
  - rewrite Hpos by lia. split; intros Ha; destruct (Z.leb_spec (256 ^ 127) n) as [|Hlt]; try lia; [|done].
    eexists. split; [done|]. unfold deserialize. rewrite Hpos by lia. destruct (Z.leb_spec (256 ^ 127) n); [lia|].
    simpl (if 0 =? 1 then _ else _). cbv iota. rewrite to_bytes_be_value by lia. f_equal. lia.
  - replace n with 0 by lia. split; [intros _; by exists []|]. change (Z.abs 0) with 0. intros Hbad.
    exfalso. assert (0 < 256 ^ 127) by (apply Z.pow_pos_nonneg; lia). lia.
Qed.

(** big integers survive their byte form. Numbers of up to 127 bytes are
    written and read back, larger ones are refused on both sides, and the
    unsigned variant agrees with the signed one on numbers that are not
    negative; whatever is read fits 127 bytes. *)
Theorem bigint_bytes_roundtrip n :
  (Z.abs n < 256 ^ 127 → ∃ bz, serialize n = Ok bz ∧ deserialize bz = Ok n ∧
     (0 ≤ n → serialize_uint n = Ok bz ∧ deserialize_uint bz = Ok n)) ∧
  (256 ^ 127 ≤ Z.abs n → serialize n = Err "BigInt too large"%string) ∧
  ∀ bz, Forall is_byte bz → deserialize bz = Ok n → Z.abs n < 256 ^ 127.
Proof.
  destruct (serialize_spec n) as [H1 H2]. split_and!; [|done|].
  - intros Ha. destruct (H1 Ha) as (bz & Hs & Hd). exists bz. split_and!; [done..|]. intros Hn. split; [by rewrite serialize_uint_eq|].
    destruct bz as [|b rest]; [done|]. unfold deserialize_uint. unfold deserialize in Hd.
    unfold serialize in Hs. destruct (Z.ltb_spec n 0); [lia|].
    destruct (Z.ltb_spec 0 n); destruct (_ <? _)%nat eqn:Hl in Hs; try done. injection Hs as <- <-.
    rewrite Hl in *. simpl in *. injection Hd as Hd. f_equal. lia.
  - intros bz Hb. unfold deserialize. destruct bz as [|b rest]; [intros [= <-]; apply Z.pow_pos_nonneg; lia|].
    destruct (if b =? 1 then _ else _) as [sign|] eqn:Hsign; [|done].
    destruct (Nat.ltb_spec MAX_BIGINT_SIZE (length (b :: rest))) as [|Hl]; [done|]. intros [= <-].
    apply Forall_cons in Hb as [_ Hb]. pose proof (of_base_bound 256 ltac:(lia) rest Hb) as Hbd.
    assert (Z.abs sign = 1) by (destruct (b =? 1), (b =? 0); simplify_eq; done). rewrite Z.abs_mul. unfold from_bytes_be.
    eapply Z.le_lt_trans; [|eapply Z.lt_le_trans; [apply (proj2 Hbd)|apply (Z.pow_le_mono_r 256 (Z.of_nat (length rest)) 127);
      [lia|unfold MAX_BIGINT_SIZE in Hl; simpl in Hl; lia]]]. lia.
Qed.

Lemma bigint_bytes_roundtrip_witness :
  ∃ bz, serialize (-258) = Ok bz ∧ deserialize bz = Ok (-258).
Proof.
  destruct (proj1 (bigint_bytes_roundtrip (-258))) as (bz & H1 & H2 & _); [reflexivity|]. by exists bz.
Defined.

(** Leading zeros and a zero with a sign are accepted, so a number has several
    byte forms. *)
Example several_forms :
  deserialize [0; 0; 7] = Ok 7 ∧ deserialize [0; 7] = Ok 7 ∧ deserialize [1] = Ok 0 ∧ serialize 0 = Ok [].
Proof. done. Qed.
End BigIntSer.

(** ** Rounding epochs (clock/quantize.rs) *)

Module Quantize.
(** [i64] arithmetic of a release build; a division panics on a zero divisor
    and on the one overflow it has. *)
Definition wrap_i64 (x : Z) : Z := (x - i64_min) `mod` 2 ^ 64 + i64_min.
Definition i64_rem (a b : Z) : option Z := if (b =? 0) || ((a =? i64_min) && (b =? -1)) then None else Some (Z.rem a b).
Definition i64_div (a b : Z) : option Z := if (b =? 0) || ((a =? i64_min) && (b =? -1)) then None else Some (Z.quot a b).

Record QuantSpec := mkQuantSpec { unit : Z; offset : Z }.
Definition NO_QUANTIZATION : QuantSpec := mkQuantSpec 1 0.

Definition quantize_up (q : QuantSpec) (epoch : Z) : option Z :=
  offset ← i64_rem (offset q) (unit q);
  let shifted := wrap_i64 (epoch - offset) in
  remainder ← i64_rem shifted (unit q);
  quotient ← i64_div shifted (unit q);
  if (remainder =? 0) || (shifted <? 0)
  then Some (wrap_i64 (wrap_i64 (unit q * quotient) + offset))
  else Some (wrap_i64 (wrap_i64 (unit q * wrap_i64 (quotient + 1)) + offset)).

Definition quantize_down (q : QuantSpec) (epoch : Z) : option Z :=
  next ← quantize_up q epoch;
  if epoch =? next then Some next else Some (wrap_i64 (next - unit q)).

#[local] Arguments wrap_i64 : simpl never.

Lemma wrap_i64_small x : in_i64 x → wrap_i64 x = x.
Proof. intros H. unfold wrap_i64. rewrite Z.mod_small; [lia|]. mlia. Qed.

Lemma i64_ops_ok a b : 0 < b → i64_rem a b = Some (Z.rem a b) ∧ i64_div a b = Some (Z.quot a b).
Proof.
  intros Hb. unfold i64_rem, i64_div. destruct (Z.eqb_spec b 0), (Z.eqb_spec b (-1)); [lia..|]. by rewrite andb_false_r.
Qed.

(** Enough room around the epoch for one unit in both directions. *)
Definition roomy (q : QuantSpec) (epoch : Z) : Prop :=
  0 < unit q ∧ in_i64 (offset q) ∧ i64_min + 2 * unit q ≤ epoch ≤ i64_max - 2 * unit q.

(** An epoch on the grid. *)
Definition on_grid (q : QuantSpec) (e : Z) : Prop := (unit q | e - offset q).

Lemma quantize_up_spec q epoch :
  roomy q epoch → ∃ e, quantize_up q epoch = Some e ∧ on_grid q e ∧ epoch ≤ e < epoch + unit q.
Proof.
  intros (Hu & Ho & He). unfold quantize_up. rewrite (proj1 (i64_ops_ok (offset q) (unit q) Hu)). cbn [mbind option_bind].
  set (o := Z.rem (offset q) (unit q)). assert (Hob : Z.abs o < unit q) by (subst o; pose proof (Z.rem_bound_abs (offset q) (unit q)); lia).
  assert (Hgrid : ∀ k, on_grid q (unit q * k + o)).
  { intros k. exists (k - Z.quot (offset q) (unit q)). subst o. pose proof (Z.quot_rem' (offset q) (unit q)). lia. }
  rewrite (wrap_i64_small (epoch - o)) by mlia. remember (epoch - o) as s eqn:Hse.
  destruct (i64_ops_ok s (unit q) Hu) as [-> ->]. cbn [mbind option_bind].
  pose proof (Z.quot_rem' s (unit q)) as Hqr. pose proof (Z.rem_bound_abs s (unit q) ltac:(lia)) as Hrb.
  set (qt := Z.quot s (unit q)) in *. set (r := Z.rem s (unit q)) in *.
  assert (Hsign : 0 ≤ r * s) by (pose proof (Z.rem_sign_mul s (unit q)); subst r; lia).
  destruct (Z.eqb_spec r 0) as [Hr|Hr]; [|destruct (Z.ltb_spec s 0) as [Hs|Hs]]; simpl.
  - rewrite (wrap_i64_small (unit q * qt)), wrap_i64_small by mlia. eexists. split; [done|]. split; [apply Hgrid|]. lia.
  - assert (r < 0) by nia. rewrite (wrap_i64_small (unit q * qt)), wrap_i64_small by mlia. eexists. split; [done|]. split; [apply Hgrid|]. lia.
  - assert (0 < r) by (pose proof (Z.rem_nonneg s (unit q)); subst r; lia). assert (Hq1 : in_i64 (qt + 1)) by (assert (0 ≤ qt ≤ s) by nia; mlia).
    rewrite (wrap_i64_small (qt + 1)) by done.
    rewrite (wrap_i64_small (unit q * (qt + 1))), wrap_i64_small by mlia. eexists. split; [done|]. split; [apply Hgrid|]. lia.
Qed.

(** epochs are rounded to the grid of the specification. Rounding up gives
    the first epoch of the grid that is not before the given one, rounding down
    the last that is not after it, for negative epochs and offsets too, unless
    the result is out of range. *)
Theorem quantize_nearest q epoch :
  roomy q epoch →
  (∃ e, quantize_up q epoch = Some e ∧ on_grid q e ∧ epoch ≤ e ∧ ∀ e', on_grid q e' → epoch ≤ e' → e ≤ e') ∧
  (∃ e, quantize_down q epoch = Some e ∧ on_grid q e ∧ e ≤ epoch ∧ ∀ e', on_grid q e' → e' ≤ epoch → e' ≤ e).
Proof.
  intros Hr. destruct (quantize_up_spec q epoch Hr) as (e & He & Hg & Hb). destruct Hr as (Hu & Ho & Hrange).
  assert (Hgap : ∀ x y, on_grid q x → on_grid q y → x < y → x + unit q ≤ y).
  { intros x y [a Ha] [b Hb'] Hlt. assert (a < b) by (apply (Z.mul_lt_mono_pos_r (unit q)); lia).
    pose proof (Z.mul_le_mono_nonneg_r (a + 1) b (unit q)). lia. }
  split.
  - exists e. split_and!; [done..|lia|]. intros e' Hg' He'. destruct (Z.le_gt_cases e e'); [done|].
    pose proof (Hgap e' e Hg' Hg ltac:(lia)). lia.
  - unfold quantize_down. rewrite He. simpl. destruct (Z.eqb_spec epoch e) as [<-|Hne].
    + exists epoch. split_and!; [done..|lia|done].
    + rewrite wrap_i64_small by mlia. exists (e - unit q). split_and!; [done| |lia|].
      * destruct Hg as [k Hk]. exists (k - 1). lia.
      * intros e' Hg' He'. pose proof (Hgap e' e Hg' Hg ltac:(lia)). lia.
Qed.

Lemma quantize_nearest_witness :
  ∃ e, quantize_up (mkQuantSpec 10 3) 14 = Some e ∧ 14 ≤ e.
Proof.
  destruct (proj1 (quantize_nearest (mkQuantSpec 10 3) 14 ltac:(cbv; repeat split; congruence))) as (e & H & _ & H' & _).
  by exists e.
Defined.

(** The documented precondition [unit >= 0] is not enough. *)
Example zero_unit_panics : quantize_up (mkQuantSpec 0 0) 5 = None.
Proof. done. Qed.
End Quantize.

(** ** Smoothed estimates (smooth/, math.rs) *)

Module Smooth.
Definition PRECISION : Z := 128.

(** [poly_val]: Horner's rule in Q.128. *)
Definition poly_val (poly : list Z) (x : Z) : Z :=
  foldl (λ res coeff, Z.shiftr (res * x) PRECISION + coeff) 0 poly.

Record FilterEstimate := mkEstimate { position : Z; velocity : Z }.
Definition estimate_new (p v : Z) : FilterEstimate := mkEstimate (Z.shiftl p PRECISION) (Z.shiftl v PRECISION).
Definition estimate (e : FilterEstimate) : Z := Z.shiftr (position e) PRECISION.
Definition extrapolate (e : FilterEstimate) (delta : Z) : Z :=
  let delta_t := Z.shiftl delta PRECISION in
  let position := Z.shiftl (position e) PRECISION in
  velocity e * delta_t + position.

(** [AlphaBetaFilter::next_estimate]; a delta of zero panics. *)
Definition next_estimate (prev : FilterEstimate) (alpha beta obs epoch_delta : Z) : option FilterEstimate :=
  let delta_t := Z.shiftl epoch_delta PRECISION in
  let delta_x := Z.shiftr (delta_t * velocity prev) PRECISION in
  let p := delta_x + position prev in
  let obs := Z.shiftl obs PRECISION in
  let residual := obs - p in
  let revision_x := Z.shiftr (alpha * residual) PRECISION in
  let p := p + revision_x in
  let revision_v := residual * beta in
  if delta_t =? 0 then None
  else Some (mkEstimate p (revision_v / delta_t + velocity prev)).

Definition NUM : list Z :=
  [261417938209272870992496419296200268025; 7266615505142943436908456158054846846897;
   32458783941900493142649393804518050491988; 17078670566130897220338060387082146864806;
   -35150353308172866634071793531642638290419; -20351202052858059355702509232125230498980;
   -1563932590352680681114104005183375350999].
Definition DENOM : list Z :=
  [49928077726659937662124949977867279384; 2508163877009111928787629628566491583994;
   21757751789594546643737445330202599887121; 53400635271583923415775576342898617051826;
   41248834748603606604000911015235164348839; 9015227820322455780436733526367238305537;
   340282366920938463463374607431768211456].
Definition DEFAULT_ALPHA : Z := 314760000000000000000000000000000000.
Definition DEFAULT_BETA : Z := 96640100000000000000000000000000.
Definition LN_2 : Z := 235865763225513294137944142764154484399.
Definition EPSILON : Z := 302231454903657293676544.

(** [BigInt::bits]. *)
Definition get_bit_len (z : Z) : Z := if z =? 0 then 0 else Z.log2 (Z.abs z) + 1.

(** The divisor of the logarithm is zero for no argument between one and two. *)
Definition ln_between_one_and_two (x : Z) : option Z :=
  let num := Z.shiftl (poly_val NUM x) PRECISION in
  let denom := poly_val DENOM x in
  if denom =? 0 then None else Some (num / denom).
Definition ln (z : Z) : option Z :=
  let k := get_bit_len z - 1 - PRECISION in
  let x := if 0 <? k then Z.shiftr z k else Z.shiftl z (Z.abs k) in
  l ← ln_between_one_and_two x; Some (k * LN_2 + l).

Definition extrapolated_cum_sum_of_ratio (delta relative_start : Z) (est_num est_denom : FilterEstimate) : option Z :=
  let delta_t := Z.shiftl delta PRECISION in
  let t0 := Z.shiftl relative_start PRECISION in
  let pos_1 := position est_num in
  let pos_2 := position est_denom in
  let velo_1 := velocity est_num in
  let velo_2 := velocity est_denom in
  let squared_velo_2 := Z.shiftr (velo_2 * velo_2) PRECISION in
  if EPSILON <? squared_velo_2 then
    let x2a := Z.shiftr (velo_2 * t0) PRECISION + pos_2 in
    let x2b := Z.shiftr (velo_2 * delta_t) PRECISION + x2a in
    x2a ← ln x2a;
    x2b ← ln x2b;
    let m1 := Z.shiftr ((x2b - x2a) * pos_1 * velo_2) PRECISION in
    let m2_l := (x2a - x2b) * pos_2 in
    let m2_r := velo_2 * delta_t in
    let m2 := Z.shiftr ((m2_l + m2_r) * velo_1) PRECISION in
    Some ((m2 + m1) / squared_velo_2)
  else
    let half_delta := Z.shiftr delta_t 1 in
    let x1m := velo_1 * (t0 + half_delta) in
    let x1m := Z.shiftr x1m PRECISION + pos_1 in
    if pos_2 =? 0 then None else Some ((x1m * delta_t) / pos_2).

(** The value of the code's own test. *)
Example rounding_issue :
  next_estimate
    (mkEstimate 12340768897043811082913117521041414330876498465539749838848
       (-37396269384748225153347462373739139597454335279104))
    DEFAULT_ALPHA DEFAULT_BETA 36266252337034982540 3 =
  Some (mkEstimate 12340768782449774548722755900999027209659079673176744001536
          (-37396515542149801792802995707072472930787668612438)).
Proof. vm_compute. reflexivity. Qed.

Lemma estimate_of_new p v : estimate (estimate_new p v) = p.
Proof. unfold estimate, estimate_new, PRECISION. simpl position. rewrite Z.shiftr_shiftl_r by lia. apply Z.shiftr_0_r. Qed.

(** An observation that the filter predicted changes neither course nor speed. *)
Lemma next_estimate_predicted prev alpha beta obs d :
  d ≠ 0 → Z.shiftl obs PRECISION = d * velocity prev + position prev →
  next_estimate prev alpha beta obs d = Some (mkEstimate (d * velocity prev + position prev) (velocity prev)).
Proof.
  intros Hd Hobs. unfold next_estimate. rewrite Hobs.
  assert (Hx : Z.shiftr (Z.shiftl d PRECISION * velocity prev) PRECISION = d * velocity prev).
  { unfold PRECISION. rewrite Z.shiftl_mul_pow2, Z.shiftr_div_pow2 by lia.
    replace (d * 2 ^ 128 * velocity prev) with (d * velocity prev * 2 ^ 128) by lia. apply Z.div_mul. lia. }
  rewrite Hx, Z.sub_diag, Z.mul_0_r, Z.shiftr_0_l.
  destruct (Z.eqb_spec (Z.shiftl d PRECISION) 0) as [Hz|Hz]; [|by rewrite Z.add_0_r, Z.mul_0_l, Z.div_0_l].
  unfold PRECISION in Hz. rewrite Z.shiftl_mul_pow2 in Hz by lia. lia.
Qed.

Lemma poly_val_pos poly c x :
  0 ≤ x → Forall (λ a, 0 ≤ a) poly → 0 < c → 0 < poly_val (poly ++ [c]) x.
Proof.
  intros Hx Hp Hc. unfold poly_val. rewrite foldl_app. simpl.
  assert (Hn : ∀ l a, Forall (λ a, 0 ≤ a) l → 0 ≤ a → 0 ≤ foldl (λ res coeff, Z.shiftr (res * x) PRECISION + coeff) a l).
  { induction l as [|b l IH]; intros a Hl Ha; simpl; [done|]. apply Forall_cons in Hl as [Hb Hl]. apply IH; [done|].
    assert (0 ≤ Z.shiftr (a * x) PRECISION) by (apply Z.shiftr_nonneg; nia). lia. }
  specialize (Hn poly 0 Hp ltac:(lia)).
  assert (0 ≤ Z.shiftr (foldl (λ res coeff, Z.shiftr (res * x) PRECISION + coeff) 0 poly * x) PRECISION)
    by (apply Z.shiftr_nonneg; nia). lia.
Qed.

(** The mantissa of a number does not change when the number is doubled. *)
Lemma mantissa_double z k : 0 < z →
  (if 0 <? k + 1 then Z.shiftr (2 * z) (k + 1) else Z.shiftl (2 * z) (Z.abs (k + 1))) =
  (if 0 <? k then Z.shiftr z k else Z.shiftl z (Z.abs k)).
Proof.
  intros Hz. destruct (Z.ltb_spec 0 (k + 1)), (Z.ltb_spec 0 k); try lia.
  - rewrite Z.add_comm, <-Z.shiftr_shiftr by lia. f_equal. rewrite Z.shiftr_div_pow2 by lia.
    rewrite Z.mul_comm. by apply Z.div_mul.
  - assert (k = 0) as -> by lia. rewrite Z.shiftr_div_pow2 by lia. simpl (Z.abs 0). rewrite Z.shiftl_0_r, Z.mul_comm. by apply Z.div_mul.
  - rewrite !Z.shiftl_mul_pow2 by lia. replace (Z.abs k) with (Z.abs (k + 1) + 1) by lia. rewrite Z.pow_add_r by lia. lia.
Qed.

(** The fixed-point logarithm is defined on every positive number, and doubling
    the argument adds exactly [LN_2]. *)
Theorem ln_double z : 0 < z → ∃ l, ln z = Some l ∧ ln (2 * z) = Some (l + LN_2).
Proof.
  intros Hz. unfold ln. assert (Hb : get_bit_len (2 * z) = get_bit_len z + 1).
  { unfold get_bit_len. destruct (Z.eqb_spec (2 * z) 0), (Z.eqb_spec z 0); try lia.
    rewrite !Z.abs_eq by lia. rewrite Z.log2_double by lia. lia. }
  rewrite Hb. replace (get_bit_len z + 1 - 1 - PRECISION) with (get_bit_len z - 1 - PRECISION + 1) by lia.
  set (k := get_bit_len z - 1 - PRECISION). rewrite mantissa_double by done. set (x := if 0 <? k then _ else _).
  assert (Hx : 0 ≤ x) by (subst x; destruct (0 <? k); [apply Z.shiftr_nonneg|apply Z.shiftl_nonneg]; lia).
  unfold ln_between_one_and_two. assert (Hden : 0 < poly_val DENOM x).
  { change DENOM with (take 6 DENOM ++ [340282366920938463463374607431768211456]). apply poly_val_pos; [done| |lia].
    repeat constructor; lia. }
  destruct (Z.eqb_spec (poly_val DENOM x) 0); [lia|]. simpl. eexists. split; [done|]. f_equal. lia.
Qed.
End Smooth.
