(* ===== verification/Signature.v ===== *)
(** * Signatures (shared/src/crypto/signature.rs)

    The wire form of signatures and the checks around the two signature
    libraries, which are the interface [SigLibs]: what is compared with what
    before a signature is accepted for an address. *)

From S2P Require Import Prelude Effects PriceList Address Decimal AddressText.
From stdpp Require Import gmap strings list fin_maps.
From Stdlib Require Import ZArith Lia.
#[local] Open Scope Z_scope.

Definition BLS_SIG_LEN : nat := 96.
Definition SECP_SIG_LEN : nat := 65.
Definition SECP_SIG_MESSAGE_HASH_SIZE : nat := 32.

Record Signature := mkSignature { sig_type : SignatureType; sig_bytes : bytes }.

Definition new_secp256k1_sig (bz : bytes) : Signature := mkSignature Secp256k1 bz.
Definition new_bls_sig (bz : bytes) : Signature := mkSignature BLS bz.

(** [SignatureType as u8] and [from_u8]. *)
Definition sig_type_byte (t : SignatureType) : Z := match t with Secp256k1 => 1 | BLS => 2 end.
Definition sig_type_from_byte (b : Z) : option SignatureType :=
  if b =? 1 then Some Secp256k1 else if b =? 2 then Some BLS else None.

(** [Serialize] and [Deserialize], inside the byte string of the codec. *)
Definition sig_serialize (s : Signature) : bytes := sig_type_byte (sig_type s) :: sig_bytes s.
Definition sig_deserialize (bz : bytes) : result string Signature :=
  match bz with
  | [] => Err "Cannot deserialize empty bytes"
  | b :: rest =>
      match sig_type_from_byte b with
      | None => Err "Invalid signature type byte (must be 1 or 2)"
      | Some t => Ok (mkSignature t rest)
      end
  end.

(** [bls_signatures] and [libsecp256k1]: points from bytes, verification, and
    recovery of the (uncompressed) public key. *)
Inductive SecpError := InvalidRecoveryId | OtherSecpError (msg : string).
Class SigLibs := {
  bls_pub_key : Type;
  bls_signature : Type;
  bls_pub_key_from : bytes → result string bls_pub_key;
  bls_signature_from : bytes → result string bls_signature;
  verify_messages : bls_signature → list bytes → list bls_pub_key → bool;
  secp_recovery_id : Z → result SecpError Z;
  secp_parse_standard : bytes → result SecpError bytes;
  secp_recover : bytes → bytes → Z → result SecpError bytes;
}.

(** [Error], and the conversions into it. *)
Inductive SigError := SigningError | InvalidRecovery | InvalidPubKey (e : AddressError).
Definition sig_error (e : SecpError) : SigError :=
  match e with InvalidRecoveryId => InvalidRecovery | OtherSecpError _ => SigningError end.
Definition sig_error_text (e : SigError) : string :=
  match e with
  | SigningError => "Failed to sign data {0}"
  | InvalidRecovery => "Could not recover public key from signature: {0}"
  | InvalidPubKey _ => "Invalid generated pub key to create address: {0}"
  end.

Section ops.
Context `{Varint, Blake2b, SL : SigLibs}.

Definition verify_bls_sig (signature data : bytes) (addr : Address) : result string unit :=
  if negb (bool_decide (protocol addr = PBLS)) then Err "cannot validate a BLS signature against a {} address"
  else
    match bls_pub_key_from (to_raw_bytes addr) with
    | Err e => Err e
    | Ok pk =>
        match bls_signature_from signature with
        | Err e => Err e
        | Ok sig =>
            if verify_messages sig [data] [pk] then Ok tt
            else Err "bls signature verification failed for addr: {}"
        end
    end.

Fixpoint pub_keys_from (keys : list bytes) : option (list bls_pub_key) :=
  match keys with
  | [] => Some []
  | k :: keys =>
      match bls_pub_key_from k with
      | Err _ => None
      | Ok pk => pks ← pub_keys_from keys; Some (pk :: pks)
      end
  end.

Definition verify_bls_aggregate (aggregate_sig : bytes) (pub_keys plaintexts : list bytes) : result string bool :=
  if negb (length pub_keys =? length plaintexts)%nat
  then Err "unequal numbers of public keys ({num_pub_keys}) and plaintexts ({num_plaintexts})"
  else if (length pub_keys =? 0)%nat then Ok true
  else
    match bls_signature_from aggregate_sig with
    | Err _ => Err "bls aggregate signature bytes are invalid G2 curve point"
    | Ok sig =>
        match pub_keys_from pub_keys with
        | None => Err "bls public key bytes are invalid G2 curve point"
        | Some pks => Ok (verify_messages sig plaintexts pks)
        end
    end.

Definition recover_secp_public_key (hash signature : bytes) : result SigError bytes :=
  match secp_recovery_id (nth 64 signature 0) with
  | Err e => Err (sig_error e)
  | Ok rec_id =>
      match secp_parse_standard (take 64 signature) with
      | Err e => Err (sig_error e)
      | Ok sig => match secp_recover hash sig rec_id with Ok key => Ok key | Err e => Err (sig_error e) end
      end
  end.

Definition ecrecover (hash signature : bytes) : result SigError Address :=
  match recover_secp_public_key hash signature with
  | Err e => Err e
  | Ok key => match new_secp256k1 key with Ok a => Ok a | Err e => Err (InvalidPubKey e) end
  end.

Definition verify_secp256k1_sig (signature data : bytes) (addr : Address) : result string unit :=
  if negb (bool_decide (protocol addr = PSecp256k1)) then Err "cannot validate a secp256k1 signature against a {} address"
  else if negb (length signature =? SECP_SIG_LEN)%nat then Err "Invalid Secp256k1 signature length. Was {}, must be 65"
  else
    let hash := blake2b 32 data in
    match ecrecover hash signature with
    | Err e => Err (sig_error_text e)
    | Ok rec_addr => if decide (rec_addr = addr) then Ok tt else Err "Secp signature verification failed"
    end.

Definition verify (t : SignatureType) (sig_data data : bytes) (addr : Address) : result string unit :=
  match t with
  | BLS => verify_bls_sig sig_data data addr
  | Secp256k1 => verify_secp256k1_sig sig_data data addr
  end.

(** ** What is accepted *)

Lemma sig_roundtrip bz s : sig_deserialize bz = Ok s ↔ bz = sig_serialize s.
Proof.
  destruct s as [t b]. unfold sig_deserialize, sig_serialize, sig_type_from_byte. split.
  - destruct bz as [|x rest]; [done|]. destruct (Z.eqb_spec x 1), (Z.eqb_spec x 2); intros; simplify_eq; done.
  - intros ->. by destruct t.
Qed.

Lemma verify_bls_spec sig data addr :
  verify_bls_sig sig data addr = Ok tt ↔
  ∃ k pk s, addr = BLSAddr k ∧ bls_pub_key_from k = Ok pk ∧ bls_signature_from sig = Ok s ∧ verify_messages s [data] [pk] = true.
Proof.
  unfold verify_bls_sig. split.
  - case_bool_decide as Hp; [|done]. destruct addr as [| | |k|]; try done. simpl.
    destruct (bls_pub_key_from k) as [pk|] eqn:Hk; [|done]. destruct (bls_signature_from sig) as [s|] eqn:Hs; [|done].
    destruct (verify_messages s [data] [pk]) eqn:Hv; [|done]. intros _. by exists k, pk, s.
  - intros (k & pk & s & -> & Hk & Hs & Hv). simpl. by rewrite Hk, Hs, Hv.
Qed.

Lemma verify_secp_spec sig data addr :
  verify_secp256k1_sig sig data addr = Ok tt ↔
  length sig = SECP_SIG_LEN ∧ ∃ key, recover_secp_public_key (blake2b 32 data) sig = Ok key ∧
    length key = SECP_PUB_LEN ∧ addr = Secp256k1Addr (blake2b PAYLOAD_HASH_LEN key).
Proof.
  unfold verify_secp256k1_sig, ecrecover, new_secp256k1. split.
  - case_bool_decide as Hp; [|done]. simpl. destruct (Nat.eqb_spec (length sig) SECP_SIG_LEN) as [Hl|]; [|done]. simpl.
    destruct (recover_secp_public_key _ sig) as [key|]; [|done].
    destruct (Nat.eqb_spec (length key) SECP_PUB_LEN); [|done]. simpl. case_decide as Ha; [|done]. intros _.
    split; [done|]. exists key. done.
  - intros (Hl & key & Hr & Hk & ->). simpl. rewrite Hl, Nat.eqb_refl, Hr, Hk, Nat.eqb_refl. simpl. by rewrite decide_True.
Qed.

Lemma pub_keys_from_spec keys pks : pub_keys_from keys = Some pks ↔ Forall2 (λ k pk, bls_pub_key_from k = Ok pk) keys pks.
Proof.
  revert pks. induction keys as [|k keys IH]; intros pks; simpl.
  - split; [by intros [= <-]|]. by intros ->%Forall2_nil_inv_l.
  - split.
    + destruct (bls_pub_key_from k) as [pk|] eqn:Hk; [|done].
      destruct (pub_keys_from keys) as [l|]; [|done]. intros [= <-]. constructor; [done|]. by apply IH.
    + intros H2. inversion H2 as [|? pk ? l Hk Hl]; subst. rewrite Hk. apply IH in Hl. by rewrite Hl.
Qed.

(** A signature is accepted for an address only by the check of its own kind:
    a BLS signature against the key the address is, a secp256k1 signature when
    the key recovered from it hashes to the address; an aggregate when every key
    is a point and all messages verify together, or, whatever its bytes, when it
    covers no message at all. *)
Theorem signature_accepted_iff t sig data addr keys texts :
  (verify t sig data addr = Ok tt ↔
   match t with
   | BLS => ∃ k pk s, addr = BLSAddr k ∧ bls_pub_key_from k = Ok pk ∧ bls_signature_from sig = Ok s ∧
       verify_messages s [data] [pk] = true
   | Secp256k1 => length sig = SECP_SIG_LEN ∧ ∃ key, recover_secp_public_key (blake2b 32 data) sig = Ok key ∧
       length key = SECP_PUB_LEN ∧ addr = Secp256k1Addr (blake2b PAYLOAD_HASH_LEN key)
   end) ∧
  (verify_bls_aggregate sig keys texts = Ok true ↔
   keys = [] ∧ texts = [] ∨
   keys ≠ [] ∧ length keys = length texts ∧
     ∃ s pks, bls_signature_from sig = Ok s ∧ Forall2 (λ k pk, bls_pub_key_from k = Ok pk) keys pks ∧
       verify_messages s texts pks = true).
Proof.
  split; [destruct t; [apply verify_secp_spec|apply verify_bls_spec]|].
  unfold verify_bls_aggregate. destruct (Nat.eqb_spec (length keys) (length texts)) as [Hl|Hl]; simpl.
  2: { split; [done|]. intros [[-> ->]|(_ & ? & _)]; done. }
  destruct keys as [|k keys].
  { destruct texts; [|done]. split; [by left|done]. }
  simpl (length (k :: keys) =? 0)%nat. cbv iota. split.
  - destruct (bls_signature_from sig) as [s|]; [|done].
    destruct (pub_keys_from (k :: keys)) as [pks|] eqn:Hp; [|done]. intros [= Hv]. right. split_and!; [done..|].
    exists s, pks. split_and!; [done| |done]. by apply pub_keys_from_spec.
  - intros [[? _]|(_ & _ & s & pks & Hs & Hp & Hv)]; [done|]. apply pub_keys_from_spec in Hp. by rewrite Hs, Hp, Hv.
Qed.
End ops.
