(* ===== verification/HistoryMap.v ===== *)
(** * Map with an undo history (fvm/src/history_map.rs)

    The state tree's caches and the access tracker are history maps. The
    history vector is a stack, kept newest entry first, so that a height
    ([history_len]) is the length of a suffix of it. *)

From S2P Require Import Prelude Effects.
From stdpp Require Import gmap strings list fin_maps.
From Stdlib Require Import ZArith Lia.

Section history_map.
Context {K V : Type} `{Countable K} `{EqDecision V}.

Record HistoryMap := mkHistoryMap {
  hm_map : gmap K V;
  hm_history : list (K * option V);
}.

Definition hm_default : HistoryMap := mkHistoryMap ∅ [].

(** [FromIterator]: later pairs win, no history. *)
Definition hm_from_iter (l : list (K * V)) : HistoryMap :=
  mkHistoryMap (list_to_map (reverse l)) [].

Definition hm_insert (k : K) (v : V) (m : HistoryMap) : HistoryMap :=
  match hm_map m !! k with
  | None => mkHistoryMap (<[k := v]> (hm_map m)) ((k, None) :: hm_history m)
  | Some old =>
      if decide (old = v) then m
      else mkHistoryMap (<[k := v]> (hm_map m)) ((k, Some old) :: hm_history m)
  end.

Definition hm_get (k : K) (m : HistoryMap) : option V := hm_map m !! k.

(** [f] is the initialiser's result: it is only consulted when the key is
    vacant, and an error leaves the map unchanged. *)
Definition get_or_try_insert_with {E} (k : K) (f : result E V) (m : HistoryMap)
    : result E V * HistoryMap :=
  match hm_map m !! k with
  | Some v => (Ok v, m)
  | None =>
      match f with
      | Err e => (Err e, m)
      | Ok v => (Ok v, mkHistoryMap (<[k := v]> (hm_map m)) ((k, None) :: hm_history m))
      end
  end.

Definition undo (m : gmap K V) (e : K * option V) : gmap K V :=
  match e.2 with Some v => <[e.1 := v]> m | None => delete e.1 m end.

Definition rollback (height : nat) (m : HistoryMap) : HistoryMap :=
  let len := length (hm_history m) in
  if (len <=? height)%nat then m
  else mkHistoryMap (foldl undo (hm_map m) (take (len - height) (hm_history m)))
                    (drop (len - height) (hm_history m)).

Definition history_len (m : HistoryMap) : nat := length (hm_history m).

Definition discard_history (m : HistoryMap) : HistoryMap := mkHistoryMap (hm_map m) [].

(** ** Extension: the later map can be undone to the earlier one *)

Definition hm_ext (a b : HistoryMap) : Prop :=
  ∃ suf, hm_history b = suf ++ hm_history a ∧ foldl undo (hm_map b) suf = hm_map a.

#[export] Instance hm_ext_preorder : PreOrder hm_ext.
Proof.
  split.
  - intros a. by exists [].
  - intros a b c (s1 & H1 & H2) (s2 & H3 & H4). exists (s2 ++ s1).
    rewrite foldl_app, H4, H2, H3, H1, app_assoc. done.
Qed.

Lemma rollback_ext a b : hm_ext a b → rollback (history_len a) b = a.
Proof.
  intros (suf & H1 & H2). unfold rollback, history_len. rewrite H1, length_app.
  destruct (Nat.leb_spec (length suf + length (hm_history a)) (length (hm_history a))).
  - assert (suf = []) as -> by (apply nil_length_inv; lia).
    destruct a, b; simpl in *; by subst.
  - replace (_ + _ - _)%nat with (length suf) by lia.
    rewrite take_app_length, drop_app_length, H2. by destruct a.
Qed.

Lemma hm_ext_insert k v m : hm_ext m (hm_insert k v m).
Proof.
  unfold hm_insert. destruct (hm_map m !! k) as [old|] eqn:E.
  - case_decide; [done|]. exists [(k, Some old)]. split; [done|]. simpl. unfold undo; simpl.
    rewrite insert_insert_eq. by apply insert_id.
  - exists [(k, None)]. split; [done|]. simpl. unfold undo; simpl.
    by apply delete_insert_id.
Qed.

Lemma hm_ext_get_or_insert {E} k (f : result E V) m :
  hm_ext m (get_or_try_insert_with k f m).2.
Proof.
  unfold get_or_try_insert_with. destruct (hm_map m !! k) as [old|] eqn:E1; [done|].
  destruct f; [|done]. exists [(k, None)]. split; [done|]. simpl. unfold undo; simpl.
  by apply delete_insert_id.
Qed.

(** Rolling back to a height at or above an earlier map's keeps it reachable. *)
Lemma hm_ext_rollback a b h :
  hm_ext a b → (history_len a ≤ h)%nat → hm_ext a (rollback h b).
Proof.
  intros (suf & H1 & H2) Hh. unfold rollback, history_len in *.
  destruct (Nat.leb_spec (length (hm_history b)) h); [by exists suf|].
  set (n := (length (hm_history b) - h)%nat).
  assert (n ≤ length suf)%nat as Hn by (unfold n; rewrite H1, length_app; lia).
  exists (drop n suf). simpl. split.
  - by rewrite H1, drop_app_le.
  - rewrite H1, take_app_le by done.
    rewrite <-foldl_app, take_drop. done.
Qed.

Lemma lookup_hm_insert k v m j :
  hm_map (hm_insert k v m) !! j = if decide (k = j) then Some v else hm_map m !! j.
Proof.
  unfold hm_insert. destruct (hm_map m !! k) as [old|] eqn:E; [case_decide as Hd|]; simpl.
  - subst. case_decide; [by subst|done].
  - by rewrite lookup_insert.
  - by rewrite lookup_insert.
Qed.

(** ** Sequences of operations *)

(** The mutations a client can make while a height is outstanding; a nested
    rollback goes to a height taken later. *)
Inductive hm_op (h : nat) :=
  | HInsert (k : K) (v : V)
  | HGetOrInsert (k : K) (f : result unit V)
  | HRollback (h' : nat) (Hh : (h ≤ h')%nat).
Arguments HInsert {h}.
Arguments HGetOrInsert {h}.
Arguments HRollback {h}.

Definition hm_apply {h} (m : HistoryMap) (o : hm_op h) : HistoryMap :=
  match o with
  | HInsert k v => hm_insert k v m
  | HGetOrInsert k f => (get_or_try_insert_with k f m).2
  | HRollback h' _ => rollback h' m
  end.

Lemma hm_ext_apply {h} a b (o : hm_op h) :
  hm_ext a b → history_len a = h → hm_ext a (hm_apply b o).
Proof.
  intros He Hh. destruct o; simpl.
  - etrans; [exact He|apply hm_ext_insert].
  - etrans; [exact He|apply hm_ext_get_or_insert].
  - apply hm_ext_rollback; [done|lia].
Qed.

(** Undo. Record the history length, run any sequence of insertions,
    lookups with initialiser (failing or not) and nested rollbacks, then roll
    back to the recorded length: the map and its history are exactly what they
    were. *)
Theorem rollback_restores (m : HistoryMap) (ops : list (hm_op (history_len m))) :
  rollback (history_len m) (foldl hm_apply m ops) = m.
Proof.
  apply rollback_ext. assert (∀ b, hm_ext m b → hm_ext m (foldl hm_apply b ops)) as Hall;
    [|by apply Hall].
  induction ops as [|o ops IH]; intros b Hb; [done|]. simpl. apply IH.
  by apply hm_ext_apply.
Qed.

End history_map.
Arguments HistoryMap K V {_ _}.
Arguments hm_op K V : clear implicits.
