(* ===== verification/Types.v ===== *)
(** * Shared data and the VM's environment

    CIDs, actor states (shared/src/state/mod.rs), the init actor's state
    (fvm/src/init_actor.rs), and the interfaces of what the VM is built on: the
    blockstore, the HAMT, the CBOR codec of the two structures the VM itself
    reads and writes, and the hash functions. *)

From S2P Require Import Prelude Effects Gas PriceList Address.
From stdpp Require Import gmap strings list fin_maps.
From Stdlib Require Import ZArith Lia.
#[local] Open Scope Z_scope.

(** The parts of a CID the code inspects: codec, multihash code and digest. *)
Record Cid := mkCid { cid_codec : Z; cid_hash_code : Z; cid_digest : bytes }.

#[export] Instance Cid_eq_dec : EqDecision Cid.
Proof. solve_decision. Defined.
#[export] Instance Cid_countable : Countable Cid.
Proof.
  apply (inj_countable' (λ c, (cid_codec c, cid_hash_code c, cid_digest c))
    (λ '(a, b, d), mkCid a b d)). by intros [].
Defined.

Definition CBOR : Z := 0x51.
Definition DAG_CBOR : Z := 0x71.
Definition IPLD_RAW : Z := 0x55.
Definition IDENTITY_HASH : Z := 0.
Definition BLAKE2B_256 : Z := 0xb220.
Definition FIL_COMMITMENT_UNSEALED : Z := 0xf101.
Definition FIL_COMMITMENT_SEALED : Z := 0xf102.

(** The multihash codes of [SupportedHashes] (fvm/src/kernel/hash.rs). *)
Definition hash_code (h : SupportedHashes) : Z :=
  match h with
  | Sha2_256 => 0x12 | Blake2b256 => 0xb220 | Blake2b512 => 0xb240
  | Keccak256 => 0x1b | Ripemd160 => 0x1053
  end.
Definition hash_from_code (c : Z) : option SupportedHashes :=
  if c =? 0x12 then Some Sha2_256 else if c =? 0xb220 then Some Blake2b256
  else if c =? 0xb240 then Some Blake2b512 else if c =? 0x1b then Some Keccak256
  else if c =? 0x1053 then Some Ripemd160 else None.

Abbreviation MethodNum := Z (only parsing).
Abbreviation BlockId := Z (only parsing).

Definition METHOD_SEND : MethodNum := 0.
Definition METHOD_CONSTRUCTOR : MethodNum := 1.
Definition SYSTEM_ACTOR_ID : ActorID := 0.
Definition INIT_ACTOR_ID : ActorID := 1.
Definition REWARD_ACTOR_ID : ActorID := 2.
Definition EAM_ACTOR_ID : ActorID := 10.
Definition BURNT_FUNDS_ACTOR_ID : ActorID := 99.

Record ActorState := mkActorState {
  as_code : Cid;
  as_state : Cid;
  as_sequence : Z;
  as_balance : TokenAmount;
  as_delegated_address : option Address;
}.

#[export] Instance ActorState_eq_dec : EqDecision ActorState.
Proof. solve_decision. Defined.

Inductive InvalidTransfer :=
  | InsufficientBalance (amount balance : TokenAmount)
  | NegativeAmount (amt : TokenAmount).

Definition as_set_balance (b : TokenAmount) (a : ActorState) : ActorState :=
  mkActorState (as_code a) (as_state a) (as_sequence a) b (as_delegated_address a).

Definition deduct_funds (amt : TokenAmount) (a : ActorState) : result InvalidTransfer ActorState :=
  if amt <? 0 then Err (NegativeAmount amt)
  else if as_balance a <? amt then Err (InsufficientBalance amt (as_balance a))
  else Ok (as_set_balance (as_balance a - amt) a).

Definition deposit_funds (amt : TokenAmount) (a : ActorState) : result InvalidTransfer ActorState :=
  if amt <? 0 then Err (NegativeAmount amt)
  else Ok (as_set_balance (as_balance a + amt) a).

(** [or_fatal] on an [InvalidTransfer]. *)
Definition transfer_or_fatal {A} (r : result InvalidTransfer A) : Result A :=
  match r with
  | Ok a => Ok a
  | Err (InsufficientBalance _ _) =>
      Err (Fatal "insufficient funds when deducting funds ({amount}) from balance ({balance})")
  | Err (NegativeAmount _) =>
      Err (Fatal "cannot deposite/deduct a negative amount of funds ({0})")
  end.

(** [EMPTY_ARR_CID]: the CBOR empty array, blake2b-hashed. *)
Definition EMPTY_ARR_CID : Cid := mkCid DAG_CBOR BLAKE2B_256
  [69; 176; 207; 194; 32; 206; 236; 91; 124; 28; 98; 196; 212; 25; 61; 56;
   228; 235; 164; 142; 136; 21; 114; 156; 231; 95; 156; 10; 176; 228; 193; 192].

Definition new_empty (code : Cid) (delegated_address : option Address) : ActorState :=
  mkActorState code EMPTY_ARR_CID 0 0 delegated_address.

Inductive StateTreeVersion := V0 | V1 | V2 | V3 | V4 | V5.
Record StateRoot := mkStateRoot {
  sr_version : StateTreeVersion; sr_actors : Cid; sr_info : Cid }.

(** The init actor's state (without the [m2-native] feature). *)
Record InitState := mkInitState {
  address_map : Cid;
  next_id : ActorID;
  network_name : string;
}.

(** ** The environment

    What the state tree and the call manager are built on. [Store] is the
    blockstore's state; a failing write may still have changed it, so every
    write returns the store it leaves behind. *)

Class Cbor (T : Type) := {
  to_vec : T → result string bytes;
  from_slice : bytes → result string T;
}.

(** [Hamt<S, V>]: a map from byte keys, read through the store. *)
Class HamtOps (Store V : Type) := {
  Hamt : Type;
  hamt_new : Hamt;
  hamt_load : Store → Cid → result string Hamt;
  hamt_get : Store → Hamt → bytes → result string (option V);
  hamt_set : Store → Hamt → bytes → V → result string unit * Hamt;
  hamt_delete : Store → Hamt → bytes → result string unit * Hamt;
  hamt_flush : Store → Hamt → result string Cid * Hamt * Store;
}.
Arguments Hamt Store V {_}.

Class Blockstore := {
  Store : Type;
  bs_get : Store → Cid → result string (option bytes);
  bs_put_keyed : Store → Cid → bytes → result string unit * Store;
  mh_digest : Z → bytes → bytes;
}.

Class Env := {
  env_bs :: Blockstore;
  env_varint :: Varint;
  env_state_root :: Cbor StateRoot;
  env_init_state :: Cbor InitState;
  env_actors :: HamtOps Store ActorState;
  env_addresses :: HamtOps Store ActorID;
}.

Section cbor_store.
Context `{BS : Blockstore}.

(** [Block::cid] (ipld/blockstore/src/block.rs): a CIDv1 of the data. *)
Definition block_cid (codec hash : Z) (data : bytes) : Cid :=
  mkCid codec hash (mh_digest hash data).

(** [Blockstore::put], the provided method. *)
Definition bs_put (s : Store) (hash codec : Z) (data : bytes) : result string Cid * Store :=
  let k := block_cid codec hash data in
  match bs_put_keyed s k data with
  | (Ok _, s') => (Ok k, s')
  | (Err e, s') => (Err e, s')
  end.

Definition bs_has (s : Store) (k : Cid) : result string bool :=
  match bs_get s k with
  | Ok (Some _) => Ok true
  | Ok None => Ok false
  | Err e => Err e
  end.

(** [CborStore] (ipld/encoding/src/cbor_store.rs). *)
Definition get_cbor {T} `{Cbor T} (s : Store) (c : Cid) : result string (option T) :=
  if negb ((cid_codec c =? CBOR) || (cid_codec c =? DAG_CBOR))
  then Err "{} is not CBOR or DagCBOR"
  else match bs_get s c with
       | Err e => Err e
       | Ok None => Ok None
       | Ok (Some bz) => match from_slice bz with Ok t => Ok (Some t) | Err e => Err e end
       end.

Definition put_cbor {T} `{Cbor T} (s : Store) (obj : T) (code : Z) : result string Cid * Store :=
  match to_vec obj with
  | Err e => (Err e, s)
  | Ok bz => bs_put s code DAG_CBOR bz
  end.
End cbor_store.

(** ** What the environment promises

    A blockstore holds content-addressed blocks and never loses or replaces
    one; a HAMT is a finite map whose lookups, once they succeed, are not
    affected by blocks added later; the codecs are lossless. *)

Class CborSpec (T : Type) `{Cbor T} : Prop :=
  from_to_vec : ∀ t : T, ∃ bz, to_vec t = Ok bz ∧ from_slice bz = Ok t.

Class BlockstoreSpec `{BS : Blockstore} := {
  store_ok : Store → Prop;
  store_le : relation Store;
  store_le_preorder :: PreOrder store_le;
  store_le_get s s' c b : store_le s s' → bs_get s c = Ok (Some b) → bs_get s' c = Ok (Some b);
  put_keyed_ok s k b r s' :
    store_ok s → cid_digest k = mh_digest (cid_hash_code k) b →
    bs_put_keyed s k b = (r, s') → store_ok s' ∧ store_le s s';
  put_keyed_get s k b s' :
    store_ok s → cid_digest k = mh_digest (cid_hash_code k) b →
    bs_put_keyed s k b = (Ok tt, s') → bs_get s' k = Ok (Some b);
}.

(** A blockstore without I/O errors. *)
Class StoreTotal `{BS : Blockstore} : Prop :=
  put_keyed_total s k b : ∃ s', bs_put_keyed s k b = (Ok tt, s').

(** [hamt_keys_ok] holds of the sets of keys whose hashes the HAMT can tell
    apart: setting a key can only be promised to succeed among those. The root of
    a HAMT depends on its content alone. *)
Class HamtSpec (V : Type) `{BSS : BlockstoreSpec} `{HO : !HamtOps Store V} := {
  hamt_rep : Store → Hamt Store V → gmap bytes V → Prop;
  hamt_stored : Store → Cid → gmap bytes V → Prop;
  hamt_keys_ok : gset bytes → Prop;
  hamt_keys_sub X Y : X ⊆ Y → hamt_keys_ok Y → hamt_keys_ok X;
  hamt_rep_new s : store_ok s → hamt_rep s hamt_new ∅;
  hamt_rep_load s c m : store_ok s → hamt_stored s c m →
    ∃ h, hamt_load s c = Ok h ∧ hamt_rep s h m;
  hamt_rep_get s h m k : store_ok s → hamt_rep s h m → hamt_get s h k = Ok (m !! k);
  hamt_rep_set s h m k v : store_ok s → hamt_rep s h m → hamt_keys_ok (dom (<[k := v]> m)) →
    ∃ h', hamt_set s h k v = (Ok tt, h') ∧ hamt_rep s h' (<[k := v]> m);
  hamt_rep_delete s h m k : store_ok s → hamt_rep s h m →
    ∃ h', hamt_delete s h k = (Ok tt, h') ∧ hamt_rep s h' (delete k m);
  hamt_rep_flush s h m : StoreTotal → store_ok s → hamt_rep s h m →
    ∃ c h' s', hamt_flush s h = (Ok c, h', s') ∧ store_ok s' ∧ store_le s s' ∧
      cid_codec c = DAG_CBOR ∧ hamt_rep s' h' m ∧ hamt_stored s' c m;
  hamt_flush_le s h r h' s' : store_ok s → hamt_flush s h = (r, h', s') → store_ok s' ∧ store_le s s';
  hamt_rep_mono s s' h m : store_ok s → store_ok s' → store_le s s' → hamt_rep s h m → hamt_rep s' h m;
  hamt_stored_mono s s' c m :
    store_ok s → store_ok s' → store_le s s' → hamt_stored s c m → hamt_stored s' c m;
  hamt_stored_root s s' c c' m : hamt_stored s c m → hamt_stored s' c' m → c = c';
}.

Class EnvSpec `{E : Env} := {
  spec_bs :: BlockstoreSpec;
  blake2b_len d : length (mh_digest BLAKE2B_256 d) = 32%nat;
  spec_varint :: VarintSpec;
  spec_state_root :: CborSpec StateRoot;
  spec_init_state :: CborSpec InitState;
  spec_actors :: HamtSpec ActorState;
  spec_addresses :: HamtSpec ActorID;
}.

Section store_lemmas.
Context `{BSS : BlockstoreSpec}.

Lemma bs_put_ok s h c d r s' :
  store_ok s → bs_put s h c d = (r, s') → store_ok s' ∧ store_le s s'.
Proof.
  intros Hs. unfold bs_put. destruct (bs_put_keyed _ _ _) as [[?|?] s1] eqn:Hp; intros [= _ <-];
    by eapply put_keyed_ok in Hp.
Qed.

Lemma put_cbor_ok {T} `{Cbor T} s (o : T) h r s' :
  store_ok s → put_cbor s o h = (r, s') → store_ok s' ∧ store_le s s'.
Proof.
  intros Hs. unfold put_cbor. destruct (to_vec o); [by apply bs_put_ok|].
  intros [= _ <-]. done.
Qed.

(** Write an object, read it back: through the CID returned. *)
Lemma put_get_cbor {T} `{CborSpec T} s (o : T) h c s' :
  store_ok s → put_cbor s o h = (Ok c, s') → get_cbor s' c = Ok (Some o).
Proof.
  intros Hs. unfold put_cbor, bs_put, get_cbor.
  destruct (from_to_vec o) as (bz & -> & Hd).
  destruct (bs_put_keyed _ _ _) as [[[]|?] s1] eqn:Hp; intros [= <- <-]. simpl.
  rewrite (put_keyed_get _ _ _ _ Hs) with (2 := Hp) by done. by rewrite Hd.
Qed.

Lemma get_cbor_mono {T} `{Cbor T} s s' c (o : T) :
  store_le s s' → get_cbor s c = Ok (Some o) → get_cbor s' c = Ok (Some o).
Proof.
  intros Hle. unfold get_cbor. case_match; [done|].
  destruct (bs_get s c) as [[bz|]|] eqn:Hg; [|done..].
  by rewrite (store_le_get _ _ _ _ Hle Hg).
Qed.
End store_lemmas.
