(* ===== verification/Sector.v ===== *)
(** * Sectors, pieces and commitments (shared/src/sector, shared/src/piece,
    shared/src/commcid)

    The values the Filecoin-specific kernel passes around: registered proof
    types with their wire numbers and sizes, the records of what is to be
    verified, piece sizes with and without padding, the commitments of all-zero
    pieces, and commitments as CIDs. [Sector] also has the lemmas about them;
    the enumerations of seal and PoSt proofs themselves are with the price list
    that is indexed by them. *)

From S2P Require Import Prelude Effects Gas PriceList Address Types.
From stdpp Require Import gmap strings list fin_maps.
From Stdlib Require Import ZArith Lia.
#[local] Open Scope Z_scope.

(** [?] on plain results. *)
Definition rbind {E A B} (r : result E A) (k : A → result E B) : result E B :=
  match r with Ok a => k a | Err e => Err e end.

(** ** Proof types (sector/registered_proof.rs, sector/mod.rs) *)

Abbreviation SectorNumber := Z (only parsing).
Definition MAX_SECTOR_NUMBER : SectorNumber := i64_max.

Inductive SectorSize := SS_2KiB | SS_8MiB | SS_512MiB | SS_32GiB | SS_64GiB.

Definition sector_bytes (s : SectorSize) : Z :=
  match s with
  | SS_2KiB => Z.shiftl 2 10 | SS_8MiB => Z.shiftl 8 20 | SS_512MiB => Z.shiftl 512 20
  | SS_32GiB => Z.shiftl 32 30 | SS_64GiB => 2 * Z.shiftl 32 30
  end.

Inductive RegisteredAggregateProof := SnarkPackV1 | SnarkPackV2 | AggregateInvalid (i : Z).
Inductive RegisteredUpdateProof :=
  | UpdateStackedDRG2KiBV1 | UpdateStackedDRG8MiBV1 | UpdateStackedDRG512MiBV1
  | UpdateStackedDRG32GiBV1 | UpdateStackedDRG64GiBV1 | UpdateInvalid (i : Z).

#[export] Instance SectorSize_eq_dec : EqDecision SectorSize.
Proof. solve_decision. Defined.
#[export] Instance RegisteredSealProof_eq_dec : EqDecision RegisteredSealProof.
Proof. solve_decision. Defined.
#[export] Instance RegisteredPoStProof_eq_dec : EqDecision RegisteredPoStProof.
Proof. solve_decision. Defined.

Definition from_sector_size (size : SectorSize) (network_version : Z) : RegisteredSealProof :=
  if network_version <? 7 then
    match size with
    | SS_2KiB => StackedDRG2KiBV1
    | SS_8MiB => StackedDRG8MiBV1
    | SS_512MiB => StackedDRG512MiBV1
    | SS_32GiB => StackedDRG32GiBV1
    | SS_64GiB => StackedDRG64GiBV1
    end
  else
    match size with
    | SS_2KiB => StackedDRG2KiBV1P1
    | SS_8MiB => StackedDRG8MiBV1P1
    | SS_512MiB => StackedDRG512MiBV1P1
    | SS_32GiB => StackedDRG32GiBV1P1
    | SS_64GiB => StackedDRG64GiBV1P1
    end.

Definition update_to_v1 (p : RegisteredSealProof) : RegisteredSealProof :=
  match p with
  | StackedDRG2KiBV1 => StackedDRG2KiBV1P1
  | StackedDRG8MiBV1 => StackedDRG8MiBV1P1
  | StackedDRG512MiBV1 => StackedDRG512MiBV1P1
  | StackedDRG32GiBV1 => StackedDRG32GiBV1P1
  | StackedDRG64GiBV1 => StackedDRG64GiBV1P1
  | other => other
  end.

Definition sector_maximum_lifetime : Z := 5 * 1262277.

Definition seal_proof_size (p : RegisteredSealProof) : result string Z :=
  match p with
  | StackedDRG2KiBV1 | StackedDRG8MiBV1 | StackedDRG512MiBV1
  | StackedDRG2KiBV1P1 | StackedDRG8MiBV1P1 | StackedDRG512MiBV1P1
  | StackedDRG2KiBV1P1_Feat_SyntheticPoRep | StackedDRG8MiBV1P1_Feat_SyntheticPoRep | StackedDRG512MiBV1P1_Feat_SyntheticPoRep => Ok 192
  | StackedDRG2KiBV1P2_Feat_NiPoRep | StackedDRG8MiBV1P2_Feat_NiPoRep | StackedDRG512MiBV1P2_Feat_NiPoRep => Ok 14164
  | StackedDRG32GiBV1 | StackedDRG64GiBV1
  | StackedDRG32GiBV1P1 | StackedDRG64GiBV1P1
  | StackedDRG32GiBV1P1_Feat_SyntheticPoRep | StackedDRG64GiBV1P1_Feat_SyntheticPoRep => Ok 1920
  | StackedDRG32GiBV1P2_Feat_NiPoRep | StackedDRG64GiBV1P2_Feat_NiPoRep => Ok 23092
  | SealInvalid _ => Err "unsupported proof type: {}"
  end.

Definition post_sector_size (p : RegisteredPoStProof) : result string SectorSize :=
  match p with
  | StackedDRGWindow2KiBV1P1 | StackedDRGWinning2KiBV1 => Ok SS_2KiB
  | StackedDRGWindow8MiBV1P1 | StackedDRGWinning8MiBV1 => Ok SS_8MiB
  | StackedDRGWindow512MiBV1P1 | StackedDRGWinning512MiBV1 => Ok SS_512MiB
  | StackedDRGWindow32GiBV1P1 | StackedDRGWinning32GiBV1 => Ok SS_32GiB
  | StackedDRGWindow64GiBV1P1 | StackedDRGWinning64GiBV1 => Ok SS_64GiB
  | PoStInvalid _ => Err "unsupported proof type: {}"
  end.
Definition post_proof_size (p : RegisteredPoStProof) : result string Z :=
  match p with
  | StackedDRGWinning2KiBV1 | StackedDRGWinning8MiBV1 | StackedDRGWinning512MiBV1
  | StackedDRGWinning32GiBV1 | StackedDRGWinning64GiBV1
  | StackedDRGWindow2KiBV1P1 | StackedDRGWindow8MiBV1P1 | StackedDRGWindow512MiBV1P1
  | StackedDRGWindow32GiBV1P1 | StackedDRGWindow64GiBV1P1 => Ok 192
  | PoStInvalid _ => Err "unsupported proof type: {}"
  end.
Definition post_window_post_partition_sectors (p : RegisteredPoStProof) : result string Z :=
  match p with
  | StackedDRGWinning2KiBV1 | StackedDRGWindow2KiBV1P1 => Ok 2
  | StackedDRGWinning8MiBV1 | StackedDRGWindow8MiBV1P1 => Ok 2
  | StackedDRGWinning512MiBV1 | StackedDRGWindow512MiBV1P1 => Ok 2
  | StackedDRGWinning32GiBV1 | StackedDRGWindow32GiBV1P1 => Ok 2349
  | StackedDRGWinning64GiBV1 | StackedDRGWindow64GiBV1P1 => Ok 2300
  | PoStInvalid _ => Err "unsupported proof type: {}"
  end.

Definition sector_size (p : RegisteredSealProof) : result string SectorSize :=
  match p with
  | StackedDRG2KiBV1 | StackedDRG2KiBV1P1
  | StackedDRG2KiBV1P1_Feat_SyntheticPoRep | StackedDRG2KiBV1P2_Feat_NiPoRep => Ok SS_2KiB
  | StackedDRG8MiBV1 | StackedDRG8MiBV1P1
  | StackedDRG8MiBV1P1_Feat_SyntheticPoRep | StackedDRG8MiBV1P2_Feat_NiPoRep => Ok SS_8MiB
  | StackedDRG512MiBV1 | StackedDRG512MiBV1P1
  | StackedDRG512MiBV1P1_Feat_SyntheticPoRep | StackedDRG512MiBV1P2_Feat_NiPoRep => Ok SS_512MiB
  | StackedDRG32GiBV1 | StackedDRG32GiBV1P1
  | StackedDRG32GiBV1P1_Feat_SyntheticPoRep | StackedDRG32GiBV1P2_Feat_NiPoRep => Ok SS_32GiB
  | StackedDRG64GiBV1 | StackedDRG64GiBV1P1
  | StackedDRG64GiBV1P1_Feat_SyntheticPoRep | StackedDRG64GiBV1P2_Feat_NiPoRep => Ok SS_64GiB
  | SealInvalid _ => Err "unsupported proof type: {}"
  end.
Definition window_post_partition_sectors (p : RegisteredSealProof) : result string Z :=
  match p with
  | StackedDRG2KiBV1 | StackedDRG2KiBV1P1
  | StackedDRG2KiBV1P1_Feat_SyntheticPoRep | StackedDRG2KiBV1P2_Feat_NiPoRep => Ok 2
  | StackedDRG8MiBV1 | StackedDRG8MiBV1P1
  | StackedDRG8MiBV1P1_Feat_SyntheticPoRep | StackedDRG8MiBV1P2_Feat_NiPoRep => Ok 2
  | StackedDRG512MiBV1 | StackedDRG512MiBV1P1
  | StackedDRG512MiBV1P1_Feat_SyntheticPoRep | StackedDRG512MiBV1P2_Feat_NiPoRep => Ok 2
  | StackedDRG32GiBV1 | StackedDRG32GiBV1P1
  | StackedDRG32GiBV1P1_Feat_SyntheticPoRep | StackedDRG32GiBV1P2_Feat_NiPoRep => Ok 2349
  | StackedDRG64GiBV1 | StackedDRG64GiBV1P1
  | StackedDRG64GiBV1P1_Feat_SyntheticPoRep | StackedDRG64GiBV1P2_Feat_NiPoRep => Ok 2300
  | SealInvalid _ => Err "unsupported proof type: {}"
  end.
Definition registered_window_post_proof (p : RegisteredSealProof) : result string RegisteredPoStProof :=
  match p with
  | StackedDRG2KiBV1 | StackedDRG2KiBV1P1
  | StackedDRG2KiBV1P1_Feat_SyntheticPoRep | StackedDRG2KiBV1P2_Feat_NiPoRep => Ok StackedDRGWindow2KiBV1P1
  | StackedDRG8MiBV1 | StackedDRG8MiBV1P1
  | StackedDRG8MiBV1P1_Feat_SyntheticPoRep | StackedDRG8MiBV1P2_Feat_NiPoRep => Ok StackedDRGWindow8MiBV1P1
  | StackedDRG512MiBV1 | StackedDRG512MiBV1P1
  | StackedDRG512MiBV1P1_Feat_SyntheticPoRep | StackedDRG512MiBV1P2_Feat_NiPoRep => Ok StackedDRGWindow512MiBV1P1
  | StackedDRG32GiBV1 | StackedDRG32GiBV1P1
  | StackedDRG32GiBV1P1_Feat_SyntheticPoRep | StackedDRG32GiBV1P2_Feat_NiPoRep => Ok StackedDRGWindow32GiBV1P1
  | StackedDRG64GiBV1 | StackedDRG64GiBV1P1
  | StackedDRG64GiBV1P1_Feat_SyntheticPoRep | StackedDRG64GiBV1P2_Feat_NiPoRep => Ok StackedDRGWindow64GiBV1P1
  | SealInvalid _ => Err "Unsupported mapping from {:?} to PoSt-window RegisteredProof"
  end.
Definition registered_update_proof (p : RegisteredSealProof) : result string RegisteredUpdateProof :=
  match p with
  | StackedDRG2KiBV1 | StackedDRG2KiBV1P1
  | StackedDRG2KiBV1P1_Feat_SyntheticPoRep | StackedDRG2KiBV1P2_Feat_NiPoRep => Ok UpdateStackedDRG2KiBV1
  | StackedDRG8MiBV1 | StackedDRG8MiBV1P1
  | StackedDRG8MiBV1P1_Feat_SyntheticPoRep | StackedDRG8MiBV1P2_Feat_NiPoRep => Ok UpdateStackedDRG8MiBV1
  | StackedDRG512MiBV1 | StackedDRG512MiBV1P1
  | StackedDRG512MiBV1P1_Feat_SyntheticPoRep | StackedDRG512MiBV1P2_Feat_NiPoRep => Ok UpdateStackedDRG512MiBV1
  | StackedDRG32GiBV1 | StackedDRG32GiBV1P1
  | StackedDRG32GiBV1P1_Feat_SyntheticPoRep | StackedDRG32GiBV1P2_Feat_NiPoRep => Ok UpdateStackedDRG32GiBV1
  | StackedDRG64GiBV1 | StackedDRG64GiBV1P1
  | StackedDRG64GiBV1P1_Feat_SyntheticPoRep | StackedDRG64GiBV1P2_Feat_NiPoRep => Ok UpdateStackedDRG64GiBV1
  | SealInvalid _ => Err "Unsupported mapping from {:?} to Update RegisteredProof"
  end.

(** [i64_conversion!]: the numbers on the wire. *)
Definition post_from_i64 (value : Z) : RegisteredPoStProof :=
  match value with
  | 0 => StackedDRGWinning2KiBV1
  | 1 => StackedDRGWinning8MiBV1
  | 2 => StackedDRGWinning512MiBV1
  | 3 => StackedDRGWinning32GiBV1
  | 4 => StackedDRGWinning64GiBV1
  | 10 => StackedDRGWindow2KiBV1P1
  | 11 => StackedDRGWindow8MiBV1P1
  | 12 => StackedDRGWindow512MiBV1P1
  | 13 => StackedDRGWindow32GiBV1P1
  | 14 => StackedDRGWindow64GiBV1P1
  | other => PoStInvalid other
  end.
Definition post_to_i64 (proof : RegisteredPoStProof) : Z :=
  match proof with
  | StackedDRGWinning2KiBV1 => 0
  | StackedDRGWinning8MiBV1 => 1
  | StackedDRGWinning512MiBV1 => 2
  | StackedDRGWinning32GiBV1 => 3
  | StackedDRGWinning64GiBV1 => 4
  | StackedDRGWindow2KiBV1P1 => 10
  | StackedDRGWindow8MiBV1P1 => 11
  | StackedDRGWindow512MiBV1P1 => 12
  | StackedDRGWindow32GiBV1P1 => 13
  | StackedDRGWindow64GiBV1P1 => 14
  | PoStInvalid other => other
  end.

Definition seal_from_i64 (value : Z) : RegisteredSealProof :=
  match value with
  | 0 => StackedDRG2KiBV1
  | 1 => StackedDRG8MiBV1
  | 2 => StackedDRG512MiBV1
  | 3 => StackedDRG32GiBV1
  | 4 => StackedDRG64GiBV1
  | 5 => StackedDRG2KiBV1P1
  | 6 => StackedDRG8MiBV1P1
  | 7 => StackedDRG512MiBV1P1
  | 8 => StackedDRG32GiBV1P1
  | 9 => StackedDRG64GiBV1P1
  | 10 => StackedDRG2KiBV1P1_Feat_SyntheticPoRep
  | 11 => StackedDRG8MiBV1P1_Feat_SyntheticPoRep
  | 12 => StackedDRG512MiBV1P1_Feat_SyntheticPoRep
  | 13 => StackedDRG32GiBV1P1_Feat_SyntheticPoRep
  | 14 => StackedDRG64GiBV1P1_Feat_SyntheticPoRep
  | 15 => StackedDRG2KiBV1P2_Feat_NiPoRep
  | 16 => StackedDRG8MiBV1P2_Feat_NiPoRep
  | 17 => StackedDRG512MiBV1P2_Feat_NiPoRep
  | 18 => StackedDRG32GiBV1P2_Feat_NiPoRep
  | 19 => StackedDRG64GiBV1P2_Feat_NiPoRep
  | other => SealInvalid other
  end.
Definition seal_to_i64 (proof : RegisteredSealProof) : Z :=
  match proof with
  | StackedDRG2KiBV1 => 0
  | StackedDRG8MiBV1 => 1
  | StackedDRG512MiBV1 => 2
  | StackedDRG32GiBV1 => 3
  | StackedDRG64GiBV1 => 4
  | StackedDRG2KiBV1P1 => 5
  | StackedDRG8MiBV1P1 => 6
  | StackedDRG512MiBV1P1 => 7
  | StackedDRG32GiBV1P1 => 8
  | StackedDRG64GiBV1P1 => 9
  | StackedDRG2KiBV1P1_Feat_SyntheticPoRep => 10
  | StackedDRG8MiBV1P1_Feat_SyntheticPoRep => 11
  | StackedDRG512MiBV1P1_Feat_SyntheticPoRep => 12
  | StackedDRG32GiBV1P1_Feat_SyntheticPoRep => 13
  | StackedDRG64GiBV1P1_Feat_SyntheticPoRep => 14
  | StackedDRG2KiBV1P2_Feat_NiPoRep => 15
  | StackedDRG8MiBV1P2_Feat_NiPoRep => 16
  | StackedDRG512MiBV1P2_Feat_NiPoRep => 17
  | StackedDRG32GiBV1P2_Feat_NiPoRep => 18
  | StackedDRG64GiBV1P2_Feat_NiPoRep => 19
  | SealInvalid other => other
  end.

Definition aggregate_from_i64 (value : Z) : RegisteredAggregateProof :=
  match value with
  | 0 => SnarkPackV1
  | 1 => SnarkPackV2
  | other => AggregateInvalid other
  end.
Definition aggregate_to_i64 (proof : RegisteredAggregateProof) : Z :=
  match proof with
  | SnarkPackV1 => 0
  | SnarkPackV2 => 1
  | AggregateInvalid other => other
  end.

Definition update_from_i64 (value : Z) : RegisteredUpdateProof :=
  match value with
  | 0 => UpdateStackedDRG2KiBV1
  | 1 => UpdateStackedDRG8MiBV1
  | 2 => UpdateStackedDRG512MiBV1
  | 3 => UpdateStackedDRG32GiBV1
  | 4 => UpdateStackedDRG64GiBV1
  | other => UpdateInvalid other
  end.
Definition update_to_i64 (proof : RegisteredUpdateProof) : Z :=
  match proof with
  | UpdateStackedDRG2KiBV1 => 0
  | UpdateStackedDRG8MiBV1 => 1
  | UpdateStackedDRG512MiBV1 => 2
  | UpdateStackedDRG32GiBV1 => 3
  | UpdateStackedDRG64GiBV1 => 4
  | UpdateInvalid other => other
  end.

(** The proof types of the proofs library the conversions below name. *)
Module Api.
Inductive SealProof :=
  | StackedDrg2KiBV1 | StackedDrg8MiBV1 | StackedDrg512MiBV1
  | StackedDrg32GiBV1 | StackedDrg64GiBV1
  | StackedDrg2KiBV1_1 | StackedDrg8MiBV1_1 | StackedDrg512MiBV1_1
  | StackedDrg32GiBV1_1 | StackedDrg64GiBV1_1
  | StackedDrg2KiBV1_1_Feat_SyntheticPoRep | StackedDrg8MiBV1_1_Feat_SyntheticPoRep | StackedDrg512MiBV1_1_Feat_SyntheticPoRep
  | StackedDrg32GiBV1_1_Feat_SyntheticPoRep | StackedDrg64GiBV1_1_Feat_SyntheticPoRep
  | StackedDrg2KiBV1_2_Feat_NonInteractivePoRep | StackedDrg8MiBV1_2_Feat_NonInteractivePoRep | StackedDrg512MiBV1_2_Feat_NonInteractivePoRep
  | StackedDrg32GiBV1_2_Feat_NonInteractivePoRep | StackedDrg64GiBV1_2_Feat_NonInteractivePoRep.
Inductive PoStType :=
  | StackedDrgWinning2KiBV1 | StackedDrgWinning8MiBV1 | StackedDrgWinning512MiBV1
  | StackedDrgWinning32GiBV1 | StackedDrgWinning64GiBV1
  | StackedDrgWindow2KiBV1_2 | StackedDrgWindow8MiBV1_2 | StackedDrgWindow512MiBV1_2
  | StackedDrgWindow32GiBV1_2 | StackedDrgWindow64GiBV1_2.
Inductive AggregationProof := SnarkPackV1 | SnarkPackV2.
Inductive UpdateProof :=
  | StackedDrg2KiBV1u | StackedDrg8MiBV1u | StackedDrg512MiBV1u | StackedDrg32GiBV1u | StackedDrg64GiBV1u.
End Api.

(** [TryFrom] into them. *)
Definition aggregate_to_api (p : RegisteredAggregateProof) : result string Api.AggregationProof :=
  match p with
  | SnarkPackV1 => Ok Api.SnarkPackV1
  | SnarkPackV2 => Ok Api.SnarkPackV2
  | AggregateInvalid _ => Err "unsupported aggregate proof type: {}"
  end.
Definition seal_to_api (p : RegisteredSealProof) : result string Api.SealProof :=
  match p with
  | StackedDRG2KiBV1 => Ok Api.StackedDrg2KiBV1
  | StackedDRG8MiBV1 => Ok Api.StackedDrg8MiBV1
  | StackedDRG512MiBV1 => Ok Api.StackedDrg512MiBV1
  | StackedDRG32GiBV1 => Ok Api.StackedDrg32GiBV1
  | StackedDRG64GiBV1 => Ok Api.StackedDrg64GiBV1
  | StackedDRG2KiBV1P1 => Ok Api.StackedDrg2KiBV1_1
  | StackedDRG8MiBV1P1 => Ok Api.StackedDrg8MiBV1_1
  | StackedDRG512MiBV1P1 => Ok Api.StackedDrg512MiBV1_1
  | StackedDRG32GiBV1P1 => Ok Api.StackedDrg32GiBV1_1
  | StackedDRG64GiBV1P1 => Ok Api.StackedDrg64GiBV1_1
  | StackedDRG2KiBV1P1_Feat_SyntheticPoRep => Ok Api.StackedDrg2KiBV1_1_Feat_SyntheticPoRep
  | StackedDRG8MiBV1P1_Feat_SyntheticPoRep => Ok Api.StackedDrg8MiBV1_1_Feat_SyntheticPoRep
  | StackedDRG512MiBV1P1_Feat_SyntheticPoRep => Ok Api.StackedDrg512MiBV1_1_Feat_SyntheticPoRep
  | StackedDRG32GiBV1P1_Feat_SyntheticPoRep => Ok Api.StackedDrg32GiBV1_1_Feat_SyntheticPoRep
  | StackedDRG64GiBV1P1_Feat_SyntheticPoRep => Ok Api.StackedDrg64GiBV1_1_Feat_SyntheticPoRep
  | StackedDRG2KiBV1P2_Feat_NiPoRep => Ok Api.StackedDrg2KiBV1_2_Feat_NonInteractivePoRep
  | StackedDRG8MiBV1P2_Feat_NiPoRep => Ok Api.StackedDrg8MiBV1_2_Feat_NonInteractivePoRep
  | StackedDRG512MiBV1P2_Feat_NiPoRep => Ok Api.StackedDrg512MiBV1_2_Feat_NonInteractivePoRep
  | StackedDRG32GiBV1P2_Feat_NiPoRep => Ok Api.StackedDrg32GiBV1_2_Feat_NonInteractivePoRep
  | StackedDRG64GiBV1P2_Feat_NiPoRep => Ok Api.StackedDrg64GiBV1_2_Feat_NonInteractivePoRep
  | SealInvalid _ => Err "unsupported proof type: {}"
  end.
Definition post_to_api (p : RegisteredPoStProof) : result string Api.PoStType :=
  match p with
  | StackedDRGWinning2KiBV1 => Ok Api.StackedDrgWinning2KiBV1
  | StackedDRGWinning8MiBV1 => Ok Api.StackedDrgWinning8MiBV1
  | StackedDRGWinning512MiBV1 => Ok Api.StackedDrgWinning512MiBV1
  | StackedDRGWinning32GiBV1 => Ok Api.StackedDrgWinning32GiBV1
  | StackedDRGWinning64GiBV1 => Ok Api.StackedDrgWinning64GiBV1
  | StackedDRGWindow2KiBV1P1 => Ok Api.StackedDrgWindow2KiBV1_2
  | StackedDRGWindow8MiBV1P1 => Ok Api.StackedDrgWindow8MiBV1_2
  | StackedDRGWindow512MiBV1P1 => Ok Api.StackedDrgWindow512MiBV1_2
  | StackedDRGWindow32GiBV1P1 => Ok Api.StackedDrgWindow32GiBV1_2
  | StackedDRGWindow64GiBV1P1 => Ok Api.StackedDrgWindow64GiBV1_2
  | PoStInvalid _ => Err "unsupported proof type: {}"
  end.
Definition update_to_api (p : RegisteredUpdateProof) : result string Api.UpdateProof :=
  match p with
  | UpdateStackedDRG2KiBV1 => Ok Api.StackedDrg2KiBV1u
  | UpdateStackedDRG8MiBV1 => Ok Api.StackedDrg8MiBV1u
  | UpdateStackedDRG512MiBV1 => Ok Api.StackedDrg512MiBV1u
  | UpdateStackedDRG32GiBV1 => Ok Api.StackedDrg32GiBV1u
  | UpdateStackedDRG64GiBV1 => Ok Api.StackedDrg64GiBV1u
  | UpdateInvalid _ => Err "unsupported proof type: {}"
  end.

(** ** What is to be verified (sector/post.rs, sector/seal.rs) *)

Record SectorID := mkSectorID { sid_miner : ActorID; sid_number : SectorNumber }.
Record SectorInfo := mkSectorInfo {
  si_proof : RegisteredSealProof; si_sector_number : SectorNumber; si_sealed_cid : Cid }.
Record PoStProof := mkPoStProof { pp_post_proof : RegisteredPoStProof; pp_proof_bytes : bytes }.
Record WindowPoStVerifyInfo := mkWindowPoStVerifyInfo {
  wp_randomness : bytes;
  wp_proofs : list PoStProof;
  wp_challenged_sectors : list SectorInfo;
  wp_prover : ActorID;
}.
Record SealVerifyInfo := mkSealVerifyInfo {
  sv_registered_proof : RegisteredSealProof;
  sv_sector_id : SectorID;
  sv_deal_ids : list Z;
  sv_randomness : bytes;
  sv_interactive_randomness : bytes;
  sv_proof : bytes;
  sv_sealed_cid : Cid;
  sv_unsealed_cid : Cid;
}.
Record AggregateSealVerifyInfo := mkAggregateSealVerifyInfo {
  av_sector_number : SectorNumber;
  av_randomness : bytes;
  av_interactive_randomness : bytes;
  av_sealed_cid : Cid;
  av_unsealed_cid : Cid;
}.
Record AggregateSealVerifyProofAndInfos := mkAggregateSealVerifyProofAndInfos {
  ag_miner : ActorID;
  ag_seal_proof : RegisteredSealProof;
  ag_aggregate_proof : RegisteredAggregateProof;
  ag_proof : bytes;
  ag_infos : list AggregateSealVerifyInfo;
}.
Record ReplicaUpdateInfo := mkReplicaUpdateInfo {
  ru_update_proof_type : RegisteredUpdateProof;
  ru_old_sealed_cid : Cid;
  ru_new_sealed_cid : Cid;
  ru_new_unsealed_cid : Cid;
  ru_proof : bytes;
}.

(** ** Commitments as CIDs (commcid/mod.rs) *)

Definition POSEIDON_BLS12_381_A1_FC1 : Z := 0xb401.
Definition SHA2_256_TRUNC254_PADDED : Z := 0x1012.

Definition validate_filecoin_cid_segments (mc mh : Z) (comm_x : bytes) : result string unit :=
  let len_ok := if negb (Z.of_nat (length comm_x) =? 32)
    then Err "commitments must be 32 bytes long"%string else Ok tt in
  if mc =? FIL_COMMITMENT_UNSEALED then
    if negb (mh =? SHA2_256_TRUNC254_PADDED)
    then Err "Incorrect hash function for unsealed commitment"%string else len_ok
  else if mc =? FIL_COMMITMENT_SEALED then
    if negb (mh =? POSEIDON_BLS12_381_A1_FC1)
    then Err "Incorrect hash function for sealed commitment"%string else len_ok
  else Err "Invalid Codec, expected sealed or unsealed commitment codec"%string.

(** [Multihash::wrap] has room for 64 bytes, so it takes any valid commitment. *)
Definition commitment_to_cid (mc mh : Z) (commitment : bytes) : result string Cid :=
  rbind (validate_filecoin_cid_segments mc mh commitment) (λ _, Ok (mkCid mc mh commitment)).
Definition cid_to_commitment (c : Cid) : result string (Z * Z * bytes) :=
  rbind (validate_filecoin_cid_segments (cid_codec c) (cid_hash_code c) (cid_digest c))
    (λ _, Ok (cid_codec c, cid_hash_code c, cid_digest c)).

Definition data_commitment_v1_to_cid (comm_d : bytes) : result string Cid :=
  commitment_to_cid FIL_COMMITMENT_UNSEALED SHA2_256_TRUNC254_PADDED comm_d.
Definition cid_to_data_commitment_v1 (c : Cid) : result string bytes :=
  rbind (cid_to_commitment c) (λ '(codec, _, comm_d),
    if negb (codec =? FIL_COMMITMENT_UNSEALED)
    then Err "data commitment codec must be Unsealed"%string else Ok comm_d).
Definition replica_commitment_v1_to_cid (comm_r : bytes) : result string Cid :=
  commitment_to_cid FIL_COMMITMENT_SEALED POSEIDON_BLS12_381_A1_FC1 comm_r.
Definition cid_to_replica_commitment_v1 (c : Cid) : result string bytes :=
  rbind (cid_to_commitment c) (λ '(codec, _, comm_r),
    if negb (codec =? FIL_COMMITMENT_SEALED)
    then Err "data commitment codec must be Sealed"%string else Ok comm_r).
Definition piece_commitment_v1_to_cid (comm_p : bytes) : result string Cid :=
  data_commitment_v1_to_cid comm_p.
Definition cid_to_piece_commitment_v1 (c : Cid) : result string bytes :=
  cid_to_data_commitment_v1 c.

(** ** Pieces (piece/mod.rs, piece/zero.rs) *)

(** [u64::trailing_zeros] and [u64::count_ones]. *)
Fixpoint pos_trailing_zeros (p : positive) : Z :=
  match p with xO p => 1 + pos_trailing_zeros p | _ => 0 end.
Definition trailing_zeros (x : Z) : Z :=
  match x with Zpos p => pos_trailing_zeros p | _ => 64 end.
Fixpoint pos_count_ones (p : positive) : nat :=
  match p with xH => 1 | xO p => pos_count_ones p | xI p => S (pos_count_ones p) end.
Definition u64_count_ones (x : Z) : nat := match x with Zpos p => pos_count_ones p | _ => 0%nat end.

(** [PaddedPieceSize] and [UnpaddedPieceSize] wrap a [u64]. *)
Definition padded (unpadded : Z) : Z := wrap64 (unpadded + unpadded / 127).
Definition unpadded (padded : Z) : Z := padded - padded / 128.
Definition unpadded_validate (s : Z) : result string unit :=
  if s <? 127 then Err "minimum piece size is 127 bytes"%string
  else if negb (Z.shiftr s (trailing_zeros s) =? 127)
  then Err "unpadded piece size must be a power of 2 multiple of 127"%string else Ok tt.
Definition padded_validate (s : Z) : result string unit :=
  if s <? 128 then Err "minimum piece size is 128 bytes"%string
  else if negb (u64_count_ones s =? 1)%nat
  then Err "padded piece size must be a power of 2"%string else Ok tt.

Record PieceInfo := mkPieceInfo { pi_size : Z; pi_cid : Cid }.

(** [filecoin_proofs_api::PieceInfo]: commitment and unpadded size. *)
Record ApiPieceInfo := mkApiPieceInfo { api_commitment : bytes; api_size : Z }.

Definition piece_to_api (p : PieceInfo) : result string ApiPieceInfo :=
  rbind (cid_to_piece_commitment_v1 (pi_cid p))
    (λ commitment, Ok (mkApiPieceInfo commitment (unpadded (pi_size p)))).

Definition LEVELS : Z := 37.
Definition SKIP : Z := 2.
Definition PIECE_COMMS : list bytes :=
  [
   [0x37; 0x31; 0xbb; 0x99; 0xac; 0x68; 0x9f; 0x66; 0xee; 0xf5; 0x97; 0x3e; 0x4a; 0x94; 0xda; 0x18;
    0x8f; 0x4d; 0xdc; 0xae; 0x58; 0x7; 0x24; 0xfc; 0x6f; 0x3f; 0xd6; 0xd; 0xfd; 0x48; 0x83; 0x33];
   [0x64; 0x2a; 0x60; 0x7e; 0xf8; 0x86; 0xb0; 0x4; 0xbf; 0x2c; 0x19; 0x78; 0x46; 0x3a; 0xe1; 0xd4;
    0x69; 0x3a; 0xc0; 0xf4; 0x10; 0xeb; 0x2d; 0x1b; 0x7a; 0x47; 0xfe; 0x20; 0x5e; 0x5e; 0x75; 0xf];
   [0x57; 0xa2; 0x38; 0x1a; 0x28; 0x65; 0x2b; 0xf4; 0x7f; 0x6b; 0xef; 0x7a; 0xca; 0x67; 0x9b; 0xe4;
    0xae; 0xde; 0x58; 0x71; 0xab; 0x5c; 0xf3; 0xeb; 0x2c; 0x8; 0x11; 0x44; 0x88; 0xcb; 0x85; 0x26];
   [0x1f; 0x7a; 0xc9; 0x59; 0x55; 0x10; 0xe0; 0x9e; 0xa4; 0x1c; 0x46; 0xb; 0x17; 0x64; 0x30; 0xbb;
    0x32; 0x2c; 0xd6; 0xfb; 0x41; 0x2e; 0xc5; 0x7c; 0xb1; 0x7d; 0x98; 0x9a; 0x43; 0x10; 0x37; 0x2f];
   [0xfc; 0x7e; 0x92; 0x82; 0x96; 0xe5; 0x16; 0xfa; 0xad; 0xe9; 0x86; 0xb2; 0x8f; 0x92; 0xd4; 0x4a;
    0x4f; 0x24; 0xb9; 0x35; 0x48; 0x52; 0x23; 0x37; 0x6a; 0x79; 0x90; 0x27; 0xbc; 0x18; 0xf8; 0x33];
   [0x8; 0xc4; 0x7b; 0x38; 0xee; 0x13; 0xbc; 0x43; 0xf4; 0x1b; 0x91; 0x5c; 0xe; 0xed; 0x99; 0x11;
    0xa2; 0x60; 0x86; 0xb3; 0xed; 0x62; 0x40; 0x1b; 0xf9; 0xd5; 0x8b; 0x8d; 0x19; 0xdf; 0xf6; 0x24];
   [0xb2; 0xe4; 0x7b; 0xfb; 0x11; 0xfa; 0xcd; 0x94; 0x1f; 0x62; 0xaf; 0x5c; 0x75; 0xf; 0x3e; 0xa5;
    0xcc; 0x4d; 0xf5; 0x17; 0xd5; 0xc4; 0xf1; 0x6d; 0xb2; 0xb4; 0xd7; 0x7b; 0xae; 0xc1; 0xa3; 0x2f];
   [0xf9; 0x22; 0x61; 0x60; 0xc8; 0xf9; 0x27; 0xbf; 0xdc; 0xc4; 0x18; 0xcd; 0xf2; 0x3; 0x49; 0x31;
    0x46; 0x0; 0x8e; 0xae; 0xfb; 0x7d; 0x2; 0x19; 0x4d; 0x5e; 0x54; 0x81; 0x89; 0x0; 0x51; 0x8];
   [0x2c; 0x1a; 0x96; 0x4b; 0xb9; 0xb; 0x59; 0xeb; 0xfe; 0xf; 0x6d; 0xa2; 0x9a; 0xd6; 0x5a; 0xe3;
    0xe4; 0x17; 0x72; 0x4a; 0x8f; 0x7c; 0x11; 0x74; 0x5a; 0x40; 0xca; 0xc1; 0xe5; 0xe7; 0x40; 0x11];
   [0xfe; 0xe3; 0x78; 0xce; 0xf1; 0x64; 0x4; 0xb1; 0x99; 0xed; 0xe0; 0xb1; 0x3e; 0x11; 0xb6; 0x24;
    0xff; 0x9d; 0x78; 0x4f; 0xbb; 0xed; 0x87; 0x8d; 0x83; 0x29; 0x7e; 0x79; 0x5e; 0x2; 0x4f; 0x2];
   [0x8e; 0x9e; 0x24; 0x3; 0xfa; 0x88; 0x4c; 0xf6; 0x23; 0x7f; 0x60; 0xdf; 0x25; 0xf8; 0x3e; 0xe4;
    0xd; 0xca; 0x9e; 0xd8; 0x79; 0xeb; 0x6f; 0x63; 0x52; 0xd1; 0x50; 0x84; 0xf5; 0xad; 0xd; 0x3f];
   [0x75; 0x2d; 0x96; 0x93; 0xfa; 0x16; 0x75; 0x24; 0x39; 0x54; 0x76; 0xe3; 0x17; 0xa9; 0x85; 0x80;
    0xf0; 0x9; 0x47; 0xaf; 0xb7; 0xa3; 0x5; 0x40; 0xd6; 0x25; 0xa9; 0x29; 0x1c; 0xc1; 0x2a; 0x7];
   [0x70; 0x22; 0xf6; 0xf; 0x7e; 0xf6; 0xad; 0xfa; 0x17; 0x11; 0x7a; 0x52; 0x61; 0x9e; 0x30; 0xce;
    0xa8; 0x2c; 0x68; 0x7; 0x5a; 0xdf; 0x1c; 0x66; 0x77; 0x86; 0xec; 0x50; 0x6e; 0xef; 0x2d; 0x19];
   [0xd9; 0x98; 0x87; 0xb9; 0x73; 0x57; 0x3a; 0x96; 0xe1; 0x13; 0x93; 0x64; 0x52; 0x36; 0xc1; 0x7b;
    0x1f; 0x4c; 0x70; 0x34; 0xd7; 0x23; 0xc7; 0xa9; 0x9f; 0x70; 0x9b; 0xb4; 0xda; 0x61; 0x16; 0x2b];
   [0xd0; 0xb5; 0x30; 0xdb; 0xb0; 0xb4; 0xf2; 0x5c; 0x5d; 0x2f; 0x2a; 0x28; 0xdf; 0xee; 0x80; 0x8b;
    0x53; 0x41; 0x2a; 0x2; 0x93; 0x1f; 0x18; 0xc4; 0x99; 0xf5; 0xa2; 0x54; 0x8; 0x6b; 0x13; 0x26];
   [0x84; 0xc0; 0x42; 0x1b; 0xa0; 0x68; 0x5a; 0x1; 0xbf; 0x79; 0x5a; 0x23; 0x44; 0x6; 0x4f; 0xe4;
    0x24; 0xbd; 0x52; 0xa9; 0xd2; 0x43; 0x77; 0xb3; 0x94; 0xff; 0x4c; 0x4b; 0x45; 0x68; 0xe8; 0x11];
   [0x65; 0xf2; 0x9e; 0x5d; 0x98; 0xd2; 0x46; 0xc3; 0x8b; 0x38; 0x8c; 0xfc; 0x6; 0xdb; 0x1f; 0x6b;
    0x2; 0x13; 0x3; 0xc5; 0xa2; 0x89; 0x0; 0xb; 0xdc; 0xe8; 0x32; 0xa9; 0xc3; 0xec; 0x42; 0x1c];
   [0xa2; 0x24; 0x75; 0x8; 0x28; 0x58; 0x50; 0x96; 0x5b; 0x7e; 0x33; 0x4b; 0x31; 0x27; 0xb0; 0xc0;
    0x42; 0xb1; 0xd0; 0x46; 0xdc; 0x54; 0x40; 0x21; 0x37; 0x62; 0x7c; 0xd8; 0x79; 0x9c; 0xe1; 0x3a];
   [0xda; 0xfd; 0xab; 0x6d; 0xa9; 0x36; 0x44; 0x53; 0xc2; 0x6d; 0x33; 0x72; 0x6b; 0x9f; 0xef; 0xe3;
    0x43; 0xbe; 0x8f; 0x81; 0x64; 0x9e; 0xc0; 0x9; 0xaa; 0xd3; 0xfa; 0xff; 0x50; 0x61; 0x75; 0x8];
   [0xd9; 0x41; 0xd5; 0xe0; 0xd6; 0x31; 0x4a; 0x99; 0x5c; 0x33; 0xff; 0xbd; 0x4f; 0xbe; 0x69; 0x11;
    0x8d; 0x73; 0xd4; 0xe5; 0xfd; 0x2c; 0xd3; 0x1f; 0xf; 0x7c; 0x86; 0xeb; 0xdd; 0x14; 0xe7; 0x6];
   [0x51; 0x4c; 0x43; 0x5c; 0x3d; 0x4; 0xd3; 0x49; 0xa5; 0x36; 0x5f; 0xbd; 0x59; 0xff; 0xc7; 0x13;
    0x62; 0x91; 0x11; 0x78; 0x59; 0x91; 0xc1; 0xa3; 0xc5; 0x3a; 0xf2; 0x20; 0x79; 0x74; 0x1a; 0x2f];
   [0xad; 0x6; 0x85; 0x39; 0x69; 0xd3; 0x7d; 0x34; 0xff; 0x8; 0xe0; 0x9f; 0x56; 0x93; 0xa; 0x4a;
    0xd1; 0x9a; 0x89; 0xde; 0xf6; 0xc; 0xbf; 0xee; 0x7e; 0x1d; 0x33; 0x81; 0xc1; 0xe7; 0x1c; 0x37];
   [0x39; 0x56; 0xe; 0x7b; 0x13; 0xa9; 0x3b; 0x7; 0xa2; 0x43; 0xfd; 0x27; 0x20; 0xff; 0xa7; 0xcb;
    0x3e; 0x1d; 0x2e; 0x50; 0x5a; 0xb3; 0x62; 0x9e; 0x79; 0xf4; 0x63; 0x13; 0x51; 0x2c; 0xda; 0x6];
   [0xcc; 0xc3; 0xc0; 0x12; 0xf5; 0xb0; 0x5e; 0x81; 0x1a; 0x2b; 0xbf; 0xdd; 0xf; 0x68; 0x33; 0xb8;
    0x42; 0x75; 0xb4; 0x7b; 0xf2; 0x29; 0xc0; 0x5; 0x2a; 0x82; 0x48; 0x4f; 0x3c; 0x1a; 0x5b; 0x3d];
   [0x7d; 0xf2; 0x9b; 0x69; 0x77; 0x31; 0x99; 0xe8; 0xf2; 0xb4; 0xb; 0x77; 0x91; 0x9d; 0x4; 0x85;
    0x9; 0xee; 0xd7; 0x68; 0xe2; 0xc7; 0x29; 0x7b; 0x1f; 0x14; 0x37; 0x3; 0x4f; 0xc3; 0xc6; 0x2c];
   [0x66; 0xce; 0x5; 0xa3; 0x66; 0x75; 0x52; 0xcf; 0x45; 0xc0; 0x2b; 0xcc; 0x4e; 0x83; 0x92; 0x91;
    0x9b; 0xde; 0xac; 0x35; 0xde; 0x2f; 0xf5; 0x62; 0x71; 0x84; 0x8e; 0x9f; 0x7b; 0x67; 0x51; 0x7];
   [0xd8; 0x61; 0x2; 0x18; 0x42; 0x5a; 0xb5; 0xe9; 0x5b; 0x1c; 0xa6; 0x23; 0x9d; 0x29; 0xa2; 0xe4;
    0x20; 0xd7; 0x6; 0xa9; 0x6f; 0x37; 0x3e; 0x2f; 0x9c; 0x9a; 0x91; 0xd7; 0x59; 0xd1; 0x9b; 0x1];
   [0x6d; 0x36; 0x4b; 0x1e; 0xf8; 0x46; 0x44; 0x1a; 0x5a; 0x4a; 0x68; 0x86; 0x23; 0x14; 0xac; 0xc0;
    0xa4; 0x6f; 0x1; 0x67; 0x17; 0xe5; 0x34; 0x43; 0xe8; 0x39; 0xee; 0xdf; 0x83; 0xc2; 0x85; 0x3c];
   [0x7; 0x7e; 0x5f; 0xde; 0x35; 0xc5; 0xa; 0x93; 0x3; 0xa5; 0x50; 0x9; 0xe3; 0x49; 0x8a; 0x4e;
    0xbe; 0xdf; 0xf3; 0x9c; 0x42; 0xb7; 0x10; 0xb7; 0x30; 0xd8; 0xec; 0x7a; 0xc7; 0xaf; 0xa6; 0x3e];
   [0xe6; 0x40; 0x5; 0xa6; 0xbf; 0xe3; 0x77; 0x79; 0x53; 0xb8; 0xad; 0x6e; 0xf9; 0x3f; 0xf; 0xca;
    0x10; 0x49; 0xb2; 0x4; 0x16; 0x54; 0xf2; 0xa4; 0x11; 0xf7; 0x70; 0x27; 0x99; 0xce; 0xce; 0x2];
   [0x25; 0x9d; 0x3d; 0x6b; 0x1f; 0x4d; 0x87; 0x6d; 0x11; 0x85; 0xe1; 0x12; 0x3a; 0xf6; 0xf5; 0x50;
    0x1a; 0xf0; 0xf6; 0x7c; 0xf1; 0x5b; 0x52; 0x16; 0x25; 0x5b; 0x7b; 0x17; 0x8d; 0x12; 0x5; 0x1d];
   [0x3f; 0x9a; 0x4d; 0x41; 0x1d; 0xa4; 0xef; 0x1b; 0x36; 0xf3; 0x5f; 0xf0; 0xa1; 0x95; 0xae; 0x39;
    0x2a; 0xb2; 0x3f; 0xee; 0x79; 0x67; 0xb7; 0xc4; 0x1b; 0x3; 0xd1; 0x61; 0x3f; 0xc2; 0x92; 0x39];
   [0xfe; 0x4e; 0xf3; 0x28; 0xc6; 0x1a; 0xa3; 0x9c; 0xfd; 0xb2; 0x48; 0x4e; 0xaa; 0x32; 0xa1; 0x51;
    0xb1; 0xfe; 0x3d; 0xfd; 0x1f; 0x96; 0xdd; 0x8c; 0x97; 0x11; 0xfd; 0x86; 0xd6; 0xc5; 0x81; 0x13];
   [0xf5; 0x5d; 0x68; 0x90; 0xe; 0x2d; 0x83; 0x81; 0xec; 0xcb; 0x81; 0x64; 0xcb; 0x99; 0x76; 0xf2;
    0x4b; 0x2d; 0xe0; 0xdd; 0x61; 0xa3; 0x1b; 0x97; 0xce; 0x6e; 0xb2; 0x38; 0x50; 0xd5; 0xe8; 0x19];
   [0xaa; 0xaa; 0x8c; 0x4c; 0xb4; 0xa; 0xac; 0xee; 0x1e; 0x2; 0xdc; 0x65; 0x42; 0x4b; 0x2a; 0x6c;
    0x8e; 0x99; 0xf8; 0x3; 0xb7; 0x2f; 0x79; 0x29; 0xc4; 0x10; 0x1d; 0x7f; 0xae; 0x6b; 0xff; 0x32]
  ].

(** [None] is the panic of the index, also when the subtraction wraps. *)
Definition zero_piece_commitment (sz : Z) : option bytes :=
  let level := trailing_zeros sz - SKIP - 5 in
  if level <? 0 then None else PIECE_COMMS !! Z.to_nat level.

(** ** Proof types *)

(** Every number survives decoding and encoding, known or not. *)
Lemma seal_wire v : seal_to_i64 (seal_from_i64 v) = v.
Proof. destruct v as [|p|p]; [done| |done]. do 5 (destruct p as [p|p|]; try done). Qed.
Lemma post_wire v : post_to_i64 (post_from_i64 v) = v.
Proof. destruct v as [|p|p]; [done| |done]. do 5 (destruct p as [p|p|]; try done). Qed.
Lemma aggregate_wire v : aggregate_to_i64 (aggregate_from_i64 v) = v.
Proof. destruct v as [|p|p]; [done| |done]. do 5 (destruct p as [p|p|]; try done). Qed.
Lemma update_wire v : update_to_i64 (update_from_i64 v) = v.
Proof. destruct v as [|p|p]; [done| |done]. do 5 (destruct p as [p|p|]; try done). Qed.

(** [Invalid] is decoded exactly from the numbers without a proof type. *)
Definition seal_known (p : RegisteredSealProof) : bool :=
  match p with SealInvalid _ => false | _ => true end.
Lemma seal_of_wire p : seal_known p → seal_from_i64 (seal_to_i64 p) = p.
Proof. by destruct p. Qed.
Lemma seal_known_iff v : seal_known (seal_from_i64 v) ↔ 0 ≤ v ≤ 19.
Proof. destruct v as [|p|p]; [split; [lia|done]| |split; [done|lia]]. do 5 (destruct p as [p|p|]; try (split; [lia|done])); split; (done || lia). Qed.

(** What is derived from a known seal proof agrees with what it is derived from. *)
Lemma seal_proof_sizes p :
  match registered_window_post_proof p, registered_update_proof p, seal_to_api p with
  | Ok post, Ok _, Ok _ =>
      seal_known p = true ∧ post_sector_size post = sector_size p ∧
      post_window_post_partition_sectors post = window_post_partition_sectors p ∧
      is_Some (match seal_proof_size p with Ok n => Some n | Err _ => None end)
  | Err _, Err _, Err _ =>
      seal_known p = false ∧ (∃ e, sector_size p = Err e) ∧
      (∃ e, window_post_partition_sectors p = Err e) ∧ (∃ e, seal_proof_size p = Err e)
  | _, _, _ => False
  end.
Proof. destruct p; simpl; split_and!; eauto. Qed.
Lemma from_sector_size_size s nv : sector_size (from_sector_size s nv) = Ok s.
Proof. unfold from_sector_size. destruct (nv <? 7), s; done. Qed.
Lemma update_to_v1_size p : sector_size (update_to_v1 p) = sector_size p.
Proof. by destruct p. Qed.

(** ** Commitments *)

Lemma validate_unsealed mh c :
  validate_filecoin_cid_segments FIL_COMMITMENT_UNSEALED mh c = Ok tt ↔
  mh = SHA2_256_TRUNC254_PADDED ∧ length c = 32%nat.
Proof.
  unfold validate_filecoin_cid_segments. rewrite Z.eqb_refl.
  destruct (Z.eqb_spec mh SHA2_256_TRUNC254_PADDED), (Z.eqb_spec (Z.of_nat (length c)) 32); naive_solver lia.
Qed.
Lemma validate_sealed mh c :
  validate_filecoin_cid_segments FIL_COMMITMENT_SEALED mh c = Ok tt ↔
  mh = POSEIDON_BLS12_381_A1_FC1 ∧ length c = 32%nat.
Proof.
  unfold validate_filecoin_cid_segments. simpl.
  destruct (Z.eqb_spec mh POSEIDON_BLS12_381_A1_FC1), (Z.eqb_spec (Z.of_nat (length c)) 32); naive_solver lia.
Qed.

(** Commitments and their CIDs: each way accepts exactly 32 bytes under the
    matching codec and hash code, and inverts the other. *)
Lemma data_commitment_iff k c :
  cid_to_data_commitment_v1 k = Ok c ↔
  length c = 32%nat ∧ k = mkCid FIL_COMMITMENT_UNSEALED SHA2_256_TRUNC254_PADDED c.
Proof.
  destruct k as [codec mh dig]. unfold cid_to_data_commitment_v1, cid_to_commitment. cbn [cid_codec cid_hash_code cid_digest].
  destruct (decide (codec = FIL_COMMITMENT_UNSEALED)) as [->|Hne].
  - destruct (validate_filecoin_cid_segments _ _ _) as [[]|e] eqn:Ev; simpl.
    + apply validate_unsealed in Ev as [-> Hl]. naive_solver.
    + split; [done|]. intros [Hl [= -> ->]]. by rewrite (proj2 (validate_unsealed _ c)) in Ev.
  - split; [|naive_solver]. destruct (validate_filecoin_cid_segments _ _ _) as [[]|e]; simpl; [|done].
    destruct (Z.eqb_spec codec FIL_COMMITMENT_UNSEALED); naive_solver.
Qed.
Lemma replica_commitment_iff k c :
  cid_to_replica_commitment_v1 k = Ok c ↔
  length c = 32%nat ∧ k = mkCid FIL_COMMITMENT_SEALED POSEIDON_BLS12_381_A1_FC1 c.
Proof.
  destruct k as [codec mh dig]. unfold cid_to_replica_commitment_v1, cid_to_commitment. cbn [cid_codec cid_hash_code cid_digest].
  destruct (decide (codec = FIL_COMMITMENT_SEALED)) as [->|Hne].
  - destruct (validate_filecoin_cid_segments _ _ _) as [[]|e] eqn:Ev; simpl.
    + apply validate_sealed in Ev as [-> Hl]. naive_solver.
    + split; [done|]. intros [Hl [= -> ->]]. by rewrite (proj2 (validate_sealed _ c)) in Ev.
  - split; [|naive_solver]. destruct (validate_filecoin_cid_segments _ _ _) as [[]|e]; simpl; [|done].
    destruct (Z.eqb_spec codec FIL_COMMITMENT_SEALED); naive_solver.
Qed.
Lemma data_commitment_to_cid_iff k c :
  data_commitment_v1_to_cid c = Ok k ↔ cid_to_data_commitment_v1 k = Ok c.
Proof.
  rewrite data_commitment_iff. unfold data_commitment_v1_to_cid, commitment_to_cid.
  destruct (validate_filecoin_cid_segments _ _ _) as [[]|e] eqn:Ev; simpl.
  - apply validate_unsealed in Ev as [_ Hl]. naive_solver.
  - split; [done|]. intros [Hl ->]. by rewrite (proj2 (validate_unsealed _ c)) in Ev.
Qed.
Lemma replica_commitment_to_cid_iff k c :
  replica_commitment_v1_to_cid c = Ok k ↔ cid_to_replica_commitment_v1 k = Ok c.
Proof.
  rewrite replica_commitment_iff. unfold replica_commitment_v1_to_cid, commitment_to_cid.
  destruct (validate_filecoin_cid_segments _ _ _) as [[]|e] eqn:Ev; simpl.
  - apply validate_sealed in Ev as [_ Hl]. naive_solver.
  - split; [done|]. intros [Hl ->]. by rewrite (proj2 (validate_sealed _ c)) in Ev.
Qed.
