(* ===== verification/Proofs.v ===== *)
(** * Verification of storage proofs (fvm/src/kernel/filecoin.rs, the functions
    outside the kernel)

    What the kernel checks and converts before it asks the proofs library, and
    how the library's answers and panics come back. The library
    ([filecoin_proofs_api]) is the interface [ProofsApi]; everything it returns
    is an answer, an error text or a panic. *)

From S2P Require Import Prelude Effects Gas PriceList Address Types Sector.
From stdpp Require Import gmap strings list fin_maps.
From Stdlib Require Import ZArith Lia.
#[local] Open Scope Z_scope.

(** Code that returns [Result<A>] and may panic. *)
Inductive Unwind := Panic (msg : string) | Raise (e : ExecutionError).
Abbreviation Fallible := (result Unwind).

#[export] Instance result_ret E : MRet (result E) := λ A a, Ok a.
#[export] Instance result_bind E : MBind (result E) := λ A B k r, rbind r k.

Definition raise {A} (r : Result A) : Fallible A :=
  match r with Ok a => Ok a | Err e => Err (Raise e) end.
Definition or_panic {A} (msg : string) (o : option A) : Fallible A :=
  match o with Some a => Ok a | None => Err (Panic msg) end.
(** A library call: panics pass through, errors become illegal arguments. *)
Definition library {A} (r : option (result string A)) : Fallible A :=
  match r with Some r => raise (or_illegal_argument r) | None => Err (Panic "panic in the proofs library") end.

Definition catch_and_log_panic {A} (context : string) (f : Fallible A) : Result A :=
  match f with
  | Ok v => Ok v
  | Err (Raise e) => Err e
  | Err (Panic _) => Err (syscall_error IllegalArgument ("caught panic when " +:+ context +:+ ": {:?}"))
  end.

(** [ExecutionError::context]. *)
Definition err_context {A} (context : string) (f : Fallible A) : Fallible A :=
  match f with
  | Err (Raise (Syscall e)) =>
      Err (Raise (syscall_error (se_number e) (context +:+ ": " +:+ se_message e)))
  | Err (Raise (Fatal m)) => Err (Raise (Fatal (context +:+ ": " +:+ m)))
  | f => f
  end.

(** [Iterator::collect] into a [Result]: the first error wins. *)
Fixpoint collect {E A B} (f : A → result E B) (l : list A) : result E (list B) :=
  match l with
  | [] => Ok []
  | a :: l => b ← f a; bs ← collect f l; Ok (b :: bs)
  end.

Record PublicReplicaInfo := mkPublicReplicaInfo {
  pr_type : Api.PoStType; pr_commr : bytes }.

(** [filecoin_proofs_api]: [None] is a panic. *)
Class ProofsApi := {
  api_verify_window_post : bytes → list (Api.PoStType * bytes) →
    gmap Z PublicReplicaInfo → bytes → option (result string bool);
  (** proof type, commr, commd, prover, sector, ticket, seed, proof *)
  api_verify_seal : Api.SealProof → bytes → bytes → bytes → Z → bytes → bytes → bytes →
    option (result string bool);
  api_get_seal_inputs : Api.SealProof → bytes → bytes → bytes → Z → bytes → bytes →
    option (result string (list bytes));
  (** seal and aggregation type, proof, commrs, seeds, inputs *)
  api_verify_aggregate : Api.SealProof → Api.AggregationProof → bytes →
    list bytes → list bytes → list bytes → option (result string bool);
  (** type, proof, old and new commr, commd *)
  api_verify_update : Api.UpdateProof → bytes → bytes → bytes → bytes →
    option (result string bool);
  api_compute_comm_d : Api.SealProof → list ApiPieceInfo → option (result string bytes);
}.

(** [bytes_32] (ipld/encoding/src/bytes.rs): the copy panics on another length. *)
Definition bytes_32 (buf : bytes) : Fallible bytes :=
  or_panic "source slice length does not match destination slice length"
    (if (length buf =? 32)%nat then Some buf else None).

(** ** Padding of pieces *)

(** The turns of the loop: each takes the lowest bit of what is to be filled. *)
Fixpoint pad_loop (n : nat) (to_fill sum : Z) : list Z * Z :=
  match n with
  | O => ([], sum)
  | S n =>
      let next := trailing_zeros to_fill in
      let p_size := Z.shiftl 1 next in
      let '(pad_pieces, sum) := pad_loop n (Z.lxor to_fill p_size) (sum + p_size) in
      (p_size :: pad_pieces, sum)
  end.

(** The remainder by zero panics. *)
Definition get_required_padding (old_length new_piece_length : Z) : Fallible (list Z * Z) :=
  if new_piece_length =? 0
  then Err (Panic "attempt to calculate the remainder with a divisor of zero")
  else let to_fill := wrap64 (0 - old_length) mod new_piece_length in
       Ok (pad_loop (u64_count_ones to_fill) to_fill 0).

(** The closure [pad_to]: all-zero pieces appended, the running sum advanced. *)
Fixpoint pad_to (pads : list Z) (all_pieces : list ApiPieceInfo) (sum : Z)
    : Fallible (list ApiPieceInfo * Z) :=
  match pads with
  | [] => Ok (all_pieces, sum)
  | p :: pads =>
      commitment ← or_panic "index out of bounds" (zero_piece_commitment p);
      pad_to pads (all_pieces ++ [mkApiPieceInfo commitment (unpadded p)]) (wrap64 (sum + p))
  end.

Fixpoint add_pieces (pieces : list PieceInfo) (all_pieces : list ApiPieceInfo) (sum : Z)
    : Fallible (list ApiPieceInfo * Z) :=
  match pieces with
  | [] => Ok (all_pieces, sum)
  | p :: pieces =>
      '(ps, _) ← get_required_padding sum (pi_size p);
      '(all_pieces, sum) ← pad_to ps all_pieces sum;
      a ← raise (or_illegal_argument (piece_to_api p));
      add_pieces pieces (all_pieces ++ [a]) (wrap64 (sum + pi_size p))
  end.

(** The pieces handed to the library: all of the sector's space, in order. *)
Definition sector_pieces (pssize : Z) (pieces : list PieceInfo) : Fallible (list ApiPieceInfo) :=
  match pieces with
  | [] =>
      commitment ← or_panic "index out of bounds" (zero_piece_commitment pssize);
      Ok [mkApiPieceInfo commitment (unpadded pssize)]
  | _ =>
      '(all_pieces, sum) ← add_pieces pieces [] 0;
      '(ps, _) ← get_required_padding sum pssize;
      '(all_pieces, _) ← pad_to ps all_pieces sum;
      Ok all_pieces
  end.

Module Fil.
Section verification.
Context `{V : Varint} `{P : ProofsApi}.

Definition compute_unsealed_sector_cid (proof_type : RegisteredSealProof) (pieces : list PieceInfo)
    : Fallible Cid :=
  ssize ← raise (or_illegal_argument (sector_size proof_type));
  all_pieces ← sector_pieces (sector_bytes ssize) pieces;
  typ ← raise (or_illegal_argument (seal_to_api proof_type));
  comm_d ← library (api_compute_comm_d typ all_pieces);
  raise (or_illegal_argument (data_commitment_v1_to_cid comm_d)).

(** ** Verification *)

Definition check_valid_proof_type (post_type : RegisteredPoStProof) (seal_type : RegisteredSealProof)
    : bool :=
  match registered_window_post_proof seal_type with
  | Ok proof_type_v1p1 => bool_decide (proof_type_v1p1 = post_type)
  | Err _ => false
  end.

(** The id's bytes at the front of 32 zero bytes. *)
Definition prover_id_from_u64 (id : Z) : Fallible bytes :=
  let prover_bytes := to_raw_bytes (new_id id) in
  or_panic "range end index out of range"
    (if (length prover_bytes <=? 32)%nat
     then Some (prover_bytes ++ replicate (32 - length prover_bytes) 0) else None).

Definition public_replica (typ : RegisteredPoStProof) (sector_info : SectorInfo)
    : result string (Z * PublicReplicaInfo) :=
  commr ← cid_to_replica_commitment_v1 (si_sealed_cid sector_info);
  if negb (check_valid_proof_type typ (si_proof sector_info))
  then Err "invalid proof type"%string
  else t ← post_to_api typ;
       Ok (si_sector_number sector_info, mkPublicReplicaInfo t commr).

(** Collected into a [BTreeMap]: the last entry of a sector number stays. *)
Definition to_fil_public_replica_infos (src : list SectorInfo) (typ : RegisteredPoStProof)
    : Fallible (gmap Z PublicReplicaInfo) :=
  l ← raise (or_illegal_argument (collect (public_replica typ) src));
  Ok (list_to_map (reverse l)).

Definition same_types (proof_type : RegisteredPoStProof) (ps : list PoStProof) : bool :=
  forallb (λ p, bool_decide (pp_post_proof p = proof_type)) ps.

Definition verify_post (verify_info : WindowPoStVerifyInfo) : Fallible bool :=
  last ← or_panic "index out of bounds" (wp_randomness verify_info !! 31%nat);
  let randomness := <[31%nat := Z.land last 0x3f]> (wp_randomness verify_info) in
  first ← or_panic "index out of bounds" (head (wp_proofs verify_info));
  let proof_type := pp_post_proof first in
  if negb (same_types proof_type (wp_proofs verify_info))
  then Err (Raise (syscall_error IllegalArgument
         "all proof types must be the same (found both {:?} and {:?})"))
  else
    replicas ← to_fil_public_replica_infos (wp_challenged_sectors verify_info) proof_type;
    proofs ← raise (or_illegal_argument (collect
      (λ p, t ← post_to_api (pp_post_proof p); Ok (t, pp_proof_bytes p)) (wp_proofs verify_info)));
    prover_id ← prover_id_from_u64 (wp_prover verify_info);
    r ← bytes_32 randomness;
    library (api_verify_window_post r proofs replicas prover_id).

Definition verify_seal (vi : SealVerifyInfo) : Fallible bool :=
  commr ← raise (or_illegal_argument (cid_to_replica_commitment_v1 (sv_sealed_cid vi)));
  commd ← raise (or_illegal_argument (cid_to_data_commitment_v1 (sv_unsealed_cid vi)));
  prover_id ← prover_id_from_u64 (sid_miner (sv_sector_id vi));
  typ ← err_context "invalid proof type {:?}"
          (raise (or_illegal_argument (seal_to_api (sv_registered_proof vi))));
  ticket ← bytes_32 (sv_randomness vi);
  seed ← bytes_32 (sv_interactive_randomness vi);
  err_context "failed to verify seal proof"
    (library (api_verify_seal typ commr commd prover_id (sid_number (sv_sector_id vi)) ticket seed
                (sv_proof vi))).

Record AggregationInputs := mkAggregationInputs {
  ai_commr : bytes; ai_commd : bytes; ai_sector_id : Z; ai_ticket : bytes; ai_seed : bytes }.

(** The closure converts one info; its copies may panic, its CIDs may be wrong. *)
Definition aggregation_inputs (info : AggregateSealVerifyInfo) : Fallible AggregationInputs :=
  commr ← raise (or_illegal_argument (cid_to_replica_commitment_v1 (av_sealed_cid info)));
  commd ← raise (or_illegal_argument (cid_to_data_commitment_v1 (av_unsealed_cid info)));
  ticket ← bytes_32 (av_randomness info);
  seed ← bytes_32 (av_interactive_randomness info);
  Ok (mkAggregationInputs commr commd (av_sector_number info) ticket seed).

(** The parallel reduction concatenates in order; of several errors any one may
    be reported, here the first. *)
Definition verify_aggregate_seals (aggregate : AggregateSealVerifyProofAndInfos) : Fallible bool :=
  match ag_infos aggregate with
  | [] => Err (Raise (syscall_error IllegalArgument "no seal verify infos"))
  | _ =>
      spt ← raise (or_illegal_argument (seal_to_api (ag_seal_proof aggregate)));
      prover_id ← prover_id_from_u64 (ag_miner aggregate);
      inputs ← collect aggregation_inputs (ag_infos aggregate);
      inp ← collect (λ i, library (api_get_seal_inputs spt (ai_commr i) (ai_commd i) prover_id
                             (ai_sector_id i) (ai_ticket i) (ai_seed i))) inputs;
      agg ← raise (or_illegal_argument (aggregate_to_api (ag_aggregate_proof aggregate)));
      library (api_verify_aggregate spt agg (ag_proof aggregate)
                 (ai_commr <$> inputs) (ai_seed <$> inputs) (mjoin inp))
  end.

Definition verify_replica_update (replica : ReplicaUpdateInfo) : Fallible bool :=
  up ← raise (or_illegal_argument (update_to_api (ru_update_proof_type replica)));
  commr_old ← raise (or_illegal_argument (cid_to_replica_commitment_v1 (ru_old_sealed_cid replica)));
  commr_new ← raise (or_illegal_argument (cid_to_replica_commitment_v1 (ru_new_sealed_cid replica)));
  commd ← raise (or_illegal_argument (cid_to_data_commitment_v1 (ru_new_unsealed_cid replica)));
  library (api_verify_update up (ru_proof replica) commr_old commr_new commd).
End verification.
End Fil.

(** ** The layout of a sector

    [Pads off zs e]: the all-zero pieces [zs] fill the space from [off] to [e],
    each at an offset its own size divides. *)
Inductive Pads : Z → list ApiPieceInfo → Z → Prop :=
  | Pads_nil off : Pads off [] off
  | Pads_cons off k c zs e :
      7 ≤ k → (2 ^ k | off) → zero_piece_commitment (2 ^ k) = Some c →
      Pads (wrap64 (off + 2 ^ k)) zs e →
      Pads off (mkApiPieceInfo c (unpadded (2 ^ k)) :: zs) e.

(** [Layout pssize off ps out]: from [off] on, [out] places the pieces [ps] in
    order, each at the first offset that its size divides, and ends at the first
    multiple of the sector's size. Offsets are [u64]. *)
Inductive Layout (pssize : Z) : Z → list PieceInfo → list ApiPieceInfo → Prop :=
  | Layout_end off fill zs e :
      0 ≤ fill < pssize → e = wrap64 (off + fill) → (pssize | e) → Pads off zs e →
      Layout pssize off [] zs
  | Layout_piece off fill zs start p a ps out :
      0 ≤ fill < pi_size p → start = wrap64 (off + fill) → (pi_size p | start) → Pads off zs start →
      piece_to_api p = Ok a → Layout pssize (wrap64 (start + pi_size p)) ps out →
      Layout pssize off (p :: ps) (zs ++ a :: out).

(** Removing the lowest bit. *)
Lemma lowest_bit p : let k := pos_trailing_zeros p in
  0 ≤ k ∧ (2 ^ k | Z.pos p) ∧ Z.lxor (Z.pos p) (Z.shiftl 1 k) = Z.pos p - 2 ^ k ∧ 2 ^ k ≤ Z.pos p ∧
  S (u64_count_ones (Z.pos p - 2 ^ k)) = pos_count_ones p.
Proof.
  induction p as [p _|p IH|]; cbn [pos_trailing_zeros pos_count_ones].
  - split_and!; [lia|apply Z.divide_1_l|reflexivity|lia|reflexivity].
  - destruct IH as (Hk & [q Hq] & Hx & Hle & Hc). set (k := pos_trailing_zeros p) in *.
    rewrite Z.shiftl_mul_pow2, Z.mul_1_l in * by lia.
    rewrite Z.pow_add_r by lia. change (2 ^ 1) with 2. rewrite (Pos2Z.inj_xO p).
    split_and!; [lia|exists q; lia| |lia|].
    + replace (2 * Z.pos p) with (Z.shiftl (Z.pos p) 1) by (rewrite Z.shiftl_mul_pow2 by lia; lia).
      replace (2 * 2 ^ k) with (Z.shiftl (2 ^ k) 1) by (rewrite Z.shiftl_mul_pow2 by lia; lia).
      rewrite <-Z.shiftl_lxor, Hx, !Z.shiftl_mul_pow2 by lia. lia.
    + rewrite <-Hc. replace (2 * Z.pos p - 2 * 2 ^ k) with (2 * (Z.pos p - 2 ^ k)) by lia.
      by destruct (Z.pos p - 2 ^ k).
  - split_and!; [lia|apply Z.divide_1_l|reflexivity|lia|reflexivity].
Qed.

Lemma trailing_zeros_ge j p : (2 ^ j | Z.pos p) → j ≤ pos_trailing_zeros p.
Proof.
  revert j. induction p as [p _|p IH|]; intros j Hj; cbn [pos_trailing_zeros];
    destruct (Z.le_gt_cases j 0) as [?|Hgt]; try lia.
  - exfalso. destruct Hj as [q Hq]. replace j with (Z.succ (j - 1)) in Hq by lia. rewrite Z.pow_succ_r in Hq by lia. lia.
  - pose proof (proj1 (lowest_bit p)). lia.
  - enough (j - 1 ≤ pos_trailing_zeros p) by lia. apply IH. destruct Hj as [q Hq]. exists q.
    replace j with (Z.succ (j - 1)) in Hq by lia. rewrite Z.pow_succ_r in Hq by lia. lia.
  - exfalso. destruct Hj as [q Hq]. replace j with (Z.succ (j - 1)) in Hq by lia. rewrite Z.pow_succ_r in Hq by lia. lia.
Qed.

Lemma wrap64_divide d x : (d | 18446744073709551616) → (d | x) → (d | wrap64 x).
Proof.
  intros Hd Hx. unfold wrap64. rewrite Z.mod_eq by lia.
  apply Z.divide_sub_r; [done|]. by apply Z.divide_mul_l.
Qed.
Lemma wrap64_add_l a b : wrap64 (wrap64 a + b) = wrap64 (a + b).
Proof. unfold wrap64. by rewrite Zplus_mod_idemp_l. Qed.

Lemma pow2_divide j k : 0 ≤ j ≤ k → (2 ^ j | 2 ^ k).
Proof. intros. exists (2 ^ (k - j)). rewrite <-Z.pow_add_r by lia. f_equal. lia. Qed.
Lemma pow2_divide_u64 k : 0 ≤ k ≤ 64 → (2 ^ k | 18446744073709551616).
Proof. intros. change 18446744073709551616 with (2 ^ 64). by apply pow2_divide. Qed.
#[local] Hint Resolve pow2_divide_u64 : machine.

Lemma trailing_zeros_pow2 k : 0 ≤ k → trailing_zeros (2 ^ k) = k.
Proof.
  intros Hk. pattern k. apply natlike_ind; [done| |done]. intros x Hx IH.
  rewrite Z.pow_succ_r by done. pose proof (Z.pow_pos_nonneg 2 x ltac:(lia) Hx).
  destruct (2 ^ x) as [|p|p]; [lia| |lia]. change (2 * Z.pos p) with (Z.pos p~0).
  cbn [trailing_zeros pos_trailing_zeros] in *. lia.
Qed.
Lemma count_ones_pow2 s : 0 < s → u64_count_ones s = 1%nat ↔ ∃ k, 0 ≤ k ∧ s = 2 ^ k.
Proof.
  intros Hs. destruct s as [|p|p]; try lia. cbn [u64_count_ones]. split.
  - induction p as [p _|p IH|]; cbn [pos_count_ones]; intros Hc.
    + exfalso. assert (pos_count_ones p ≠ 0)%nat; [|lia]. clear. by induction p.
    + destruct (IH ltac:(lia) Hc) as (k & Hk & E). exists (k + 1).
      rewrite Z.pow_add_r, <-E by lia. lia.
    + by exists 0.
  - intros (k & Hk & E). revert p E Hs. pattern k. apply natlike_ind; [|intros x Hx IH|done].
    + intros p E _. by injection E as ->.
    + intros p E _. rewrite Z.pow_succ_r in E by done.
      destruct p as [p|p|]; [lia| |lia]. cbn [pos_count_ones]. apply IH; lia.
Qed.

(** All-zero commitments exist for the sizes from 128 bytes to 2 TiB. *)
Lemma zero_piece_commitment_some k : 7 ≤ k ≤ 41 → is_Some (zero_piece_commitment (2 ^ k)).
Proof.
  intros Hk. unfold zero_piece_commitment, SKIP. rewrite trailing_zeros_pow2 by lia.
  destruct (Z.ltb_spec (k - 2 - 5) 0); [lia|]. apply lookup_lt_is_Some. change (length PIECE_COMMS) with 35%nat. lia.
Qed.

(** The loop fills any number of whole 128-byte units, in aligned pieces. *)
Lemma pad_loop_pads m n t s off acc :
  0 ≤ m ≤ 42 → 0 ≤ t < 2 ^ m → (2 ^ m | off + t) → (2 ^ 7 | t) → u64_count_ones t = n → in_u64 off →
  ∃ zs, pad_to (pad_loop n t s).1 acc off = Ok (acc ++ zs, wrap64 (off + t)) ∧
    Pads off zs (wrap64 (off + t)).
Proof.
  revert t s off acc. induction n as [|n IH]; intros t s off acc Hm Ht Hd H7 Hn Hoff.
  - assert (t = 0) as ->. { destruct t; try lia; simpl in Hn. exfalso. revert Hn. clear. by induction p. }
    exists []. rewrite Z.add_0_r, app_nil_r. unfold wrap64. rewrite Z.mod_small by mlia.
    split; [done|constructor].
  - destruct t as [|p|p]; [done| |lia]. cbn [pad_loop trailing_zeros].
    destruct (lowest_bit p) as (Hk & Hkd & Hx & Hle & Hc). set (k := pos_trailing_zeros p) in *.
    cbn [u64_count_ones] in Hn. rewrite Hx. clear Hx. rewrite Z.shiftl_mul_pow2, Z.mul_1_l by lia.
    destruct (pad_loop n (Z.pos p - 2 ^ k) (s + 2 ^ k)) as [ps s'] eqn:El. cbn [fst pad_to].
    assert (k < m) as Hkm by (apply (Z.pow_lt_mono_r_iff 2); lia).
    assert (7 ≤ k) as Hk7 by (by apply trailing_zeros_ge).
    assert (2 ^ k | off) as Hoffk.
    { apply (Z.divide_add_cancel_r _ (Z.pos p)); [done|]. rewrite Z.add_comm.
      etrans; [|exact Hd]. apply pow2_divide. lia. }
    destruct (zero_piece_commitment_some k) as [c Ec]; [lia|]. rewrite Ec. simpl.
    destruct (IH (Z.pos p - 2 ^ k) (s + 2 ^ k) (wrap64 (off + 2 ^ k))
      (acc ++ [mkApiPieceInfo c (unpadded (2 ^ k))])) as (zs & Hp & Hl).
    + done.
    + pose proof (Z.pow_pos_nonneg 2 k ltac:(lia) Hk). lia.
    + unfold wrap64. rewrite Z.mod_eq by lia.
      replace (_ + (Z.pos p - 2 ^ k)) with (off + Z.pos p - 18446744073709551616 * ((off + 2 ^ k) / 18446744073709551616)) by lia.
      apply Z.divide_sub_r; [done|]. apply Z.divide_mul_l, pow2_divide_u64. lia.
    + apply Z.divide_sub_r; [done|]. apply pow2_divide. lia.
    + lia.
    + unfold wrap64. pose proof (Z.mod_pos_bound (off + 2 ^ k) 18446744073709551616). mlia.
    + rewrite El in Hp. simpl in Hp. rewrite wrap64_add_l in Hp, Hl.
      replace (off + 2 ^ k + (Z.pos p - 2 ^ k)) with (off + Z.pos p) in Hp, Hl by lia.
      exists (mkApiPieceInfo c (unpadded (2 ^ k)) :: zs). rewrite Hp, <-app_assoc. split; [done|].
      by eapply Pads_cons.
Qed.

(** From any offset in 128-byte units, padding reaches the first multiple of a
    power of two. *)
Lemma padding_spec m off acc :
  7 ≤ m ≤ 42 → (2 ^ 7 | off) → in_u64 off →
  ∃ ps s fill zs, get_required_padding off (2 ^ m) = Ok (ps, s) ∧ 0 ≤ fill < 2 ^ m ∧
    pad_to ps acc off = Ok (acc ++ zs, wrap64 (off + fill)) ∧
    (2 ^ m | wrap64 (off + fill)) ∧ Pads off zs (wrap64 (off + fill)).
Proof.
  intros Hm H7 Hoff. pose proof (Z.pow_pos_nonneg 2 m ltac:(lia) ltac:(lia)).
  unfold get_required_padding. destruct (Z.eqb_spec (2 ^ m) 0); [lia|].
  set (t := wrap64 (0 - off) mod 2 ^ m).
  assert (0 ≤ t < 2 ^ m) as Ht by (apply Z.mod_pos_bound; lia).
  assert (2 ^ m | off + t) as Hd.
  { unfold t, wrap64. rewrite Z.mod_mod_divide by (apply pow2_divide_u64; lia).
    apply Z.mod_divide; [lia|]. rewrite Zplus_mod_idemp_r. by replace (off + (0 - off)) with 0 by lia. }
  assert (2 ^ 7 | t) as Ht7.
  { unfold t. rewrite Z.mod_eq by lia. apply Z.divide_sub_r; [apply wrap64_divide|].
    - apply pow2_divide_u64. lia.
    - by apply Z.divide_sub_r; [apply Z.divide_0_r|].
    - apply Z.divide_mul_l, pow2_divide. lia. }
  destruct (pad_loop_pads m _ t 0 off acc ltac:(lia) Ht Hd Ht7 eq_refl Hoff) as (zs & Hp & Hl).
  destruct (pad_loop (u64_count_ones t) t 0) as [ps s]. exists ps, s, t, zs. split_and!; try done; [lia..|].
  apply wrap64_divide; [apply pow2_divide_u64; lia|done].
Qed.

(** A piece of a valid size no larger than [mx] whose CID is a piece commitment. *)
Definition good_piece (mx : Z) (p : PieceInfo) : Prop :=
  padded_validate (pi_size p) = Ok tt ∧ pi_size p ≤ mx ∧ ∃ c, cid_to_piece_commitment_v1 (pi_cid p) = Ok c.

Lemma padded_validate_pow2 s : padded_validate s = Ok tt ↔ ∃ k, 7 ≤ k ∧ s = 2 ^ k.
Proof.
  unfold padded_validate. destruct (Z.ltb_spec s 128) as [Hs|Hs].
  - split; [done|]. intros (k & Hk & ->). pose proof (Z.pow_le_mono_r 2 7 k ltac:(lia) Hk). lia.
  - transitivity (u64_count_ones s = 1%nat).
    { destruct (Nat.eqb_spec (u64_count_ones s) 1); naive_solver. }
    rewrite count_ones_pow2 by lia. split; intros (k & Hk & ->); exists k; (split; [|done]); [|lia].
    apply (Z.pow_le_mono_r_iff 2); lia.
Qed.
Lemma sector_bytes_pow2 s : ∃ k, 11 ≤ k ≤ 36 ∧ sector_bytes s = 2 ^ k.
Proof. destruct s; [exists 11|exists 23|exists 29|exists 35|exists 36]; (split; [lia|done]). Qed.
Lemma wrap64_in_u64 x : in_u64 (wrap64 x).
Proof. unfold wrap64. pose proof (Z.mod_pos_bound x 18446744073709551616). mlia. Qed.

(** Adding pieces keeps the offset in 128-byte units and extends the layout by
    whatever follows. *)
Lemma add_pieces_layout mx ps acc off :
  mx ≤ 2 ^ 42 → Forall (good_piece mx) ps → (2 ^ 7 | off) → in_u64 off →
  ∃ out e, add_pieces ps acc off = Ok (acc ++ out, e) ∧ (2 ^ 7 | e) ∧ in_u64 e ∧
    ∀ pssize rest, Layout pssize e [] rest → Layout pssize off ps (out ++ rest).
Proof.
  intros Hmx Hps. revert acc off. induction Hps as [|p ps (Hv & Hle & c & Hc) _ IH]; intros acc off H7 Hoff.
  - exists [], off. by rewrite app_nil_r.
  - apply padded_validate_pow2 in Hv as (m & Hm & Esz). cbn [add_pieces]. rewrite Esz in *.
    assert (m ≤ 42) by (apply (Z.pow_le_mono_r_iff 2); lia).
    destruct (padding_spec m off acc ltac:(lia) H7 Hoff) as (pads & s & fill & zs & -> & Hf & Hp & Hd & Hl).
    unfold mbind, result_bind. cbn [rbind]. rewrite Hp. cbn [rbind].
    assert (piece_to_api p = Ok (mkApiPieceInfo c (unpadded (pi_size p)))) as Ha
      by (unfold piece_to_api; by rewrite Hc).
    rewrite Ha. cbn [rbind raise or_illegal_argument or_error].
    destruct (IH ((acc ++ zs) ++ [mkApiPieceInfo c (unpadded (pi_size p))])
      (wrap64 (wrap64 (off + fill) + 2 ^ m))) as (out & e & Hadd & He7 & He & Hlay).
    { apply wrap64_divide; [apply pow2_divide_u64; lia|].
      apply Z.divide_add_r; [etrans; [|exact Hd]|]; apply pow2_divide; lia. }
    { apply wrap64_in_u64. }
    exists (zs ++ mkApiPieceInfo c (unpadded (pi_size p)) :: out), e. rewrite Hadd, <-!app_assoc.
    split_and!; try done. intros pssize rest Hr. rewrite <-app_assoc, <-app_comm_cons.
    eapply (Layout_piece _ off fill zs (wrap64 (off + fill)) p);
      [by rewrite Esz|done|by rewrite Esz|done|exact Ha|]. rewrite Esz. by apply Hlay.
Qed.

(** C35: the pieces of a sector are laid out without gaps. For pieces of valid
    sizes that fit the sector and have piece commitments, the kernel hands the
    proofs library, without panicking, the pieces in their order, each at the
    first offset its own size divides, with the space between them and up to a
    multiple of the sector's size filled by aligned all-zero pieces with their
    commitments; without pieces it hands over one all-zero piece of the whole
    sector. *)
Theorem sector_layout s ps (Hps : Forall (good_piece (sector_bytes s)) ps) :
  ∃ out, sector_pieces (sector_bytes s) ps = Ok out ∧
    match ps with
    | [] => ∃ c, zero_piece_commitment (sector_bytes s) = Some c ∧
              out = [mkApiPieceInfo c (unpadded (sector_bytes s))]
    | _ => Layout (sector_bytes s) 0 ps out
    end.
Proof.
  destruct (sector_bytes_pow2 s) as (m & Hm & Em). rewrite Em in *. destruct ps as [|p ps].
  - destruct (zero_piece_commitment_some m) as [c Hc]; [lia|]. unfold sector_pieces. rewrite Hc. simpl. eauto.
  - destruct (add_pieces_layout (2 ^ m) (p :: ps) [] 0) as (out & e & Hadd & He7 & He & Hlay).
    { apply Z.pow_le_mono_r; lia. } { done. } { apply Z.divide_0_r. } { mlia. }
    unfold sector_pieces. unfold mbind, result_bind. rewrite Hadd. cbn [rbind].
    destruct (padding_spec m e ([] ++ out) ltac:(lia) He7 He) as (pads & t & fill & zs & -> & Hf & Hp & Hd & Hl).
    cbn [rbind]. rewrite Hp. cbn [rbind]. eexists. split; [done|]. apply Hlay. by eapply Layout_end.
Qed.

Definition demo_piece (size : Z) : PieceInfo :=
  mkPieceInfo size (mkCid FIL_COMMITMENT_UNSEALED SHA2_256_TRUNC254_PADDED (replicate 32 1)).

Lemma sector_layout_witness :
  ∃ out, sector_pieces 2048 [demo_piece 128; demo_piece 512] = Ok out ∧
    Layout 2048 0 [demo_piece 128; demo_piece 512] out.
Proof.
  apply (sector_layout SS_2KiB [demo_piece 128; demo_piece 512]).
  repeat constructor; try (vm_compute; congruence); by exists (replicate 32 1).
Defined.

(** The sizes of that layout: a piece, the gap to offset 512 in two zero pieces,
    the second piece, and the second kilobyte. *)
Example layout_sizes :
  (match sector_pieces 2048 [demo_piece 128; demo_piece 512] with
   | Ok out => api_size <$> out
   | Err _ => []
   end) = [127; 127; 254; 508; 1016].
Proof. reflexivity. Qed.

(** A piece smaller than 128 bytes makes a zero commitment unavailable; the
    panic is caught and reported as an illegal argument. *)
Example small_piece_panics :
  sector_pieces 2048 [demo_piece 128; demo_piece 32; demo_piece 128] = Err (Panic "index out of bounds").
Proof. reflexivity. Qed.

(** ** What the library is asked

    Success of a chain of conversions, link by link. *)
Section fallible.
Context {E A B : Type}.
Lemma bind_Ok_iff (r : result E A) (k : A → result E B) b :
  (r ≫= k) = Ok b ↔ ∃ a, r = Ok a ∧ k a = Ok b.
Proof. unfold mbind, result_bind. destruct r; naive_solver. Qed.
Lemma raise_Ok_iff (r : Result A) a : raise r = Ok a ↔ r = Ok a.
Proof. destruct r; naive_solver. Qed.
Lemma illegal_Ok_iff (r : result string A) a : or_illegal_argument r = Ok a ↔ r = Ok a.
Proof. destruct r; naive_solver. Qed.
Lemma or_panic_Ok_iff msg (o : option A) a : or_panic msg o = Ok a ↔ o = Some a.
Proof. destruct o; naive_solver. Qed.
Lemma library_Ok_iff (r : option (result string A)) a : library r = Ok a ↔ r = Some (Ok a).
Proof. destruct r as [[|]|]; naive_solver. Qed.
Lemma err_context_Ok_iff msg (f : Fallible A) a : err_context msg f = Ok a ↔ f = Ok a.
Proof. destruct f as [|[|[]]]; naive_solver. Qed.
End fallible.

Lemma collect_Ok_iff {E A B} (f : A → result E B) l bs :
  collect f l = Ok bs ↔ Forall2 (λ a b, f a = Ok b) l bs.
Proof.
  revert bs. induction l as [|a l IH]; intros bs; cbn [collect].
  - split; [intros [= <-]; constructor|by intros ->%Forall2_nil_inv_l].
  - rewrite bind_Ok_iff. setoid_rewrite bind_Ok_iff. split.
    + intros (b & Hb & bs' & Hbs & [= <-]). constructor; [done|]. by apply IH.
    + intros (b & bs' & Hb & Hbs & ->)%Forall2_cons_inv_l. exists b. split; [done|]. exists bs'.
      split; [by apply IH|done].
Qed.

Lemma bytes_32_Ok_iff bz r : bytes_32 bz = Ok r ↔ r = bz ∧ length bz = 32%nat.
Proof.
  unfold bytes_32. rewrite or_panic_Ok_iff. destruct (Nat.eqb_spec (length bz) 32); naive_solver.
Qed.

Section asked.
Context `{V : Varint} `{P : ProofsApi}.

(** The prover's id: its varint, then zeros, 32 bytes in all. *)
Definition prover_bytes (id : Z) : bytes :=
  varint_encode id ++ replicate (32 - length (varint_encode id)) 0.

Lemma prover_id_Ok_iff id r :
  Fil.prover_id_from_u64 id = Ok r ↔ (length (varint_encode id) ≤ 32)%nat ∧ r = prover_bytes id.
Proof.
  unfold Fil.prover_id_from_u64, prover_bytes. simpl. unfold to_leb_bytes. rewrite or_panic_Ok_iff.
  destruct (Nat.leb_spec (length (varint_encode id)) 32); naive_solver lia.
Qed.

(** A sealed sector of the type a proof of spacetime is for. *)
Definition proven_sector (t : RegisteredPoStProof) (s : SectorInfo) : Prop :=
  registered_window_post_proof (si_proof s) = Ok t ∧
  ∃ commr, cid_to_replica_commitment_v1 (si_sealed_cid s) = Ok commr.

(** The replicas of sectors: by number, the last one given. *)
Definition replicas_of (at_ : Api.PoStType) (sectors : list SectorInfo)
    : gmap Z PublicReplicaInfo :=
  foldl (λ m s, <[si_sector_number s := mkPublicReplicaInfo at_ (cid_digest (si_sealed_cid s))]> m)
    ∅ sectors.

Lemma public_replica_Ok_iff t at_ s r (Hat : post_to_api t = Ok at_) :
  Fil.public_replica t s = Ok r ↔
  proven_sector t s ∧ r = (si_sector_number s, mkPublicReplicaInfo at_ (cid_digest (si_sealed_cid s))).
Proof.
  unfold Fil.public_replica, proven_sector, Fil.check_valid_proof_type. rewrite bind_Ok_iff.
  destruct (registered_window_post_proof (si_proof s)) as [t'|e];
    [|split; [by intros (?&?&?)|by intros [[??]?]]].
  rewrite Hat. destruct (decide (t' = t)) as [->|Hne].
  - rewrite bool_decide_eq_true_2 by done. simpl. split.
    + intros (c & Hc & [= <-]). pose proof Hc as [_ E]%replica_commitment_iff. split; [by eauto|by rewrite E].
    + intros [[_ [c Hc]] ->]. exists c. split; [done|]. by apply replica_commitment_iff in Hc as [_ ->].
  - rewrite bool_decide_eq_false_2 by done. split; [by intros (?&?&?)|by intros [[[= ?] ?]?]].
Qed.

Lemma replicas_of_list (at_ : Api.PoStType) sectors :
  list_to_map (reverse ((λ s, (si_sector_number s,
    mkPublicReplicaInfo at_ (cid_digest (si_sealed_cid s)))) <$> sectors)) = replicas_of at_ sectors.
Proof.
  unfold replicas_of. induction sectors as [|s sectors IH] using rev_ind; [done|].
  rewrite fmap_app, reverse_app, foldl_app. simpl. by rewrite IH.
Qed.

Lemma replica_infos_Ok_iff t at_ sectors m (Hat : post_to_api t = Ok at_) :
  Fil.to_fil_public_replica_infos sectors t = Ok m ↔
  Forall (proven_sector t) sectors ∧ m = replicas_of at_ sectors.
Proof.
  unfold Fil.to_fil_public_replica_infos. rewrite bind_Ok_iff. setoid_rewrite raise_Ok_iff.
  setoid_rewrite illegal_Ok_iff. setoid_rewrite collect_Ok_iff.
  rewrite <-replicas_of_list. split.
  - intros (l & Hl & [= <-]). assert (Forall (proven_sector t) sectors ∧ l = (λ s, (si_sector_number s,
      mkPublicReplicaInfo at_ (cid_digest (si_sealed_cid s)))) <$> sectors) as [Hs ->]; [|done].
    induction Hl as [|s r sectors l Hr _ [IHs ->]]; [done|].
    apply (public_replica_Ok_iff t at_ s r Hat) in Hr as [Hs ->]. by split; [constructor|].
  - intros [Hs ->]. eexists. split; [|done]. apply Forall2_fmap_r.
    induction Hs; constructor; [by apply (public_replica_Ok_iff t at_ _ _ Hat)|done].
Qed.

(** The randomness with its last two bits cleared. *)
Definition field_randomness (r : bytes) : bytes := alter (λ b, Z.land b 0x3f) 31%nat r.

Lemma same_types_iff t ps : Fil.same_types t ps = true ↔ Forall (λ p, pp_post_proof p = t) ps.
Proof.
  unfold Fil.same_types. rewrite <-Is_true_true, forallb_True. apply Forall_iff. intros p. apply bool_decide_spec.
Qed.

Lemma collect_proofs_iff t at_ ps l (Hat : post_to_api t = Ok at_) :
  Forall (λ p, pp_post_proof p = t) ps →
  collect (λ p, t ← post_to_api (pp_post_proof p); Ok (t, pp_proof_bytes p)) ps = Ok l ↔
  l = (λ p, (at_, pp_proof_bytes p)) <$> ps.
Proof.
  intros Hps. revert l. induction Hps as [|p ps Hp _ IH]; intros l; simpl; [naive_solver|].
  rewrite Hp, Hat. simpl. rewrite bind_Ok_iff. setoid_rewrite IH. naive_solver.
Qed.

Lemma field_randomness_insert r b :
  r !! 31%nat = Some b → field_randomness r = <[31%nat := Z.land b 0x3f]> r.
Proof.
  intros Hb. unfold field_randomness. rewrite list_insert_alter. apply list_eq. intros i.
  rewrite !list_lookup_alter. case_decide as E; [|done]. subst i. by rewrite Hb.
Qed.

(** C34: a window proof of spacetime is accepted exactly when it should be. The
    kernel's check answers if and only if the randomness has 32 bytes, there is a
    proof, all proofs are of one known type, every challenged sector was sealed
    with the proof type that belongs to it and has a replica commitment for a
    CID, and then it is the answer of the proofs library on the masked
    randomness, all the proofs, the replica commitments of the challenged sectors
    by number, and the prover's id; anything else, panics included, is an error. *)
Theorem verify_post_exact info v :
  catch_and_log_panic "verifying post" (Fil.verify_post info) = Ok v ↔
  length (wp_randomness info) = 32%nat ∧ wp_proofs info ≠ [] ∧
  (length (varint_encode (wp_prover info)) ≤ 32)%nat ∧
  ∃ t at_, post_to_api t = Ok at_ ∧ Forall (λ p, pp_post_proof p = t) (wp_proofs info) ∧
    Forall (proven_sector t) (wp_challenged_sectors info) ∧
    api_verify_window_post (field_randomness (wp_randomness info))
      ((λ p, (at_, pp_proof_bytes p)) <$> wp_proofs info)
      (replicas_of at_ (wp_challenged_sectors info)) (prover_bytes (wp_prover info)) = Some (Ok v).
Proof.
  assert (catch_and_log_panic "verifying post" (Fil.verify_post info) = Ok v ↔ Fil.verify_post info = Ok v) as ->
    by (destruct (Fil.verify_post info) as [|[|]]; naive_solver).
  unfold Fil.verify_post. rewrite bind_Ok_iff. setoid_rewrite or_panic_Ok_iff. split.
  - intros (last & Hlast & Hrest). apply bind_Ok_iff in Hrest as (first & Hfirst & Hrest).
    apply or_panic_Ok_iff in Hfirst. destruct (wp_proofs info) as [|p ps] eqn:Eps; [done|].
    injection Hfirst as <-. destruct (Fil.same_types _ _) eqn:Es; [|done]. cbn [negb] in Hrest.
    apply same_types_iff in Es. apply bind_Ok_iff in Hrest as (m & Hm & Hrest).
    apply bind_Ok_iff in Hrest as (l & Hl & Hrest). apply raise_Ok_iff, illegal_Ok_iff in Hl.
    destruct (post_to_api (pp_post_proof p)) as [at_|e] eqn:Hat; [|cbn [collect] in Hl; by rewrite Hat in Hl].
    apply (replica_infos_Ok_iff _ _ _ _ Hat) in Hm as [Hs ->]. apply (collect_proofs_iff _ _ _ _ Hat Es) in Hl as ->.
    apply bind_Ok_iff in Hrest as (pr & [Hlen ->]%prover_id_Ok_iff & Hrest).
    apply bind_Ok_iff in Hrest as (r & [-> Hr]%bytes_32_Ok_iff & Hrest). apply library_Ok_iff in Hrest.
    rewrite length_insert in Hr. split_and!; [done..|]. exists (pp_post_proof p), at_.
    by rewrite <-(field_randomness_insert _ _ Hlast) in Hrest.
  - intros (Hr & Hne & Hlen & t & at_ & Hat & Es & Hs & Hask).
    destruct (lookup_lt_is_Some_2 (wp_randomness info) 31) as [last Hlast]; [lia|].
    exists last. split; [done|]. destruct (wp_proofs info) as [|p ps] eqn:Eps; [done|].
    pose proof (Forall_inv Es) as Ep. cbn beta in Ep. apply bind_Ok_iff. exists p. split; [done|].
    rewrite Ep, (proj2 (same_types_iff _ _) Es). cbn [negb].
    apply bind_Ok_iff. eexists. split; [by apply (replica_infos_Ok_iff _ _ _ _ Hat)|].
    apply bind_Ok_iff. eexists. split; [by apply raise_Ok_iff, illegal_Ok_iff, (collect_proofs_iff _ _ _ _ Hat Es)|].
    apply bind_Ok_iff. eexists. split; [by apply prover_id_Ok_iff|].
    apply bind_Ok_iff. eexists. split; [apply bytes_32_Ok_iff; by rewrite length_insert|].
    apply library_Ok_iff. by rewrite <-(field_randomness_insert _ _ Hlast).
Qed.

#[local] Opaque cid_to_replica_commitment_v1 cid_to_data_commitment_v1 data_commitment_v1_to_cid
  sector_pieces Fil.prover_id_from_u64 bytes_32.

(** The seal of a sector: its CIDs are commitments, its proof type is known, its
    randomness has 32 bytes, and the library is asked about exactly these. *)
Lemma verify_seal_iff vi v :
  Fil.verify_seal vi = Ok v ↔
  ∃ commr commd typ,
    cid_to_replica_commitment_v1 (sv_sealed_cid vi) = Ok commr ∧
    cid_to_data_commitment_v1 (sv_unsealed_cid vi) = Ok commd ∧
    seal_to_api (sv_registered_proof vi) = Ok typ ∧
    (length (varint_encode (sid_miner (sv_sector_id vi))) ≤ 32)%nat ∧
    length (sv_randomness vi) = 32%nat ∧ length (sv_interactive_randomness vi) = 32%nat ∧
    api_verify_seal typ commr commd (prover_bytes (sid_miner (sv_sector_id vi)))
      (sid_number (sv_sector_id vi)) (sv_randomness vi) (sv_interactive_randomness vi) (sv_proof vi)
    = Some (Ok v).
Proof.
  unfold Fil.verify_seal. do 6 setoid_rewrite bind_Ok_iff.
  setoid_rewrite err_context_Ok_iff. setoid_rewrite raise_Ok_iff. setoid_rewrite illegal_Ok_iff.
  setoid_rewrite prover_id_Ok_iff. setoid_rewrite bytes_32_Ok_iff. setoid_rewrite library_Ok_iff.
  split; [|intros (commr & commd & typ & ? & ? & ? & ? & ? & ? & ?); exists commr; split; [done|]; exists commd;
    split; [done|]; eexists; split; [done|]; exists typ; split; [done|]; do 2 (eexists; split; [done|]); done].
  intros (commr & Hr & commd & Hd & pr & [Hl ->] & typ & Ht & tk & [-> Hk] & sd & [-> Hs] & Hask).
  by exists commr, commd, typ.
Qed.

Lemma verify_replica_update_iff ru v :
  Fil.verify_replica_update ru = Ok v ↔
  ∃ up old new commd,
    update_to_api (ru_update_proof_type ru) = Ok up ∧
    cid_to_replica_commitment_v1 (ru_old_sealed_cid ru) = Ok old ∧
    cid_to_replica_commitment_v1 (ru_new_sealed_cid ru) = Ok new ∧
    cid_to_data_commitment_v1 (ru_new_unsealed_cid ru) = Ok commd ∧
    api_verify_update up (ru_proof ru) old new commd = Some (Ok v).
Proof.
  unfold Fil.verify_replica_update. do 4 setoid_rewrite bind_Ok_iff.
  setoid_rewrite raise_Ok_iff. setoid_rewrite illegal_Ok_iff. setoid_rewrite library_Ok_iff. naive_solver.
Qed.

(** A successful unsealed-sector computation is the CID of the library's answer
    on the laid-out pieces. *)
Lemma compute_unsealed_iff p pieces k :
  Fil.compute_unsealed_sector_cid p pieces = Ok k ↔
  ∃ s out typ comm_d,
    sector_size p = Ok s ∧ sector_pieces (sector_bytes s) pieces = Ok out ∧ seal_to_api p = Ok typ ∧
    api_compute_comm_d typ out = Some (Ok comm_d) ∧ data_commitment_v1_to_cid comm_d = Ok k.
Proof.
  unfold Fil.compute_unsealed_sector_cid. do 4 setoid_rewrite bind_Ok_iff.
  setoid_rewrite raise_Ok_iff. setoid_rewrite illegal_Ok_iff. setoid_rewrite library_Ok_iff. naive_solver.
Qed.
End asked.
