(* ===== verification/Amt.v ===== *)
(** * The AMT (ipld/amt/src/node.rs, root.rs, amt.rs, lib.rs)

    An array mapped trie: a sparse array of [2^64 - 1] slots cut into nodes of
    [2^bit_width]. Leaves at height 0 hold values, the nodes above hold links: a
    stored node with the node once it was loaded, or a node not yet stored.
    Heights are natural numbers; decreasing one below 0, decreasing a count below
    0, indexing out of bounds and [unreachable!] are panics, the error
    [Panic] (arithmetic is checked, as in the [wasm] profile of the workspace). *)

From S2P Require Import Prelude Effects Address Types.
From stdpp Require Import gmap strings list fin_maps sorting.
From Stdlib Require Import ZArith Lia.
#[local] Open Scope Z_scope.

Inductive AmtError :=
  | OutOfRange (i : Z)
  | MaxHeight (height : nat)
  | Cached
  | LinksAndValues
  | AmtCidNotFound
  | AmtDynamic (msg : string)
  | Panic (msg : string).

(** [Link] and [Node]. *)
Inductive Link (V : Type) :=
  | LinkCid (cid : Cid) (cache : option (Node V))
  | LinkDirty (node : Node V)
with Node (V : Type) :=
  | NodeLink (links : list (option (Link V)))
  | NodeLeaf (vals : list (option V)).
Arguments LinkCid {V} cid cache.
Arguments LinkDirty {V} node.
Arguments NodeLink {V} links.
Arguments NodeLeaf {V} vals.

Definition DEFAULT_BIT_WIDTH : Z := 3.
Definition MAX_HEIGHT : nat := 64.
Definition MAX_INDEX : Z := u64_max - 1.

Definition nodes_for_height (bit_width : Z) (height : nat) : Z :=
  let height_log_two := bit_width * Z.of_nat height in
  if 64 <=? height_log_two then u64_max else Z.shiftl 1 height_log_two.

Definition width (bit_width : Z) : nat := Z.to_nat (Z.shiftl 1 bit_width).
Definition init_sized_vec {A} (bit_width : Z) : list (option A) := replicate (width bit_width) None.
Definition bmap_bytes (bit_width : Z) : nat :=
  if bit_width <=? 3 then 1%nat else Z.to_nat (Z.shiftl 1 (bit_width - 3)).

(** ** Serialised nodes: a bitmap of the filled slots, then links or values *)

Definition CollapsedNode (V : Type) : Type := bytes * list Cid * list V.

Definition bmap_set (i : nat) (bmap : bytes) : bytes :=
  alter (λ b, Z.lor b (Z.shiftl 1 (Z.of_nat (i `mod` 8)))) (i / 8)%nat bmap.
Definition bmap_get (i : nat) (bmap : bytes) : bool :=
  negb (Z.land (nth (i / 8) bmap 0) (Z.shiftl 1 (Z.of_nat (i `mod` 8))) =? 0).

(** The loop of [serialize] over the slots from the [i]th on. *)
Fixpoint collapse {A B} (f : A → result AmtError B) (i : nat) (slots : list (option A)) (bmap : bytes)
    : result AmtError (bytes * list B) :=
  match slots with
  | [] => Ok (bmap, [])
  | None :: slots => collapse f (S i) slots bmap
  | Some a :: slots =>
      match f a with
      | Err e => Err e
      | Ok b =>
          match collapse f (S i) slots (bmap_set i bmap) with
          | Err e => Err e
          | Ok (bmap, bs) => Ok (bmap, b :: bs)
          end
      end
  end.
Definition bmap_new (len : nat) : bytes := replicate ((len - 1) / 8 + 1)%nat 0.

Definition link_serialize {V} (l : Link V) : result AmtError Cid :=
  match l with LinkCid cid _ => Ok cid | LinkDirty _ => Err Cached end.
Definition node_serialize {V} (n : Node V) : result AmtError (CollapsedNode V) :=
  match n with
  | NodeLeaf vals =>
      match collapse (λ v, Ok v) 0 vals (bmap_new (length vals)) with
      | Err e => Err e
      | Ok (bmap, values) => Ok (bmap, [], values)
      end
  | NodeLink links =>
      match collapse link_serialize 0 links (bmap_new (length links)) with
      | Err e => Err e
      | Ok (bmap, collapsed) => Ok (bmap, collapsed, [])
      end
  end.

(** The loop of [expand]: [n] slots from the [i]th on. *)
Fixpoint fill {A B} (f : A → B) (what : string) (bmap : bytes) (i n : nat) (xs : list A)
    : result AmtError (list (option B)) :=
  match n with
  | O => match xs with
         | [] => Ok []
         | _ => Err (AmtDynamic ("Bitmap contained less set bits than " ++ what ++ " provided"))
         end
  | S n =>
      if bmap_get i bmap then
        match xs with
        | [] => Err (AmtDynamic ("Bitmap contained more set bits than " ++ what ++ " provided"))
        | x :: xs => match fill f what bmap (S i) n xs with Ok l => Ok (Some (f x) :: l) | Err e => Err e end
        end
      else match fill f what bmap (S i) n xs with Ok l => Ok (None :: l) | Err e => Err e end
  end.

Definition expand {V} (bit_width : Z) (b : CollapsedNode V) : result AmtError (Node V) :=
  let '(bmap, links, values) := b in
  match links, values with
  | _ :: _, _ :: _ => Err LinksAndValues
  | _, _ =>
      if negb (bmap_bytes bit_width =? length bmap)%nat
      then Err (AmtDynamic "expected bitfield of length {}, found bitfield with length {}")
      else match links with
           | _ :: _ =>
               match fill (λ cid, LinkCid cid None) "links" bmap 0 (width bit_width) links with
               | Ok links => Ok (NodeLink links)
               | Err e => Err e
               end
           | [] =>
               match fill id "values" bmap 0 (width bit_width) values with
               | Ok vals => Ok (NodeLeaf vals)
               | Err e => Err e
               end
           end
  end.

(** ** Nodes *)

(** [Node::empty]. *)
Definition Node_empty {V} : Node V := NodeLeaf [].
Definition is_none {A} (o : option A) : bool := match o with None => true | Some _ => false end.
Definition can_collapse {V} (n : Node V) : bool :=
  match n with
  | NodeLink (Some _ :: links) => forallb is_none links
  | _ => false
  end.
Definition node_is_empty {V} (n : Node V) : bool :=
  match n with
  | NodeLink links => forallb is_none links
  | NodeLeaf vals => forallb is_none vals
  end.

(** The blocks of an AMT: nodes, and the root of either version. *)
Class AmtCodec (V : Type) := {
  amt_cbor_node :: Cbor (CollapsedNode V);
  amt_cbor_v3 :: Cbor (Z * Z * Z * CollapsedNode V);
  amt_cbor_v0 :: Cbor (Z * Z * CollapsedNode V);
}.

Section node.
Context `{BS : Blockstore} {V : Type} `{CB : !AmtCodec V}.
Implicit Types (s : Store) (n : Node V).

(** [bs.get_cbor::<CollapsedNode<V>>(cid)?.ok_or_else(..)?.expand(bit_width)]. *)
Definition node_load s (bit_width : Z) (cid : Cid) : result AmtError (Node V) :=
  match get_cbor (T := CollapsedNode V) s cid with
  | Err e => Err (AmtDynamic e)
  | Ok None => Err AmtCidNotFound
  | Ok (Some b) => expand bit_width b
  end.
(** The same behind a cache: [get_or_try_init], and taking the cache. *)
Definition load_cached s (bit_width : Z) (cid : Cid) (cache : option (Node V)) : result AmtError (Node V) :=
  match cache with Some n => Ok n | None => node_load s bit_width cid end.

(** [bs.put_cbor(node, Code::Blake2b256)]. *)
Definition put_node s n : result AmtError Cid * Store :=
  match node_serialize n with
  | Err e => (Err e, s)
  | Ok b => let '(r, s') := put_cbor s b BLAKE2B_256 in
            (match r with Ok c => Ok c | Err e => Err (AmtDynamic e) end, s')
  end.

Definition set_link (i : nat) (l : option (Link V)) (links : list (option (Link V))) : Node V :=
  NodeLink (<[i := l]> links).

Definition underflow : AmtError := Panic "attempt to subtract with overflow".
Definition out_of_bounds : AmtError := Panic "index out of bounds".

(** A lookup fills the caches of the links it follows, so it returns the node too. *)
Fixpoint node_get s (height : nat) (bit_width i : Z) n {struct height} : result AmtError (option V) * Node V :=
  match n with
  | NodeLeaf vals => (Ok (mjoin (vals !! Z.to_nat i)), n)
  | NodeLink links =>
      let nfh := nodes_for_height bit_width height in
      let sub_i := Z.to_nat (i / nfh) in
      match mjoin (links !! sub_i) with
      | None => (Ok None, n)
      | Some (LinkCid cid cache) =>
          match load_cached s bit_width cid cache with
          | Err e => (Err e, n)
          | Ok sub =>
              match height with
              | O => (Err underflow, set_link sub_i (Some (LinkCid cid (Some sub))) links)
              | S height =>
                  let '(r, sub) := node_get s height bit_width (i `mod` nfh) sub in
                  (r, set_link sub_i (Some (LinkCid cid (Some sub))) links)
              end
          end
      | Some (LinkDirty sub) =>
          match height with
          | O => (Err underflow, n)
          | S height =>
              let '(r, sub) := node_get s height bit_width (i `mod` nfh) sub in
              (r, set_link sub_i (Some (LinkDirty sub)) links)
          end
      end
  end.

Definition set_leaf (i : Z) (val : V) n : result AmtError (option V) * Node V :=
  match n with
  | NodeLeaf vals =>
      match vals !! Z.to_nat i with
      | None => (Err (Panic "called `Option::unwrap()` on a `None` value"), n)
      | Some prev => (Ok prev, NodeLeaf (<[Z.to_nat i := Some val]> vals))
      end
  | NodeLink _ => (Err (Panic "set_leaf should never be called on a shard of links"), n)
  end.

(** The node a set adds below height [S height]. *)
Definition new_sub_node (height : nat) (bit_width : Z) : Node V :=
  match height with O => NodeLeaf (init_sized_vec bit_width) | S _ => NodeLink (init_sized_vec bit_width) end.

Fixpoint node_set s (height : nat) (bit_width i : Z) (val : V) n {struct height} : result AmtError (option V) * Node V :=
  match height with
  | O => set_leaf i val n
  | S height' =>
      let nfh := nodes_for_height bit_width height in
      let idx := Z.to_nat (i / nfh) in
      match n with
      | NodeLeaf _ => (Err (Panic "should not be handled"), n)
      | NodeLink links =>
          match links !! idx with
          | None => (Err out_of_bounds, n)
          | Some l =>
              match match l with
                    | Some (LinkCid cid cache) => load_cached s bit_width cid cache
                    | None => Ok (new_sub_node height' bit_width)
                    | Some (LinkDirty sub) => Ok sub
                    end with
              | Err e => (Err e, n)
              | Ok sub =>
                  let '(r, sub) := node_set s height' bit_width (i `mod` nfh) val sub in
                  (r, set_link idx (Some (LinkDirty sub)) links)
              end
          end
      end
  end.

Fixpoint node_delete s (height : nat) (bit_width i : Z) n {struct height} : result AmtError (option V) * Node V :=
  match n with
  | NodeLeaf vals =>
      match vals !! Z.to_nat i with
      | None => (Ok None, n)
      | Some prev => (Ok prev, NodeLeaf (<[Z.to_nat i := None]> vals))
      end
  | NodeLink links =>
      let nfh := nodes_for_height bit_width height in
      let sub_i := Z.to_nat (i / nfh) in
      match links !! sub_i with
      | None => (Err out_of_bounds, n)
      | Some None => (Ok None, n)
      | Some (Some (LinkDirty sub)) =>
          match height with
          | O => (Err underflow, n)
          | S height =>
              match node_delete s height bit_width (i `mod` nfh) sub with
              | (Ok (Some deleted), sub) =>
                  (Ok (Some deleted), set_link sub_i (if node_is_empty sub then None else Some (LinkDirty sub)) links)
              | (r, sub) => (r, set_link sub_i (Some (LinkDirty sub)) links)
              end
          end
      | Some (Some (LinkCid cid cache)) =>
          match load_cached s bit_width cid cache with
          | Err e => (Err e, n)
          | Ok sub =>
              match height with
              | O => (Err underflow, set_link sub_i (Some (LinkCid cid (Some sub))) links)
              | S height =>
                  match node_delete s height bit_width (i `mod` nfh) sub with
                  | (Ok (Some deleted), sub) =>
                      (Ok (Some deleted), set_link sub_i (if node_is_empty sub then None else Some (LinkDirty sub)) links)
                  | (r, sub) => (r, set_link sub_i (Some (LinkCid cid (Some sub))) links)
                  end
              end
          end
      end
  end.

(** The loop over the links of a node. *)
Definition flush_links (flush_node : Store → Node V → result AmtError unit * Node V * Store) :=
  fix go s (links : list (option (Link V))) : result AmtError unit * list (option (Link V)) * Store :=
  match links with
  | [] => (Ok tt, [], s)
  | Some (LinkDirty n) :: links =>
      match flush_node s n with
      | (Err e, n, s) => (Err e, Some (LinkDirty n) :: links, s)
      | (Ok _, n, s) =>
          match put_node s n with
          | (Err e, s) => (Err e, Some (LinkDirty n) :: links, s)
          | (Ok cid, s) => let '(r, links, s) := go s links in (r, Some (LinkCid cid (Some n)) :: links, s)
          end
      end
  | l :: links => let '(r, links, s) := go s links in (r, l :: links, s)
  end.
Fixpoint node_flush s n {struct n} : result AmtError unit * Node V * Store :=
  match n with
  | NodeLeaf _ => (Ok tt, n, s)
  | NodeLink links => let '(r, links, s) := flush_links node_flush s links in (r, NodeLink links, s)
  end.

(** ** Mutation in place

    The callback reads an index and a value and answers whether to go on; when it
    takes the value mutably ([ValueMut] records that) it leaves another one. It
    has a state of its own and may fail. The value it leaves stays even when it
    fails; the report that something was mutated does not. *)
Section for_each_mut.
Context {A : Type} (f : Z → V → A → result string bool * option V * A).

(** The loop over the values of a leaf from the [i]th on. *)
Fixpoint leaf_mut (offset : Z) (i : Z) (vals : list (option V)) (did_mutate : bool) (a : A)
    : result AmtError (bool * bool) * list (option V) * A :=
  match vals with
  | [] => (Ok (true, did_mutate), [], a)
  | None :: vals => let '(r, vals, a) := leaf_mut offset (i + 1) vals did_mutate a in (r, None :: vals, a)
  | Some v :: vals =>
      let '(r, w, a) := f (offset + i) v a in
      let v' := default v w in
      match r with
      | Err e => (Err (AmtDynamic e), Some v' :: vals, a)
      | Ok keep_going =>
          let did_mutate := did_mutate || bool_decide (is_Some w) in
          if negb keep_going then (Ok (false, did_mutate), Some v' :: vals, a)
          else let '(r, vals, a) := leaf_mut offset (i + 1) vals did_mutate a in (r, Some v' :: vals, a)
      end
  end.

(** The loop over the links; [visit] is the call on a sub node. *)
Definition links_mut s (bit_width nfh offset : Z)
    (visit : Z → Node V → A → result AmtError (bool * bool) * Node V * A) :=
  fix go (i : Z) (links : list (option (Link V))) (did_mutate : bool) (a : A)
    : result AmtError (bool * bool) * list (option (Link V)) * A :=
  match links with
  | [] => (Ok (true, did_mutate), [], a)
  | None :: links => let '(r, links, a) := go (i + 1) links did_mutate a in (r, None :: links, a)
  | Some l :: links =>
      match match l with
            | LinkDirty sub => Ok sub
            | LinkCid cid cache => load_cached s bit_width cid cache
            end with
      | Err e => (Err e, Some l :: links, a)
      | Ok sub =>
          let '(r, sub, a) := visit (offset + i * nfh) sub a in
          let l' did := match l with
                        | LinkDirty _ => LinkDirty sub
                        | LinkCid cid _ => if (did : bool) then LinkDirty sub else LinkCid cid (Some sub)
                        end in
          match r with
          | Err e => (Err e, Some (l' false) :: links, a)
          | Ok (keep_going, did_mutate_node) =>
              let did_mutate := did_mutate || did_mutate_node in
              if negb keep_going then (Ok (false, did_mutate), Some (l' did_mutate_node) :: links, a)
              else let '(r, links, a) := go (i + 1) links did_mutate a in (r, Some (l' did_mutate_node) :: links, a)
          end
      end
  end.

Fixpoint node_for_each_while_mut s (height : nat) (bit_width offset : Z) n (a : A) {struct height}
    : result AmtError (bool * bool) * Node V * A :=
  match n with
  | NodeLeaf vals => let '(r, vals, a) := leaf_mut offset 0 vals false a in (r, NodeLeaf vals, a)
  | NodeLink links =>
      let visit := match height with
                   | O => λ _ sub a, (Err underflow, sub, a)
                   | S height => λ offs sub a, node_for_each_while_mut s height bit_width offs sub a
                   end in
      let '(r, links, a) :=
        links_mut s bit_width (nodes_for_height bit_width height) offset visit 0 links false a in
      (r, NodeLink links, a)
  end.
End for_each_mut.
End node.

(** ** Roots *)

Inductive Version := V0 | V3.

Record RootImpl (V : Type) := mkRoot { bit_width : Z; height : nat; count : Z; node : Node V }.
Arguments mkRoot {V} _ _ _ _.
Arguments bit_width {V} _.
Arguments height {V} _.
Arguments count {V} _.
Arguments node {V} _.

Record AmtImpl (V : Type) := mkAmt { root : RootImpl V; flushed_cid : option Cid }.
Arguments mkAmt {V} _ _.
Arguments root {V} _.
Arguments flushed_cid {V} _.

Definition set_node {V} (n : Node V) (r : RootImpl V) : RootImpl V :=
  mkRoot (bit_width r) (height r) (count r) n.

Section root.
Context `{BS : Blockstore} {V : Type} `{CB : !AmtCodec V} (ver : Version).
Implicit Types (s : Store) (r : RootImpl V) (t : AmtImpl V).

(** [Serialize for RootImpl], and [put_cbor] of it. *)
Definition put_root s r : result AmtError Cid * Store :=
  match node_serialize (node r) with
  | Err e => (Err e, s)
  | Ok b =>
      let '(res, s') :=
        match ver with
        | V0 => put_cbor s (Z.of_nat (height r), count r, b) BLAKE2B_256
        | V3 => put_cbor s (bit_width r, Z.of_nat (height r), count r, b) BLAKE2B_256
        end in
      (match res with Ok c => Ok c | Err e => Err (AmtDynamic e) end, s')
  end.

(** [Deserialize for RootImpl], after the decoder. *)
Definition root_expand (bw h c : Z) (b : CollapsedNode V) : result AmtError (RootImpl V) :=
  match expand bw b with
  | Err e => Err e
  | Ok n => Ok (mkRoot bw (Z.to_nat h) c n)
  end.
Definition root_load s (cid : Cid) : result AmtError (RootImpl V) :=
  match ver with
  | V3 =>
      match get_cbor (T := Z * Z * Z * CollapsedNode V) s cid with
      | Err e => Err (AmtDynamic e)
      | Ok None => Err AmtCidNotFound
      | Ok (Some (bw, h, c, b)) => root_expand bw h c b
      end
  | V0 =>
      match get_cbor (T := Z * Z * CollapsedNode V) s cid with
      | Err e => Err (AmtDynamic e)
      | Ok None => Err AmtCidNotFound
      | Ok (Some (h, c, b)) => root_expand DEFAULT_BIT_WIDTH h c b
      end
  end.

(** ** Amt *)

Definition new_with_bit_width (bw : Z) : AmtImpl V := mkAmt (mkRoot bw 0 0 (NodeLeaf (init_sized_vec bw))) None.
Definition new : AmtImpl V := new_with_bit_width DEFAULT_BIT_WIDTH.

Definition load s (cid : Cid) : result AmtError (AmtImpl V) :=
  match root_load s cid with
  | Err e => Err e
  | Ok r => if (MAX_HEIGHT <? height r)%nat then Err (MaxHeight (height r)) else Ok (mkAmt r (Some cid))
  end.

Definition get s (i : Z) t : result AmtError (option V) * AmtImpl V :=
  let r := root t in
  if MAX_INDEX <? i then (Err (OutOfRange i), t)
  else if nodes_for_height (bit_width r) (S (height r)) <=? i then (Ok None, t)
  else let '(res, n) := node_get s (height r) (bit_width r) i (node r) in
       (res, mkAmt (set_node n r) (flushed_cid t)).

(** The loop of [set] that adds levels at the root. Every level multiplies the range by
    [2^bit_width], so 64 turns are enough unless the bit width is 0: then
    the range stays 1 and no number of turns is. *)
Fixpoint grow (fuel : nat) (i : Z) r : result AmtError (RootImpl V) :=
  if nodes_for_height (bit_width r) (S (height r)) <=? i then
    match fuel with
    | O => Err (Panic "the loop does not end")
    | S fuel =>
        let links := init_sized_vec (bit_width r) in
        let n := if negb (node_is_empty (node r))
                 then NodeLink (<[0%nat := Some (LinkDirty (node r))]> links)
                 else NodeLink links in
        grow fuel i (mkRoot (bit_width r) (S (height r)) (count r) n)
    end
  else Ok r.

Definition set s (i : Z) (val : V) t : result AmtError unit * AmtImpl V :=
  if MAX_INDEX <? i then (Err (OutOfRange i), t) else
  match grow 64 i (root t) with
  | Err e => (Err e, t)
  | Ok r =>
      match node_set s (height r) (bit_width r) i val (node r) with
      | (Err e, n) => (Err e, mkAmt (set_node n r) (flushed_cid t))
      | (Ok prev, n) =>
          (Ok tt, mkAmt (mkRoot (bit_width r) (height r) (count r + (if is_none prev then 1 else 0)) n) None)
      end
  end.

Fixpoint batch_set_from s (i : Z) (vals : list V) t : result AmtError unit * AmtImpl V :=
  match vals with
  | [] => (Ok tt, t)
  | val :: vals =>
      match set s i val t with
      | (Ok _, t) => batch_set_from s (i + 1) vals t
      | (Err e, t) => (Err e, t)
      end
  end.
Definition batch_set s (vals : list V) t : result AmtError unit * AmtImpl V := batch_set_from s 0 vals t.

(** The loop of [delete] that moves the only sub node up into the root. *)
Fixpoint collapse_root s (bw : Z) (h : nat) (c : Z) (n : Node V) {struct h} : result AmtError unit * RootImpl V :=
  match h with
  | O => (Ok tt, mkRoot bw h c n)
  | S h' =>
      if negb (can_collapse n) then (Ok tt, mkRoot bw h c n) else
      match n with
      | NodeLink (Some (LinkDirty sub) :: _) => collapse_root s bw h' c sub
      | NodeLink (Some (LinkCid cid cache) :: _) =>
          match load_cached s bw cid cache with
          | Err e => (Err e, mkRoot bw h c n)
          | Ok sub => collapse_root s bw h' c sub
          end
      | _ => (Err (Panic "First index checked to be Some in `can_collapse`"), mkRoot bw h c n)
      end
  end.

Definition delete s (i : Z) t : result AmtError (option V) * AmtImpl V :=
  let r := root t in
  if MAX_INDEX <? i then (Err (OutOfRange i), t)
  else if nodes_for_height (bit_width r) (S (height r)) <=? i then (Ok None, t)
  else
    match node_delete s (height r) (bit_width r) i (node r) with
    | (Ok (Some deleted), n) =>
        if count r =? 0 then (Err underflow, mkAmt (set_node n r) None) else
        let c := count r - 1 in
        if node_is_empty n
        then (Ok (Some deleted), mkAmt (mkRoot (bit_width r) 0 c (NodeLeaf (init_sized_vec (bit_width r)))) None)
        else match collapse_root s (bit_width r) (height r) c n with
             | (Ok _, r) => (Ok (Some deleted), mkAmt r None)
             | (Err e, r) => (Err e, mkAmt r None)
             end
    | (res, n) => (res, mkAmt (set_node n r) (flushed_cid t))
    end.

Fixpoint delete_all s (idxs : list Z) (strict modified : bool) t : result AmtError bool * AmtImpl V :=
  match idxs with
  | [] => (Ok modified, t)
  | i :: idxs =>
      match delete s i t with
      | (Err e, t) => (Err e, t)
      | (Ok o, t) =>
          let found := negb (is_none o) in
          if strict && negb found then (Err (AmtDynamic "no such index {} in Amt for batch delete"), t)
          else delete_all s idxs strict (modified || found) t
      end
  end.
Definition batch_delete s (iter : list Z) (strict : bool) t : result AmtError bool * AmtImpl V :=
  delete_all s (merge_sort Z.le iter) strict false t.

Definition flush s t : result AmtError Cid * AmtImpl V * Store :=
  match flushed_cid t with
  | Some cid => (Ok cid, t, s)
  | None =>
      match node_flush s (node (root t)) with
      | (Err e, n, s) => (Err e, mkAmt (set_node n (root t)) None, s)
      | (Ok _, n, s) =>
          let r := set_node n (root t) in
          match put_root s r with
          | (Err e, s) => (Err e, mkAmt r None, s)
          | (Ok cid, s) => (Ok cid, mkAmt r (Some cid), s)
          end
      end
  end.

Definition new_from_iter_with_bit_width s (bw : Z) (vals : list V) : result AmtError Cid * Store :=
  match batch_set s vals (new_with_bit_width bw) with
  | (Err e, _) => (Err e, s)
  | (Ok _, t) => let '(res, _, s) := flush s t in (res, s)
  end.
Definition new_from_iter s (vals : list V) : result AmtError Cid * Store :=
  new_from_iter_with_bit_width s DEFAULT_BIT_WIDTH vals.

Definition for_each_while_mut {A} (f : Z → V → A → result string bool * option V * A) s t (a : A)
    : result AmtError unit * AmtImpl V * A :=
  let r := root t in
  let '(res, n, a) := node_for_each_while_mut f s (height r) (bit_width r) 0 (node r) a in
  match res with
  | Err e => (Err e, mkAmt (set_node n r) (flushed_cid t), a)
  | Ok (_, did_mutate) => (Ok tt, mkAmt (set_node n r) (if did_mutate then None else flushed_cid t), a)
  end.
Definition for_each_mut {A} (f : Z → V → A → result string unit * option V * A) :=
  for_each_while_mut (λ i v a, let '(res, w, a) := f i v a in
    (match res with Ok _ => Ok true | Err e => Err e end, w, a)).
End root.
