(* ===== verification/AmtRep.v ===== *)
(** * What an AMT node represents

    A node at height [h] whose first index is [base] shows the part of a map
    from [base] on that [P (S h)] indices cover; every linked node shows at
    least one value. *)

From S2P Require Import Prelude Effects Address Types Amt.
From stdpp Require Import gmap strings list fin_maps.
From Stdlib Require Import ZArith Lia.
#[local] Open Scope Z_scope.

(** ** Bitmaps *)

Lemma land_pow2 a k : 0 ≤ k → negb (Z.land a (Z.shiftl 1 k) =? 0) = Z.testbit a k.
Proof.
  intros Hk. rewrite Z.shiftl_1_l. destruct (Z.testbit a k) eqn:E.
  - destruct (Z.eqb_spec (Z.land a (2 ^ k)) 0) as [H0|]; [|done].
    apply (f_equal (λ z, Z.testbit z k)) in H0. rewrite Z.land_spec, E, Z.pow2_bits_true, Z.bits_0 in H0 by done. done.
  - apply negb_false_iff, Z.eqb_eq. apply Z.bits_inj. intros j. rewrite Z.land_spec, Z.bits_0, (Z.pow2_bits_eqb k j) by done.
    destruct (Z.eqb_spec k j) as [<-|]; [by rewrite E|apply andb_false_r].
Qed.

Lemma bmap_get_testbit i bmap : bmap_get i bmap = Z.testbit (nth (i / 8) bmap 0) (Z.of_nat (i `mod` 8)).
Proof. unfold bmap_get. apply land_pow2. lia. Qed.

Lemma bmap_get_set i j bmap : (i < 8 * length bmap)%nat →
  bmap_get j (bmap_set i bmap) = if decide (i = j) then true else bmap_get j bmap.
Proof.
  intros Hi. rewrite !bmap_get_testbit, !nth_lookup. unfold bmap_set.
  assert (i / 8 < length bmap)%nat as Hl by (apply Nat.Div0.div_lt_upper_bound; lia).
  pose proof (Nat.div_mod_eq i 8) as Ei. pose proof (Nat.div_mod_eq j 8) as Ej.
  pose proof (Nat.mod_upper_bound i 8 ltac:(lia)) as Hmi. pose proof (Nat.mod_upper_bound j 8 ltac:(lia)) as Hmj.
  destruct (decide (i / 8 = j / 8)%nat) as [Hd|Hd].
  - rewrite <-Hd. rewrite list_lookup_alter_eq. destruct (lookup_lt_is_Some_2 bmap _ Hl) as [b ->].
    cbn [fmap option_fmap option_map from_option id].
    rewrite Z.lor_spec, Z.shiftl_1_l, Z.pow2_bits_eqb by lia.
    case_decide as Hij; [subst; by rewrite Z.eqb_refl, orb_true_r|].
    destruct (Z.eqb_spec (Z.of_nat (i `mod` 8)) (Z.of_nat (j `mod` 8))); [lia|apply orb_false_r].
  - rewrite list_lookup_alter_ne by done. rewrite decide_False; [done|]. intros ->. done.
Qed.

Lemma bmap_set_length i bmap : length (bmap_set i bmap) = length bmap.
Proof. apply length_alter. Qed.

Lemma bmap_get_new i len : bmap_get i (bmap_new len) = false.
Proof.
  rewrite bmap_get_testbit, nth_lookup. unfold bmap_new. destruct (replicate _ 0 !! _) as [b|] eqn:E; simpl; [|apply Z.bits_0].
  apply lookup_replicate in E as [-> _]. apply Z.bits_0.
Qed.

(** [expand]'s loop inverts [serialize]'s. *)
Lemma fill_collapse {A B} (g : A → result AmtError B) (f : B → A) what slots : ∀ i bmap bmap' bs,
  collapse g i slots bmap = Ok (bmap', bs) →
  (∀ a b, Some a ∈ slots → g a = Ok b → f b = a) →
  (i + length slots ≤ 8 * length bmap)%nat → (∀ j, (i ≤ j)%nat → bmap_get j bmap = false) →
  fill f what bmap' i (length slots) bs = Ok slots ∧ length bmap' = length bmap ∧
  ∀ j, (j < i)%nat → bmap_get j bmap' = bmap_get j bmap.
Proof.
  induction slots as [|[a|] slots IH]; intros i bmap bmap' bs; simpl.
  - by intros [= <- <-].
  - destruct (g a) as [b|] eqn:Eg; [|done]. destruct (collapse g (S i) slots _) as [[bm bs']|] eqn:Ec; [|done].
    intros [= <- <-] Hf Hlen Hb. destruct (IH _ _ _ _ Ec) as (Hfill & Hl & Hj).
    { intros a' b' Hin. apply Hf. by right. }
    { rewrite bmap_set_length. lia. }
    { intros j Hij. rewrite bmap_get_set by lia. rewrite decide_False by lia. apply Hb. lia. }
    rewrite Hj, bmap_get_set, decide_True by lia. rewrite Hfill, (Hf a b); [|by left|done].
    rewrite bmap_set_length in Hl. split_and!; [done..|]. intros j Hji. rewrite Hj by lia.
    rewrite bmap_get_set, decide_False by lia. done.
  - intros Ec Hf Hlen Hb. destruct (IH _ _ _ _ Ec) as (Hfill & Hl & Hj).
    { intros a' b' Hin. apply Hf. by right. }
    { lia. }
    { intros j Hij. apply Hb. lia. }
    rewrite Hj, Hb by lia. rewrite Hfill. split_and!; [done..|]. intros j Hji. apply Hj. lia.
Qed.

Lemma collapse_total {A B} (g : A → result AmtError B) slots i bmap :
  (∀ a, Some a ∈ slots → ∃ b, g a = Ok b) → ∃ r, collapse g i slots bmap = Ok r.
Proof.
  revert i bmap. induction slots as [|[a|] slots IH]; intros i bmap Hg; simpl; [eauto| |].
  - destruct (Hg a) as [b ->]; [by left|]. destruct (IH (S i) (bmap_set i bmap)) as [[bm bs] ->]; [|by eexists].
    intros a' Ha'. apply Hg. by right.
  - apply IH. intros a' Ha'. apply Hg. by right.
Qed.

(** The links or values are one per filled slot. *)
Lemma collapse_empty {A B} (g : A → result AmtError B) slots i bmap bmap' :
  collapse g i slots bmap = Ok (bmap', []) → forallb is_none slots = true.
Proof.
  revert i bmap. induction slots as [|[a|] slots IH]; intros i bmap; simpl; [done| |apply IH].
  destruct (g a); [|done]. by destruct (collapse g (S i) slots _) as [[? ?]|].
Qed.

(** The slots determine what is written. *)
Lemma collapse_ext {A B} (g : A → result AmtError B) slots slots' i bmap :
  Forall2 (λ o o', match o, o' with None, None => True | Some a, Some a' => g a = g a' | _, _ => False end) slots slots' →
  collapse g i slots bmap = collapse g i slots' bmap.
Proof.
  intros Hs. revert i bmap. induction Hs as [|o o' slots slots' Ho Hs IH]; intros i bmap; [done|].
  destruct o as [a|], o' as [a'|]; simpl; try done. rewrite Ho. destruct (g a'); [|done]. by rewrite IH.
Qed.

Section rep.
Context `{BSS : BlockstoreSpec} {V : Type} `{CB : !AmtCodec V} `{CS : !CborSpec (CollapsedNode V)}.
Context (bw : Z) (Hbw : 1 ≤ bw ≤ 63).
Implicit Types (s : Store) (n : Node V) (m : gmap Z V).

(** ** Ranges of indices *)

(** The indices below a node at height [h] are [P (S h)]. *)
Definition P (h : nat) : Z := 2 ^ (bw * Z.of_nat h).

Lemma P_pos h : 0 < P h.
Proof using Hbw. unfold P. apply Z.pow_pos_nonneg; lia. Qed.
Lemma P_0 : P 0 = 1.
Proof using. unfold P. by rewrite Z.mul_0_r. Qed.
Lemma width_pow : Z.of_nat (width bw) = 2 ^ bw.
Proof using Hbw. unfold width. rewrite Z.shiftl_1_l. pose proof (Z.pow_pos_nonneg 2 bw ltac:(lia) ltac:(lia)). lia. Qed.
Lemma P_S h : P (S h) = Z.of_nat (width bw) * P h.
Proof using Hbw. rewrite width_pow. unfold P. rewrite <-Z.pow_add_r by lia. f_equal. lia. Qed.
Lemma width_ge : (2 ≤ width bw)%nat.
Proof using Hbw. assert (2 ^ 1 ≤ 2 ^ bw) by (apply Z.pow_le_mono_r; lia). pose proof width_pow. lia. Qed.
Lemma P_mono h h' : (h ≤ h')%nat → P h ≤ P h'.
Proof using Hbw. intros Hh. unfold P. apply Z.pow_le_mono_r; nia. Qed.

(** On indices, the saturated sizes of the code are the powers. *)
Lemma nfh_cases h : nodes_for_height bw h = P h ∨ (nodes_for_height bw h = u64_max ∧ u64_max < P h).
Proof using Hbw.
  unfold nodes_for_height. destruct (Z.leb_spec 64 (bw * Z.of_nat h)) as [Hle|Hlt].
  - right. split; [done|]. unfold P. assert (2 ^ 64 ≤ 2 ^ (bw * Z.of_nat h)) by (apply Z.pow_le_mono_r; lia). unfold u64_max. lia.
  - left. unfold P. apply Z.shiftl_1_l.
Qed.
Lemma nfh_div h i : 0 ≤ i ≤ MAX_INDEX → i / nodes_for_height bw h = i / P h.
Proof using Hbw. unfold MAX_INDEX. intros Hi. destruct (nfh_cases h) as [->|[-> ?]]; [done|]. rewrite !Z.div_small by lia. done. Qed.
Lemma nfh_mod h i : 0 ≤ i ≤ MAX_INDEX → i `mod` nodes_for_height bw h = i `mod` P h.
Proof using Hbw. unfold MAX_INDEX. intros Hi. destruct (nfh_cases h) as [->|[-> ?]]; [done|]. rewrite !Z.mod_small by lia. done. Qed.
Lemma nfh_leb h i : i ≤ MAX_INDEX → (nodes_for_height bw h <=? i) = (P h <=? i).
Proof using Hbw.
  unfold MAX_INDEX. intros Hi. destruct (nfh_cases h) as [->|[-> ?]]; [done|].
  destruct (Z.leb_spec u64_max i), (Z.leb_spec (P h) i); lia || done.
Qed.

(** The slot and the rest of an index. *)
Lemma slot_split h i : 0 ≤ i < P (S h) →
  (Z.to_nat (i / P h) < width bw)%nat ∧ Z.of_nat (Z.to_nat (i / P h)) = i / P h ∧ 0 ≤ i `mod` P h < P h ∧
  i = i / P h * P h + i `mod` P h.
Proof using Hbw.
  intros Hi. pose proof (P_pos h). rewrite P_S in Hi.
  assert (0 ≤ i / P h < Z.of_nat (width bw)) as Hd.
  { split; [apply Z.div_pos; lia|]. apply Z.div_lt_upper_bound; lia. }
  split_and!; [lia|lia|apply Z.mod_pos_bound; lia|apply Z.mod_pos_bound; lia|].
  pose proof (Z.div_mod i (P h) ltac:(lia)). lia.
Qed.

Definition within (base len k : Z) : Prop := base ≤ k < base + len.
Definition has_on m (base len : Z) : Prop := ∃ k, within base len k ∧ is_Some (m !! k).
Definition empty_on m (base len : Z) : Prop := ∀ k, within base len k → m !! k = None.
Definition agree_on m m' (base len : Z) : Prop := ∀ k, within base len k → m !! k = m' !! k.

Lemma within_slot base h j k : 0 ≤ j < Z.of_nat (width bw) →
  within (base + j * P h) (P h) k → within base (P (S h)) k.
Proof using Hbw. unfold within. rewrite P_S. pose proof (P_pos h). nia. Qed.
Lemma slots_disjoint base h j j' k : within (base + j * P h) (P h) k → within (base + j' * P h) (P h) k → j = j'.
Proof using Hbw. unfold within. pose proof (P_pos h). nia. Qed.
Lemma within_find base h k : within base (P (S h)) k →
  ∃ j, (j < width bw)%nat ∧ within (base + Z.of_nat j * P h) (P h) k.
Proof using Hbw.
  intros Hk. destruct (slot_split h (k - base)) as (Hj & Ej & Hm & E); [unfold within in Hk; lia|].
  exists (Z.to_nat ((k - base) / P h)). split; [done|]. rewrite Ej. unfold within. lia.
Qed.

Lemma has_ext m m' base len : agree_on m m' base len → has_on m base len → has_on m' base len.
Proof using. intros Ha (k & Hk & Hs). exists k. by rewrite <-(Ha k Hk). Qed.
Lemma empty_ext m m' base len : agree_on m m' base len → empty_on m base len → empty_on m' base len.
Proof using. intros Ha He k Hk. rewrite <-(Ha k Hk). by apply He. Qed.
Lemma has_or_empty m base len : has_on m base len ∨ empty_on m base len.
Proof using.
  destruct (decide (map_Exists (λ k _, base ≤ k < base + len) m)) as [He|Hn].
  - destruct He as (k & v & Hm & Hk). left. exists k. split; [done|eauto].
  - right. intros k Hk. apply eq_None_not_Some. intros [v Hv]. apply Hn. exists k, v. done.
Qed.
Lemma has_not_empty m base len : has_on m base len → ¬ empty_on m base len.
Proof using. intros (k & Hk & Hs) He. rewrite (He k Hk) in Hs. by destruct Hs. Qed.

(** ** Representation *)

(** As [expand] makes them: links without a loaded node. *)
Definition unloaded n : Prop :=
  match n with
  | NodeLeaf _ => True
  | NodeLink links => ∀ l, Some l ∈ links → ∃ c, l = LinkCid c None
  end.

(** [c] is the block of a node that [R] relates to [m]. *)
Definition stored_by (R : Store → Z → Node V → gmap Z V → Prop) s base (c : Cid) m : Prop :=
  ∃ n b bz, unloaded n ∧ R s base n m ∧ node_serialize n = Ok b ∧ to_vec b = Ok bz ∧
    c = block_cid DAG_CBOR BLAKE2B_256 bz ∧ bs_get s c = Ok (Some bz).

Definition link_rep (R : Store → Z → Node V → gmap Z V → Prop) s base len (o : option (Link V)) m : Prop :=
  match o with
  | None => empty_on m base len
  | Some l => has_on m base len ∧
      match l with
      | LinkDirty n => R s base n m
      | LinkCid c cache => stored_by R s base c m ∧ match cache with None => True | Some n => R s base n m end
      end
  end.

Fixpoint node_rep (h : nat) s base n m {struct h} : Prop :=
  match h with
  | O => ∃ vals, n = NodeLeaf vals ∧ length vals = width bw ∧
      ∀ j o, vals !! j = Some o → o = m !! (base + Z.of_nat j)
  | S h => ∃ links, n = NodeLink links ∧ length links = width bw ∧
      ∀ j o, links !! j = Some o → link_rep (node_rep h) s (base + Z.of_nat j * P (S h)) (P (S h)) o m
  end.
Definition stored_rep (h : nat) := stored_by (node_rep h).

(** Only the indices below the node count, and stores only grow. *)
Lemma node_rep_ext h s base n m m' : agree_on m m' base (P (S h)) → node_rep h s base n m → node_rep h s base n m'.
Proof using Hbw.
  revert base n. induction h as [|h IH]; intros base n Ha.
  - intros (vals & -> & Hl & Hv). exists vals. split_and!; try done. intros j o Hj. rewrite (Hv j o Hj). apply Ha.
    apply lookup_lt_Some in Hj. unfold within. rewrite P_S, P_0. lia.
  - intros (links & -> & Hl & Hv). exists links. split_and!; try done. intros j o Hj. specialize (Hv j o Hj).
    apply lookup_lt_Some in Hj.
    assert (agree_on m m' (base + Z.of_nat j * P (S h)) (P (S h))) as Ha'.
    { intros k Hk. apply Ha. eapply within_slot; [|exact Hk]. lia. }
    destruct o as [l|]; simpl in *; [|by eapply empty_ext]. destruct Hv as [Hh Hv]. split; [by eapply has_ext|].
    destruct l as [c cache|n]; [|by eapply IH]. destruct Hv as [(n & b & bz & Hf & Hr & Hrest) Hc]. split.
    + exists n, b, bz. split; [done|]. split; [by eapply IH|done].
    + destruct cache; [by eapply IH|done].
Qed.
Lemma stored_by_impl (R R' : Store → Z → Node V → gmap Z V → Prop) s s' base c m m' : store_le s s' →
  (∀ n, R s base n m → R' s' base n m') → stored_by R s base c m → stored_by R' s' base c m'.
Proof using.
  intros Hle HR (n & b & bz & Hf & Hr & Hs & Hz & Hc & Hg). exists n, b, bz. split_and!; try done; [by apply HR|].
  by eapply store_le_get.
Qed.

Lemma amt_node_mono h s s' base n m : store_le s s' → node_rep h s base n m → node_rep h s' base n m.
Proof using.
  intros Hle. revert base n. induction h as [|h IH]; intros base n; [done|].
  intros (links & -> & Hl & Hv). exists links. split_and!; try done. intros j o Hj. specialize (Hv j o Hj).
  destruct o as [[c cache|n]|]; simpl in *; [|destruct Hv; split; [done|by apply IH]|done]. destruct Hv as (Hh & Hst & Hc). split_and!; [done| |].
  - eapply stored_by_impl; [done| |exact Hst]. apply IH.
  - destruct cache; [by apply IH|done].
Qed.

(** ** Serialisation *)

Lemma bmap_len_new : length (bmap_new (width bw)) = bmap_bytes bw.
Proof using Hbw.
  unfold bmap_new, bmap_bytes. rewrite length_replicate. pose proof width_pow as Hw. destruct (Z.leb_spec bw 3).
  - assert (2 ^ bw ≤ 2 ^ 3) by (apply Z.pow_le_mono_r; lia). rewrite Nat.div_small by lia. done.
  - assert (2 ^ bw = 8 * 2 ^ (bw - 3)) as E by (change 8 with (2 ^ 3); rewrite <-Z.pow_add_r by lia; f_equal; lia).
    rewrite Z.shiftl_1_l. pose proof (Z.pow_pos_nonneg 2 (bw - 3) ltac:(lia) ltac:(lia)).
    replace (width bw - 1)%nat with (7 + (Z.to_nat (2 ^ (bw - 3)) - 1) * 8)%nat by lia.
    rewrite Nat.div_add by lia. change (7 / 8)%nat with 0%nat. lia.
Qed.
Lemma width_bmap : (width bw ≤ 8 * bmap_bytes bw)%nat.
Proof using Hbw.
  rewrite <-bmap_len_new. unfold bmap_new. rewrite length_replicate. pose proof (Nat.div_mod_eq (width bw - 1) 8).
  pose proof (Nat.mod_upper_bound (width bw - 1) 8 ltac:(lia)). lia.
Qed.

Lemma node_is_empty_on h s base n m : node_rep h s base n m → node_is_empty n = true ↔ empty_on m base (P (S h)).
Proof using Hbw.
  assert (∀ {A} (l : list (option A)), forallb is_none l = true ↔ ∀ j o, l !! j = Some o → o = None) as Hall.
  { intros A l. rewrite forallb_forall. split.
    - intros Hl j o Hj. specialize (Hl o). rewrite <-list_elem_of_In in Hl. apply list_elem_of_lookup_2 in Hj.
      apply Hl in Hj. by destruct o.
    - intros Hl o Ho. apply list_elem_of_In, list_elem_of_lookup in Ho as [j Hj]. by rewrite (Hl j o Hj). }
  destruct h as [|h].
  - intros (vals & -> & Hl & Hv). simpl. rewrite Hall. split.
    + intros Hn k Hk. unfold within in Hk. rewrite P_S, P_0 in Hk.
      destruct (lookup_lt_is_Some_2 vals (Z.to_nat (k - base))) as [o Ho]; [lia|]. pose proof (Hv _ _ Ho) as E.
      rewrite (Hn _ _ Ho) in E. rewrite E. f_equal. lia.
    + intros He j o Hj. rewrite (Hv j o Hj). apply He. apply lookup_lt_Some in Hj. unfold within. rewrite P_S, P_0. lia.
  - intros (links & -> & Hl & Hv). simpl. rewrite Hall. split.
    + intros Hn k Hk. destruct (within_find _ _ _ Hk) as (j & Hj & Hkj).
      destruct (lookup_lt_is_Some_2 links j) as [o Ho]; [lia|]. pose proof (Hv _ _ Ho) as E. rewrite (Hn _ _ Ho) in E. by apply E.
    + intros He j o Hj. specialize (Hv j o Hj). apply lookup_lt_Some in Hj. destruct o as [l|]; [|done]. simpl in Hv.
      destruct Hv as [Hh _]. exfalso. apply (has_not_empty _ _ _ Hh). intros k Hk. apply He. eapply within_slot; [|exact Hk]. lia.
Qed.

(** A node without dirty links can be written. *)
Definition clean n : Prop :=
  match n with NodeLeaf _ => True | NodeLink links => ∀ l, Some l ∈ links → ∃ c cache, l = LinkCid c cache end.
Lemma clean_serialize n : clean n → ∃ b, node_serialize n = Ok b.
Proof using.
  destruct n as [links|vals]; simpl.
  - intros Hc. destruct (collapse_total link_serialize links 0 (bmap_new (length links))) as [[bm cs] ->]; [|eauto].
    intros l Hl. destruct (Hc l Hl) as (c & cache & ->). by exists c.
  - intros _. destruct (collapse_total (λ v : V, Ok v) vals 0 (bmap_new (length vals))) as [[bm cs] ->]; eauto.
Qed.

(** Reading back what was written; a node of links has to have one. *)
Lemma expand_serialize h s base n m b : node_rep h s base n m → unloaded n →
  (h = O ∨ has_on m base (P (S h))) → node_serialize n = Ok b → expand bw b = Ok n.
Proof using Hbw.
  intros Hr Hf Hne. destruct n as [links|vals]; simpl.
  - destruct (collapse _ 0 links _) as [[bm cs]|] eqn:Ec; [|done]. intros [= <-].
    assert (length links = width bw) as Hl. { destruct h; destruct Hr as (? & ? & ? & _); by simplify_eq. }
    destruct (fill_collapse _ (λ c, LinkCid c None) "links" _ _ _ _ _ Ec) as (Hfill & Hbl & _).
    { intros l c Hin. destruct (Hf l Hin) as [c' ->]. by intros [= ->]. }
    { rewrite Hl, bmap_len_new. pose proof width_bmap. lia. }
    { intros. apply bmap_get_new. }
    rewrite Hl, bmap_len_new in Hbl. rewrite Hl in Hfill. destruct cs as [|c cs].
    + destruct Hne as [->|Hh]; [by destruct Hr as (? & ? & _)|]. apply collapse_empty in Ec.
      exfalso. apply (has_not_empty _ _ _ Hh). by apply (node_is_empty_on h s base (NodeLink links) m Hr).
    + unfold expand. rewrite Hbl, Nat.eqb_refl. cbn [negb]. by rewrite Hfill.
  - destruct (collapse _ 0 vals _) as [[bm cs]|] eqn:Ec; [|done]. intros [= <-].
    assert (length vals = width bw) as Hl. { destruct h; destruct Hr as (? & ? & ? & _); by simplify_eq. }
    destruct (fill_collapse _ id "values" _ _ _ _ _ Ec) as (Hfill & Hbl & _).
    { intros v v' _ [= ->]. done. }
    { rewrite Hl, bmap_len_new. pose proof width_bmap. lia. }
    { intros. apply bmap_get_new. }
    rewrite Hl, bmap_len_new in Hbl. rewrite Hl in Hfill. unfold expand. rewrite Hbl, Nat.eqb_refl. cbn [negb]. by rewrite Hfill.
Qed.

Lemma node_load_ok h s base c m : stored_rep h s base c m → has_on m base (P (S h)) →
  ∃ n, node_load s bw c = Ok n ∧ node_rep h s base n m.
Proof using Hbw CS.
  intros (n & b & bz & Hf & Hr & Hs & Hz & -> & Hg) Hne. exists n. split; [|done].
  unfold node_load, get_cbor. cbn. rewrite Hg. destruct (from_to_vec b) as (bz' & Hz' & Hfs).
  assert (bz = bz') as -> by congruence. rewrite Hfs. eapply expand_serialize; eauto.
Qed.

(** The node behind a link. *)
Lemma load_cached_ok h s base c cache m : link_rep (node_rep h) s base (P (S h)) (Some (LinkCid c cache)) m →
  ∃ n, load_cached s bw c cache = Ok n ∧ node_rep h s base n m.
Proof using Hbw CS.
  intros (Hh & Hst & Hc). destruct cache as [n|]; [by exists n|]. by apply node_load_ok.
Qed.
End rep.
