(* ===== verification/AmtMap.v ===== *)
(** * The node operations of the AMT as map operations

    Lookup, insertion, deletion, flush and mutation in place of a node keep the
    representation and change the map as they should; the CID of a stored node
    is determined by what it represents. *)

From S2P Require Import Prelude Effects Address Types Amt AmtRep.
From stdpp Require Import gmap strings list fin_maps sorting.
From Stdlib Require Import ZArith Lia.
#[local] Open Scope Z_scope.

Section node_ops.
Context `{BSS : BlockstoreSpec} {V : Type} `{CB : !AmtCodec V} `{CS : !CborSpec (CollapsedNode V)}.
Context (bw : Z) (Hbw : 1 ≤ bw ≤ 63).
Implicit Types (s : Store) (n : Node V) (m : gmap Z V).
#[local] Abbreviation P := (P bw).
#[local] Abbreviation node_rep := (node_rep bw).
#[local] Abbreviation stored_rep := (stored_rep bw).

(** ** Changing one slot *)

Lemma link_rep_ext h s base o m m' : agree_on m m' base (P (S h)) →
  link_rep (node_rep h) s base (P (S h)) o m → link_rep (node_rep h) s base (P (S h)) o m'.
Proof using BSS Hbw.
  intros Ha. destruct o as [[c cache|n]|]; simpl.
  - intros (Hh & Hst & Hc). split_and!; [by eapply has_ext| |destruct cache; [by eapply node_rep_ext|done]].
    eapply stored_by_impl; [reflexivity| |exact Hst]. intros n. by apply node_rep_ext.
  - intros [Hh Hn]. split; [by eapply has_ext|by eapply node_rep_ext].
  - by apply empty_ext.
Qed.

Lemma rep_set_link h s base links j o m m' : node_rep (S h) s base (NodeLink links) m →
  (∀ k, within base (P (S (S h))) k → ¬ within (base + Z.of_nat j * P (S h)) (P (S h)) k → m !! k = m' !! k) →
  link_rep (node_rep h) s (base + Z.of_nat j * P (S h)) (P (S h)) o m' →
  node_rep (S h) s base (set_link j o links) m'.
Proof using BSS Hbw.
  intros (links' & [= <-] & Hl & Hv) Hag Ho. exists (<[j := o]> links). split_and!; [done|by rewrite length_insert|].
  intros j' o' Hj'. apply list_lookup_insert_Some in Hj' as [(-> & -> & _)|[Hne Hj']]; [done|].
  eapply link_rep_ext; [|by apply Hv]. apply lookup_lt_Some in Hj'. intros k Hk. apply Hag.
  - eapply within_slot; [done| |exact Hk]. lia.
  - intros Hk'. pose proof (slots_disjoint bw Hbw _ _ _ _ _ Hk Hk'). lia.
Qed.

(** A slot that is rewritten with the map unchanged. *)
Lemma rep_same_link h s base links j o m : node_rep (S h) s base (NodeLink links) m →
  link_rep (node_rep h) s (base + Z.of_nat j * P (S h)) (P (S h)) o m → node_rep (S h) s base (set_link j o links) m.
Proof using BSS Hbw. intros Hr. by apply (rep_set_link _ _ _ _ _ _ m m). Qed.

Lemma set_link_same h s base links j o m : node_rep (S h) s base (NodeLink links) m → links !! j = Some o →
  node_rep (S h) s base (NodeLink links) m ∧ link_rep (node_rep h) s (base + Z.of_nat j * P (S h)) (P (S h)) o m.
Proof using. intros Hr Hj. split; [done|]. destruct Hr as (links' & [= <-] & _ & Hv). by apply Hv. Qed.

(** Where index [i] of a node with links is. *)
Lemma enter_link h s base n m i : node_rep (S h) s base n m → 0 ≤ i < P (S (S h)) → i ≤ MAX_INDEX →
  ∃ links j o, n = NodeLink links ∧ Z.to_nat (i / nodes_for_height bw (S h)) = j ∧ links !! j = Some o ∧
    link_rep (node_rep h) s (base + Z.of_nat j * P (S h)) (P (S h)) o m ∧
    0 ≤ i `mod` nodes_for_height bw (S h) < P (S h) ∧ i `mod` nodes_for_height bw (S h) ≤ MAX_INDEX ∧
    base + i = base + Z.of_nat j * P (S h) + i `mod` nodes_for_height bw (S h).
Proof using BSS Hbw.
  intros (links & -> & Hl & Hv) Hi Hmax. rewrite (nfh_div bw Hbw), (nfh_mod bw Hbw) by lia.
  destruct (slot_split bw Hbw (S h) i Hi) as (Hj & Ej & Hm & E).
  destruct (lookup_lt_is_Some_2 links (Z.to_nat (i / P (S h)))) as [o Ho]; [lia|].
  exists links, (Z.to_nat (i / P (S h))), o. split_and!; try done; try lia; [by apply Hv|].
  pose proof (P_pos bw Hbw (S h)). pose proof (Z.mod_le i (P (S h)) ltac:(lia) ltac:(lia)). lia.
Qed.

Lemma enter_leaf s base n m i : node_rep 0 s base n m → 0 ≤ i < P 1 →
  ∃ vals, n = NodeLeaf vals ∧ vals !! Z.to_nat i = Some (m !! (base + i)) ∧ length vals = width bw.
Proof using BSS Hbw.
  intros (vals & -> & Hl & Hv) Hi. rewrite (P_S bw Hbw), (P_0 bw) in Hi.
  destruct (lookup_lt_is_Some_2 vals (Z.to_nat i)) as [o Ho]; [lia|]. exists vals. split_and!; try done.
  rewrite Ho. f_equal. rewrite (Hv _ _ Ho). f_equal. lia.
Qed.

Lemma rep_set_leaf s base vals m i o : node_rep 0 s base (NodeLeaf vals) m → 0 ≤ i < P 1 →
  node_rep 0 s base (NodeLeaf (<[Z.to_nat i := o]> vals)) (partial_alter (λ _, o) (base + i) m).
Proof using BSS Hbw.
  intros (vals' & [= <-] & Hl & Hv) Hi. rewrite (P_S bw Hbw), (P_0 bw) in Hi.
  exists (<[Z.to_nat i := o]> vals). split_and!; [done|by rewrite length_insert|].
  intros j o' Hj. apply list_lookup_insert_Some in Hj as [(<- & <- & _)|[Hne Hj]].
  - replace (base + Z.of_nat (Z.to_nat i)) with (base + i) by lia. by rewrite lookup_partial_alter_eq.
  - rewrite lookup_partial_alter_ne by lia. by apply Hv.
Qed.

Lemma insert_alter (m : gmap Z V) k v : <[k := v]> m = partial_alter (λ _, Some v) k m.
Proof using. done. Qed.
Lemma delete_alter (m : gmap Z V) k : delete k m = partial_alter (λ _, None) k m.
Proof using. done. Qed.

Lemma alter_outside (m : gmap Z V) (o : option V) base h j k k' : within (base + Z.of_nat j * P h) (P h) k →
  ¬ within (base + Z.of_nat j * P h) (P h) k' → m !! k' = partial_alter (λ _, o) k m !! k'.
Proof using. intros Hk Hk'. rewrite lookup_partial_alter_ne; [done|]. by intros ->. Qed.

(** ** Lookup *)

Lemma node_get_ok h s base n m i : node_rep h s base n m → 0 ≤ i < P (S h) → i ≤ MAX_INDEX →
  ∃ n', node_get s h bw i n = (Ok (m !! (base + i)), n') ∧ node_rep h s base n' m.
Proof using BSS Hbw CS.
  revert base n i. induction h as [|h IH]; intros base n i Hr Hi Hmax.
  { destruct (enter_leaf _ _ _ _ _ Hr Hi) as (vals & -> & Hv & _). exists (NodeLeaf vals). simpl. by rewrite Hv. }
  destruct (enter_link _ _ _ _ _ _ Hr Hi Hmax) as (links & j & o & -> & Ej & Hj & Ho & Hi' & Hm' & E).
  cbn [node_get]. rewrite Ej, Hj, E. cbn [mjoin option_join]. destruct o as [[c cache|sub]|].
  - destruct (load_cached_ok bw Hbw h _ _ _ _ _ Ho) as (sub & -> & Hsub).
    destruct (IH _ _ _ Hsub Hi' Hm') as (sub' & -> & Hsub'). eexists. split; [done|].
    apply rep_same_link; [done|]. destruct Ho as (? & ? & _). done.
  - destruct (IH _ _ _ (proj2 Ho) Hi' Hm') as (sub' & -> & Hsub'). eexists. split; [done|].
    apply rep_same_link; [done|]. by destruct Ho.
  - eexists. split; [|exact Hr]. do 2 f_equal. symmetry. apply Ho. unfold within. lia.
Qed.

(** ** Insertion *)

Lemma new_sub_rep h s base m : empty_on m base (P (S h)) → node_rep h s base (new_sub_node h bw) m.
Proof using BSS Hbw.
  intros He. destruct h as [|h]; eexists; (split_and!; [done|apply length_replicate|]); intros j o Hj;
    apply lookup_replicate in Hj as [-> Hj].
  - symmetry. apply He. unfold within. rewrite (P_S bw Hbw), (P_0 bw). lia.
  - intros k Hk. apply He. eapply (within_slot bw Hbw); [|exact Hk]. lia.
Qed.

Lemma node_set_ok h s base n m i v : node_rep h s base n m → 0 ≤ i < P (S h) → i ≤ MAX_INDEX →
  ∃ n', node_set s h bw i v n = (Ok (m !! (base + i)), n') ∧ node_rep h s base n' (<[base + i := v]> m).
Proof using BSS Hbw CS.
  revert base n i. induction h as [|h IH]; intros base n i Hr Hi Hmax.
  { destruct (enter_leaf _ _ _ _ _ Hr Hi) as (vals & -> & Hv & _). cbn [node_set set_leaf]. rewrite Hv.
    eexists. split; [done|]. rewrite insert_alter. by apply rep_set_leaf. }
  destruct (enter_link _ _ _ _ _ _ Hr Hi Hmax) as (links & j & o & -> & Ej & Hj & Ho & Hi' & Hm' & E).
  cbn [node_set]. rewrite Ej, Hj, E.
  assert (∃ sub, match o with
     | Some (LinkCid cid cache) => load_cached s bw cid cache
     | Some (LinkDirty sub) => Ok sub
     | None => Ok (new_sub_node h bw)
     end = Ok sub ∧ node_rep h s (base + Z.of_nat j * P (S h)) sub m) as (sub & -> & Hsub).
  { destruct o as [[c cache|sub]|]; [by apply load_cached_ok|exists sub; by destruct Ho|].
    eexists. split; [done|]. by apply new_sub_rep. }
  destruct (IH _ _ _ Hsub Hi' Hm') as (sub' & -> & Hsub'). eexists. split; [done|].
  eapply rep_set_link; [done| |].
  - intros k _ Hk. rewrite insert_alter. eapply alter_outside; [|exact Hk]. unfold within. lia.
  - split; [|done]. eexists. split; [|rewrite lookup_insert_eq; eauto]. unfold within. lia.
Qed.

(** ** Deletion *)

Lemma node_delete_ok h s base n m i : node_rep h s base n m → 0 ≤ i < P (S h) → i ≤ MAX_INDEX →
  ∃ n', node_delete s h bw i n = (Ok (m !! (base + i)), n') ∧ node_rep h s base n' (delete (base + i) m).
Proof using BSS Hbw CS.
  revert base n i. induction h as [|h IH]; intros base n i Hr Hi Hmax.
  { destruct (enter_leaf _ _ _ _ _ Hr Hi) as (vals & -> & Hv & _). cbn [node_delete]. rewrite Hv.
    eexists. split; [done|]. rewrite delete_alter. by apply rep_set_leaf. }
  destruct (enter_link _ _ _ _ _ _ Hr Hi Hmax) as (links & j & o & -> & Ej & Hj & Ho & Hi' & Hm' & E).
  cbn [node_delete]. rewrite Ej, Hj, E.
  assert (∀ sub, node_rep h s (base + Z.of_nat j * P (S h)) sub m → ∃ sub',
    node_delete s h bw (i `mod` nodes_for_height bw (S h)) sub = (Ok (m !! (base + i)), sub') ∧
    node_rep h s (base + Z.of_nat j * P (S h)) sub' (delete (base + i) m)) as IH' by (intros; rewrite E; by apply IH).
  rewrite E in IH'. set (k := base + Z.of_nat j * P (S h) + i `mod` nodes_for_height bw (S h)) in *.
  assert (within (base + Z.of_nat j * P (S h)) (P (S h)) k) as Hk by (unfold k, within; lia).
  assert (∀ sub', node_rep h s (base + Z.of_nat j * P (S h)) sub' (delete k m) →
    node_rep (S h) s base (set_link j (if node_is_empty sub' then None else Some (LinkDirty sub')) links) (delete k m)) as Hset.
  { intros sub' Hsub'. eapply rep_set_link; [done| |].
    - intros k' _ Hk'. rewrite delete_alter. by eapply alter_outside.
    - pose proof (node_is_empty_on bw Hbw h s _ _ _ Hsub') as He. destruct (node_is_empty sub'); [by apply He|].
      split; [|done]. destruct (has_or_empty (delete k m) (base + Z.of_nat j * P (S h)) (P (S h))) as [|Hem]; [done|].
      by apply He in Hem. }
  destruct o as [[c cache|sub]|].
  - destruct (load_cached_ok bw Hbw h _ _ _ _ _ Ho) as (sub & -> & Hsub).
    destruct (IH' _ Hsub) as (sub' & -> & Hsub'). destruct (m !! k) as [v|] eqn:Hmk; (eexists; split; [done|]); [by apply Hset|].
    rewrite delete_id in * by done. apply rep_same_link; [done|]. destruct Ho as (? & ? & _). done.
  - destruct (IH' _ (proj2 Ho)) as (sub' & -> & Hsub').
    destruct (m !! k) as [v|] eqn:Hmk; (eexists; split; [done|]); [by apply Hset|].
    rewrite delete_id in * by done. apply rep_same_link; [done|]. by destruct Ho.
  - rewrite (Ho k Hk). eexists. split; [done|]. rewrite delete_id by (by apply Ho). exact Hr.
Qed.

(** ** Storing *)

(** Without the loaded nodes. *)
Definition strip (o : option (Link V)) : option (Link V) :=
  match o with Some (LinkCid c _) => Some (LinkCid c None) | _ => o end.
Definition unload n : Node V := match n with NodeLink links => NodeLink (strip <$> links) | _ => n end.

Lemma unload_serialize n : node_serialize (unload n) = node_serialize n.
Proof using.
  destruct n as [links|vals]; [|done]. simpl. rewrite length_fmap.
  rewrite (collapse_ext link_serialize (strip <$> links) links); [done|].
  apply Forall2_fmap_l, Forall_Forall2_diag, Forall_true. by intros [[]|].
Qed.

Lemma unload_unloaded n : clean n → unloaded (unload n).
Proof using.
  destruct n as [links|vals]; [|done]. simpl. intros Hc l Hl. apply list_elem_of_fmap in Hl as (o & Ho & Hin).
  destruct o as [l'|]; [|done]. destruct (Hc l' Hin) as (c & cache & ->). injection Ho as ->. eauto.
Qed.

Lemma unload_rep h s base n m : node_rep h s base n m → node_rep h s base (unload n) m.
Proof using.
  destruct h as [|h]; [by intros (vals & -> & ?); exists vals|].
  intros (links & -> & Hl & Hv). exists (strip <$> links). split_and!; [done|by rewrite length_fmap|].
  intros j o Hj. apply list_lookup_fmap_Some in Hj as (o' & -> & Hj). specialize (Hv j o' Hj).
  destruct o' as [[c cache|sub]|]; [|done..]. destruct Hv as (? & ? & _). done.
Qed.

Lemma amt_put_node_ok `{!StoreTotal} h s base n m : store_ok s → node_rep h s base n m → clean n →
  ∃ c s', put_node s n = (Ok c, s') ∧ store_ok s' ∧ store_le s s' ∧ stored_rep h s' base c m.
Proof using CS.
  intros Hs Hr Hc. unfold put_node. destruct (clean_serialize n Hc) as [b Hb]. rewrite Hb. unfold put_cbor.
  destruct (from_to_vec b) as (bz & Hz & _). rewrite Hz. destruct (bs_put s BLAKE2B_256 DAG_CBOR bz) as [r s'] eqn:Ep.
  destruct (bs_put_ok _ _ _ _ _ _ Hs Ep) as [Hs' Hle]. unfold bs_put in Ep.
  destruct (put_keyed_total s (block_cid DAG_CBOR BLAKE2B_256 bz) bz) as [s1 E1]. rewrite E1 in Ep. injection Ep as <- <-.
  exists (block_cid DAG_CBOR BLAKE2B_256 bz), s1. split_and!; try done.
  exists (unload n), b, bz. split_and!; try done.
  - by apply unload_unloaded.
  - apply unload_rep. by eapply amt_node_mono.
  - by rewrite unload_serialize.
  - by eapply put_keyed_get; [exact Hs| |exact E1].
Qed.

(** ** Flush *)

(** A link to a stored node, or none. *)
Definition not_dirty (o : option (Link V)) : Prop := ∀ n, o ≠ Some (LinkDirty n).
Lemma clean_links links : clean (NodeLink links) ↔ Forall not_dirty links.
Proof using.
  simpl. rewrite Forall_forall. split.
  - intros Hc o Ho n ->. by destruct (Hc _ Ho) as (? & ? & ?).
  - intros Hf l Hl. specialize (Hf _ Hl). destruct l as [c cache|n]; [eauto|by destruct (Hf n)].
Qed.

Lemma flush_links_ok `{!StoreTotal} h base m
  (IH : ∀ s base n, store_ok s → node_rep h s base n m → ∃ n' s', node_flush s n = (Ok tt, n', s') ∧
    store_ok s' ∧ store_le s s' ∧ node_rep h s' base n' m ∧ clean n') links : ∀ i s, store_ok s →
  (∀ j o, links !! j = Some o → link_rep (node_rep h) s (base + Z.of_nat (i + j) * P (S h)) (P (S h)) o m) →
  ∃ links' s', flush_links node_flush s links = (Ok tt, links', s') ∧ store_ok s' ∧ store_le s s' ∧
    length links' = length links ∧ Forall not_dirty links' ∧
    ∀ j o, links' !! j = Some o → link_rep (node_rep h) s' (base + Z.of_nat (i + j) * P (S h)) (P (S h)) o m.
Proof using CS.
  assert (∀ s s' b o, store_le s s' → link_rep (node_rep h) s b (P (S h)) o m → link_rep (node_rep h) s' b (P (S h)) o m) as Hmono.
  { intros s s' b o Hle. destruct o as [[c cache|n]|]; simpl; [|intros [? ?]; split; [done|by eapply amt_node_mono]|done].
    intros (? & Hst & Hc). split_and!; [done| |destruct cache; [by eapply amt_node_mono|done]].
    eapply stored_by_impl; [done| |exact Hst]. intros n. by apply amt_node_mono. }
  induction links as [|o links IHl]; intros i s Hs Hv; [by exists [], s|].
  pose proof (Hv O o eq_refl) as Ho. rewrite Nat.add_0_r in Ho.
  assert (∀ s1 o', store_ok s1 → store_le s s1 → not_dirty o' →
    link_rep (node_rep h) s1 (base + Z.of_nat i * P (S h)) (P (S h)) o' m →
    ∃ links' s', flush_links node_flush s1 links = (Ok tt, links', s') ∧ store_ok s' ∧ store_le s s' ∧
      length (o' :: links') = S (length links) ∧ Forall not_dirty (o' :: links') ∧
      ∀ j o, (o' :: links') !! j = Some o → link_rep (node_rep h) s' (base + Z.of_nat (i + j) * P (S h)) (P (S h)) o m) as Hgo.
  { intros s1 o' Hs1 Hle1 Hnd Ho'. destruct (IHl (S i) s1 Hs1) as (links' & s' & E & Hs' & Hle & Hlen & Hf & Hv').
    { intros j o1 Hj. replace (S i + j)%nat with (i + S j)%nat by lia. by eapply Hmono, Hv. }
    exists links', s'. split_and!; [done..|by etrans|simpl; lia|by constructor|].
    intros [|j] o1; simpl; [intros [= <-]; rewrite Nat.add_0_r; by eapply Hmono|].
    intros Hj. replace (i + S j)%nat with (S i + j)%nat by lia. by apply Hv'. }
  destruct o as [[c cache|n]|]; cbn [flush_links].
  - destruct (Hgo s (Some (LinkCid c cache)) Hs ltac:(done) ltac:(done) Ho) as (links' & s' & -> & ?). by eexists _, _.
  - destruct Ho as [Hh Hn]. destruct (IH s _ n Hs Hn) as (n' & s1 & -> & Hs1 & Hle1 & Hn' & Hc).
    destruct (amt_put_node_ok h s1 _ n' m Hs1 Hn' Hc) as (c & s2 & -> & Hs2 & Hle2 & Hst).
    destruct (Hgo s2 (Some (LinkCid c (Some n'))) Hs2) as (links' & s' & -> & ?); [by etrans|done| |by eexists _, _].
    split_and!; [done..|by eapply amt_node_mono].
  - destruct (Hgo s None Hs ltac:(done) ltac:(done) Ho) as (links' & s' & -> & ?). by eexists _, _.
Qed.

Lemma amt_node_flush_ok `{!StoreTotal} h s base n m : store_ok s → node_rep h s base n m →
  ∃ n' s', node_flush s n = (Ok tt, n', s') ∧ store_ok s' ∧ store_le s s' ∧ node_rep h s' base n' m ∧ clean n'.
Proof using CS.
  revert s base n. induction h as [|h IH]; intros s base n Hs.
  - intros (vals & -> & Hl & Hv). exists (NodeLeaf vals), s. split_and!; try done. by exists vals.
  - intros (links & -> & Hl & Hv).
    destruct (flush_links_ok h base m IH links 0 s Hs Hv) as (links' & s' & E & Hs' & Hle & Hlen & Hf & Hv').
    exists (NodeLink links'), s'. cbn [node_flush]. rewrite E. split_and!; try done; [|by apply clean_links].
    exists links'. split_and!; [done|congruence|done].
Qed.

(** ** The CID is determined by the content *)

Lemma rep_unique h s s' base n n' m : unloaded n → unloaded n' → node_rep h s base n m → node_rep h s' base n' m → n = n'.
Proof using.
  revert base n n'. induction h as [|h IH]; intros base n n' Hf Hf'.
  - intros (vals & -> & Hl & Hv) (vals' & -> & Hl' & Hv'). f_equal. apply (list_eq_same_length _ _ (width bw)); [done..|].
    intros j o o' _ Hj Hj'. by rewrite (Hv _ _ Hj), (Hv' _ _ Hj').
  - intros (links & -> & Hl & Hv) (links' & -> & Hl' & Hv'). f_equal. apply (list_eq_same_length _ _ (width bw)); [done..|].
    intros j o o' _ Hj Hj'. pose proof (Hv _ _ Hj) as Ho. pose proof (Hv' _ _ Hj') as Ho'.
    destruct o as [l|], o' as [l'|]; simpl in Ho, Ho';
      [|by destruct (has_not_empty _ _ _ (proj1 Ho))|by destruct (has_not_empty _ _ _ (proj1 Ho'))|done].
    destruct (Hf l) as [x ->]; [by eapply list_elem_of_lookup_2|]. destruct (Hf' l') as [x' ->]; [by eapply list_elem_of_lookup_2|].
    destruct Ho as (_ & (n & b & bz & Hu & Hn & Hb & Hz & -> & _) & _), Ho' as (_ & (n' & b' & bz' & Hu' & Hn' & Hb' & Hz' & -> & _) & _).
    assert (n = n') as <- by (by eapply IH). congruence.
Qed.

(** ** Entries in order *)

(** The entries of [m] from [base] on, by index. *)
Definition entries m (base len : Z) : list (Z * V) := omap (λ k, pair k <$> m !! k) (seqZ base len).

Lemma elem_of_entries m base len k v : (k, v) ∈ entries m base len ↔ within base len k ∧ m !! k = Some v.
Proof using.
  unfold entries, within. rewrite list_elem_of_omap. split.
  - intros (k' & Hk' & E). apply elem_of_seqZ in Hk'. destruct (m !! k') as [v'|] eqn:Em; [|done]. by simplify_eq/=.
  - intros [Hk E]. exists k. split; [by apply elem_of_seqZ|]. by rewrite E.
Qed.
Lemma entries_app m base a b : 0 ≤ a → 0 ≤ b → entries m base (a + b) = entries m base a ++ entries m (base + a) b.
Proof using. intros Ha Hb. unfold entries. by rewrite seqZ_app, omap_app by done. Qed.
Lemma entries_nil m base len : empty_on m base len → entries m base len = [].
Proof using.
  intros He. destruct (entries m base len) as [|[k v] l] eqn:E; [done|].
  assert ((k, v) ∈ entries m base len) as Hin by (rewrite E; left). apply elem_of_entries in Hin as [Hk Hv].
  by rewrite (He k Hk) in Hv.
Qed.
Lemma entries_one m k : entries m k 1 = match m !! k with Some v => [(k, v)] | None => [] end.
Proof using. unfold entries, seqZ. simpl. rewrite ?Z.add_0_l, ?Z.add_0_r. destruct (m !! k); done. Qed.
Lemma entries_sorted m base len : StronglySorted Z.lt (entries m base len).*1.
Proof using.
  destruct (Z.le_gt_cases len 0) as [Hlen|Hlen]; [unfold entries; rewrite seqZ_nil by done; constructor|].
  replace len with (Z.of_nat (Z.to_nat len)) by lia. generalize (Z.to_nat len) as l. clear len Hlen. intros l.
  revert base. induction l as [|l IH]; intros base; [constructor|].
  replace (Z.of_nat (S l)) with (1 + Z.of_nat l) by lia. rewrite entries_app, entries_one, fmap_app by lia.
  destruct (m !! base) as [v|]; [|apply IH]. constructor; [apply IH|]. apply Forall_fmap, Forall_forall.
  intros [k w] Hk. apply elem_of_entries in Hk as [Hk _]. unfold within in Hk. simpl. lia.
Qed.

(** ** Mutation in place *)

Section mutate.
Context {A : Type} (f : Z → V → A → result string bool * option V * A).
(** A callback that never stops or fails: the new value, if any, depends on the entry. *)
Context (g : Z → V → option V) (st : Z → V → A → A) (Hf : ∀ k v a, f k v a = (Ok true, g k v, st k v a)).

Definition updated m : gmap Z V := map_imap (λ k v, Some (default v (g k v))) m.
Definition visited (l : list (Z * V)) (a : A) : A := fold_left (λ a '(k, v), st k v a) l a.
(** Whether the callback takes one of the values mutably. *)
Definition mutates (l : list (Z * V)) : bool := existsb (λ '(k, v), bool_decide (is_Some (g k v))) l.

Lemma lookup_updated m k : updated m !! k = (λ v, default v (g k v)) <$> m !! k.
Proof using. unfold updated. rewrite map_lookup_imap. by destruct (m !! k). Qed.
Lemma updated_has m base len : has_on m base len → has_on (updated m) base len.
Proof using. intros (k & Hk & [v Hv]). exists k. split; [done|]. rewrite lookup_updated, Hv. eauto. Qed.
Lemma updated_empty m base len : empty_on m base len → empty_on (updated m) base len.
Proof using. intros He k Hk. by rewrite lookup_updated, He. Qed.
Lemma updated_same m base len : mutates (entries m base len) = false → agree_on m (updated m) base len.
Proof using.
  intros Hm k Hk. rewrite lookup_updated. destruct (m !! k) as [v|] eqn:E; [|done]. simpl. f_equal.
  assert ((k, v) ∈ entries m base len) as Hin by (by apply elem_of_entries).
  unfold mutates in Hm. destruct (g k v) as [w|] eqn:Eg; [|done]. exfalso.
  apply not_true_iff_false in Hm. apply Hm, existsb_exists. exists (k, v). split; [by apply list_elem_of_In|]. by rewrite Eg.
Qed.
Lemma mutates_app l l' : mutates (l ++ l') = mutates l || mutates l'.
Proof using. apply existsb_app. Qed.
Lemma visited_app l l' a : visited (l ++ l') a = visited l' (visited l a).
Proof using. apply fold_left_app. Qed.

Lemma leaf_mut_ok m base vals : ∀ i did a, (∀ j o, vals !! j = Some o → o = m !! (base + i + Z.of_nat j)) →
  ∃ vals', leaf_mut f base i vals did a =
      (Ok (true, did || mutates (entries m (base + i) (Z.of_nat (length vals)))), vals',
       visited (entries m (base + i) (Z.of_nat (length vals))) a) ∧ length vals' = length vals ∧
    ∀ j o, vals' !! j = Some o → o = updated m !! (base + i + Z.of_nat j).
Proof using Hf.
  induction vals as [|o vals IH]; intros i did a Hv.
  { exists []. simpl. split_and!; [|done..]. by rewrite orb_false_r. }
  cbn [length]. replace (Z.of_nat (S (length vals))) with (1 + Z.of_nat (length vals)) by lia.
  rewrite entries_app, entries_one by lia. pose proof (Hv O o eq_refl) as Ho. rewrite Z.add_0_r in Ho.
  assert (∀ did a, ∃ vals', leaf_mut f base (i + 1) vals did a =
      (Ok (true, did || mutates (entries m (base + i + 1) (Z.of_nat (length vals)))), vals',
       visited (entries m (base + i + 1) (Z.of_nat (length vals))) a) ∧ length vals' = length vals ∧
    ∀ j o, vals' !! j = Some o → o = updated m !! (base + i + Z.of_nat (S j))) as Hrest.
  { intros did' a'. destruct (IH (i + 1) did' a') as (vals' & E & Hl & Hv').
    { intros j o' Hj. rewrite (Hv (S j) o' Hj). f_equal. lia. }
    rewrite Z.add_assoc in E. exists vals'. split_and!; [done..|]. intros j o' Hj. rewrite (Hv' j o' Hj). f_equal. lia. }
  destruct o as [v|]; cbn [leaf_mut]; rewrite <-Ho.
  - rewrite Hf. cbn [negb]. destruct (Hrest (did || bool_decide (is_Some (g (base + i) v))) (st (base + i) v a)) as (vals' & -> & Hl & Hv').
    exists (Some (default v (g (base + i) v)) :: vals'). split_and!; [|simpl; by rewrite Hl|].
    + rewrite mutates_app, visited_app, orb_assoc. unfold mutates. simpl. by rewrite orb_false_r.
    + intros [|j] o' Hj; [|by apply Hv']. injection Hj as <-. rewrite Z.add_0_r, lookup_updated, <-Ho. done.
  - destruct (Hrest did a) as (vals' & -> & Hl & Hv'). eexists. split_and!; [done|simpl; by rewrite Hl|].
    intros [|j] o' Hj; [|by apply Hv']. injection Hj as <-. by rewrite Z.add_0_r, lookup_updated, <-Ho.
Qed.

(** The loop over the links of a node at height [S h]. *)
Lemma links_mut_ok h s base nfh m (Hbase : 0 ≤ base)
  (Hnfh : ∀ j : nat, has_on m (base + Z.of_nat j * P (S h)) (P (S h)) → base + Z.of_nat j * nfh = base + Z.of_nat j * P (S h))
  (visit : Z → Node V → A → result AmtError (bool * bool) * Node V * A)
  (IH : ∀ b n a, 0 ≤ b → node_rep h s b n m → ∃ n', visit b n a =
     (Ok (true, mutates (entries m b (P (S h)))), n', visited (entries m b (P (S h))) a) ∧ node_rep h s b n' (updated m))
  links : ∀ i did a,
  (∀ j o, links !! j = Some o → link_rep (node_rep h) s (base + Z.of_nat (i + j) * P (S h)) (P (S h)) o m) →
  ∃ links', links_mut s bw nfh base visit (Z.of_nat i) links did a =
      (Ok (true, did || mutates (entries m (base + Z.of_nat i * P (S h)) (Z.of_nat (length links) * P (S h)))), links',
       visited (entries m (base + Z.of_nat i * P (S h)) (Z.of_nat (length links) * P (S h))) a) ∧
    length links' = length links ∧
    ∀ j o, links' !! j = Some o → link_rep (node_rep h) s (base + Z.of_nat (i + j) * P (S h)) (P (S h)) o (updated m).
Proof using BSS Hbw CS.
  pose proof (P_pos bw Hbw (S h)) as HP. induction links as [|o links IHl]; intros i did a Hv.
  { exists []. simpl. split_and!; [|done..]. by rewrite orb_false_r. }
  cbn [length]. replace (Z.of_nat (S (length links)) * P (S h)) with (P (S h) + Z.of_nat (length links) * P (S h)) by lia.
  rewrite entries_app by lia. pose proof (Hv O o eq_refl) as Ho. rewrite Nat.add_0_r in Ho.
  set (b := base + Z.of_nat i * P (S h)) in *.
  assert (∀ did a, ∃ links', links_mut s bw nfh base visit (Z.of_nat i + 1) links did a =
      (Ok (true, did || mutates (entries m (b + P (S h)) (Z.of_nat (length links) * P (S h)))), links',
       visited (entries m (b + P (S h)) (Z.of_nat (length links) * P (S h))) a) ∧
    length links' = length links ∧
    ∀ j o, links' !! j = Some o → link_rep (node_rep h) s (base + Z.of_nat (i + S j) * P (S h)) (P (S h)) o (updated m)) as Hrest.
  { intros did' a'. destruct (IHl (S i) did' a') as (links' & E & Hl & Hv').
    { intros j o' Hj. replace (S i + j)%nat with (i + S j)%nat by lia. by apply Hv. }
    replace (base + Z.of_nat (S i) * P (S h)) with (b + P (S h)) in E by (unfold b; lia).
    replace (Z.of_nat (S i)) with (Z.of_nat i + 1) in E by lia. exists links'. split_and!; [done..|].
    intros j o' Hj. replace (i + S j)%nat with (S i + j)%nat by lia. by apply Hv'. }
  destruct o as [l|]; cbn [links_mut].
  - destruct Ho as [Hh Hl]. rewrite (Hnfh _ Hh). fold b.
    assert (∃ sub, match l with LinkCid cid cache => load_cached s bw cid cache | LinkDirty sub => Ok sub end = Ok sub ∧
      node_rep h s b sub m) as (sub & -> & Hsub).
    { destruct l as [c cache|sub]; [|by exists sub]. by apply (load_cached_ok bw Hbw). }
    destruct (IH b sub a ltac:(unfold b; lia) Hsub) as (sub' & -> & Hsub').
    destruct (Hrest (did || mutates (entries m b (P (S h)))) (visited (entries m b (P (S h))) a)) as (links' & -> & Hlen & Hv').
    cbn [negb]. eexists. split_and!; [by rewrite mutates_app, visited_app, orb_assoc|simpl; by rewrite Hlen|].
    intros [|j] o' Hj; [|by apply Hv']. injection Hj as <-. rewrite Nat.add_0_r. split; [by apply updated_has|].
    destruct l as [c cache|n]; [|done]. destruct (mutates (entries m b (P (S h)))) eqn:Em; [done|]. split; [|done].
    apply updated_same in Em. eapply stored_by_impl; [reflexivity| |apply Hl]. intros n. by apply node_rep_ext.
  - rewrite (entries_nil _ _ _ Ho). destruct (Hrest did a) as (links' & -> & Hlen & Hv').
    eexists. split_and!; [done|simpl; by rewrite Hlen|]. intros [|j] o' Hj; [|by apply Hv']. injection Hj as <-.
    rewrite Nat.add_0_r. by apply updated_empty.
Qed.

Lemma node_mut_ok h s base n m a : (∀ k, is_Some (m !! k) → k ≤ MAX_INDEX) → 0 ≤ base → node_rep h s base n m →
  ∃ n', node_for_each_while_mut f s h bw base n a =
     (Ok (true, mutates (entries m base (P (S h)))), n', visited (entries m base (P (S h))) a) ∧
    node_rep h s base n' (updated m).
Proof using BSS Hbw CS Hf.
  intros Hmax. revert base n a. induction h as [|h IH]; intros base n a Hb.
  - intros (vals & -> & Hl & Hv). destruct (leaf_mut_ok m base vals 0 false a) as (vals' & E & Hl' & Hv').
    { intros j o Hj. rewrite Z.add_0_r. by apply Hv. }
    rewrite Z.add_0_r, Hl in E. exists (NodeLeaf vals'). cbn [node_for_each_while_mut]. rewrite (P_S bw Hbw), (P_0 bw), Z.mul_1_r, E.
    split; [done|]. exists vals'. split_and!; [done|congruence|]. intros j o Hj. rewrite (Hv' j o Hj). f_equal. lia.
  - intros (links & -> & Hl & Hv). cbn [node_for_each_while_mut].
    destruct (links_mut_ok h s base (nodes_for_height bw (S h)) m Hb) with (links := links) (i := O) (did := false) (a := a)
      (visit := λ offs sub a, node_for_each_while_mut f s h bw offs sub a) as (links' & E & Hl' & Hv'); [|exact IH|exact Hv|].
    + intros j (k & Hk & Hs). specialize (Hmax k Hs). unfold within, MAX_INDEX in *. pose proof (P_pos bw Hbw (S h)).
      destruct (nfh_cases bw Hbw (S h)) as [->|[-> ?]]; [done|]. assert (j = O) as -> by nia. lia.
    + replace (base + Z.of_nat 0 * P (S h)) with base in E by lia. rewrite Hl, <-(P_S bw Hbw) in E.
      change (Z.of_nat 0) with 0 in E. rewrite E.
      eexists. split; [done|]. exists links'. split_and!; [done|congruence|done].
Qed.
End mutate.
End node_ops.
