(* ===== verification/AmtTop.v ===== *)
(** * The AMT's contract

    The operations of [Amt] (ipld/amt/src/amt.rs) answer as those of a finite
    map from indices, through lazily loaded links and any number of flushes,
    without panics; the root depends on the content alone and loads back. *)

From S2P Require Import Prelude Effects Address Types Amt AmtRep AmtMap.
From stdpp Require Import gmap strings list fin_maps sorting.
From Stdlib Require Import ZArith Lia.
#[local] Open Scope Z_scope.

Class AmtCodecSpec (V : Type) `{CB : !AmtCodec V} : Prop := {
  codec_node_spec :: CborSpec (CollapsedNode V);
  codec_v3_spec :: CborSpec (Z * Z * Z * CollapsedNode V);
  codec_v0_spec :: CborSpec (Z * Z * CollapsedNode V);
}.

(** ** The reference: a finite map *)

Inductive AmtOp (V : Type) :=
  | AGet (i : Z)
  | ASet (i : Z) (v : V)
  | ADelete (i : Z)
  | ABatchSet (vals : list V)
  | ABatchDelete (idxs : list Z) (strict : bool)
  | AForEachMut (g : Z → V → option V)
  | AFlush
  | ACount.
Arguments AGet {V} i.
Arguments ASet {V} i v.
Arguments ADelete {V} i.
Arguments ABatchSet {V} vals.
Arguments ABatchDelete {V} idxs strict.
Arguments AForEachMut {V} g.
Arguments AFlush {V}.
Arguments ACount {V}.

Inductive AmtAnswer (V : Type) := AmtValue (o : option V) | AmtDone | AmtBool (b : bool) | AmtCount (n : Z).
Arguments AmtValue {V} o.
Arguments AmtDone {V}.
Arguments AmtBool {V} b.
Arguments AmtCount {V} n.

Definition ok_map {E A B} (f : A → B) (r : result E A) : result E B := match r with Ok a => Ok (f a) | Err e => Err e end.

(** Indices are unsigned. *)
Definition op_indices {V} (op : AmtOp V) : list Z :=
  match op with AGet i | ASet i _ | ADelete i => [i] | ABatchDelete idxs _ => idxs | _ => [] end.

Section reference.
Context {V : Type}.
Implicit Types m : gmap Z V.

Definition ref_at {A} (i : Z) m (f : A * gmap Z V) : result AmtError A * gmap Z V :=
  if MAX_INDEX <? i then (Err (OutOfRange i), m) else (Ok f.1, f.2).
Fixpoint ref_batch_set (i : Z) (vals : list V) m : result AmtError unit * gmap Z V :=
  match vals with
  | [] => (Ok tt, m)
  | v :: vals => if MAX_INDEX <? i then (Err (OutOfRange i), m) else ref_batch_set (i + 1) vals (<[i := v]> m)
  end.
(** In increasing order; strictly, the first index that is missing ends it. *)
Fixpoint ref_delete_all (idxs : list Z) (strict modified : bool) m : result AmtError bool * gmap Z V :=
  match idxs with
  | [] => (Ok modified, m)
  | i :: idxs =>
      if MAX_INDEX <? i then (Err (OutOfRange i), m)
      else match m !! i with
           | Some _ => ref_delete_all idxs strict true (delete i m)
           | None => if strict then (Err (AmtDynamic "no such index {} in Amt for batch delete"), m)
                     else ref_delete_all idxs strict modified m
           end
  end.

Definition ref_op (op : AmtOp V) m : result AmtError (AmtAnswer V) * gmap Z V :=
  match op with
  | AGet i => ref_at i m (AmtValue (m !! i), m)
  | ASet i v => ref_at i m (AmtDone, <[i := v]> m)
  | ADelete i => ref_at i m (AmtValue (m !! i), delete i m)
  | ABatchSet vals => let '(r, m) := ref_batch_set 0 vals m in (ok_map (λ _, AmtDone) r, m)
  | ABatchDelete idxs strict =>
      let '(r, m) := ref_delete_all (merge_sort Z.le idxs) strict false m in (ok_map AmtBool r, m)
  | AForEachMut g => (Ok AmtDone, updated g m)
  | AFlush => (Ok AmtDone, m)
  | ACount => (Ok (AmtCount (Z.of_nat (size m))), m)
  end.
Fixpoint ref_ops (ops : list (AmtOp V)) m : list (result AmtError (AmtAnswer V)) * gmap Z V :=
  match ops with
  | [] => ([], m)
  | op :: ops => let '(a, m) := ref_op op m in let '(l, m) := ref_ops ops m in (a :: l, m)
  end.
End reference.

Section top.
Context `{BSS : BlockstoreSpec} {V : Type} `{CB : !AmtCodec V} `{CS : !AmtCodecSpec V}.
(** Version 0 writes no bit width: it is the default one. *)
Context (ver : Version) (bw : Z) (Hbw : 1 ≤ bw ≤ 63) (Hver : ver = V0 → bw = DEFAULT_BIT_WIDTH).
Implicit Types (s : Store) (n : Node V) (m : gmap Z V) (r : RootImpl V) (t : AmtImpl V).
#[local] Abbreviation P := (P bw).
#[local] Abbreviation node_rep := (node_rep bw).

(** ** Representation *)

Definition keys_ok m : Prop := ∀ k, is_Some (m !! k) → 0 ≤ k ≤ MAX_INDEX.
(** A root at height [h] has room for the content, and a lower one has not. *)
Definition fits (h : nat) m : Prop := ∀ k, is_Some (m !! k) → k < P (S h).
Definition minimal (h : nat) m : Prop := h = O ∨ ∃ k, is_Some (m !! k) ∧ P h ≤ k.

Definition root_bytes (h : nat) (c : Z) (b : CollapsedNode V) : result string bytes :=
  match ver with V0 => to_vec (Z.of_nat h, c, b) | V3 => to_vec (bw, Z.of_nat h, c, b) end.

Definition root_rep s r m : Prop :=
  bit_width r = bw ∧ keys_ok m ∧ fits (height r) m ∧ minimal (height r) m ∧
  count r = Z.of_nat (size m) ∧ node_rep (height r) s 0 (node r) m.

(** The stored root of an AMT with content [m]. *)
Definition amt_stored s (c : Cid) m : Prop :=
  ∃ h n b bz, keys_ok m ∧ fits h m ∧ minimal h m ∧ unloaded n ∧ node_rep h s 0 n m ∧ node_serialize n = Ok b ∧
    root_bytes h (Z.of_nat (size m)) b = Ok bz ∧ c = block_cid DAG_CBOR BLAKE2B_256 bz ∧ bs_get s c = Ok (Some bz).

Definition amt_rep s t m : Prop := root_rep s (root t) m ∧ ∀ c, flushed_cid t = Some c → amt_stored s c m.

(** ** Heights *)

Lemma low_height h k : P h ≤ k → k ≤ MAX_INDEX → (h < 64)%nat.
Proof using Hbw.
  intros Hk Hm. destruct (decide (h < 64)%nat) as [|Hge]; [done|]. exfalso.
  assert (2 ^ 64 ≤ P h) by (unfold AmtRep.P; apply Z.pow_le_mono_r; nia). unfold MAX_INDEX, u64_max in *. lia.
Qed.
Lemma height_bound h m : keys_ok m → minimal h m → (h < 64)%nat.
Proof using Hbw. intros Hk [->|(k & Hs & Hle)]; [lia|]. eapply low_height; [exact Hle|]. by apply Hk. Qed.
Lemma height_unique h h' m : fits h m → minimal h m → fits h' m → minimal h' m → h = h'.
Proof using Hbw.
  assert (∀ h h', fits h m → minimal h' m → (h' ≤ h)%nat) as Hle.
  { intros h1 h2 Hf [->|(k & Hs & Hk)]; [lia|]. specialize (Hf k Hs). destruct (decide (h2 ≤ h1)%nat) as [|Hn]; [done|].
    pose proof (P_mono bw Hbw (S h1) h2 ltac:(lia)). lia. }
  intros. apply Nat.le_antisymm; by eapply Hle.
Qed.

Lemma amt_stored_mono s s' c m : store_le s s' → amt_stored s c m → amt_stored s' c m.
Proof using.
  intros Hle (h & n & b & bz & ? & ? & ? & ? & Hn & ? & ? & ? & Hg).
  exists h, n, b, bz. split_and!; try done; [by eapply amt_node_mono|by eapply store_le_get].
Qed.
Lemma amt_rep_mono s s' t m : store_le s s' → amt_rep s t m → amt_rep s' t m.
Proof using.
  intros Hle [(? & ? & ? & ? & ? & Hr) Hc]. split; [|intros c Hfc; eapply amt_stored_mono; eauto].
  split_and!; try done. by eapply amt_node_mono.
Qed.

Lemma node_rep_new s : node_rep 0 s 0 (NodeLeaf (init_sized_vec bw)) (∅ : gmap Z V).
Proof using Hbw BSS. apply (new_sub_rep bw Hbw 0). intros k _. apply lookup_empty. Qed.
Lemma amt_new_ok s : amt_rep s (new_with_bit_width bw) ∅.
Proof using Hbw BSS.
  split; [|done]. split_and!; [done|by intros k [? ?]; simplify_map_eq..|by left|by rewrite map_size_empty|apply node_rep_new].
Qed.

(** ** Lookup *)

Lemma fits_none h m i : fits h m → P (S h) ≤ i → m !! i = None.
Proof using. intros Hf Hi. apply eq_None_not_Some. intros Hs. specialize (Hf i Hs). lia. Qed.

Lemma amt_get_ok s t m i : amt_rep s t m → 0 ≤ i ≤ MAX_INDEX →
  ∃ t', get s i t = (Ok (m !! i), t') ∧ amt_rep s t' m.
Proof using Hbw CS BSS.
  intros Ht Hi. pose proof Ht as [(E & Hk & Hf & Hm & Hc & Hr) Hfc]. unfold get.
  destruct (Z.ltb_spec MAX_INDEX i); [lia|]. rewrite E, (nfh_leb bw Hbw) by lia.
  destruct (Z.leb_spec (P (S (height (root t)))) i) as [Hle|Hlt].
  { exists t. split; [|done]. do 2 f_equal. symmetry. by eapply fits_none. }
  destruct (node_get_ok bw Hbw _ s 0 _ m i Hr) as (n' & -> & Hr'); [lia..|]. eexists. split; [done|]. split; [|done].
  split_and!; try done.
Qed.

(** ** Insertion *)

Lemma slot0_rest h s n m : node_rep h s 0 n m → fits h m → has_on m 0 (P (S h)) →
  node_rep (S h) s 0 (NodeLink (<[0%nat := Some (LinkDirty n)]> (init_sized_vec bw))) m.
Proof using Hbw.
  intros Hr Hf Hh. eexists. split_and!; [done|by rewrite length_insert; apply length_replicate|].
  pose proof (P_pos bw Hbw (S h)). intros j o Hj. apply list_lookup_insert_Some in Hj as [(<- & <- & _)|[Hne Hj]].
  - rewrite Z.mul_0_l, Z.add_0_r. done.
  - apply lookup_replicate in Hj as [-> _]. intros k Hk. apply eq_None_not_Some. intros Hs. specialize (Hf k Hs).
    unfold within in Hk. nia.
Qed.

Lemma fits_S h m : fits h m → fits (S h) m.
Proof using Hbw. intros Hf k Hk. specialize (Hf k Hk). pose proof (P_mono bw Hbw (S h) (S (S h)) ltac:(lia)). lia. Qed.

Lemma grow_ok s m i : 0 ≤ i ≤ MAX_INDEX → keys_ok m → ∀ fuel r, (63 ≤ fuel + height r)%nat →
  bit_width r = bw → fits (height r) m → node_rep (height r) s 0 (node r) m →
  ∃ r', grow fuel i r = Ok r' ∧ bit_width r' = bw ∧ count r' = count r ∧ fits (height r') m ∧
    node_rep (height r') s 0 (node r') m ∧ i < P (S (height r')) ∧ (height r' = height r ∨ P (height r') ≤ i).
Proof using Hbw BSS.
  intros Hi Hk. induction fuel as [|fuel IH]; intros r Hfuel E Hf Hr; cbn [grow]; rewrite E, (nfh_leb bw Hbw) by lia;
    destruct (Z.leb_spec (P (S (height r))) i) as [Hle|Hlt]; try by (exists r; split_and!; auto).
  { pose proof (low_height _ _ Hle ltac:(lia)). lia. }
  match goal with |- context [grow fuel i ?r1] => destruct (IH r1) as (r' & Eg & Eb & Ec & Hf' & Hr' & Hlt & Hh) end.
  - simpl. lia.
  - done.
  - by apply fits_S.
  - simpl. pose proof (node_is_empty_on bw Hbw _ s _ _ _ Hr) as He. destruct (node_is_empty (node r)).
    + apply (new_sub_rep bw Hbw (S (height r))). intros k Hwk. apply eq_None_not_Some. intros Hs.
      specialize (Hf k Hs). rewrite (proj1 He eq_refl) in Hs; [by destruct Hs|]. specialize (Hk k Hs). unfold within. lia.
    + apply slot0_rest; [done..|]. destruct (has_or_empty m 0 (P (S (height r)))) as [|Hem]; [done|]. by apply He in Hem.
  - exists r'. split_and!; try done. right. destruct Hh as [->|]; [done|done].
Qed.

Lemma keys_ok_insert m i v : keys_ok m → 0 ≤ i ≤ MAX_INDEX → keys_ok (<[i := v]> m).
Proof using. intros Hk Hi k Hs. apply lookup_insert_is_Some' in Hs as [<-|Hs]; auto. Qed.

Lemma amt_set_ok s t m i v : amt_rep s t m → 0 ≤ i ≤ MAX_INDEX →
  ∃ t', set s i v t = (Ok tt, t') ∧ amt_rep s t' (<[i := v]> m).
Proof using Hbw CS BSS.
  intros [(E & Hk & Hf & Hm & Hc & Hr) _] Hi. unfold set. destruct (Z.ltb_spec MAX_INDEX i); [lia|].
  destruct (grow_ok s m i Hi Hk 64 (root t) ltac:(lia) E Hf Hr) as (r & -> & Eb & Ec & Hf' & Hr' & Hlt & Hh).
  rewrite Eb. destruct (node_set_ok bw Hbw _ s 0 _ m i v Hr') as (n' & -> & Hn'); [lia..|].
  eexists. split; [done|]. split; [|done]. unfold root_rep. cbn [root bit_width height count node]. split_and!; try done.
  - by apply keys_ok_insert.
  - intros k Hs. apply lookup_insert_is_Some' in Hs as [<-|Hs]; [done|by apply Hf'].
  - destruct Hh as [Eh|Hge]; [|right; exists i; split; [rewrite lookup_insert_eq; eauto|done]].
    destruct Hm as [E0|(k & Hs & Hge)]; [left; congruence|]. right. exists k. rewrite Eh. split; [|done].
    apply lookup_insert_is_Some'. by right.
  - rewrite Ec, Hc, Z.add_0_l. destruct (m !! i) as [w|] eqn:Em; cbn [is_none].
    + rewrite map_size_insert_Some by eauto. lia.
    + rewrite map_size_insert_None by done. lia.
Qed.

(** ** Deletion *)

(** What [can_collapse] sees: everything is below the first slot, or something is above it. *)
Lemma can_collapse_ok h s n m : node_rep (S h) s 0 n m → fits (S h) m → keys_ok m → (∃ k, is_Some (m !! k)) →
  if can_collapse n
  then ∃ l links, n = NodeLink (Some l :: links) ∧ link_rep (node_rep h) s 0 (P (S h)) (Some l) m ∧ fits h m
  else ∃ k, is_Some (m !! k) ∧ P (S h) ≤ k.
Proof using Hbw.
  intros (links & -> & Hl & Hv) Hf Hk [k0 Hk0]. pose proof (P_pos bw Hbw (S h)) as HP.
  assert (∀ k, is_Some (m !! k) → ∃ j l, links !! j = Some (Some l) ∧ within (Z.of_nat j * P (S h)) (P (S h)) k) as Hat.
  { intros k Hs. destruct (within_find bw Hbw 0 (S h) k) as (j & Hj & Hw).
    { specialize (Hk k Hs). specialize (Hf k Hs). unfold within. lia. }
    destruct (lookup_lt_is_Some_2 links j) as [o Ho]; [lia|]. pose proof (Hv j o Ho) as Hr. destruct o as [l|]; [by eauto|].
    rewrite (Hr k Hw) in Hs. by destruct Hs. }
  destruct links as [|[l|] links]; cbn [can_collapse].
  - destruct (Hat k0 Hk0) as (j & l & ? & _). done.
  - destruct (forallb is_none links) eqn:Hall.
    + exists l, links. split_and!; [done| |].
      { specialize (Hv O (Some l) eq_refl). by rewrite Z.mul_0_l, Z.add_0_r in Hv. }
      intros k Hs. destruct (Hat k Hs) as (j & l' & Hj & Hw). destruct j as [|j]; [unfold within in Hw; lia|].
      rewrite forallb_forall in Hall. cbn in Hj. apply list_elem_of_lookup_2, list_elem_of_In in Hj. by apply Hall in Hj.
    + apply not_true_iff_false in Hall. rewrite forallb_forall in Hall.
      destruct (decide (Exists (λ o, o ≠ None) links)) as [He|Hn].
      * apply Exists_exists in He as (o & Ho & Hno). apply list_elem_of_lookup in Ho as [j Hj].
        destruct o as [l'|]; [|done]. destruct (Hv (S j) (Some l') Hj) as [(k & Hw & Hs) _].
        exists k. split; [done|]. unfold within in Hw. nia.
      * exfalso. apply Hall. intros o Ho%list_elem_of_In. apply not_Exists_Forall in Hn; [|intros ?; apply _].
        rewrite Forall_forall in Hn. specialize (Hn o Ho). destruct o; [|done]. by destruct Hn.
  - destruct (Hat k0 Hk0) as (j & l & Hj & Hw). exists k0. split; [done|]. destruct j as [|j]; [done|].
    unfold within in Hw. nia.
Qed.

Lemma collapse_root_ok h s c n m : node_rep h s 0 n m → fits h m → keys_ok m → (∃ k, is_Some (m !! k)) →
  ∃ r', collapse_root s bw h c n = (Ok tt, r') ∧ bit_width r' = bw ∧ count r' = c ∧ fits (height r') m ∧
    minimal (height r') m ∧ node_rep (height r') s 0 (node r') m.
Proof using Hbw CS BSS.
  intros Hr Hf Hk Hne. revert n Hr Hf. induction h as [|h IH]; intros n Hr Hf; cbn [collapse_root].
  { eexists. split_and!; [done..|by left|done]. }
  pose proof (can_collapse_ok h s n m Hr Hf Hk Hne) as Hc. destruct (can_collapse n).
  - destruct Hc as (l & links & -> & Hl & Hfh). cbn [negb]. destruct l as [cid cache|sub].
    + destruct (load_cached_ok bw Hbw h s 0 cid cache m Hl) as (sub & -> & Hsub). by apply IH.
    + by apply IH; [apply Hl|].
  - cbn [negb]. eexists. split_and!; [done..|by right|done].
Qed.

Lemma amt_delete_ok s t m i : amt_rep s t m → 0 ≤ i ≤ MAX_INDEX →
  ∃ t', Amt.delete s i t = (Ok (m !! i), t') ∧ amt_rep s t' (delete i m).
Proof using Hbw CS BSS.
  intros Ht Hi. pose proof Ht as [(E & Hk & Hf & Hm & Hc & Hr) Hfc]. unfold Amt.delete.
  destruct (Z.ltb_spec MAX_INDEX i); [lia|]. rewrite E, (nfh_leb bw Hbw) by lia.
  destruct (Z.leb_spec (P (S (height (root t)))) i) as [Hle|Hlt].
  { pose proof (fits_none _ _ _ Hf Hle) as Hn. exists t. rewrite Hn, delete_id by done. done. }
  destruct (node_delete_ok bw Hbw _ s 0 _ m i Hr) as (n' & -> & Hr'); [lia..|]. rewrite Z.add_0_l in *.
  destruct (m !! i) as [v|] eqn:Em.
  2:{ rewrite delete_id in * by done. eexists. split; [done|]. split; [|done]. by split_and!. }
  assert (keys_ok (delete i m)) as Hk' by (intros k [w Hw]; apply lookup_delete_Some in Hw as [_ Hw]; eauto).
  assert (fits (height (root t)) (delete i m)) as Hf' by (intros k [w Hw]; apply lookup_delete_Some in Hw as [_ Hw]; eauto).
  assert (size m ≠ 0%nat) as Hsz by (intros H0; apply map_size_empty_inv in H0; subst; by rewrite lookup_empty in Em).
  assert (count (root t) - 1 = Z.of_nat (size (delete i m))) as Hc'.
  { rewrite map_size_delete_Some by eauto. lia. }
  destruct (Z.eqb_spec (count (root t)) 0) as [H0|_]; [lia|].
  pose proof (node_is_empty_on bw Hbw _ s _ _ _ Hr') as He. destruct (node_is_empty n').
  - eexists. split; [done|]. assert (delete i m = ∅) as H0.
    { apply map_empty. intros k. apply eq_None_not_Some. intros Hs. pose proof (Hk' k Hs). pose proof (Hf' k Hs).
      rewrite (proj1 He eq_refl k) in Hs; [by destruct Hs|]. unfold within. lia. }
    rewrite H0 in *. split; [|done]. unfold root_rep. cbn [root bit_width height count node].
    split_and!; [done..|by intros k [? ?]; simplify_map_eq|by left|done|apply node_rep_new].
  - destruct (collapse_root_ok (height (root t)) s (count (root t) - 1) n' (delete i m) Hr' Hf' Hk')
      as (r' & -> & Eb & Ec & Hf2 & Hm2 & Hr2).
    { destruct (has_or_empty (delete i m) 0 (P (S (height (root t))))) as [(k & _ & Hs)|Hem]; [by exists k|]. by apply He in Hem. }
    eexists. split; [done|]. split; [|done]. unfold root_rep. cbn [root]. rewrite Ec. by split_and!.
Qed.

(** ** Flush and load *)

Lemma root_bytes_total h c b : ∃ bz, root_bytes h c b = Ok bz.
Proof using CS.
  clear Hver. unfold root_bytes. destruct ver.
  - destruct (from_to_vec (Z.of_nat h, c, b)) as (bz & -> & _). eauto.
  - destruct (from_to_vec (bw, Z.of_nat h, c, b)) as (bz & -> & _). eauto.
Qed.

Lemma put_root_ok `{!StoreTotal} s r m : store_ok s → root_rep s r m → clean (node r) →
  ∃ c s', put_root ver s r = (Ok c, s') ∧ store_ok s' ∧ store_le s s' ∧ amt_stored s' c m.
Proof using CS.
  clear Hver. intros Hs (E & Hk & Hf & Hm & Hc & Hr) Hcl. unfold put_root. destruct (clean_serialize _ Hcl) as [b Hb]. rewrite Hb.
  destruct (root_bytes_total (height r) (count r) b) as [bz Hz].
  assert (match ver with
    | V0 => put_cbor s (Z.of_nat (height r), count r, b) BLAKE2B_256
    | V3 => put_cbor s (bit_width r, Z.of_nat (height r), count r, b) BLAKE2B_256
    end = bs_put s BLAKE2B_256 DAG_CBOR bz) as ->.
  { rewrite E. unfold put_cbor. unfold root_bytes in Hz. destruct ver; by rewrite Hz. }
  destruct (bs_put s BLAKE2B_256 DAG_CBOR bz) as [res s'] eqn:Ep. destruct (bs_put_ok _ _ _ _ _ _ Hs Ep) as [Hs' Hle].
  unfold bs_put in Ep. destruct (put_keyed_total s (block_cid DAG_CBOR BLAKE2B_256 bz) bz) as [s1 E1]. rewrite E1 in Ep.
  injection Ep as <- <-. eexists _, s1. split_and!; try done.
  exists (height r), (unload (node r)), b, bz. split_and!; try done.
  - by apply unload_unloaded.
  - apply unload_rep. by eapply amt_node_mono.
  - by rewrite unload_serialize.
  - by rewrite <-Hc.
  - by eapply put_keyed_get; [exact Hs| |exact E1].
Qed.

Lemma amt_flush_ok `{!StoreTotal} s t m : store_ok s → amt_rep s t m →
  ∃ c t' s', flush ver s t = (Ok c, t', s') ∧ store_ok s' ∧ store_le s s' ∧ amt_rep s' t' m ∧ amt_stored s' c m.
Proof using CS Hbw.
  intros Hs Ht. pose proof Ht as [(E & Hk & Hf & Hm & Hc & Hr) Hfc]. unfold flush.
  destruct (flushed_cid t) as [c|] eqn:Ec; [exists c, t, s; split_and!; auto; done|].
  destruct (amt_node_flush_ok bw _ s 0 _ m Hs Hr) as (n' & s1 & -> & Hs1 & Hle1 & Hr1 & Hcl).
  assert (root_rep s1 (set_node n' (root t)) m) as Hrr by (by split_and!).
  destruct (put_root_ok s1 _ m Hs1 Hrr Hcl) as (c & s2 & -> & Hs2 & Hle2 & Hst).
  exists c, (mkAmt (set_node n' (root t)) (Some c)), s2. split_and!; [done..|by etrans| |done].
  eapply amt_rep_mono; [reflexivity|]. split; [|by intros ? [= <-]]. cbn [root].
  destruct Hrr as (? & ? & ? & ? & ? & ?). split_and!; try done. by eapply amt_node_mono.
Qed.

Lemma amt_load_ok s c m : amt_stored s c m → ∃ t, load ver s c = Ok t ∧ amt_rep s t m.
Proof using CS Hbw Hver.
  intros Hst. pose proof Hst as (h & n & b & bz & Hk & Hf & Hm & Hu & Hr & Hs & Hz & Hc & Hg).
  assert (expand bw b = Ok n) as Hex.
  { eapply expand_serialize; [done..| |done]. destruct h as [|h]; [by left|]. right.
    destruct Hm as [|(k & Hks & Hle)]; [done|]. exists k. split; [|done].
    unfold within. pose proof (Hf k Hks). pose proof (P_pos bw Hbw (S h)). lia. }
  assert (root_load ver s c = Ok (mkRoot bw h (Z.of_nat (size m)) n)) as Hl.
  { unfold root_load, get_cbor. rewrite Hc in Hg |- *. cbn [cid_codec block_cid]. rewrite Hg.
    unfold root_bytes in Hz. unfold root_expand. destruct ver; cbn.
    - rewrite (Hver eq_refl) in *. destruct (from_to_vec (Z.of_nat h, Z.of_nat (size m), b)) as (bz' & Hz' & Hfs).
      assert (bz = bz') as -> by congruence. by rewrite Hfs, Hex, Nat2Z.id.
    - destruct (from_to_vec (bw, Z.of_nat h, Z.of_nat (size m), b)) as (bz' & Hz' & Hfs).
      assert (bz = bz') as -> by congruence. by rewrite Hfs, Hex, Nat2Z.id. }
  unfold load. rewrite Hl. cbn [height]. pose proof (height_bound h m Hk Hm). unfold MAX_HEIGHT.
  destruct (Nat.ltb_spec 64 h); [lia|]. eexists. split; [done|]. split; [|by intros ? [= <-]]. by split_and!.
Qed.

Lemma amt_stored_unique s s' c c' m : amt_stored s c m → amt_stored s' c' m → c = c'.
Proof using Hbw.
  intros (h & n & b & bz & _ & Hf & Hm & Hu & Hr & Hs & Hz & -> & _) (h' & n' & b' & bz' & _ & Hf' & Hm' & Hu' & Hr' & Hs' & Hz' & -> & _).
  assert (h = h') as <- by (by eapply height_unique). assert (b = b') as <-; [|congruence].
  assert (n = n') as <- by (by eapply (rep_unique bw h s s')). congruence.
Qed.

(** ** Sequences of operations *)

Definition amt_op (op : AmtOp V) t s : result AmtError (AmtAnswer V) * AmtImpl V * Store :=
  match op with
  | AGet i => let '(r, t) := get s i t in (ok_map AmtValue r, t, s)
  | ASet i v => let '(r, t) := set s i v t in (ok_map (λ _, AmtDone) r, t, s)
  | ADelete i => let '(r, t) := Amt.delete s i t in (ok_map AmtValue r, t, s)
  | ABatchSet vals => let '(r, t) := batch_set s vals t in (ok_map (λ _, AmtDone) r, t, s)
  | ABatchDelete idxs strict => let '(r, t) := batch_delete s idxs strict t in (ok_map AmtBool r, t, s)
  | AForEachMut g =>
      let '(r, t, _) := for_each_mut (λ i v (_ : unit), (Ok tt, g i v, tt)) s t tt in (ok_map (λ _, AmtDone) r, t, s)
  | AFlush => let '(r, t, s) := flush ver s t in (ok_map (λ _, AmtDone) r, t, s)
  | ACount => (Ok (AmtCount (count (root t))), t, s)
  end.
Fixpoint amt_ops (ops : list (AmtOp V)) t s : list (result AmtError (AmtAnswer V)) * AmtImpl V * Store :=
  match ops with
  | [] => ([], t, s)
  | op :: ops =>
      let '(a, t, s) := amt_op op t s in
      let '(l, t, s) := amt_ops ops t s in (a :: l, t, s)
  end.

Lemma batch_set_ok s vals : ∀ i t m, 0 ≤ i → amt_rep s t m →
  ∃ t', batch_set_from s i vals t = ((ref_batch_set i vals m).1, t') ∧ amt_rep s t' (ref_batch_set i vals m).2.
Proof using Hbw CS BSS.
  induction vals as [|v vals IH]; intros i t m Hi Ht; cbn [batch_set_from ref_batch_set]; [by exists t|].
  destruct (Z.ltb_spec MAX_INDEX i) as [Hlt|Hle].
  - unfold set. rewrite (proj2 (Z.ltb_lt _ _) Hlt). by exists t.
  - destruct (amt_set_ok s t m i v Ht ltac:(lia)) as (t' & -> & Ht'). apply IH; [lia|done].
Qed.

Lemma delete_all_ok s strict idxs : ∀ modified t m, Forall (λ i, 0 ≤ i) idxs → amt_rep s t m →
  ∃ t', delete_all s idxs strict modified t = ((ref_delete_all idxs strict modified m).1, t') ∧
    amt_rep s t' (ref_delete_all idxs strict modified m).2.
Proof using Hbw CS BSS.
  induction idxs as [|i idxs IH]; intros modified t m Hi Ht; cbn [delete_all ref_delete_all]; [by exists t|].
  apply Forall_cons in Hi as [Hi Hidxs]. destruct (Z.ltb_spec MAX_INDEX i) as [Hlt|Hle].
  - unfold Amt.delete. rewrite (proj2 (Z.ltb_lt _ _) Hlt). by exists t.
  - destruct (amt_delete_ok s t m i Ht ltac:(lia)) as (t' & -> & Ht'). destruct (m !! i) as [v|] eqn:Em; cbn [is_none negb].
    + rewrite andb_false_r, orb_true_r. by apply IH.
    + rewrite delete_id in Ht' by done. rewrite andb_true_r, orb_false_r. destruct strict; [by exists t'|by apply IH].
Qed.

(** The keys, and so the height and the count, are kept by mutation. *)
Lemma updated_keys (g : Z → V → option V) m k : is_Some (updated g m !! k) ↔ is_Some (m !! k).
Proof using. rewrite lookup_updated. by destruct (m !! k). Qed.
Lemma updated_size (g : Z → V → option V) m : size (updated g m) = size m.
Proof using. rewrite <-!size_dom. f_equal. apply set_eq. intros k. by rewrite !elem_of_dom, updated_keys. Qed.

Lemma amt_mut_ok {A} s t m g (st : Z → V → A → A) f (a : A) : (∀ k v a, f k v a = (Ok true, g k v, st k v a)) →
  amt_rep s t m → ∃ t', for_each_while_mut f s t a = (Ok tt, t', visited st (entries m 0 (P (S (height (root t))))) a) ∧
    amt_rep s t' (updated g m).
Proof using Hbw CS BSS.
  intros Hf [(E & Hk & Hfit & Hm & Hc & Hr) Hfc]. unfold for_each_while_mut.
  rewrite E. destruct (node_mut_ok bw Hbw f g st Hf _ s 0 _ m a (λ k Hs, proj2 (Hk k Hs)) ltac:(lia) Hr) as (n' & -> & Hr').
  eexists. split; [done|]. split.
  - unfold root_rep. cbn. split_and!; try done.
    + intros k Hs%updated_keys. auto.
    + intros k Hs%updated_keys. by apply Hfit.
    + destruct Hm as [?|(k & Hs & ?)]; [by left|]. right. exists k. by rewrite updated_keys.
    + by rewrite updated_size.
  - cbn [flushed_cid]. destruct (mutates g _) eqn:Em; [done|]. intros c Hc'. apply updated_same in Em.
    assert (updated g m = m) as ->; [|by apply Hfc]. apply map_eq. intros k. destruct (decide (is_Some (m !! k))) as [Hs|Hn].
    + symmetry. apply Em. split; [by apply Hk|]. rewrite Z.add_0_l. by apply Hfit.
    + rewrite lookup_updated. apply eq_None_not_Some in Hn. by rewrite Hn.
Qed.

Context `{ST : !StoreTotal}.

Lemma amt_op_ok s t m op : store_ok s → amt_rep s t m → Forall (λ i, 0 ≤ i) (op_indices op) →
  ∃ t' s', amt_op op t s = ((ref_op op m).1, t', s') ∧ store_ok s' ∧ store_le s s' ∧ amt_rep s' t' (ref_op op m).2.
Proof using Hbw CS ST.
  intros Hs Ht Hi. destruct op as [i|i v|i|vals|idxs strict|g| |]; cbn [amt_op ref_op op_indices] in *.
  1-3: apply Forall_cons in Hi as [Hi _]; unfold ref_at; destruct (Z.ltb_spec MAX_INDEX i) as [Hlt|Hle].
  - unfold get. rewrite (proj2 (Z.ltb_lt _ _) Hlt). by exists t, s.
  - destruct (amt_get_ok s t m i Ht ltac:(lia)) as (t' & -> & ?). by exists t', s.
  - unfold set. rewrite (proj2 (Z.ltb_lt _ _) Hlt). by exists t, s.
  - destruct (amt_set_ok s t m i v Ht ltac:(lia)) as (t' & -> & ?). by exists t', s.
  - unfold Amt.delete. rewrite (proj2 (Z.ltb_lt _ _) Hlt). by exists t, s.
  - destruct (amt_delete_ok s t m i Ht ltac:(lia)) as (t' & -> & ?). by exists t', s.
  - destruct (batch_set_ok s vals 0 t m ltac:(lia) Ht) as (t' & E & ?). unfold batch_set. rewrite E.
    exists t', s. by destruct (ref_batch_set 0 vals m).
  - destruct (delete_all_ok s strict (merge_sort Z.le idxs) false t m) as (t' & E & ?); [by rewrite merge_sort_Permutation|done|].
    unfold batch_delete. rewrite E. exists t', s. by destruct (ref_delete_all _ _ _ _).
  - destruct (amt_mut_ok s t m g (λ _ _ _, tt) (λ i v (_ : unit), (Ok true, g i v, tt)) tt) as (t' & E & ?); [done..|].
    unfold for_each_mut. rewrite E. by exists t', s.
  - destruct (amt_flush_ok s t m Hs Ht) as (c & t' & s' & -> & ? & ? & ? & _). by exists t', s'.
  - destruct Ht as [(? & ? & ? & ? & Hc & ?) ?]. rewrite Hc. exists t, s. by split_and!.
Qed.

Lemma amt_ops_ok ops : ∀ s t m, store_ok s → amt_rep s t m → Forall (λ op, Forall (λ i, 0 ≤ i) (op_indices op)) ops →
  ∃ t' s', amt_ops ops t s = ((ref_ops ops m).1, t', s') ∧ store_ok s' ∧ store_le s s' ∧ amt_rep s' t' (ref_ops ops m).2.
Proof using Hbw CS ST.
  induction ops as [|op ops IH]; intros s t m Hs Ht Hi; [by exists t, s|]. apply Forall_cons in Hi as [Hi His].
  destruct (amt_op_ok s t m op Hs Ht Hi) as (t1 & s1 & E1 & Hs1 & Hle1 & Ht1). cbn [amt_ops ref_ops]. rewrite E1.
  destruct (ref_op op m) as [a m1]. cbn in *. destruct (IH s1 t1 m1 Hs1 Ht1 His) as (t2 & s2 & E2 & Hs2 & Hle2 & Ht2).
  rewrite E2. destruct (ref_ops ops m1) as [l m2]. exists t2, s2. split_and!; try done. by etrans.
Qed.

(** ** Claims *)

(** C25: an AMT is a sparse array. Any sequence of lookups, insertions,
    deletions, batches, mutations in place and flushes, on an AMT whose nodes
    may be in memory, in the store or both, gives exactly the answers of the same
    sequence on a finite map. The only errors are indices out of range and missing indices of a
    strict batch, both as the map says; there is no panic, and the count is the
    number of entries. *)
Theorem amt_refines_map ops s t m (Hs : store_ok s) (Ht : amt_rep s t m)
    (Hops : Forall (λ op, Forall (λ i, 0 ≤ i) (op_indices op)) ops) :
  ∃ t' s', amt_ops ops t s = ((ref_ops ops m).1, t', s') ∧ amt_rep s' t' (ref_ops ops m).2 ∧
    count (root t') = Z.of_nat (size (ref_ops ops m).2) ∧ store_le s s'.
Proof using Hbw CS ST.
  destruct (amt_ops_ok ops s t m Hs Ht Hops) as (t' & s' & E & _ & Hle & Ht'). exists t', s'. split_and!; try done. apply Ht'.
Qed.

(** C26: the root of an AMT is determined by its content, and gives it back. Two
    AMTs of one bit width and format with the same entries, with whatever history, in whatever
    stores, flush to the same CID; loaded from it, in the store or any later one, the
    AMT has the entries again. *)
Theorem amt_root_determined s1 s2 t1 t2 m (Hs1 : store_ok s1) (Hs2 : store_ok s2)
    (H1 : amt_rep s1 t1 m) (H2 : amt_rep s2 t2 m) :
  ∃ c t1' s1' t2' s2', flush ver s1 t1 = (Ok c, t1', s1') ∧ flush ver s2 t2 = (Ok c, t2', s2') ∧
    ∀ u, store_le s1' u → ∃ t, load ver u c = Ok t ∧ amt_rep u t m.
Proof using Hbw CS ST Hver.
  destruct (amt_flush_ok s1 t1 m Hs1 H1) as (c1 & t1' & s1' & E1 & _ & _ & _ & St1).
  destruct (amt_flush_ok s2 t2 m Hs2 H2) as (c2 & t2' & s2' & E2 & _ & _ & _ & St2).
  assert (c1 = c2) as <- by (eapply amt_stored_unique; [exact St1|exact St2]). exists c1, t1', s1', t2', s2'. split_and!; try done.
  intros u Hu. apply amt_load_ok. by eapply amt_stored_mono.
Qed.
End top.
