(* ===== verification/AmtIter.v ===== *)
(** * Iterating over an AMT (ipld/amt/src/iter.rs and the for_each family of amt.rs)

    The iterator keeps a stack of nodes with the next slot of each, the deepest
    first, and the index it has reached. The source's loops are a step function
    and its iteration. Iterating visits the entries in the order of their indices;
    starting at an index, it does so from an index that is present, from 0, or from
    one beyond the range of the AMT. *)

From S2P Require Import Prelude Effects Address Types Amt AmtRep AmtMap AmtTop.
From stdpp Require Import gmap strings list fin_maps sorting.
From Stdlib Require Import ZArith Lia.
#[local] Open Scope Z_scope.

(** The head of [it_stack] is the last element of the source's vector. *)
Record Iter (V : Type) := mkIter { it_stack : list (Node V * nat); it_height : nat; it_bit_width : Z; it_key : Z }.
Arguments mkIter {V} _ _ _ _.
Arguments it_stack {V} _.
Arguments it_height {V} _.
Arguments it_bit_width {V} _.
Arguments it_key {V} _.

Inductive Step (V : Type) :=
  | Yield (k : Z) (v : V) (it : Iter V)
  | Continue (it : Iter V)
  | Fail (e : AmtError) (it : Iter V)
  | Finished.
Arguments Yield {V} k v it.
Arguments Continue {V} it.
Arguments Fail {V} e it.
Arguments Finished {V}.

Section iter.
Context `{BS : Blockstore} {V : Type} `{CB : !AmtCodec V}.
Implicit Types (s : Store) (t : AmtImpl V) (it : Iter V).

Definition iter_new (n : Node V) (height : nat) (bit_width offset : Z) : Iter V :=
  mkIter [(n, O)] height bit_width offset.
Definition iter t : Iter V := iter_new (node (root t)) (height (root t)) (bit_width (root t)) 0.

Definition iter_at it stack key : Iter V := mkIter stack (it_height it) (it_bit_width it) key.

(** One turn of the loops of [next]. The nodes borrowed from the caches are the
    ones [load_cached] gives. *)
Definition iter_step s it : Step V :=
  if MAX_INDEX <? it_key it then Finished else
  match it_stack it with
  | [] => Finished
  | (NodeLeaf vals, idx) :: stack =>
      match vals !! idx with
      | Some (Some v) => Yield (it_key it) v (iter_at it ((NodeLeaf vals, S idx) :: stack) (it_key it + 1))
      | Some None => Continue (iter_at it ((NodeLeaf vals, S idx) :: stack) (it_key it + 1))
      | None => Continue (iter_at it stack (it_key it))
      end
  | (NodeLink links, idx) :: stack =>
      let next := (NodeLink links, S idx) :: stack in
      match links !! idx with
      | Some (Some (LinkCid cid cache)) =>
          match load_cached s (it_bit_width it) cid cache with
          | Ok n => Continue (iter_at it ((n, O) :: next) (it_key it))
          | Err e => Fail e (iter_at it next (it_key it))
          end
      | Some (Some (LinkDirty n)) => Continue (iter_at it ((n, O) :: next) (it_key it))
      | Some None =>
          if (it_height it <? length (it_stack it))%nat then Fail underflow it else
          Continue (iter_at it next
            (sat_add (it_key it) (nodes_for_height (it_bit_width it) (it_height it - length (it_stack it) + 1))))
      | None => Continue (iter_at it stack (it_key it))
      end
  end.

(** The loop of [iter_from]: every turn with a node of links pushes it, and with
    more nodes than levels the subtraction of their number underflows, so one
    turn more than levels is enough. *)
Fixpoint iter_from_loop (fuel : nat) s (height : nat) (bit_width start : Z) (n : Node V) (offset : Z)
    (stack : list (Node V * nat)) : result AmtError (list (Node V * nat)) :=
  let start_idx := Z.max 0 (start - offset) in
  match n with
  | NodeLeaf vals =>
      if Z.of_nat (length vals) <=? start_idx
      then Err (AmtDynamic "incorrect height for tree depth: expected values at depth {}, found them at {}")
      else Ok ((n, Z.to_nat start_idx) :: stack)
  | NodeLink links =>
      if (height <? length stack)%nat then Err underflow else
      let nfh := nodes_for_height bit_width (height - length stack) in
      let idx := Z.to_nat (start_idx / nfh) in
      match links !! idx, fuel with
      | None, _ => Err (Panic "miscalculated nodes for height")
      | Some None, _ => Ok ((n, idx) :: stack)
      | Some (Some _), O => Err underflow
      | Some (Some l), S fuel =>
          match match l with LinkDirty sub => Ok sub | LinkCid cid cache => load_cached s bit_width cid cache end with
          | Err e => Err e
          | Ok sub =>
              iter_from_loop fuel s height bit_width start sub (offset + Z.of_nat idx * nfh) ((n, S idx) :: stack)
          end
      end
  end.
Definition iter_from s t (start : Z) : result AmtError (Iter V) :=
  let h := height (root t) in
  let bw := bit_width (root t) in
  if start =? 0 then Ok (iter t)
  else if nodes_for_height bw (S h) <=? start then Ok (mkIter [] h bw start)
  else match iter_from_loop (S h) s h bw start (node (root t)) 0 [] with
       | Err e => Err e
       | Ok stack => Ok (mkIter stack h bw start)
       end.

(** ** The for_each family

    The callback has a state of its own and may fail. Without fuel there is no
    answer. *)
Section callback.
Context {A : Type} (f : Z → V → A → result string bool * A).

Fixpoint each_while (fuel : nat) s it (a : A) : option (result AmtError unit * A) :=
  match fuel with
  | O => None
  | S fuel =>
      match iter_step s it with
      | Finished => Some (Ok tt, a)
      | Fail e _ => Some (Err e, a)
      | Continue it => each_while fuel s it a
      | Yield k v it =>
          match f k v a with
          | (Err e, a) => Some (Err (AmtDynamic e), a)
          | (Ok false, a) => Some (Ok tt, a)
          | (Ok true, a) => each_while fuel s it a
          end
      end
  end.
Definition for_each_while (fuel : nat) s t (a : A) : option (result AmtError unit * A) := each_while fuel s (iter t) a.

(** The loop of the ranged ones: an item is taken from the iterator, and then the
    limit is checked. *)
Fixpoint ranged (fuel : nat) s (limit : option Z) (num_traversed : Z) (keep_going : bool) it (a : A)
    : option (result AmtError (Z * option Z) * A) :=
  match fuel with
  | O => None
  | S fuel =>
      match iter_step s it with
      | Finished => Some (Ok (num_traversed, None), a)
      | Fail e _ => Some (Err e, a)
      | Continue it => ranged fuel s limit num_traversed keep_going it a
      | Yield k v it =>
          if negb keep_going || match limit with Some l => l <=? num_traversed | None => false end
          then Some (Ok (num_traversed, Some k), a)
          else match f k v a with
               | (Err e, a) => Some (Err (AmtDynamic e), a)
               | (Ok keep_going, a) => ranged fuel s limit (num_traversed + 1) keep_going it a
               end
      end
  end.
Definition for_each_while_ranged (fuel : nat) s (start_at limit : option Z) t (a : A)
    : option (result AmtError (Z * option Z) * A) :=
  match iter_from s t (default 0 start_at) with
  | Err e => Some (Err e, a)
  | Ok it => ranged fuel s limit 0 true it a
  end.
End callback.

(** The callbacks that do not stop. *)
Definition unstopped {A} (f : Z → V → A → result string unit * A) : Z → V → A → result string bool * A :=
  λ k v a, let '(r, a) := f k v a in (match r with Ok _ => Ok true | Err e => Err e end, a).
Definition for_each {A} (f : Z → V → A → result string unit * A) := for_each_while (unstopped f).
Definition for_each_ranged {A} (f : Z → V → A → result string unit * A) := for_each_while_ranged (unstopped f).

(** ** What an iterator yields *)

(** The items, until the iterator has no more. *)
Inductive yields s : Iter V → list (Z * V) → Prop :=
  | yields_done it : iter_step s it = Finished → yields s it []
  | yields_cont it it' l : iter_step s it = Continue it' → yields s it' l → yields s it l
  | yields_item it k v it' l : iter_step s it = Yield k v it' → yields s it' l → yields s it ((k, v) :: l).

(** The loops over a list of items. *)
Section over_list.
Context {A : Type} (f : Z → V → A → result string bool * A).

Fixpoint list_while (l : list (Z * V)) (a : A) : result AmtError unit * A :=
  match l with
  | [] => (Ok tt, a)
  | (k, v) :: l =>
      match f k v a with
      | (Err e, a) => (Err (AmtDynamic e), a)
      | (Ok false, a) => (Ok tt, a)
      | (Ok true, a) => list_while l a
      end
  end.
Fixpoint list_ranged (limit : option Z) (num : Z) (keep_going : bool) (l : list (Z * V)) (a : A)
    : result AmtError (Z * option Z) * A :=
  match l with
  | [] => (Ok (num, None), a)
  | (k, v) :: l =>
      if negb keep_going || match limit with Some max => max <=? num | None => false end
      then (Ok (num, Some k), a)
      else match f k v a with
           | (Err e, a) => (Err (AmtDynamic e), a)
           | (Ok keep_going, a) => list_ranged limit (num + 1) keep_going l a
           end
  end.

Lemma each_while_yields s it l : yields s it l →
  ∃ N, ∀ fuel a, (N ≤ fuel)%nat → each_while f fuel s it a = Some (list_while l a).
Proof using.
  induction 1 as [it E|it it' l E _ [N IH]|it k v it' l E _ [N IH]].
  - exists 1%nat. intros [|fuel] a Hf; [lia|]. simpl. by rewrite E.
  - exists (S N). intros [|fuel] a Hf; [lia|]. simpl. rewrite E. apply IH. lia.
  - exists (S N). intros [|fuel] a Hf; [lia|]. simpl. rewrite E. destruct (f k v a) as [[[|]|e] a']; [|done..]. apply IH. lia.
Qed.
Lemma ranged_yields s limit it l : yields s it l →
  ∃ N, ∀ fuel num keep_going a, (N ≤ fuel)%nat → ranged f fuel s limit num keep_going it a = Some (list_ranged limit num keep_going l a).
Proof using.
  induction 1 as [it E|it it' l E _ [N IH]|it k v it' l E _ [N IH]].
  - exists 1%nat. intros [|fuel] num kg a Hf; [lia|]. simpl. by rewrite E.
  - exists (S N). intros [|fuel] num kg a Hf; [lia|]. simpl. rewrite E. apply IH. lia.
  - exists (S N). intros [|fuel] num kg a Hf; [lia|]. simpl. rewrite E. destruct (negb kg || _); [done|].
    destruct (f k v a) as [[kg'|e] a']; [|done]. apply IH. lia.
Qed.
End over_list.
End iter.

(** ** The items are the entries *)

Section walk.
Context `{BSS : BlockstoreSpec} {V : Type} `{CB : !AmtCodec V} `{CS : !AmtCodecSpec V}.
Context (bw : Z) (Hbw : 1 ≤ bw ≤ 63) (s : Store) (m : gmap Z V).
Context (Hmax : ∀ k, is_Some (m !! k) → k ≤ MAX_INDEX).
#[local] Abbreviation P := (P bw).
#[local] Abbreviation node_rep := (node_rep bw).

(** The entries from [key] to the end [stop] of the range. *)
Definition from_to (key stop : Z) : list (Z * V) := entries m key (stop - key).

Lemma from_to_nil key stop : (∀ k, key ≤ k < stop → m !! k = None) → from_to key stop = [].
Proof using. intros Hn. apply entries_nil. intros k Hk. apply Hn. unfold within in Hk. lia. Qed.
Lemma from_to_split key mid stop : key ≤ mid ≤ stop → from_to key stop = from_to key mid ++ from_to mid stop.
Proof using.
  intros Hm. unfold from_to. replace (stop - key) with ((mid - key) + (stop - mid)) by lia.
  rewrite entries_app by lia. f_equal. f_equal; lia.
Qed.
Lemma from_to_over key stop : MAX_INDEX < key → from_to key stop = [].
Proof using Hmax.
  intros Hk. apply from_to_nil. intros k Hk'. apply eq_None_not_Some. intros Hs. specialize (Hmax k Hs). lia.
Qed.

Lemma yields_over it : MAX_INDEX < it_key it → yields s it [].
Proof using. intros Hk. apply yields_done. unfold iter_step. by rewrite (proj2 (Z.ltb_lt _ _) Hk). Qed.

(** The rest of a node, then of the nodes below it on the stack. *)
Lemma drain_leaf H base n stop stack : node_rep 0 s base n m → base + P 1 ≤ stop →
  (base + P 1 ≤ MAX_INDEX → yields s (mkIter stack H bw (base + P 1)) (from_to (base + P 1) stop)) →
  ∀ rest idx, (idx + rest = width bw)%nat →
  yields s (mkIter ((n, idx) :: stack) H bw (base + Z.of_nat idx)) (from_to (base + Z.of_nat idx) stop).
Proof using Hbw Hmax.
  intros (vals & -> & Hl & Hv) Hstop Hk. assert (P 1 = Z.of_nat (width bw)) as HP by (rewrite (P_S bw Hbw), (P_0 bw); lia).
  induction rest as [|rest IH]; intros idx Hidx.
  - destruct (Z.lt_ge_cases MAX_INDEX (base + Z.of_nat idx)); [rewrite from_to_over by done; by apply yields_over|].
    replace (base + Z.of_nat idx) with (base + P 1) in * by lia. eapply yields_cont; [|apply Hk; lia].
    unfold iter_step. simpl. rewrite (proj2 (Z.ltb_ge _ _)) by lia. rewrite lookup_ge_None_2 by lia. done.
  - destruct (Z.lt_ge_cases MAX_INDEX (base + Z.of_nat idx)); [rewrite from_to_over by done; by apply yields_over|].
    destruct (lookup_lt_is_Some_2 vals idx) as [o Ho]; [lia|]. pose proof (Hv _ _ Ho) as E. specialize (IH (S idx) ltac:(lia)).
    rewrite (from_to_split _ (base + Z.of_nat (S idx))) by lia. unfold from_to at 1.
    replace (base + Z.of_nat (S idx) - (base + Z.of_nat idx)) with 1 by lia. rewrite entries_one, <-E.
    replace (base + Z.of_nat (S idx)) with (base + Z.of_nat idx + 1) in IH |- * by lia.
    destruct o as [v|]; cbn [app]; [eapply yields_item; [|exact IH]|eapply yields_cont; [|exact IH]];
      unfold iter_step; simpl; rewrite (proj2 (Z.ltb_ge _ _)) by lia; by rewrite Ho.
Qed.

Lemma drain h : ∀ H base n stop stack, 0 ≤ base → node_rep h s base n m → base + P (S h) ≤ stop →
  (h + length stack = H)%nat →
  (base + P (S h) ≤ MAX_INDEX → yields s (mkIter stack H bw (base + P (S h))) (from_to (base + P (S h)) stop)) →
  ∀ rest idx, (idx + rest = width bw)%nat →
  yields s (mkIter ((n, idx) :: stack) H bw (base + Z.of_nat idx * P h)) (from_to (base + Z.of_nat idx * P h) stop).
Proof using BSS Hbw CS Hmax.
  induction h as [|h IHh]; intros H base n stop stack Hb Hr Hstop Hlen Hk rest idx.
  { rewrite (P_0 bw), Z.mul_1_r. by eapply drain_leaf. }
  pose proof Hr as (links & -> & Hl & Hv). pose proof (P_pos bw Hbw (S h)) as HP.
  assert (P (S (S h)) = Z.of_nat (width bw) * P (S h)) as HPS by apply (P_S bw Hbw).
  revert idx. induction rest as [|rest IH]; intros idx Hidx; set (key := base + Z.of_nat idx * P (S h)) in *;
    (destruct (Z.lt_ge_cases MAX_INDEX key) as [Hover|Hkey]; [rewrite from_to_over by done; by apply yields_over|]).
  - replace key with (base + P (S (S h))) in * by (unfold key; nia). eapply yields_cont; [|apply Hk; lia].
    unfold iter_step. simpl. rewrite (proj2 (Z.ltb_ge _ _)) by lia. rewrite lookup_ge_None_2 by lia. done.
  - destruct (lookup_lt_is_Some_2 links idx) as [o Ho]; [lia|]. pose proof (Hv _ _ Ho) as Hlk. fold key in Hlk.
    specialize (IH (S idx) ltac:(lia)). cbv zeta in IH. replace (base + Z.of_nat (S idx) * P (S h)) with (key + P (S h)) in IH by (unfold key; lia).
    assert (key + P (S h) ≤ stop) as Hks by (unfold key; nia).
    assert (∀ sub, node_rep h s key sub m → yields s (mkIter ((sub, O) :: (NodeLink links, S idx) :: stack) H bw key) (from_to key stop)) as Hsub.
    { intros sub Hsub. pose proof (IHh H key sub stop ((NodeLink links, S idx) :: stack) ltac:(unfold key; nia) Hsub Hks
        ltac:(simpl; lia) (λ _, IH) (width bw) O ltac:(lia)) as Hy. by rewrite Z.mul_0_l, Z.add_0_r in Hy. }
    destruct o as [[c cache|sub]|].
    + destruct (load_cached_ok bw Hbw h s key c cache m Hlk) as (sub & El & Hs). eapply yields_cont; [|by apply (Hsub sub)].
      unfold iter_step. simpl. rewrite (proj2 (Z.ltb_ge _ _)) by lia. by rewrite Ho, El.
    + eapply yields_cont; [|apply (Hsub sub), Hlk].
      unfold iter_step. simpl. rewrite (proj2 (Z.ltb_ge _ _)) by lia. by rewrite Ho.
    + simpl in Hlk. rewrite (from_to_split _ (key + P (S h))) by lia.
      rewrite (from_to_nil key (key + P (S h))) by (intros k Hkk; apply Hlk; exact Hkk). cbn [app].
      eapply yields_cont.
      { unfold iter_step. simpl. rewrite (proj2 (Z.ltb_ge _ _)) by lia. rewrite Ho.
        destruct (Nat.ltb_spec H (S (length stack))); [lia|]. replace (H - S (length stack) + 1)%nat with (S h) by lia. done. }
      unfold iter_at. simpl. unfold sat_add. destruct (nfh_cases bw Hbw (S h)) as [->|[-> Hbig]].
      * destruct (Z.le_gt_cases (key + P (S h)) u64_max); [by rewrite Z.min_l by lia|].
        rewrite from_to_over by (unfold MAX_INDEX; lia). apply yields_over. simpl. unfold MAX_INDEX. lia.
      * rewrite from_to_over by (unfold MAX_INDEX; unfold key; lia). apply yields_over. simpl. unfold MAX_INDEX. lia.
Qed.

(** A whole node, as [diff] and [iter] walk it. *)
Lemma iter_new_yields h base n : 0 ≤ base → node_rep h s base n m → yields s (iter_new n h bw base) (entries m base (P (S h))).
Proof using BSS Hbw CS Hmax.
  intros Hb Hr. pose proof (drain h h base n (base + P (S h)) [] Hb Hr ltac:(lia) ltac:(simpl; lia)) as Hd.
  assert (from_to (base + P (S h)) (base + P (S h)) = []) as E by (apply from_to_nil; lia). rewrite E in Hd.
  specialize (Hd ltac:(intros _; apply yields_done; unfold iter_step; simpl; by destruct (_ <? _)) (width bw) O ltac:(lia)).
  rewrite Z.mul_0_l, Z.add_0_r in Hd. unfold from_to in Hd. by replace (base + P (S h) - base) with (P (S h)) in Hd by lia.
Qed.

(** The path to an index that is present. *)
Lemma iter_from_loop_ok start (Hpres : is_Some (m !! start)) h : ∀ fuel H base n stop stack, (h ≤ fuel)%nat → 0 ≤ base →
  node_rep h s base n m → base + P (S h) ≤ stop → within base (P (S h)) start → (h + length stack = H)%nat →
  (base + P (S h) ≤ MAX_INDEX → yields s (mkIter stack H bw (base + P (S h))) (from_to (base + P (S h)) stop)) →
  ∃ stack', iter_from_loop fuel s H bw start n base stack = Ok stack' ∧ yields s (mkIter stack' H bw start) (from_to start stop).
Proof using BSS Hbw CS Hmax.
  induction h as [|h IH]; intros fuel H base n stop stack Hfuel Hb Hr Hstop Hw Hlen Hk; unfold within in Hw.
  - pose proof Hr as (vals & -> & Hl & Hv). assert (P 1 = Z.of_nat (width bw)) as HP by (rewrite (P_S bw Hbw), (P_0 bw); lia).
    exists ((NodeLeaf vals, Z.to_nat (start - base)) :: stack). destruct fuel; cbn [iter_from_loop]; rewrite Z.max_r by lia;
      (destruct (Z.leb_spec (Z.of_nat (length vals)) (start - base)); [lia|]); (split; [done|]);
      pose proof (drain_leaf H base _ stop stack Hr Hstop Hk (width bw - Z.to_nat (start - base)) (Z.to_nat (start - base)) ltac:(lia)) as Hd;
      by replace (base + Z.of_nat (Z.to_nat (start - base))) with start in Hd by lia.
  - pose proof (Hmax start Hpres) as Hsm.
    destruct (enter_link bw Hbw h s base n m (start - base) Hr ltac:(lia) ltac:(lia)) as (links & j & o & -> & Ej & Hj & Ho & Hi' & _ & E).
    destruct fuel as [|fuel]; [lia|]. cbn [iter_from_loop]. destruct (Nat.ltb_spec H (length stack)); [lia|].
    replace (H - length stack)%nat with (S h) by lia. rewrite Z.max_r by lia. rewrite Ej, Hj.
    pose proof (P_pos bw Hbw (S h)) as HP. assert (P (S (S h)) = Z.of_nat (width bw) * P (S h)) as HPS by apply (P_S bw Hbw).
    pose proof Hr as (links' & [= <-] & Hl & _). pose proof (lookup_lt_Some _ _ _ Hj) as Hjl.
    assert (base + Z.of_nat j * nodes_for_height bw (S h) = base + Z.of_nat j * P (S h)) as Eoff.
    { destruct (nfh_cases bw Hbw (S h)) as [->|[Es Hbig]]; [done|]. assert (j = O) as -> by (unfold MAX_INDEX in *; nia). lia. }
    set (b := base + Z.of_nat j * P (S h)) in *.
    assert (within b (P (S h)) start) as Hw' by (unfold within; lia).
    destruct o as [l|].
    2:{ rewrite (Ho start Hw') in Hpres. by destruct Hpres. }
    assert (∃ sub, match l with LinkDirty sub => Ok sub | LinkCid cid cache => load_cached s bw cid cache end = Ok sub ∧ node_rep h s b sub m)
      as (sub & -> & Hsub).
    { destruct l as [c cache|sub]; [|exists sub; by split; [|apply Ho]]. by apply (load_cached_ok bw Hbw). }
    rewrite Eoff. apply (IH fuel H b sub stop ((NodeLink links, S j) :: stack)); [lia|unfold b; nia|done|unfold b; nia|done|simpl; lia|].
    intros _. pose proof (drain (S h) H base (NodeLink links) stop stack Hb Hr Hstop Hlen Hk (width bw - S j) (S j) ltac:(lia)) as Hd.
    by replace (base + Z.of_nat (S j) * P (S h)) with (b + P (S h)) in Hd by (unfold b; lia).
Qed.
End walk.

Section ranged_top.
Context `{BSS : BlockstoreSpec} {V : Type} `{CB : !AmtCodec V} `{CS : !AmtCodecSpec V}.
Context (ver : Version) (bw : Z) (Hbw : 1 ≤ bw ≤ 63).
Implicit Types (s : Store) (t : AmtImpl V) (m : gmap Z V).

(** All entries from an index on, in order. *)
Definition entries_from m (start : Z) : list (Z * V) := entries m start (MAX_INDEX + 1 - start).

Lemma entries_from_fits h m start : keys_ok m → fits bw h m → start < P bw (S h) →
  from_to m start (P bw (S h)) = entries_from m start.
Proof using.
  intros Hk Hf Hs. unfold entries_from. change (entries m start (MAX_INDEX + 1 - start)) with (from_to m start (MAX_INDEX + 1)).
  destruct (Z.le_gt_cases (MAX_INDEX + 1) start) as [Hgt|Hle].
  { rewrite !from_to_nil; [done|..]; intros k Hkk; apply eq_None_not_Some; intros Hsome; specialize (Hk k Hsome); lia. }
  destruct (Z.le_gt_cases (P bw (S h)) (MAX_INDEX + 1)).
  - rewrite (from_to_split m start (P bw (S h)) (MAX_INDEX + 1)) by lia. rewrite (from_to_nil m (P bw (S h))), app_nil_r; [done|].
    intros k Hkk. apply eq_None_not_Some. intros Hsome. specialize (Hf k Hsome). lia.
  - rewrite (from_to_split m start (MAX_INDEX + 1) (P bw (S h))) by lia. rewrite (from_to_nil m (MAX_INDEX + 1)), app_nil_r; [done|].
    intros k Hkk. apply eq_None_not_Some. intros Hsome. specialize (Hk k Hsome). lia.
Qed.

Lemma iter_yields s t m : amt_rep ver bw s t m → yields s (iter t) (entries_from m 0).
Proof using BSS Hbw CS.
  intros [(E & Hk & Hf & _ & _ & Hr) _]. unfold iter. rewrite E. pose proof (P_pos bw Hbw (S (height (root t)))).
  rewrite <-(entries_from_fits (height (root t))) by done.
  pose proof (iter_new_yields bw Hbw s m (λ k Hs, proj2 (Hk k Hs)) _ 0 _ ltac:(lia) Hr) as Hy.
  unfold from_to. by rewrite Z.sub_0_r.
Qed.

(** Where a walk can start: at 0, at an entry, or beyond the AMT. *)
Lemma iter_from_yields s t m start : amt_rep ver bw s t m → 0 ≤ start →
  start = 0 ∨ is_Some (m !! start) ∨ P bw (S (height (root t))) ≤ start →
  ∃ it, iter_from s t start = Ok it ∧ yields s it (entries_from m start).
Proof using BSS Hbw CS.
  intros Ht Hs0 Hstart. unfold iter_from. destruct (Z.eqb_spec start 0) as [->|Hne].
  { eexists. split; [done|]. by apply iter_yields. }
  pose proof Ht as [(E & Hk & Hf & _ & _ & Hr) _]. rewrite E. set (h := height (root t)) in *.
  pose proof (P_pos bw Hbw (S h)) as HP.
  assert (P bw (S h) ≤ start → ∀ k, start ≤ k < MAX_INDEX + 1 → m !! k = None) as Hbeyond.
  { intros Hge k Hkk. apply eq_None_not_Some. intros Hsome. specialize (Hf k Hsome). lia. }
  assert (entries_from m start = from_to m start (MAX_INDEX + 1)) as Efrom by done.
  destruct (Z.leb_spec (nodes_for_height bw (S h)) start) as [Hle|Hlt].
  - eexists. split; [done|]. replace (entries_from m start) with (@nil (Z * V)); [apply yields_done; unfold iter_step; simpl; by destruct (_ <? _)|].
    symmetry. rewrite Efrom. apply from_to_nil. destruct (nfh_cases bw Hbw (S h)) as [En|[En _]]; rewrite En in Hle; [auto|].
    intros k Hkk. unfold MAX_INDEX in Hkk. lia.
  - assert (start < P bw (S h)) as Hlt' by (destruct (nfh_cases bw Hbw (S h)) as [En|[En ?]]; rewrite En in Hlt; lia).
    destruct Hstart as [?|[Hpres|?]]; [lia| |lia].
    destruct (iter_from_loop_ok bw Hbw s m (λ k Hs, proj2 (Hk k Hs)) start Hpres h (S h) h 0 (node (root t)) (P bw (S h)) [])
      as (stack & -> & Hy); [lia|lia|done|lia|unfold within; lia|simpl; lia| |].
    { intros _. rewrite from_to_nil by lia. apply yields_done. unfold iter_step. simpl. by destruct (_ <? _). }
    eexists. split; [done|]. by rewrite <-(entries_from_fits h).
Qed.

(** Where a page ends: after [n] of the entries, at the first one that is left. *)
Lemma list_ranged_next {A} (f : Z → V → A → result string bool * A) limit l : ∀ num kg (a : A) n k a',
  list_ranged f limit num kg l a = (Ok (n, Some k), a') →
  ∃ l1 v l2, l = l1 ++ (k, v) :: l2 ∧ n = num + Z.of_nat (length l1).
Proof using.
  induction l as [|[k' v'] l IH]; intros num kg a n k a'; simpl; [done|].
  destruct (negb kg || _); [intros [= <- <- <-]; exists [], v', l; split; [done|simpl; lia]|].
  destruct (f k' v' a) as [[kg'|e] a1]; [|done]. intros Hl. destruct (IH _ _ _ _ _ _ Hl) as (l1 & v & l2 & -> & ->).
  exists ((k', v') :: l1), v, l2. split; [done|]. simpl. lia.
Qed.

(** The entries from an entry on are the rest of the list. *)
Lemma entries_from_rest m start l1 k v l2 : 0 ≤ start → entries_from m start = l1 ++ (k, v) :: l2 →
  m !! k = Some v ∧ entries_from m k = (k, v) :: l2.
Proof using CS Hbw.
  intros Hs E. assert ((k, v) ∈ entries_from m start) as Hin by (rewrite E; set_solver).
  apply elem_of_entries in Hin as [Hw Hv]. split; [done|]. unfold within in Hw.
  change (entries_from m start) with (from_to m start (MAX_INDEX + 1)) in E. rewrite (from_to_split m start k) in E by lia.
  change (entries_from m k) with (from_to m k (MAX_INDEX + 1)). set (la := from_to m start k) in *.
  assert (from_to m k (MAX_INDEX + 1) = (k, v) :: from_to m (k + 1) (MAX_INDEX + 1)) as Eb.
  { rewrite (from_to_split m k (k + 1)) by lia. unfold from_to at 1. replace (k + 1 - k) with 1 by lia. by rewrite entries_one, Hv. }
  rewrite Eb in E |- *. f_equal.
  assert (∀ x, x ∈ la → x.1 < k) as Hla.
  { intros [k' v'] Hx. apply elem_of_entries in Hx as [Hx _]. unfold within in Hx. simpl. lia. }
  assert (∀ x, x ∈ from_to m (k + 1) (MAX_INDEX + 1) → k < x.1) as Hlb.
  { intros [k' v'] Hx. apply elem_of_entries in Hx as [Hx _]. unfold within in Hx. simpl. lia. }
  clearbody la. clear Eb Hv. revert l1 E. induction la as [|x la IH]; intros [|y l1] E; simpl in E.
  - by injection E.
  - injection E as <- E. assert ((k, v) ∈ from_to m (k + 1) (MAX_INDEX + 1)) as Hin by (rewrite E; apply elem_of_app; right; left). apply Hlb in Hin. simpl in Hin. lia.
  - injection E as -> E. specialize (Hla (k, v) ltac:(left)). simpl in Hla. lia.
  - injection E as -> E. apply (IH ltac:(intros ? ?; apply Hla; by right) l1 E).
Qed.

(** C27: iteration visits the entries in the order of their indices. The
    for_each family ends, and runs its callback on the list of all entries, by
    index, stopping where the callback says. A page that starts at 0, at an entry
    or beyond the AMT covers exactly the entries from there on; when it reports a next index, that is an entry,
    and the page that starts there continues where this one stopped. *)
Theorem amt_iteration {A} (f : Z → V → A → result string bool * A) s t m (a : A) (start : Z) (limit : option Z)
    (Ht : amt_rep ver bw s t m) (Hs : 0 ≤ start)
    (Hstart : start = 0 ∨ is_Some (m !! start) ∨ P bw (S (height (root t))) ≤ start) :
  StronglySorted Z.lt (entries_from m start).*1 ∧
  (∀ k v, (k, v) ∈ entries_from m start ↔ start ≤ k ∧ m !! k = Some v) ∧
  ∃ N, ∀ fuel, (N ≤ fuel)%nat →
    for_each_while f fuel s t a = Some (list_while f (entries_from m 0) a) ∧
    for_each_while_ranged f fuel s (Some start) limit t a = Some (list_ranged f limit 0 true (entries_from m start) a) ∧
    (∀ n k a', for_each_while_ranged f fuel s (Some start) limit t a = Some (Ok (n, Some k), a') →
       is_Some (m !! k) ∧ ∃ l1, entries_from m start = l1 ++ entries_from m k ∧ n = Z.of_nat (length l1)).
Proof using BSS Hbw CS.
  split; [apply entries_sorted|]. split.
  { intros k v. unfold entries_from. rewrite elem_of_entries. unfold within. split; [intros [? ?]; split; [lia|done]|].
    intros [? Hv]. split; [|done]. destruct Ht as [(_ & Hk & _) _]. destruct (Hk k) as [_ ?]; [by exists v|]. lia. }
  destruct (each_while_yields f s _ _ (iter_yields s t m Ht)) as [N1 H1].
  destruct (iter_from_yields s t m start Ht Hs Hstart) as (it & Ei & Hy). destruct (ranged_yields f s limit _ _ Hy) as [N2 H2].
  exists (N1 + N2)%nat. intros fuel Hf.
  assert (for_each_while_ranged f fuel s (Some start) limit t a = Some (list_ranged f limit 0 true (entries_from m start) a)) as E.
  { unfold for_each_while_ranged. cbn [default from_option id]. rewrite Ei. apply H2. lia. }
  split_and!; [apply H1; lia|done|]. intros n k a'. rewrite E. intros [= E'].
  destruct (list_ranged_next _ _ _ _ _ _ _ _ _ E') as (l1 & v & l2 & El & ->).
  destruct (entries_from_rest m start l1 k v l2 Hs El) as [Hv Hk]. split; [by exists v|]. exists l1. rewrite Hk, El. split; [done|lia].
Qed.
End ranged_top.
