(* ===== verification/AmtDiff.v ===== *)
(** * The difference of two AMTs (ipld/amt/src/diff.rs)

    [diff] walks two AMTs of the same bit width together and lists the indices
    whose values differ. Links with equal CIDs are skipped after both nodes
    were loaded. When the AMTs differ in height, the taller one is walked down
    its first links; an absent first link is passed over with what the lower
    AMT has below it, so the list is exact only when that link is there. *)

From S2P Require Import Prelude Effects Address Types Amt AmtRep AmtMap AmtTop AmtIter.
From stdpp Require Import gmap strings list fin_maps.
From Stdlib Require Import ZArith Lia.
#[local] Open Scope Z_scope.

Inductive ChangeType := Add | Remove | Modify.
Record Change (Old New : Type) := mkChange { ch_key : Z; before : option Old; after : option New }.
Arguments mkChange {Old New} _ _ _.
Arguments ch_key {Old New} _.
Arguments before {Old New} _.
Arguments after {Old New} _.

Definition change_type {Old New} (c : Change Old New) : result AmtError ChangeType :=
  match before c, after c with
  | Some _, Some _ => Ok Modify
  | Some _, None => Ok Remove
  | None, Some _ => Ok Add
  | None, None => Err (Panic "Invalid change type, before and after cannot be both None")
  end.

(** Answers, with enough fuel. *)
Definition R (A : Type) : Type := option (result AmtError A).
Definition rret {A} (a : A) : R A := Some (Ok a).
Definition rfail {A} (msg : string) : R A := Some (Err (AmtDynamic msg)).
Definition rbind {A B} (x : R A) (k : A → R B) : R B :=
  match x with None => None | Some (Err e) => Some (Err e) | Some (Ok a) => k a end.

(** [changes.append(..)] for the items from the [i]th on. *)
Fixpoint append_all {X C} (go : nat → X → R (list C)) (i : nat) (xs : list X) : R (list C) :=
  match xs with
  | [] => rret []
  | x :: xs => rbind (go i x) (λ c, rbind (append_all go (S i) xs) (λ cs, rret (c ++ cs)))
  end.

(** Collecting an iterator. *)
Fixpoint collect `{BS : Blockstore} {V} `{CB : !AmtCodec V} (fuel : nat) (s : Store) (it : Iter V) : R (list (Z * V)) :=
  match fuel with
  | O => None
  | S fuel =>
      match iter_step s it with
      | Finished => rret []
      | Fail e _ => Some (Err e)
      | Continue it => collect fuel s it
      | Yield k v it => rbind (collect fuel s it) (λ l, rret ((k, v) :: l))
      end
  end.

(** [get_sub_node]. *)
Definition get_sub_node `{BS : Blockstore} {V} `{CB : !AmtCodec V} (s : Store) (bit_width : Z) (l : Link V) : R (Node V) :=
  match l with
  | LinkDirty n | LinkCid _ (Some n) => rret n
  | LinkCid cid None =>
      match get_cbor (T := CollapsedNode V) s cid with
      | Err e => rfail e
      | Ok None => rfail "Failed to get collapsed node from block store"
      | Ok (Some b) => Some (expand bit_width b)
      end
  end.

Definition link_cid {V} (l : Link V) : option Cid := match l with LinkCid c _ => Some c | LinkDirty _ => None end.

Section diff.
Context {OldBS NewBS : Blockstore} {Old New : Type} `{CO : !AmtCodec Old} `{CN : !AmtCodec New}.
Context `{EO : !Cbor Old} `{EN : !Cbor New}.
Context (s1 : @Store OldBS) (s2 : @Store NewBS) (bit_width : Z).
#[local] Abbreviation C := (Change Old New).

Definition add_all (fuel : nat) (height : nat) (n : Node New) (offset : Z) : R (list C) :=
  rbind (collect fuel s2 (iter_new n height bit_width offset)) (λ l, rret ((λ '(k, v), mkChange k None (Some v)) <$> l)).
Definition remove_all (fuel : nat) (height : nat) (n : Node Old) (offset : Z) : R (list C) :=
  rbind (collect fuel s1 (iter_new n height bit_width offset)) (λ l, rret ((λ '(k, v), mkChange k (Some v) None) <$> l)).

(** The change of one slot of two leaves. *)
Definition leaf_change (offset : Z) (i : nat) (vals : option Old * option New) : R (list C) :=
  let index := offset + Z.of_nat i in
  match vals with
  | (None, None) => rret []
  | (Some prev, Some curr) =>
      match to_vec prev, to_vec curr with
      | Ok a, Ok b => rret (if bool_decide (a = b) then [] else [mkChange index (Some prev) (Some curr)])
      | Err e, _ | Ok _, Err e => rfail e
      end
  | (prev, curr) => rret [mkChange index prev curr]
  end.
Definition diff_leaves (prev : Node Old) (curr : Node New) (offset : Z) : R (list C) :=
  match prev, curr with
  | NodeLink _, _ => rfail "The previous node is expected to be a leaf node, offset: {offset}"
  | NodeLeaf _, NodeLink _ => rfail "The current node is expected to be a leaf node, offset: {offset}"
  | NodeLeaf prev_vals, NodeLeaf curr_vals =>
      if negb (length prev_vals =? length curr_vals)%nat
      then rfail "node leaves have different numbers of values, prev: {}, curr: {}"
      else append_all (leaf_change offset) 0 (zip prev_vals curr_vals)
  end.

(** Offsets stay below [2^64]: they start entries that exist. *)
Fixpoint diff_node (fuel : nat) (h1 : nat) (prev : Node Old) (h2 : nat) (curr : Node New) (offset : Z) : R (list C) :=
  match fuel with
  | O => None
  | S fuel =>
      match h1, h2 with
      | O, O => diff_leaves prev curr offset
      | _, _ =>
          if (h1 <? h2)%nat then
            match curr with
            | NodeLeaf _ => rfail "Node::Link expected"
            | NodeLink links =>
                append_all (λ i l,
                  match l with
                  | None => rret []
                  | Some l =>
                      rbind (get_sub_node s2 bit_width l) (λ sub,
                        let new_offset := offset + nodes_for_height bit_width h2 * Z.of_nat i in
                        if (i =? 0)%nat then diff_node fuel h1 prev (pred h2) sub new_offset
                        else add_all fuel (pred h2) sub new_offset)
                  end) 0 links
            end
          else if (h2 <? h1)%nat then
            match prev with
            | NodeLeaf _ => rfail "Node::Link expected"
            | NodeLink links =>
                append_all (λ i l,
                  match l with
                  | None => rret []
                  | Some l =>
                      rbind (get_sub_node s1 bit_width l) (λ sub,
                        let new_offset := offset + nodes_for_height bit_width h1 * Z.of_nat i in
                        if (i =? 0)%nat then diff_node fuel (pred h1) sub h2 curr new_offset
                        else remove_all fuel (pred h1) sub new_offset)
                  end) 0 links
            end
          else
            match prev, curr with
            | NodeLink prev_links, NodeLink curr_links =>
                if negb (length prev_links =? length curr_links)%nat
                then rfail "nodes have different numbers of links"
                else
                append_all (λ i ls,
                  let new_offset := offset + nodes_for_height bit_width h1 * Z.of_nat i in
                  match ls with
                  | (None, None) => rret []
                  | (Some l, None) =>
                      rbind (get_sub_node s1 bit_width l) (λ sub, remove_all fuel (pred h1) sub new_offset)
                  | (None, Some l) =>
                      rbind (get_sub_node s2 bit_width l) (λ sub, add_all fuel (pred h2) sub new_offset)
                  | (Some l1, Some l2) =>
                      rbind (get_sub_node s1 bit_width l1) (λ prev_sub,
                      rbind (get_sub_node s2 bit_width l2) (λ curr_sub,
                        if match link_cid l1, link_cid l2 with Some a, Some b => bool_decide (a = b) | _, _ => false end
                        then rret []
                        else diff_node fuel (pred h1) prev_sub (pred h2) curr_sub new_offset))
                  end) 0 (zip prev_links curr_links)
            | _, _ => rfail "Nodes has no links"
            end
      end
  end.

(** The branch for a taller new AMT. *)
Lemma diff_node_new n h1 prev h2 links offset : (h1 < h2)%nat →
  diff_node (S n) h1 prev h2 (NodeLink links) offset =
  append_all (λ i l,
    match l with
    | None => rret []
    | Some l =>
        rbind (get_sub_node s2 bit_width l) (λ sub,
          let new_offset := offset + nodes_for_height bit_width h2 * Z.of_nat i in
          if (i =? 0)%nat then diff_node n h1 prev (pred h2) sub new_offset
          else add_all n (pred h2) sub new_offset)
    end) 0 links.
Proof. intros Hlt. cbn [diff_node]. rewrite (proj2 (Nat.ltb_lt _ _) Hlt). destruct h1, h2; [lia|done..]. Qed.
End diff.

Definition diff {OldBS NewBS : Blockstore} {Old New} `{CO : !AmtCodec Old} `{CN : !AmtCodec New} `{EO : !Cbor Old} `{EN : !Cbor New}
    (fuel : nat) (s1 : @Store OldBS) (prev_amt : AmtImpl Old) (s2 : @Store NewBS) (curr_amt : AmtImpl New) : R (list (Change Old New)) :=
  let r1 := root prev_amt in
  let r2 := root curr_amt in
  if negb (bit_width r1 =? bit_width r2)
  then rfail "diffing AMTs with differing bitWidths not supported (prev={}, cur={})"
  else if (count r1 =? 0) && negb (count r2 =? 0) then add_all s2 (bit_width r2) fuel (height r2) (node r2) 0
  else if negb (count r1 =? 0) && (count r2 =? 0) then remove_all s1 (bit_width r1) fuel (height r1) (node r1) 0
  else diff_node s1 s2 (bit_width r1) fuel (height r1) (node r1) (height r2) (node r2) 0.

(** ** What the difference is *)

Lemma omap_cons_eq {A B} (f : A → option B) x l : omap f (x :: l) = match f x with Some y => y :: omap f l | None => omap f l end.
Proof. done. Qed.

Section changes.
Context {V : Type} `{EqDecision V}.
Implicit Types m : gmap Z V.

Definition change_at (k : Z) (o1 o2 : option V) : option (Change V V) :=
  if decide (o1 = o2) then None else Some (mkChange k o1 o2).
Definition changes m1 m2 (base len : Z) : list (Change V V) := omap (λ k, change_at k (m1 !! k) (m2 !! k)) (seqZ base len).

Lemma changes_app m1 m2 base a b : 0 ≤ a → 0 ≤ b → changes m1 m2 base (a + b) = changes m1 m2 base a ++ changes m1 m2 (base + a) b.
Proof. intros Ha Hb. unfold changes. by rewrite seqZ_app, omap_app by done. Qed.
Lemma changes_zero m1 m2 base : changes m1 m2 base 0 = [].
Proof. done. Qed.
Lemma changes_one m1 m2 k : changes m1 m2 k 1 = match change_at k (m1 !! k) (m2 !! k) with Some c => [c] | None => [] end.
Proof. unfold changes, seqZ. simpl. rewrite ?Z.add_0_l, ?Z.add_0_r. by destruct (change_at _ _ _). Qed.
Lemma changes_same m1 m2 base len : agree_on m1 m2 base len → changes m1 m2 base len = [].
Proof.
  intros Ha. unfold changes. assert (∀ l : list Z, (∀ k, k ∈ l → m1 !! k = m2 !! k) → omap (λ k, change_at k (m1 !! k) (m2 !! k)) l = []) as Hl.
  { induction l as [|k l IH]; intros Hk; [done|]. rewrite omap_cons_eq. unfold change_at at 1. rewrite decide_True by (apply Hk; left).
    apply IH. intros k' Hk'. apply Hk. by right. }
  apply Hl. intros k Hk%elem_of_seqZ. by apply Ha.
Qed.
(** On a range where one side has nothing. *)
Lemma changes_adds m1 m2 base len : empty_on m1 base len →
  changes m1 m2 base len = (λ '(k, v), mkChange k None (Some v)) <$> entries m2 base len.
Proof.
  intros He. unfold changes, entries. assert (∀ l : list Z, (∀ k, k ∈ l → m1 !! k = None) →
    omap (λ k, change_at k (m1 !! k) (m2 !! k)) l = (λ '(k, v), mkChange k None (Some v)) <$> omap (λ k, pair k <$> m2 !! k) l) as Hl.
  { induction l as [|k l IH]; intros Hk; [done|]. rewrite !omap_cons_eq, Hk by left. specialize (IH (λ k' Hk', Hk k' (list_elem_of_further _ _ _ Hk'))).
    unfold change_at at 1. destruct (m2 !! k); [rewrite decide_False by done|rewrite decide_True by done]; rewrite IH; done. }
  apply Hl. intros k Hk%elem_of_seqZ. by apply He.
Qed.
Lemma changes_removes m1 m2 base len : empty_on m2 base len →
  changes m1 m2 base len = (λ '(k, v), mkChange k (Some v) None) <$> entries m1 base len.
Proof.
  intros He. unfold changes, entries. assert (∀ l : list Z, (∀ k, k ∈ l → m2 !! k = None) →
    omap (λ k, change_at k (m1 !! k) (m2 !! k)) l = (λ '(k, v), mkChange k (Some v) None) <$> omap (λ k, pair k <$> m1 !! k) l) as Hl.
  { induction l as [|k l IH]; intros Hk; [done|]. rewrite !omap_cons_eq, Hk by left. specialize (IH (λ k' Hk', Hk k' (list_elem_of_further _ _ _ Hk'))).
    unfold change_at at 1. destruct (m1 !! k); [rewrite decide_False by done|rewrite decide_True by done]; rewrite IH; done. }
  apply Hl. intros k Hk%elem_of_seqZ. by apply He.
Qed.

Lemma elem_of_changes m1 m2 base len k o1 o2 :
  mkChange k o1 o2 ∈ changes m1 m2 base len ↔ within base len k ∧ m1 !! k = o1 ∧ m2 !! k = o2 ∧ o1 ≠ o2.
Proof.
  unfold changes. rewrite list_elem_of_omap. unfold change_at, within. split.
  - intros (k' & Hk'%elem_of_seqZ & E). case_decide; [done|]. by simplify_eq/=.
  - intros (Hk & <- & <- & Hne). exists k. rewrite elem_of_seqZ. split; [done|]. by rewrite decide_False.
Qed.
End changes.

(** ** Enough fuel *)

Definition enough {A} (f : nat → R A) (a : A) : Prop := ∃ N, ∀ fuel, (N ≤ fuel)%nat → f fuel = rret a.

Lemma enough_ret {A} (a : A) : enough (λ _, rret a) a.
Proof. by exists O. Qed.
Lemma enough_bind {A B} (f : nat → R A) (k : nat → A → R B) a b :
  enough f a → enough (λ n, k n a) b → enough (λ n, rbind (f n) (k n)) b.
Proof. intros [N1 H1] [N2 H2]. exists (N1 + N2)%nat. intros fuel Hf. rewrite H1 by lia. simpl. apply H2. lia. Qed.
Lemma enough_S {A} (f : nat → R A) (g : nat → R A) a : (∀ n, f (S n) = g n) → enough g a → enough f a.
Proof. intros E [N HN]. exists (S N). intros [|fuel] Hf; [lia|]. rewrite E. apply HN. lia. Qed.
Lemma enough_ext {A} (f g : nat → R A) a : (∀ n, f n = g n) → enough g a → enough f a.
Proof. intros E [N HN]. exists N. intros fuel Hf. rewrite E. by apply HN. Qed.

Lemma append_changes {V} `{EqDecision V} {X} (m1 m2 : gmap Z V) base w (go : nat → nat → X → R (list (Change V V))) xs : ∀ i, 0 ≤ w →
  (∀ j x, xs !! j = Some x → enough (λ n, go n (i + j)%nat x) (changes m1 m2 (base + Z.of_nat (i + j) * w) w)) →
  enough (λ n, append_all (go n) i xs) (changes m1 m2 (base + Z.of_nat i * w) (Z.of_nat (length xs) * w)).
Proof.
  induction xs as [|x xs IH]; intros i Hw Hx; cbn [append_all length].
  { rewrite Z.mul_0_l, changes_zero. apply enough_ret. }
  replace (Z.of_nat (S (length xs)) * w) with (w + Z.of_nat (length xs) * w) by lia. rewrite changes_app by lia.
  pose proof (Hx O x eq_refl) as H0. rewrite Nat.add_0_r in H0.
  eapply enough_bind; [exact H0|]. eapply enough_bind; [|apply enough_ret].
  replace (base + Z.of_nat i * w + w) with (base + Z.of_nat (S i) * w) by lia. apply IH; [done|].
  intros j y Hj. replace (S i + j)%nat with (i + S j)%nat by lia. by apply Hx.
Qed.

Lemma collect_yields `{BS : Blockstore} {V} `{CB : !AmtCodec V} (s : Store) (it : Iter V) l :
  yields s it l → enough (λ n, collect n s it) l.
Proof.
  induction 1 as [it E|it it' l E _ IH|it k v it' l E _ IH].
  - exists 1%nat. intros [|fuel] Hf; [lia|]. simpl. by rewrite E.
  - eapply enough_S; [|exact IH]. intros n. simpl. by rewrite E.
  - eapply enough_S; [|apply (enough_bind _ (λ _ l, rret ((k, v) :: l)) l _ IH), enough_ret]. intros n. simpl. by rewrite E.
Qed.

Lemma get_sub_node_ok `{BS : Blockstore} {V} `{CB : !AmtCodec V} `{CS : !CborSpec (CollapsedNode V)} bw (Hbw : 1 ≤ bw ≤ 63)
    h s base l (m : gmap Z V) : link_rep (node_rep bw h) s base (P bw (S h)) (Some l) m →
  ∃ n, get_sub_node s bw l = rret n ∧ node_rep bw h s base n m.
Proof.
  intros Hl. destruct l as [c [n|]|n]; [exists n; by split; [|apply Hl]| |exists n; by split; [|apply Hl]].
  destruct (node_load_ok bw Hbw h s base c m) as (n & E & Hn); [apply Hl..|]. exists n. split; [|done].
  unfold node_load in E. simpl. destruct (get_cbor s c) as [[b|]|]; [|done..]. by rewrite E.
Qed.

Section exact.
Context {BS1 BS2 : Blockstore} {BSS1 : @BlockstoreSpec BS1} {BSS2 : @BlockstoreSpec BS2}.
Context {V : Type} `{ED : EqDecision V} `{CB : !AmtCodec V} `{CS : !AmtCodecSpec V} `{EV : !Cbor V} `{ES : !CborSpec V}.
(** The two stores hash alike, without collisions. *)
Context (same_hash : ∀ d d', @mh_digest BS1 BLAKE2B_256 d = @mh_digest BS2 BLAKE2B_256 d' → d = d').
Context (bw : Z) (Hbw : 1 ≤ bw ≤ 63) (s1 : @Store BS1) (s2 : @Store BS2) (m1 m2 : gmap Z V).
Context (K1 : keys_ok m1) (K2 : keys_ok m2).
#[local] Abbreviation P := (P bw).
#[local] Abbreviation rep1 := (@node_rep BS1 V CB bw).
#[local] Abbreviation rep2 := (@node_rep BS2 V CB bw).

(** Equal CIDs stand for equal content. *)
Lemma stored_same h : ∀ base c, @stored_rep BS1 V CB bw h s1 base c m1 → @stored_rep BS2 V CB bw h s2 base c m2 →
  (h = O ∨ has_on m1 base (P (S h))) → (h = O ∨ has_on m2 base (P (S h))) → agree_on m1 m2 base (P (S h)).
Proof using same_hash Hbw CS.
  induction h as [|h IH]; intros base c (n & b & bz & Hu & Hr & Hs & Hz & Hc & _) (n' & b' & bz' & Hu' & Hr' & Hs' & Hz' & Hc' & _) Hn1 Hn2.
  all: assert (bz = bz') as <- by (apply same_hash; rewrite Hc in Hc'; by injection Hc').
  all: assert (b = b') as <- by (destruct (from_to_vec b) as (? & ? & ?), (from_to_vec b') as (? & ? & ?); congruence).
  all: assert (n = n') as <- by (pose proof (expand_serialize bw Hbw _ _ _ _ _ _ Hr Hu Hn1 Hs); pose proof (expand_serialize bw Hbw _ _ _ _ _ _ Hr' Hu' Hn2 Hs'); congruence).
  - destruct Hr as (vals & -> & Hl & Hv), Hr' as (vals' & [= <-] & _ & Hv'). intros k Hk. unfold within in Hk.
    rewrite (P_S bw Hbw), (P_0 bw) in Hk. destruct (lookup_lt_is_Some_2 vals (Z.to_nat (k - base))) as [o Ho]; [lia|].
    pose proof (Hv _ _ Ho) as E1. pose proof (Hv' _ _ Ho) as E2. replace (base + Z.of_nat (Z.to_nat (k - base))) with k in * by lia. congruence.
  - destruct Hr as (links & -> & Hl & Hv), Hr' as (links' & [= <-] & _ & Hv'). intros k Hk.
    destruct (within_find bw Hbw _ _ _ Hk) as (j & Hj & Hkj). destruct (lookup_lt_is_Some_2 links j) as [o Ho]; [lia|].
    pose proof (Hv _ _ Ho) as E1. pose proof (Hv' _ _ Ho) as E2. destruct o as [l|].
    + destruct (Hu l) as [x ->]; [by eapply list_elem_of_lookup_2|]. destruct E1 as (Hh1 & St1 & _), E2 as (Hh2 & St2 & _).
      apply (IH _ x St1 St2); [by right..|done].
    + simpl in E1, E2. by rewrite (E1 k Hkj), (E2 k Hkj).
Qed.

Lemma add_all_ok h base n : 0 ≤ base → rep2 h s2 base n m2 → empty_on m1 base (P (S h)) →
  enough (λ f, add_all (Old := V) s2 bw f h n base) (changes m1 m2 base (P (S h))).
Proof using Hbw CS K2 BSS2.
  intros Hb Hr He. rewrite (changes_adds m1 m2 _ _ He). unfold add_all.
  apply (enough_bind _ (λ _ l, rret ((λ '(k, v), mkChange k None (Some v)) <$> l)) (entries m2 base (P (S h)))); [|apply enough_ret].
  apply collect_yields. apply (iter_new_yields bw Hbw); [intros k Hs; by apply K2|done..].
Qed.
Lemma remove_all_ok h base n : 0 ≤ base → rep1 h s1 base n m1 → empty_on m2 base (P (S h)) →
  enough (λ f, remove_all (New := V) s1 bw f h n base) (changes m1 m2 base (P (S h))).
Proof using Hbw CS K1 BSS1.
  intros Hb Hr He. rewrite (changes_removes m1 m2 _ _ He). unfold remove_all.
  apply (enough_bind _ (λ _ l, rret ((λ '(k, v), mkChange k (Some v) None) <$> l)) (entries m1 base (P (S h)))); [|apply enough_ret].
  apply collect_yields. apply (iter_new_yields bw Hbw); [intros k Hs; by apply K1|done..].
Qed.

(** The offset of a slot that holds something. *)
Lemma slot_offset (m : gmap Z V) h base (j : nat) : keys_ok m → 0 ≤ base → has_on m (base + Z.of_nat j * P h) (P h) →
  base + nodes_for_height bw h * Z.of_nat j = base + Z.of_nat j * P h.
Proof using Hbw.
  intros Hk Hb (k & Hw & Hs). specialize (Hk k Hs). unfold within, MAX_INDEX in *. pose proof (P_pos bw Hbw h).
  destruct (nfh_cases bw Hbw h) as [->|[-> ?]]; [lia|]. assert (j = O) as -> by nia. lia.
Qed.

Lemma leaf_change_ok base j o1 o2 : o1 = m1 !! (base + Z.of_nat j) → o2 = m2 !! (base + Z.of_nat j) →
  leaf_change base j (o1, o2) = rret (changes m1 m2 (base + Z.of_nat j) 1).
Proof using ES.
  intros -> ->. rewrite changes_one. unfold leaf_change, change_at. set (k := base + Z.of_nat j).
  destruct (m1 !! k) as [v|], (m2 !! k) as [w|]; try done.
  - destruct (from_to_vec v) as (a & Ea & Fa), (from_to_vec w) as (b & Eb & Fb). rewrite Ea, Eb.
    case_bool_decide as Hab; case_decide as Hvw; try done; exfalso; [apply Hvw; congruence|apply Hab; congruence].
Qed.

Lemma diff_equal h : ∀ base n1 n2, 0 ≤ base → rep1 h s1 base n1 m1 → rep2 h s2 base n2 m2 →
  enough (λ f, diff_node s1 s2 bw f h n1 h n2 base) (changes m1 m2 base (P (S h))).
Proof using same_hash Hbw CS ES K1 K2 BSS1 BSS2.
  induction h as [|h IH]; intros base n1 n2 Hb H1 H2.
  - destruct H1 as (v1 & -> & Hl1 & Hv1), H2 as (v2 & -> & Hl2 & Hv2).
    eapply (enough_S _ (λ _, append_all (leaf_change base) 0 (zip v1 v2))).
    { intros n. simpl. by rewrite Hl1, Hl2, Nat.eqb_refl. }
    replace (changes m1 m2 base (P 1)) with (changes m1 m2 (base + Z.of_nat 0 * 1) (Z.of_nat (length (zip v1 v2)) * 1)).
    2:{ rewrite length_zip_with, Hl1, Hl2, Nat.min_id, (P_S bw Hbw), (P_0 bw). f_equal; lia. }
    apply (append_changes m1 m2 base 1 (λ _, leaf_change base)); [lia|]. intros j [o1 o2] Hj.
    apply lookup_zip_with_Some in Hj as (x & y & [= <- <-] & Hx & Hy). rewrite Z.mul_1_r. cbn [Nat.add].
    rewrite (leaf_change_ok base j o1 o2 (Hv1 _ _ Hx) (Hv2 _ _ Hy)). apply enough_ret.
  - destruct H1 as (l1 & -> & Hl1 & Hv1), H2 as (l2 & -> & Hl2 & Hv2). eapply enough_S.
    { intros n. cbn [diff_node]. rewrite Nat.ltb_irrefl, Hl1, Hl2, Nat.eqb_refl. cbn [negb]. reflexivity. }
    replace (changes m1 m2 base (P (S (S h)))) with (changes m1 m2 (base + Z.of_nat 0 * P (S h)) (Z.of_nat (length (zip l1 l2)) * P (S h))).
    2:{ rewrite length_zip_with, Hl1, Hl2, Nat.min_id, (P_S bw Hbw (S h)). f_equal; lia. }
    pose proof (P_pos bw Hbw (S h)) as HP.
    refine (append_changes m1 m2 base (P (S h)) _ (zip l1 l2) 0 ltac:(lia) _). intros j [o1 o2] Hj.
    apply lookup_zip_with_Some in Hj as (x & y & [= <- <-] & Hx & Hy). cbn [Nat.add].
    pose proof (Hv1 _ _ Hx) as E1. pose proof (Hv2 _ _ Hy) as E2. set (b := base + Z.of_nat j * P (S h)) in *.
    destruct o1 as [k1|], o2 as [k2|].
    + destruct (get_sub_node_ok bw Hbw h s1 b k1 m1 E1) as (n1 & -> & Hn1), (get_sub_node_ok bw Hbw h s2 b k2 m2 E2) as (n2 & -> & Hn2).
      cbn [rbind rret pred]. rewrite (slot_offset m1) by (try done; apply E1). fold b.
      destruct (match link_cid k1, link_cid k2 with Some _, Some _ => _ | _, _ => _ end) eqn:Ec; [|apply IH; [unfold b; nia|done..]].
      destruct k1 as [c1 ch1|], k2 as [c2 ch2|]; try done. cbn [link_cid] in Ec. apply bool_decide_eq_true in Ec as <-.
      destruct E1 as (Hh1 & St1 & _), E2 as (Hh2 & St2 & _). rewrite changes_same; [apply enough_ret|].
      apply (stored_same h b c1 St1 St2); by right.
    + destruct (get_sub_node_ok bw Hbw h s1 b k1 m1 E1) as (sub & -> & Hsub). cbn [rbind rret pred].
      rewrite (slot_offset m1) by (try done; apply E1). apply remove_all_ok; [unfold b; nia|done|done].
    + destruct (get_sub_node_ok bw Hbw h s2 b k2 m2 E2) as (sub & -> & Hsub). cbn [rbind rret pred].
      rewrite (slot_offset m2) by (try done; apply E2). apply add_all_ok; [unfold b; nia|done|done].
    + rewrite changes_same; [apply enough_ret|]. intros k Hk. simpl in E1, E2. by rewrite (E1 k Hk), (E2 k Hk).
Qed.

(** The first links of a taller AMT that has an entry below the lower one. *)
Lemma diff_taller_new h1 n1 : rep1 h1 s1 0 n1 m1 → fits bw h1 m1 → (∃ k, is_Some (m2 !! k) ∧ k < P (S h1)) →
  ∀ d n2, rep2 (d + h1) s2 0 n2 m2 →
  enough (λ f, diff_node s1 s2 bw f h1 n1 (d + h1) n2 0) (changes m1 m2 0 (P (S (d + h1)))).
Proof using same_hash Hbw CS ES K1 K2 BSS1 BSS2.
  intros H1 Hf (k0 & Hs0 & Hk0). induction d as [|d IH]; intros n2 H2; [by apply diff_equal|].
  change (S d + h1)%nat with (S (d + h1)) in *. pose proof H2 as (links & -> & Hl & Hv).
  pose proof (P_pos bw Hbw (S (d + h1))) as HP. pose proof (P_mono bw Hbw (S h1) (S (d + h1)) ltac:(lia)) as HPm.
  eapply enough_S.
  { intros n. apply diff_node_new. lia. }
  replace (changes m1 m2 0 (P (S (S (d + h1))))) with (changes m1 m2 (0 + Z.of_nat 0 * P (S (d + h1))) (Z.of_nat (length links) * P (S (d + h1)))).
  2:{ rewrite Hl, (P_S bw Hbw (S (d + h1))). f_equal; lia. }
  refine (append_changes m1 m2 0 (P (S (d + h1))) _ links 0 ltac:(lia) _). intros j o Hj. cbn [Nat.add].
  pose proof (Hv _ _ Hj) as E. set (b := 0 + Z.of_nat j * P (S (d + h1))) in *.
  assert (j ≠ O → empty_on m1 b (P (S (d + h1)))) as Hempty.
  { intros Hj0 k Hk. apply eq_None_not_Some. intros Hs. specialize (Hf k Hs). unfold within, b in Hk. nia. }
  destruct o as [l|].
  - destruct (get_sub_node_ok bw Hbw (d + h1) s2 b l m2 E) as (sub & -> & Hsub). cbn [rbind rret pred].
    rewrite (slot_offset m2) by (try done; apply E). fold b. destruct (Nat.eqb_spec j 0) as [->|Hj0].
    + replace b with 0 in * by (unfold b; lia). by apply IH.
    + apply add_all_ok; [unfold b; nia|done|auto].
  - rewrite changes_same; [apply enough_ret|]. destruct (decide (j = O)) as [->|Hj0].
    + exfalso. simpl in E. rewrite E in Hs0; [by destruct Hs0|]. specialize (K2 k0 Hs0). unfold within, b. lia.
    + intros k Hk. simpl in E. by rewrite (E k Hk), (Hempty Hj0 k Hk).
Qed.

Lemma diff_taller_old h2 n2 : rep2 h2 s2 0 n2 m2 → fits bw h2 m2 → (∃ k, is_Some (m1 !! k) ∧ k < P (S h2)) →
  ∀ d n1, rep1 (d + h2) s1 0 n1 m1 →
  enough (λ f, diff_node s1 s2 bw f (d + h2) n1 h2 n2 0) (changes m1 m2 0 (P (S (d + h2)))).
Proof using same_hash Hbw CS ES K1 K2 BSS1 BSS2.
  intros H2 Hf (k0 & Hs0 & Hk0). induction d as [|d IH]; intros n1 H1; [by apply diff_equal|].
  change (S d + h2)%nat with (S (d + h2)) in *. pose proof H1 as (links & -> & Hl & Hv).
  pose proof (P_pos bw Hbw (S (d + h2))) as HP. pose proof (P_mono bw Hbw (S h2) (S (d + h2)) ltac:(lia)) as HPm.
  eapply enough_S.
  { intros n. cbn [diff_node]. rewrite (proj2 (Nat.ltb_ge _ _)), (proj2 (Nat.ltb_lt h2 _)) by lia. reflexivity. }
  replace (changes m1 m2 0 (P (S (S (d + h2))))) with (changes m1 m2 (0 + Z.of_nat 0 * P (S (d + h2))) (Z.of_nat (length links) * P (S (d + h2)))).
  2:{ rewrite Hl, (P_S bw Hbw (S (d + h2))). f_equal; lia. }
  refine (append_changes m1 m2 0 (P (S (d + h2))) _ links 0 ltac:(lia) _). intros j o Hj. cbn [Nat.add].
  pose proof (Hv _ _ Hj) as E. set (b := 0 + Z.of_nat j * P (S (d + h2))) in *.
  assert (j ≠ O → empty_on m2 b (P (S (d + h2)))) as Hempty.
  { intros Hj0 k Hk. apply eq_None_not_Some. intros Hs. specialize (Hf k Hs). unfold within, b in Hk. nia. }
  destruct o as [l|].
  - destruct (get_sub_node_ok bw Hbw (d + h2) s1 b l m1 E) as (sub & -> & Hsub). cbn [rbind rret pred].
    rewrite (slot_offset m1) by (try done; apply E). fold b. destruct (Nat.eqb_spec j 0) as [->|Hj0].
    + replace b with 0 in * by (unfold b; lia). by apply IH.
    + apply remove_all_ok; [unfold b; nia|done|auto].
  - rewrite changes_same; [apply enough_ret|]. destruct (decide (j = O)) as [->|Hj0].
    + exfalso. simpl in E. rewrite E in Hs0; [by destruct Hs0|]. specialize (K1 k0 Hs0). unfold within, b. lia.
    + intros k Hk. simpl in E. by rewrite (E k Hk), (Hempty Hj0 k Hk).
Qed.
End exact.

Section diff_top.
Context {BS1 BS2 : Blockstore} {BSS1 : @BlockstoreSpec BS1} {BSS2 : @BlockstoreSpec BS2}.
Context {V : Type} `{ED : EqDecision V} `{CB : !AmtCodec V} `{CS : !AmtCodecSpec V} `{EV : !Cbor V} `{ES : !CborSpec V}.
Context (same_hash : ∀ d d', @mh_digest BS1 BLAKE2B_256 d = @mh_digest BS2 BLAKE2B_256 d' → d = d').
Context (ver : Version) (bw : Z) (Hbw : 1 ≤ bw ≤ 63).

(** All indices. *)
Definition all_changes (m1 m2 : gmap Z V) : list (Change V V) := changes m1 m2 0 (MAX_INDEX + 1).

Lemma all_changes_fits h (m1 m2 : gmap Z V) : keys_ok m1 → keys_ok m2 → fits bw h m1 → fits bw h m2 →
  changes m1 m2 0 (P bw (S h)) = all_changes m1 m2.
Proof using Hbw.
  intros K1 K2 F1 F2. pose proof (P_pos bw Hbw (S h)) as HP. unfold all_changes.
  assert (∀ a b, 0 ≤ a → 0 ≤ b → (∀ k, is_Some (m1 !! k) ∨ is_Some (m2 !! k) → k < a) → changes m1 m2 0 (a + b) = changes m1 m2 0 a) as Hcut.
  { intros a b Ha Hb Hk. rewrite changes_app by done. rewrite (changes_same m1 m2 (0 + a) b), app_nil_r; [done|].
    intros k Hw. unfold within in Hw. destruct (m1 !! k) eqn:E1; [specialize (Hk k ltac:(rewrite E1; eauto)); lia|].
    destruct (m2 !! k) eqn:E2; [specialize (Hk k ltac:(rewrite E2; eauto)); lia|done]. }
  destruct (Z.le_gt_cases (P bw (S h)) (MAX_INDEX + 1)).
  - rewrite <-(Hcut (P bw (S h)) (MAX_INDEX + 1 - P bw (S h))); [f_equal; lia|lia|lia|]. intros k [Hs|Hs]; [by apply F1|by apply F2].
  - rewrite <-(Hcut (MAX_INDEX + 1) (P bw (S h) - (MAX_INDEX + 1))); [f_equal; lia|unfold MAX_INDEX, u64_max; lia|lia|].
    intros k [Hs|Hs]; [specialize (K1 k Hs)|specialize (K2 k Hs)]; lia.
Qed.

(** When the heights differ, what the taller AMT needs for an exact difference: an entry in the
    range of the lower one, or the other to be empty. *)
Definition comparable (h1 h2 : nat) (m1 m2 : gmap Z V) : Prop :=
  h1 = h2 ∨ m1 = ∅ ∨ m2 = ∅ ∨
  ((h1 < h2)%nat ∧ ∃ k, is_Some (m2 !! k) ∧ k < P bw (S h1)) ∨
  ((h2 < h1)%nat ∧ ∃ k, is_Some (m1 !! k) ∧ k < P bw (S h2)).

(** C28: the difference of two AMTs is exact. For two AMTs of the same bit width, in stores that
    hash alike, and whether their nodes are loaded or not, [diff] ends and returns, by index, exactly one
    change for every index whose values differ, with both values; equal subtrees
    are skipped by their CIDs. When one AMT is taller it has to have an entry in
    the range of the other, unless one of them is empty. *)
Theorem amt_diff_exact (s1 : @Store BS1) t1 m1 (s2 : @Store BS2) t2 m2 (H1 : amt_rep ver bw s1 t1 m1) (H2 : amt_rep ver bw s2 t2 m2)
    (Hc : comparable (height (root t1)) (height (root t2)) m1 m2) :
  (∃ N, ∀ fuel, (N ≤ fuel)%nat → diff fuel s1 t1 s2 t2 = Some (Ok (all_changes m1 m2))) ∧
  ∀ k o1 o2, mkChange k o1 o2 ∈ all_changes m1 m2 ↔ m1 !! k = o1 ∧ m2 !! k = o2 ∧ o1 ≠ o2.
Proof using same_hash Hbw CS ES BSS1 BSS2.
  destruct H1 as [(E1 & K1 & F1 & M1 & C1 & R1) _], H2 as [(E2 & K2 & F2 & M2 & C2 & R2) _]. split.
  2:{ intros k o1 o2. unfold all_changes. rewrite elem_of_changes. split; [by intros (_ & ? & ? & ?)|].
      intros (? & ? & ?). split_and!; try done. assert (is_Some (m1 !! k) ∨ is_Some (m2 !! k)) as [Hs|Hs].
      { destruct (m1 !! k), (m2 !! k); try (by eauto). congruence. }
      + specialize (K1 k Hs). unfold within. lia.
      + specialize (K2 k Hs). unfold within. lia. }
  assert (∀ m : gmap Z V, (Z.of_nat (size m) =? 0) = bool_decide (m = ∅)) as Hsz.
  { intros m. case_bool_decide as Hm; [by subst|]. apply Z.eqb_neq. intros H0. apply Hm, map_size_empty_inv. lia. }
  pose proof (P_mono bw Hbw) as HPm.
  unfold diff. rewrite E1, E2, Z.eqb_refl, C1, C2, !Hsz. cbn [negb]. repeat case_bool_decide; cbn [andb negb].
  - subst. rewrite <-(all_changes_fits (height (root t1))) by done. destruct M1 as [Z1|(k & [? ?] & _)]; [|by simplify_map_eq].
    destruct M2 as [Z2|(k & [? ?] & _)]; [|by simplify_map_eq]. rewrite Z1, Z2 in *. by apply (diff_equal same_hash bw Hbw s1 s2 ∅ ∅ K1 K2).
  - subst. rewrite <-(all_changes_fits (height (root t2))); [|done..| |done]; [|intros k [? ?]; by simplify_map_eq].
    apply (add_all_ok bw Hbw s2 ∅ m2 K2); [lia|done|]. intros k _. apply lookup_empty.
  - subst. rewrite <-(all_changes_fits (height (root t1))); [|done..|]; [|intros k [? ?]; by simplify_map_eq].
    apply (remove_all_ok bw Hbw s1 m1 ∅ K1); [lia|done|]. intros k _. apply lookup_empty.
  - destruct Hc as [Eh|[?|[?|[[Hlt Hk]|[Hlt Hk]]]]]; [|done..| |].
    + rewrite <-Eh in *. rewrite <-(all_changes_fits (height (root t1))) by done. by apply (diff_equal same_hash bw Hbw s1 s2 m1 m2 K1 K2).
    + assert (∃ d, height (root t2) = (d + height (root t1))%nat) as [d Ed] by (exists (height (root t2) - height (root t1))%nat; lia).
      rewrite <-(all_changes_fits (height (root t2))); [|done..| |done].
      * rewrite Ed in *. by apply (diff_taller_new same_hash bw Hbw s1 s2 m1 m2 K1 K2).
      * intros k Hs. specialize (F1 k Hs). specialize (HPm (S (height (root t1))) (S (height (root t2))) ltac:(lia)). lia.
    + assert (∃ d, height (root t1) = (d + height (root t2))%nat) as [d Ed] by (exists (height (root t1) - height (root t2))%nat; lia).
      rewrite <-(all_changes_fits (height (root t1))); [|done..|].
      * rewrite Ed in *. by apply (diff_taller_old same_hash bw Hbw s1 s2 m1 m2 K1 K2).
      * intros k Hs. specialize (F2 k Hs). specialize (HPm (S (height (root t2))) (S (height (root t1))) ltac:(lia)). lia.
Qed.
End diff_top.
