(* ===== verification/HamtBits.v ===== *)
(** * The HAMT's bit strings (ipld/hamt/src/hash_bits.rs, ipld/hamt/src/bitfield.rs)

    [HashBits] cuts the hash of a key into the indexes of the path from the root
    to the key; [Bitfield] records which of a node's 256 slots are filled. *)

From S2P Require Import Prelude Effects.
From stdpp Require Import gmap strings list fin_maps.
From Stdlib Require Import ZArith Lia.
#[local] Open Scope Z_scope.

(** [Error] (ipld/hamt/src/error.rs); the texts of other errors are kept. *)
Inductive HamtError :=
  | MaxDepth
  | InvalidHashBitLen
  | ZeroPointers
  | CidNotFound
  | StartKeyNotFound
  | Dynamic (msg : string).

(** ** HashBits *)

Record HashBits := mkHashBits { hb_b : list Z; hb_consumed : Z }.

Definition mkmask (n : Z) : Z := (Z.shiftl 1 n - 1) `mod` 256.

(** The bitwise complement of a [u8]. *)
Definition not8 (x : Z) : Z := 255 - x.

(** At most eight bits reach into at most one more byte, so two steps are
    enough. Indexing past the end is a panic in the source; [next] excludes it. *)
Fixpoint next_bits (steps : nat) (i : Z) (hb : HashBits) : Z * HashBits :=
  let consumed := hb_consumed hb in
  let leftb := 8 - consumed `mod` 8 in
  let curb := nth (Z.to_nat (consumed / 8)) (hb_b hb) 0 in
  match i ?= leftb, steps with
  | Eq, _ => (Z.land (mkmask i) curb, mkHashBits (hb_b hb) (consumed + i))
  | Lt, _ =>
      let a := Z.land curb (mkmask leftb) in
      let b := Z.land a (not8 (mkmask (leftb - i))) in
      (Z.shiftr b (leftb - i), mkHashBits (hb_b hb) (consumed + i))
  | Gt, S steps =>
      let out := Z.shiftl (Z.land (mkmask leftb) curb) (i - leftb) `mod` 256 in
      let '(low, hb') := next_bits steps (i - leftb) (mkHashBits (hb_b hb) (consumed + leftb)) in
      ((out + low) `mod` 256, hb')
  | Gt, O => (0, hb)
  end.

Definition hb_next (i : Z) (hb : HashBits) : result HamtError (Z * HashBits) :=
  if (8 <? i) || (i =? 0) then Err InvalidHashBitLen else
  let maxi := Z.of_nat (length (hb_b hb)) * 8 - hb_consumed hb in
  if maxi =? 0 then Err MaxDepth
  else Ok (next_bits 1 (Z.min i maxi) hb).

(** The bits of a byte string, read as one big-endian number. *)
Fixpoint be_value (bz : list Z) : Z :=
  match bz with
  | [] => 0
  | b :: bz => b * 256 ^ Z.of_nat (length bz) + be_value bz
  end.


Lemma be_value_bound bz : Forall is_byte bz → 0 ≤ be_value bz < 256 ^ Z.of_nat (length bz).
Proof.
  induction 1 as [|b bz Hb _ IH]; [simpl; lia|]. cbn [be_value length].
  rewrite Nat2Z.inj_succ, Z.pow_succ_r by lia. unfold is_byte in Hb. nia.
Qed.

Lemma be_value_inj bz bz' :
  Forall is_byte bz → Forall is_byte bz' → length bz = length bz' → be_value bz = be_value bz' → bz = bz'.
Proof.
  intros Hb. revert bz'. induction Hb as [|b bz Hb Hbz IH]; intros [|b' bz'] Hb' Hl Hv; try done.
  apply Forall_cons in Hb' as [Hb' Hbz']. cbn [be_value length] in *. injection Hl as Hl. rewrite <-Hl in Hv.
  pose proof (be_value_bound bz Hbz). pose proof (be_value_bound bz' Hbz') as Hq. rewrite <-Hl in Hq.
  assert (b = b') as -> by (unfold is_byte in *; nia). f_equal. apply IH; [done..|lia].
Qed.

Lemma be_value_byte bz j :
  Forall is_byte bz → (j < length bz)%nat →
  nth j bz 0 = (be_value bz / 256 ^ (Z.of_nat (length bz) - 1 - Z.of_nat j)) mod 256.
Proof.
  intros Hb. revert j. induction Hb as [|b bz Hb Hbz IH]; intros j Hj; [simpl in Hj; lia|].
  pose proof (be_value_bound bz Hbz) as Hbd. cbn [be_value length] in *. destruct j as [|j]; cbn [nth].
  - replace (Z.of_nat (S (length bz)) - 1 - Z.of_nat 0) with (Z.of_nat (length bz)) by lia.
    rewrite Z.div_add_l by lia. rewrite (Z.div_small (be_value bz)) by done.
    rewrite Z.add_0_r. symmetry. by apply Z.mod_small.
  - rewrite IH by lia.
    replace (Z.of_nat (S (length bz)) - 1 - Z.of_nat (S j)) with (Z.of_nat (length bz) - 1 - Z.of_nat j) by lia.
    set (e := Z.of_nat (length bz) - 1 - Z.of_nat j).
    replace (Z.of_nat (length bz)) with (e + 1 + Z.of_nat j) by lia.
    rewrite !Z.pow_add_r by lia. rewrite Z.pow_1_r.
    replace (b * (256 ^ e * 256 * 256 ^ Z.of_nat j) + be_value bz)
      with (b * 256 ^ Z.of_nat j * 256 * 256 ^ e + be_value bz) by ring.
    rewrite Z.div_add_l by (apply Z.pow_nonzero; lia).
    rewrite Z.add_comm, Z.mod_add by lia. done.
Qed.

(** What the masks and shifts compute, for every byte and position. *)
Lemma byte_bits_equal b n : is_byte b → 1 ≤ n ≤ 8 → Z.land (mkmask n) b = b mod 2 ^ n.
Proof.
  intros _ Hn. unfold mkmask. rewrite Z.shiftl_1_l.
  replace (2 ^ n - 1) with (Z.ones n) by (rewrite Z.ones_equiv; lia).
  assert (Z.ones n mod 256 = Z.ones n) as ->.
  { apply Z.mod_small. rewrite Z.ones_equiv. pose proof (Z.pow_le_mono_r 2 n 8). lia. }
  rewrite Z.land_comm. apply Z.land_ones. lia.
Qed.

Lemma forallb_seqZ f a n : forallb f (seqZ a n) = true → ∀ x, a ≤ x < a + n → f x = true.
Proof.
  rewrite forallb_forall. intros Hf x Hx. apply Hf. apply list_elem_of_In, elem_of_seqZ. lia.
Qed.

Lemma byte_bits_less b leftb i : is_byte b → 1 ≤ i < leftb → leftb ≤ 8 →
  Z.shiftr (Z.land (Z.land b (mkmask leftb)) (not8 (mkmask (leftb - i)))) (leftb - i)
  = (b / 2 ^ (leftb - i)) mod 2 ^ i.
Proof.
  intros Hb Hi Hl.
  assert (forallb (λ b, forallb (λ l, forallb (λ i, (l <=? i) ||
      (Z.shiftr (Z.land (Z.land b (mkmask l)) (not8 (mkmask (l - i)))) (l - i) =? (b / 2 ^ (l - i)) mod 2 ^ i))
    (seqZ 1 8)) (seqZ 1 8)) (seqZ 0 256) = true) as Hall by (vm_compute; reflexivity).
  pose proof (forallb_seqZ _ _ _ Hall b ltac:(unfold is_byte in Hb; lia)) as H1.
  pose proof (forallb_seqZ _ _ _ H1 leftb ltac:(lia)) as H2.
  pose proof (forallb_seqZ _ _ _ H2 i ltac:(lia)) as H3. cbv beta in H3. lia.
Qed.

Lemma mod_div_mod q r i : 0 ≤ r → 0 ≤ i → r + i ≤ 8 → ((q mod 256) / 2 ^ r) mod 2 ^ i = (q / 2 ^ r) mod 2 ^ i.
Proof.
  intros Hr Hi Hri. change 256 with (2 ^ 8). rewrite <-!Z.shiftr_div_pow2, <-!Z.land_ones by lia.
  apply Z.bits_inj'. intros n Hn. rewrite !Z.land_spec, !Z.shiftr_spec, Z.land_spec by lia.
  destruct (decide (n < i)); [|rewrite !(Z.ones_spec_high i n) by lia; by rewrite !andb_false_r].
  rewrite !(Z.ones_spec_low i n), Z.ones_spec_low by lia. by rewrite !andb_true_r.
Qed.

Section next_bits.
Context (bz : list Z) (Hbz : Forall is_byte bz).
Let N := Z.of_nat (length bz) * 8.

(** [i] bits of the string, from bit [c] on, the most significant first. *)
Definition bit_group (c i : Z) : Z := (be_value bz / 2 ^ (N - c - i)) mod 2 ^ i.

(** The bits taken from one byte. *)
Lemma bit_group_byte c i :
  0 ≤ c → 1 ≤ i → c + i ≤ N → i ≤ 8 - c mod 8 →
  bit_group c i = (nth (Z.to_nat (c / 8)) bz 0 / 2 ^ (8 - c mod 8 - i)) mod 2 ^ i ∧
  is_byte (nth (Z.to_nat (c / 8)) bz 0).
Proof.
  intros Hc Hi HN Hleft. pose proof (Z.div_mod c 8 ltac:(lia)) as Hdm. pose proof (Z.mod_pos_bound c 8 ltac:(lia)).
  assert (0 ≤ c / 8) by (apply Z.div_pos; lia).
  rewrite be_value_byte; [|done|unfold N in HN; lia]. rewrite Z2Nat.id by done.
  split; [|unfold is_byte; apply Z.mod_pos_bound; lia].
  rewrite mod_div_mod by lia. unfold bit_group. f_equal.
  set (e := Z.of_nat (length bz) - 1 - c / 8). change 256 with (2 ^ 8). rewrite <-Z.pow_mul_r by (unfold N in HN; lia).
  rewrite Z.div_div by (try apply Z.pow_nonzero; try apply Z.pow_pos_nonneg; unfold N in HN; lia).
  rewrite <-Z.pow_add_r by (unfold N in HN; lia). f_equal. f_equal. unfold N, e. lia.
Qed.

Lemma next_bits_byte s c i :
  0 ≤ c → 1 ≤ i → c + i ≤ N → i ≤ 8 - c mod 8 →
  next_bits s i (mkHashBits bz c) = (bit_group c i, mkHashBits bz (c + i)).
Proof.
  intros Hc Hi HN Hleft. destruct (bit_group_byte c i Hc Hi HN Hleft) as [-> Hb].
  pose proof (Z.mod_pos_bound c 8 ltac:(lia)). destruct s; simpl next_bits; cbn [hb_consumed hb_b].
  all: destruct (Z.compare_spec i (8 - c mod 8)) as [He|Hlt|]; [| |lia]; f_equal.
  1,3: rewrite He at 2; rewrite Z.sub_diag, Z.div_1_r; apply byte_bits_equal; [done|lia].
  all: apply byte_bits_less; [done|lia..].
Qed.

Lemma next_bits_spec c i :
  0 ≤ c → 1 ≤ i ≤ 8 → c + i ≤ N →
  next_bits 1 i (mkHashBits bz c) = (bit_group c i, mkHashBits bz (c + i)).
Proof.
  intros Hc Hi HN. destruct (Z.leb_spec i (8 - c mod 8)); [apply next_bits_byte; lia|].
  pose proof (Z.mod_pos_bound c 8 ltac:(lia)) as Hm. set (l := 8 - c mod 8) in *.
  assert ((c + l) mod 8 = 0) as Hz.
  { unfold l. replace (c + (8 - c mod 8)) with ((c - c mod 8) + 1 * 8) by ring.
    rewrite Z.mod_add by lia. rewrite Zminus_mod_idemp_r, Z.sub_diag. done. }
  change (next_bits 1 i (mkHashBits bz c)) with
    (match i ?= l with
     | Eq => (Z.land (mkmask i) (nth (Z.to_nat (c / 8)) bz 0), mkHashBits bz (c + i))
     | Lt => (Z.shiftr (Z.land (Z.land (nth (Z.to_nat (c / 8)) bz 0) (mkmask l)) (not8 (mkmask (l - i)))) (l - i),
              mkHashBits bz (c + i))
     | Gt => let out := Z.shiftl (Z.land (mkmask l) (nth (Z.to_nat (c / 8)) bz 0)) (i - l) `mod` 256 in
         let '(low, hb') := next_bits 0 (i - l) (mkHashBits bz (c + l)) in ((out + low) `mod` 256, hb')
     end).
  destruct (Z.compare_spec i l); [lia..|].
  rewrite next_bits_byte by lia. cbv zeta. f_equal; [|f_equal; lia].
  destruct (bit_group_byte c l ltac:(lia) ltac:(lia) ltac:(lia) ltac:(lia)) as [Hg Hb].
  fold l in Hg. rewrite Z.sub_diag, Z.div_1_r in Hg. rewrite byte_bits_equal, <-Hg by (done || lia).
  rewrite Z.shiftl_mul_pow2 by lia. unfold bit_group.
  set (X := be_value bz / 2 ^ (N - c - i)).
  replace (N - (c + l) - (i - l)) with (N - c - i) by lia. fold X.
  replace (be_value bz / 2 ^ (N - c - l)) with (X / 2 ^ (i - l)).
  2:{ unfold X. rewrite Z.div_div by (try apply Z.pow_nonzero; try apply Z.pow_pos_nonneg; lia).
      rewrite <-Z.pow_add_r by lia. f_equal. f_equal. lia. }
  assert (X mod 2 ^ i = X mod 2 ^ (i - l) + 2 ^ (i - l) * ((X / 2 ^ (i - l)) mod 2 ^ l)) as ->.
  { replace (2 ^ i) with (2 ^ (i - l) * 2 ^ l) by (rewrite <-Z.pow_add_r by lia; f_equal; lia).
    apply Z.rem_mul_r; [apply Z.pow_nonzero; lia|apply Z.pow_pos_nonneg; lia]. }
  pose proof (Z.mod_pos_bound X (2 ^ (i - l)) ltac:(apply Z.pow_pos_nonneg; lia)).
  pose proof (Z.mod_pos_bound (X / 2 ^ (i - l)) (2 ^ l) ltac:(apply Z.pow_pos_nonneg; lia)).
  assert (2 ^ (i - l) * 2 ^ l ≤ 256).
  { rewrite <-Z.pow_add_r by lia. change 256 with (2 ^ 8). apply Z.pow_le_mono_r; lia. }
  rewrite (Z.mod_small (_ * _)) by nia. rewrite Z.mod_small by nia. ring.
Qed.
End next_bits.

(** ** Paths

    With [w] bits per level and 32-byte hashes, every key has the same number
    of levels; the last one may use fewer bits. *)

Section paths.
Context (w : Z) (Hw : 1 ≤ w ≤ 8).

Definition consumed_at (d : nat) : Z := Z.min 256 (Z.of_nat d * w).
Definition levels : nat := Z.to_nat ((256 + w - 1) / w).
Definition idx_at (h : list Z) (d : nat) : Z :=
  bit_group h (consumed_at d) (consumed_at (S d) - consumed_at d).

Definition hash_ok (h : list Z) : Prop := length h = 32%nat ∧ Forall is_byte h.

Lemma levels_bounds : (1 ≤ levels ≤ 256)%nat ∧ 256 ≤ Z.of_nat levels * w < 256 + w.
Proof.
  unfold levels. pose proof (Z.div_mod (256 + w - 1) w ltac:(lia)).
  pose proof (Z.mod_pos_bound (256 + w - 1) w ltac:(lia)).
  assert (0 ≤ (256 + w - 1) / w) by (apply Z.div_pos; lia). rewrite Z2Nat.id by done. nia.
Qed.

Lemma consumed_before d : (d < levels)%nat → 0 ≤ consumed_at d < 256 ∧ 1 ≤ consumed_at (S d) - consumed_at d ≤ 8 ∧
  consumed_at (S d) - consumed_at d = Z.min w (256 - consumed_at d).
Proof. pose proof levels_bounds. unfold consumed_at. rewrite Nat2Z.inj_succ. intros. split_and!; nia. Qed.
Lemma consumed_end d : (levels ≤ d)%nat → consumed_at d = 256.
Proof. pose proof levels_bounds. unfold consumed_at. intros. nia. Qed.

Lemma hb_next_at h d : hash_ok h → (d < levels)%nat →
  hb_next w (mkHashBits h (consumed_at d)) = Ok (idx_at h d, mkHashBits h (consumed_at (S d))).
Proof.
  intros [Hl Hb] Hd. destruct (consumed_before d Hd) as (? & ? & Hmin).
  unfold hb_next. cbn [hb_b hb_consumed]. rewrite Hl. change (Z.of_nat 32 * 8) with 256.
  destruct (Z.ltb_spec 8 w), (Z.eqb_spec w 0), (Z.eqb_spec (256 - consumed_at d) 0); try lia. simpl orb. cbv iota.
  rewrite <-Hmin, next_bits_spec by (rewrite ?Hl; done || lia). do 3 f_equal. lia.
Qed.
Lemma hb_next_end h d : hash_ok h → (levels ≤ d)%nat → hb_next w (mkHashBits h (consumed_at d)) = Err MaxDepth.
Proof.
  intros [Hl _] Hd. rewrite consumed_end by done. unfold hb_next. cbn [hb_b hb_consumed]. rewrite Hl.
  by destruct (Z.ltb_spec 8 w), (Z.eqb_spec w 0); try lia.
Qed.

Lemma idx_at_range h d : (d < levels)%nat → 0 ≤ idx_at h d < 2 ^ w.
Proof.
  intros Hd. destruct (consumed_before d Hd) as (? & ? & Hmin). unfold idx_at, bit_group.
  pose proof (Z.mod_pos_bound (be_value h / 2 ^ (Z.of_nat (length h) * 8 - consumed_at d - (consumed_at (S d) - consumed_at d)))
    (2 ^ (consumed_at (S d) - consumed_at d)) ltac:(apply Z.pow_pos_nonneg; lia)).
  pose proof (Z.pow_le_mono_r 2 (consumed_at (S d) - consumed_at d) w). lia.
Qed.

(** Keys that take the same path have the same hash. *)
Lemma idx_at_inj h h' : hash_ok h → hash_ok h' →
  (∀ d, (d < levels)%nat → idx_at h d = idx_at h' d) → h = h'.
Proof.
  intros [Hl Hb] [Hl' Hb'] Hi. apply be_value_inj; [done..|congruence|].
  assert (∀ d, (d ≤ levels)%nat → be_value h / 2 ^ (256 - consumed_at d) = be_value h' / 2 ^ (256 - consumed_at d)) as Hp.
  2:{ specialize (Hp levels (le_n _)). rewrite (consumed_end levels) in Hp by done.
      by rewrite !Z.div_1_r in Hp. }
  induction d as [|d IH]; intros Hd.
  - pose proof (be_value_bound h Hb) as H1. pose proof (be_value_bound h' Hb') as H2.
    rewrite Hl in H1. rewrite Hl' in H2. change (256 ^ Z.of_nat 32) with (2 ^ 256) in *.
    unfold consumed_at. simpl Z.of_nat. rewrite Z.mul_0_l, Z.min_r, Z.sub_0_r by lia.
    by rewrite !Z.div_small.
  - destruct (consumed_before d ltac:(lia)) as (? & Hs & _). specialize (Hi d ltac:(lia)).
    specialize (IH ltac:(lia)). assert (consumed_at (S d) ≤ 256) by (unfold consumed_at; lia).
    assert (∀ x, 0 ≤ x → x / 2 ^ (256 - consumed_at (S d))
      = (x / 2 ^ (256 - consumed_at d)) * 2 ^ (consumed_at (S d) - consumed_at d)
        + (x / 2 ^ (256 - consumed_at (S d))) mod 2 ^ (consumed_at (S d) - consumed_at d)) as Hstep.
    { intros x Hx. pose proof (Z.div_mod (x / 2 ^ (256 - consumed_at (S d)))
        (2 ^ (consumed_at (S d) - consumed_at d)) ltac:(apply Z.pow_nonzero; lia)) as Hdm.
      rewrite Z.div_div in Hdm by (try apply Z.pow_nonzero; try apply Z.pow_pos_nonneg; lia).
      rewrite <-Z.pow_add_r in Hdm by lia.
      replace (256 - consumed_at (S d) + (consumed_at (S d) - consumed_at d)) with (256 - consumed_at d) in Hdm by lia.
      lia. }
    rewrite (Hstep (be_value h)), (Hstep (be_value h')) by (by apply be_value_bound). rewrite IH. f_equal.
    unfold idx_at, bit_group in Hi. rewrite Hl, Hl' in Hi. change (Z.of_nat 32 * 8) with 256 in Hi.
    by replace (256 - consumed_at d - (consumed_at (S d) - consumed_at d)) with (256 - consumed_at (S d)) in Hi by lia.
Qed.
End paths.

(** ** Bitfield: four [u64] words, the least significant first *)

Abbreviation Bitfield := (list Z) (only parsing).

Definition bf_zero : Bitfield := [0; 0; 0; 0].
Definition bf_word (b : Bitfield) (ai : Z) : Z := nth (Z.to_nat ai) b 0.

Definition clear_bit (idx : Z) (b : Bitfield) : Bitfield :=
  alter (λ v, Z.land v (u64_max - Z.shiftl 1 (idx mod 64))) (Z.to_nat (idx / 64)) b.
Definition test_bit (idx : Z) (b : Bitfield) : bool :=
  negb (Z.land (bf_word b (idx / 64)) (Z.shiftl 1 (idx mod 64)) =? 0).
Definition set_bit (idx : Z) (b : Bitfield) : Bitfield :=
  alter (λ v, Z.lor v (Z.shiftl 1 (idx mod 64))) (Z.to_nat (idx / 64)) b.

(** How many of the positions in a list have a property. *)
Fixpoint count (p : Z → bool) (l : list Z) : nat :=
  match l with [] => O | i :: l => ((if p i then 1 else 0) + count p l)%nat end.

(** [u64::count_ones]. *)
Definition popcount (v : Z) : nat := count (Z.testbit v) (seqZ 0 64).
Definition count_ones (b : Bitfield) : nat := sum_list (popcount <$> b).

Definition bf_and (a b : Bitfield) : Bitfield := zip_with Z.land a b.

(** [(v as u128 | ((1u128 << (1 + bit)) - 1)) as u64]. *)
Definition set_bits_leq64 (v bit : Z) : Z := wrap64 (Z.lor v (Z.shiftl 1 (1 + bit) - 1)).
Definition set_bits_leq (bit : Z) (b : Bitfield) : Bitfield :=
  match b with
  | [b0; b1; b2; b3] =>
      if bit <? 64 then [set_bits_leq64 b0 bit; b1; b2; b3]
      else if bit <? 128 then [u64_max; set_bits_leq64 b1 (bit - 64); b2; b3]
      else if bit <? 192 then [u64_max; u64_max; set_bits_leq64 b2 (bit - 128); b3]
      else [u64_max; u64_max; u64_max; set_bits_leq64 b3 (bit - 192)]
  | _ => b
  end.
Definition set_bits_le (bit : Z) (b : Bitfield) : Bitfield :=
  if bit =? 0 then b else set_bits_leq (bit - 1) b.

(** The bits as a function. *)
Definition bit (b : Bitfield) (i : Z) : bool := Z.testbit (bf_word b (i / 64)) (i mod 64).
Definition bf_ok (b : Bitfield) : Prop := length b = 4%nat.

Lemma bf_zero_ok : bf_ok bf_zero.
Proof. done. Qed.
Lemma set_bit_ok i b : bf_ok b → bf_ok (set_bit i b).
Proof. unfold bf_ok, set_bit. by rewrite length_alter. Qed.
Lemma clear_bit_ok i b : bf_ok b → bf_ok (clear_bit i b).
Proof. unfold bf_ok, clear_bit. by rewrite length_alter. Qed.

Lemma bit_zero i : bit bf_zero i = false.
Proof.
  unfold bit, bf_word, bf_zero.
  destruct (Z.to_nat (i / 64)) as [|[|[|[|[]]]]]; apply Z.testbit_0_l.
Qed.

Lemma land_bit v n : 0 ≤ n → negb (Z.land v (Z.shiftl 1 n) =? 0) = Z.testbit v n.
Proof.
  intros Hn. destruct (Z.testbit v n) eqn:Ht.
  - apply negb_true_iff, Z.eqb_neq. intros H0.
    assert (Z.testbit (Z.land v (Z.shiftl 1 n)) n = false) as Hf by (rewrite H0; apply Z.testbit_0_l).
    rewrite Z.land_spec, Ht, Z.shiftl_spec, Z.sub_diag in Hf by done. done.
  - apply negb_false_iff, Z.eqb_eq. apply Z.bits_inj'. intros m Hm. rewrite Z.land_spec, Z.shiftl_spec, Z.testbit_0_l by done.
    destruct (decide (m = n)) as [->|]; [by rewrite Ht|].
    replace (Z.testbit 1 (m - n)) with false; [apply andb_false_r|]. symmetry.
    destruct (decide (m < n)); [apply Z.testbit_neg_r; lia|]. change 1 with (2 ^ 0). apply Z.pow2_bits_false. lia.
Qed.

Lemma test_bit_spec i b : test_bit i b = bit b i.
Proof. unfold test_bit, bit. apply land_bit. apply Z.mod_pos_bound. lia. Qed.

Lemma testbit_shiftl1 n m : 0 ≤ n → 0 ≤ m → Z.testbit (Z.shiftl 1 n) m = bool_decide (m = n).
Proof.
  intros Hn Hm. rewrite Z.shiftl_1_l. case_bool_decide as He; [subst; by apply Z.pow2_bits_true|].
  apply Z.pow2_bits_false. lia.
Qed.

(** Altering one word, seen through the bits. *)
Lemma bit_alter f i b j : bf_ok b → 0 ≤ i < 256 → 0 ≤ j < 256 →
  bit (alter f (Z.to_nat (i / 64)) b) j =
    if decide (j / 64 = i / 64) then Z.testbit (f (bf_word b (i / 64))) (j mod 64) else bit b j.
Proof.
  intros Hb Hi Hj. unfold bit, bf_word.
  assert (0 ≤ i / 64 < 4 ∧ 0 ≤ j / 64 < 4) as [Hi4 Hj4].
  { split; (split; [apply Z.div_pos; lia|apply Z.div_lt_upper_bound; lia]). }
  rewrite !nth_lookup. case_decide as Hd.
  - rewrite Hd, list_lookup_alter_eq. destruct (b !! Z.to_nat (i / 64)) as [v|] eqn:Hv; [done|].
    apply lookup_ge_None in Hv. unfold bf_ok in Hb. lia.
  - rewrite list_lookup_alter_ne; [done|]. intros He. apply Hd. lia.
Qed.

Lemma div_mod_64 i j : j / 64 = i / 64 → j mod 64 = i mod 64 → j = i.
Proof. intros. pose proof (Z.div_mod i 64). pose proof (Z.div_mod j 64). lia. Qed.

Lemma bit_set i b j : bf_ok b → 0 ≤ i < 256 → 0 ≤ j < 256 →
  bit (set_bit i b) j = bool_decide (j = i) || bit b j.
Proof.
  intros Hb Hi Hj. unfold set_bit. rewrite bit_alter by done.
  pose proof (Z.mod_pos_bound i 64). pose proof (Z.mod_pos_bound j 64). case_decide as Hd.
  - rewrite Z.lor_spec, testbit_shiftl1 by lia. unfold bit. rewrite Hd, orb_comm. f_equal.
    apply bool_decide_ext. split; [by apply div_mod_64|congruence].
  - rewrite bool_decide_false; [done|]. congruence.
Qed.

Lemma bit_clear i b j : bf_ok b → 0 ≤ i < 256 → 0 ≤ j < 256 →
  bit (clear_bit i b) j = negb (bool_decide (j = i)) && bit b j.
Proof.
  intros Hb Hi Hj. unfold clear_bit. rewrite bit_alter by done.
  pose proof (Z.mod_pos_bound i 64 ltac:(lia)). pose proof (Z.mod_pos_bound j 64 ltac:(lia)). case_decide as Hd.
  - rewrite Z.land_spec. unfold bit. rewrite Hd, andb_comm. f_equal.
    assert (Z.testbit (u64_max - Z.shiftl 1 (i mod 64)) (j mod 64) = negb (bool_decide (j mod 64 = i mod 64))) as ->.
    { pose proof (forallb_seqZ (λ a, forallb (λ c, eqb (Z.testbit (u64_max - Z.shiftl 1 a) c)
        (negb (c =? a))) (seqZ 0 64)) 0 64 ltac:(vm_compute; reflexivity) (i mod 64) ltac:(lia)) as H1.
      pose proof (forallb_seqZ _ _ _ H1 (j mod 64) ltac:(lia)) as H2. apply eqb_prop in H2. rewrite H2.
      f_equal. by destruct (Z.eqb_spec (j mod 64) (i mod 64)); case_bool_decide. }
    f_equal. apply bool_decide_ext. split; [by apply div_mod_64|congruence].
  - rewrite bool_decide_false; [done|]. congruence.
Qed.

(** *** Counting *)

Lemma count_app p l l' : count p (l ++ l') = (count p l + count p l')%nat.
Proof. induction l; simpl; [done|]. rewrite IHl. lia. Qed.
Lemma count_ext p q l : (∀ i, i ∈ l → p i = q i) → count p l = count q l.
Proof.
  induction l as [|i l IH]; intros Hpq; simpl; [done|].
  rewrite Hpq by set_solver. rewrite IH; [done|]. set_solver.
Qed.
Lemma count_fmap p (f : Z → Z) l : count p (f <$> l) = count (λ i, p (f i)) l.
Proof. induction l; csimpl; [done|]. by rewrite IHl. Qed.
Lemma count_false l : count (λ _, false) l = O.
Proof. by induction l. Qed.

(** One word's share of the bits. *)
Lemma popcount_bits b k : 0 ≤ k → popcount (bf_word b k) = count (bit b) (seqZ (64 * k) 64).
Proof.
  intros Hk. unfold popcount. replace (64 * k) with (64 * k + 0) by lia.
  rewrite <-(fmap_add_seqZ (64 * k) 0 64), count_fmap.
  apply count_ext. intros i Hi%elem_of_seqZ. unfold bit.
  rewrite (Z.add_comm (64 * k)), (Z.mul_comm 64). rewrite Z.div_add, Z.mod_add by lia.
  rewrite Z.div_small, Z.mod_small by lia. done.
Qed.

Lemma count_ones_spec b : bf_ok b → count_ones b = count (bit b) (seqZ 0 256).
Proof.
  intros Hb. destruct b as [|b0 [|b1 [|b2 [|b3 [|]]]]]; try done.
  change 256 with (64 + (64 + (64 + 64))). rewrite !seqZ_app by lia. rewrite !count_app.
  pose proof (popcount_bits [b0; b1; b2; b3] 0 ltac:(lia)) as E0.
  pose proof (popcount_bits [b0; b1; b2; b3] 1 ltac:(lia)) as E1.
  pose proof (popcount_bits [b0; b1; b2; b3] 2 ltac:(lia)) as E2.
  pose proof (popcount_bits [b0; b1; b2; b3] 3 ltac:(lia)) as E3.
  unfold count_ones. cbn [fmap list_fmap sum_list]. unfold bf_word in *.
  change (nth (Z.to_nat 0) _ 0) with b0 in E0. change (nth (Z.to_nat 1) _ 0) with b1 in E1.
  change (nth (Z.to_nat 2) _ 0) with b2 in E2. change (nth (Z.to_nat 3) _ 0) with b3 in E3.
  rewrite E0, E1, E2, E3. by rewrite Nat.add_0_r.
Qed.

Lemma bit_and a b i : bf_ok a → bf_ok b → bit (bf_and a b) i = bit a i && bit b i.
Proof.
  intros Ha Hb. destruct a as [|a0 [|a1 [|a2 [|a3 [|]]]]]; try done.
  destruct b as [|b0 [|b1 [|b2 [|b3 [|]]]]]; try done. unfold bit, bf_word. simpl.
  destruct (Z.to_nat (i / 64)) as [|[|[|[|[]]]]]; rewrite ?Z.land_spec; try done; by rewrite !Z.testbit_0_l.
Qed.

Lemma mask_bits n i : 0 ≤ n < 256 → 0 ≤ i < 256 → bit (set_bits_le n bf_zero) i = (i <? n).
Proof.
  intros Hn Hi.
  pose proof (forallb_seqZ (λ n, forallb (λ i, eqb (bit (set_bits_le n bf_zero) i) (i <? n)) (seqZ 0 256)) 0 256
    ltac:(vm_compute; reflexivity) n ltac:(lia)) as H1.
  pose proof (forallb_seqZ _ _ _ H1 i ltac:(lia)) as H2. by apply eqb_prop in H2.
Qed.
Lemma mask_ok n : bf_ok (set_bits_le n bf_zero).
Proof. unfold set_bits_le, set_bits_leq, bf_zero. by case_tests. Qed.

(** The number of set bits below a position. *)
Definition index_for_bit_pos (bp : Z) (b : Bitfield) : nat :=
  count_ones (bf_and (set_bits_le bp bf_zero) b).

Lemma index_for_bit_pos_spec bp b : bf_ok b → 0 ≤ bp < 256 →
  index_for_bit_pos bp b = count (bit b) (seqZ 0 bp).
Proof.
  intros Hb Hbp. unfold index_for_bit_pos. rewrite count_ones_spec.
  2:{ pose proof (mask_ok bp). unfold bf_ok, bf_and in *. rewrite length_zip_with. lia. }
  replace 256 with (bp + (256 - bp)) by lia. rewrite seqZ_app, count_app by lia.
  rewrite (count_ext _ (bit b) (seqZ 0 bp)), (count_ext _ (λ _, false) (seqZ (0 + bp) _)).
  - rewrite count_false. lia.
  - intros i Hi%elem_of_seqZ. rewrite bit_and, mask_bits by (apply mask_ok || done || lia).
    by destruct (Z.ltb_spec i bp); [lia|].
  - intros i Hi%elem_of_seqZ. rewrite bit_and, mask_bits by (apply mask_ok || done || lia).
    by destruct (Z.ltb_spec i bp); [|lia].
Qed.
