(* ===== verification/HamtCommon.v ===== *)
(** * What the HAMT and the KAMT share

    The KAMT (ipld/kamt) began as a copy of the HAMT (ipld/hamt): both have the
    same configuration, the same bit field per node, the same sorted buckets,
    and cut their keys' paths from 32 bytes. This file holds what does not
    depend on how the pointers look: serialised bit fields, key order and
    buckets, a node's slots as a partial function, which pairs of a map
    belong in which slot, and the finite map both are compared with. *)

From S2P Require Import Prelude Effects Address Types HamtBits.
From stdpp Require Import gmap strings list fin_maps sorting.
From Stdlib Require Import ZArith Lia.
#[local] Open Scope Z_scope.

(** [Config]; depths and widths are small numbers. *)
Record Config := mkConfig { bit_width : Z; min_data_depth : nat; max_array_width : nat }.
Definition DEFAULT_BIT_WIDTH : Z := 8.
Definition Config_default : Config := mkConfig DEFAULT_BIT_WIDTH 0 3.

(** ** Serialised bitfields: big endian, without leading zeros *)

Definition MAX_LEN : nat := 32.
Fixpoint strip_zeros (v : bytes) : bytes :=
  match v with
  | b :: v' => if b =? 0 then strip_zeros v' else v
  | [] => []
  end.
Definition bf_serialize (b : Bitfield) : bytes :=
  strip_zeros (to_be_bytes 8 (bf_word b 3) ++ to_be_bytes 8 (bf_word b 2)
            ++ to_be_bytes 8 (bf_word b 1) ++ to_be_bytes 8 (bf_word b 0)).
Definition bf_deserialize (bz : bytes) : result string Bitfield :=
  if (MAX_LEN <? length bz)%nat then Err "bitfield length exceeds maximum"%string
  else let arr := replicate (MAX_LEN - length bz) 0 ++ bz in
       Ok [be_value (drop 24 arr); be_value (take 8 (drop 16 arr));
           be_value (take 8 (drop 8 arr)); be_value (take 8 arr)].

(** ** Vectors and keys *)

Definition vec_insert {A} (i : nat) (x : A) (l : list A) : list A := take i l ++ x :: drop i l.
Definition vec_remove {A} (i : nat) (l : list A) : list A := take i l ++ drop (S i) l.

(** [Iterator::position]. *)
Fixpoint position {A} (f : A → bool) (l : list A) : option nat :=
  match l with
  | [] => None
  | x :: l => if f x then Some O else S <$> position f l
  end.

(** [Ord for Vec<u8>]: lexicographic. *)
Fixpoint key_lt (a b : bytes) : bool :=
  match a, b with
  | _, [] => false
  | [], _ :: _ => true
  | x :: a, y :: b => (x <? y) || ((x =? y) && key_lt a b)
  end.
Definition key_eqb (a b : bytes) : bool := bool_decide (a = b).

(** [a.key().partial_cmp(b.key())] is not [Greater]. *)
Definition kv_le {V} (a b : bytes * V) : Prop := key_lt b.1 a.1 = false.
#[export] Instance kv_le_dec {V} (a b : bytes * V) : Decision (kv_le a b).
Proof. unfold kv_le. apply _. Defined.

(** Adjacent keys increase: [kvs.windows(2).all(..)]. *)
Fixpoint keys_increase {V} (kvs : list (bytes * V)) : bool :=
  match kvs with
  | a :: ((b :: _) as rest) => key_lt a.1 b.1 && keys_increase rest
  | _ => true
  end.

(** ** The order of keys *)

Lemma key_lt_irrefl a : key_lt a a = false.
Proof. induction a as [|x a IH]; simpl; [done|]. by rewrite Z.ltb_irrefl, Z.eqb_refl, IH. Qed.

Lemma key_lt_trans a b c : key_lt a b = true → key_lt b c = true → key_lt a c = true.
Proof.
  revert b c. induction a as [|x a IH]; intros [|y b] [|z c]; simpl; try done.
  rewrite !orb_true_iff, !andb_true_iff, !Z.ltb_lt, !Z.eqb_eq.
  intros [?|[-> ?]] [?|[-> ?]]; [left; lia|left; lia|left; lia|right; eauto].
Qed.

Lemma key_lt_total a b : key_lt a b = true ∨ a = b ∨ key_lt b a = true.
Proof.
  revert b. induction a as [|x a IH]; intros [|y b]; simpl; auto.
  destruct (IH b) as [Hl|[->|Hl]], (Z.lt_trichotomy x y) as [|[->|]];
    rewrite ?orb_true_iff, ?andb_true_iff, ?Z.ltb_lt, ?Z.eqb_eq; auto.
Qed.

Definition kv_lt {V} (a b : bytes * V) : Prop := key_lt a.1 b.1 = true.

#[export] Instance kv_lt_trans {V} : Transitive (@kv_lt V).
Proof. intros a b c. apply key_lt_trans. Qed.
#[export] Instance kv_lt_anti {V} : AntiSymm (=) (@kv_lt V).
Proof.
  intros a b H1 H2. pose proof (key_lt_trans _ _ _ H1 H2) as H3. by rewrite key_lt_irrefl in H3.
Qed.

(** ** Buckets *)

(** The pairs of [m], in the order of their keys. *)
Definition bucket {V} (kvs : list (bytes * V)) (m : gmap bytes V) : Prop :=
  StronglySorted kv_lt kvs ∧ kvs ≡ₚ map_to_list m.

Section buckets.
Context {V : Type}.
Implicit Types (kvs : list (bytes * V)) (m : gmap bytes V).

Lemma bucket_unique kvs kvs' m : bucket kvs m → bucket kvs' m → kvs = kvs'.
Proof.
  intros [S1 P1] [S2 P2]. eapply (StronglySorted_unique kv_lt); [done..|]. by rewrite P1, P2.
Qed.

Lemma bucket_elem kvs m k v : bucket kvs m → (k, v) ∈ kvs ↔ m !! k = Some v.
Proof. intros [_ P]. by rewrite P, elem_of_map_to_list. Qed.

Lemma bucket_length kvs m : bucket kvs m → length kvs = size m.
Proof. intros [_ P]. by rewrite P, length_map_to_list. Qed.

Lemma bucket_NoDup kvs m : bucket kvs m → NoDup kvs.*1.
Proof. intros [_ P]. rewrite P. apply NoDup_fst_map_to_list. Qed.

(** Strictly sorted lists of pairs with the content of the map are its bucket. *)
Lemma bucket_intro kvs m :
  StronglySorted kv_lt kvs → (∀ k v, (k, v) ∈ kvs ↔ m !! k = Some v) → bucket kvs m.
Proof.
  intros HS Hel. split; [done|]. apply NoDup_Permutation.
  - clear Hel. induction HS as [|a l _ IH Hf]; constructor; [|done]. intros Hin.
    rewrite Forall_forall in Hf. specialize (Hf _ Hin). unfold kv_lt in Hf. by rewrite key_lt_irrefl in Hf.
  - apply NoDup_map_to_list.
  - intros [k v]. by rewrite Hel, elem_of_map_to_list.
Qed.

Lemma bucket_nil m : bucket [] m ↔ m = ∅.
Proof.
  split; [intros [_ P]|intros ->; split; [constructor|by rewrite map_to_list_empty]].
  apply map_to_list_empty_iff. by apply Permutation_nil_l in P.
Qed.

Lemma bucket_one k (v : V) : bucket [(k, v)] {[k := v]}.
Proof. split; [repeat constructor|by rewrite map_to_list_singleton]. Qed.

Lemma bucket_keys_increase kvs m : bucket kvs m → keys_increase kvs = true.
Proof.
  intros [HS _]. induction HS as [|a l HS IH Hf]; [done|]. destruct l as [|b l]; [done|].
  apply Forall_cons in Hf as [Hab _].
  change (key_lt a.1 b.1 && keys_increase (b :: l) = true). by rewrite Hab, IH.
Qed.
End buckets.

(** The first position of a property. *)
Lemma position_spec {A} (f : A → bool) l :
  match position f l with
  | Some i => ∃ l1 x l2, l = l1 ++ x :: l2 ∧ length l1 = i ∧ f x = true ∧ Forall (λ y, f y = false) l1
  | None => Forall (λ y, f y = false) l
  end.
Proof.
  induction l as [|x l IH]; simpl; [constructor|]. destruct (f x) eqn:Hf.
  - by exists [], x, l.
  - destruct (position f l) as [i|]; simpl; [|by constructor].
    destruct IH as (l1 & y & l2 & -> & <- & Hy & Hl). exists (x :: l1), y, l2. split_and!; try done. by constructor.
Qed.

Lemma find_app_eq {A} (f : A → bool) l1 x l2 :
  Forall (λ y, f y = false) l1 → f x = true → List.find f (l1 ++ x :: l2) = Some x.
Proof. induction 1 as [|y l Hy _ IH]; simpl; [by intros ->|]. rewrite Hy. apply IH. Qed.

Lemma find_none {A} (f : A → bool) l : Forall (λ y, f y = false) l → List.find f l = None.
Proof. induction 1 as [|y l Hy _ IH]; simpl; [done|]. by rewrite Hy. Qed.

Section bucket_ops.
Context {V : Type}.
Implicit Types (kvs : list (bytes * V)) (m : gmap bytes V).

(** Where a key is in a bucket. *)
Lemma bucket_position kvs m k : bucket kvs m →
  match position (λ p, key_eqb p.1 k) kvs with
  | Some i => ∃ l1 v l2, kvs = l1 ++ (k, v) :: l2 ∧ length l1 = i ∧ m !! k = Some v
  | None => m !! k = None
  end.
Proof.
  intros Hb. pose proof (position_spec (λ p : bytes * V, key_eqb p.1 k) kvs) as Hp.
  destruct (position _ kvs) as [i|].
  - destruct Hp as (l1 & [k' v] & l2 & Hk & Hi & Hx & _). apply bool_decide_eq_true in Hx. simpl in Hx. subst k'.
    exists l1, v, l2. split_and!; try done. apply (bucket_elem _ _ _ _ Hb). subst. set_solver.
  - apply eq_None_not_Some. intros [v Hv]. apply (bucket_elem _ _ _ _ Hb) in Hv.
    rewrite Forall_forall in Hp. specialize (Hp _ Hv). by apply bool_decide_eq_false in Hp.
Qed.

Lemma bucket_find kvs m k : bucket kvs m →
  List.find (λ kv, key_eqb k kv.1) kvs = (λ v, (k, v)) <$> m !! k.
Proof.
  intros Hb. destruct (List.find _ kvs) as [[k' v]|] eqn:Hf.
  - apply List.find_some in Hf as [Hin Hk]. apply bool_decide_eq_true in Hk. simpl in Hk. subst k'.
    apply list_elem_of_In, (bucket_elem _ _ _ _ Hb) in Hin. by rewrite Hin.
  - destruct (m !! k) as [v|] eqn:Hm; [|done]. apply (bucket_elem _ _ _ _ Hb), list_elem_of_In in Hm.
    pose proof (List.find_none _ _ Hf _ Hm) as Hn. by apply bool_decide_eq_false in Hn.
Qed.

Lemma sorted_middle l1 (x : bytes * V) l2 :
  StronglySorted kv_lt (l1 ++ x :: l2) ↔
  StronglySorted kv_lt (l1 ++ l2) ∧ Forall (λ y, kv_lt y x) l1 ∧ Forall (kv_lt x) l2.
Proof.
  split.
  - induction l1 as [|a l1 IH]; simpl; intros HS; inversion_clear HS as [|?? HS' Hf].
    + done.
    + apply IH in HS' as (? & ? & ?). rewrite Forall_app, Forall_cons in Hf. destruct Hf as (? & ? & ?).
      split_and!; [constructor; [done|by apply Forall_app]|by constructor|done].
  - intros (HS & H1 & H2). induction H1 as [|a l1 Ha H1 IH]; simpl in *; [by constructor|].
    inversion_clear HS as [|?? HS' Hf]. constructor; [by apply IH|].
    rewrite Forall_app in *. destruct Hf. split; [done|]. by constructor.
Qed.

(** Overwriting a value. *)
Lemma bucket_update l1 k v l2 m v' :
  bucket (l1 ++ (k, v) :: l2) m → bucket (l1 ++ (k, v') :: l2) (<[k := v']> m).
Proof.
  intros Hb. pose proof Hb as [HS P]. apply sorted_middle in HS as (H0 & H1 & H2). split.
  - apply sorted_middle. done.
  - assert (m !! k = Some v) as Hk by (apply (bucket_elem _ _ _ _ Hb); set_solver).
    rewrite <-(insert_delete_eq m), map_to_list_insert by apply lookup_delete_eq.
    rewrite <-Permutation_middle. f_equiv. apply (Permutation_cons_inv (a := (k, v))).
    rewrite Permutation_middle, P. by rewrite map_to_list_delete.
Qed.

(** Inserting a new key before the first larger one. *)
Lemma bucket_insert kvs m k v : bucket kvs m → m !! k = None →
  bucket (vec_insert (default (length kvs) (position (λ c, key_lt k c.1) kvs)) (k, v) kvs) (<[k := v]> m).
Proof.
  intros Hb Hk. pose proof (position_spec (λ c : bytes * V, key_lt k c.1) kvs) as Hp.
  assert (∀ y, y ∈ kvs → key_lt k y.1 = false → kv_lt y (k, v)) as Hlt.
  { intros [k' v'] Hin Hf. destruct (key_lt_total k k') as [Hl|[<-|Hl]]; [simpl in Hf; congruence| |done].
    apply (bucket_elem _ _ _ _ Hb) in Hin. congruence. }
  assert (∃ l1 l2, kvs = l1 ++ l2 ∧ default (length kvs) (position (λ c, key_lt k c.1) kvs) = length l1 ∧
    Forall (λ y, kv_lt y (k, v)) l1 ∧ Forall (kv_lt (k, v)) l2) as (l1 & l2 & E & Hi & H1 & H2).
  { destruct (position _ kvs) as [i|]; simpl.
    - destruct Hp as (l1 & x & l2 & E & <- & Hx & H1). exists l1, (x :: l2). split_and!; try done.
      + rewrite Forall_forall in *. intros y Hy. apply Hlt; [subst; set_solver|by apply H1].
      + destruct Hb as [HS _]. rewrite E in HS. apply sorted_middle in HS as (_ & _ & H2).
        constructor; [done|]. eapply Forall_impl; [exact H2|]. intros y Hy. simpl. by etrans.
    - exists kvs, []. rewrite app_nil_r. split_and!; try done.
      rewrite Forall_forall in *. intros y Hy. auto. }
  rewrite Hi. unfold vec_insert. subst kvs. rewrite take_app_length, drop_app_length. destruct Hb as [HS P]. split.
  - by apply sorted_middle.
  - rewrite map_to_list_insert by done. rewrite <-P. by rewrite Permutation_middle.
Qed.

Lemma bucket_remove l1 k v l2 m :
  bucket (l1 ++ (k, v) :: l2) m → bucket (vec_remove (length l1) (l1 ++ (k, v) :: l2)) (delete k m).
Proof.
  intros Hb. pose proof Hb as [HS P]. apply sorted_middle in HS as (H0 & _).
  unfold vec_remove. rewrite take_app_length. rewrite drop_app_ge by lia.
  replace (S (length l1) - length l1)%nat with 1%nat by lia. simpl drop. rewrite drop_0. split; [done|].
  assert (m !! k = Some v) as Hk by (apply (bucket_elem _ _ _ _ Hb); set_solver).
  apply (Permutation_cons_inv (a := (k, v))). rewrite Permutation_middle, P. by rewrite map_to_list_delete.
Qed.

(** Sorting the pairs of a map gives its bucket. *)
Lemma bucket_sort kvs m : kvs ≡ₚ map_to_list m → bucket (merge_sort kv_le kvs) m.
Proof.
  intros P. assert (Total (@kv_le V)) as Ht.
  { intros a b. unfold kv_le. destruct (key_lt b.1 a.1) eqn:E1; [|by left]. right.
    destruct (key_lt a.1 b.1) eqn:E2; [|done]. pose proof (key_lt_trans _ _ _ E1 E2) as E3.
    by rewrite key_lt_irrefl in E3. }
  assert (Transitive (@kv_le V)) as Htr.
  { intros a b c. unfold kv_le. intros H1 H2. destruct (key_lt c.1 a.1) eqn:E; [|done].
    destruct (key_lt_total a.1 b.1) as [Hl|[He|Hl]]; [|congruence|congruence].
    by rewrite (key_lt_trans _ _ _ E Hl) in H2. }
  pose proof (merge_sort_Permutation kv_le kvs) as P'.
  pose proof (StronglySorted_merge_sort kv_le kvs) as HS.
  assert (NoDup (merge_sort kv_le kvs).*1) as Hnd by (rewrite P', P; apply NoDup_fst_map_to_list).
  split; [|by rewrite P'].
  clear P P'. revert Hnd. induction HS as [|a l _ IH Hf]; csimpl; [constructor|].
  intros [Hni Hnd]%NoDup_cons. constructor; [auto|]. rewrite Forall_forall in *. intros b Hin.
  specialize (Hf _ Hin). unfold kv_le in Hf. destruct (key_lt_total a.1 b.1) as [Hl|[He|Hl]]; [done| |congruence].
  exfalso. apply Hni. rewrite He. by apply list_elem_of_fmap_2.
Qed.
End bucket_ops.

(** ** Nodes as partial functions from slots to pointers *)

Definition bf_wf (b : Bitfield) : Prop := bf_ok b ∧ Forall (λ v, 0 ≤ v < 2 ^ 64) b.

Lemma bits_bound v n : 0 ≤ n → (∀ i, n ≤ i → Z.testbit v i = false) → 0 ≤ v → 0 ≤ v < 2 ^ n.
Proof.
  intros Hn Hb Hv. split; [done|]. destruct (decide (v = 0)) as [->|]; [by apply Z.pow_pos_nonneg|].
  apply Z.log2_lt_pow2; [lia|]. destruct (Z.lt_ge_cases (Z.log2 v) n); [done|].
  pose proof (Z.bit_log2 v ltac:(lia)) as Ht. by rewrite Hb in Ht.
Qed.
Lemma bound_bits v n i : 0 ≤ v < 2 ^ n → n ≤ i → Z.testbit v i = false.
Proof.
  intros Hv Hi. destruct (decide (v = 0)) as [->|]; [apply Z.testbit_0_l|].
  apply Z.bits_above_log2; [lia|]. apply (Z.lt_le_trans _ n); [|done]. apply Z.log2_lt_pow2; lia.
Qed.

Lemma bf_wf_zero : bf_wf bf_zero.
Proof. split; [done|]. repeat constructor; lia. Qed.

Lemma bf_wf_set i b : 0 ≤ i → bf_wf b → bf_wf (set_bit i b).
Proof.
  intros Hi [Hok Hb]. split; [by apply set_bit_ok|]. apply Forall_alter; [done|]. intros v _ Hv.
  pose proof (Z.mod_pos_bound i 64 ltac:(lia)).
  assert (0 ≤ Z.shiftl 1 (i mod 64)) by (rewrite Z.shiftl_nonneg; lia).
  apply bits_bound; [lia| |rewrite Z.lor_nonneg; lia].
  intros j Hj. rewrite Z.lor_spec, testbit_shiftl1 by lia. rewrite (bound_bits v 64) by done.
  rewrite bool_decide_false; [done|lia].
Qed.
Lemma bf_wf_clear i b : 0 ≤ i → bf_wf b → bf_wf (clear_bit i b).
Proof.
  intros Hi [Hok Hb]. split; [by apply clear_bit_ok|]. apply Forall_alter; [done|]. intros v _ Hv.
  apply bits_bound; [lia| |rewrite Z.land_nonneg; lia].
  intros j Hj. rewrite Z.land_spec, (bound_bits v 64) by done. done.
Qed.

(** Well-formed bitfields with the same bits are equal. *)
Lemma bf_ext b b' : bf_wf b → bf_wf b' → (∀ i, 0 ≤ i < 256 → bit b i = bit b' i) → b = b'.
Proof.
  intros [H4 Hb] [H4' Hb'] Heq. unfold bf_ok in *. apply (nth_ext _ _ 0 0); [congruence|]. intros k Hk.
  rewrite <-(Nat2Z.id k). change (bf_word b (Z.of_nat k) = bf_word b' (Z.of_nat k)).
  assert (∀ c, Forall (λ v, 0 ≤ v < 2 ^ 64) c → length c = 4%nat → 0 ≤ bf_word c (Z.of_nat k) < 2 ^ 64) as Hw.
  { intros c Hc Hl. unfold bf_word. rewrite Nat2Z.id. rewrite nth_lookup.
    destruct (c !! k) as [v|] eqn:Hv; [by apply (Forall_lookup_1 _ _ _ _ Hc Hv)|].
    apply lookup_ge_None in Hv. lia. }
  apply Z.bits_inj'. intros j Hj. destruct (decide (j < 64)) as [Hlt|Hge].
  - specialize (Heq (Z.of_nat k * 64 + j) ltac:(lia)). unfold bit in Heq.
    rewrite Z.add_comm, Z.div_add, Z.mod_add in Heq by lia. by rewrite Z.div_small, Z.mod_small in Heq by lia.
  - rewrite (bound_bits (bf_word b _) 64), (bound_bits (bf_word b' _) 64); [done|by apply Hw|lia|by apply Hw|lia].
Qed.

Definition upd {A} (i : Z) (x : option A) (g : Z → option A) : Z → option A :=
  λ j, if decide (j = i) then x else g j.

Lemma omap_same {A} (g g' : Z → option A) (l : list Z) : (∀ i, i ∈ l → g i = g' i) → omap g l = omap g' l.
Proof. intros Hg. apply list_omap_ext, Forall_Forall2_diag, Forall_forall. done. Qed.

Lemma omap_out {A} i (x : option A) g (l : list Z) : i ∉ l → omap (upd i x g) l = omap g l.
Proof.
  intros Hi. apply omap_same. intros j Hj. unfold upd. rewrite decide_False; [done|]. by intros ->.
Qed.

Lemma slots_split i : 0 ≤ i < 256 → seqZ 0 256 = seqZ 0 i ++ i :: seqZ (i + 1) (255 - i).
Proof.
  intros Hi. replace 256 with (i + (1 + (255 - i))) by lia. rewrite !seqZ_app by lia. done.
Qed.

Lemma omap_upd {A} i (x : option A) g : 0 ≤ i < 256 →
  omap (upd i x g) (seqZ 0 256) = omap g (seqZ 0 i) ++ option_list x ++ omap g (seqZ (i + 1) (255 - i)).
Proof.
  intros Hi. rewrite (slots_split i) by done. rewrite omap_app. f_equal.
  - apply omap_out. rewrite elem_of_seqZ. lia.
  - rewrite <-(omap_out i x g (seqZ (i + 1) (255 - i))) by (rewrite elem_of_seqZ; lia).
    cbn [omap list_omap]. unfold upd at 1. rewrite decide_True by done. by destruct x.
Qed.

Lemma length_omap_count {A} (g : Z → option A) p l :
  (∀ i, i ∈ l → p i = bool_decide (is_Some (g i))) → length (omap g l) = count p l.
Proof.
  induction l as [|i l IH]; intros Hp; [done|]. cbn [omap list_omap count].
  rewrite (Hp i) by set_solver. rewrite <-IH by set_solver. by destruct (g i).
Qed.

(** A bit field and the pointers of the filled slots, as a partial function. *)
Section slots.
Context {P : Type}.
Implicit Types (b : Bitfield) (ps : list P) (g : Z → option P).

Definition slots b ps g : Prop :=
  bf_wf b ∧ (∀ i, 0 ≤ i < 256 → bit b i = bool_decide (is_Some (g i))) ∧ ps = omap g (seqZ 0 256).

Lemma slots_default : slots bf_zero [] (λ _, None).
Proof. split_and!; [apply bf_wf_zero|intros; by rewrite bit_zero|done]. Qed.

Lemma slots_test b ps g i : slots b ps g → 0 ≤ i < 256 → test_bit i b = bool_decide (is_Some (g i)).
Proof. intros (_ & Hb & _) Hi. rewrite test_bit_spec. auto. Qed.

(** The index of a slot counts the pointers before it. *)
Lemma slots_index b ps g i : slots b ps g → 0 ≤ i < 256 →
  index_for_bit_pos i b = length (omap g (seqZ 0 i)) ∧
  ps = omap g (seqZ 0 i) ++ option_list (g i) ++ omap g (seqZ (i + 1) (255 - i)).
Proof.
  intros ((Hok & _) & Hb & Hp) Hi. split.
  - rewrite index_for_bit_pos_spec by done. symmetry. apply length_omap_count.
    intros j Hj%elem_of_seqZ. apply Hb. lia.
  - rewrite Hp, <-omap_upd by done. apply omap_same. intros j _.
    unfold upd. by case_decide; subst.
Qed.

Lemma slots_lookup b ps g i p : slots b ps g → 0 ≤ i < 256 → g i = Some p → ps !! index_for_bit_pos i b = Some p.
Proof.
  intros Hv Hi Hg. destruct (slots_index b ps g i Hv Hi) as [-> ->]. rewrite Hg.
  simpl. by rewrite list_lookup_middle.
Qed.

(** Writing the bits of one slot. *)
Lemma upd_bits b ps g i x b' : slots b ps g → 0 ≤ i < 256 →
  (∀ j, 0 ≤ j < 256 → bit b' j = if decide (j = i) then bool_decide (is_Some x) else bit b j) →
  ∀ j, 0 ≤ j < 256 → bit b' j = bool_decide (is_Some (upd i x g j)).
Proof.
  intros (_ & Hb & _) Hi Hb' j Hj. rewrite Hb' by done. unfold upd. case_decide; [done|auto].
Qed.

Lemma slots_insert b ps g i p : slots b ps g → 0 ≤ i < 256 → g i = None →
  slots (set_bit i b) (vec_insert (index_for_bit_pos i b) p ps) (upd i (Some p) g).
Proof.
  intros Hv Hi Hg. destruct (slots_index b ps g i Hv Hi) as [Hx Hps]. pose proof Hv as ((Hok & Hw) & _). split_and!.
  - apply bf_wf_set; [lia|done].
  - apply (upd_bits b ps); [done..|]. intros j Hj. rewrite bit_set by done. by case_decide; [subst; rewrite bool_decide_true|rewrite bool_decide_false].
  - rewrite omap_upd by done. rewrite Hx, Hps, Hg. simpl. unfold vec_insert.
    by rewrite take_app_length, drop_app_length.
Qed.

Lemma slots_set b ps g i q p : slots b ps g → 0 ≤ i < 256 → g i = Some q →
  slots b (<[index_for_bit_pos i b := p]> ps) (upd i (Some p) g).
Proof.
  intros Hv Hi Hg. destruct (slots_index b ps g i Hv Hi) as [Hx Hps]. pose proof Hv as (Hw & Hb & _). split_and!; [done| |].
  - apply (upd_bits b ps); [done..|]. intros j Hj. case_decide; [|done]. subst j. rewrite Hb, Hg by done. done.
  - rewrite omap_upd by done. rewrite Hx, Hps, Hg. cbn [option_list]. rewrite insert_app_r_alt by done.
    by rewrite Nat.sub_diag.
Qed.

Lemma slots_remove b ps g i q : slots b ps g → 0 ≤ i < 256 → g i = Some q →
  slots (clear_bit i b) (vec_remove (index_for_bit_pos i b) ps) (upd i None g).
Proof.
  intros Hv Hi Hg. destruct (slots_index b ps g i Hv Hi) as [Hx Hps]. pose proof Hv as ((Hok & Hw) & _). split_and!.
  - apply bf_wf_clear; [lia|done].
  - apply (upd_bits b ps); [done..|]. intros j Hj. rewrite bit_clear by done.
    by case_decide; [subst; rewrite bool_decide_true|rewrite bool_decide_false].
  - rewrite omap_upd by done. rewrite Hx, Hps, Hg. unfold vec_remove. rewrite take_app_length, drop_app_ge by lia.
    by replace (S (length (omap g (seqZ 0 i))) - length (omap g (seqZ 0 i)))%nat with 1%nat by lia.
Qed.

Lemma slots_count b ps g : slots b ps g → count_ones b = length ps.
Proof.
  intros ((Hok & _) & Hb & ->). rewrite count_ones_spec by done. symmetry. apply length_omap_count.
  intros i Hi%elem_of_seqZ. apply Hb. lia.
Qed.

Lemma slots_elem b ps g p : slots b ps g → p ∈ ps ↔ ∃ i, 0 ≤ i < 256 ∧ g i = Some p.
Proof.
  intros (_ & _ & ->). rewrite list_elem_of_omap. split; intros (i & Hi & Hg); exists i; rewrite elem_of_seqZ in *; (split; [lia|done]).
Qed.

(** Bit field and pointers are determined by the function. *)
Lemma slots_unique b ps b' ps' g g' :
  slots b ps g → slots b' ps' g' → (∀ i, 0 ≤ i < 256 → g i = g' i) → b = b' ∧ ps = ps'.
Proof.
  intros (Hw & Hb & Hp) (Hw' & Hb' & Hp') Hg. split.
  - apply bf_ext; [done..|]. intros i Hi. rewrite Hb, Hb' by done. by rewrite Hg.
  - rewrite Hp, Hp'. apply omap_same. intros j Hj%elem_of_seqZ. apply Hg. lia.
Qed.
End slots.

(** ** Bitfields survive serialisation *)

Lemma length_to_be_bytes n x : length (to_be_bytes n x) = n.
Proof. induction n; simpl; [done|]. by f_equal. Qed.

Lemma be_value_to_be_bytes n x : be_value (to_be_bytes n x) = x mod 256 ^ Z.of_nat n.
Proof.
  induction n as [|n IH]; [by rewrite Z.mod_1_r|]. cbn [to_be_bytes be_value].
  rewrite IH, length_to_be_bytes, Nat2Z.inj_succ, Z.pow_succ_r by lia.
  rewrite (Z.mul_comm 256), Z.rem_mul_r by (try apply Z.pow_nonzero; lia). ring.
Qed.

Lemma strip_zeros_spec v : ∃ k, v = replicate k 0 ++ strip_zeros v.
Proof.
  induction v as [|b v [k IH]]; simpl; [by exists O|]. destruct (Z.eqb_spec b 0) as [->|]; [|by exists O].
  exists (S k). simpl. by f_equal.
Qed.

Lemma bf_roundtrip b : bf_wf b → bf_deserialize (bf_serialize b) = Ok b.
Proof.
  intros [Hok Hb]. destruct b as [|b0 [|b1 [|b2 [|b3 [|]]]]]; try done.
  repeat (apply Forall_cons in Hb as [? Hb]). unfold bf_serialize, bf_word.
  change (nth (Z.to_nat 0) _ 0) with b0. change (nth (Z.to_nat 1) _ 0) with b1.
  change (nth (Z.to_nat 2) _ 0) with b2. change (nth (Z.to_nat 3) _ 0) with b3.
  set (v := to_be_bytes 8 b3 ++ _). destruct (strip_zeros_spec v) as [k Hk].
  assert (length v = 32%nat) as Hl by (unfold v; rewrite !length_app, !length_to_be_bytes; done).
  assert ((k + length (strip_zeros v) = 32)%nat) as Hs.
  { rewrite Hk, length_app, length_replicate in Hl. done. }
  unfold bf_deserialize, MAX_LEN. destruct (Nat.ltb_spec 32 (length (strip_zeros v))); [lia|].
  replace (32 - length (strip_zeros v))%nat with k by lia. cbv zeta. rewrite <-Hk.
  assert (∀ x, 0 ≤ x < 2 ^ 64 → be_value (to_be_bytes 8 x) = x) as Hx.
  { intros x Hx. rewrite be_value_to_be_bytes. by apply Z.mod_small. }
  subst v. change 24%nat with (8 + (8 + 8))%nat. change 16%nat with (8 + 8)%nat. rewrite <-!drop_drop.
  rewrite !(drop_app_length' (to_be_bytes 8 _) _ 8), !(take_app_length' (to_be_bytes 8 _) _ 8)
    by (symmetry; apply length_to_be_bytes). by rewrite !Hx.
Qed.

(** ** Lists *)

(** Membership in a list that is spelled out. *)
Ltac in_cons := rewrite ?elem_of_cons; auto.

Lemma position_ext {A} (f g : A → bool) l : (∀ x, f x = g x) → position f l = position g l.
Proof. intros Hfg. induction l as [|x l IH]; simpl; [done|]. by rewrite Hfg, IH. Qed.

Lemma length_omap_le {A B} (g : A → option B) l : (length (omap g l) ≤ length l)%nat.
Proof. induction l as [|a l IH]; csimpl; [lia|]. destruct (g a); simpl; lia. Qed.

Lemma length_concat_sum {A} (ls : list (list A)) : sum_list (length <$> ls) = length (concat ls).
Proof. induction ls; csimpl; [done|]. by rewrite length_app, IHls. Qed.

(** ** Which pairs belong in which slot *)

Section submaps.
Context {V : Type} (conf : Config) (H : bytes → bytes).
Implicit Types (m : gmap bytes V).

Definition slot_of (d : nat) (k : bytes) : Z := idx_at (bit_width conf) (H k) d.
Definition sub (d : nat) (i : Z) m : gmap bytes V := filter (λ kv, slot_of d kv.1 = i) m.

Definition fits (d : nat) m : Prop := (min_data_depth conf ≤ d ∧ size m ≤ max_array_width conf)%nat.

(** *** Sub-maps *)

Lemma sub_lookup d i m k v : sub d i m !! k = Some v ↔ m !! k = Some v ∧ slot_of d k = i.
Proof. unfold sub. by rewrite map_lookup_filter_Some. Qed.
Lemma sub_at d m k : sub d (slot_of d k) m !! k = m !! k.
Proof.
  apply option_eq. intros v. rewrite sub_lookup. naive_solver.
Qed.
Lemma sub_empty d i : sub d i ∅ = ∅.
Proof. apply map_filter_empty. Qed.
Lemma sub_insert d m k v : sub d (slot_of d k) (<[k := v]> m) = <[k := v]> (sub d (slot_of d k) m).
Proof. apply map_filter_insert_True. done. Qed.
Lemma sub_insert_ne d i m k v : slot_of d k ≠ i → sub d i (<[k := v]> m) = sub d i m.
Proof.
  intros Hne. apply map_eq. intros k'. apply option_eq. intros v'. rewrite !sub_lookup, lookup_insert_Some. naive_solver.
Qed.
Lemma sub_delete d m k : sub d (slot_of d k) (delete k m) = delete k (sub d (slot_of d k) m).
Proof. apply map_filter_delete. Qed.
Lemma sub_delete_ne d i m k : slot_of d k ≠ i → sub d i (delete k m) = sub d i m.
Proof.
  intros Hne. apply map_eq. intros k'. apply option_eq. intros v'. rewrite !sub_lookup, lookup_delete_Some. naive_solver.
Qed.
Lemma sub_subseteq d i m : sub d i m ⊆ m.
Proof. apply map_filter_subseteq. Qed.

Context (HH : ∀ k, hash_ok (H k)) (Hw : 1 ≤ bit_width conf ≤ 8).

Lemma slot_range d k : (d < levels (bit_width conf))%nat → 0 ≤ slot_of d k < 2 ^ bit_width conf ∧ 0 ≤ slot_of d k < 256.
Proof.
  intros Hd. unfold slot_of. pose proof (idx_at_range _ Hw (H k) d Hd).
  pose proof (Z.pow_le_mono_r 2 (bit_width conf) 8). lia.
Qed.

(** The slots partition the pairs. *)
Lemma sub_partition d m : (d < levels (bit_width conf))%nat →
  map_to_list m ≡ₚ (seqZ 0 256 ≫= λ i, map_to_list (sub d i m)).
Proof.
  intros Hd. apply NoDup_Permutation.
  - apply NoDup_map_to_list.
  - apply NoDup_bind.
    + intros i j [k v] _ _ H1 H2. apply elem_of_map_to_list, sub_lookup in H1 as [_ <-].
      by apply elem_of_map_to_list, sub_lookup in H2 as [_ <-].
    + intros i _. apply NoDup_map_to_list.
    + apply NoDup_seqZ.
  - intros [k v]. rewrite elem_of_map_to_list, list_elem_of_bind. split.
    + intros Hk. exists (slot_of d k). rewrite elem_of_map_to_list, sub_lookup, elem_of_seqZ.
      pose proof (slot_range d k Hd). split_and!; done || lia.
    + intros (i & Hi & _). by apply elem_of_map_to_list, sub_lookup in Hi as [? _].
Qed.

Abbreviation w := (bit_width conf).
Abbreviation slot := slot_of.
Abbreviation subm := sub.

Lemma fits_dec d m : fits d m ∨ ¬ fits d m.
Proof. unfold fits. lia. Qed.

Lemma sub_same d k v m j : j ≠ slot d k → subm d j (<[k := v]> m) = subm d j m.
Proof. intros Hj. apply sub_insert_ne. done. Qed.
Lemma sub_same_delete d k m j : j ≠ slot d k → subm d j (delete k m) = subm d j m.
Proof. intros Hj. apply sub_delete_ne. done. Qed.

(** What [set] and [set_if_absent] mean. *)
Definition set_result `{EqDecision V} (overwrite : bool) (old : option V) (v : V) : option V * bool :=
  match old with
  | None => (None, true)
  | Some o => if overwrite then (Some o, negb (bool_decide (o = v))) else (None, false)
  end.
Definition put_kv (overwrite : bool) (k : bytes) (v : V) m : gmap bytes V :=
  match m !! k with
  | Some _ => if overwrite then <[k := v]> m else m
  | None => <[k := v]> m
  end.

Lemma put_kv_size ow k v m : (size m ≤ size (put_kv ow k v m))%nat.
Proof.
  unfold put_kv. destruct (m !! k) as [o|] eqn:Hk; [destruct ow; [|done]|].
  - rewrite map_size_insert_Some by eauto. done.
  - rewrite map_size_insert_None by done. lia.
Qed.
Lemma put_kv_non_empty ow k v m : put_kv ow k v m ≠ ∅ ∨ m = ∅.
Proof.
  destruct (decide (m = ∅)) as [|Hne]; [by right|left]. pose proof (put_kv_size ow k v m).
  rewrite <-map_size_empty_iff in *. lia.
Qed.
Lemma put_kv_unmodified `{EqDecision V} ow k v m old : set_result ow (m !! k) v = (old, false) → put_kv ow k v m = m.
Proof.
  unfold set_result, put_kv. destruct (m !! k) as [o|] eqn:Hk; [|done]. destruct ow; [|done].
  intros [= _ Hb]. apply negb_false_iff, bool_decide_eq_true in Hb as ->. by apply insert_id.
Qed.
Lemma put_kv_sub ow d k v m : subm d (slot d k) (put_kv ow k v m) = put_kv ow k v (subm d (slot d k) m).
Proof.
  unfold put_kv. rewrite sub_at. destruct (m !! k); [destruct ow; [|done]|]; apply sub_insert.
Qed.
Lemma put_kv_sub_ne ow d k v m j : j ≠ slot d k → subm d j (put_kv ow k v m) = subm d j m.
Proof.
  intros Hj. unfold put_kv. destruct (m !! k); [destruct ow; [|done]|]; by apply sub_same.
Qed.
Lemma not_fits_mono d m m' : (size m ≤ size m')%nat → ¬ fits d m → ¬ fits d m'.
Proof. unfold fits. lia. Qed.

(** The keys of a node at depth [d] have taken the same path to it, and
    their hashes differ. *)
Definition coherent (d : nat) m : Prop := ∀ k k', is_Some (m !! k) → is_Some (m !! k') →
  (∀ e, (e < d)%nat → slot e k = slot e k') ∧ (H k = H k' → k = k').

Lemma coherent_dom d m m' : (∀ k, is_Some (m' !! k) → is_Some (m !! k)) → coherent d m → coherent d m'.
Proof. unfold coherent. auto. Qed.
Lemma coherent_sub d i m : coherent d m → coherent (S d) (subm d i m).
Proof.
  intros Hc k k' [v [Hk Hi]%sub_lookup] [v' [Hk' Hi']%sub_lookup].
  destruct (Hc k k') as [Hp Hh]; [by eauto..|]. split; [|done]. intros e He.
  destruct (decide (e = d)) as [->|]; [congruence|]. apply Hp. lia.
Qed.
(** Below the last level there is at most one key. *)
Lemma coherent_last m : coherent (levels w) m → (size m ≤ 1)%nat.
Proof.
  intros Hc. destruct (decide (m = ∅)) as [->|Hne]; [rewrite map_size_empty; lia|].
  apply map_choose in Hne as (k & v & Hk). replace m with ({[k := v]} : gmap bytes V); [by rewrite map_size_singleton|].
  apply map_eq. intros k'. destruct (decide (k' = k)) as [->|Hkk]; [by rewrite lookup_singleton_eq|].
  rewrite lookup_singleton_ne by done. symmetry. apply eq_None_not_Some. intros Hk'.
  destruct (Hc k' k) as [Hp Hh]; [done|by eauto|]. apply Hkk, Hh. apply (idx_at_inj w Hw); [done..|]. apply Hp.
Qed.

Lemma coherent_insert_sub d k v m : coherent d (<[k := v]> m) → coherent (S d) (<[k := v]> (subm d (slot d k) m)).
Proof. intros Hc. rewrite <-sub_insert. by apply coherent_sub. Qed.
Lemma coherent_single d k v m : coherent d (<[k := v]> m) → coherent d (<[k := v]> ∅).
Proof. apply coherent_dom. intros k'. rewrite !lookup_insert_is_Some, lookup_empty. intros [?|[_ []]]; [by left|done]. Qed.

End submaps.

(** ** The finite map both are compared with *)

(** The configurations and hash functions the theorems are about: 32-byte
    hashes, a bit width [HashBits] supports, buckets that hold something, and
    data allowed somewhere above the bottom. *)
Class HamtParams (conf : Config) (H : bytes → bytes) : Prop := {
  params_hash k : hash_ok (H k);
  params_width : 1 ≤ bit_width conf ≤ 8;
  params_array : (1 ≤ max_array_width conf)%nat;
  params_depth : (min_data_depth conf < levels (bit_width conf))%nat;
}.

Inductive HamtOp (V : Type) :=
  | HGet (k : bytes)
  | HContains (k : bytes)
  | HSet (k : bytes) (v : V)
  | HSetIfAbsent (k : bytes) (v : V)
  | HDelete (k : bytes)
  | HFlush
  | HClear
  | HIsEmpty.
Arguments HGet {V} k.
Arguments HContains {V} k.
Arguments HSet {V} k v.
Arguments HSetIfAbsent {V} k v.
Arguments HDelete {V} k.
Arguments HFlush {V}.
Arguments HClear {V}.
Arguments HIsEmpty {V}.

Inductive HamtAnswer (V : Type) :=
  | AValue (o : option V)
  | ABool (b : bool)
  | AEntry (o : option (bytes * V))
  | ADone.
Arguments AValue {V} o.
Arguments ABool {V} b.
Arguments AEntry {V} o.
Arguments ADone {V}.

(** The keys a sequence may add. *)
Definition set_keys {V} (ops : list (HamtOp V)) : gset bytes :=
  list_to_set (omap (λ op, match op with HSet k _ | HSetIfAbsent k _ => Some k | _ => None end) ops).

(** The reference: the same operations on a finite map. *)
Section reference.
Context {V : Type}.
Implicit Types m : gmap bytes V.

Definition map_op (op : HamtOp V) m : HamtAnswer V * gmap bytes V :=
  match op with
  | HGet k => (AValue (m !! k), m)
  | HContains k => (ABool (bool_decide (is_Some (m !! k))), m)
  | HSet k v => (AValue (m !! k), <[k := v]> m)
  | HSetIfAbsent k v =>
      match m !! k with Some _ => (ABool false, m) | None => (ABool true, <[k := v]> m) end
  | HDelete k => (AEntry ((λ v, (k, v)) <$> m !! k), delete k m)
  | HFlush => (ADone, m)
  | HClear => (ADone, ∅)
  | HIsEmpty => (ABool (bool_decide (m = ∅)), m)
  end.
Fixpoint map_ops (ops : list (HamtOp V)) m : list (HamtAnswer V) * gmap bytes V :=
  match ops with
  | [] => ([], m)
  | op :: ops =>
      let '(a, m) := map_op op m in
      let '(l, m) := map_ops ops m in (a :: l, m)
  end.
End reference.

(** Keys with different hashes. *)
Definition keys_apart (H : bytes → bytes) (X : gset bytes) : Prop := ∀ k k', k ∈ X → k' ∈ X → H k = H k' → k = k'.

Lemma keys_apart_sub (H : bytes → bytes) (X Y : gset bytes) : X ⊆ Y → keys_apart H Y → keys_apart H X.
Proof. intros Hs HY k k' Hk Hk'. apply HY; by apply Hs. Qed.

Lemma coherent_top {V} (conf : Config) (H : bytes → bytes) (k : bytes) (v : V) (m : gmap bytes V) :
  keys_apart H (dom (<[k := v]> m)) → coherent conf H 0 (<[k := v]> m).
Proof. intros Hk a b Ha Hb. split; [lia|]. by apply Hk; apply elem_of_dom. Qed.

Lemma consumed_at_0 w : consumed_at w 0 = 0.
Proof. unfold consumed_at. lia. Qed.

Lemma map_op_dom {V} (op : HamtOp V) (m : gmap bytes V) : dom (map_op op m).2 ⊆ dom m ∪ set_keys [op].
Proof. unfold set_keys. destruct op; simpl; try case_match; simpl; rewrite ?dom_insert; set_solver. Qed.

(** Calling back on a list of pairs until the first error. *)
Fixpoint visit {V A} (f : bytes → V → A → result string unit * A) (l : list (bytes * V)) (a : A)
    : result HamtError unit * A :=
  match l with
  | [] => (Ok tt, a)
  | (k, v) :: l =>
      match f k v a with
      | (Ok _, a) => visit f l a
      | (Err e, a) => (Err (Dynamic e), a)
      end
  end.

(** A key splits a list without duplicate keys in one way. *)
Lemma same_split {V} (l l1 l1' l2 l2' : list (bytes * V)) (k : bytes) (v : V) :
  NoDup l.*1 → l = l1 ++ (k, v) :: l2 → l = l1' ++ (k, v) :: l2' → l2 = l2'.
Proof.
  revert l l1'. induction l1 as [|x l1 IH]; intros l [|y l1'] Hnd E E'; simpl in *; subst l.
  - by injection E'.
  - injection E' as <- E'. csimpl in Hnd. apply NoDup_cons in Hnd as [Hni _]. destruct Hni. rewrite E', fmap_app. set_solver.
  - injection E' as -> E'. csimpl in Hnd. apply NoDup_cons in Hnd as [Hni _]. destruct Hni. rewrite fmap_app. set_solver.
  - injection E' as -> E'. csimpl in Hnd. apply NoDup_cons in Hnd as [_ Hnd]. eapply IH; eauto.
Qed.
