(* ===== verification/Hamt.v ===== *)
(** * The HAMT (ipld/hamt/src/node.rs, pointer.rs, hamt.rs, lib.rs)

    A node has a bitfield of filled slots and one pointer per filled slot: a
    bucket of key-value pairs in key order, a link to a stored node with the node
    once it was loaded, or a node not yet stored. A key's path is cut from its
    hash by [HashBits]. The keys are [BytesKey]s; the hash algorithm is a
    parameter, a function to 32 bytes. *)

From S2P Require Import Prelude Effects Address Types HamtBits HamtCommon.
From stdpp Require Import gmap strings list fin_maps sorting.
From Stdlib Require Import ZArith Lia.
#[local] Open Scope Z_scope.

(** ** Nodes *)

Inductive Pointer (V : Type) :=
  | Values (kvs : list (bytes * V))
  | Link (cid : Cid) (cache : option (Node V))
  | Dirty (node : Node V)
with Node (V : Type) :=
  | mkNode (bitfield : Bitfield) (pointers : list (Pointer V)).
Arguments Values {V} kvs.
Arguments Link {V} cid cache.
Arguments Dirty {V} node.
Arguments mkNode {V} bitfield pointers.

Definition bitfield {V} (n : Node V) : Bitfield := let 'mkNode b _ := n in b.
Definition pointers {V} (n : Node V) : list (Pointer V) := let 'mkNode _ ps := n in ps.
Definition Node_default {V} : Node V := mkNode bf_zero [].

(** A pointer as it is serialised: a list of pairs or a link. *)
Inductive PointerBlock (V : Type) :=
  | BVals (kvs : list (bytes * V))
  | BLink (cid : Cid).
Arguments BVals {V} kvs.
Arguments BLink {V} cid.
Definition NodeBlock (V : Type) : Type := bytes * list (PointerBlock V).

Definition pointer_serialize {V} (p : Pointer V) : result string (PointerBlock V) :=
  match p with
  | Values vals => Ok (BVals vals)
  | Link cid _ => Ok (BLink cid)
  | Dirty _ => Err "Cannot serialize cached values"%string
  end.
Definition pointer_deserialize {V} (p : PointerBlock V) : Pointer V :=
  match p with
  | BVals kvs => Values kvs
  | BLink cid => Link cid None
  end.

Fixpoint pointers_serialize {V} (ps : list (Pointer V)) : result string (list (PointerBlock V)) :=
  match ps with
  | [] => Ok []
  | p :: ps =>
      match pointer_serialize p with
      | Err e => Err e
      | Ok b => match pointers_serialize ps with Err e => Err e | Ok bs => Ok (b :: bs) end
      end
  end.
Definition node_serialize {V} (n : Node V) : result string (NodeBlock V) :=
  match pointers_serialize (pointers n) with
  | Err e => Err e
  | Ok bs => Ok (bf_serialize (bitfield n), bs)
  end.

Definition insert_child {V} (idx : Z) (p : Pointer V) (n : Node V) : Node V :=
  let i := index_for_bit_pos idx (bitfield n) in
  mkNode (set_bit idx (bitfield n)) (vec_insert i p (pointers n)).
Definition rm_child {V} (i : nat) (idx : Z) (n : Node V) : Node V :=
  mkNode (clear_bit idx (bitfield n)) (vec_remove i (pointers n)).
(** Writing through [get_child_mut]. *)
Definition set_child {V} (i : nat) (p : Pointer V) (n : Node V) : Node V :=
  mkNode (bitfield n) (<[i := p]> (pointers n)).

(** [Pointer::clean] of a dirty node: the pointer that replaces it. *)
Definition all_values {V} (ps : list (Pointer V)) : option (list (list (bytes * V))) :=
  mapM (λ p, match p with Values vals => Some vals | _ => None end) ps.
Definition pointer_clean {V} (conf : Config) (depth : nat) (n : Node V) : result HamtError (Pointer V) :=
  let len := length (pointers n) in
  if (len =? 0)%nat then Err ZeroPointers
  else if (depth <? min_data_depth conf)%nat then Ok (Dirty n)
  else if (len =? 1)%nat then
    match pointers n with
    | Values vals :: _ => Ok (Values vals)
    | _ => Ok (Dirty n)
    end
  else if (len <=? max_array_width conf)%nat then
    match all_values (pointers n) with
    | None => Ok (Dirty n)
    | Some children =>
        if (max_array_width conf <? sum_list (length <$> children))%nat then Ok (Dirty n)
        else Ok (Values (merge_sort kv_le (concat children)))
    end
  else Ok (Dirty n).

(** [Node::clean]: [None] when the child can be removed. *)
Definition node_clean {V} (conf : Config) (depth : nat) (n : Node V) : result HamtError (option (Pointer V)) :=
  match pointer_clean conf depth n with
  | Ok p => Ok (Some p)
  | Err ZeroPointers => if (depth <? min_data_depth conf)%nat then Ok None else Err ZeroPointers
  | Err e => Err e
  end.

Section hamt.
Context `{BS : Blockstore} {V : Type} `{EqDecision V} `{CB : !Cbor (NodeBlock V)}.
Context (conf : Config) (H : bytes → bytes).

(** ** Loading and storing nodes *)

Definition check_pointer (depth : nat) (p : Pointer V) : result HamtError unit :=
  match p with
  | Values kvs =>
      if (depth <? min_data_depth conf)%nat
      then Err (Dynamic "values not allowed below the minimum data depth ({} < {})")
      else if (length kvs =? 0)%nat then Err (Dynamic "empty HAMT bucket")
      else if (max_array_width conf <? length kvs)%nat then Err (Dynamic "too many items in bucket {} > {}")
      else if negb (keys_increase kvs) then Err (Dynamic "duplicate or unsorted keys in bucket")
      else Ok tt
  | Link cid _ =>
      if negb (cid_codec cid =? DAG_CBOR) then Err (Dynamic "hamt nodes must be DagCBOR, not {}") else Ok tt
  | Dirty _ => Err (Dynamic "fresh node can't be dirty")
  end.
Fixpoint check_pointers (depth : nat) (ps : list (Pointer V)) : result HamtError unit :=
  match ps with
  | [] => Ok tt
  | p :: ps => match check_pointer depth p with Ok _ => check_pointers depth ps | Err e => Err e end
  end.

Definition node_load (s : Store) (k : Cid) (depth : nat) : result HamtError (Node V) :=
  match get_cbor (T := NodeBlock V) s k with
  | Err e => Err (Dynamic e)
  | Ok None => Err CidNotFound
  | Ok (Some (bz, blocks)) =>
      match bf_deserialize bz with
      | Err e => Err (Dynamic e)
      | Ok bf =>
          let ps := pointer_deserialize <$> blocks in
          if Z.shiftl 1 (bit_width conf) <? Z.of_nat (length ps)
          then Err (Dynamic "number of pointers ({}) exceeds that allowed by the bitwidth ({})")
          else if negb (count_ones bf =? length ps)%nat
          then Err (Dynamic "number of pointers ({}) doesn't match bitfield ({})")
          else if (length ps =? 0)%nat && negb (depth =? 0)%nat then Err ZeroPointers
          else match check_pointers depth ps with
               | Err e => Err e
               | Ok _ => Ok (mkNode bf ps)
               end
      end
  end.

(** [store.put_cbor(node, Code::Blake2b256)]. *)
Definition put_node (s : Store) (n : Node V) : result HamtError Cid * Store :=
  match node_serialize n with
  | Err e => (Err (Dynamic e), s)
  | Ok b => let '(r, s') := put_cbor s b BLAKE2B_256 in
            (match r with Ok c => Ok c | Err e => Err (Dynamic e) end, s')
  end.

(** [cache.get_or_try_init(|| Node::load(..))]. *)
Definition load_cached (s : Store) (cid : Cid) (cache : option (Node V)) (depth : nat)
    : result HamtError (Node V) :=
  match cache with Some n => Ok n | None => node_load s cid depth end.

(** ** Lookup

    A lookup fills the caches of the links it follows, so it returns the node
    too. Every level consumes at least one bit of the hash, and with none left
    [hb_next] fails with [MaxDepth]: the fuel of the operations, one more than
    the bits of a hash, is enough. A node of which a bit is set has a
    pointer there, as [node_load] checks: the indexing of the source does
    not panic. *)

Fixpoint get_value (fuel : nat) (s : Store) (hb : HashBits) (depth : nat) (key : bytes) (n : Node V)
    : result HamtError (option (bytes * V)) * Node V :=
  match hb_next (bit_width conf) hb with
  | Err e => (Err e, n)
  | Ok (idx, hb) =>
      if negb (test_bit idx (bitfield n)) then (Ok None, n) else
      let cindex := index_for_bit_pos idx (bitfield n) in
      match pointers n !! cindex with
      | None => (Err (Dynamic "index out of bounds"), n)
      | Some (Values vals) => (Ok (List.find (λ kv, key_eqb key kv.1) vals), n)
      | Some (Link cid cache) =>
          match load_cached s cid cache (S depth), fuel with
          | Err e, _ => (Err e, n)
          | Ok _, O => (Err MaxDepth, n)
          | Ok node, S fuel =>
              let '(r, node) := get_value fuel s hb (S depth) key node in
              (r, set_child cindex (Link cid (Some node)) n)
          end
      | Some (Dirty node) =>
          match fuel with
          | O => (Err MaxDepth, n)
          | S fuel =>
              let '(r, node) := get_value fuel s hb (S depth) key node in
              (r, set_child cindex (Dirty node) n)
          end
      end
  end.

(** ** Insertion

    The result: the old value and whether the data has been modified. A full
    bucket is emptied before its pairs move to a new node: when that fails, the
    bucket stays empty. *)

(** The loop that inserts the pairs of a bucket into the new node. *)
Definition push_down (put : bytes → V → Node V → result HamtError (option V * bool) * Node V) :=
  fix go (kvs : list (bytes * V)) (sub : Node V) : result HamtError unit * Node V :=
  match kvs with
  | [] => (Ok tt, sub)
  | (k, v) :: kvs =>
      match put k v sub with
      | (Ok _, sub) => go kvs sub
      | (Err e, sub) => (Err e, sub)
      end
  end.

Fixpoint modify_value (fuel : nat) (s : Store) (overwrite : bool) (hb : HashBits) (depth : nat)
    (key : bytes) (value : V) (n : Node V) : result HamtError (option V * bool) * Node V :=
  match hb_next (bit_width conf) hb with
  | Err e => (Err e, n)
  | Ok (idx, hb) =>
      if negb (test_bit idx (bitfield n)) then
        if (min_data_depth conf <=? depth)%nat
        then (Ok (None, true), insert_child idx (Values [(key, value)]) n)
        else match fuel with
             | O => (Err MaxDepth, n)
             | S fuel =>
                 match modify_value fuel s overwrite hb (S depth) key value Node_default with
                 | (Err e, _) => (Err e, n)
                 | (Ok _, sub) => (Ok (None, true), insert_child idx (Dirty sub) n)
                 end
             end
      else
      let cindex := index_for_bit_pos idx (bitfield n) in
      match pointers n !! cindex with
      | None => (Err (Dynamic "index out of bounds"), n)
      | Some (Link cid cache) =>
          match load_cached s cid cache (S depth), fuel with
          | Err e, _ => (Err e, n)
          | Ok _, O => (Err MaxDepth, n)
          | Ok node, S fuel =>
              match modify_value fuel s overwrite hb (S depth) key value node with
              | (Ok (old, true), node) => (Ok (old, true), set_child cindex (Dirty node) n)
              | (r, node) => (r, set_child cindex (Link cid (Some node)) n)
              end
          end
      | Some (Dirty node) =>
          match fuel with
          | O => (Err MaxDepth, n)
          | S fuel =>
              let '(r, node) := modify_value fuel s overwrite hb (S depth) key value node in
              (r, set_child cindex (Dirty node) n)
          end
      | Some (Values vals) =>
          match position (λ p, key_eqb p.1 key) vals with
          | Some i =>
              match vals !! i with
              | Some (k, old) =>
                  if overwrite
                  then (Ok (Some old, negb (bool_decide (old = value))),
                        set_child cindex (Values (<[i := (k, value)]> vals)) n)
                  else (Ok (None, false), n)
              | None => (Err (Dynamic "index out of bounds"), n)
              end
          | None =>
              if (max_array_width conf <=? length vals)%nat then
                match fuel with
                | O => (Err MaxDepth, n)
                | S fuel =>
                    match modify_value fuel s overwrite hb (S depth) key value Node_default with
                    | (Err e, _) => (Err e, set_child cindex (Values []) n)
                    | (Ok modified, sub) =>
                        match push_down (λ k v sub,
                                modify_value fuel s overwrite (mkHashBits (H k) (hb_consumed hb))
                                  (S depth) k v sub) vals sub with
                        | (Ok _, sub) => (Ok modified, set_child cindex (Dirty sub) n)
                        | (Err e, _) => (Err e, set_child cindex (Values []) n)
                        end
                    end
                end
              else
                let i := default (length vals) (position (λ c, key_lt key c.1) vals) in
                (Ok (None, true), set_child cindex (Values (vec_insert i (key, value) vals)) n)
          end
      end
  end.

(** ** Deletion *)

(** What [rm_value] does with a child that lost a pair. *)
Definition cleaned (depth cindex : nat) (idx : Z) (deleted : bytes * V) (node n : Node V)
    : result HamtError (option (bytes * V)) * Node V :=
  match node_clean conf depth node with
  | Err e => (Err e, set_child cindex (Dirty node) n)
  | Ok None => (Ok (Some deleted), rm_child cindex idx n)
  | Ok (Some p) => (Ok (Some deleted), set_child cindex p n)
  end.

Fixpoint rm_value (fuel : nat) (s : Store) (hb : HashBits) (depth : nat) (key : bytes) (n : Node V)
    : result HamtError (option (bytes * V)) * Node V :=
  match hb_next (bit_width conf) hb with
  | Err e => (Err e, n)
  | Ok (idx, hb) =>
      if negb (test_bit idx (bitfield n)) then (Ok None, n) else
      let cindex := index_for_bit_pos idx (bitfield n) in
      match pointers n !! cindex with
      | None => (Err (Dynamic "index out of bounds"), n)
      | Some (Link cid cache) =>
          match load_cached s cid cache (S depth), fuel with
          | Err e, _ => (Err e, n)
          | Ok _, O => (Err MaxDepth, n)
          | Ok node, S fuel =>
              match rm_value fuel s hb (S depth) key node with
              | (Ok (Some deleted), node) => cleaned depth cindex idx deleted node n
              | (r, node) => (r, set_child cindex (Link cid (Some node)) n)
              end
          end
      | Some (Dirty node) =>
          match fuel with
          | O => (Err MaxDepth, n)
          | S fuel =>
              match rm_value fuel s hb (S depth) key node with
              | (Ok (Some deleted), node) => cleaned depth cindex idx deleted node n
              | (r, node) => (r, set_child cindex (Dirty node) n)
              end
          end
      | Some (Values vals) =>
          match position (λ p, key_eqb key p.1) vals with
          | None => (Ok None, n)
          | Some i =>
              match vals !! i with
              | None => (Err (Dynamic "index out of bounds"), n)
              | Some old =>
                  (Ok (Some old),
                   if (length vals =? 1)%nat then rm_child cindex idx n
                   else set_child cindex (Values (vec_remove i vals)) n)
              end
          end
      end
  end.

(** ** Flush *)

(** The loop over the pointers of a node. *)
Definition flush_pointers (flush_node : Store → Node V → result HamtError unit * Node V * Store) :=
  fix go (s : Store) (ps : list (Pointer V)) : result HamtError unit * list (Pointer V) * Store :=
  match ps with
  | [] => (Ok tt, [], s)
  | Dirty node :: ps =>
      match flush_node s node with
      | (Err e, node, s) => (Err e, Dirty node :: ps, s)
      | (Ok _, node, s) =>
          match put_node s node with
          | (Err e, s) => (Err e, Dirty node :: ps, s)
          | (Ok cid, s) => let '(r, ps, s) := go s ps in (r, Link cid (Some node) :: ps, s)
          end
      end
  | p :: ps => let '(r, ps, s) := go s ps in (r, p :: ps, s)
  end.

Fixpoint node_flush (s : Store) (n : Node V) {struct n} : result HamtError unit * Node V * Store :=
  match n with
  | mkNode bf ps => let '(r, ps, s) := flush_pointers node_flush s ps in (r, mkNode bf ps, s)
  end.

(** ** Hamt *)

Record HamtImpl := mkHamt { hamt_root : Node V; flushed_cid : option Cid }.

Definition fuel_for (key : bytes) : nat := 8 * length (H key).

Definition new_with_config : HamtImpl := mkHamt Node_default None.
Definition load_with_config (s : Store) (cid : Cid) : result HamtError HamtImpl :=
  match node_load s cid 0 with
  | Err e => Err e
  | Ok root => Ok (mkHamt root (Some cid))
  end.
Definition set_root (s : Store) (cid : Cid) (h : HamtImpl) : result HamtError unit * HamtImpl :=
  match node_load s cid 0 with
  | Err e => (Err e, h)
  | Ok root => (Ok tt, mkHamt root (Some cid))
  end.

Definition node_set (s : Store) (key : bytes) (value : V) (overwrite : bool) (n : Node V) :=
  modify_value (fuel_for key) s overwrite (mkHashBits (H key) 0) 0 key value n.
Definition node_get (s : Store) (key : bytes) (n : Node V) :=
  get_value (fuel_for key) s (mkHashBits (H key) 0) 0 key n.
Definition remove_entry (s : Store) (key : bytes) (n : Node V) :=
  rm_value (fuel_for key) s (mkHashBits (H key) 0) 0 key n.

Definition set (s : Store) (key : bytes) (value : V) (h : HamtImpl)
    : result HamtError (option V) * HamtImpl :=
  match node_set s key value true (hamt_root h) with
  | (Err e, root) => (Err e, mkHamt root (flushed_cid h))
  | (Ok (old, modified), root) => (Ok old, mkHamt root (if modified then None else flushed_cid h))
  end.
Definition set_if_absent (s : Store) (key : bytes) (value : V) (h : HamtImpl)
    : result HamtError bool * HamtImpl :=
  match node_set s key value false (hamt_root h) with
  | (Err e, root) => (Err e, mkHamt root (flushed_cid h))
  | (Ok (_, set), root) => (Ok set, mkHamt root (if set then None else flushed_cid h))
  end.
Definition get (s : Store) (key : bytes) (h : HamtImpl) : result HamtError (option V) * HamtImpl :=
  let '(r, root) := node_get s key (hamt_root h) in
  (match r with Ok o => Ok (snd <$> o) | Err e => Err e end, mkHamt root (flushed_cid h)).
Definition contains_key (s : Store) (key : bytes) (h : HamtImpl) : result HamtError bool * HamtImpl :=
  let '(r, h) := get s key h in
  (match r with Ok o => Ok (bool_decide (is_Some o)) | Err e => Err e end, h).
Definition delete_key (s : Store) (key : bytes) (h : HamtImpl)
    : result HamtError (option (bytes * V)) * HamtImpl :=
  match remove_entry s key (hamt_root h) with
  | (Ok (Some kv), root) => (Ok (Some kv), mkHamt root None)
  | (r, root) => (r, mkHamt root (flushed_cid h))
  end.
Definition flush (s : Store) (h : HamtImpl) : result HamtError Cid * HamtImpl * Store :=
  match flushed_cid h with
  | Some cid => (Ok cid, h, s)
  | None =>
      match node_flush s (hamt_root h) with
      | (Err e, root, s) => (Err e, mkHamt root None, s)
      | (Ok _, root, s) =>
          match put_node s root with
          | (Err e, s) => (Err e, mkHamt root None, s)
          | (Ok cid, s) => (Ok cid, mkHamt root (Some cid), s)
          end
      end
  end.
Definition is_empty (h : HamtImpl) : bool := (length (pointers (hamt_root h)) =? 0)%nat.
Definition clear (h : HamtImpl) : HamtImpl :=
  if is_empty h then h else mkHamt Node_default None.
End hamt.

(** ** Default configurations *)

Definition config_with_bit_width (bit_width : Z) : Config :=
  mkConfig bit_width (min_data_depth Config_default) (max_array_width Config_default).
Definition load `{BS : Blockstore} {V} `{CB : !Cbor (NodeBlock V)} (s : Store) (cid : Cid) : result HamtError HamtImpl :=
  load_with_config Config_default s cid.
Definition load_with_bit_width `{BS : Blockstore} {V} `{CB : !Cbor (NodeBlock V)} (s : Store) (cid : Cid) (bit_width : Z)
    : result HamtError HamtImpl :=
  load_with_config (config_with_bit_width bit_width) s cid.
