(* ===== verification/HamtRep.v ===== *)
(** * What a HAMT node represents

    Buckets as finite maps, nodes as partial functions from slots to pointers,
    and the canonical form: which map a node at a given depth stands for. *)

From S2P Require Import Prelude Effects Address Types HamtBits HamtCommon Hamt.
From stdpp Require Import gmap strings list fin_maps sorting.
From Stdlib Require Import ZArith Lia.
#[local] Open Scope Z_scope.

Section views.
Context {V : Type}.
Implicit Types (n : Node V) (g : Z → option (Pointer V)).

Definition has_view n g : Prop := slots (bitfield n) (pointers n) g.

Lemma view_default : has_view Node_default (λ _, None).
Proof. apply slots_default. Qed.
Lemma view_test n g i : has_view n g → 0 ≤ i < 256 → test_bit i (bitfield n) = bool_decide (is_Some (g i)).
Proof. apply slots_test. Qed.
Lemma view_lookup n g i p : has_view n g → 0 ≤ i < 256 → g i = Some p →
  pointers n !! index_for_bit_pos i (bitfield n) = Some p.
Proof. apply slots_lookup. Qed.
Lemma view_insert n g i p : has_view n g → 0 ≤ i < 256 → g i = None →
  has_view (insert_child i p n) (upd i (Some p) g).
Proof. apply slots_insert. Qed.
Lemma view_set n g i q p : has_view n g → 0 ≤ i < 256 → g i = Some q →
  has_view (set_child (index_for_bit_pos i (bitfield n)) p n) (upd i (Some p) g).
Proof. apply slots_set. Qed.
Lemma view_remove n g i q : has_view n g → 0 ≤ i < 256 → g i = Some q →
  has_view (rm_child (index_for_bit_pos i (bitfield n)) i n) (upd i None g).
Proof. apply slots_remove. Qed.
Lemma view_count n g : has_view n g → count_ones (bitfield n) = length (pointers n).
Proof. apply slots_count. Qed.
Lemma view_unique n n' g g' :
  has_view n g → has_view n' g' → (∀ i, 0 ≤ i < 256 → g i = g' i) → n = n'.
Proof.
  destruct n as [b ps], n' as [b' ps']. intros Hv Hv' Hg.
  by destruct (slots_unique _ _ _ _ _ _ Hv Hv' Hg) as [[= ->] [= ->]].
Qed.
End views.

(** ** The canonical form

    [node_rep f s d n m]: the node [n] at depth [d], with [f] levels below it
    (itself included), stands for the map [m] in the store [s]. A slot holds the
    pairs of [m] whose keys take it at this depth: nothing when there are none, a bucket when
    buckets are allowed at this depth and the pairs fit in one, and a node
    otherwise, which a link names by the CID of its canonical block. *)

Section rep.
Context `{BSS : BlockstoreSpec} {V : Type} `{CB : !Cbor (NodeBlock V)}.
Context (conf : Config) (H : bytes → bytes).
Implicit Types (n : Node V) (m : gmap bytes V) (s : Store).

(** A node as it is read from its block. *)
Definition loaded n : Prop :=
  Forall (λ p, match p with Values _ | Link _ None => True | _ => False end) (pointers n).

Definition stored_with (R : Node V → gmap bytes V → Prop) s (c : Cid) m : Prop :=
  ∃ n b bz, loaded n ∧ R n m ∧ node_serialize n = Ok b ∧ to_vec b = Ok bz ∧
    c = block_cid DAG_CBOR BLAKE2B_256 bz ∧ bs_get s c = Ok (Some bz).

Definition pointer_rep (R : Node V → gmap bytes V → Prop) s (d : nat) (p : Pointer V) m : Prop :=
  match p with
  | Values kvs => fits conf d m ∧ bucket kvs m
  | Dirty n => ¬ fits conf d m ∧ R n m
  | Link c cache => ¬ fits conf d m ∧ stored_with R s c m ∧ ∀ n, cache = Some n → R n m
  end.
Definition slot_rep R s d (x : option (Pointer V)) m : Prop :=
  match x with
  | None => m = ∅
  | Some p => m ≠ ∅ ∧ pointer_rep R s d p m
  end.

Fixpoint node_rep (f : nat) s (d : nat) n m : Prop :=
  match f with
  | O => False
  | S f => ∃ g, has_view n g ∧ ∀ i, 0 ≤ i < 256 → slot_rep (node_rep f s (S d)) s d (g i) (sub conf H d i m)
  end.
Definition stored_rep (f : nat) s (d : nat) : Cid → gmap bytes V → Prop := stored_with (node_rep f s d) s.

(** *** Stores only grow *)

Lemma stored_mono_with (R R' : Node V → gmap bytes V → Prop) s s' c m :
  store_le s s' → (∀ n m, R n m → R' n m) → stored_with R s c m → stored_with R' s' c m.
Proof.
  intros Hle HR (n & b & bz & Hl & Hr & Hs & Hz & Hc & Hg). exists n, b, bz. split_and!; auto.
  by eapply store_le_get.
Qed.

Lemma slot_rep_impl (R R' : Node V → gmap bytes V → Prop) s s' d x m :
  store_le s s' → (∀ n m, R n m → R' n m) → slot_rep R s d x m → slot_rep R' s' d x m.
Proof.
  intros Hle HR. destruct x as [[kvs|c cache|n]|]; simpl; [done| | |done].
  - intros (Hne & Hf & Hs & Hc). split_and!; [done..| |by eauto]. by eapply stored_mono_with.
  - intros (Hne & Hf & Hn). eauto.
Qed.

Lemma node_rep_mono f s s' d n m : store_le s s' → node_rep f s d n m → node_rep f s' d n m.
Proof.
  intros Hle. revert d n m. induction f as [|f IH]; intros d n m; [done|].
  intros (g & Hv & Hg). exists g. split; [done|]. intros i Hi.
  eapply slot_rep_impl; [done| |by apply Hg]. intros. by apply IH.
Qed.
Lemma stored_rep_mono f s s' d c m : store_le s s' → stored_rep f s d c m → stored_rep f s' d c m.
Proof. intros Hle. apply stored_mono_with; [done|]. intros. by eapply node_rep_mono. Qed.

(** *** The content determines the CID *)

Lemma loaded_slot n g i p : has_view n g → loaded n → 0 ≤ i < 256 → g i = Some p →
  match p with Values _ | Link _ None => True | _ => False end.
Proof.
  intros (_ & _ & Hp) Hl Hi Hg. unfold loaded in Hl. rewrite Hp, Forall_forall in Hl.
  apply Hl. apply list_elem_of_omap. exists i. split; [apply elem_of_seqZ; lia|done].
Qed.

Lemma stored_unique f s s' d c c' m : stored_rep f s d c m → stored_rep f s' d c' m → c = c'.
Proof.
  revert d c c' m. induction f as [|f IH]; intros d c c' m; [by intros (? & ? & ? & ? & [] & _)|].
  intros (n & b & bz & Hl & (g & Hv & Hg) & Hs & Hz & -> & _) (n' & b' & bz' & Hl' & (g' & Hv' & Hg') & Hs' & Hz' & -> & _).
  assert (n = n') as ->; [|congruence]. eapply view_unique; [done..|]. intros i Hi.
  specialize (Hg i Hi). specialize (Hg' i Hi).
  destruct (g i) as [p|] eqn:E, (g' i) as [p'|] eqn:E'; simpl in Hg, Hg'; [|naive_solver..].
  pose proof (loaded_slot _ _ _ _ Hv Hl Hi E). pose proof (loaded_slot _ _ _ _ Hv' Hl' Hi E').
  destruct Hg as [_ Hg], Hg' as [_ Hg'].
  destruct p as [kvs|? []|], p' as [kvs'|? []|]; simpl in *; try done; try by destruct Hg, Hg'.
  - do 2 f_equal. eapply bucket_unique; [apply Hg|apply Hg'].
  - do 2 f_equal. eapply IH; [apply Hg|apply Hg'].
Qed.
End rep.
