(* ===== verification/HamtMap.v ===== *)
(** * The HAMT is a finite map with a canonical root

    Every operation of Hamt.v on the canonical form: loading a stored node gives
    the node back, lookups answer from the map, insertions and deletions keep the
    form (splitting and collapsing buckets as needed), and a flush stores
    it under a CID its content determines. At the end, the interface
    [HamtOps] and its laws. *)

From S2P Require Import Prelude Effects Address Types HamtBits HamtCommon Hamt HamtRep.
From stdpp Require Import gmap strings list fin_maps sorting.
From Stdlib Require Import ZArith Lia.
#[local] Open Scope Z_scope.

(** ** Nodes survive serialisation *)

Lemma pointers_roundtrip {V} (ps : list (Pointer V)) bs :
  Forall (λ p, match p with Values _ | Link _ None => True | _ => False end) ps →
  pointers_serialize ps = Ok bs → pointer_deserialize <$> bs = ps.
Proof.
  intros Hps. revert bs. induction Hps as [|p ps Hp _ IH]; intros bs; simpl.
  - by intros [= <-].
  - destruct (pointers_serialize ps) as [bs'|]; [|by destruct (pointer_serialize p)].
    destruct p as [|? []|]; try done; simpl; intros [= <-]; csimpl; f_equal; auto.
Qed.

(** The block of a node without dirty pointers; the caches do not matter. *)
Definition no_cache {V} (p : Pointer V) : Pointer V := match p with Link c _ => Link c None | _ => p end.
Definition drop_caches {V} (n : Node V) : Node V := mkNode (bitfield n) (no_cache <$> pointers n).
Definition not_dirty {V} (p : Pointer V) : Prop := match p with Dirty _ => False | _ => True end.

Lemma serialize_no_dirty {V} (n : Node V) : Forall not_dirty (pointers n) →
  loaded (drop_caches n) ∧ ∃ b, node_serialize n = Ok b ∧ node_serialize (drop_caches n) = Ok b.
Proof.
  destruct n as [bf ps]. unfold drop_caches, loaded, node_serialize. cbn [pointers bitfield]. intros Hps.
  assert (Forall (λ p : Pointer V, match p with Values _ | Link _ None => True | _ => False end) (no_cache <$> ps) ∧
    ∃ bs, pointers_serialize ps = Ok bs ∧ pointers_serialize (no_cache <$> ps) = Ok bs) as (Hl & bs & -> & ->).
  { induction Hps as [|p ps Hp _ (Hl & bs & E1 & E2)]; [split; [constructor|by exists []]|]. csimpl.
    rewrite E1, E2. destruct p; try done; (split; [by constructor|by eexists]). }
  split; [done|]. by eexists.
Qed.

(** ** Loading *)

Section map.
Context `{BSS : BlockstoreSpec} {V : Type} `{EqDecision V} `{CB : !Cbor (NodeBlock V)} `{CS : !CborSpec (NodeBlock V)}.
Context (conf : Config) (H : bytes → bytes).
Context (HH : ∀ k, hash_ok (H k)) (Hw : 1 ≤ bit_width conf ≤ 8).
Context (Hmax : (1 ≤ max_array_width conf)%nat) (Hmin : (min_data_depth conf < levels (bit_width conf))%nat).
Implicit Types (n : Node V) (m : gmap bytes V) (s : Store).

Abbreviation w := (bit_width conf).
Abbreviation slot := (slot_of conf H).
Abbreviation subm := (sub conf H).
Abbreviation nrep := (node_rep conf H).
Abbreviation srep := (stored_rep conf H).

Lemma rep_checks f s d n g m :
  has_view n g → loaded n → (∀ i, 0 ≤ i < 256 → slot_rep conf (nrep f s (S d)) s d (g i) (subm d i m)) →
  check_pointers conf d (pointers n) = Ok tt.
Proof.
  intros Hv Hl Hg.
  assert (Forall (λ p, check_pointer conf d p = Ok tt) (pointers n)) as Hall.
  { destruct Hv as (_ & _ & Hp). unfold loaded in Hl. rewrite Forall_forall in *. intros p Hin. specialize (Hl p Hin).
    rewrite Hp in Hin. apply list_elem_of_omap in Hin as (i & Hi%elem_of_seqZ & Hgi).
    specialize (Hg i ltac:(lia)). rewrite Hgi in Hg. destruct Hg as [Hne Hr].
    destruct p as [kvs|c [|]|]; try done.
    - destruct Hr as ((H1 & H2) & Hb). simpl. pose proof (bucket_length _ _ Hb) as Hlen.
      assert (size (subm d i m) ≠ 0%nat) by (by rewrite map_size_empty_iff).
      destruct (Nat.ltb_spec d (min_data_depth conf)); [lia|]. destruct (Nat.eqb_spec (length kvs) 0); [lia|].
      destruct (Nat.ltb_spec (max_array_width conf) (length kvs)); [lia|].
      by rewrite (bucket_keys_increase _ _ Hb).
    - destruct Hr as (_ & (? & ? & ? & _ & _ & _ & _ & -> & _) & _). done. }
  induction Hall as [|p ps Hp _ IH]; simpl; [done|]. by rewrite Hp.
Qed.

(** At most one pointer per index. *)
Lemma rep_width f s d n g m : (d < levels w)%nat →
  has_view n g → (∀ i, 0 ≤ i < 256 → slot_rep conf (nrep f s (S d)) s d (g i) (subm d i m)) →
  Z.of_nat (length (pointers n)) ≤ 2 ^ w.
Proof.
  intros Hd (_ & _ & ->) Hg. pose proof (Z.pow_le_mono_r 2 w 8 ltac:(lia) ltac:(lia)) as H2.
  assert (0 < 2 ^ w) by (apply Z.pow_pos_nonneg; lia). change (2 ^ 8) with 256 in H2.
  replace 256 with (2 ^ w + (256 - 2 ^ w)) by lia. rewrite seqZ_app, omap_app, length_app by lia.
  assert (omap g (seqZ (0 + 2 ^ w) (256 - 2 ^ w)) = []) as ->.
  { rewrite (omap_same _ (λ _, None)); [by induction (seqZ _ _)|]. intros i Hi%elem_of_seqZ.
    specialize (Hg i ltac:(lia)). destruct (g i) as [p|]; [|done]. destruct Hg as [Hne _]. destruct Hne.
    apply map_eq. intros k. rewrite lookup_empty. apply eq_None_not_Some. intros [v [_ Hk]%sub_lookup].
    pose proof (slot_range conf H Hw d k Hd). lia. }
  simpl. pose proof (length_omap_le g (seqZ 0 (2 ^ w))) as Hle. rewrite length_seqZ in Hle. lia.
Qed.

Lemma load_ok f s d c m : (f + d = levels w)%nat → (d ≠ 0%nat → m ≠ ∅) →
  srep f s d c m → ∃ n, node_load conf s c d = Ok n ∧ nrep f s d n m.
Proof.
  intros Hf Hne (n & b & bz & Hl & Hr & Hs & Hz & -> & Hget). exists n. split; [|done].
  destruct f as [|f]; [done|]. destruct Hr as (g & Hv & Hg).
  unfold node_load, get_cbor. simpl. rewrite Hget. destruct (from_to_vec b) as (bz' & E1 & E2).
  assert (bz' = bz) as -> by congruence. rewrite E2.
  destruct b as [bfz bs]. unfold node_serialize in Hs.
  destruct (pointers_serialize (pointers n)) as [bs'|] eqn:Hps; [|done]. injection Hs as <- <-.
  rewrite bf_roundtrip by apply Hv. cbv zeta. rewrite (pointers_roundtrip _ _ Hl Hps).
  rewrite (view_count _ _ Hv), Nat.eqb_refl. rewrite (rep_checks f s d n g m) by done.
  pose proof (rep_width f s d n g m ltac:(lia) Hv Hg) as Hwd. rewrite Z.shiftl_1_l.
  destruct (Z.ltb_spec (2 ^ w) (Z.of_nat (length (pointers n)))); [lia|]. simpl negb. cbv iota.
  replace ((length (pointers n) =? 0)%nat && negb (d =? 0)%nat) with false; [by destruct n|].
  destruct (Nat.eqb_spec d 0) as [|Hd]; [by rewrite andb_false_r|]. rewrite andb_true_r. symmetry. apply Nat.eqb_neq.
  intros Hnil%nil_length_inv. specialize (Hne Hd). apply map_choose in Hne as (k & v & Hk).
  pose proof (slot_range conf H Hw d k ltac:(lia)) as [_ Hr].
  specialize (Hg _ Hr). destruct (g (slot d k)) as [p|] eqn:Hp.
  - pose proof (view_lookup _ _ _ _ Hv Hr Hp) as Hx. by rewrite Hnil in Hx.
  - assert (subm d (slot d k) m !! k = Some v) as Hx by (by rewrite sub_at). by rewrite Hg in Hx.
Qed.

(** ** One level *)

(** Replacing what one slot holds. *)
Lemma rep_update f s d n n' g m m' i x :
  has_view n g → (∀ j, 0 ≤ j < 256 → slot_rep conf (nrep f s (S d)) s d (g j) (subm d j m)) →
  has_view n' (upd i x g) → slot_rep conf (nrep f s (S d)) s d x (subm d i m') →
  (∀ j, j ≠ i → subm d j m' = subm d j m) → nrep (S f) s d n' m'.
Proof.
  intros Hv Hg Hv' Hx Hj. exists (upd i x g). split; [done|]. intros j Hrange. unfold upd.
  case_decide as E; [by subst|]. rewrite Hj by done. by apply Hg.
Qed.

Lemma child_load f s d c cache m : (f + S d = levels w)%nat → m ≠ ∅ →
  pointer_rep conf (nrep f s (S d)) s d (Link c cache) m →
  ∃ node, load_cached conf s c cache (S d) = Ok node ∧ nrep f s (S d) node m.
Proof.
  intros Hf Hne (_ & Hst & Hc). destruct cache as [node|]; simpl.
  - exists node. auto.
  - apply (load_ok f); [done..|]. exact Hst.
Qed.

(** Enter the slot of a key: its index, whether it is filled, its pointer. *)
Ltac enter_slot k Hv Hg Hi Hgi Hs p :=
  match type of Hv with has_view ?n ?g =>
    match goal with |- context [hb_next _ (mkHashBits _ (consumed_at _ ?d))] =>
      rewrite (hb_next_at w Hw) by (done || lia);
      change (idx_at w (H k) d) with (slot d k); rewrite (view_test _ _ _ Hv Hi);
      pose proof (Hg _ Hi) as Hs;
      destruct (g (slot d k)) as [p|] eqn:Hgi; cbn [slot_rep] in Hs;
      [rewrite bool_decide_true by eauto|rewrite bool_decide_false by (by intros [])];
      cbv zeta; simpl negb; cbv iota; [rewrite (view_lookup _ _ _ _ Hv Hi Hgi)|]
    end
  end.

(** ** Lookup *)

Lemma get_value_ok f fuel s d n m k : (f + d = levels w)%nat → (f ≤ fuel)%nat → nrep f s d n m →
  ∃ n', get_value conf fuel s (mkHashBits (H k) (consumed_at w d)) d k n = (Ok ((λ v, (k, v)) <$> m !! k), n') ∧
    nrep f s d n' m.
Proof.
  revert fuel d n m. induction f as [|f IH]; intros [|fuel] d n m Hf Hfuel; [done..|lia|]. intros (g & Hv & Hg).
  pose proof (slot_range conf H Hw d k ltac:(lia)) as [_ Hi].
  assert (nrep (S f) s d n m) as Hn by (by exists g).
  cbn [get_value]. rewrite <-(sub_at conf H d m k). enter_slot k Hv Hg Hi Hgi Hs p.
  2:{ exists n. by rewrite Hs, lookup_empty. }
  destruct Hs as [Hne Hs]. destruct p as [kvs|c cache|node].
  - exists n. split; [|done]. do 2 f_equal. apply bucket_find, Hs.
  - destruct (child_load f s d c cache _ ltac:(lia) Hne Hs) as (node & -> & Hr).
    destruct (IH fuel (S d) node _ ltac:(lia) ltac:(lia) Hr) as (node' & -> & Hr').
    eexists. split; [reflexivity|]. eapply rep_update; [done..|by eapply view_set| |done].
    split; [done|]. destruct Hs as (Hnf & Hst & _). split_and!; [done..|]. by intros ? [= <-].
  - destruct Hs as [Hnf Hr]. destruct (IH fuel (S d) node _ ltac:(lia) ltac:(lia) Hr) as (node' & -> & Hr').
    eexists. split; [reflexivity|]. eapply rep_update; [done..|by eapply view_set| |done]. by split_and!.
Qed.

(** ** Insertion *)

Lemma rep_default f s d : nrep (S f) s d Node_default ∅.
Proof. exists (λ _, None). split; [apply view_default|]. intros i _. apply sub_empty. Qed.

Lemma push_down_ok f s d put :
  (∀ sub m k v, nrep f s d sub m → coherent conf H d (<[k := v]> m) → m !! k = None →
     ∃ r sub', put k v sub = (Ok r, sub') ∧ nrep f s d sub' (<[k := v]> m)) →
  ∀ kvs sub m, NoDup kvs.*1 → (∀ k, k ∈ kvs.*1 → m !! k = None) → nrep f s d sub m →
    coherent conf H d (list_to_map kvs ∪ m) →
    ∃ sub', push_down put kvs sub = (Ok tt, sub') ∧ nrep f s d sub' (list_to_map kvs ∪ m).
Proof.
  intros Hput kvs. induction kvs as [|[k v] kvs IH]; intros sub0 m Hnd Hnew Hr Hc.
  - exists sub0. split; [done|]. by rewrite list_to_map_nil, (left_id_L ∅ (∪)).
  - csimpl in Hnd. csimpl in Hnew. apply NoDup_cons in Hnd as [Hni Hnd].
    assert (list_to_map kvs ∪ <[k := v]> m = list_to_map ((k, v) :: kvs) ∪ m) as E.
    { rewrite list_to_map_cons, <-insert_union_l. symmetry. apply insert_union_r. by apply not_elem_of_list_to_map_1. }
    rewrite <-E in *. destruct (Hput sub0 m k v Hr) as (r & sub1 & E1 & Hr1).
    + eapply coherent_dom; [|exact Hc]. intros k' Hk'. apply lookup_union_is_Some. by right.
    + apply Hnew. in_cons.
    + destruct (IH sub1 (<[k := v]> m) Hnd) as (sub2 & E2 & Hr2); [|done..|].
      * intros k' Hk'. rewrite lookup_insert_ne by (intros ->; done). apply Hnew. in_cons.
      * exists sub2. split; [|done]. simpl. rewrite E1. exact E2.
Qed.

(** [modify_value] at one depth, as the next depth up uses it. *)
Definition modifies (f fuel : nat) s (d : nat) : Prop := ∀ ow n m k v,
  nrep f s d n m → coherent conf H d (<[k := v]> m) →
  ∃ n', modify_value conf H fuel s ow (mkHashBits (H k) (consumed_at w d)) d k v n =
      (Ok (set_result ow (m !! k) v), n') ∧ nrep f s d n' (put_kv ow k v m).

(** Splitting a full bucket. *)
Lemma split_ok f fuel s d ow kvs m k v : modifies (S f) fuel s d →
  bucket kvs m → m !! k = None → coherent conf H d (<[k := v]> m) →
  ∃ sub sub', modify_value conf H fuel s ow (mkHashBits (H k) (consumed_at w d)) d k v Node_default
      = (Ok (None, true), sub) ∧
    push_down (λ k v sub, modify_value conf H fuel s ow (mkHashBits (H k) (consumed_at w d)) d k v sub) kvs sub
      = (Ok tt, sub') ∧ nrep (S f) s d sub' (<[k := v]> m).
Proof.
  intros Hmod Hb Hk Hc.
  destruct (Hmod ow Node_default ∅ k v (rep_default f s d) (coherent_single conf H _ _ _ _ Hc)) as (sub & E1 & Hr).
  unfold put_kv in Hr. rewrite lookup_empty in E1, Hr. exists sub.
  assert (list_to_map kvs ∪ {[k := v]} = <[k := v]> m) as Heq.
  { rewrite (list_to_map_proper kvs (map_to_list m)), list_to_map_to_list;
      [|by eapply bucket_NoDup|apply Hb]. symmetry. by apply insert_union_singleton_r. }
  destruct (push_down_ok (S f) s d
    (λ k v sub, modify_value conf H fuel s ow (mkHashBits (H k) (consumed_at w d)) d k v sub)) with (kvs := kvs) (sub := sub)
    (m := {[k := v]} : gmap bytes V) as (sub' & E2 & Hr').
  - intros sub0 m0 k0 v0 Hr0 Hc0 Hk0. destruct (Hmod ow sub0 m0 k0 v0 Hr0 Hc0) as (n' & E & Hn').
    unfold put_kv in Hn'. rewrite Hk0 in E, Hn'. eauto.
  - by eapply bucket_NoDup.
  - intros k' (kv & -> & Hin)%list_elem_of_fmap. destruct kv as [k' v']. apply (bucket_elem _ _ _ _ Hb) in Hin.
    apply lookup_singleton_ne. simpl. intros ->. congruence.
  - exact Hr.
  - by rewrite Heq.
  - exists sub'. split_and!; [done..|]. by rewrite <-Heq.
Qed.

(** The bucket of the key: overwrite, insert in order, or split. *)
Lemma bucket_set_ok f fuel s d ow n g m k v kvs : (S f + d = levels w)%nat → modifies f fuel s (S d) →
  has_view n g → (∀ i, 0 ≤ i < 256 → slot_rep conf (nrep f s (S d)) s d (g i) (subm d i m)) →
  0 ≤ slot d k < 256 → g (slot d k) = Some (Values kvs) → coherent conf H (S d) (<[k := v]> (subm d (slot d k) m)) →
  (∀ n' x, has_view n' (upd (slot d k) x g) →
    slot_rep conf (nrep f s (S d)) s d x (put_kv ow k v (subm d (slot d k) m)) →
    nrep (S f) s d n' (put_kv ow k v m)) →
  fits conf d (subm d (slot d k) m) ∧ bucket kvs (subm d (slot d k) m) →
  let cindex := index_for_bit_pos (slot d k) (bitfield n) in
  ∃ n', match position (λ p, key_eqb p.1 k) kvs with
        | Some i =>
            match kvs !! i with
            | Some (k', old) =>
                if ow
                then (Ok (Some old, negb (bool_decide (old = v))), set_child cindex (Values (<[i := (k', v)]> kvs)) n)
                else (Ok (None, false), n)
            | None => (Err (Dynamic "index out of bounds"), n)
            end
        | None =>
            if (max_array_width conf <=? length kvs)%nat then
              match modify_value conf H fuel s ow (mkHashBits (H k) (consumed_at w (S d))) (S d) k v Node_default with
              | (Err e, _) => (Err e, set_child cindex (Values []) n)
              | (Ok modified, sub) =>
                  match push_down (λ k v sub, modify_value conf H fuel s ow
                          (mkHashBits (H k) (consumed_at w (S d))) (S d) k v sub) kvs sub with
                  | (Ok _, sub) => (Ok modified, set_child cindex (Dirty sub) n)
                  | (Err e, _) => (Err e, set_child cindex (Values []) n)
                  end
              end
            else (Ok (None, true), set_child cindex
                   (Values (vec_insert (default (length kvs) (position (λ c, key_lt k c.1) kvs)) (k, v) kvs)) n)
        end = (Ok (set_result ow (subm d (slot d k) m !! k) v), n') ∧ nrep (S f) s d n' (put_kv ow k v m).
Proof.
  intros Hf Hmod Hv Hg Hi Hgi Hcs Hup [[Hd Hsz] Hb] cindex. pose proof (bucket_position _ _ k Hb) as Hp.
  set (mi := subm d (slot d k) m) in *. assert (put_kv ow k v mi ≠ ∅ ∨ mi = ∅) as Hne by apply put_kv_non_empty.
  destruct (position _ kvs) as [j|].
  - destruct Hp as (l1 & old & l2 & -> & <- & Hk). rewrite list_lookup_middle by done. rewrite Hk.
    destruct Hne as [Hne|Hne]; [|by rewrite Hne in Hk]. unfold put_kv in Hup, Hne |- *. rewrite Hk in Hup, Hne.
    assert (m !! k = Some old) as Hkm by (by rewrite <-(sub_at conf H d)). rewrite Hkm in Hup |- *.
    destruct ow; [|exists n; split; [done|by exists g]].
    eexists. split; [reflexivity|]. eapply Hup; [by eapply view_set|].
    rewrite insert_app_r_alt, Nat.sub_diag by done. split; [done|]. split; [|by eapply bucket_update].
    split; [done|]. rewrite map_size_insert_Some by eauto. done.
  - rewrite Hp. assert (size (<[k := v]> mi) = S (size mi)) as Hsz' by (by apply map_size_insert_None).
    pose proof (bucket_length _ _ Hb) as Hlen. unfold put_kv in Hup at 1. rewrite Hp in Hup.
    destruct (Nat.leb_spec (max_array_width conf) (length kvs)).
    + destruct f as [|f].
      { replace (S d) with (levels w) in Hcs by lia. apply (coherent_last conf H HH Hw) in Hcs. lia. }
      destruct (split_ok f fuel s (S d) ow kvs mi k v Hmod Hb Hp Hcs) as (sub & sub' & -> & -> & Hr).
      eexists. split; [reflexivity|]. eapply Hup; [by eapply view_set|]. split; [apply insert_non_empty|].
      split; [unfold fits; lia|done].
    + eexists. split; [reflexivity|]. eapply Hup; [by eapply view_set|]. split; [apply insert_non_empty|].
      split; [unfold fits; lia|]. by apply bucket_insert.
Qed.

Lemma modify_value_ok f fuel s d : (f + d = levels w)%nat → (f ≤ fuel)%nat → modifies f fuel s d.
Proof.
  revert fuel d. induction f as [|f IH]; intros [|fuel] d Hf Hfuel ow n m k v; [done..|lia|]. intros (g & Hv & Hg) Hc.
  pose proof (slot_range conf H Hw d k ltac:(lia)) as [_ Hi].
  specialize (IH fuel (S d) ltac:(lia) ltac:(lia)). pose proof (coherent_insert_sub conf H _ _ _ _ Hc) as Hcs.
  assert (∀ n' x, has_view n' (upd (slot d k) x g) →
    slot_rep conf (nrep f s (S d)) s d x (put_kv ow k v (subm d (slot d k) m)) →
    nrep (S f) s d n' (put_kv ow k v m)) as Hup.
  { intros n' x Hv' Hx. eapply (rep_update f s d n n' g m); [done..|by rewrite put_kv_sub|]. intros. by apply put_kv_sub_ne. }
  cbn [modify_value]. rewrite <-(sub_at conf H d m k). enter_slot k Hv Hg Hi Hgi Hs p.
  - destruct Hs as [Hne Hs]. destruct p as [kvs|c cache|node].
    + by apply (bucket_set_ok f fuel s d ow n g m k v kvs).
    + destruct (child_load f s d c cache _ ltac:(lia) Hne Hs) as (node & -> & Hr).
      destruct (IH ow node _ k v Hr Hcs) as (node' & -> & Hr'). destruct Hs as (Hnf & Hst & _).
      destruct (put_kv_non_empty ow k v (subm d (slot d k) m)) as [Hne'|]; [|done].
      destruct (set_result ow _ v) as [old []] eqn:Eres; (eexists; split; [reflexivity|]); eapply Hup;
        try (by eapply view_set); (split; [done|]).
      * split; [|done]. eapply not_fits_mono; [apply put_kv_size|done].
      * rewrite (put_kv_unmodified _ _ _ _ _ Eres) in *. split_and!; [done..|]. by intros ? [= <-].
    + destruct Hs as [Hnf Hr]. destruct (IH ow node _ k v Hr Hcs) as (node' & -> & Hr').
      destruct (put_kv_non_empty ow k v (subm d (slot d k) m)) as [Hne'|]; [|done].
      eexists. split; [reflexivity|]. eapply Hup; [by eapply view_set|]. split; [done|]. split; [|done].
      eapply not_fits_mono; [apply put_kv_size|done].
  - assert (put_kv ow k v (subm d (slot d k) m) = {[k := v]}) as E by (unfold put_kv; by rewrite Hs, lookup_empty).
    rewrite Hs, lookup_empty, E in *. destruct (Nat.leb_spec (min_data_depth conf) d) as [Hd|Hd].
    + eexists. split; [reflexivity|]. eapply Hup; [by apply view_insert|]. split; [apply map_non_empty_singleton|].
      split; [|apply bucket_one]. split; [done|]. by rewrite map_size_singleton.
    + destruct f as [|f]; [lia|]. destruct (IH ow Node_default ∅ k v (rep_default f s (S d)) Hcs) as (sub & -> & Hr).
      unfold put_kv in Hr. rewrite lookup_empty in *. eexists. split; [reflexivity|].
      eapply Hup; [by apply view_insert|]. split; [apply map_non_empty_singleton|]. split; [unfold fits; lia|done].
Qed.

(** ** Deletion *)

(** What the pointers of a node say about the size of its map. *)
Section sizes.
Context (f d : nat) (s : Store) (m : gmap bytes V) (g : Z → option (Pointer V)).

Abbreviation slots_ok l := (∀ i, i ∈ l → slot_rep conf (nrep f s (S d)) s d (g i) (subm d i m)).

Lemma values_concat (l : list Z) children : slots_ok l → all_values (omap g l) = Some children →
  concat children ≡ₚ (l ≫= λ i, map_to_list (subm d i m)).
Proof.
  revert children. induction l as [|i l IH]; intros children Hl Hc; csimpl in *; [by injection Hc as <-|].
  pose proof (Hl i ltac:(in_cons)) as Hi. assert (slots_ok l) as Hl' by (intros; apply Hl; in_cons).
  destruct (g i) as [p|]; simpl in Hi.
  - destruct Hi as [_ Hi]. unfold all_values in Hc. simpl in Hc.
    destruct p as [kvs| |]; simplify_option_eq. simpl. destruct Hi as [_ [_ ->]].
    f_equiv. by apply IH.
  - rewrite Hi, map_to_list_empty. by apply IH.
Qed.

Lemma pointers_le (l : list Z) : slots_ok l →
  (length (omap g l) ≤ length (l ≫= λ i, map_to_list (subm d i m)))%nat.
Proof.
  induction l as [|i l IH]; intros Hl; csimpl; [done|]. rewrite length_app, length_map_to_list.
  pose proof (Hl i ltac:(in_cons)) as Hi. specialize (IH ltac:(intros; apply Hl; in_cons)).
  destruct (g i) as [p|]; simpl in Hi |- *; [|lia]. destruct Hi as [Hne _].
  assert (size (subm d i m) ≠ 0%nat) by (by rewrite map_size_empty_iff). lia.
Qed.

Lemma non_values_large (l : list Z) (p : Pointer V) : (min_data_depth conf ≤ d)%nat → slots_ok l → p ∈ omap g l → (∀ kvs, p ≠ Values kvs) →
  (max_array_width conf < size m)%nat.
Proof.
  intros Hmd Hl (i & Hin & Hgi)%list_elem_of_omap Hp. specialize (Hl i Hin). rewrite Hgi in Hl.
  assert (¬ fits conf d (subm d i m)) as Hnf by (destruct p; [by destruct (Hp kvs)|apply Hl..]).
  pose proof (map_subseteq_size _ _ (sub_subseteq conf H d i m)). unfold fits in Hnf. lia.
Qed.

Lemma all_values_none (ps : list (Pointer V)) : all_values ps = None → ∃ p, p ∈ ps ∧ ∀ kvs, p ≠ Values kvs.
Proof.
  induction ps as [|p ps IH]; [done|]. unfold all_values. simpl. intros Hn.
  destruct p as [kvs|c o|n]; [|exists (Link c o); in_cons|exists (Dirty n); in_cons].
  simpl in Hn. change (mapM _ ps) with (all_values ps) in Hn. destruct (all_values ps) as [cs|]; [done|].
  destruct (IH eq_refl) as (p & Hp & Hv). exists p. in_cons.
Qed.
End sizes.

Lemma node_sizes f s d node m : (S f + d = levels w)%nat → nrep (S f) s d node m →
  (length (pointers node) ≤ size m)%nat ∧ (length (pointers node) = 0%nat → m = ∅) ∧
  ((min_data_depth conf ≤ d)%nat → ∀ p, p ∈ pointers node → (∀ kvs, p ≠ Values kvs) →
     (max_array_width conf < size m)%nat) ∧
  (∀ children, all_values (pointers node) = Some children → concat children ≡ₚ map_to_list m) ∧
  (∀ kvs, Values kvs ∈ pointers node → StronglySorted kv_lt kvs ∧ (length kvs ≤ max_array_width conf)%nat).
Proof.
  intros Hf (g & Hv & Hg). pose proof Hv as (_ & _ & Hps).
  assert (∀ i, i ∈ seqZ 0 256 → slot_rep conf (nrep f s (S d)) s d (g i) (subm d i m)) as Hsl.
  { intros i Hi%elem_of_seqZ. apply Hg. lia. }
  pose proof (sub_partition conf H Hw d m ltac:(lia)) as Hpart.
  assert (∀ children, all_values (pointers node) = Some children → concat children ≡ₚ map_to_list m) as Hcat.
  { intros children Hc. rewrite Hps in Hc. rewrite (values_concat f d s m g _ _ Hsl Hc). by rewrite <-Hpart. }
  split_and!.
  - pose proof (pointers_le f d s m g (seqZ 0 256) Hsl) as Hle.
    rewrite <-Hpart, length_map_to_list in Hle. by rewrite Hps.
  - intros Hl%nil_length_inv. rewrite Hl in Hcat. specialize (Hcat [] eq_refl).
    by apply map_to_list_empty_iff, Permutation_nil_r.
  - intros Hmd p Hp Hn. rewrite Hps in Hp. eapply (non_values_large f d s m g); eauto.
  - done.
  - intros kvs Hin. rewrite Hps in Hin. apply list_elem_of_omap in Hin as (i & Hi & Hgi).
    specialize (Hsl i Hi). rewrite Hgi in Hsl. destruct Hsl as (_ & (_ & Hsz) & Hb).
    rewrite (bucket_length _ _ Hb). split; [apply Hb|done].
Qed.

(** A node that lost a pair becomes the pointer of its map's canonical form. *)
Lemma node_clean_ok f s d node m : (f + S d = levels w)%nat → nrep f s (S d) node m →
  ((min_data_depth conf ≤ d)%nat → (max_array_width conf ≤ size m)%nat) →
  ∃ x, node_clean conf d node = Ok x ∧ slot_rep conf (nrep f s (S d)) s d x m.
Proof.
  intros Hf Hr Hlarge. destruct f as [|f]; [done|].
  destruct (node_sizes f s (S d) node m Hf Hr) as (Hle & He & Hnv & Hcat & Hvals).
  assert (length (pointers node) ≠ 0%nat → m ≠ ∅) as Hne by (intros Hl ->; rewrite map_size_empty in Hle; lia).
  unfold node_clean, pointer_clean. destruct (Nat.eqb_spec (length (pointers node)) 0) as [Hl|Hl].
  { destruct (Nat.ltb_spec d (min_data_depth conf)); [exists None; split; [done|by apply He]|].
    specialize (Hlarge ltac:(lia)). rewrite (He Hl), map_size_empty in Hlarge. lia. }
  destruct (Nat.ltb_spec d (min_data_depth conf)) as [Hd|Hd].
  { eexists. split; [done|]. split; [auto|]. split; [unfold fits; lia|done]. }
  specialize (Hnv ltac:(lia)).
  assert ((max_array_width conf < size m)%nat → slot_rep conf (nrep (S f) s (S d)) s d (Some (Dirty node)) m) as Hdirty.
  { intros Hbig. split; [auto|]. split; [unfold fits; lia|done]. }
  destruct (Nat.eqb_spec (length (pointers node)) 1) as [H1|H1].
  - destruct (pointers node) as [|p [|]] eqn:Hpn; try done.
    destruct p as [vals|c o|n']; (eexists; split; [done|]);
      [|apply Hdirty; eapply (Hnv (Link c o)); [in_cons|done]|apply Hdirty; eapply (Hnv (Dirty n')); [in_cons|done]].
    destruct (Hvals vals ltac:(in_cons)) as [HS Hlen]. specialize (Hcat [vals] eq_refl). simpl in Hcat.
    rewrite app_nil_r in Hcat. split; [auto|]. split; [|by split].
    split; [done|]. by rewrite <-length_map_to_list, <-Hcat.
  - destruct (Nat.leb_spec (length (pointers node)) (max_array_width conf)).
    2:{ eexists. split; [done|]. apply Hdirty. lia. }
    destruct (all_values (pointers node)) as [children|] eqn:Hav.
    2:{ apply all_values_none in Hav as (p & Hp & Hn). eexists. split; [done|]. apply Hdirty. eauto. }
    specialize (Hcat children eq_refl).
    assert (sum_list (length <$> children) = size m) as -> by (by rewrite length_concat_sum, Hcat, length_map_to_list).
    destruct (Nat.ltb_spec (max_array_width conf) (size m)); (eexists; split; [done|]); [by apply Hdirty|].
    split; [auto|]. split; [unfold fits; lia|]. by apply bucket_sort.
Qed.

(** The child a pair was deleted from. *)
Lemma cleaned_ok f s d n g m k v p node : (S f + d = levels w)%nat →
  has_view n g → (∀ i, 0 ≤ i < 256 → slot_rep conf (nrep f s (S d)) s d (g i) (subm d i m)) →
  0 ≤ slot d k < 256 → g (slot d k) = Some p →
  subm d (slot d k) m !! k = Some v → ¬ fits conf d (subm d (slot d k) m) →
  nrep f s (S d) node (delete k (subm d (slot d k) m)) →
  ∃ n', cleaned conf d (index_for_bit_pos (slot d k) (bitfield n)) (slot d k) (k, v) node n
      = (Ok (Some (k, v)), n') ∧ nrep (S f) s d n' (delete k m).
Proof.
  intros Hf Hv Hg Hi Hgi Hk Hnf Hr.
  destruct (node_clean_ok f s d node _ ltac:(lia) Hr) as (x & E & Hx).
  { intros Hd. rewrite map_size_delete_Some by eauto. unfold fits in Hnf. lia. }
  unfold cleaned. rewrite E. rewrite <-sub_delete in Hx.
  destruct x as [p'|]; (eexists; split; [reflexivity|]).
  - eapply (rep_update f s d n _ g m); [done..|by eapply view_set|exact Hx|]. intros. by apply sub_same_delete.
  - eapply (rep_update f s d n _ g m); [done..|by eapply view_remove|exact Hx|]. intros. by apply sub_same_delete.
Qed.

Lemma rm_value_ok f fuel s d n m k : (f + d = levels w)%nat → (f ≤ fuel)%nat → nrep f s d n m →
  ∃ n', rm_value conf fuel s (mkHashBits (H k) (consumed_at w d)) d k n = (Ok ((λ v, (k, v)) <$> m !! k), n') ∧
    nrep f s d n' (delete k m).
Proof.
  revert fuel d n m. induction f as [|f IH]; intros [|fuel] d n m Hf Hfuel; [done..|lia|]. intros (g & Hv & Hg).
  pose proof (slot_range conf H Hw d k ltac:(lia)) as [_ Hi].
  assert (m !! k = None → nrep (S f) s d n (delete k m)) as Hn.
  { intros Hk. rewrite delete_id by done. by exists g. }
  cbn [rm_value]. rewrite <-(sub_at conf H d m k) in *. enter_slot k Hv Hg Hi Hgi Hs p.
  2:{ exists n. rewrite Hs, lookup_empty in *. auto. }
  destruct Hs as [Hne Hs]. set (mi := subm d (slot d k) m) in *. destruct p as [kvs|c cache|node].
  - destruct Hs as [[Hd Hsz] Hb]. rewrite (position_ext _ (λ p, key_eqb p.1 k)) by (intros; apply bool_decide_ext; split; congruence).
    pose proof (bucket_position _ _ k Hb) as Hp. destruct (position _ kvs) as [j|]; [|exists n; rewrite Hp in *; auto].
    destruct Hp as (l1 & v & l2 & -> & <- & Hk). rewrite list_lookup_middle, Hk by done. simpl fmap.
    eexists. split; [reflexivity|]. pose proof (bucket_length _ _ Hb) as Hlen. apply bucket_remove in Hb.
    assert (size (delete k mi) = pred (size mi)) as Hsd by (by rewrite map_size_delete_Some by eauto).
    unfold mi in Hb, Hsd. rewrite <-sub_delete in Hb, Hsd. fold mi in Hsd.
    destruct (Nat.eqb_spec (length (l1 ++ (k, v) :: l2)) 1);
      (eapply (rep_update f s d n _ g m); [done..| | |intros; by apply sub_same_delete]).
    + by eapply view_remove.
    + simpl. apply map_size_empty_iff. lia.
    + by eapply view_set.
    + assert (size mi ≠ 0%nat) by (by rewrite map_size_empty_iff).
      split; [rewrite <-map_size_empty_iff; lia|]. split; [unfold fits; lia|done].
  - destruct (child_load f s d c cache _ ltac:(lia) Hne Hs) as (node & -> & Hr).
    destruct (IH fuel (S d) node _ ltac:(lia) ltac:(lia) Hr) as (node' & -> & Hr').
    destruct Hs as (Hnf & Hst & _). destruct (mi !! k) as [v|] eqn:Hk; simpl.
    + eapply cleaned_ok; eauto.
    + eexists. split; [reflexivity|]. rewrite delete_id in Hr' by done.
      rewrite delete_id by (by rewrite <-(sub_at conf H d)).
      eapply rep_update; [done..|by eapply view_set| |done]. split; [done|]. split_and!; [done..|]. by intros ? [= <-].
  - destruct Hs as [Hnf Hr]. destruct (IH fuel (S d) node _ ltac:(lia) ltac:(lia) Hr) as (node' & -> & Hr').
    destruct (mi !! k) as [v|] eqn:Hk; simpl.
    + eapply cleaned_ok; eauto.
    + eexists. split; [reflexivity|]. rewrite delete_id in Hr' by done.
      rewrite delete_id by (by rewrite <-(sub_at conf H d)).
      eapply rep_update; [done..|by eapply view_set| |done]. by split_and!.
Qed.

(** ** Flush *)

Lemma put_node_le s n r s' : store_ok s → put_node s n = (r, s') → store_ok s' ∧ store_le s s'.
Proof.
  intros Hs. unfold put_node. destruct (node_serialize n) as [b|e]; [|by intros [= _ <-]].
  destruct (put_cbor s b BLAKE2B_256) as [r' s1] eqn:Hp. intros [= _ <-]. by apply put_cbor_ok in Hp.
Qed.

(** Whatever the node, a flush only adds blocks. *)
Lemma flush_pointers_le flush_node (ps : list (Pointer V)) :
  Forall (λ p, ∀ n, p = Dirty n → ∀ s r n' s', store_ok s → flush_node s n = (r, n', s') →
    store_ok s' ∧ store_le s s') ps →
  ∀ s r ps' s', store_ok s → flush_pointers flush_node s ps = (r, ps', s') → store_ok s' ∧ store_le s s'.
Proof.
  induction 1 as [|p ps Hp _ IH]; intros s r ps' s' Hs; simpl; [by intros [= _ _ <-]|].
  destruct p as [kvs|c cache|n].
  1,2: destruct (flush_pointers _ s ps) as [[r1 ps1] s1] eqn:E; intros [= _ _ <-]; by eapply IH.
  destruct (flush_node s n) as [[[[]|e] n1] s1] eqn:E1; destruct (Hp n eq_refl _ _ _ _ Hs E1) as [Hs1 Hle1].
  2:{ by intros [= _ _ <-]. }
  destruct (put_node s1 n1) as [[c|e] s2] eqn:E2; destruct (put_node_le _ _ _ _ Hs1 E2) as [Hs2 Hle2].
  2:{ intros [= _ _ <-]. split; [done|by etrans]. }
  destruct (flush_pointers _ s2 ps) as [[r3 ps3] s3] eqn:E3. intros [= _ _ <-].
  destruct (IH _ _ _ _ Hs2 E3). split; [done|]. etrans; [done|by etrans].
Qed.

Lemma node_flush_le n s r n' s' : store_ok s → node_flush s n = (r, n', s') → store_ok s' ∧ store_le s s'.
Proof.
  revert n s r n' s'. fix IH 1. intros [bf ps] s r n' s' Hs. cbn [node_flush].
  destruct (flush_pointers node_flush s ps) as [[r1 ps1] s1] eqn:E. intros [= _ _ <-].
  eapply flush_pointers_le; [|exact Hs|exact E]. clear -IH.
  induction ps as [|p ps IHps]; constructor; [|exact IHps].
  destruct p as [kvs|c cache|n]; intros n0 Hn; [discriminate|discriminate|]. injection Hn as <-. intros. by eapply IH.
Qed.

Lemma rep_drop_caches f s d n m : nrep f s d n m → nrep f s d (drop_caches n) m.
Proof.
  destruct f as [|f]; [done|]. intros (g & (Hw' & Hb & Hp) & Hg). exists (λ i, no_cache <$> g i). split.
  - split_and!; [done| |].
    + intros i Hi. cbn [drop_caches bitfield]. rewrite Hb by done. apply bool_decide_ext. by rewrite fmap_is_Some.
    + cbn [drop_caches pointers]. rewrite Hp. apply list_fmap_omap.
  - intros i Hi. specialize (Hg i Hi). clear Hb Hp.
    destruct (g i) as [[kvs|c cache|n']|]; simpl in *; [done| |done..].
    destruct Hg as (? & ? & ? & _). split_and!; done.
Qed.

Context `{ST : !StoreTotal}.

Lemma put_node_ok f s d n m : store_ok s → nrep f s d n m → Forall not_dirty (pointers n) →
  ∃ c s', put_node s n = (Ok c, s') ∧ store_ok s' ∧ store_le s s' ∧ cid_codec c = DAG_CBOR ∧ srep f s' d c m.
Proof.
  intros Hs Hr Hnd. destruct (serialize_no_dirty n Hnd) as (Hl & b & Hb & Hb').
  destruct (from_to_vec b) as (bz & Hz & _). set (c := block_cid DAG_CBOR BLAKE2B_256 bz).
  destruct (put_keyed_total s c bz) as [s' Hput].
  assert (put_node s n = (Ok c, s')) as E.
  { unfold put_node, put_cbor, bs_put. rewrite Hb, Hz. fold c. by rewrite Hput. }
  destruct (put_node_le _ _ _ _ Hs E) as [Hs' Hle]. exists c, s'. split_and!; try done.
  exists (drop_caches n), b, bz. split_and!; try done.
  - eapply node_rep_mono; [done|]. by apply rep_drop_caches.
  - by apply (put_keyed_get s c bz s' Hs eq_refl Hput).
Qed.

(** [node_flush] at one depth, as the depth above uses it. *)
Definition flushes (f d : nat) : Prop := ∀ s n m, store_ok s → nrep f s d n m →
  ∃ n' s', node_flush s n = (Ok tt, n', s') ∧ store_ok s' ∧ store_le s s' ∧ nrep f s' d n' m ∧
    Forall not_dirty (pointers n').

Lemma flush_slot f d s m p ps : flushes f (S d) → store_ok s → m ≠ ∅ → pointer_rep conf (nrep f s (S d)) s d p m →
  ∃ p' s', flush_pointers node_flush s (p :: ps) =
      (let '(r, ps', s'') := flush_pointers node_flush s' ps in (r, p' :: ps', s'')) ∧
    store_ok s' ∧ store_le s s' ∧ not_dirty p' ∧ pointer_rep conf (nrep f s' (S d)) s' d p' m.
Proof.
  intros Hfl Hs Hne Hp. destruct p as [kvs|c cache|node]; [by exists (Values kvs), s|by exists (Link c cache), s|].
  destruct Hp as [Hnf Hr]. destruct (Hfl s node m Hs Hr) as (node' & s1 & E1 & Hs1 & Hle1 & Hr1 & Hnd).
  destruct (put_node_ok f s1 (S d) node' m Hs1 Hr1 Hnd) as (c & s2 & E2 & Hs2 & Hle2 & _ & Hst).
  exists (Link c (Some node')), s2. split_and!; [|done|by etrans|done|].
  - simpl. rewrite E1, E2. done.
  - split_and!; [done..|]. intros ? [= <-]. by eapply node_rep_mono.
Qed.

Lemma flush_slots f d s g m l : flushes f (S d) → store_ok s → NoDup l →
  (∀ i, i ∈ l → slot_rep conf (nrep f s (S d)) s d (g i) (subm d i m)) →
  ∃ g' s', flush_pointers node_flush s (omap g l) = (Ok tt, omap g' l, s') ∧ store_ok s' ∧ store_le s s' ∧
    ∀ i, i ∈ l → slot_rep conf (nrep f s' (S d)) s' d (g' i) (subm d i m) ∧
      bool_decide (is_Some (g' i)) = bool_decide (is_Some (g i)) ∧ ∀ p, g' i = Some p → not_dirty p.
Proof.
  intros Hfl. revert s. induction l as [|i l IH]; intros s Hs Hnd Hg.
  { exists g, s. split_and!; [done..|]. by intros i Hi%elem_of_nil. }
  apply NoDup_cons in Hnd as [Hni Hnd]. pose proof (Hg i ltac:(in_cons)) as Hi.
  assert (∀ s', store_le s s' → ∀ j, j ∈ l → slot_rep conf (nrep f s' (S d)) s' d (g j) (subm d j m)) as Hg'.
  { intros s' Hle j Hj. eapply slot_rep_impl; [exact Hle| |apply Hg; in_cons]. intros. by eapply node_rep_mono. }
  assert (∃ x s1, flush_pointers node_flush s (omap g (i :: l)) =
      (let '(r, ps', s') := flush_pointers node_flush s1 (omap g l) in (r, option_list x ++ ps', s')) ∧
    store_ok s1 ∧ store_le s s1 ∧ slot_rep conf (nrep f s1 (S d)) s1 d x (subm d i m) ∧
    bool_decide (is_Some x) = bool_decide (is_Some (g i)) ∧ ∀ p, x = Some p → not_dirty p)
    as (x & s1 & E1 & Hs1 & Hle1 & Hx & Hb & Hndx).
  { cbn [omap list_omap]. destruct (g i) as [p|]; simpl in Hi.
    - destruct Hi as [Hne Hp]. destruct (flush_slot f d s _ p (omap g l) Hfl Hs Hne Hp) as (p' & s1 & E & ? & ? & ? & ?).
      exists (Some p'), s1. split_and!; try done. by intros ? [= <-].
    - exists None, s. split_and!; try done. by destruct (flush_pointers _ s _) as [[??]?]. }
  destruct (IH s1 Hs1 Hnd (Hg' s1 Hle1)) as (g' & s2 & E2 & Hs2 & Hle2 & Hl).
  exists (upd i x g'), s2. split_and!; [|done|by etrans|].
  - rewrite E1, E2, <-(omap_out i x g' l) by done. do 2 f_equal. cbn [omap list_omap].
    assert (upd i x g' i = x) as -> by (unfold upd; by rewrite decide_True). by destruct x.
  - intros j Hj. unfold upd. case_decide as Hji.
    + subst j. split_and!; [|done..]. eapply slot_rep_impl; [exact Hle2| |exact Hx]. intros. by eapply node_rep_mono.
    + apply Hl. apply elem_of_cons in Hj. naive_solver.
Qed.

Lemma node_flush_ok f d : flushes f d.
Proof.
  revert d. induction f as [|f IH]; intros d s n m Hs; [done|]. intros (g & (Hw' & Hb & Hp) & Hg).
  destruct (flush_slots f d s g m (seqZ 0 256) (IH (S d)) Hs) as (g' & s' & E & Hs' & Hle & Hl).
  { apply NoDup_seqZ. }
  { intros i Hi%elem_of_seqZ. apply Hg. lia. }
  destruct n as [bf ps]. cbn [bitfield pointers] in Hw', Hb, Hp. subst ps.
  assert (∀ i, 0 ≤ i < 256 → i ∈ seqZ 0 256) as Hin by (intros; apply elem_of_seqZ; lia).
  eexists _, s'. split; [cbn [node_flush]; rewrite E; reflexivity|]. split_and!; [done..| |].
  - exists g'. split; [split_and!; [done| |done]|].
    + intros i Hi. cbn [bitfield]. rewrite Hb by done. symmetry. apply Hl. auto.
    + intros i Hi. apply Hl. auto.
  - cbn [pointers]. apply Forall_forall. intros p (i & Hi & Hgi)%list_elem_of_omap.
    destruct (Hl i Hi) as (_ & _ & Hnd). auto.
Qed.
End map.
