(* ===== verification/HamtTop.v ===== *)
(** * The HAMT's contract

    The operations of [Hamt] (ipld/hamt/src/hamt.rs) answer as those of a finite
    map, through lazily loaded links and any number of flushes; a
    flushed HAMT loads back; its root depends on its content alone. The last part
    makes the HAMT an instance of [HamtOps] and discharges its laws, the
    ones the state tree is verified against. *)

From S2P Require Import Prelude Effects Address Types HamtBits HamtCommon Hamt HamtRep HamtMap.
From stdpp Require Import gmap strings list fin_maps.
From Stdlib Require Import ZArith Lia.
#[local] Open Scope Z_scope.

Section top.
Context `{BSS : BlockstoreSpec} {V : Type} `{EqDecision V} `{CB : !Cbor (NodeBlock V)} `{CS : !CborSpec (NodeBlock V)}.
Context (conf : Config) (H : bytes → bytes) `{HP : !HamtParams conf H}.
Implicit Types (h : @HamtImpl V) (m : gmap bytes V) (s : Store).

Definition ok_as {A} (f : A → HamtAnswer V) (r : result HamtError A) : result HamtError (HamtAnswer V) :=
  match r with Ok a => Ok (f a) | Err e => Err e end.

(** One operation, and a sequence of them that stops at the first error. *)
Definition hamt_run_op (op : HamtOp V) h s : result HamtError (HamtAnswer V) * HamtImpl * Store :=
  match op with
  | HGet k => let '(r, h) := get conf H s k h in (ok_as AValue r, h, s)
  | HContains k => let '(r, h) := contains_key conf H s k h in (ok_as ABool r, h, s)
  | HSet k v => let '(r, h) := set conf H s k v h in (ok_as AValue r, h, s)
  | HSetIfAbsent k v => let '(r, h) := set_if_absent conf H s k v h in (ok_as ABool r, h, s)
  | HDelete k => let '(r, h) := delete_key conf H s k h in (ok_as AEntry r, h, s)
  | HFlush => let '(r, h, s) := flush s h in (ok_as (λ _, ADone) r, h, s)
  | HClear => (Ok ADone, clear h, s)
  | HIsEmpty => (Ok (ABool (is_empty h)), h, s)
  end.
Fixpoint hamt_run_ops (ops : list (HamtOp V)) h s : result HamtError (list (HamtAnswer V)) * HamtImpl * Store :=
  match ops with
  | [] => (Ok [], h, s)
  | op :: ops =>
      match hamt_run_op op h s with
      | (Err e, h, s) => (Err e, h, s)
      | (Ok a, h, s) =>
          let '(r, h, s) := hamt_run_ops ops h s in
          (match r with Ok l => Ok (a :: l) | Err e => Err e end, h, s)
      end
  end.

(** ** Representation *)

Abbreviation L := (levels (bit_width conf)).
Definition hstored s (c : Cid) m : Prop := stored_rep conf H L s 0 c m.
Definition hrep s h m : Prop :=
  node_rep conf H L s 0 (hamt_root h) m ∧ ∀ c, flushed_cid h = Some c → hstored s c m.

Lemma fuel_enough k : (L ≤ fuel_for H k)%nat.
Proof.
  unfold fuel_for. destruct (params_hash (H := H) k) as [-> _].
  pose proof (levels_bounds (bit_width conf) params_width). lia.
Qed.

Lemma node_set_rep s n m k v ow : node_rep conf H L s 0 n m → keys_apart H (dom (<[k := v]> m)) →
  ∃ n', node_set conf H s k v ow n = (Ok (set_result ow (m !! k) v), n') ∧
    node_rep conf H L s 0 n' (put_kv ow k v m).
Proof.
  intros Hr Hk. unfold node_set. rewrite <-(consumed_at_0 (bit_width conf)).
  apply (modify_value_ok conf H params_hash params_width params_array params_depth L _ s 0);
    [lia|apply fuel_enough|done|by apply coherent_top].
Qed.

(** After a change of the content: the same map, or no flushed CID. *)
Lemma set_rep s h n' m k v ow (old : option V) b : hrep s h m →
  set_result ow (m !! k) v = (old, b) → node_rep conf H L s 0 n' (put_kv ow k v m) →
  hrep s (mkHamt n' (if b then None else flushed_cid h)) (put_kv ow k v m).
Proof.
  intros [_ Hc] E Hr. split; [done|]. simpl. intros c Hfc. destruct b; [done|].
  rewrite (put_kv_unmodified _ _ _ _ _ E). auto.
Qed.

Lemma set_ok s h m k v : hrep s h m → keys_apart H (dom (<[k := v]> m)) →
  ∃ h', set conf H s k v h = (Ok (m !! k), h') ∧ hrep s h' (<[k := v]> m).
Proof.
  intros Hh Hk. destruct (node_set_rep s _ m k v true (proj1 Hh) Hk) as (n' & E & Hr). unfold set. rewrite E.
  destruct (set_result true (m !! k) v) as [old b] eqn:Eres. eexists. split.
  - do 2 f_equal. unfold set_result in Eres. destruct (m !! k); by injection Eres as <-.
  - replace (<[k := v]> m) with (put_kv true k v m); [by eapply set_rep|].
    unfold put_kv. by destruct (m !! k).
Qed.

Lemma set_if_absent_ok s h m k v : hrep s h m → keys_apart H (dom (<[k := v]> m)) →
  ∃ h', set_if_absent conf H s k v h = (Ok (bool_decide (m !! k = None)), h') ∧
    hrep s h' (if decide (m !! k = None) then <[k := v]> m else m).
Proof.
  intros Hh Hk. destruct (node_set_rep s _ m k v false (proj1 Hh) Hk) as (n' & E & Hr). unfold set_if_absent. rewrite E.
  destruct (set_result false (m !! k) v) as [old b] eqn:Eres. eexists. split.
  - do 2 f_equal. unfold set_result in Eres. destruct (m !! k); by injection Eres as <- <-.
  - replace (if decide _ then _ else _) with (put_kv false k v m); [by eapply set_rep|].
    unfold put_kv. by destruct (m !! k).
Qed.

Lemma get_ok s h m k : hrep s h m → ∃ h', get conf H s k h = (Ok (m !! k), h') ∧ hrep s h' m.
Proof.
  intros [Hr Hc]. unfold get, node_get. rewrite <-(consumed_at_0 (bit_width conf)).
  destruct (get_value_ok conf H params_hash params_width params_array params_depth L (fuel_for H k) s 0 _ m k ltac:(lia) (fuel_enough k) Hr)
    as (n' & -> & Hr').
  exists (mkHamt n' (flushed_cid h)). split; [by destruct (m !! k)|by split].
Qed.

Lemma contains_key_ok s h m k : hrep s h m →
  ∃ h', contains_key conf H s k h = (Ok (bool_decide (is_Some (m !! k))), h') ∧ hrep s h' m.
Proof. intros Hh. unfold contains_key. destruct (get_ok s h m k Hh) as (h' & -> & Hh'). eauto. Qed.

Lemma delete_ok s h m k : hrep s h m →
  ∃ h', delete_key conf H s k h = (Ok ((λ v, (k, v)) <$> m !! k), h') ∧ hrep s h' (delete k m).
Proof.
  intros [Hr Hc]. unfold delete_key, remove_entry. rewrite <-(consumed_at_0 (bit_width conf)).
  destruct (rm_value_ok conf H params_hash params_width params_array params_depth L (fuel_for H k) s 0 _ m k
    ltac:(lia) (fuel_enough k) Hr) as (n' & -> & Hr').
  destruct (m !! k) as [v|] eqn:Hk; simpl; (eexists; split; [done|]); (split; [done|]); [done|].
  by rewrite delete_id in * by done.
Qed.

Lemma new_ok s : hrep s new_with_config ∅.
Proof.
  split; [|done]. pose proof (levels_bounds (bit_width conf) params_width). destruct L as [|n] eqn:E; [lia|].
  apply rep_default.
Qed.

Lemma clear_ok s h m : hrep s h m → hrep s (clear h) ∅.
Proof.
  intros [Hr Hc]. unfold clear, is_empty. destruct (Nat.eqb_spec (length (pointers (hamt_root h))) 0); [|apply new_ok].
  assert (m = ∅) as <-; [|done]. pose proof (levels_bounds (bit_width conf) params_width).
  destruct L as [|n] eqn:E; [lia|]. eapply (node_sizes conf H params_width params_array params_depth n s 0); [lia|done..].
Qed.

Lemma is_empty_ok s h m : hrep s h m → is_empty h = bool_decide (m = ∅).
Proof.
  intros [Hr Hc]. unfold is_empty. pose proof (levels_bounds (bit_width conf) params_width).
  destruct L as [|n] eqn:E; [lia|].
  destruct (node_sizes conf H params_width params_array params_depth n s 0 _ _ ltac:(lia) Hr) as (Hle & He & _).
  case_bool_decide as Hm; [|apply Nat.eqb_neq; auto]. subst. rewrite map_size_empty in Hle. apply Nat.eqb_eq. lia.
Qed.

Lemma hrep_mono s s' h m : store_le s s' → hrep s h m → hrep s' h m.
Proof.
  intros Hle [Hr Hc]. split; [by eapply node_rep_mono|]. intros c Hfc. eapply stored_rep_mono; [done|by apply Hc].
Qed.

Lemma hstored_codec s c m : hstored s c m → cid_codec c = DAG_CBOR.
Proof. by intros (? & ? & ? & _ & _ & _ & _ & -> & _). Qed.

Lemma flush_le s h r h' s' : store_ok s → flush s h = (r, h', s') → store_ok s' ∧ store_le s s'.
Proof.
  intros Hs. unfold flush. destruct (flushed_cid h); [by intros [= _ _ <-]|].
  destruct (node_flush s _) as [[[[]|e] n1] s1] eqn:E; destruct (node_flush_le _ _ _ _ _ Hs E) as [Hs1 Hle1];
    [|by intros [= _ _ <-]].
  destruct (put_node s1 n1) as [[c|e] s2] eqn:E2; destruct (put_node_le _ _ _ _ Hs1 E2) as [Hs2 Hle2];
    intros [= _ _ <-]; (split; [done|by etrans]).
Qed.

Context `{ST : !StoreTotal}.

Lemma flush_ok s h m : store_ok s → hrep s h m →
  ∃ c h' s', flush s h = (Ok c, h', s') ∧ store_ok s' ∧ store_le s s' ∧ hrep s' h' m ∧ hstored s' c m.
Proof.
  intros Hs Hh. pose proof Hh as [Hr Hc]. unfold flush. destruct (flushed_cid h) as [c|] eqn:Ec.
  { exists c, h, s. split_and!; [done..|by apply Hc]. }
  destruct (node_flush_ok conf H params_width params_array params_depth L 0 s _ m Hs Hr) as (n' & s1 & -> & Hs1 & Hle1 & Hr1 & Hnd).
  destruct (put_node_ok conf H L s1 0 n' m Hs1 Hr1 Hnd) as (c & s2 & -> & Hs2 & Hle2 & _ & Hst).
  exists c, (mkHamt n' (Some c)), s2. split_and!; [done..|by etrans| |done].
  split; [by eapply node_rep_mono|]. by intros ? [= <-].
Qed.

Lemma hamt_run_op_ok s h m op : store_ok s → hrep s h m → keys_apart H (dom m ∪ set_keys [op]) →
  ∃ h' s', hamt_run_op op h s = (Ok (map_op op m).1, h', s') ∧ store_ok s' ∧ store_le s s' ∧ hrep s' h' (map_op op m).2.
Proof.
  intros Hs Hh Hk.
  assert (∀ k v, k ∈ set_keys [op] → keys_apart H (dom (<[k := v]> m))) as Hset.
  { intros k v Hin. eapply keys_apart_sub; [|exact Hk]. rewrite dom_insert. clear -Hin. set_solver. }
  unfold set_keys in Hset. destruct op as [k|k|k v|k v|k| | |]; cbn [hamt_run_op map_op]; cbn in Hset.
  - destruct (get_ok s h m k Hh) as (h' & -> & ?). by exists h', s.
  - destruct (contains_key_ok s h m k Hh) as (h' & -> & ?). by exists h', s.
  - destruct (set_ok s h m k v Hh) as (h' & -> & ?); [apply Hset; set_solver|]. by exists h', s.
  - destruct (set_if_absent_ok s h m k v Hh) as (h' & -> & Hh'); [apply Hset; set_solver|].
    exists h', s. by destruct (m !! k).
  - destruct (delete_ok s h m k Hh) as (h' & -> & ?). by exists h', s.
  - destruct (flush_ok s h m Hs Hh) as (c & h' & s' & -> & ? & ? & ? & _). by exists h', s'.
  - exists (clear h), s. split_and!; [done..|]. by eapply clear_ok.
  - exists h, s. rewrite (is_empty_ok s h m Hh). split_and!; [|done..]. simpl. do 4 f_equal. by apply bool_decide_ext.
Qed.

Lemma hamt_run_ops_ok ops s h m : store_ok s → hrep s h m → keys_apart H (dom m ∪ set_keys ops) →
  ∃ h' s', hamt_run_ops ops h s = (Ok (map_ops ops m).1, h', s') ∧ store_ok s' ∧ store_le s s' ∧
    hrep s' h' (map_ops ops m).2.
Proof.
  revert s h m. induction ops as [|op ops IH]; intros s h m Hs Hh Hk; [by exists h, s|].
  assert (set_keys (op :: ops) = set_keys [op] ∪ set_keys ops) as E.
  { unfold set_keys. destruct op; simpl; set_solver. }
  destruct (hamt_run_op_ok s h m op Hs Hh) as (h1 & s1 & E1 & Hs1 & Hle1 & Hh1).
  { eapply keys_apart_sub; [|exact Hk]. rewrite E. set_solver. }
  destruct (IH s1 h1 (map_op op m).2 Hs1 Hh1) as (h2 & s2 & E2 & Hs2 & Hle2 & Hh2).
  { eapply keys_apart_sub; [|exact Hk]. pose proof (map_op_dom op m). rewrite E. set_solver. }
  exists h2, s2. cbn [hamt_run_ops map_ops]. rewrite E1. destruct (map_op op m) as [a m1].
  simpl in E2, Hh2. rewrite E2. destruct (map_ops ops m1). split_and!; [done..|by etrans|done].
Qed.

Lemma load_top s c m : hstored s c m → ∃ h, load_with_config conf s c = Ok h ∧ hrep s h m.
Proof.
  intros Hst. destruct (load_ok conf H params_width params_array params_depth L s 0 c m) as (n & E & Hr); [lia|done..|].
  unfold load_with_config. rewrite E. eexists. split; [done|]. split; [done|]. by intros ? [= <-].
Qed.

(** ** The instance *)

Definition hamt_error_text (e : HamtError) : string :=
  match e with
  | MaxDepth => "Maximum depth reached"
  | InvalidHashBitLen => "HashBits does not support retrieving more than 8 bits"
  | ZeroPointers => "Invalid HAMT format, node cannot have 0 pointers"
  | CidNotFound => "Cid ({0}) did not match any in database"
  | StartKeyNotFound => "Iteration starting key not found in HAMT"
  | Dynamic msg => msg
  end.
Definition hamt_res {A B} (f : A → B) (r : result HamtError A) : result string B :=
  match r with Ok a => Ok (f a) | Err e => Err (hamt_error_text e) end.

(** A lookup's filled caches are dropped here: the nodes they hold are the
    blocks of the store, and the next lookup loads them again. *)
Definition hamt_ops : HamtOps Store V := {|
  Types.Hamt := HamtImpl;
  hamt_new := new_with_config;
  hamt_load s c := hamt_res id (load_with_config conf s c);
  hamt_get s h k := hamt_res id (get conf H s k h).1;
  hamt_set s h k v := let '(r, h) := set conf H s k v h in (hamt_res (λ _, tt) r, h);
  hamt_delete s h k := let '(r, h) := delete_key conf H s k h in (hamt_res (λ _, tt) r, h);
  hamt_flush s h := let '(r, h, s) := flush s h in (hamt_res id r, h, s);
|}.

(** ** Claims *)

(** C20: a HAMT is a finite map. Any sequence of lookups, insertions, deletions,
    flushes and clears, on a HAMT whose nodes may be in memory, in the store or
    both, gives exactly the answers of the same sequence on a finite map, with
    no error, as long as the keys involved have different hashes. *)
Theorem hamt_refines_map ops s h m (Hs : store_ok s) (Hh : hrep s h m)
    (Hk : keys_apart H (dom m ∪ set_keys ops)) :
  ∃ h' s', hamt_run_ops ops h s = (Ok (map_ops ops m).1, h', s') ∧ hrep s' h' (map_ops ops m).2 ∧ store_le s s'.
Proof. destruct (hamt_run_ops_ok ops s h m Hs Hh Hk) as (h' & s' & E & _ & Hle & Hh'). eauto. Qed.

(** C21: the root CID is determined by the content. Two sequences of operations on
    new HAMTs, in two stores, that end with the same content flush to
    the same root, whatever was inserted, deleted, cleared or flushed on the
    way. *)
Theorem hamt_root_canonical ops1 ops2 s1 s2 (Hs1 : store_ok s1) (Hs2 : store_ok s2)
    (Hk1 : keys_apart H (set_keys ops1)) (Hk2 : keys_apart H (set_keys ops2))
    (Hm : (map_ops ops1 ∅).2 = (map_ops ops2 (∅ : gmap bytes V)).2) :
  ∃ r1 h1 t1 r2 h2 t2 c h1' t1' h2' t2',
    hamt_run_ops ops1 new_with_config s1 = (Ok r1, h1, t1) ∧ hamt_run_ops ops2 new_with_config s2 = (Ok r2, h2, t2) ∧
    flush t1 h1 = (Ok c, h1', t1') ∧ flush t2 h2 = (Ok c, h2', t2').
Proof.
  destruct (hamt_run_ops_ok ops1 s1 _ ∅ Hs1 (new_ok s1)) as (h1 & t1 & E1 & Ht1 & _ & Hh1).
  { by rewrite dom_empty_L, (left_id_L ∅ (∪)). }
  destruct (hamt_run_ops_ok ops2 s2 _ ∅ Hs2 (new_ok s2)) as (h2 & t2 & E2 & Ht2 & _ & Hh2).
  { by rewrite dom_empty_L, (left_id_L ∅ (∪)). }
  destruct (flush_ok t1 h1 _ Ht1 Hh1) as (c1 & h1' & t1' & F1 & _ & _ & _ & S1).
  destruct (flush_ok t2 h2 _ Ht2 Hh2) as (c2 & h2' & t2' & F2 & _ & _ & _ & S2). rewrite Hm in S1.
  assert (c1 = c2) as -> by (eapply (stored_unique conf H); eauto using params_width). eauto 20.
Qed.

(** a flushed HAMT loads back. The HAMT loaded lazily from the root that a
    flush returned, in the store it was flushed to or any later one, has the
    same content: it answers every further sequence as the flushed one would. *)
Theorem hamt_flush_load ops s h m t (Hs : store_ok s) (Hh : hrep s h m) (Ht : store_ok t)
    (Hk : keys_apart H (dom m ∪ set_keys ops)) :
  ∃ c h' s', flush s h = (Ok c, h', s') ∧ (store_le s' t → ∃ h'' h3 t3,
    load_with_config conf t c = Ok h'' ∧ hamt_run_ops ops h'' t = (Ok (map_ops ops m).1, h3, t3)).
Proof.
  destruct (flush_ok s h m Hs Hh) as (c & h' & s' & E & _ & _ & _ & Hst). exists c, h', s'. split; [done|].
  intros Hle. destruct (load_top t c m) as (h'' & El & Hh''); [by eapply stored_rep_mono|].
  destruct (hamt_run_ops_ok ops t h'' m Ht Hh'' Hk) as (h3 & t3 & Er & _). eauto.
Qed.
End top.

(** The laws the state tree relies on, kept by the HAMT. *)
Definition hamt_spec `{BSS : BlockstoreSpec} {V : Type} `{EqDecision V} `{CB : !Cbor (NodeBlock V)} `{CS : !CborSpec (NodeBlock V)}
    conf H `{HP : !HamtParams conf H} : @HamtSpec V _ BSS (hamt_ops conf H).
Proof.
  unshelve refine (@Build_HamtSpec V _ BSS (hamt_ops conf H)
    (hrep conf H) (hstored conf H) (keys_apart H) _ _ _ _ _ _ _ _ _ _ _).
  - apply keys_apart_sub.
  - intros s _. by apply new_ok.
  - intros s c m _ Hst. destruct (load_top conf H s c m Hst) as (h & E & Hh). exists h.
    cbn. rewrite E. done.
  - intros s h m k _ Hh. destruct (get_ok conf H s h m k Hh) as (h' & E & _). cbn. by rewrite E.
  - intros s h m k v _ Hh Hk. destruct (set_ok conf H s h m k v Hh Hk) as (h' & E & Hh'). exists h'.
    cbn. by rewrite E.
  - intros s h m k _ Hh. destruct (delete_ok conf H s h m k Hh) as (h' & E & Hh'). exists h'. cbn. by rewrite E.
  - intros s h m Ht Hs Hh. destruct (flush_ok conf H s h m Hs Hh) as (c & h' & s' & E & Hs' & Hle & Hh' & Hst).
    exists c, h', s'. cbn. rewrite E. split_and!; try done. by eapply hstored_codec.
  - intros s h r h' s' Hs. cbn. destruct (flush s h) as [[r1 h1] s1] eqn:E. intros [= _ _ <-]. by eapply flush_le.
  - intros s s' h m _ _ Hle. by apply hrep_mono.
  - intros s s' c m _ _ Hle. by apply stored_rep_mono.
  - intros s s' c c' m S1 S2. eapply (stored_unique conf H); [exact S1|exact S2].
Defined.
