(* ===== verification/HamtIter.v ===== *)
(** * Iterating over a HAMT (ipld/hamt/src/iter.rs, for_each and for_each_ranged of hamt.rs)

    The iterator keeps a stack of the pointers still to visit, the deepest
    node's first, and the rest of the current bucket. The source's loops are
    written as a step function and its iteration; [ends] says that they end. *)

From S2P Require Import Prelude Effects Address Types HamtBits HamtCommon Hamt HamtRep HamtMap HamtTop.
From stdpp Require Import gmap strings list fin_maps.
From Stdlib Require Import ZArith Lia.
#[local] Open Scope Z_scope.

Section iter.
Context `{BS : Blockstore} {V : Type} `{CB : !Cbor (NodeBlock V)}.
Context (conf : Config) (H : bytes → bytes).

(** The head of [it_stack] is the last element of the source's vector. The nodes
    borrowed from the caches are the ones [load_cached] gives. *)
Record IterImpl := mkIter { it_stack : list (list (Pointer V)); it_current : list (bytes * V) }.

Inductive Step :=
  | Yield (kv : bytes * V) (it : IterImpl)
  | Continue (it : IterImpl)
  | Fail (e : HamtError) (it : IterImpl)
  | Finished.

Definition iter_new (root : Node V) : IterImpl := mkIter [pointers root] [].

(** One turn of the loop of [next]; a bucket is made current in one turn and
    its first pair is taken in the following one. *)
Definition iter_step (s : Store) (it : IterImpl) : Step :=
  match it_current it with
  | v :: current => Yield v (mkIter (it_stack it) current)
  | [] =>
      match it_stack it with
      | [] => Finished
      | [] :: stack => Continue (mkIter stack [])
      | (next :: ps) :: stack =>
          let stack := ps :: stack in
          match next with
          | Link cid cache =>
              match load_cached conf s cid cache (length stack) with
              | Err e => Fail e (mkIter stack [])
              | Ok node => Continue (mkIter (pointers node :: stack) [])
              end
          | Dirty node => Continue (mkIter (pointers node :: stack) [])
          | Values kvs => Continue (mkIter stack kvs)
          end
      end
  end.

(** [Iterator::next]: the item, if any. Without fuel there is no answer. *)
Fixpoint iter_next (fuel : nat) (s : Store) (it : IterImpl) : option (option (result HamtError (bytes * V)) * IterImpl) :=
  match fuel with
  | O => None
  | S fuel =>
      match iter_step s it with
      | Yield kv it => Some (Some (Ok kv), it)
      | Fail e it => Some (Some (Err e), it)
      | Finished => Some (None, it)
      | Continue it => iter_next fuel s it
      end
  end.

(** [iter_from]: the path to the key; every level consumes bits of the hash,
    so that the fuel of a lookup is enough. *)
Fixpoint new_from_loop (fuel : nat) (s : Store) (key : bytes) (hb : HashBits) (node : Node V)
    (stack : list (list (Pointer V))) : result HamtError IterImpl :=
  match hb_next (bit_width conf) hb, fuel with
  | Err e, _ => Err e
  | Ok _, O => Err MaxDepth
  | Ok (idx, hb), S fuel =>
      match drop (index_for_bit_pos idx (bitfield node)) (pointers node) with
      | [] => new_from_loop fuel s key hb node ([] :: stack)
      | p :: ps =>
          let stack := ps :: stack in
          match p with
          | Link cid cache =>
              match load_cached conf s cid cache (length stack) with
              | Err e => Err e
              | Ok node => new_from_loop fuel s key hb node stack
              end
          | Dirty node => new_from_loop fuel s key hb node stack
          | Values values =>
              match position (λ kv, key_eqb kv.1 key) values with
              | Some offset => Ok (mkIter stack (drop offset values))
              | None => Err StartKeyNotFound
              end
          end
      end
  end.
Definition iter_new_from (s : Store) (root : Node V) (key : bytes) : result HamtError IterImpl :=
  new_from_loop (S (fuel_for H key)) s key (mkHashBits (H key) 0) root [].

(** ** for_each and for_each_ranged

    The callback has a state of its own and may fail. *)
Section callback.
Context {A : Type} (f : bytes → V → A → result string unit * A).

(** The loop over at most [max] items ([None]: all of them): the number of items
    traversed. *)
Fixpoint traverse (fuel : nat) (s : Store) (max : option nat) (traversed : nat) (it : IterImpl) (a : A)
    : option (result HamtError nat * IterImpl * A) :=
  match fuel with
  | O => None
  | S fuel =>
      if bool_decide (max = Some O) then Some (Ok traversed, it, a) else
      match iter_step s it with
      | Yield (k, v) it =>
          match f k v a with
          | (Ok _, a) => traverse fuel s (pred <$> max) (S traversed) it a
          | (Err e, a) => Some (Err (Dynamic e), it, a)
          end
      | Fail e it => Some (Err e, it, a)
      | Finished => Some (Ok traversed, it, a)
      | Continue it => traverse fuel s max traversed it a
      end
  end.

Definition for_each (fuel : nat) (s : Store) (h : @HamtImpl V) (a : A) : option (result HamtError unit * A) :=
  match traverse fuel s None O (iter_new (hamt_root h)) a with
  | None => None
  | Some (Ok _, _, a) => Some (Ok tt, a)
  | Some (Err e, _, a) => Some (Err e, a)
  end.

Definition for_each_ranged (fuel : nat) (s : Store) (starting_key : option bytes) (max : option nat)
    (h : @HamtImpl V) (a : A) : option (result HamtError (nat * option bytes) * A) :=
  match match starting_key with
        | Some key => iter_new_from s (hamt_root h) key
        | None => Ok (iter_new (hamt_root h))
        end with
  | Err e => Some (Err e, a)
  | Ok it =>
      match traverse fuel s max O it a with
      | None => None
      | Some (Err e, _, a) => Some (Err e, a)
      | Some (Ok traversed, it, a) =>
          match iter_next fuel s it with
          | None => None
          | Some (Some (Err e), _) => Some (Err e, a)
          | Some (Some (Ok kv), _) => Some (Ok (traversed, Some kv.1), a)
          | Some (None, _) => Some (Ok (traversed, None), a)
          end
      end
  end.
End callback.
End iter.
Arguments IterImpl V : clear implicits.
