(* ===== verification/HamtWalk.v ===== *)
(** * Iteration visits every pair once

    The iterator of HamtIter.v on canonical HAMTs: it ends, it yields the
    pairs of the map, each once, and starting from a key it yields the rest of the
    same sequence. *)

From S2P Require Import Prelude Effects Address Types HamtBits HamtCommon Hamt HamtRep HamtMap HamtTop HamtIter.
From stdpp Require Import gmap strings list fin_maps.
From Stdlib Require Import ZArith Lia.
#[local] Open Scope Z_scope.

Section walk.
Context `{BSS : BlockstoreSpec} {V : Type} `{CB : !Cbor (NodeBlock V)} `{CS : !CborSpec (NodeBlock V)}.
Context (conf : Config) (H : bytes → bytes) `{HP : !HamtParams conf H}.
Implicit Types (n : Node V) (m : gmap bytes V) (s : Store) (it : IterImpl V).

Abbreviation w := (bit_width conf).
Abbreviation step := (iter_step conf).

(** A run of the iterator and what it yields. *)
Inductive iter_run s : IterImpl V → list (bytes * V) → IterImpl V → Prop :=
  | run_refl it : iter_run s it [] it
  | run_yield it kv it1 l it2 : step s it = Yield kv it1 → iter_run s it1 l it2 → iter_run s it (kv :: l) it2
  | run_continue it it1 l it2 : step s it = Continue it1 → iter_run s it1 l it2 → iter_run s it l it2.

Lemma iter_run_trans s it1 l1 it2 l2 it3 :
  iter_run s it1 l1 it2 → iter_run s it2 l2 it3 → iter_run s it1 (l1 ++ l2) it3.
Proof.
  induction 1 as [|it kv it1 l it2 Hs _ IH|it it1 l it2 Hs _ IH]; intros Hr; simpl; [done| |].
  - eapply run_yield; eauto.
  - eapply run_continue; eauto.
Qed.

(** A run is a prefix of the run to the end. *)
Lemma iter_run_prefix s it l1 it1 l it2 :
  iter_run s it l1 it1 → step s it2 = Finished → iter_run s it l it2 → ∃ l2, l = l1 ++ l2 ∧ iter_run s it1 l2 it2.
Proof.
  intros H1 Hend. revert l. induction H1 as [it|it kv it' l' it1 Hs _ IH|it it' l' it1 Hs _ IH]; intros l Hr.
  - by exists l.
  - inversion Hr; subst; [congruence| |congruence].
    match goal with Hy : step s it = Yield _ _ |- _ => rewrite Hs in Hy; injection Hy as -> -> end.
    destruct (IH _ ltac:(eassumption)) as (l2 & -> & Hl2). by exists l2.
  - inversion Hr; subst; [congruence|congruence|].
    match goal with Hy : step s it = Continue _ |- _ => rewrite Hs in Hy; injection Hy as -> end. by apply IH.
Qed.

Lemma run_current s stack kvs rest : iter_run s (mkIter stack (kvs ++ rest)) kvs (mkIter stack rest).
Proof. induction kvs as [|kv kvs IH]; simpl; [apply run_refl|]. by eapply run_yield. Qed.

(** Entering a child node. *)
Lemma step_child f s d p ps stack m : (f + S d = levels w)%nat → length stack = d → m ≠ ∅ →
  pointer_rep conf (node_rep conf H f s (S d)) s d p m → (∀ kvs, p ≠ Values kvs) →
  ∃ node, step s (mkIter ((p :: ps) :: stack) []) = Continue (mkIter (pointers node :: ps :: stack) []) ∧
    node_rep conf H f s (S d) node m ∧
    ∀ fuel k idx hb hb' n, hb_next w hb = Ok (idx, hb') →
      drop (index_for_bit_pos idx (bitfield n)) (pointers n) = p :: ps →
      new_from_loop conf (S fuel) s k hb n stack = new_from_loop conf fuel s k hb' node (ps :: stack).
Proof.
  intros Hf Hst Hne Hp Hnv. destruct p as [kvs|c cache|node]; [by destruct (Hnv kvs)| |].
  - destruct (child_load conf H params_width params_array params_depth f s d c cache m Hf Hne Hp) as (node & E & Hr).
    exists node. unfold iter_step. cbn [it_current it_stack length]. rewrite Hst, E. split_and!; [done..|].
    intros fuel k idx hb hb' n Hn Hd. cbn [new_from_loop]. rewrite Hn, Hd. cbn [length]. by rewrite Hst, E.
  - exists node. split_and!; [done|apply Hp|]. intros fuel k idx hb hb' n Hn Hd. cbn [new_from_loop]. by rewrite Hn, Hd.
Qed.

(** The pointers of a list of slots. *)
Lemma run_slots f s d g m stack (l : list Z) :
  (∀ n m stack, node_rep conf H f s (S d) n m → length stack = S d →
    ∃ kvs, kvs ≡ₚ map_to_list m ∧ iter_run s (mkIter (pointers n :: stack) []) kvs (mkIter stack [])) →
  (S f + d = levels w)%nat → length stack = d →
  (∀ i, i ∈ l → slot_rep conf (node_rep conf H f s (S d)) s d (g i) (sub conf H d i m)) →
  ∃ kvs, kvs ≡ₚ (l ≫= λ i, map_to_list (sub conf H d i m)) ∧
    iter_run s (mkIter (omap g l :: stack) []) kvs (mkIter stack []).
Proof.
  intros Hnode Hf Hst. induction l as [|i l IH]; intros Hl.
  - exists []. split; [done|]. eapply run_continue; [done|apply run_refl].
  - destruct IH as (kvs & Hp & Hr); [intros j Hj; apply Hl; by rewrite elem_of_cons; right|].
    pose proof (Hl i ltac:(apply elem_of_cons; by left)) as Hi. cbn [omap list_omap mbind list_bind].
    destruct (g i) as [p|].
    2:{ cbn in Hi. rewrite Hi, map_to_list_empty. by exists kvs. }
    destruct Hi as [Hne Hi]. destruct p as [vals|c cache|node].
    { destruct Hi as [_ [_ Hperm]]. exists (vals ++ kvs). split; [by rewrite Hperm, Hp|].
      eapply run_continue; [reflexivity|]. eapply iter_run_trans; [|exact Hr].
      rewrite <-(app_nil_r vals) at 1. apply run_current. }
    all: destruct (step_child f s d _ (omap g l) stack _ ltac:(lia) Hst Hne Hi ltac:(done)) as (n' & E & Hn & _).
    all: destruct (Hnode n' _ (omap g l :: stack) Hn ltac:(simpl; lia)) as (kvs' & Hp' & Hr').
    all: exists (kvs' ++ kvs); (split; [by rewrite Hp', Hp|]).
    all: eapply run_continue; [exact E|]; by eapply iter_run_trans.
Qed.

Lemma run_node f s d n m stack : (f + d = levels w)%nat → node_rep conf H f s d n m → length stack = d →
  ∃ kvs, kvs ≡ₚ map_to_list m ∧ iter_run s (mkIter (pointers n :: stack) []) kvs (mkIter stack []).
Proof.
  revert d n m stack. induction f as [|f IH]; intros d n m stack Hf; [done|]. intros (g & Hv & Hg) Hst.
  destruct (run_slots f s d g m stack (seqZ 0 256)) as (kvs & Hp & Hr); try done.
  { intros n' m' stack' Hn Hst'. apply (IH (S d)); [lia|done..]. }
  { intros i Hi%elem_of_seqZ. apply Hg. lia. }
  exists kvs. rewrite (sub_partition conf H params_width d m) by lia. split; [done|].
  destruct Hv as (_ & _ & ->). exact Hr.
Qed.

(** ** Starting from a key *)

(** The iterator walks past the slots before the key's. *)
Lemma run_until f s d g m stack i : (S f + d = levels w)%nat → length stack = d → 0 ≤ i < 256 →
  (∀ j, 0 ≤ j < 256 → slot_rep conf (node_rep conf H f s (S d)) s d (g j) (sub conf H d j m)) →
  ∃ kvs, iter_run s (mkIter (omap g (seqZ 0 256) :: stack) []) kvs
    (mkIter ((option_list (g i) ++ omap g (seqZ (i + 1) (255 - i))) :: stack) []).
Proof.
  intros Hf Hst Hi Hg. rewrite (slots_split i) by done. rewrite omap_app.
  replace (omap g (i :: seqZ (i + 1) (255 - i))) with (option_list (g i) ++ omap g (seqZ (i + 1) (255 - i)))
    by (cbn [omap list_omap]; by destruct (g i)).
  set (rest := option_list (g i) ++ _). clearbody rest.
  assert (∀ j, j ∈ seqZ 0 i → 0 ≤ j < 256) as Hr by (intros j Hj%elem_of_seqZ; lia). revert Hr.
  generalize (seqZ 0 i). intros l. induction l as [|j l IH]; intros Hr.
  - exists []. apply run_refl.
  - destruct IH as (kvs & Hk); [intros j' Hj'; apply Hr; apply elem_of_cons; by right|].
    pose proof (Hg j (Hr j ltac:(apply elem_of_cons; by left))) as Hj. cbn [omap list_omap].
    destruct (g j) as [p|]; [|by exists kvs]. destruct Hj as [Hne Hj]. destruct p as [vals|c cache|node].
    { exists (vals ++ kvs). eapply run_continue; [reflexivity|]. eapply iter_run_trans; [|exact Hk].
      rewrite <-(app_nil_r vals) at 1. apply run_current. }
    all: destruct (step_child f s d _ (omap g l ++ rest) stack _ ltac:(lia) Hst Hne Hj ltac:(done)) as (n' & E & Hn & _).
    all: destruct (run_node f s (S d) n' _ ((omap g l ++ rest) :: stack) ltac:(lia) Hn ltac:(simpl; lia)) as (kvs' & _ & Hr').
    all: exists (kvs' ++ kvs); eapply run_continue; [exact E|]; by eapply iter_run_trans.
Qed.

Lemma new_from_ok f fuel s d n m stack k v : (f + d = levels w)%nat → (f ≤ fuel)%nat →
  node_rep conf H f s d n m → length stack = d → m !! k = Some v →
  ∃ l it rest, new_from_loop conf fuel s k (mkHashBits (H k) (consumed_at w d)) n stack = Ok it ∧
    iter_run s (mkIter (pointers n :: stack) []) l it ∧ it_current it = (k, v) :: rest.
Proof.
  revert fuel d n m stack. induction f as [|f IH]; intros [|fuel] d n m stack Hf Hfuel; [done..|lia|].
  intros (g & Hv & Hg) Hst Hk. pose proof (slot_range conf H params_width d k ltac:(lia)) as [_ Hi].
  pose proof (Hg _ Hi) as Hs. pose proof (sub_at conf H d m k) as Hsub. rewrite Hk in Hsub.
  destruct (slots_index _ _ g _ Hv Hi) as [Hidx Hps].
  destruct (run_until f s d g m stack _ Hf Hst Hi Hg) as (kvs & Hrun). destruct Hv as (_ & _ & Hpn). rewrite <-Hpn in Hrun.
  pose proof (hb_next_at w params_width (H k) d (params_hash k) ltac:(lia)) as Hnext.
  change (idx_at w (H k) d) with (slot_of conf H d k) in Hnext.
  destruct (g (slot_of conf H d k)) as [p|] eqn:Hgi; [|cbn in Hs; by rewrite Hs in Hsub].
  destruct Hs as [Hne Hs]. simpl in Hps, Hrun. set (ps := omap g (seqZ (slot_of conf H d k + 1) _)) in *.
  assert (drop (index_for_bit_pos (slot_of conf H d k) (bitfield n)) (pointers n) = p :: ps) as Hdrop.
  { by rewrite Hidx, Hps, drop_app_length. }
  destruct p as [vals|c cache|node].
  { cbn [new_from_loop]. rewrite Hnext, Hdrop. destruct Hs as [_ Hb].
    pose proof (bucket_position _ _ k Hb) as Hp. destruct (position _ vals) as [j|]; [|by rewrite Hp in Hsub].
    destruct Hp as (l1 & v' & l2 & -> & <- & Hv'). assert (v' = v) as -> by congruence.
    rewrite drop_app_length. exists (kvs ++ l1), (mkIter (ps :: stack) ((k, v) :: l2)), l2. split_and!; [done| |done].
    eapply iter_run_trans; [exact Hrun|]. eapply run_continue; [reflexivity|]. apply run_current. }
  all: destruct (step_child f s d _ ps stack _ ltac:(lia) Hst Hne Hs ltac:(done)) as (n' & E & Hn & Hloop).
  all: rewrite (Hloop fuel k _ _ _ n Hnext Hdrop).
  all: destruct (IH fuel (S d) n' _ (ps :: stack) ltac:(lia) ltac:(lia) Hn ltac:(simpl; lia) Hsub)
    as (l & it & rest & E' & Hr & Hc).
  all: exists (kvs ++ l), it, rest; split_and!; [done| |done].
  all: eapply iter_run_trans; [exact Hrun|]; by eapply run_continue.
Qed.

(** Whatever the depth a stored node is loaded with, it is the same node. *)
Lemma load_any R s c m d n : stored_with R s c m → (∀ n' m', R n' m' → ∃ g, has_view n' g) →
  node_load conf s c d = Ok n → R n m.
Proof.
  intros (n' & b & bz & Hl & Hr & Hs & Hz & -> & Hget) Hview. destruct (Hview _ _ Hr) as (g & Hv).
  unfold node_load, get_cbor. simpl. rewrite Hget. destruct (from_to_vec b) as (bz' & E1 & E2).
  assert (bz' = bz) as -> by congruence. rewrite E2. destruct b as [bfz bs]. unfold node_serialize in Hs.
  destruct (pointers_serialize (pointers n')) as [bs'|] eqn:Hps; [|done]. injection Hs as <- <-.
  rewrite bf_roundtrip by apply Hv. cbv zeta. rewrite (pointers_roundtrip _ _ Hl Hps).
  repeat case_match; try done. intros [= <-]. by destruct n'.
Qed.

(** A key the iterator starts from is in the map. *)
Lemma new_from_found fuel s k f d n m hb stack it : node_rep conf H f s d n m →
  new_from_loop conf fuel s k hb n stack = Ok it → is_Some (m !! k).
Proof.
  revert f d n m hb stack. induction fuel as [|fuel IH]; intros f d n m hb stack Hr; cbn [new_from_loop].
  { by destruct (hb_next _ hb) as [[]|]. }
  destruct (hb_next _ hb) as [[idx hb']|]; [|done].
  destruct (drop _ (pointers n)) as [|p ps] eqn:Hdrop; [by eapply IH|].
  destruct f as [|f]; [done|]. pose proof Hr as (g & (_ & _ & Hps) & Hg).
  assert (p ∈ pointers n) as Hin.
  { rewrite <-(take_drop (index_for_bit_pos idx (bitfield n))), Hdrop, elem_of_app, elem_of_cons. auto. }
  rewrite Hps in Hin. apply list_elem_of_omap in Hin as (i & Hi%elem_of_seqZ & Hgi).
  specialize (Hg i ltac:(lia)). rewrite Hgi in Hg. destruct Hg as [_ Hp].
  assert (∀ x, is_Some (sub conf H d i m !! x) → is_Some (m !! x)) as Hsub by (intros x [v [? _]%sub_lookup]; eauto).
  destruct p as [vals|c cache|node].
  - destruct Hp as [_ Hb]. pose proof (bucket_position _ _ k Hb) as Hpos.
    destruct (position _ vals) as [j|]; [|done]. destruct Hpos as (? & v & ? & _ & _ & Hk). intros _. apply Hsub. eauto.
  - destruct Hp as (_ & Hst & Hc). destruct (load_cached conf s c cache _) as [node|] eqn:El; [|done].
    intros E. apply Hsub. eapply IH; [|exact E]. destruct cache as [n0|]; simpl in El; [injection El as <-; auto|].
    eapply load_any; [exact Hst| |exact El]. intros n' m' Hn'. destruct f; [done|]. destruct Hn' as (g' & Hv' & _). eauto.
  - intros E. apply Hsub. by eapply IH; [apply Hp|exact E].
Qed.

(** ** The loops end *)

Definition take_opt {B} (max : option nat) (l : list B) : list B := match max with Some n => take n l | None => l end.
Definition drop_opt {B} (max : option nat) (l : list B) : list B := match max with Some n => drop n l | None => [] end.

Lemma traverse_run {A} (f : bytes → V → A → result string unit * A) s it l it' :
  iter_run s it l it' → step s it' = Finished → ∀ max t a, ∃ N it'', ∀ fuel, (N ≤ fuel)%nat →
    traverse conf f fuel s max t it a =
      (let '(r, a) := visit f (take_opt max l) a in
       Some (match r with Ok _ => Ok (t + length (take_opt max l))%nat | Err e => Err e end, it'', a)) ∧
    ((visit f (take_opt max l) a).1 = Ok tt → iter_run s it'' (drop_opt max l) it').
Proof.
  intros Hr Hend. induction Hr as [it|it kv it1 l it2 Hs Hr IH|it it1 l it2 Hs Hr IH]; intros max t a.
  - exists 1%nat, it. intros [|fuel] Hfuel; [lia|]. cbn [traverse].
    assert (take_opt max ([] : list (bytes * V)) = [] ∧ drop_opt max ([] : list (bytes * V)) = []) as [-> ->]
      by (destruct max as [[]|]; done).
    simpl. rewrite Nat.add_0_r. split; [|intros; apply run_refl]. case_bool_decide; [done|]. by rewrite Hend.
  - destruct max as [[|max]|].
    { exists 1%nat, it. intros [|fuel] Hfuel; [lia|]. simpl. rewrite Nat.add_0_r. split; [done|].
      intros _. by eapply run_yield. }
    all: destruct kv as [k v]; destruct (f k v a) as [[[]|e] a1] eqn:Hf.
    2,4: exists 1%nat, it1; intros [|fuel] Hfuel; [lia|]; cbn [traverse take_opt take visit]; rewrite Hs, Hf; simpl; done.
    1: destruct (IH Hend (Some max) (S t) a1) as (N & it'' & HN).
    2: destruct (IH Hend None (S t) a1) as (N & it'' & HN).
    all: exists (S N), it''; intros [|fuel] Hfuel; [lia|]; destruct (HN fuel ltac:(lia)) as [E Hd].
    all: cbn [traverse take_opt take drop_opt drop visit length] in *; rewrite Hs, Hf; simpl bool_decide; cbv iota.
    all: split; [|exact Hd]; cbn [fmap option_fmap option_map pred]; rewrite E; destruct (visit f _ a1) as [[?|?] ?];
      [do 4 f_equal; lia|done].
  - destruct (IH Hend max t a) as (N & it'' & HN). destruct (decide (max = Some O)) as [->|Hm].
    { exists 1%nat, it. intros [|fuel] Hfuel; [lia|]. simpl. rewrite Nat.add_0_r. split; [done|].
      intros _. by eapply run_continue. }
    exists (S N), it''. intros [|fuel] Hfuel; [lia|]. cbn [traverse]. rewrite bool_decide_false, Hs by done.
    apply HN. lia.
Qed.

Lemma iter_next_run s it l it' : iter_run s it l it' → step s it' = Finished →
  ∃ N it'', ∀ fuel, (N ≤ fuel)%nat → iter_next conf fuel s it = Some (Ok <$> head l, it'').
Proof.
  intros Hr Hend. induction Hr as [it|it kv it1 l it2 Hs Hr IH|it it1 l it2 Hs Hr IH].
  - exists 1%nat, it. intros [|fuel] Hfuel; [lia|]. simpl. by rewrite Hend.
  - exists 1%nat, it1. intros [|fuel] Hfuel; [lia|]. simpl. by rewrite Hs.
  - destruct (IH Hend) as (N & it'' & HN). exists (S N), it''. intros [|fuel] Hfuel; [lia|]. simpl. rewrite Hs.
    apply HN. lia.
Qed.

(** What a page of an iteration returns. *)
Definition page {A} (f : bytes → V → A → result string unit * A) (max : option nat) (l : list (bytes * V)) (a : A)
    : result HamtError (nat * option bytes) * A :=
  match visit f (take_opt max l) a with
  | (Ok _, a) => (Ok (length (take_opt max l), fst <$> head (drop_opt max l)), a)
  | (Err e, a) => (Err e, a)
  end.

Lemma ranged_run {A} (f : bytes → V → A → result string unit * A) s h it l it' start max (a : A) :
  match start with Some key => iter_new_from conf H s (hamt_root h) key | None => Ok (iter_new (hamt_root h)) end = Ok it →
  iter_run s it l it' → step s it' = Finished →
  ∃ N, ∀ fuel, (N ≤ fuel)%nat → for_each_ranged conf H f fuel s start max h a = Some (page f max l a).
Proof.
  intros Hit Hr Hend. destruct (traverse_run f s it l it' Hr Hend max 0 a) as (N & it'' & HN).
  unfold page. destruct (visit f (take_opt max l) a) as [[[]|e] a1] eqn:Hv; simpl in HN.
  - destruct (HN N (le_n _)) as [_ Hr']. specialize (Hr' eq_refl).
    destruct (iter_next_run s it'' _ _ Hr' Hend) as (N' & it3 & HN'). exists (N + N')%nat. intros fuel Hfuel.
    unfold for_each_ranged. rewrite Hit. rewrite (proj1 (HN fuel ltac:(lia))), (HN' fuel) by lia.
    by destruct (head _) as [[]|].
  - exists N. intros fuel Hfuel. unfold for_each_ranged. rewrite Hit. by rewrite (proj1 (HN fuel Hfuel)).
Qed.

Lemma top_run s h m : hrep conf H s h m →
  ∃ l, l ≡ₚ map_to_list m ∧ iter_run s (iter_new (hamt_root h)) l (mkIter [] []).
Proof. intros [Hr _]. by apply (run_node (levels w) s 0). Qed.

Lemma run_head s it l it' kv rest : iter_run s it l it' → it_current it = kv :: rest → step s it' = Finished →
  ∃ l', l = kv :: l'.
Proof.
  intros Hr Hc Hend. unfold iter_step in Hend.
  destruct Hr as [it|it kv' it1 l it2 Hs|it it1 l it2 Hs]; unfold iter_step in *; rewrite Hc in *; [done| |done].
  injection Hs as <- <-. by eexists.
Qed.

End walk.
