(* ===== verification/KamtExt.v ===== *)
(** * The KAMT's bit strings (ipld/kamt/src/hash_bits.rs, ext.rs, bitfield.rs)

    The KAMT's [HashBits] carries its own length, so that it can also read the
    path of an [Extension]: the part of the key that a link skips because no
    other key branches off there. Extensions are packed bit by bit into bytes by
    [ExtensionBuilder]. The second part of the file says what all of
    this computes: a packed extension is a number of [L] bits, and
    matching, splitting, joining and the longest common prefix are
    statements about the indexes of keys. *)

From S2P Require Import Prelude Effects Address Types HamtBits HamtCommon.
From stdpp Require Import gmap strings list fin_maps.
From Stdlib Require Import ZArith Lia.
#[local] Open Scope Z_scope.

(** Indexing a slice out of its bounds stops the program; here it is an
    error of its own. *)
Definition out_of_bounds : HamtError := Dynamic "index out of bounds".

(** ** HashBits *)

Record HashBits := mkHashBits { hb_b : bytes; hb_length : Z; hb_consumed : Z }.

Definition mkmask (n : Z) : Z := wrap32 (wrap64 (Z.shiftl 1 n) - 1).
Definition not32 (x : Z) : Z := u32_max - x.

Definition hb_new_at_index (hash_buffer : bytes) (consumed : Z) : HashBits :=
  mkHashBits hash_buffer (Z.of_nat (length hash_buffer) * 8) consumed.
Definition hb_new (hash_buffer : bytes) : HashBits := hb_new_at_index hash_buffer 0.
Definition hb_new_from_slice (hash_buffer : bytes) (length : Z) : HashBits :=
  mkHashBits hash_buffer length 0.

(** At most eight bits reach into at most one more byte: two steps. *)
Fixpoint next_bits (steps : nat) (i : Z) (hb : HashBits) : result HamtError (Z * HashBits) :=
  let consumed := hb_consumed hb in
  let curbi := consumed / 8 in
  let leftb := 8 - consumed `mod` 8 in
  match hb_b hb !! Z.to_nat curbi with
  | None => Err out_of_bounds
  | Some curb =>
      match i ?= leftb, steps with
      | Eq, _ => Ok (Z.land (mkmask i) curb, mkHashBits (hb_b hb) (hb_length hb) (consumed + i))
      | Lt, _ =>
          let a := Z.land curb (mkmask leftb) in
          let b := Z.land a (not32 (mkmask (leftb - i))) in
          Ok (Z.shiftr b (leftb - i), mkHashBits (hb_b hb) (hb_length hb) (consumed + i))
      | Gt, S steps =>
          let out := wrap64 (Z.shiftl (Z.land (mkmask leftb) curb) (i - leftb)) in
          match next_bits steps (i - leftb) (mkHashBits (hb_b hb) (hb_length hb) (consumed + leftb)) with
          | Err e => Err e
          | Ok (low, hb') => Ok (wrap32 (out + low), hb')
          end
      | Gt, O => Err out_of_bounds
      end
  end.

Definition hb_next (i : Z) (hb : HashBits) : result HamtError (Z * HashBits) :=
  if (8 <? i) || (i =? 0) then Err InvalidHashBitLen
  else if hb_length hb <=? hb_consumed hb then Err MaxDepth
  else let maxi := hb_length hb - hb_consumed hb in next_bits 1 (Z.min i maxi) hb.

(** ** Bitfield::last_one_idx *)

(** [u64::leading_zeros]. *)
Definition leading_zeros (v : Z) : Z := if v =? 0 then 64 else 63 - Z.log2 v.
Fixpoint last_one_from (idx : Z) (words : list Z) : option Z :=
  match words with
  | [] => None
  | v :: words =>
      let lz := leading_zeros v in
      let idx := idx - lz in
      if lz <? 64 then Some (idx - 1) else last_one_from idx words
  end.
Definition last_one_idx (b : Bitfield) : option Z := last_one_from (Z.of_nat (length b) * 64) (rev b).

(** ** ExtensionBuilder *)

Record Extension := mkExtension { ext_length : Z; ext_path : bytes }.
Definition Extension_default : Extension := mkExtension 0 [].
#[export] Instance Extension_eq_dec : EqDecision Extension.
Proof. solve_decision. Defined.

Definition ext_path_bits (e : Extension) : HashBits := hb_new_from_slice (ext_path e) (ext_length e).
Definition ext_is_empty (e : Extension) : bool := ext_length e =? 0.

Record ExtensionBuilder := mkBuilder { eb_written : Z; eb_out : Z; eb_path : bytes }.
Definition wrap8 (x : Z) : Z := x `mod` 256.
Definition builder_new : ExtensionBuilder := mkBuilder 0 0 [].

(** Pack the next nibble into the path; a nibble has at most eight bits. *)
Definition builder_add (i n : Z) (b : ExtensionBuilder) : ExtensionBuilder :=
  let j := eb_written b mod 8 in
  let '(out, path) :=
    if 8 <? j + i then
      let carry := j + i - 8 in
      (wrap8 (Z.shiftl (Z.land n (wrap8 (mkmask carry))) (8 - carry)),
       eb_path b ++ [wrap8 (eb_out b + Z.shiftr n carry)])
    else (wrap8 (eb_out b + wrap8 (Z.shiftl n (8 - j - i))), eb_path b) in
  let written := eb_written b + i in
  if written mod 8 =? 0 then mkBuilder written 0 (path ++ [out]) else mkBuilder written out path.

Definition builder_build (b : ExtensionBuilder) : Extension :=
  mkExtension (eb_written b) (if eb_written b mod 8 =? 0 then eb_path b else eb_path b ++ [eb_out b]).

(** ** Extension

    The loops advance by at least one bit per turn, so that the number of bits
    they run over is enough fuel. *)

Fixpoint longest_match_loop (fuel : nat) (bit_width length matched : Z) (path hashed_key : HashBits)
    : result HamtError (Z * HashBits) :=
  if negb (matched <? length) then Ok (matched, hashed_key) else
  match fuel with
  | O => Err MaxDepth
  | S fuel =>
      match hb_next bit_width hashed_key with
      | Err e => Err e
      | Ok (n1, hashed_key') =>
          match hb_next bit_width path with
          | Err e => Err e
          | Ok (n2, path) =>
              if n1 =? n2 then longest_match_loop fuel bit_width length (matched + bit_width) path hashed_key'
              else Ok (matched, hashed_key)
          end
      end
  end.
Definition longest_match (e : Extension) (hashed_key : HashBits) (bit_width : Z) : result HamtError (Z * HashBits) :=
  longest_match_loop (Z.to_nat (ext_length e)) bit_width (ext_length e) 0 (ext_path_bits e) hashed_key.

(** The inner loop of [longest_common_prefix]: [None] when a key differs. *)
Fixpoint all_next (bit_width n : Z) (hashes : list HashBits) : result HamtError (option (list HashBits)) :=
  match hashes with
  | [] => Ok (Some [])
  | h :: hashes =>
      match hb_next bit_width h with
      | Err e => Err e
      | Ok (nh, h) =>
          if negb (n =? nh) then Ok None else
          match all_next bit_width n hashes with
          | Ok (Some hashes) => Ok (Some (h :: hashes))
          | r => r
          end
      end
  end.
Fixpoint common_prefix_loop (fuel : nat) (bit_width total_bits : Z) (hashes : list HashBits)
    (builder : ExtensionBuilder) (hashed_key : HashBits) : result HamtError (ExtensionBuilder * HashBits) :=
  if negb (hb_consumed hashed_key <? total_bits) then Ok (builder, hashed_key) else
  match fuel with
  | O => Err MaxDepth
  | S fuel =>
      match hb_next bit_width hashed_key with
      | Err e => Err e
      | Ok (n, hashed_key') =>
          match all_next bit_width n hashes with
          | Err e => Err e
          | Ok None => Ok (builder, hashed_key)
          | Ok (Some hashes) =>
              common_prefix_loop fuel bit_width total_bits hashes (builder_add bit_width (wrap8 n) builder) hashed_key'
          end
      end
  end.
Definition longest_common_prefix (hashed_key : HashBits) (bit_width : Z) (hashes : list bytes)
    : result HamtError (Extension * HashBits) :=
  let hashes := (λ k, hb_new_at_index k (hb_consumed hashed_key)) <$> hashes in
  match common_prefix_loop (Z.to_nat (hb_length hashed_key)) bit_width (hb_length hashed_key) hashes
          builder_new hashed_key with
  | Err e => Err e
  | Ok (builder, hashed_key) => Ok (builder_build builder, hashed_key)
  end.

Fixpoint from_bits_loop (fuel : nat) (builder : ExtensionBuilder) (bits : HashBits) (length : Z)
    : result HamtError (ExtensionBuilder * HashBits) :=
  if negb (0 <? length) then Ok (builder, bits) else
  match fuel with
  | O => Err MaxDepth
  | S fuel =>
      let i := Z.min length 8 in
      match hb_next i bits with
      | Err e => Err e
      | Ok (n, bits) => from_bits_loop fuel (builder_add i (wrap8 n) builder) bits (length - i)
      end
  end.
Definition from_bits (bits : HashBits) (length : Z) : result HamtError (Extension * HashBits) :=
  match from_bits_loop (Z.to_nat length) builder_new bits length with
  | Err e => Err e
  | Ok (builder, bits) => Ok (builder_build builder, bits)
  end.

Definition ext_split (e : Extension) (consumed bit_width : Z) : result HamtError (Extension * Extension * Extension) :=
  match from_bits (ext_path_bits e) consumed with
  | Err e => Err e
  | Ok (head, path) =>
      match from_bits path bit_width with
      | Err e => Err e
      | Ok (idx, path) =>
          match from_bits path (wrap32 (ext_length e - ext_length head - ext_length idx)) with
          | Err e => Err e
          | Ok (tail, _) => Ok (head, idx, tail)
          end
      end
  end.

Fixpoint merge_one (fuel : nat) (bit_width bits_left : Z) (path : HashBits) (builder : ExtensionBuilder)
    : result HamtError ExtensionBuilder :=
  if negb (0 <? bits_left) then Ok builder else
  match fuel with
  | O => Err MaxDepth
  | S fuel =>
      let i := Z.min bit_width bits_left in
      match hb_next i path with
      | Err e => Err e
      | Ok (n, path) => merge_one fuel bit_width (bits_left - i) path (builder_add i (wrap8 n) builder)
      end
  end.
Fixpoint merge_loop (bit_width : Z) (exts : list Extension) (builder : ExtensionBuilder) : result HamtError ExtensionBuilder :=
  match exts with
  | [] => Ok builder
  | e :: exts =>
      match merge_one (Z.to_nat (ext_length e)) bit_width (ext_length e) (ext_path_bits e) builder with
      | Err e => Err e
      | Ok builder => merge_loop bit_width exts builder
      end
  end.
Definition ext_merge (exts : list Extension) (bit_width : Z) : result HamtError Extension :=
  match merge_loop bit_width exts builder_new with
  | Err e => Err e
  | Ok builder => Ok (builder_build builder)
  end.
Definition ext_unsplit (ext1 idx ext2 : Extension) : result HamtError Extension :=
  ext_merge [ext1; idx; ext2] (ext_length idx).
Definition from_idx (idx bit_width : Z) : Extension := builder_build (builder_add bit_width idx builder_new).
