(* ===== verification/KamtPaths.v ===== *)
(** * What the KAMT's bit strings compute

    [pack L V] is the extension that holds the number [V] of [L] bits. Every
    operation of [KamtExt] on packed extensions and 32-byte keys is computed
    here, first on numbers, then in terms of the indexes [idx_at] of a key at the levels
    of the tree: [path_ext h d e] is the extension that skips the
    levels from [d] to [e] on the way to the key [h]. *)

From S2P Require Import Prelude Effects Address Types HamtBits HamtCommon KamtExt.
From stdpp Require Import gmap strings list fin_maps.
From Stdlib Require Import ZArith Lia.
#[local] Open Scope Z_scope.

(** ** Groups of bits of a number *)

(** Bits [c] to [c + i] of a number of [L] bits, the most significant first. *)
Definition bits_of (L V c i : Z) : Z := (V / 2 ^ (L - c - i)) mod 2 ^ i.

Lemma pow2_pos n : 0 ≤ n → 0 < 2 ^ n.
Proof. apply Z.pow_pos_nonneg. lia. Qed.

Lemma bits_of_range L V c i : 0 ≤ i → 0 ≤ bits_of L V c i < 2 ^ i.
Proof. intros Hi. apply Z.mod_pos_bound. by apply pow2_pos. Qed.

Lemma bits_of_all L V : 0 ≤ V < 2 ^ L → bits_of L V 0 L = V.
Proof.
  intros HV. unfold bits_of. replace (L - 0 - L) with 0 by lia. rewrite Z.div_1_r. by apply Z.mod_small.
Qed.

Lemma bits_of_0 L V c : bits_of L V c 0 = 0.
Proof. apply Z.mod_1_r. Qed.

Lemma bits_of_app L V c i j : 0 ≤ i → 0 ≤ j → c + i + j ≤ L →
  bits_of L V c (i + j) = bits_of L V c i * 2 ^ j + bits_of L V (c + i) j.
Proof.
  intros Hi Hj HL. unfold bits_of. replace (L - c - (i + j)) with (L - (c + i) - j) by lia.
  set (X := V / 2 ^ (L - (c + i) - j)).
  assert (V / 2 ^ (L - c - i) = X / 2 ^ j) as ->.
  { unfold X. rewrite Z.div_div by (try apply Z.pow_nonzero; try apply pow2_pos; lia).
    rewrite <-Z.pow_add_r by lia. f_equal. f_equal. lia. }
  rewrite (Z.add_comm i j), Z.pow_add_r by lia.
  rewrite Z.rem_mul_r by (try apply Z.pow_nonzero; try apply pow2_pos; lia). lia.
Qed.

(** A group of bits within a group of bits. *)
Lemma bits_of_nest L V c n a i : 0 ≤ a → 0 ≤ i → a + i ≤ n → c + n ≤ L →
  bits_of n (bits_of L V c n) a i = bits_of L V (c + a) i.
Proof.
  intros Ha Hi Hn HL. replace n with (a + (i + (n - a - i))) at 2 by lia.
  rewrite (bits_of_app L V c a), (bits_of_app L V (c + a) i) by lia. unfold bits_of at 1.
  set (x := bits_of L V c a). set (y := bits_of L V (c + a) i). set (z := bits_of L V (c + a + i) (n - a - i)).
  pose proof (bits_of_range L V (c + a) i Hi) as Hy. fold y in Hy.
  pose proof (bits_of_range L V (c + a + i) (n - a - i) ltac:(lia)) as Hz. fold z in Hz.
  rewrite Z.pow_add_r by lia.
  replace (x * (2 ^ i * 2 ^ (n - a - i)) + (y * 2 ^ (n - a - i) + z))
    with ((x * 2 ^ i + y) * 2 ^ (n - a - i) + z) by ring.
  rewrite Z.div_add_l, (Z.div_small z), Z.add_0_r by (try apply Z.pow_nonzero; lia).
  rewrite Z.add_comm, Z.mod_add by (apply Z.pow_nonzero; lia). by apply Z.mod_small.
Qed.

(** Equal groups consist of equal groups. *)
Lemma bits_of_split_eq L V V' c i j : 0 ≤ i → 0 ≤ j → c + i + j ≤ L →
  bits_of L V c (i + j) = bits_of L V' c (i + j) ↔
  bits_of L V c i = bits_of L V' c i ∧ bits_of L V (c + i) j = bits_of L V' (c + i) j.
Proof.
  intros Hi Hj HL. rewrite !bits_of_app by done.
  pose proof (bits_of_range L V (c + i) j Hj). pose proof (bits_of_range L V' (c + i) j Hj).
  split; [|by intros [-> ->]]. intros Heq.
  assert (bits_of L V c i = bits_of L V' c i) as E by nia. split; [done|]. rewrite E in Heq. lia.
Qed.

(** ** Reading *)

Lemma wrap32_id x : 0 ≤ x < 2 ^ 32 → wrap32 x = x.
Proof. intros. by apply Z.mod_small. Qed.

Lemma byte_mask b n : is_byte b → 1 ≤ n ≤ 8 → Z.land (mkmask n) b = b mod 2 ^ n.
Proof.
  intros Hb Hn. rewrite <-byte_bits_equal by done. f_equal.
  pose proof (forallb_seqZ (λ n, mkmask n =? HamtBits.mkmask n) 1 8 ltac:(vm_compute; reflexivity) n ltac:(lia)) as E.
  cbv beta in E. lia.
Qed.

Lemma byte_middle b leftb i : is_byte b → 1 ≤ i < leftb → leftb ≤ 8 →
  Z.shiftr (Z.land (Z.land b (mkmask leftb)) (not32 (mkmask (leftb - i)))) (leftb - i) = (b / 2 ^ (leftb - i)) mod 2 ^ i.
Proof.
  intros Hb Hi Hl.
  assert (forallb (λ b, forallb (λ l, forallb (λ i, (l <=? i) ||
      (Z.shiftr (Z.land (Z.land b (mkmask l)) (not32 (mkmask (l - i)))) (l - i) =? (b / 2 ^ (l - i)) mod 2 ^ i))
    (seqZ 1 8)) (seqZ 1 8)) (seqZ 0 256) = true) as Hall by (vm_compute; reflexivity).
  pose proof (forallb_seqZ _ _ _ Hall b ltac:(unfold is_byte in Hb; lia)) as H1.
  pose proof (forallb_seqZ _ _ _ H1 leftb ltac:(lia)) as H2.
  pose proof (forallb_seqZ _ _ _ H2 i ltac:(lia)) as H3. cbv beta in H3. lia.
Qed.

Section reading.
Context (bz : bytes) (Hbz : Forall is_byte bz).
Let N := Z.of_nat (length bz) * 8.

Lemma lookup_byte c : 0 ≤ c < N → bz !! Z.to_nat (c / 8) = Some (nth (Z.to_nat (c / 8)) bz 0).
Proof.
  intros Hc. pose proof (Z.div_mod c 8 ltac:(lia)). pose proof (Z.mod_pos_bound c 8 ltac:(lia)).
  rewrite nth_lookup. destruct (bz !! Z.to_nat (c / 8)) eqn:E; [done|]. apply lookup_ge_None in E. unfold N in Hc. lia.
Qed.

Lemma next_bits_one s len c i : 0 ≤ c → 1 ≤ i → c + i ≤ N → i ≤ 8 - c mod 8 →
  next_bits s i (mkHashBits bz len c) = Ok (bit_group bz c i, mkHashBits bz len (c + i)).
Proof.
  intros Hc Hi HN Hleft. destruct (bit_group_byte bz Hbz c i Hc Hi HN Hleft) as [-> Hb].
  pose proof (Z.mod_pos_bound c 8 ltac:(lia)).
  destruct s; simpl next_bits; cbn [hb_consumed hb_b hb_length]; rewrite lookup_byte by lia.
  all: destruct (Z.compare_spec i (8 - c mod 8)) as [He|Hlt|]; [| |lia]; do 2 f_equal.
  1,3: rewrite He at 2; rewrite Z.sub_diag, Z.div_1_r; apply byte_mask; [done|lia].
  all: apply byte_middle; [done|lia..].
Qed.

Lemma knext_bits_spec len c i : 0 ≤ c → 1 ≤ i ≤ 8 → c + i ≤ N →
  next_bits 1 i (mkHashBits bz len c) = Ok (bit_group bz c i, mkHashBits bz len (c + i)).
Proof.
  intros Hc Hi HN. destruct (Z.leb_spec i (8 - c mod 8)); [apply next_bits_one; lia|].
  pose proof (Z.mod_pos_bound c 8 ltac:(lia)) as Hm. set (l := 8 - c mod 8) in *.
  assert ((c + l) mod 8 = 0) as Hz.
  { unfold l. replace (c + (8 - c mod 8)) with ((c - c mod 8) + 1 * 8) by ring.
    rewrite Z.mod_add by lia. rewrite Zminus_mod_idemp_r, Z.sub_diag. done. }
  remember 0%nat as z. cbn [next_bits hb_consumed hb_b hb_length]. subst z. fold l. rewrite lookup_byte by lia.
  destruct (Z.compare_spec i l); [lia..|].
  rewrite next_bits_one by lia. do 2 f_equal; [|f_equal; lia].
  pose proof (bit_group_byte bz Hbz c l ltac:(lia) ltac:(lia) ltac:(lia) ltac:(lia)) as [Hg Hb].
  fold l in Hg. rewrite Z.sub_diag, Z.div_1_r in Hg. rewrite byte_mask, <-Hg by (done || lia).
  rewrite Z.shiftl_mul_pow2 by lia. change (bit_group bz) with (bits_of N (be_value bz)).
  pose proof (bits_of_app N (be_value bz) c l (i - l) ltac:(lia) ltac:(lia) ltac:(lia)) as Happ.
  replace (l + (i - l)) with i in Happ by lia. rewrite Happ.
  pose proof (bits_of_range N (be_value bz) c l ltac:(lia)).
  pose proof (bits_of_range N (be_value bz) (c + l) (i - l) ltac:(lia)).
  assert (2 ^ l * 2 ^ (i - l) ≤ 256).
  { rewrite <-Z.pow_add_r by lia. change 256 with (2 ^ 8). apply Z.pow_le_mono_r; lia. }
  unfold wrap64. rewrite Z.mod_small by nia. apply wrap32_id. nia.
Qed.

Lemma hb_next_spec len c i : 0 ≤ c < len → len ≤ N → 1 ≤ i ≤ 8 →
  hb_next i (mkHashBits bz len c) =
    Ok (bit_group bz c (Z.min i (len - c)), mkHashBits bz len (c + Z.min i (len - c))).
Proof.
  intros Hc Hlen Hi. unfold hb_next. cbn [hb_length hb_consumed].
  destruct (Z.ltb_spec 8 i), (Z.eqb_spec i 0), (Z.leb_spec len c); try lia. simpl. apply knext_bits_spec; lia.
Qed.
End reading.

(** ** Packing *)

Definition pad (L : Z) : Z := (- L) mod 8.
Definition pack (L V : Z) : Extension :=
  mkExtension L (to_be_bytes (Z.to_nat ((L + pad L) / 8)) (V * 2 ^ pad L)).

Lemma to_be_bytes_ok n x : Forall is_byte (to_be_bytes n x).
Proof. induction n as [|n IH]; constructor; [|exact IH]. apply Z.mod_pos_bound. lia. Qed.

Lemma be_value_snoc l b : be_value (l ++ [b]) = be_value l * 256 + b.
Proof.
  induction l as [|x l IH]; [simpl; lia|]. cbn [app be_value]. rewrite IH, length_app. simpl (length [b]).
  rewrite Nat2Z.inj_add, Z.pow_add_r, Z.pow_1_r by lia. ring.
Qed.

Lemma pad_spec L : 0 ≤ L → 0 ≤ pad L < 8 ∧ (L + pad L) / 8 * 8 = L + pad L ∧
  pad L = if decide (L mod 8 = 0) then 0 else 8 - L mod 8.
Proof.
  intros HL. unfold pad. pose proof (Z.mod_pos_bound (- L) 8 ltac:(lia)). pose proof (Z.mod_pos_bound L 8 ltac:(lia)).
  pose proof (Z.div_mod L 8 ltac:(lia)). split_and!; [lia..| |].
  - assert ((L + (- L) mod 8) mod 8 = 0) as E by (rewrite Zplus_mod_idemp_r, Z.add_opp_diag_r; done).
    pose proof (Z.div_mod (L + (- L) mod 8) 8 ltac:(lia)). lia.
  - case_decide as E; [by apply Z.mod_opp_l_z|]. by apply Z.mod_opp_l_nz.
Qed.

Lemma pack_path L V : 0 ≤ V < 2 ^ L → 0 ≤ L →
  Forall is_byte (ext_path (pack L V)) ∧ Z.of_nat (length (ext_path (pack L V))) * 8 = L + pad L ∧
  be_value (ext_path (pack L V)) = V * 2 ^ pad L.
Proof.
  intros HV HL. destruct (pad_spec L HL) as (Hp & H8 & _). cbn [pack ext_path].
  split_and!; [apply to_be_bytes_ok| |].
  - rewrite length_to_be_bytes, Z2Nat.id; [lia|]. apply Z.div_pos; lia.
  - rewrite be_value_to_be_bytes. apply Z.mod_small. rewrite Z2Nat.id by (apply Z.div_pos; lia).
    change 256 with (2 ^ 8). rewrite <-Z.pow_mul_r by (try apply Z.div_pos; lia). rewrite (Z.mul_comm 8), H8.
    rewrite Z.pow_add_r by lia. pose proof (pow2_pos (pad L) ltac:(lia)). nia.
Qed.

(** The bits of a packed extension. *)
Lemma pack_bits L V c i : 0 ≤ V < 2 ^ L → 0 ≤ c → 0 ≤ i → c + i ≤ L →
  bit_group (ext_path (pack L V)) c i = bits_of L V c i.
Proof.
  intros HV Hc Hi HL. destruct (pack_path L V HV ltac:(lia)) as (_ & Hl & Hv). destruct (pad_spec L ltac:(lia)) as (Hp & _).
  unfold bit_group, bits_of. rewrite Hl, Hv. replace (L + pad L - c - i) with ((L - c - i) + pad L) by lia.
  rewrite Z.pow_add_r by lia. rewrite Z.div_mul_cancel_r by (apply Z.pow_nonzero; lia). done.
Qed.

(** What a builder holds: [L] bits of the number [V]. *)
Definition builder_ok (b : ExtensionBuilder) (L V : Z) : Prop :=
  eb_written b = L ∧ 0 ≤ L ∧ 0 ≤ V < 2 ^ L ∧ Forall is_byte (eb_path b) ∧
  Z.of_nat (length (eb_path b)) = L / 8 ∧ eb_out b = (V mod 2 ^ (L mod 8)) * 2 ^ (8 - L mod 8) ∧
  be_value (eb_path b) = V / 2 ^ (L mod 8).

Lemma builder_new_ok : builder_ok builder_new 0 0.
Proof. unfold builder_ok. simpl. split_and!; done || lia. Qed.

(** Removing the lowest bits of a number that was extended by [i] bits. *)
Lemma extend_div V n i c : 0 ≤ c ≤ i → 0 ≤ n → (V * 2 ^ i + n) / 2 ^ c = V * 2 ^ (i - c) + n / 2 ^ c.
Proof.
  intros Hc Hn. replace (2 ^ i) with (2 ^ (i - c) * 2 ^ c) by (rewrite <-Z.pow_add_r by lia; f_equal; lia).
  rewrite Z.mul_assoc, Z.div_add_l; [done|]. apply Z.pow_nonzero; lia.
Qed.
Lemma extend_mod V n i c : 0 ≤ c ≤ i → 0 ≤ n → (V * 2 ^ i + n) mod 2 ^ c = n mod 2 ^ c.
Proof.
  intros Hc Hn. replace (2 ^ i) with (2 ^ (i - c) * 2 ^ c) by (rewrite <-Z.pow_add_r by lia; f_equal; lia).
  rewrite Z.mul_assoc, Z.add_comm, Z.mod_add; [done|]. apply Z.pow_nonzero; lia.
Qed.
Lemma extend_range V n L i : 0 ≤ L → 0 ≤ i → 0 ≤ V < 2 ^ L → 0 ≤ n < 2 ^ i → 0 ≤ V * 2 ^ i + n < 2 ^ (L + i).
Proof. intros HL Hi HV Hn. rewrite Z.pow_add_r by lia. nia. Qed.

Lemma div_mod_8 L i : 0 ≤ L → 0 ≤ L mod 8 + i → 
  (L + i) mod 8 = (L mod 8 + i) mod 8 ∧ (L + i) / 8 = L / 8 + (L mod 8 + i) / 8.
Proof.
  intros HL Hi. rewrite (Z.div_mod L 8) at 1 3 by lia.
  replace (8 * (L / 8) + L mod 8 + i) with (L mod 8 + i + L / 8 * 8) by lia.
  rewrite Z.mod_add, Z.div_add by lia. split; [done|lia].
Qed.

Lemma wrap8_id x : is_byte x → wrap8 x = x.
Proof. intros. by apply Z.mod_small. Qed.

(** A byte put together from [j] and [8 - j] bits. *)
Lemma byte_of_parts x y j : 0 ≤ j ≤ 8 → 0 ≤ x < 2 ^ j → 0 ≤ y < 2 ^ (8 - j) → is_byte (x * 2 ^ (8 - j) + y).
Proof.
  intros Hj Hx Hy. pose proof (extend_range x y j (8 - j) ltac:(lia) ltac:(lia) Hx Hy) as Hr.
  by replace (j + (8 - j)) with 8 in Hr by lia.
Qed.

(** The nibble does not fit into the current byte. *)
Lemma add_carry b L V i n : builder_ok b L V → 1 ≤ i ≤ 8 → 0 ≤ n < 2 ^ i → 8 < L mod 8 + i →
  builder_ok (builder_add i n b) (L + i) (V * 2 ^ i + n).
Proof.
  intros (Hwr & HL & HV & Hpb & Hpl & Hout & Hval) Hi Hn Hc. set (j := L mod 8) in *.
  pose proof (Z.mod_pos_bound L 8 ltac:(lia)) as Hj. fold j in Hj. set (c := j + i - 8).
  destruct (div_mod_8 L i HL ltac:(lia)) as [Hm Hd]. fold j in Hm, Hd.
  assert ((j + i) mod 8 = c) as Hmc by (replace (j + i) with (c + 1 * 8) by lia; rewrite Z.mod_add by lia; apply Z.mod_small; lia).
  assert ((j + i) / 8 = 1) as Hdc by (replace (j + i) with (c + 1 * 8) by lia; rewrite Z.div_add by lia; rewrite Z.div_small; lia).
  rewrite Hmc in Hm. rewrite Hdc in Hd.
  assert (2 ^ i = 2 ^ c * 2 ^ (8 - j)) as Hpi by (rewrite <-Z.pow_add_r by lia; f_equal; lia).
  assert (2 ^ j * 2 ^ (8 - j) = 256) as H256 by (rewrite <-Z.pow_add_r by lia; replace (j + (8 - j)) with 8 by lia; done).
  assert (2 ^ c * 2 ^ (8 - c) = 256) as H256c by (rewrite <-Z.pow_add_r by lia; replace (c + (8 - c)) with 8 by lia; done).
  pose proof (pow2_pos c ltac:(lia)) as Hpc. pose proof (pow2_pos (8 - j) ltac:(lia)). pose proof (pow2_pos (8 - c) ltac:(lia)).
  pose proof (Z.mod_pos_bound V (2 ^ j) (pow2_pos j ltac:(lia))) as Hvm.
  assert (0 ≤ n / 2 ^ c < 2 ^ (8 - j)) as Hnd.
  { split; [apply Z.div_pos; lia|]. apply Z.div_lt_upper_bound; [lia|]. lia. }
  pose proof (Z.mod_pos_bound n (2 ^ c) Hpc) as Hnm.
  assert (is_byte (eb_out b + n / 2 ^ c)) as Hbyte by (rewrite Hout; apply byte_of_parts; lia).
  unfold builder_add. rewrite Hwr. fold j. destruct (Z.ltb_spec 8 (j + i)); [|lia]. fold c.
  rewrite Hm. destruct (Z.eqb_spec c 0); [lia|].
  rewrite Z.shiftr_div_pow2, (wrap8_id (eb_out b + _)) by (done || lia).
  assert (wrap8 (Z.shiftl (Z.land n (wrap8 (mkmask c))) (8 - c)) = n mod 2 ^ c * 2 ^ (8 - c)) as ->.
  { rewrite Z.land_comm. replace (wrap8 (mkmask c)) with (mkmask c).
    2:{ pose proof (forallb_seqZ (λ c, mkmask c =? wrap8 (mkmask c)) 1 8 ltac:(vm_compute; reflexivity) c ltac:(lia)) as E.
        cbv beta in E. lia. }
    assert (is_byte n) by (unfold is_byte; pose proof (Z.pow_le_mono_r 2 i 8); lia).
    rewrite byte_mask, Z.shiftl_mul_pow2 by (done || lia). apply wrap8_id. rewrite <-(Z.add_0_r (_ * _)).
    apply byte_of_parts; lia. }
  pose proof (extend_range V n L i HL ltac:(lia) HV Hn).
  unfold builder_ok. cbn [eb_written eb_out eb_path]. rewrite Hm. split_and!; [done|lia|lia..| | | |].
  - apply Forall_app. split; [done|]. by apply Forall_singleton.
  - rewrite length_app, Nat2Z.inj_add. simpl (length [_]). lia.
  - by rewrite extend_mod by lia.
  - rewrite be_value_snoc, Hval, Hout, extend_div by lia. replace (i - c) with (8 - j) by lia.
    rewrite (Z.div_mod V (2 ^ j)) at 3 by (apply Z.pow_nonzero; lia). rewrite <-H256. ring.
Qed.

(** The nibble fits. *)
Lemma add_fits b L V i n : builder_ok b L V → 1 ≤ i → 0 ≤ n < 2 ^ i → L mod 8 + i ≤ 8 →
  builder_ok (builder_add i n b) (L + i) (V * 2 ^ i + n).
Proof.
  intros (Hwr & HL & HV & Hpb & Hpl & Hout & Hval) Hi Hn Hc. set (j := L mod 8) in *.
  pose proof (Z.mod_pos_bound L 8 ltac:(lia)) as Hj. fold j in Hj.
  destruct (div_mod_8 L i HL ltac:(lia)) as [Hm Hd]. fold j in Hm, Hd.
  pose proof (Z.mod_pos_bound V (2 ^ j) (pow2_pos j ltac:(lia))) as Hvm.
  pose proof (pow2_pos (8 - j - i) ltac:(lia)). pose proof (pow2_pos i ltac:(lia)).
  assert (2 ^ (8 - j) = 2 ^ i * 2 ^ (8 - j - i)) as Hp1 by (rewrite <-Z.pow_add_r by lia; f_equal; lia).
  assert (2 ^ j * 2 ^ i * 2 ^ (8 - j - i) = 256) as H256.
  { rewrite <-!Z.pow_add_r by lia. replace (j + i + (8 - j - i)) with 8 by lia. done. }
  assert ((V * 2 ^ i + n) mod 2 ^ (j + i) = V mod 2 ^ j * 2 ^ i + n) as Hmod.
  { rewrite (Z.div_mod V (2 ^ j)) at 1 by (apply Z.pow_nonzero; lia). rewrite Z.pow_add_r by lia.
    replace ((2 ^ j * (V / 2 ^ j) + V mod 2 ^ j) * 2 ^ i + n) with ((V mod 2 ^ j * 2 ^ i + n) + (V / 2 ^ j) * (2 ^ j * 2 ^ i)) by ring.
    rewrite Z.mod_add by nia. apply Z.mod_small. nia. }
  assert ((V * 2 ^ i + n) / 2 ^ (j + i) = V / 2 ^ j) as Hdiv.
  { rewrite Z.add_comm in Hmod |- *. rewrite Z.pow_add_r, (Z.mul_comm (2 ^ j)), <-Z.div_div by (try apply Z.pow_nonzero; lia).
    f_equal. rewrite Z.add_comm, Z.div_add_l, (Z.div_small n) by (try apply Z.pow_nonzero; lia). lia. }
  set (out := (V mod 2 ^ j * 2 ^ i + n) * 2 ^ (8 - j - i)).
  assert (is_byte out) as Hbyte by (unfold is_byte, out; nia).
  unfold builder_add. rewrite Hwr. fold j. destruct (Z.ltb_spec 8 (j + i)); [lia|].
  assert (wrap8 (eb_out b + wrap8 (Z.shiftl n (8 - j - i))) = out) as ->.
  { rewrite Z.shiftl_mul_pow2 by lia. rewrite (wrap8_id (n * _)) by (unfold is_byte; nia).
    rewrite Hout, wrap8_id; unfold out; [rewrite Hp1; ring|]. rewrite Hp1. 
    replace (V mod 2 ^ j * (2 ^ i * 2 ^ (8 - j - i)) + n * 2 ^ (8 - j - i)) with out by (unfold out; ring). done. }
  pose proof (extend_range V n L i HL ltac:(lia) HV Hn) as Hrange.
  unfold builder_ok. destruct (decide (j + i = 8)) as [E|E].
  - rewrite E in *. change (8 mod 8) with 0 in Hm. change (8 / 8) with 1 in Hd. rewrite Hm. simpl Z.eqb. cbv iota.
    cbn [eb_written eb_out eb_path]. change (2 ^ 0) with 1. rewrite Z.mod_1_r, Z.div_1_r.
    split_and!; [done|lia|lia..| | |lia|].
    + apply Forall_app. split; [done|]. by apply Forall_singleton.
    + rewrite length_app, Nat2Z.inj_add. simpl (length [_]). lia.
    + rewrite be_value_snoc, Hval. unfold out. replace (8 - j - i) with 0 by lia. rewrite Z.pow_0_r, Z.mul_1_r, <-Hmod, <-Hdiv.
      pose proof (Z.div_mod (V * 2 ^ i + n) (2 ^ 8) ltac:(lia)). lia.
  - assert ((j + i) mod 8 = j + i) as Hm' by (apply Z.mod_small; lia). rewrite Hm' in Hm.
    rewrite (Z.div_small (j + i)) in Hd by lia. rewrite Hm. destruct (Z.eqb_spec (j + i) 0); [lia|].
    cbn [eb_written eb_out eb_path]. split_and!; [done|lia|lia..|done|lia| |congruence].
    rewrite Hmod. unfold out. do 2 f_equal. lia.
Qed.

Lemma builder_add_ok b L V i n : builder_ok b L V → 1 ≤ i ≤ 8 → 0 ≤ n < 2 ^ i →
  builder_ok (builder_add i n b) (L + i) (V * 2 ^ i + n).
Proof.
  intros. destruct (Z.le_gt_cases (L mod 8 + i) 8); [apply add_fits|apply add_carry]; done || lia.
Qed.

Lemma builder_build_ok b L V : builder_ok b L V → builder_build b = pack L V.
Proof.
  intros (Hwr & HL & HV & Hpb & Hpl & Hout & Hval). destruct (pack_path L V HV HL) as (Hb & Hl & Hv).
  destruct (pad_spec L HL) as (_ & _ & Hpad). pose proof (Z.mod_pos_bound L 8 ltac:(lia)) as Hj.
  pose proof (Z.div_mod L 8 ltac:(lia)) as HL8.
  unfold builder_build. rewrite Hwr. unfold pack at 1. f_equal. change (to_be_bytes _ _) with (ext_path (pack L V)).
  destruct (Z.eqb_spec (L mod 8) 0) as [E|E]; (apply be_value_inj; [|done|..]).
  - done.
  - rewrite decide_True in Hpad by done. lia.
  - rewrite decide_True in Hpad by done. rewrite Hv, Hval, Hpad, E. by rewrite Z.div_1_r, Z.mul_1_r.
  - apply Forall_app. split; [done|]. apply Forall_singleton. rewrite Hout, <-(Z.add_0_r (_ * _)).
    pose proof (pow2_pos (L mod 8) ltac:(lia)). pose proof (pow2_pos (8 - L mod 8) ltac:(lia)).
    apply byte_of_parts; [lia| |lia]. by apply Z.mod_pos_bound.
  - rewrite length_app. rewrite decide_False in Hpad by done. simpl (length [_]). lia.
  - rewrite be_value_snoc, Hv, Hval, Hout. rewrite decide_False in Hpad by done. rewrite Hpad.
    rewrite (Z.div_mod V (2 ^ (L mod 8))) at 3 by (apply Z.pow_nonzero; lia).
    replace 256 with (2 ^ (L mod 8) * 2 ^ (8 - L mod 8)); [ring|].
    rewrite <-Z.pow_add_r by lia. replace (L mod 8 + (8 - L mod 8)) with 8 by lia. done.
Qed.

(** ** The operations on packed extensions *)

Lemma group_range bz c i : 0 ≤ i → 0 ≤ bit_group bz c i < 2 ^ i.
Proof. apply bits_of_range. Qed.
Lemma wrap8_group bz c i : 0 ≤ i ≤ 8 → wrap8 (bit_group bz c i) = bit_group bz c i.
Proof.
  intros Hi. apply wrap8_id. pose proof (group_range bz c i ltac:(lia)). pose proof (Z.pow_le_mono_r 2 i 8).
  unfold is_byte. lia.
Qed.
Lemma pack_bits_next L V c i : 0 ≤ V < 2 ^ L → 0 ≤ c < L → 1 ≤ i ≤ 8 →
  hb_next i (mkHashBits (ext_path (pack L V)) L c) =
    Ok (bits_of L V c (Z.min i (L - c)), mkHashBits (ext_path (pack L V)) L (c + Z.min i (L - c))).
Proof.
  intros HV Hc Hi. destruct (pack_path L V HV ltac:(lia)) as (Hb & Hl & _). pose proof (pad_spec L ltac:(lia)).
  rewrite hb_next_spec by (done || lia). by rewrite pack_bits by lia.
Qed.

Section from_bits.
Context (bz : bytes) (Hbz : Forall is_byte bz) (len : Z) (Hlen : len ≤ Z.of_nat (length bz) * 8).

Lemma from_bits_loop_ok fuel b L V c n : builder_ok b L V → 0 ≤ c → 0 ≤ n ≤ Z.of_nat fuel → c + n ≤ len →
  ∃ b', from_bits_loop fuel b (mkHashBits bz len c) n = Ok (b', mkHashBits bz len (c + n)) ∧
    builder_ok b' (L + n) (V * 2 ^ n + bit_group bz c n).
Proof.
  revert b L V c n. induction fuel as [|fuel IH]; intros b L V c n Hb Hc Hn Hcn; cbn [from_bits_loop];
    destruct (Z.ltb_spec 0 n); simpl negb; cbv iota; try lia.
  1,3: exists b; assert (n = 0) as -> by lia; rewrite !Z.add_0_r; split; [done|];
    change (bit_group bz c 0) with (bits_of (Z.of_nat (length bz) * 8) (be_value bz) c 0);
    by rewrite bits_of_0, Z.add_0_r, Z.mul_1_r.
  set (i := Z.min n 8). rewrite hb_next_spec by (done || lia). rewrite (Z.min_l i (len - c)) by lia.
  rewrite wrap8_group by lia.
  destruct (IH (builder_add i (bit_group bz c i) b) (L + i) (V * 2 ^ i + bit_group bz c i) (c + i) (n - i))
    as (b' & E & Hb'); [apply builder_add_ok; [done|lia|apply group_range; lia]|lia..|].
  exists b'. rewrite E. split; [do 3 f_equal; lia|]. replace (L + i + (n - i)) with (L + n) in Hb' by lia.
  replace (V * 2 ^ n + bit_group bz c n) with ((V * 2 ^ i + bit_group bz c i) * 2 ^ (n - i) + bit_group bz (c + i) (n - i)); [done|].
  pose proof (bits_of_app (Z.of_nat (length bz) * 8) (be_value bz) c i (n - i) ltac:(lia) ltac:(lia) ltac:(lia)) as E2.
  replace (i + (n - i)) with n in E2 by lia. unfold bits_of in E2. unfold bit_group. rewrite E2.
  replace (2 ^ n) with (2 ^ i * 2 ^ (n - i)) by (rewrite <-Z.pow_add_r by lia; f_equal; lia). ring.
Qed.

Lemma from_bits_ok c n : 0 ≤ c → 0 ≤ n → c + n ≤ len →
  from_bits (mkHashBits bz len c) n = Ok (pack n (bit_group bz c n), mkHashBits bz len (c + n)).
Proof.
  intros Hc Hn Hcn. unfold from_bits.
  destruct (from_bits_loop_ok (Z.to_nat n) builder_new 0 0 c n builder_new_ok) as (b & -> & Hb); [lia..|].
  rewrite Z.mul_0_l, !Z.add_0_l in Hb. by rewrite (builder_build_ok _ _ _ Hb).
Qed.
End from_bits.

Lemma ext_split_pack L V m w : 0 ≤ V < 2 ^ L → 0 ≤ m → 0 ≤ w → m + w ≤ L < 2 ^ 32 →
  ext_split (pack L V) m w =
    Ok (pack m (bits_of L V 0 m), pack w (bits_of L V m w), pack (L - m - w) (bits_of L V (m + w) (L - m - w))).
Proof.
  intros HV Hm Hw HL. destruct (pack_path L V HV ltac:(lia)) as (Hb & Hl & _). pose proof (pad_spec L ltac:(lia)).
  unfold ext_split, ext_path_bits, hb_new_from_slice. change (ext_length (pack L V)) with L.
  rewrite (from_bits_ok _ Hb) by lia. rewrite (from_bits_ok _ Hb) by lia. cbn [ext_length pack].
  rewrite wrap32_id by lia. rewrite (from_bits_ok _ Hb) by lia. by rewrite !pack_bits by lia.
Qed.

(** The nibble between the parts. *)
Lemma pack_index w n : 1 ≤ w ≤ 8 → 0 ≤ n < 2 ^ w → ∃ hb, hb_next w (ext_path_bits (pack w n)) = Ok (n, hb).
Proof.
  intros Hw Hn. unfold ext_path_bits, hb_new_from_slice. change (ext_length (pack w n)) with w.
  rewrite pack_bits_next by lia. rewrite Z.sub_0_r, Z.min_id, bits_of_all by done. eauto.
Qed.

Lemma merge_one_ok fuel w b L0 V0 L V c : builder_ok b L0 V0 → 1 ≤ w ≤ 8 → 0 ≤ V < 2 ^ L → 0 ≤ c ≤ L →
  L - c ≤ Z.of_nat fuel →
  ∃ b', merge_one fuel w (L - c) (mkHashBits (ext_path (pack L V)) L c) b = Ok b' ∧
    builder_ok b' (L0 + (L - c)) (V0 * 2 ^ (L - c) + bits_of L V c (L - c)).
Proof.
  revert b L0 V0 c. induction fuel as [|fuel IH]; intros b L0 V0 c Hb Hw HV Hc Hf; cbn [merge_one];
    destruct (Z.ltb_spec 0 (L - c)); simpl negb; cbv iota; try lia.
  1,3: exists b; assert (L - c = 0) as -> by lia; split; [done|]; by rewrite bits_of_0, !Z.add_0_r, Z.mul_1_r.
  set (i := Z.min w (L - c)). rewrite pack_bits_next by lia. rewrite (Z.min_l i (L - c)) by lia.
  pose proof (bits_of_range L V c i ltac:(lia)) as Hr.
  rewrite wrap8_id by (unfold is_byte; pose proof (Z.pow_le_mono_r 2 i 8); lia).
  destruct (IH (builder_add i (bits_of L V c i) b) (L0 + i) (V0 * 2 ^ i + bits_of L V c i) (c + i)) as (b' & E & Hb');
    [apply builder_add_ok; [done|lia|done]|lia..|].
  exists b'. replace (L - c - i) with (L - (c + i)) by lia. rewrite E. split; [done|].
  replace (L0 + i + (L - (c + i))) with (L0 + (L - c)) in Hb' by lia.
  replace (V0 * 2 ^ (L - c) + bits_of L V c (L - c))
    with ((V0 * 2 ^ i + bits_of L V c i) * 2 ^ (L - (c + i)) + bits_of L V (c + i) (L - (c + i))); [done|].
  pose proof (bits_of_app L V c i (L - (c + i)) ltac:(lia) ltac:(lia) ltac:(lia)) as E2.
  replace (i + (L - (c + i))) with (L - c) in E2 by lia. rewrite E2.
  replace (2 ^ (L - c)) with (2 ^ i * 2 ^ (L - (c + i))) by (rewrite <-Z.pow_add_r by lia; f_equal; lia). ring.
Qed.

Lemma merge_pack_ok w b L0 V0 L V : builder_ok b L0 V0 → 1 ≤ w ≤ 8 → 0 ≤ V < 2 ^ L → 0 ≤ L →
  ∃ b', merge_one (Z.to_nat L) w L (ext_path_bits (pack L V)) b = Ok b' ∧ builder_ok b' (L0 + L) (V0 * 2 ^ L + V).
Proof.
  intros Hb Hw HV HL. destruct (merge_one_ok (Z.to_nat L) w b L0 V0 L V 0) as (b' & E & Hb'); [done|lia..|].
  rewrite Z.sub_0_r, bits_of_all in * by done. eauto.
Qed.

Lemma ext_unsplit_pack L1 V1 w n L2 V2 : 1 ≤ w ≤ 8 → 0 ≤ n < 2 ^ w → 0 ≤ L1 → 0 ≤ V1 < 2 ^ L1 → 0 ≤ L2 → 0 ≤ V2 < 2 ^ L2 →
  ext_unsplit (pack L1 V1) (pack w n) (pack L2 V2) = Ok (pack (L1 + w + L2) ((V1 * 2 ^ w + n) * 2 ^ L2 + V2)).
Proof.
  intros Hw Hn HL1 HV1 HL2 HV2. unfold ext_unsplit, ext_merge. cbn [merge_loop].
  change (ext_length (pack L1 V1)) with L1. change (ext_length (pack w n)) with w. change (ext_length (pack L2 V2)) with L2.
  destruct (merge_pack_ok w builder_new 0 0 L1 V1 builder_new_ok) as (b1 & -> & Hb1); [lia..|].
  destruct (merge_pack_ok w b1 _ _ w n Hb1) as (b2 & -> & Hb2); [lia..|].
  destruct (merge_pack_ok w b2 _ _ L2 V2 Hb2) as (b3 & -> & Hb3); [lia..|].
  rewrite (builder_build_ok _ _ _ Hb3). do 2 f_equal. 
Qed.

Lemma from_idx_pack w n : 1 ≤ w ≤ 8 → 0 ≤ n < 2 ^ w → from_idx n w = pack w n.
Proof.
  intros Hw Hn. unfold from_idx. pose proof (builder_add_ok _ _ _ w n builder_new_ok Hw Hn) as Hb.
  by rewrite (builder_build_ok _ _ _ Hb).
Qed.

Lemma pack_0 : pack 0 0 = Extension_default.
Proof. done. Qed.

(** ** Keys and levels *)

Section levels.
Context (w : Z) (Hw : 1 ≤ w ≤ 8).
Abbreviation L := (levels w).
Abbreviation idx := (idx_at w).
Implicit Types (h : bytes) (d e : nat).

Definition hb_at h d : HashBits := hb_new_at_index h (consumed_at w d).

Lemma key_next h d : hash_ok h → (d < L)%nat → hb_next w (hb_at h d) = Ok (idx h d, hb_at h (S d)).
Proof.
  intros [Hl Hb] Hd. destruct (consumed_before w Hw d Hd) as (? & ? & Hmin). unfold hb_at, hb_new_at_index.
  rewrite hb_next_spec by (rewrite ?Hl; done || lia). rewrite Hl. change (Z.of_nat 32 * 8) with 256.
  rewrite <-Hmin. do 3 f_equal. lia.
Qed.
Lemma key_next_end h d : hash_ok h → (L ≤ d)%nat → hb_next w (hb_at h d) = Err MaxDepth.
Proof.
  intros [Hl _] Hd. unfold hb_at, hb_new_at_index, hb_next. cbn [hb_length hb_consumed]. rewrite Hl, (consumed_end w Hw) by done.
  by destruct (Z.ltb_spec 8 w), (Z.eqb_spec w 0); try lia.
Qed.

(** Above the last level, every index takes [w] bits. *)
Lemma consumed_full d : (d < L)%nat → consumed_at w d = Z.of_nat d * w.
Proof. intros Hd. pose proof (levels_bounds w Hw). unfold consumed_at. nia. Qed.
Lemma span_full d e : (d ≤ e < L)%nat → consumed_at w e - consumed_at w d = Z.of_nat (e - d) * w ∧ consumed_at w e < 256.
Proof.
  intros Hde. pose proof (consumed_before w Hw e ltac:(lia)). rewrite !consumed_full in * by lia. nia.
Qed.

Lemma idx_range h d : (d < L)%nat → 0 ≤ idx h d < 2 ^ w.
Proof. by apply idx_at_range. Qed.

(** The same as linear facts. *)
Lemma span_facts d x e : (d ≤ x < e)%nat → (e < L)%nat →
  0 ≤ consumed_at w d ≤ consumed_at w x ∧ consumed_at w (S x) = consumed_at w x + w ∧
  consumed_at w (S x) ≤ consumed_at w e < 256.
Proof. intros Hx He. pose proof (span_full 0 e ltac:(lia)) as [_ H256]. rewrite !consumed_full in * by lia. nia. Qed.

(** The extension that skips the levels from [d] to [e]. *)
Definition seg h d e : Z := bit_group h (consumed_at w d) (consumed_at w e - consumed_at w d).
Definition path_ext h d e : Extension := pack (consumed_at w e - consumed_at w d) (seg h d e).

Lemma seg_range h d e : (d ≤ e < L)%nat → 0 ≤ seg h d e < 2 ^ (consumed_at w e - consumed_at w d).
Proof. intros Hde. apply group_range. destruct (span_full d e Hde) as [-> _]. nia. Qed.

Lemma path_ext_length h d e : (d ≤ e < L)%nat → ext_length (path_ext h d e) = Z.of_nat (e - d) * w.
Proof. intros Hde. cbn [path_ext pack ext_length]. by apply span_full. Qed.
Lemma path_ext_nil h d : path_ext h d d = Extension_default.
Proof.
  unfold path_ext, seg. rewrite Z.sub_diag.
  change (bit_group h (consumed_at w d) 0) with (bits_of (Z.of_nat (length h) * 8) (be_value h) (consumed_at w d) 0).
  by rewrite bits_of_0, pack_0.
Qed.

(** A part of the segment of a 32-byte key. *)
Lemma seg_part h d e a i : hash_ok h → (d ≤ e < L)%nat → 0 ≤ a → 0 ≤ i → a + i ≤ consumed_at w e - consumed_at w d →
  bits_of (consumed_at w e - consumed_at w d) (seg h d e) a i = bit_group h (consumed_at w d + a) i.
Proof.
  intros [Hl _] Hde Ha Hi Hai. destruct (span_full d e Hde) as [_ H256]. unfold seg.
  change (bit_group h) with (bits_of (Z.of_nat (length h) * 8) (be_value h)).
  apply bits_of_nest; rewrite ?Hl; lia.
Qed.

Lemma split_path h d x e : hash_ok h → (d ≤ x < e)%nat → (e < L)%nat →
  ext_split (path_ext h d e) (Z.of_nat (x - d) * w) w =
    Ok (path_ext h d x, pack w (idx h x), path_ext h (S x) e).
Proof.
  intros Hh Hx He. destruct (span_full d x ltac:(lia)) as [<- _]. destruct (span_facts d x e Hx He) as (? & HS & ?).
  unfold path_ext at 1. rewrite ext_split_pack; [|apply seg_range; lia|lia..].
  rewrite !seg_part by (done || lia). unfold path_ext, idx_at, seg. rewrite Z.add_0_r, HS.
  replace (consumed_at w d + (consumed_at w x - consumed_at w d)) with (consumed_at w x) by lia.
  replace (consumed_at w x + w - consumed_at w x) with w by lia.
  replace (consumed_at w e - consumed_at w d - (consumed_at w x - consumed_at w d) - w)
    with (consumed_at w e - (consumed_at w x + w)) by lia.
  by replace (consumed_at w d + (consumed_at w x - consumed_at w d + w)) with (consumed_at w x + w) by lia.
Qed.

Lemma unsplit_path h d x e : hash_ok h → (d ≤ x < e)%nat → (e < L)%nat →
  ext_unsplit (path_ext h d x) (from_idx (idx h x) w) (path_ext h (S x) e) = Ok (path_ext h d e).
Proof.
  intros Hh Hx He. destruct (span_facts d x e Hx He) as (? & HS & ?).
  pose proof (idx_range h x ltac:(lia)). rewrite from_idx_pack by done. unfold path_ext.
  rewrite ext_unsplit_pack; [|done|done|lia|apply seg_range; lia|lia|apply seg_range; lia].
  destruct Hh as [Hl _]. do 2 f_equal; [lia|]. unfold seg, idx_at.
  change (bit_group h) with (bits_of (Z.of_nat (length h) * 8) (be_value h)). set (N := Z.of_nat (length h) * 8).
  assert (N = 256) by (unfold N; by rewrite Hl). rewrite HS.
  replace (consumed_at w e - consumed_at w d)
    with ((consumed_at w x - consumed_at w d) + (w + (consumed_at w e - (consumed_at w x + w)))) by lia.
  rewrite (bits_of_app N _ (consumed_at w d)), bits_of_app, (Z.pow_add_r 2) by lia.
  replace (consumed_at w d + (consumed_at w x - consumed_at w d)) with (consumed_at w x) by lia.
  replace (consumed_at w x + w - consumed_at w x) with w by lia. ring.
Qed.

(** Keys with the same indexes have the same segments. *)
Lemma seg_same h h' d e : hash_ok h → hash_ok h' → (d ≤ e < L)%nat →
  (∀ x, (d ≤ x < e)%nat → idx h x = idx h' x) → seg h d e = seg h' d e.
Proof.
  intros [Hl _] [Hl' _] Hde. unfold seg. induction e as [|e IH]; intros Hx.
  { assert (d = 0%nat) as -> by lia. rewrite Z.sub_diag. unfold bit_group. by rewrite !Z.mod_1_r. }
  destruct (decide (d = S e)) as [->|Hne].
  { rewrite Z.sub_diag. unfold bit_group. by rewrite !Z.mod_1_r. }
  specialize (IH ltac:(lia) ltac:(intros; apply Hx; lia)). specialize (Hx e ltac:(lia)).
  destruct (span_full d (S e) ltac:(lia)) as [? H256]. destruct (span_full d e ltac:(lia)) as [? _].
  pose proof (consumed_before w Hw e ltac:(lia)) as (? & ? & _). unfold idx_at in Hx.
  unfold bit_group in *. rewrite Hl, Hl' in *.
  set (A := Z.of_nat 32 * 8) in *.
  change (bits_of A (be_value h) (consumed_at w d) (consumed_at w (S e) - consumed_at w d) =
          bits_of A (be_value h') (consumed_at w d) (consumed_at w (S e) - consumed_at w d)).
  replace (consumed_at w (S e) - consumed_at w d) with
    ((consumed_at w e - consumed_at w d) + (consumed_at w (S e) - consumed_at w e)) by lia.
  apply bits_of_split_eq; [nia|lia|unfold A; lia|]. split; [exact IH|].
  by replace (consumed_at w d + (consumed_at w e - consumed_at w d)) with (consumed_at w e) by lia.
Qed.
Lemma path_ext_same h h' d e : hash_ok h → hash_ok h' → (d ≤ e < L)%nat →
  (∀ x, (d ≤ x < e)%nat → idx h x = idx h' x) → path_ext h d e = path_ext h' d e.
Proof. intros. unfold path_ext. f_equal. by apply seg_same. Qed.

(** *** Matching an extension *)

(** The first level from [d] on, before [e], where two keys part. *)
Definition parts_at h h' d y e : Prop :=
  (d ≤ y ≤ e)%nat ∧ (∀ z, (d ≤ z < y)%nat → idx h z = idx h' z) ∧ ((y < e)%nat → idx h y ≠ idx h' y).

Lemma match_loop_ok fuel h h' d x e : hash_ok h → hash_ok h' → (d ≤ x ≤ e)%nat → (e < L)%nat → (e - x ≤ fuel)%nat →
  ∃ y, parts_at h h' x y e ∧
    longest_match_loop fuel w (consumed_at w e - consumed_at w d) (consumed_at w x - consumed_at w d)
      (mkHashBits (ext_path (path_ext h d e)) (consumed_at w e - consumed_at w d) (consumed_at w x - consumed_at w d))
      (hb_at h' x) = Ok (consumed_at w y - consumed_at w d, hb_at h' y).
Proof.
  intros Hh Hh'. revert x. induction fuel as [|fuel IH]; intros x Hx He Hf.
  { exists e. assert (x = e) as -> by lia. cbn [longest_match_loop]. rewrite Z.ltb_irrefl. split; [|done].
    unfold parts_at. split_and!; lia || done. }
  destruct (decide (x = e)) as [->|Hne].
  { exists e. cbn [longest_match_loop]. rewrite Z.ltb_irrefl. split; [|done]. unfold parts_at. split_and!; lia || done. }
  destruct (span_facts d x e ltac:(lia) He) as (? & HS & ?). cbn [longest_match_loop].
  destruct (Z.ltb_spec (consumed_at w x - consumed_at w d) (consumed_at w e - consumed_at w d)); [|lia].
  simpl negb. cbv iota. rewrite key_next by (done || lia).
  unfold path_ext at 1. rewrite pack_bits_next; [|apply seg_range; lia|lia|done]. rewrite Z.min_l by lia.
  rewrite seg_part by (done || lia).
  replace (consumed_at w d + (consumed_at w x - consumed_at w d)) with (consumed_at w x) by lia.
  assert (bit_group h (consumed_at w x) w = idx h x) as ->.
  { unfold idx_at. rewrite HS. f_equal. lia. }
  destruct (Z.eqb_spec (idx h' x) (idx h x)) as [E|E].
  - destruct (IH (S x) ltac:(lia) He ltac:(lia)) as (y & (Hy & Hyx & Hye) & E2). exists y. split.
    + split_and!; [lia..| |done]. intros z Hz. destruct (decide (z = x)) as [->|]; [done|]. apply Hyx. lia.
    + rewrite <-E2. rewrite HS. by replace (consumed_at w x + w - consumed_at w d) with (consumed_at w x - consumed_at w d + w) by lia.
  - exists x. split; [|done]. split_and!; [lia..|done].
Qed.

Lemma longest_match_ok h h' d e : hash_ok h → hash_ok h' → (d ≤ e < L)%nat →
  ∃ y, parts_at h h' d y e ∧
    longest_match (path_ext h d e) (hb_at h' d) w = Ok (Z.of_nat (y - d) * w, hb_at h' y).
Proof.
  intros Hh Hh' Hde. destruct (span_full d e Hde) as [Hs _].
  destruct (match_loop_ok (Z.to_nat (consumed_at w e - consumed_at w d)) h h' d d e Hh Hh') as (y & Hy & E); [lia..|nia|].
  exists y. split; [done|]. rewrite Z.sub_diag in E. unfold longest_match, ext_path_bits, hb_new_from_slice.
  change (ext_length (path_ext h d e)) with (consumed_at w e - consumed_at w d). rewrite E.
  destruct Hy as (Hy & _). by destruct (span_full d y ltac:(lia)) as [-> _].
Qed.

(** *** The longest common prefix *)

Lemma seg_step h d x : hash_ok h → (d ≤ x)%nat → (S x < L)%nat → seg h d (S x) = seg h d x * 2 ^ w + idx h x.
Proof.
  intros [Hl _] Hx HL. destruct (span_facts d x (S x) ltac:(lia) HL) as (? & HS & ?). unfold seg, idx_at. rewrite HS.
  change (bit_group h) with (bits_of (Z.of_nat (length h) * 8) (be_value h)). rewrite Hl.
  replace (consumed_at w x + w - consumed_at w d) with ((consumed_at w x - consumed_at w d) + w) by lia.
  rewrite bits_of_app by lia. replace (consumed_at w x + w - consumed_at w x) with w by lia.
  by replace (consumed_at w d + (consumed_at w x - consumed_at w d)) with (consumed_at w x) by lia.
Qed.

Lemma all_next_ok n hs x : Forall hash_ok hs → (x < L)%nat →
  all_next w n ((λ h, hb_at h x) <$> hs) =
    Ok (if decide (Forall (λ h, n = idx h x) hs) then Some ((λ h, hb_at h (S x)) <$> hs) else None).
Proof.
  intros Hhs Hx. induction Hhs as [|h hs Hh _ IH]; csimpl; [done|]. rewrite key_next by done.
  destruct (Z.eqb_spec n (idx h x)) as [E|E]; simpl negb; cbv iota.
  - rewrite IH. destruct (decide (Forall _ hs)); destruct (decide (Forall _ (h :: hs))) as [Hf|Hf]; try done.
    + destruct Hf. by constructor.
    + by apply Forall_cons in Hf as [_ ?].
  - rewrite decide_False; [done|]. by intros [? _]%Forall_cons.
Qed.

Lemma prefix_loop_ok fuel h hs d x z b : hash_ok h → Forall hash_ok hs →
  (∃ h', h' ∈ hs ∧ idx h z ≠ idx h' z) → (d ≤ x ≤ z)%nat → (z < L)%nat → (z - x < fuel)%nat →
  builder_ok b (consumed_at w x - consumed_at w d) (seg h d x) →
  ∃ y b', (x ≤ y ≤ z)%nat ∧ (∀ h' u, h' ∈ hs → (x ≤ u < y)%nat → idx h u = idx h' u) ∧
    (∃ h', h' ∈ hs ∧ idx h y ≠ idx h' y) ∧
    common_prefix_loop fuel w 256 ((λ h, hb_at h x) <$> hs) b (hb_at h x) = Ok (b', hb_at h y) ∧
    builder_ok b' (consumed_at w y - consumed_at w d) (seg h d y).
Proof.
  intros Hh Hhs Hz. revert x b. induction fuel as [|fuel IH]; intros x b Hx HzL Hf Hb; [lia|].
  destruct (consumed_before w Hw x ltac:(lia)) as (? & _). cbn [common_prefix_loop].
  change (hb_consumed (hb_at h x)) with (consumed_at w x). destruct (Z.ltb_spec (consumed_at w x) 256); [|lia].
  simpl negb. cbv iota. rewrite key_next, all_next_ok by (done || lia). destruct (decide _) as [Hall|Hall].
  - rewrite Forall_forall in Hall. assert (x ≠ z) as Hxz by (intros ->; destruct Hz as (h' & Hin & Hne); auto).
    destruct (span_facts d x z ltac:(lia) HzL) as (? & HS & ?). pose proof (idx_range h x ltac:(lia)) as Hr.
    rewrite wrap8_id by (unfold is_byte; pose proof (Z.pow_le_mono_r 2 w 8); lia).
    destruct (IH (S x) (builder_add w (idx h x) b)) as (y & b' & Hy & Heq & Hdiff & E & Hb'); [lia..| |].
    { pose proof (builder_add_ok b _ _ w (idx h x) Hb Hw Hr) as Ha. rewrite seg_step, HS by (done || lia).
      by replace (consumed_at w x + w - consumed_at w d) with (consumed_at w x - consumed_at w d + w) by lia. }
    exists y, b'. split_and!; [lia..| |done|done|done]. intros h' u Hin Hu. destruct (decide (u = x)) as [->|]; [auto|].
    apply Heq; [done|lia].
  - exists x, b. split_and!; [lia..| | |done|done].
    + intros h' u _ Hu. lia.
    + apply not_Forall_Exists, Exists_exists in Hall; [done|]. intros h'. apply _.
Qed.

Lemma common_prefix_ok h hs d z : hash_ok h → Forall hash_ok hs →
  (∃ h', h' ∈ hs ∧ idx h z ≠ idx h' z) → (d ≤ z < L)%nat →
  ∃ y, (d ≤ y ≤ z)%nat ∧ (∀ h' u, h' ∈ hs → (d ≤ u < y)%nat → idx h u = idx h' u) ∧
    (∃ h', h' ∈ hs ∧ idx h y ≠ idx h' y) ∧
    longest_common_prefix (hb_at h d) w hs = Ok (path_ext h d y, hb_at h y).
Proof.
  intros Hh Hhs Hz Hd. pose proof Hh as [Hl _]. pose proof (levels_bounds w Hw).
  destruct (prefix_loop_ok 256 h hs d d z builder_new Hh Hhs Hz) as (y & b & Hy & Heq & Hdiff & E & Hb); [lia..| |].
  { rewrite Z.sub_diag. unfold seg. rewrite Z.sub_diag. unfold bit_group. rewrite Z.mod_1_r. apply builder_new_ok. }
  exists y. split_and!; [lia..|done|done|]. unfold longest_common_prefix.
  change (hb_length (hb_at h d)) with (Z.of_nat (length h) * 8). rewrite Hl. change (Z.to_nat (Z.of_nat 32 * 8)) with 256%nat.
  change (Z.of_nat 32 * 8) with 256. change (hb_consumed (hb_at h d)) with (consumed_at w d).
  change (λ k, hb_new_at_index k (consumed_at w d)) with (λ h, hb_at h d). rewrite E.
  by rewrite (builder_build_ok _ _ _ Hb).
Qed.
End levels.

(** ** The only filled slot *)

Lemma last_one_only b i : bf_wf b → 0 ≤ i < 256 → (∀ j, 0 ≤ j < 256 → bit b j = bool_decide (j = i)) →
  last_one_idx b = Some i.
Proof.
  intros Hb Hi Hbits. assert (b = set_bit i bf_zero) as ->.
  { apply bf_ext; [done|apply bf_wf_set, bf_wf_zero; lia|]. intros j Hj. rewrite Hbits, bit_set, bit_zero by (done || lia).
    by rewrite orb_false_r. }
  pose proof (forallb_seqZ (λ i, match last_one_idx (set_bit i bf_zero) with Some j => j =? i | None => false end) 0 256
    ltac:(vm_compute; reflexivity) i ltac:(lia)) as E. cbv beta in E.
  destruct (last_one_idx (set_bit i bf_zero)) as [j|]; [|done]. f_equal. lia.
Qed.
