(* ===== verification/Kamt.v ===== *)
(** * The KAMT (ipld/kamt/src/node.rs, pointer.rs, kamt.rs, lib.rs)

    A trie over fixed-size keys whose links may skip levels: a link carries the
    [Extension] of the levels between the node it is in and the node it
    points at. A key that leaves an extension half-way splits it; a deletion
    that leaves a node with one child joins what was split. The state is as in the
    HAMT: buckets in key order, links with the node once it was loaded,
    nodes not yet stored. The keys are byte strings and [AsHashedKey], the
    client's function to 32 bytes ([N] = 32, its default), is a parameter. *)

From S2P Require Import Prelude Effects Address Types HamtBits HamtCommon KamtExt.
From stdpp Require Import gmap strings list fin_maps sorting.
From Stdlib Require Import ZArith Lia.
#[local] Open Scope Z_scope.

(** ** Nodes *)

Inductive Pointer (V : Type) :=
  | Values (kvs : list (bytes * V))
  | Link (cid : Cid) (ext : Extension) (cache : option (Node V))
  | Dirty (node : Node V) (ext : Extension)
with Node (V : Type) :=
  | mkNode (bitfield : Bitfield) (pointers : list (Pointer V)).
Arguments Values {V} kvs.
Arguments Link {V} cid ext cache.
Arguments Dirty {V} node ext.
Arguments mkNode {V} bitfield pointers.

Definition bitfield {V} (n : Node V) : Bitfield := let 'mkNode b _ := n in b.
Definition pointers {V} (n : Node V) : list (Pointer V) := let 'mkNode _ ps := n in ps.
Definition Node_default {V} : Node V := mkNode bf_zero [].

(** A pointer as it is serialised: a list of pairs, or a link with the length
    and the bytes of its extension. *)
Inductive PointerBlock (V : Type) :=
  | BVals (kvs : list (bytes * V))
  | BLink (cid : Cid) (length : Z) (path : bytes).
Arguments BVals {V} kvs.
Arguments BLink {V} cid length path.
Definition NodeBlock (V : Type) : Type := bytes * list (PointerBlock V).

Definition pointer_serialize {V} (p : Pointer V) : result string (PointerBlock V) :=
  match p with
  | Values vals => Ok (BVals vals)
  | Link cid ext _ => Ok (BLink cid (ext_length ext) (ext_path ext))
  | Dirty _ _ => Err "Cannot serialize cached values"%string
  end.
Definition pointer_deserialize {V} (p : PointerBlock V) : Pointer V :=
  match p with
  | BVals kvs => Values kvs
  | BLink cid l p => Link cid (mkExtension l p) None
  end.
Fixpoint pointers_serialize {V} (ps : list (Pointer V)) : result string (list (PointerBlock V)) :=
  match ps with
  | [] => Ok []
  | p :: ps =>
      match pointer_serialize p with
      | Err e => Err e
      | Ok b => match pointers_serialize ps with Err e => Err e | Ok bs => Ok (b :: bs) end
      end
  end.
Definition node_serialize {V} (n : Node V) : result string (NodeBlock V) :=
  match pointers_serialize (pointers n) with
  | Err e => Err e
  | Ok bs => Ok (bf_serialize (bitfield n), bs)
  end.

(** [insert_child], [insert_child_link] and [insert_child_dirty] differ in the
    pointer they insert. *)
Definition insert_pointer {V} (idx : Z) (p : Pointer V) (n : Node V) : Node V :=
  let i := index_for_bit_pos idx (bitfield n) in
  mkNode (set_bit idx (bitfield n)) (vec_insert i p (pointers n)).
Definition insert_child {V} (idx : Z) (key : bytes) (value : V) : Node V → Node V :=
  insert_pointer idx (Values [(key, value)]).
Definition insert_child_link {V} (idx : Z) (cid : Cid) (ext : Extension) (cache : option (Node V)) : Node V → Node V :=
  insert_pointer idx (Link cid ext cache).
Definition insert_child_dirty {V} (idx : Z) (node : Node V) (ext : Extension) : Node V → Node V :=
  insert_pointer idx (Dirty node ext).
Definition rm_child {V} (i : nat) (idx : Z) (n : Node V) : Node V :=
  mkNode (clear_bit idx (bitfield n)) (vec_remove i (pointers n)).
(** Writing through [get_child_mut]. *)
Definition set_child {V} (i : nat) (p : Pointer V) (n : Node V) : Node V :=
  mkNode (bitfield n) (<[i := p]> (pointers n)).

(** ** Extensions and keys *)

Inductive ExtensionMatch :=
  | Full (skipped : Z)
  | Partial (ext : Extension) (matched : Z).

Definition match_extension (conf : Config) (hashed_key : HashBits) (ext : Extension)
    : result HamtError (ExtensionMatch * HashBits) :=
  if ext_is_empty ext then Ok (Full 0, hashed_key) else
  match longest_match ext hashed_key (bit_width conf) with
  | Err e => Err e
  | Ok (matched, hashed_key) =>
      let skipped := matched / bit_width conf in
      Ok (if matched =? ext_length ext then Full skipped else Partial ext matched, hashed_key)
  end.

(** [PartialMatch::split]. *)
Definition partial_split (ext : Extension) (matched bit_width : Z) : result HamtError (Extension * Z * Extension) :=
  match ext_split ext matched bit_width with
  | Err e => Err e
  | Ok (head, idx, tail) =>
      match hb_next bit_width (ext_path_bits idx) with
      | Err e => Err e
      | Ok (idx, _) => Ok (head, idx, tail)
      end
  end.

(** The child becomes the new midway node. [moved] is the child once its
    node was moved into the midway node, which is what remains of it if the
    key has no further bits. *)
Definition split_extension {V} (conf : Config) (hashed_key : HashBits) (ext : Extension) (matched : Z)
    (key : bytes) (value : V) (insert_original : Z → Extension → Node V → Node V) (child moved : Pointer V)
    : result HamtError unit * Pointer V :=
  match partial_split ext matched (bit_width conf) with
  | Err e => (Err e, child)
  | Ok (head, idx, tail) =>
      let midway := insert_original idx tail Node_default in
      match hb_next (bit_width conf) hashed_key with
      | Err e => (Err e, moved)
      | Ok (idx, _) => (Ok tt, Dirty (insert_child idx key value midway) head)
      end
  end.

Definition unsplit_ext (conf : Config) (bf : Bitfield) (parent_ext child_ext : Extension) : result HamtError Extension :=
  match last_one_idx bf with
  | None => Err ZeroPointers
  | Some idx => ext_unsplit parent_ext (from_idx (wrap8 idx) (bit_width conf)) child_ext
  end.

(** [Pointer::clean] of a dirty node: the pointer that replaces it. *)
Definition all_values {V} (ps : list (Pointer V)) : option (list (list (bytes * V))) :=
  mapM (λ p, match p with Values vals => Some vals | _ => None end) ps.
Definition pointer_clean {V} (conf : Config) (depth : nat) (n : Node V) (ext1 : Extension) : result HamtError (Pointer V) :=
  let len := length (pointers n) in
  if (len =? 0)%nat then Err ZeroPointers
  else if (depth <? min_data_depth conf)%nat then Ok (Dirty n ext1)
  else if (len =? 1)%nat then
    match pointers n with
    | Values vals :: _ => Ok (Values vals)
    | Link cid ext2 cache :: _ =>
        match unsplit_ext conf (bitfield n) ext1 ext2 with Ok ext => Ok (Link cid ext cache) | Err e => Err e end
    | Dirty sub ext2 :: _ =>
        match unsplit_ext conf (bitfield n) ext1 ext2 with Ok ext => Ok (Dirty sub ext) | Err e => Err e end
    | [] => Err out_of_bounds
    end
  else if (len <=? max_array_width conf)%nat then
    match all_values (pointers n) with
    | None => Ok (Dirty n ext1)
    | Some children =>
        if (max_array_width conf <? sum_list (length <$> children))%nat then Ok (Dirty n ext1)
        else Ok (Values (merge_sort kv_le (concat children)))
    end
  else Ok (Dirty n ext1).

(** [Node::clean]: [None] when the child can be removed. *)
Definition node_clean {V} (conf : Config) (depth : nat) (n : Node V) (ext : Extension)
    : result HamtError (option (Pointer V)) :=
  match pointer_clean conf depth n ext with
  | Ok p => Ok (Some p)
  | Err ZeroPointers => if (depth <? min_data_depth conf)%nat then Ok None else Err ZeroPointers
  | Err e => Err e
  end.

Section kamt.
Context `{BS : Blockstore} {V : Type} `{EqDecision V} `{CB : !Cbor (NodeBlock V)}.
Context (conf : Config) (H : bytes → bytes).

(** ** Loading and storing nodes *)

Definition check_pointer (depth : nat) (p : Pointer V) : result HamtError unit :=
  match p with
  | Values kvs =>
      if (depth <? min_data_depth conf)%nat
      then Err (Dynamic "values not allowed below the minimum data depth ({} < {})")
      else if (length kvs =? 0)%nat then Err (Dynamic "empty HAMT bucket")
      else if (max_array_width conf <? length kvs)%nat then Err (Dynamic "too many items in bucket {} > {}")
      else if negb (keys_increase kvs) then Err (Dynamic "duplicate or unsorted keys in bucket")
      else Ok tt
  | Link cid ext _ =>
      if negb (cid_codec cid =? DAG_CBOR) then Err (Dynamic "kamt nodes must be DagCBOR, not {}")
      else if negb (ext_length ext mod bit_width conf =? 0)
      then Err (Dynamic "extension length {} is not a multiple of the bit-width {}")
      else
        let remaining_bits := wrap32 (256 - wrap32 ((Z.of_nat depth + 1) * bit_width conf)) in
        if remaining_bits <=? ext_length ext
        then Err (Dynamic "extension length must be less than {} bits, was {} bits")
        else Ok tt
  | Dirty _ _ => Err (Dynamic "fresh node can't be dirty")
  end.
Fixpoint check_pointers (depth : nat) (ps : list (Pointer V)) : result HamtError unit :=
  match ps with
  | [] => Ok tt
  | p :: ps => match check_pointer depth p with Ok _ => check_pointers depth ps | Err e => Err e end
  end.

Definition node_load (s : Store) (k : Cid) (depth : nat) : result HamtError (Node V) :=
  match get_cbor (T := NodeBlock V) s k with
  | Err e => Err (Dynamic e)
  | Ok None => Err CidNotFound
  | Ok (Some (bz, blocks)) =>
      match bf_deserialize bz with
      | Err e => Err (Dynamic e)
      | Ok bf =>
          let ps := pointer_deserialize <$> blocks in
          if Z.shiftl 1 (bit_width conf) <? Z.of_nat (length ps)
          then Err (Dynamic "number of pointers ({}) exceeds that allowed by the bitwidth ({})")
          else if negb (count_ones bf =? length ps)%nat
          then Err (Dynamic "number of pointers ({}) doesn't match bitfield ({})")
          else if (length ps =? 0)%nat && negb (depth =? 0)%nat then Err ZeroPointers
          else match check_pointers depth ps with
               | Err e => Err e
               | Ok _ => Ok (mkNode bf ps)
               end
      end
  end.

(** [store.put_cbor(node, Code::Blake2b256)]. *)
Definition put_node (s : Store) (n : Node V) : result HamtError Cid * Store :=
  match node_serialize n with
  | Err e => (Err (Dynamic e), s)
  | Ok b => let '(r, s') := put_cbor s b BLAKE2B_256 in
            (match r with Ok c => Ok c | Err e => Err (Dynamic e) end, s')
  end.

(** [cache.get_or_try_init(|| Node::load(..))]. *)
Definition load_cached (s : Store) (cid : Cid) (cache : option (Node V)) (depth : nat)
    : result HamtError (Node V) :=
  match cache with Some n => Ok n | None => node_load s cid depth end.

(** ** Lookup

    A lookup loads the child before it compares the key with the extension, and
    counts the nodes on the way as its depth, not the levels. Every
    node consumes at least one bit of the key, and with none left [hb_next]
    fails with [MaxDepth]: the fuel, the bits of a key, is enough. *)

Fixpoint get_value (fuel : nat) (s : Store) (hb : HashBits) (depth : nat) (key : bytes) (n : Node V)
    : result HamtError (option V) * Node V :=
  match hb_next (bit_width conf) hb with
  | Err e => (Err e, n)
  | Ok (idx, hb) =>
      if negb (test_bit idx (bitfield n)) then (Ok None, n) else
      let cindex := index_for_bit_pos idx (bitfield n) in
      let descend node ext (put : Node V → Pointer V) :=
        match match_extension conf hb ext, fuel with
        | Err e, _ => (Err e, set_child cindex (put node) n)
        | Ok (Partial _ _, _), _ => (Ok None, set_child cindex (put node) n)
        | Ok (Full _, _), O => (Err MaxDepth, n)
        | Ok (Full _, hb), S fuel =>
            let '(r, node) := get_value fuel s hb (S depth) key node in
            (r, set_child cindex (put node) n)
        end in
      match pointers n !! cindex with
      | None => (Err out_of_bounds, n)
      | Some (Values vals) => (Ok (snd <$> List.find (λ kv, key_eqb key kv.1) vals), n)
      | Some (Link cid ext cache) =>
          match load_cached s cid cache (S depth) with
          | Err e => (Err e, n)
          | Ok node => descend node ext (λ node, Link cid ext (Some node))
          end
      | Some (Dirty node ext) => descend node ext (λ node, Dirty node ext)
      end
  end.

(** ** Insertion *)

(** The loop that inserts the pairs of a bucket into the new node. *)
Definition push_down (put : bytes → V → Node V → result HamtError (option V * bool) * Node V) :=
  fix go (kvs : list (bytes * V)) (sub : Node V) : result HamtError unit * Node V :=
  match kvs with
  | [] => (Ok tt, sub)
  | (k, v) :: kvs =>
      match put k v sub with
      | (Ok _, sub) => go kvs sub
      | (Err e, sub) => (Err e, sub)
      end
  end.

(** The result: the old value and whether the data has been modified. A full
    bucket is emptied before its pairs move to a new node: when that fails,
    the bucket stays empty. *)
Fixpoint modify_value (fuel : nat) (s : Store) (overwrite : bool) (hb : HashBits) (depth : nat)
    (key : bytes) (value : V) (n : Node V) : result HamtError (option V * bool) * Node V :=
  match hb_next (bit_width conf) hb with
  | Err e => (Err e, n)
  | Ok (idx, hb) =>
      if negb (test_bit idx (bitfield n)) then
        if (min_data_depth conf <=? depth)%nat
        then (Ok (None, true), insert_child idx key value n)
        else match fuel with
             | O => (Err MaxDepth, n)
             | S fuel =>
                 match modify_value fuel s overwrite hb (S depth) key value Node_default with
                 | (Err e, _) => (Err e, n)
                 | (Ok _, sub) => (Ok (None, true), insert_child_dirty idx sub Extension_default n)
                 end
             end
      else
      let cindex := index_for_bit_pos idx (bitfield n) in
      match pointers n !! cindex with
      | None => (Err out_of_bounds, n)
      | Some (Link cid ext cache) =>
          match match_extension conf hb ext with
          | Err e => (Err e, n)
          | Ok (Full skipped, hb) =>
              match load_cached s cid cache (S depth), fuel with
              | Err e, _ => (Err e, n)
              | Ok _, O => (Err MaxDepth, n)
              | Ok node, S fuel =>
                  match modify_value fuel s overwrite hb (S depth + Z.to_nat skipped) key value node with
                  | (Ok (old, true), node) => (Ok (old, true), set_child cindex (Dirty node ext) n)
                  | (r, node) => (r, set_child cindex (Link cid ext (Some node)) n)
                  end
              end
          | Ok (Partial ext matched, hb) =>
              match split_extension conf hb ext matched key value
                      (λ idx tail, insert_child_link idx cid tail cache) (Link cid ext cache) (Link cid ext None) with
              | (Err e, p) => (Err e, set_child cindex p n)
              | (Ok _, p) => (Ok (None, true), set_child cindex p n)
              end
          end
      | Some (Dirty node ext) =>
          match match_extension conf hb ext with
          | Err e => (Err e, n)
          | Ok (Full skipped, hb) =>
              match fuel with
              | O => (Err MaxDepth, n)
              | S fuel =>
                  let '(r, node) := modify_value fuel s overwrite hb (S depth + Z.to_nat skipped) key value node in
                  (r, set_child cindex (Dirty node ext) n)
              end
          | Ok (Partial ext matched, hb) =>
              match split_extension conf hb ext matched key value
                      (λ idx tail, insert_child_dirty idx node tail) (Dirty node ext) (Dirty Node_default ext) with
              | (Err e, p) => (Err e, set_child cindex p n)
              | (Ok _, p) => (Ok (None, true), set_child cindex p n)
              end
          end
      | Some (Values vals) =>
          match position (λ p, key_eqb p.1 key) vals with
          | Some i =>
              match vals !! i with
              | Some (k, old) =>
                  if overwrite
                  then (Ok (Some old, negb (bool_decide (old = value))),
                        set_child cindex (Values (<[i := (k, value)]> vals)) n)
                  else (Ok (None, false), n)
              | None => (Err out_of_bounds, n)
              end
          | None =>
              if (max_array_width conf <=? length vals)%nat then
                match longest_common_prefix hb (bit_width conf) (H ∘ fst <$> vals), fuel with
                | Err e, _ => (Err e, set_child cindex (Values []) n)
                | Ok _, O => (Err MaxDepth, set_child cindex (Values []) n)
                | Ok (ext, hb), S fuel =>
                    let depth := (S depth + Z.to_nat (ext_length ext / bit_width conf))%nat in
                    match modify_value fuel s overwrite hb depth key value Node_default with
                    | (Err e, _) => (Err e, set_child cindex (Values []) n)
                    | (Ok modified, sub) =>
                        match push_down (λ k v sub,
                                modify_value fuel s overwrite (hb_new_at_index (H k) (hb_consumed hb))
                                  depth k v sub) vals sub with
                        | (Ok _, sub) => (Ok modified, set_child cindex (Dirty sub ext) n)
                        | (Err e, _) => (Err e, set_child cindex (Values []) n)
                        end
                    end
                end
              else
                let i := default (length vals) (position (λ c, key_lt key c.1) vals) in
                (Ok (None, true), set_child cindex (Values (vec_insert i (key, value) vals)) n)
          end
      end
  end.

(** ** Deletion *)

(** What [rm_value] does with a child that lost a pair. *)
Definition cleaned (depth cindex : nat) (idx : Z) (deleted : V) (node : Node V) (ext : Extension) (n : Node V)
    : result HamtError (option V) * Node V :=
  match node_clean conf depth node ext with
  | Err e => (Err e, set_child cindex (Dirty node ext) n)
  | Ok None => (Ok (Some deleted), rm_child cindex idx n)
  | Ok (Some p) => (Ok (Some deleted), set_child cindex p n)
  end.

Fixpoint rm_value (fuel : nat) (s : Store) (hb : HashBits) (depth : nat) (key : bytes) (n : Node V)
    : result HamtError (option V) * Node V :=
  match hb_next (bit_width conf) hb with
  | Err e => (Err e, n)
  | Ok (idx, hb) =>
      if negb (test_bit idx (bitfield n)) then (Ok None, n) else
      let cindex := index_for_bit_pos idx (bitfield n) in
      match pointers n !! cindex with
      | None => (Err out_of_bounds, n)
      | Some (Link cid ext cache) =>
          match match_extension conf hb ext with
          | Err e => (Err e, n)
          | Ok (Partial _ _, _) => (Ok None, n)
          | Ok (Full skipped, hb) =>
              match load_cached s cid cache (S depth), fuel with
              | Err e, _ => (Err e, n)
              | Ok _, O => (Err MaxDepth, n)
              | Ok node, S fuel =>
                  match rm_value fuel s hb (S depth + Z.to_nat skipped) key node with
                  | (Ok (Some deleted), node) => cleaned depth cindex idx deleted node ext n
                  | (r, node) => (r, set_child cindex (Link cid ext (Some node)) n)
                  end
              end
          end
      | Some (Dirty node ext) =>
          match match_extension conf hb ext, fuel with
          | Err e, _ => (Err e, n)
          | Ok (Partial _ _, _), _ => (Ok None, n)
          | Ok (Full _, _), O => (Err MaxDepth, n)
          | Ok (Full skipped, hb), S fuel =>
              match rm_value fuel s hb (S depth + Z.to_nat skipped) key node with
              | (Ok (Some deleted), node) => cleaned depth cindex idx deleted node ext n
              | (r, node) => (r, set_child cindex (Dirty node ext) n)
              end
          end
      | Some (Values vals) =>
          match position (λ p, key_eqb key p.1) vals with
          | None => (Ok None, n)
          | Some i =>
              match vals !! i with
              | None => (Err out_of_bounds, n)
              | Some old =>
                  (Ok (Some old.2),
                   if (length vals =? 1)%nat then rm_child cindex idx n
                   else set_child cindex (Values (vec_remove i vals)) n)
              end
          end
      end
  end.

(** ** Flush *)

(** The loop over the pointers of a node. *)
Definition flush_pointers (flush_node : Store → Node V → result HamtError unit * Node V * Store) :=
  fix go (s : Store) (ps : list (Pointer V)) : result HamtError unit * list (Pointer V) * Store :=
  match ps with
  | [] => (Ok tt, [], s)
  | Dirty node ext :: ps =>
      match flush_node s node with
      | (Err e, node, s) => (Err e, Dirty node ext :: ps, s)
      | (Ok _, node, s) =>
          match put_node s node with
          | (Err e, s) => (Err e, Dirty node ext :: ps, s)
          | (Ok cid, s) => let '(r, ps, s) := go s ps in (r, Link cid ext (Some node) :: ps, s)
          end
      end
  | p :: ps => let '(r, ps, s) := go s ps in (r, p :: ps, s)
  end.

Fixpoint node_flush (s : Store) (n : Node V) {struct n} : result HamtError unit * Node V * Store :=
  match n with
  | mkNode bf ps => let '(r, ps, s) := flush_pointers node_flush s ps in (r, mkNode bf ps, s)
  end.

(** ** Kamt *)

Record Kamt := mkKamt { root : Node V; flushed_cid : option Cid }.

Definition fuel_for (key : bytes) : nat := 8 * length (H key).

Definition new_with_config : Kamt := mkKamt Node_default None.
Definition load_with_config (s : Store) (cid : Cid) : result HamtError Kamt :=
  match node_load s cid 0 with
  | Err e => Err e
  | Ok root => Ok (mkKamt root (Some cid))
  end.
(** The flushed CID is kept: [set_root] does not touch it. *)
Definition set_root (s : Store) (cid : Cid) (h : Kamt) : result HamtError unit * Kamt :=
  match node_load s cid 0 with
  | Err e => (Err e, h)
  | Ok root => (Ok tt, mkKamt root (flushed_cid h))
  end.

Definition node_set (s : Store) (key : bytes) (value : V) (overwrite : bool) (n : Node V) :=
  modify_value (fuel_for key) s overwrite (hb_new (H key)) 0 key value n.
Definition node_get (s : Store) (key : bytes) (n : Node V) :=
  get_value (fuel_for key) s (hb_new (H key)) 0 key n.
Definition remove_entry (s : Store) (key : bytes) (n : Node V) :=
  rm_value (fuel_for key) s (hb_new (H key)) 0 key n.

Definition set (s : Store) (key : bytes) (value : V) (h : Kamt) : result HamtError (option V) * Kamt :=
  match node_set s key value true (root h) with
  | (Err e, root) => (Err e, mkKamt root (flushed_cid h))
  | (Ok (old, modified), root) => (Ok old, mkKamt root (if modified then None else flushed_cid h))
  end.
Definition set_if_absent (s : Store) (key : bytes) (value : V) (h : Kamt) : result HamtError bool * Kamt :=
  match node_set s key value false (root h) with
  | (Err e, root) => (Err e, mkKamt root (flushed_cid h))
  | (Ok (_, set), root) => (Ok set, mkKamt root (if set then None else flushed_cid h))
  end.
Definition get (s : Store) (key : bytes) (h : Kamt) : result HamtError (option V) * Kamt :=
  let '(r, root) := node_get s key (root h) in (r, mkKamt root (flushed_cid h)).
Definition contains_key (s : Store) (key : bytes) (h : Kamt) : result HamtError bool * Kamt :=
  let '(r, root) := node_get s key (root h) in
  (match r with Ok o => Ok (bool_decide (is_Some o)) | Err e => Err e end, mkKamt root (flushed_cid h)).
Definition delete_key (s : Store) (key : bytes) (h : Kamt) : result HamtError (option V) * Kamt :=
  match remove_entry s key (root h) with
  | (Ok (Some v), root) => (Ok (Some v), mkKamt root None)
  | (r, root) => (r, mkKamt root (flushed_cid h))
  end.
Definition flush (s : Store) (h : Kamt) : result HamtError Cid * Kamt * Store :=
  match flushed_cid h with
  | Some cid => (Ok cid, h, s)
  | None =>
      match node_flush s (root h) with
      | (Err e, root, s) => (Err e, mkKamt root None, s)
      | (Ok _, root, s) =>
          match put_node s root with
          | (Err e, s) => (Err e, mkKamt root None, s)
          | (Ok cid, s) => (Ok cid, mkKamt root (Some cid), s)
          end
      end
  end.
Definition is_empty (h : Kamt) : bool := (length (pointers (root h)) =? 0)%nat.
Definition clear (h : Kamt) : Kamt := if is_empty h then h else mkKamt Node_default None.
End kamt.

Definition load `{BS : Blockstore} {V} `{CB : !Cbor (NodeBlock V)} (s : Store) (cid : Cid) : result HamtError Kamt :=
  load_with_config Config_default s cid.
