(* ===== verification/KamtRep.v ===== *)
(** * What a KAMT node represents

    The canonical form of a KAMT: which map a node at a given level stands for,
    and how far a link skips. Two nodes that stand for the same map at the
    same level have the same block, and so the same CID. *)

From S2P Require Import Prelude Effects Address Types HamtBits HamtCommon KamtExt KamtPaths Kamt.
From stdpp Require Import gmap strings list fin_maps.
From Stdlib Require Import ZArith Lia.
#[local] Open Scope Z_scope.

Section views.
Context {V : Type}.
Implicit Types (n : Node V) (g : Z → option (Pointer V)).

Definition has_view n g : Prop := slots (bitfield n) (pointers n) g.

Lemma kview_insert n g i p : has_view n g → 0 ≤ i < 256 → g i = None →
  has_view (insert_pointer i p n) (upd i (Some p) g).
Proof. apply slots_insert. Qed.
Lemma kview_set n g i q p : has_view n g → 0 ≤ i < 256 → g i = Some q →
  has_view (set_child (index_for_bit_pos i (bitfield n)) p n) (upd i (Some p) g).
Proof. apply slots_set. Qed.
Lemma kview_remove n g i q : has_view n g → 0 ≤ i < 256 → g i = Some q →
  has_view (rm_child (index_for_bit_pos i (bitfield n)) i n) (upd i None g).
Proof. apply slots_remove. Qed.
Lemma kview_unique n n' g g' : has_view n g → has_view n' g' → (∀ i, 0 ≤ i < 256 → g i = g' i) → n = n'.
Proof.
  destruct n as [b ps], n' as [b' ps']. intros Hv Hv' Hg.
  by destruct (slots_unique _ _ _ _ _ _ Hv Hv' Hg) as [[= ->] [= ->]].
Qed.
End views.

(** ** The canonical form

    As in the HAMT, a slot holds the pairs whose keys take it: nothing, a bucket
    when the pairs fit in one, and a node otherwise. Here the node need
    not be one level further down: it is at the next level where the keys
    of the pairs part, except above the minimum data depth, where no level is skipped. *)

Section rep.
Context `{BSS : BlockstoreSpec} {V : Type} `{CB : !Cbor (NodeBlock V)}.
Context (conf : Config) (H : bytes → bytes).
Implicit Types (n : Node V) (m : gmap bytes V) (s : Store).
Abbreviation w := (bit_width conf).
Abbreviation slot := (slot_of conf H).

(** The link of a slot at level [d] with the pairs [m] has the extension [ext]
    and leads to level [e]. *)
Definition reaches (d : nat) m (ext : Extension) (e : nat) : Prop :=
  (S d ≤ e < levels w)%nat ∧
  (∀ k, is_Some (m !! k) → ext = path_ext w (H k) (S d) e) ∧
  (∀ k k' x, is_Some (m !! k) → is_Some (m !! k') → (S d ≤ x < e)%nat → slot x k = slot x k') ∧
  ((d < min_data_depth conf)%nat → e = S d) ∧
  ((min_data_depth conf ≤ d)%nat → ∃ k k', is_Some (m !! k) ∧ is_Some (m !! k') ∧ slot e k ≠ slot e k').

(** A node as it is read from its block. *)
Definition fresh_pointer (p : Pointer V) : Prop := match p with Values _ | Link _ _ None => True | _ => False end.
Definition loaded n : Prop := Forall fresh_pointer (pointers n).

Definition stored_with (R : Node V → gmap bytes V → Prop) s (c : Cid) m : Prop :=
  ∃ n b bz, loaded n ∧ R n m ∧ node_serialize n = Ok b ∧ to_vec b = Ok bz ∧
    c = block_cid DAG_CBOR BLAKE2B_256 bz ∧ bs_get s c = Ok (Some bz).

Definition pointer_rep (R : nat → Node V → gmap bytes V → Prop) s (d : nat) (p : Pointer V) m : Prop :=
  match p with
  | Values kvs => fits conf d m ∧ bucket kvs m
  | Dirty n ext => ¬ fits conf d m ∧ ∃ e, reaches d m ext e ∧ R e n m
  | Link c ext cache => ¬ fits conf d m ∧ ∃ e, reaches d m ext e ∧ stored_with (R e) s c m ∧ ∀ n, cache = Some n → R e n m
  end.
Definition slot_rep R s d (x : option (Pointer V)) m : Prop :=
  match x with
  | None => m = ∅
  | Some p => m ≠ ∅ ∧ pointer_rep R s d p m
  end.

(** The fuel bounds the nodes on a path; below level [d] there are at most
    [levels w - d]. *)
Fixpoint node_rep (f : nat) s (d : nat) n m : Prop :=
  match f with
  | O => False
  | S f => ∃ g, has_view n g ∧ ∀ i, 0 ≤ i < 256 → slot_rep (node_rep f s) s d (g i) (sub conf H d i m)
  end.
Definition nrep s (d : nat) n m : Prop := node_rep (levels w - d) s d n m.
Definition stored s (d : nat) : Cid → gmap bytes V → Prop := stored_with (nrep s d) s.

Lemma stored_with_impl (R R' : Node V → gmap bytes V → Prop) s s' c m :
  store_le s s' → (∀ n m, R n m → R' n m) → stored_with R s c m → stored_with R' s' c m.
Proof.
  intros Hle HR (n & b & bz & Hl & Hr & Hs & Hz & Hc & Hg). exists n, b, bz. split_and!; auto.
  by eapply store_le_get.
Qed.
Lemma kslot_rep_impl (R R' : nat → Node V → gmap bytes V → Prop) s s' d x m :
  store_le s s' → (∀ e n m, (S d ≤ e < levels w)%nat → R e n m → R' e n m) → slot_rep R s d x m → slot_rep R' s' d x m.
Proof.
  intros Hle HR. destruct x as [[kvs|c ext cache|n ext]|]; simpl; [done| | |done].
  - intros (Hne & Hf & e & He & Hs & Hc). pose proof He as [Hde _]. split_and!; [done..|]. exists e. split_and!; [done| |by eauto].
    eapply stored_with_impl; [done| |done]. eauto.
  - intros (Hne & Hf & e & He & Hn). pose proof He as [Hde _]. split_and!; [done..|]. exists e. eauto.
Qed.

(** More fuel than there are levels makes no difference. *)
Lemma rep_fuel f f' s d n m : (d < levels w)%nat → (levels w ≤ f + d)%nat → (levels w ≤ f' + d)%nat →
  node_rep f s d n m → node_rep f' s d n m.
Proof.
  revert f' d n m. induction f as [|f IH]; intros [|f'] d n m Hd Hf Hf'; [done..|lia|].
  intros (g & Hv & Hg). exists g. split; [done|]. intros i Hi. eapply kslot_rep_impl; [done| |by apply Hg].
  intros e n' m' He Hr. eapply IH; [..|exact Hr]; lia.
Qed.

Lemma nrep_unfold s d n m : (d < levels w)%nat →
  nrep s d n m ↔ ∃ g, has_view n g ∧ ∀ i, 0 ≤ i < 256 → slot_rep (nrep s) s d (g i) (sub conf H d i m).
Proof.
  intros Hd. unfold nrep at 1. destruct (levels w - d)%nat as [|f] eqn:Hf; [lia|]. cbn [node_rep].
  split; intros (g & Hv & Hg); exists g; (split; [done|]); intros i Hi; (eapply kslot_rep_impl; [done| |by apply Hg]);
    intros e n' m' He Hr; unfold nrep in *; (eapply rep_fuel; [..|exact Hr]; lia).
Qed.

(** Induction from the deepest level up. *)
Lemma levels_ind (P : nat → Prop) :
  (∀ d, (d < levels w)%nat → (∀ e, (d < e < levels w)%nat → P e) → P d) → ∀ d, (d < levels w)%nat → P d.
Proof.
  intros HP. assert (∀ f d, (levels w - d ≤ f)%nat → (d < levels w)%nat → P d) as Hall; [|by eauto].
  induction f as [|f IH]; intros d Hf Hd; [lia|]. apply HP; [done|]. intros e He. apply IH; lia.
Qed.

(** *** Stores only grow *)

Lemma nrep_mono s s' d n m : store_le s s' → (d < levels w)%nat → nrep s d n m → nrep s' d n m.
Proof.
  intros Hle Hd. revert n m. revert d Hd. apply (levels_ind (λ d, ∀ n m, nrep s d n m → nrep s' d n m)).
  intros d Hd IH n m. rewrite !nrep_unfold by done. intros (g & Hv & Hg). exists g. split; [done|]. intros i Hi.
  eapply kslot_rep_impl; [done| |by apply Hg]. intros. apply IH; [lia|done].
Qed.
Lemma stored_mono s s' d c m : store_le s s' → (d < levels w)%nat → stored s d c m → stored s' d c m.
Proof. intros Hle Hd. apply stored_with_impl; [done|]. intros. by eapply nrep_mono. Qed.

(** *** The content determines the CID *)

Lemma reaches_unique d m ext ext' e e' : m ≠ ∅ → reaches d m ext e → reaches d m ext' e' → e = e' ∧ ext = ext'.
Proof.
  intros (k & v & Hk)%map_choose (He & Hx & Hs & Hlo & Hhi) (He' & Hx' & Hs' & Hlo' & Hhi').
  assert (e = e') as ->.
  { destruct (Nat.lt_ge_cases d (min_data_depth conf)) as [Hd|Hd]; [by rewrite Hlo, Hlo'|].
    destruct (Hhi Hd) as (a & b & Ha & Hb & Hab), (Hhi' Hd) as (a' & b' & Ha' & Hb' & Hab').
    destruct (Nat.lt_trichotomy e e') as [Hlt|[->|Hlt]]; [|done|].
    - destruct Hab. apply Hs'; [done..|lia].
    - destruct Hab'. apply Hs; [done..|lia]. }
  split; [done|]. rewrite (Hx k), (Hx' k) by eauto. done.
Qed.

Lemma kloaded_slot n g i p : has_view n g → loaded n → 0 ≤ i < 256 → g i = Some p → fresh_pointer p.
Proof.
  intros Hv Hl Hi Hg. unfold loaded in Hl. rewrite Forall_forall in Hl. apply Hl. apply (slots_elem _ _ _ _ Hv). eauto.
Qed.

Lemma kstored_unique s s' d c c' m : (d < levels w)%nat → stored s d c m → stored s' d c' m → c = c'.
Proof.
  intros Hd. revert c c' m. revert d Hd. apply (levels_ind (λ d, ∀ c c' m, stored s d c m → stored s' d c' m → c = c')).
  intros d Hd IH c c' m (n & b & bz & Hl & Hr & Hs & Hz & -> & _) (n' & b' & bz' & Hl' & Hr' & Hs' & Hz' & -> & _).
  assert (n = n') as ->; [|congruence]. apply nrep_unfold in Hr as (g & Hv & Hg), Hr' as (g' & Hv' & Hg'); [|done..].
  eapply kview_unique; [done..|]. intros i Hi. specialize (Hg i Hi). specialize (Hg' i Hi).
  destruct (g i) as [p|] eqn:E, (g' i) as [p'|] eqn:E'; simpl in Hg, Hg'; [|naive_solver..].
  pose proof (kloaded_slot _ _ _ _ Hv Hl Hi E). pose proof (kloaded_slot _ _ _ _ Hv' Hl' Hi E').
  destruct Hg as [Hne Hg], Hg' as [_ Hg'].
  destruct p as [kvs|? ? []|], p' as [kvs'|? ? []|]; simpl in *; try done; try by destruct Hg, Hg'.
  - do 2 f_equal. eapply bucket_unique; [apply Hg|apply Hg'].
  - destruct Hg as (_ & e & He & Hst & _), Hg' as (_ & e' & He' & Hst' & _).
    destruct (reaches_unique _ _ _ _ _ _ Hne He He') as [<- <-]. do 2 f_equal. pose proof He as [? _].
    eapply (IH e); [lia|exact Hst|exact Hst'].
Qed.
End rep.
