(* ===== verification/KamtMap.v ===== *)
(** * The KAMT on its canonical form

    Loading a stored node gives the node back; lookups answer from the map, also
    where a key leaves an extension half-way; insertions split buckets and
    extensions, deletions collapse and join them, and both keep the
    canonical form; a flush stores it. *)

From S2P Require Import Prelude Effects Address Types HamtBits HamtCommon KamtExt KamtPaths Kamt KamtRep.
From stdpp Require Import gmap strings list fin_maps sorting.
From Stdlib Require Import ZArith Lia.
#[local] Open Scope Z_scope.

(** ** Nodes survive serialisation *)

Lemma kpointers_roundtrip {V} (ps : list (Pointer V)) bs :
  Forall fresh_pointer ps → pointers_serialize ps = Ok bs → pointer_deserialize <$> bs = ps.
Proof.
  intros Hps. revert bs. induction Hps as [|p ps Hp _ IH]; intros bs; simpl.
  - by intros [= <-].
  - destruct (pointers_serialize ps) as [bs'|]; [|by destruct (pointer_serialize p)].
    destruct p as [|? [] []|]; try done; simpl; intros [= <-]; csimpl; f_equal; auto.
Qed.

(** The block of a node without dirty pointers; the caches do not matter. *)
Definition no_cache {V} (p : Pointer V) : Pointer V := match p with Link c ext _ => Link c ext None | _ => p end.
Definition drop_caches {V} (n : Node V) : Node V := mkNode (bitfield n) (no_cache <$> pointers n).
Definition not_dirty {V} (p : Pointer V) : Prop := match p with Dirty _ _ => False | _ => True end.

Lemma kserialize_no_dirty {V} (n : Node V) : Forall not_dirty (pointers n) →
  loaded (drop_caches n) ∧ ∃ b, node_serialize n = Ok b ∧ node_serialize (drop_caches n) = Ok b.
Proof.
  destruct n as [bf ps]. unfold drop_caches, loaded, node_serialize. cbn [pointers bitfield]. intros Hps.
  assert (Forall fresh_pointer (no_cache <$> ps) ∧
    ∃ bs, pointers_serialize ps = Ok bs ∧ pointers_serialize (no_cache <$> ps) = Ok bs) as (Hl & bs & -> & ->).
  { induction Hps as [|p ps Hp _ (Hl & bs & E1 & E2)]; [split; [constructor|by exists []]|]. csimpl.
    rewrite E1, E2. destruct p; try done; (split; [by constructor|by eexists]). }
  split; [done|]. by eexists.
Qed.

(** ** Loading *)

Section map.
Context `{BSS : BlockstoreSpec} {V : Type} `{EqDecision V} `{CB : !Cbor (NodeBlock V)} `{CS : !CborSpec (NodeBlock V)}.
Context (conf : Config) (H : bytes → bytes).
Context (HH : ∀ k, hash_ok (H k)) (Hw : 1 ≤ bit_width conf ≤ 8).
Context (Hmax : (1 ≤ max_array_width conf)%nat) (Hmin : (min_data_depth conf < levels (bit_width conf))%nat).
Implicit Types (n : Node V) (m : gmap bytes V) (s : Store).

Abbreviation w := (bit_width conf).
Abbreviation slot := (slot_of conf H).
Abbreviation subm := (sub conf H).
Abbreviation nrep := (nrep conf H).
Abbreviation stored := (stored conf H).
Abbreviation reaches := (reaches conf H).
Abbreviation slot_rep := (slot_rep conf H).
Abbreviation coherent := (coherent conf H).

(** A node at level [d] is loaded with a depth that counts nodes, which is
    exact only down to the minimum data depth. *)
Definition load_depth (d dp : nat) : Prop := (Nat.min d (min_data_depth conf) ≤ dp ≤ d)%nat.

Lemma load_depth_child d dp m ext e : load_depth d dp → reaches d m ext e → load_depth e (S dp).
Proof.
  intros Hl (He & _ & _ & Hlo & _). unfold load_depth in *.
  destruct (Nat.lt_ge_cases d (min_data_depth conf)); [rewrite Hlo by done|]; lia.
Qed.

Lemma krep_checks s d dp n g m : (d < levels w)%nat → load_depth d dp →
  has_view n g → loaded n → (∀ i, 0 ≤ i < 256 → slot_rep (nrep s) s d (g i) (subm d i m)) →
  check_pointers conf dp (pointers n) = Ok tt.
Proof.
  intros Hd Hdp Hv Hl Hg.
  assert (Forall (λ p, check_pointer conf dp p = Ok tt) (pointers n)) as Hall.
  { unfold loaded in Hl. rewrite Forall_forall in *. intros p Hin. specialize (Hl p Hin).
    apply (slots_elem _ _ _ _ Hv) in Hin as (i & Hi & Hgi). specialize (Hg i Hi). rewrite Hgi in Hg.
    destruct Hg as [Hne Hr]. unfold load_depth in Hdp. destruct p as [kvs|c ext [|]|]; try done.
    - destruct Hr as ((H1 & H2) & Hb). simpl. pose proof (bucket_length _ _ Hb) as Hlen.
      assert (size (subm d i m) ≠ 0%nat) by (by rewrite map_size_empty_iff).
      destruct (Nat.ltb_spec dp (min_data_depth conf)); [lia|]. destruct (Nat.eqb_spec (length kvs) 0); [lia|].
      destruct (Nat.ltb_spec (max_array_width conf) (length kvs)); [lia|].
      by rewrite (bucket_keys_increase _ _ Hb).
    - destruct Hr as (_ & e & (He & Hx & _) & (? & ? & ? & _ & _ & _ & _ & -> & _) & _). cbn [check_pointer].
      apply map_choose in Hne as (k & v & Hk). rewrite (Hx k) by eauto. rewrite path_ext_length by (done || lia).
      change (cid_codec (block_cid DAG_CBOR BLAKE2B_256 _)) with DAG_CBOR. simpl negb. rewrite Z.mod_mul by lia. simpl negb. cbv iota zeta.
      destruct (span_full w Hw 0 e ltac:(lia)) as [_ H256]. rewrite (consumed_full w Hw) in H256 by lia.
      assert ((Z.of_nat dp + 1) * w ≤ Z.of_nat (S d) * w) by nia.
      assert (Z.of_nat (S d) * w + Z.of_nat (e - S d) * w = Z.of_nat e * w) by nia.
      rewrite !wrap32_id by (rewrite ?wrap32_id; nia).
      by destruct (Z.leb_spec (256 - (Z.of_nat dp + 1) * w) (Z.of_nat (e - S d) * w)); [lia|]. }
  induction Hall as [|p ps Hp _ IH]; simpl; [done|]. by rewrite Hp.
Qed.

(** At most one pointer per index. *)
Lemma krep_width s d n g m : (d < levels w)%nat →
  has_view n g → (∀ i, 0 ≤ i < 256 → slot_rep (nrep s) s d (g i) (subm d i m)) →
  Z.of_nat (length (pointers n)) ≤ 2 ^ w.
Proof.
  intros Hd (_ & _ & ->) Hg. pose proof (Z.pow_le_mono_r 2 w 8 ltac:(lia) ltac:(lia)) as H2.
  assert (0 < 2 ^ w) by (apply Z.pow_pos_nonneg; lia). change (2 ^ 8) with 256 in H2.
  replace 256 with (2 ^ w + (256 - 2 ^ w)) by lia. rewrite seqZ_app, omap_app, length_app by lia.
  assert (omap g (seqZ (0 + 2 ^ w) (256 - 2 ^ w)) = []) as ->.
  { rewrite (omap_same _ (λ _, None)); [by induction (seqZ _ _)|]. intros i Hi%elem_of_seqZ.
    specialize (Hg i ltac:(lia)). destruct (g i) as [p|]; [|done]. destruct Hg as [Hne _]. destruct Hne.
    apply map_eq. intros k. rewrite lookup_empty. apply eq_None_not_Some. intros [v [_ Hk]%sub_lookup].
    pose proof (slot_range conf H Hw d k Hd). lia. }
  simpl. pose proof (length_omap_le g (seqZ 0 (2 ^ w))) as Hle. rewrite length_seqZ in Hle. lia.
Qed.

(** The slot of a key of the map is filled. *)
Lemma key_slot s d n g m k v : (d < levels w)%nat →
  has_view n g → (∀ i, 0 ≤ i < 256 → slot_rep (nrep s) s d (g i) (subm d i m)) → m !! k = Some v →
  ∃ p, g (slot d k) = Some p ∧ p ∈ pointers n.
Proof.
  intros Hd Hv Hg Hk. pose proof (slot_range conf H Hw d k ltac:(lia)) as [_ Hr]. specialize (Hg _ Hr).
  destruct (g (slot d k)) as [p|] eqn:Hp.
  - exists p. split; [done|]. apply (slots_elem _ _ _ _ Hv). eauto.
  - assert (subm d (slot d k) m !! k = Some v) as Hx by (by rewrite sub_at). simpl in Hg. by rewrite Hg in Hx.
Qed.

Lemma kload_ok s d dp c m : (d < levels w)%nat → load_depth d dp → (dp ≠ 0%nat → m ≠ ∅) →
  stored s d c m → ∃ n, node_load conf s c dp = Ok n ∧ nrep s d n m.
Proof.
  intros Hd Hdp Hne (n & b & bz & Hl & Hr & Hs & Hz & -> & Hget). exists n. split; [|done].
  apply nrep_unfold in Hr as (g & Hv & Hg); [|done].
  unfold node_load, get_cbor. simpl. rewrite Hget. destruct (from_to_vec b) as (bz' & E1 & E2).
  assert (bz' = bz) as -> by congruence. rewrite E2.
  destruct b as [bfz bs]. unfold node_serialize in Hs.
  destruct (pointers_serialize (pointers n)) as [bs'|] eqn:Hps; [|done]. injection Hs as <- <-.
  rewrite bf_roundtrip by apply Hv. cbv zeta. rewrite (kpointers_roundtrip _ _ Hl Hps).
  rewrite (slots_count _ _ _ Hv), Nat.eqb_refl. rewrite (krep_checks s d dp n g m) by done.
  pose proof (krep_width s d n g m Hd Hv Hg) as Hwd. rewrite Z.shiftl_1_l.
  destruct (Z.ltb_spec (2 ^ w) (Z.of_nat (length (pointers n)))); [lia|]. simpl negb. cbv iota.
  replace ((length (pointers n) =? 0)%nat && negb (dp =? 0)%nat) with false; [by destruct n|].
  destruct (Nat.eqb_spec dp 0) as [|Hd0]; [by rewrite andb_false_r|]. rewrite andb_true_r. symmetry. apply Nat.eqb_neq.
  intros Hnil%nil_length_inv. specialize (Hne Hd0). apply map_choose in Hne as (k & v & Hk).
  destruct (key_slot s d n g m k v Hd Hv Hg Hk) as (p & _ & Hp). rewrite Hnil in Hp. by apply elem_of_nil in Hp.
Qed.

Lemma kchild_load s d dp e c ext cache m : load_depth d dp → m ≠ ∅ → reaches d m ext e →
  stored s e c m → (∀ n, cache = Some n → nrep s e n m) →
  ∃ node, load_cached conf s c cache (S dp) = Ok node ∧ nrep s e node m.
Proof.
  intros Hdp Hne Hr Hst Hc. destruct cache as [node|]; simpl; [by exists node; auto|].
  apply kload_ok; [apply Hr|by eapply load_depth_child|done..].
Qed.

(** ** One level *)

(** Replacing what one slot holds. *)
Lemma krep_update s d n' g m m' i x : (d < levels w)%nat →
  (∀ j, 0 ≤ j < 256 → slot_rep (nrep s) s d (g j) (subm d j m)) →
  has_view n' (upd i x g) → slot_rep (nrep s) s d x (subm d i m') →
  (∀ j, j ≠ i → subm d j m' = subm d j m) → nrep s d n' m'.
Proof.
  intros Hd Hg Hv' Hx Hj. apply nrep_unfold; [done|]. exists (upd i x g). split; [done|]. intros j Hrange. unfold upd.
  case_decide as E; [by subst|]. rewrite Hj by done. by apply Hg.
Qed.

(** Enter the slot of a key: its index, whether it is filled, its pointer. *)
Ltac enter_slot k Hv Hg Hi Hgi Hs p :=
  match type of Hv with has_view ?n ?g =>
    match goal with |- context [hb_next _ (hb_at _ _ ?d)] =>
      rewrite (key_next w Hw) by (done || lia);
      change (idx_at w (H k) d) with (slot d k); rewrite (slots_test _ _ _ _ Hv Hi);
      pose proof (Hg _ Hi) as Hs;
      destruct (g (slot d k)) as [p|] eqn:Hgi; cbn [KamtRep.slot_rep] in Hs;
      [rewrite bool_decide_true by eauto|rewrite bool_decide_false by (by intros [])];
      cbv zeta; simpl negb; cbv iota; [rewrite (slots_lookup _ _ _ _ _ Hv Hi Hgi)|]
    end
  end.

(** How far a key follows the extension to the pairs [m]. *)
Definition follows (d : nat) m (k : bytes) (y : nat) : Prop :=
  ∀ k' x, is_Some (m !! k') → (S d ≤ x < y)%nat → slot x k' = slot x k.

Lemma match_reaches d m ext e k : m ≠ ∅ → reaches d m ext e →
  ∃ y, (S d ≤ y ≤ e)%nat ∧ follows d m k y ∧
    if decide (y = e)
    then match_extension conf (hb_at w (H k) (S d)) ext = Ok (Full (Z.of_nat (e - S d)), hb_at w (H k) e)
    else (min_data_depth conf ≤ d)%nat ∧ (∀ k', is_Some (m !! k') → slot y k' ≠ slot y k) ∧
      match_extension conf (hb_at w (H k) (S d)) ext = Ok (Partial ext (Z.of_nat (y - S d) * w), hb_at w (H k) y).
Proof.
  intros (k0 & v0 & Hk0)%map_choose (He & Hx & Hsh & Hlo & _). assert (is_Some (m !! k0)) as Hs0 by eauto.
  unfold match_extension, ext_is_empty. rewrite (Hx k0) by done. rewrite path_ext_length by (done || lia).
  destruct (decide (e = S d)) as [->|Hne].
  { exists (S d). split_and!; [lia..| |].
    - intros k' x _ Hxx. lia.
    - rewrite decide_True by done. rewrite Nat.sub_diag. done. }
  destruct (Z.eqb_spec (Z.of_nat (e - S d) * w) 0); [nia|].
  destruct (longest_match_ok w Hw (H k0) (H k) (S d) e (HH _) (HH _) ltac:(lia)) as (y & (Hy & Heq & Hdiff) & ->).
  exists y. rewrite Z.div_mul by lia. assert (follows d m k y) as Hfol.
  { intros k' x Hk' Hxx. transitivity (slot x k0); [apply Hsh; [done..|lia]|]. apply (Heq x). lia. }
  split_and!; [lia..|done|]. destruct (decide (y = e)) as [->|Hye].
  - by rewrite Z.eqb_refl.
  - split; [destruct (Nat.lt_ge_cases d (min_data_depth conf)); [|done]; by rewrite Hlo in Hne|]. split.
    + intros k' Hk' E. apply (Hdiff ltac:(lia)). transitivity (slot y k'); [symmetry; apply Hsh; [done..|lia]|exact E].
    + destruct (Z.eqb_spec (Z.of_nat (y - S d) * w) (Z.of_nat (e - S d) * w)); [|done]. exfalso. nia.
Qed.

(** A key of the map follows the extension to its end. *)
Lemma follows_key m k y v : m !! k = Some v → (∀ k', is_Some (m !! k') → slot y k' ≠ slot y k) → False.
Proof. intros Hk Hd. by apply (Hd k); [eauto|]. Qed.

(** ** Lookup *)

Lemma kget_value_ok s d : (d < levels w)%nat → ∀ dp fuel n m k, load_depth d dp → (levels w - d ≤ fuel)%nat → nrep s d n m →
  ∃ n', get_value conf fuel s (hb_at w (H k) d) dp k n = (Ok (m !! k), n') ∧ nrep s d n' m.
Proof.
  revert d. apply (levels_ind conf (λ d, ∀ dp fuel n m k, load_depth d dp → (levels w - d ≤ fuel)%nat → nrep s d n m →
    ∃ n', get_value conf fuel s (hb_at w (H k) d) dp k n = (Ok (m !! k), n') ∧ nrep s d n' m)).
  intros d Hd IH dp [|fuel] n m k Hdp Hfuel Hn; [lia|]. pose proof Hn as Hn0. apply nrep_unfold in Hn as (g & Hv & Hg); [|done].
  pose proof (slot_range conf H Hw d k Hd) as [_ Hi]. cbn [get_value].
  rewrite <-(sub_at conf H d m k). enter_slot k Hv Hg Hi Hgi Hs p.
  2:{ exists n. by rewrite Hs, lookup_empty. }
  destruct Hs as [Hne Hs]. set (mi := subm d (slot d k) m) in *. destruct p as [kvs|c ext cache|node ext].
  - exists n. split; [|done]. do 2 f_equal. rewrite (bucket_find _ _ _ (proj2 Hs)). by destruct (mi !! k).
  - destruct Hs as (Hnf & e & Hr & Hst & Hc).
    destruct (kchild_load s d dp e c ext cache mi Hdp Hne Hr Hst Hc) as (node & -> & Hnode).
    destruct (match_reaches d mi ext e k Hne Hr) as (y & Hy & _ & Hm).
    assert (∀ node', nrep s e node' mi → nrep s d (set_child (index_for_bit_pos (slot d k) (bitfield n))
      (Link c ext (Some node')) n) m) as Hup.
    { intros node' Hnode'. eapply krep_update; [done|exact Hg|by eapply kview_set| |done].
      split; [done|]. split; [done|]. exists e. split_and!; [done..|]. by intros ? [= <-]. }
    destruct (decide (y = e)) as [->|Hye].
    + rewrite Hm. pose proof Hr as [He _].
      destruct (IH e ltac:(lia) (S dp) fuel node mi k) as (node' & -> & Hnode'); [by eapply load_depth_child|lia|done|]. eauto.
    + destruct Hm as (_ & Hdiff & ->). eexists. split; [|by apply Hup]. do 2 f_equal.
      destruct (mi !! k) eqn:Hk; [|done]. by destruct (follows_key mi k y _ Hk).
  - destruct Hs as (Hnf & e & Hr & Hnode). destruct (match_reaches d mi ext e k Hne Hr) as (y & Hy & _ & Hm).
    assert (∀ node', nrep s e node' mi → nrep s d (set_child (index_for_bit_pos (slot d k) (bitfield n))
      (Dirty node' ext) n) m) as Hup.
    { intros node' Hnode'. eapply krep_update; [done|exact Hg|by eapply kview_set| |done].
      split; [done|]. split; [done|]. by exists e. }
    destruct (decide (y = e)) as [->|Hye].
    + rewrite Hm. pose proof Hr as [He _].
      destruct (IH e ltac:(lia) (S dp) fuel node mi k) as (node' & -> & Hnode'); [by eapply load_depth_child|lia|done|]. eauto.
    + destruct Hm as (_ & Hdiff & ->). eexists. split; [|by apply Hup]. do 2 f_equal.
      destruct (mi !! k) eqn:Hk; [|done]. by destruct (follows_key mi k y _ Hk).
Qed.

(** ** Insertion *)

Lemma krep_default s d : (d < levels w)%nat → nrep s d Node_default ∅.
Proof.
  intros Hd. apply nrep_unfold; [done|]. exists (λ _, None). split; [apply slots_default|]. intros i _. apply sub_empty.
Qed.

(** The keys agree at further levels. *)
Lemma coherent_down d e m : coherent d m →
  (∀ k k' x, is_Some (m !! k) → is_Some (m !! k') → (d ≤ x < e)%nat → slot x k = slot x k') → coherent e m.
Proof.
  intros Hc Hs k k' Hk Hk'. destruct (Hc k k' Hk Hk') as [Hp Hh]. split; [|done]. intros x Hx.
  destruct (Nat.lt_ge_cases x d); [auto|]. apply Hs; [done..|lia].
Qed.

(** Adding a key that follows the extension. *)
Lemma insert_keys k v m a : is_Some (<[k := v]> m !! a) → a = k ∨ is_Some (m !! a).
Proof. rewrite lookup_insert_is_Some. intros [->|[_ ?]]; auto. Qed.

Lemma follows_agree d m k v y : follows d m k y →
  (∀ a b x, is_Some (m !! a) → is_Some (m !! b) → (S d ≤ x < y)%nat → slot x a = slot x b) →
  ∀ a b x, is_Some (<[k := v]> m !! a) → is_Some (<[k := v]> m !! b) → (S d ≤ x < y)%nat → slot x a = slot x b.
Proof.
  intros Hf Hs a b x [->|Ha]%insert_keys [->|Hb]%insert_keys Hx; [done| | |auto].
  - symmetry. by apply Hf.
  - by apply Hf.
Qed.

Lemma path_agree m ext d y k v : (S d ≤ y < levels w)%nat → m ≠ ∅ →
  (∀ a, is_Some (m !! a) → ext = path_ext w (H a) (S d) y) → follows d m k y →
  ∀ a, is_Some (<[k := v]> m !! a) → ext = path_ext w (H a) (S d) y.
Proof.
  intros Hy (k0 & v0 & Hk0)%map_choose Hx Hf a [->|Ha]%insert_keys; [|auto]. rewrite (Hx k0) by eauto.
  apply path_ext_same; [done..|]. intros x Hxx. apply (Hf k0); [eauto|lia].
Qed.

Lemma reaches_insert d m ext e k v : m ≠ ∅ → reaches d m ext e → follows d m k e → reaches d (<[k := v]> m) ext e.
Proof.
  intros Hne (He & Hx & Hs & Hlo & Hhi) Hf. split_and!; [lia..| | |done|].
  - by apply path_agree.
  - by apply follows_agree.
  - intros Hd. destruct (Hhi Hd) as (a & b & Ha & Hb & Hab). exists a, b. rewrite !lookup_insert_is_Some'. auto.
Qed.
Lemma reaches_put ow d m ext e k v : m ≠ ∅ → reaches d m ext e → follows d m k e → reaches d (put_kv ow k v m) ext e.
Proof. intros Hne Hr Hf. unfold put_kv. destruct (m !! k), ow; try done; by apply reaches_insert. Qed.

(** Keys with different hashes part at some level below the ones they share. *)
Lemma keys_part d m k k' : coherent d m → is_Some (m !! k) → is_Some (m !! k') → k ≠ k' →
  ∃ z, (d ≤ z < levels w)%nat ∧ slot z k ≠ slot z k'.
Proof.
  intros Hc Hk Hk' Hne. destruct (Hc k k' Hk Hk') as [Hp Hh].
  destruct (decide (Forall (λ z, slot z k = slot z k') (seq 0 (levels w)))) as [Hall|Hex].
  - destruct Hne. apply Hh. apply (idx_at_inj w Hw); [done..|]. intros z Hz. rewrite Forall_forall in Hall.
    apply Hall. apply elem_of_seq. lia.
  - apply not_Forall_Exists, Exists_exists in Hex as (z & Hz%elem_of_seq & Hd); [|intros ?; apply _].
    exists z. split; [|done]. destruct (Nat.lt_ge_cases z d); [by destruct Hd; apply Hp|lia].
Qed.

(** Splitting an extension: the midway node at level [y] with the original child
    and the new pair. *)
Lemma midway_ok s d y e m k v k0 ext p tail : (d < levels w)%nat → m !! k0 ≠ None →
  reaches d m ext e → (S d ≤ y < e)%nat → follows d m k y → (min_data_depth conf ≤ d)%nat → ¬ fits conf d m →
  (∀ k', is_Some (m !! k') → slot y k' ≠ slot y k) →
  (reaches y m tail e → ¬ fits conf y m → pointer_rep conf H (nrep s) s y p m) →
  tail = path_ext w (H k0) (S y) e →
  nrep s y (insert_child (slot y k) k v (insert_pointer (slot y k0) p Node_default)) (<[k := v]> m) ∧
  reaches d (<[k := v]> m) (path_ext w (H k0) (S d) y) y.
Proof.
  intros Hd Hk0 (He & Hx & Hs & Hlo & Hhi) Hy Hf Hmd Hnf Hdiff Hp ->. apply not_eq_None_Some in Hk0.
  assert (m ≠ ∅) as Hne by (intros ->; by destruct Hk0).
  assert (∀ a, is_Some (m !! a) → slot y a = slot y k0) as Hall by (intros a Ha; apply Hs; [done..|lia]).
  assert (is_Some (m !! k) → False) as Hnk by (intros Hk; by apply (Hdiff k)).
  pose proof (slot_range conf H Hw y k ltac:(lia)) as [_ Hik]. pose proof (slot_range conf H Hw y k0 ltac:(lia)) as [_ Hi0].
  split.
  - apply nrep_unfold; [lia|]. eexists. split.
    { apply kview_insert; [apply kview_insert; [apply slots_default|done|done]|done|].
      unfold upd. rewrite decide_False; [done|]. intros E. by apply (Hdiff k0). }
    intros i Hi. unfold upd. case_decide as Ei; [|case_decide as Ei0].
    + subst i. rewrite sub_insert. assert (subm y (slot y k) m = ∅) as ->.
      { apply map_empty. intros a. apply eq_None_not_Some. intros [va [Ha Hsl]%sub_lookup]. apply (Hdiff a); eauto. }
      split; [apply insert_non_empty|]. split; [|apply bucket_one]. split; [lia|]. by rewrite insert_empty, map_size_singleton.
    + subst i. rewrite sub_insert_ne by done. assert (subm y (slot y k0) m = m) as ->.
      { apply map_filter_id. intros a va Ha. simpl. apply Hall. eauto. }
      split; [done|]. apply Hp; [|unfold fits in *; lia]. split_and!; [lia..| | |lia|].
      * intros a Ha. apply path_ext_same; [done..|lia|]. intros x Hxx. apply (Hs k0 a x); [done..|lia].
      * intros a b x Ha Hb Hxx. apply Hs; [done..|lia].
      * intros _. by apply Hhi.
    + rewrite sub_insert_ne by done. apply map_empty. intros a. apply eq_None_not_Some.
      intros [va [Ha Hsl]%sub_lookup]. apply Ei0. rewrite <-Hsl. apply Hall. eauto.
  - split_and!; [lia..| | |lia|].
    + apply path_agree; [lia|done| |done]. intros a Ha. apply path_ext_same; [done..|lia|]. intros x Hxx.
      apply (Hs k0 a x); [done..|lia].
    + apply follows_agree; [done|]. intros a b x Ha Hb Hxx. apply Hs; [done..|lia].
    + intros _. exists k0, k. rewrite lookup_insert_eq, lookup_insert_is_Some'. split_and!; [auto|eauto|by apply Hdiff].
Qed.

Lemma split_extension_ok d y e k k0 (v : V) ins child moved : (S d ≤ y < e)%nat → (e < levels w)%nat →
  split_extension conf (hb_at w (H k) y) (path_ext w (H k0) (S d) e) (Z.of_nat (y - S d) * w) k v ins child moved =
    (Ok tt, Dirty (insert_child (slot y k) k v (ins (slot y k0) (path_ext w (H k0) (S y) e) Node_default))
                  (path_ext w (H k0) (S d) y)).
Proof.
  intros Hy He. unfold split_extension, partial_split. rewrite split_path by (done || lia).
  destruct (pack_index w (idx_at w (H k0) y) Hw) as (hb & ->); [apply idx_at_range; done || lia|].
  rewrite (key_next w Hw) by (done || lia). done.
Qed.

Lemma kpush_down_ok s d put :
  (∀ sub m k v, nrep s d sub m → coherent d (<[k := v]> m) → m !! k = None →
     ∃ r sub', put k v sub = (Ok r, sub') ∧ nrep s d sub' (<[k := v]> m)) →
  ∀ kvs sub m, NoDup kvs.*1 → (∀ k, k ∈ kvs.*1 → m !! k = None) → nrep s d sub m →
    coherent d (list_to_map kvs ∪ m) →
    ∃ sub', push_down put kvs sub = (Ok tt, sub') ∧ nrep s d sub' (list_to_map kvs ∪ m).
Proof.
  intros Hput kvs. induction kvs as [|[k v] kvs IH]; intros sub0 m Hnd Hnew Hr Hc.
  - exists sub0. split; [done|]. by rewrite list_to_map_nil, (left_id_L ∅ (∪)).
  - csimpl in Hnd. csimpl in Hnew. apply NoDup_cons in Hnd as [Hni Hnd].
    assert (list_to_map kvs ∪ <[k := v]> m = list_to_map ((k, v) :: kvs) ∪ m) as E.
    { rewrite list_to_map_cons, <-insert_union_l. symmetry. apply insert_union_r. by apply not_elem_of_list_to_map_1. }
    rewrite <-E in *. destruct (Hput sub0 m k v Hr) as (r & sub1 & E1 & Hr1).
    + eapply coherent_dom; [|exact Hc]. intros k' Hk'. apply lookup_union_is_Some. by right.
    + apply Hnew. in_cons.
    + destruct (IH sub1 (<[k := v]> m) Hnd) as (sub2 & E2 & Hr2); [|done..|].
      * intros k' Hk'. rewrite lookup_insert_ne by (intros ->; done). apply Hnew. in_cons.
      * exists sub2. split; [|done]. simpl. rewrite E1. exact E2.
Qed.

(** [modify_value] at one level, as the levels above use it. *)
Definition modifies_at s (d : nat) : Prop := ∀ fuel ow n m k v, (levels w - d ≤ fuel)%nat →
  nrep s d n m → coherent d (<[k := v]> m) →
  ∃ n', modify_value conf H fuel s ow (hb_at w (H k) d) d k v n =
      (Ok (set_result ow (m !! k) v), n') ∧ nrep s d n' (put_kv ow k v m).

(** The pairs of a full bucket and a new one, in a node of their own. *)
Lemma refill_ok s d fuel ow kvs m k v : (d < levels w)%nat → modifies_at s d → (levels w - d ≤ fuel)%nat →
  bucket kvs m → m !! k = None → coherent d (<[k := v]> m) →
  ∃ sub sub', modify_value conf H fuel s ow (hb_at w (H k) d) d k v Node_default = (Ok (None, true), sub) ∧
    push_down (λ k v sub, modify_value conf H fuel s ow (hb_at w (H k) d) d k v sub) kvs sub = (Ok tt, sub') ∧
    nrep s d sub' (<[k := v]> m).
Proof.
  intros Hd Hmod Hfuel Hb Hk Hc.
  destruct (Hmod fuel ow Node_default ∅ k v Hfuel (krep_default s d Hd) (coherent_single conf H _ _ _ _ Hc)) as (sub & E1 & Hr).
  unfold put_kv in Hr. rewrite lookup_empty in E1, Hr. exists sub.
  assert (list_to_map kvs ∪ {[k := v]} = <[k := v]> m) as Heq.
  { rewrite (list_to_map_proper kvs (map_to_list m)), list_to_map_to_list;
      [|by eapply bucket_NoDup|apply Hb]. symmetry. by apply insert_union_singleton_r. }
  destruct (kpush_down_ok s d
    (λ k v sub, modify_value conf H fuel s ow (hb_at w (H k) d) d k v sub)) with (kvs := kvs) (sub := sub)
    (m := {[k := v]} : gmap bytes V) as (sub' & E2 & Hr').
  - intros sub0 m0 k0 v0 Hr0 Hc0 Hk0. destruct (Hmod fuel ow sub0 m0 k0 v0 Hfuel Hr0 Hc0) as (n' & E & Hn').
    unfold put_kv in Hn'. rewrite Hk0 in E, Hn'. eauto.
  - by eapply bucket_NoDup.
  - intros k' (kv & -> & Hin)%list_elem_of_fmap. destruct kv as [k' v']. apply (bucket_elem _ _ _ _ Hb) in Hin.
    apply lookup_singleton_ne. simpl. intros ->. congruence.
  - exact Hr.
  - by rewrite Heq.
  - exists sub'. split_and!; [done..|]. by rewrite <-Heq.
Qed.

(** Where a full bucket and a new key part: the extension to the new node. *)
Lemma prefix_ok d kvs m k v : (S d ≤ levels w)%nat → (min_data_depth conf ≤ d)%nat → bucket kvs m → m ≠ ∅ → m !! k = None →
  coherent (S d) (<[k := v]> m) →
  ∃ y, reaches d (<[k := v]> m) (path_ext w (H k) (S d) y) y ∧
    longest_common_prefix (hb_at w (H k) (S d)) w (H ∘ fst <$> kvs) = Ok (path_ext w (H k) (S d) y, hb_at w (H k) y).
Proof.
  intros Hd Hmd Hb Hne Hk Hc. apply map_choose in Hne as (k0 & v0 & Hk0).
  destruct (keys_part (S d) _ k k0 Hc) as (z & Hz & Hdz);
    [rewrite lookup_insert_eq; eauto|rewrite lookup_insert_is_Some'; eauto|congruence|].
  assert (∀ a va, m !! a = Some va → H a ∈ H ∘ fst <$> kvs) as Hin.
  { intros a va Ha. apply (bucket_elem _ _ _ _ Hb) in Ha. apply list_elem_of_fmap. by exists (a, va). }
  destruct (common_prefix_ok w Hw (H k) (H ∘ fst <$> kvs) (S d) z) as (y & Hy & Heq & (h' & Hh' & Hdiff) & E).
  - done.
  - apply Forall_fmap, Forall_true. intros. apply HH.
  - exists (H k0). split; [by eapply Hin|done].
  - lia.
  - exists y. split; [|exact E]. assert (follows d m k y) as Hf.
    { intros a x [va Ha] Hx. symmetry. apply (Heq (H a) x); [by eapply Hin|lia]. }
    apply list_elem_of_fmap in Hh' as ([k1 v1] & -> & Hk1). apply (bucket_elem _ _ _ _ Hb) in Hk1.
    split_and!; [lia..| | |lia|].
    + intros a [->|Ha]%insert_keys; [done|]. apply path_ext_same; [done..|lia|]. intros x Hx. symmetry. by apply Hf.
    + apply follows_agree; [done|]. intros a b x Ha Hb' Hx. transitivity (slot x k); [by apply Hf|symmetry; by apply Hf].
    + intros _. exists k, k1. rewrite lookup_insert_eq, lookup_insert_is_Some'. split_and!; [eauto|eauto|exact Hdiff].
Qed.

(** The bucket of the key: overwrite, insert in order, or split. *)
Lemma kbucket_set_ok fuel s d ow n g m k v kvs : (d < levels w)%nat → (levels w - d ≤ S fuel)%nat →
  (∀ e, (d < e < levels w)%nat → modifies_at s e) → nrep s d n m →
  has_view n g → 0 ≤ slot d k < 256 → g (slot d k) = Some (Values kvs) → coherent (S d) (<[k := v]> (subm d (slot d k) m)) →
  (∀ n' x, has_view n' (upd (slot d k) x g) →
    slot_rep (nrep s) s d x (put_kv ow k v (subm d (slot d k) m)) → nrep s d n' (put_kv ow k v m)) →
  subm d (slot d k) m ≠ ∅ → fits conf d (subm d (slot d k) m) → bucket kvs (subm d (slot d k) m) →
  let cindex := index_for_bit_pos (slot d k) (bitfield n) in
  ∃ n', match position (λ p, key_eqb p.1 k) kvs with
        | Some i =>
            match kvs !! i with
            | Some (k', old) =>
                if ow
                then (Ok (Some old, negb (bool_decide (old = v))), set_child cindex (Values (<[i := (k', v)]> kvs)) n)
                else (Ok (None, false), n)
            | None => (Err out_of_bounds, n)
            end
        | None =>
            if (max_array_width conf <=? length kvs)%nat then
              match longest_common_prefix (hb_at w (H k) (S d)) w (H ∘ fst <$> kvs) with
              | Err e => (Err e, set_child cindex (Values []) n)
              | Ok (ext, hb) =>
                  match modify_value conf H fuel s ow hb (S d + Z.to_nat (ext_length ext / w)) k v Node_default with
                  | (Err e, _) => (Err e, set_child cindex (Values []) n)
                  | (Ok modified, sub) =>
                      match push_down (λ k v sub, modify_value conf H fuel s ow
                              (hb_new_at_index (H k) (hb_consumed hb)) (S d + Z.to_nat (ext_length ext / w)) k v sub) kvs sub with
                      | (Ok _, sub) => (Ok modified, set_child cindex (Dirty sub ext) n)
                      | (Err e, _) => (Err e, set_child cindex (Values []) n)
                      end
                  end
              end
            else (Ok (None, true), set_child cindex
                   (Values (vec_insert (default (length kvs) (position (λ c, key_lt k c.1) kvs)) (k, v) kvs)) n)
        end = (Ok (set_result ow (subm d (slot d k) m !! k) v), n') ∧ nrep s d n' (put_kv ow k v m).
Proof.
  intros Hd Hfuel Hmod Hn Hv Hi Hgi Hcs Hup Hne [Hmd Hsz] Hb cindex. pose proof (bucket_position _ _ k Hb) as Hp.
  set (mi := subm d (slot d k) m) in *. destruct (position _ kvs) as [j|].
  - destruct Hp as (l1 & old & l2 & -> & <- & Hk). rewrite list_lookup_middle by done. rewrite Hk.
    unfold put_kv in Hup |- *. rewrite Hk in Hup.
    assert (m !! k = Some old) as Hkm by (by rewrite <-(sub_at conf H d)). rewrite Hkm in Hup |- *.
    destruct ow; [|by exists n].
    eexists. split; [reflexivity|]. eapply Hup; [by eapply kview_set|].
    rewrite insert_app_r_alt, Nat.sub_diag by done. split; [apply insert_non_empty|]. split; [|by eapply bucket_update].
    split; [done|]. rewrite map_size_insert_Some by eauto. done.
  - rewrite Hp. assert (size (<[k := v]> mi) = S (size mi)) as Hsz' by (by apply map_size_insert_None).
    pose proof (bucket_length _ _ Hb) as Hlen. unfold put_kv in Hup at 1. rewrite Hp in Hup.
    destruct (Nat.leb_spec (max_array_width conf) (length kvs)).
    + destruct (prefix_ok d kvs mi k v Hd Hmd Hb Hne Hp Hcs) as (y & Hr & ->). pose proof Hr as (Hy & _ & Hsh & _).
      rewrite path_ext_length, Z.div_mul, Nat2Z.id by (done || lia). replace (S d + (y - S d))%nat with y by lia.
      change (hb_consumed (hb_at w (H k) y)) with (consumed_at w y).
      destruct (refill_ok s y fuel ow kvs mi k v ltac:(lia) (Hmod y ltac:(lia)) ltac:(lia) Hb Hp) as (sub & sub' & E1 & E2 & Hsub).
      { eapply coherent_down; [exact Hcs|exact Hsh]. }
      rewrite E1. change (λ k v sub, modify_value conf H fuel s ow (hb_new_at_index (H k) (consumed_at w y)) y k v sub)
        with (λ k v sub, modify_value conf H fuel s ow (hb_at w (H k) y) y k v sub). rewrite E2.
      eexists. split; [reflexivity|]. eapply Hup; [by eapply kview_set|]. split; [apply insert_non_empty|].
      split; [unfold fits; lia|]. by exists y.
    + eexists. split; [reflexivity|]. eapply Hup; [by eapply kview_set|]. split; [apply insert_non_empty|].
      split; [unfold fits; lia|]. by apply bucket_insert.
Qed.

(** A key that leaves the extension of a slot at level [y]. *)
Lemma partial_set_ok s d y e m k v ext ins child moved (orig : Extension → Pointer V) : (d < levels w)%nat → m ≠ ∅ →
  reaches d m ext e → (S d ≤ y < e)%nat → follows d m k y → (min_data_depth conf ≤ d)%nat → ¬ fits conf d m →
  (∀ k', is_Some (m !! k') → slot y k' ≠ slot y k) → (∀ i tail n, ins i tail n = insert_pointer i (orig tail) n) →
  (∀ tail, reaches y m tail e → ¬ fits conf y m → pointer_rep conf H (nrep s) s y (orig tail) m) →
  m !! k = None ∧ ∃ p, split_extension conf (hb_at w (H k) y) ext (Z.of_nat (y - S d) * w) k v ins child moved = (Ok tt, p) ∧
    slot_rep (nrep s) s d (Some p) (<[k := v]> m).
Proof.
  intros Hd Hne Hr Hy Hf Hmd Hnf Hdiff Hins Horig. pose proof Hr as (He & Hx & _).
  assert (m !! k = None) as Hk by (apply eq_None_not_Some; intros [? ?]; by eapply follows_key).
  pose proof Hne as (k0 & v0 & Hk0)%map_choose. split; [done|]. rewrite (Hx k0) by eauto.
  rewrite split_extension_ok, Hins by lia. eexists. split; [reflexivity|].
  destruct (midway_ok s d y e m k v k0 ext (orig (path_ext w (H k0) (S y) e)) (path_ext w (H k0) (S y) e) Hd
    ltac:(by rewrite Hk0) Hr Hy Hf Hmd Hnf Hdiff) as [Hmid Hreach]; [apply Horig|done|].
  split; [apply insert_non_empty|]. split; [|by exists y].
  eapply not_fits_mono; [|exact Hnf]. rewrite map_size_insert_None by done. lia.
Qed.

Lemma kmodify_value_ok s d : (d < levels w)%nat → modifies_at s d.
Proof.
  revert d. apply levels_ind. intros d Hd IH [|fuel] ow n m k v Hfuel Hn Hc; [lia|].
  pose proof Hn as Hn0. apply nrep_unfold in Hn as (g & Hv & Hg); [|done].
  pose proof (slot_range conf H Hw d k Hd) as [_ Hi]. pose proof (coherent_insert_sub conf H _ _ _ _ Hc) as Hcs.
  assert (∀ n' x, has_view n' (upd (slot d k) x g) →
    slot_rep (nrep s) s d x (put_kv ow k v (subm d (slot d k) m)) → nrep s d n' (put_kv ow k v m)) as Hup.
  { intros n' x Hv' Hx. eapply krep_update; [done|exact Hg|exact Hv'|by rewrite put_kv_sub|]. intros. by apply put_kv_sub_ne. }
  cbn [modify_value]. rewrite <-(sub_at conf H d m k). enter_slot k Hv Hg Hi Hgi Hs p.
  - destruct Hs as [Hne Hs]. destruct (put_kv_non_empty ow k v (subm d (slot d k) m)) as [Hne'|]; [|done].
    destruct p as [kvs|c ext cache|node ext].
    + destruct Hs. by apply (kbucket_set_ok fuel s d ow n g m k v kvs).
    + destruct Hs as (Hnf & e & Hr & Hst & Hcache). set (mi := subm d (slot d k) m) in *.
      destruct (match_reaches d mi ext e k Hne Hr) as (y & Hy & Hf & Hm). destruct (decide (y = e)) as [->|Hye].
      * rewrite Hm, Nat2Z.id. pose proof Hr as (He & _ & Hsh & _). replace (S d + (e - S d))%nat with e by lia.
        destruct (kchild_load s d d e c ext cache mi ltac:(unfold load_depth; lia) Hne Hr Hst Hcache) as (node & -> & Hnode).
        destruct (IH e ltac:(lia) fuel ow node mi k v ltac:(lia) Hnode) as (node' & -> & Hnode').
        { eapply coherent_down; [exact Hcs|]. by apply follows_agree. }
        destruct (set_result ow _ v) as [old []] eqn:Eres; (eexists; split; [reflexivity|]); eapply Hup;
          try (by eapply kview_set); (split; [done|]).
        -- split; [eapply not_fits_mono; [apply put_kv_size|done]|]. exists e. split; [|done]. by apply reaches_put.
        -- rewrite (put_kv_unmodified _ _ _ _ _ Eres) in *. split; [done|]. exists e. split_and!; [done..|]. by intros ? [= <-].
      * destruct Hm as (Hmd & Hdiff & ->).
        destruct (partial_set_ok s d y e mi k v ext (λ idx tail, insert_child_link idx c tail cache) (Link c ext cache)
          (Link c ext None) (λ tail, Link c tail cache)) as (Hk & p & -> & Hp); [done..|lia|done|done|done|done|done| |].
        { intros tail Hry Hnfy. split; [done|]. exists e. by split_and!. }
        unfold put_kv in Hup at 1. rewrite Hk in Hup |- *. eexists. split; [reflexivity|].
        eapply Hup; [by eapply kview_set|exact Hp].
    + destruct Hs as (Hnf & e & Hr & Hnode). set (mi := subm d (slot d k) m) in *.
      destruct (match_reaches d mi ext e k Hne Hr) as (y & Hy & Hf & Hm). destruct (decide (y = e)) as [->|Hye].
      * rewrite Hm, Nat2Z.id. pose proof Hr as (He & _ & Hsh & _). replace (S d + (e - S d))%nat with e by lia.
        destruct (IH e ltac:(lia) fuel ow node mi k v ltac:(lia) Hnode) as (node' & -> & Hnode').
        { eapply coherent_down; [exact Hcs|]. by apply follows_agree. }
        eexists. split; [reflexivity|]. eapply Hup; [by eapply kview_set|]. split; [done|].
        split; [eapply not_fits_mono; [apply put_kv_size|done]|]. exists e. split; [|done]. by apply reaches_put.
      * destruct Hm as (Hmd & Hdiff & ->).
        destruct (partial_set_ok s d y e mi k v ext (λ idx tail, insert_child_dirty idx node tail) (Dirty node ext)
          (Dirty Node_default ext) (λ tail, Dirty node tail)) as (Hk & p & -> & Hp); [done..|lia|done|done|done|done|done| |].
        { intros tail Hry Hnfy. split; [done|]. by exists e. }
        unfold put_kv in Hup at 1. rewrite Hk in Hup |- *. eexists. split; [reflexivity|].
        eapply Hup; [by eapply kview_set|exact Hp].
  - assert (put_kv ow k v (subm d (slot d k) m) = {[k := v]}) as E by (unfold put_kv; by rewrite Hs, lookup_empty).
    rewrite Hs, lookup_empty, E in *. destruct (Nat.leb_spec (min_data_depth conf) d) as [Hmd|Hmd].
    + eexists. split; [reflexivity|]. eapply Hup; [by apply kview_insert|]. split; [apply map_non_empty_singleton|].
      split; [|apply bucket_one]. split; [done|]. by rewrite map_size_singleton.
    + destruct (IH (S d) ltac:(lia) fuel ow Node_default ∅ k v ltac:(lia) (krep_default s (S d) ltac:(lia)) Hcs) as (sub & -> & Hr).
      unfold put_kv in Hr. rewrite lookup_empty in *. eexists. split; [reflexivity|].
      eapply Hup; [by apply kview_insert|]. split; [apply map_non_empty_singleton|]. split; [unfold fits; lia|].
      exists (S d). split; [|done]. split_and!; [lia..| | |done|lia].
      * intros a _. by rewrite path_ext_nil.
      * intros a b x _ _ Hx. lia.
Qed.

(** ** Deletion *)

(** What the pointers of a node say about the size of its map. *)
Section sizes.
Context (d : nat) (s : Store) (m : gmap bytes V) (g : Z → option (Pointer V)).

Abbreviation slots_ok l := (∀ i, i ∈ l → slot_rep (nrep s) s d (g i) (subm d i m)).

Lemma kvalues_concat (l : list Z) children : slots_ok l → all_values (omap g l) = Some children →
  concat children ≡ₚ (l ≫= λ i, map_to_list (subm d i m)).
Proof.
  revert children. induction l as [|i l IH]; intros children Hl Hc; csimpl in *; [by injection Hc as <-|].
  pose proof (Hl i ltac:(in_cons)) as Hi. assert (slots_ok l) as Hl' by (intros; apply Hl; in_cons).
  destruct (g i) as [p|]; simpl in Hi.
  - destruct Hi as [_ Hi]. unfold all_values in Hc. simpl in Hc.
    destruct p as [kvs| |]; simplify_option_eq. simpl. destruct Hi as [_ [_ ->]].
    f_equiv. by apply IH.
  - rewrite Hi, map_to_list_empty. by apply IH.
Qed.

Lemma kpointers_le (l : list Z) : slots_ok l →
  (length (omap g l) ≤ length (l ≫= λ i, map_to_list (subm d i m)))%nat.
Proof.
  induction l as [|i l IH]; intros Hl; csimpl; [done|]. rewrite length_app, length_map_to_list.
  pose proof (Hl i ltac:(in_cons)) as Hi. specialize (IH ltac:(intros; apply Hl; in_cons)).
  destruct (g i) as [p|]; simpl in Hi |- *; [|lia]. destruct Hi as [Hne _].
  assert (size (subm d i m) ≠ 0%nat) by (by rewrite map_size_empty_iff). lia.
Qed.

Lemma kall_values_none (ps : list (Pointer V)) : all_values ps = None → ∃ p, p ∈ ps ∧ ∀ kvs, p ≠ Values kvs.
Proof.
  induction ps as [|p ps IH]; [done|]. unfold all_values. simpl. intros Hn.
  destruct p as [kvs|c e o|n e]; [|exists (Link c e o); in_cons|exists (Dirty n e); in_cons].
  simpl in Hn. change (mapM _ ps) with (all_values ps) in Hn. destruct (all_values ps) as [cs|]; [done|].
  destruct (IH eq_refl) as (p & Hp & Hv). exists p. in_cons.
Qed.
End sizes.

Lemma knode_sizes s d node g m : (d < levels w)%nat → has_view node g →
  (∀ i, 0 ≤ i < 256 → slot_rep (nrep s) s d (g i) (subm d i m)) →
  (length (pointers node) ≤ size m)%nat ∧ (length (pointers node) = 0%nat → m = ∅) ∧
  ((min_data_depth conf ≤ d)%nat → ∀ p, p ∈ pointers node → (∀ kvs, p ≠ Values kvs) → (max_array_width conf < size m)%nat) ∧
  (∀ children, all_values (pointers node) = Some children → concat children ≡ₚ map_to_list m).
Proof.
  intros Hd Hv Hg. pose proof Hv as (_ & _ & Hps).
  assert (∀ i, i ∈ seqZ 0 256 → slot_rep (nrep s) s d (g i) (subm d i m)) as Hsl.
  { intros i Hi%elem_of_seqZ. apply Hg. lia. }
  pose proof (sub_partition conf H Hw d m ltac:(lia)) as Hpart.
  assert (∀ children, all_values (pointers node) = Some children → concat children ≡ₚ map_to_list m) as Hcat.
  { intros children Hc. rewrite Hps in Hc. rewrite (kvalues_concat d s m g _ _ Hsl Hc). by rewrite <-Hpart. }
  split_and!; [| | |done].
  - pose proof (kpointers_le d s m g (seqZ 0 256) Hsl) as Hle.
    rewrite <-Hpart, length_map_to_list in Hle. by rewrite Hps.
  - intros Hl%nil_length_inv. rewrite Hl in Hcat. specialize (Hcat [] eq_refl).
    by apply map_to_list_empty_iff, Permutation_nil_r.
  - intros Hmd p (i & Hi & Hgi)%(slots_elem _ _ _ _ Hv) Hn. specialize (Hg i Hi). rewrite Hgi in Hg.
    assert (¬ fits conf d (subm d i m)) as Hnf by (destruct p; [by destruct (Hn kvs)|apply Hg..]).
    pose proof (map_subseteq_size _ _ (sub_subseteq conf H d i m)). unfold fits in Hnf. lia.
Qed.

(** A node with one pointer: all keys take its slot. *)
Lemma only_slot s d node g m p : (d < levels w)%nat → has_view node g →
  (∀ i, 0 ≤ i < 256 → slot_rep (nrep s) s d (g i) (subm d i m)) → pointers node = [p] →
  ∃ i, 0 ≤ i < 256 ∧ g i = Some p ∧ last_one_idx (bitfield node) = Some i ∧ subm d i m = m ∧
    ∀ k, is_Some (m !! k) → slot d k = i.
Proof.
  intros Hd Hv Hg Hp. assert (p ∈ pointers node) as Hin by (rewrite Hp; in_cons).
  apply (slots_elem _ _ _ _ Hv) in Hin as (i & Hi & Hgi).
  assert (∀ j q, 0 ≤ j < 256 → g j = Some q → j = i) as Honly.
  { intros j q Hj Hgj. pose proof Hv as (_ & _ & Hps). rewrite Hp in Hps. destruct (slots_index _ _ _ i Hv Hi) as [_ Hsp].
    rewrite Hp, Hgi in Hsp. destruct (omap g (seqZ 0 i)) as [|? l1] eqn:E1.
    2:{ apply (f_equal length) in Hsp. rewrite length_app in Hsp. simpl in Hsp. lia. }
    injection Hsp as E2. destruct (Z.lt_trichotomy j i) as [Hlt|[->|Hgt]]; [|done|].
    - assert (q ∈ omap g (seqZ 0 i)) as Hq by (apply list_elem_of_omap; exists j; rewrite elem_of_seqZ; split; [lia|done]).
      rewrite E1 in Hq. by apply elem_of_nil in Hq.
    - assert (q ∈ omap g (seqZ (i + 1) (255 - i))) as Hq by (apply list_elem_of_omap; exists j; rewrite elem_of_seqZ; split; [lia|done]).
      rewrite <-E2 in Hq. by apply elem_of_nil in Hq. }
  assert (∀ k, is_Some (m !! k) → slot d k = i) as Hall.
  { intros k [v Hk]. destruct (key_slot s d node g m k v Hd Hv Hg Hk) as (q & Hq & _).
    pose proof (slot_range conf H Hw d k ltac:(lia)) as [_ Hr]. by eapply Honly. }
  exists i. split_and!; [lia..|done| | |done].
  - destruct Hv as (Hwf & Hbits & _). apply last_one_only; [done..|]. intros j Hj. rewrite Hbits by done.
    apply bool_decide_ext. split; [intros [q Hq]; by eapply Honly|]. intros ->. eauto.
  - apply map_filter_id. intros k v Hk. apply Hall. eauto.
Qed.

(** A node with more pointers: the keys part there. *)
Lemma two_slots s d node g m : (d < levels w)%nat → has_view node g →
  (∀ i, 0 ≤ i < 256 → slot_rep (nrep s) s d (g i) (subm d i m)) → (2 ≤ length (pointers node))%nat →
  ∃ k k', is_Some (m !! k) ∧ is_Some (m !! k') ∧ slot d k ≠ slot d k'.
Proof.
  intros Hd Hv Hg Hlen. pose proof Hv as (_ & _ & Hps).
  destruct (omap g (seqZ 0 256)) as [|p [|q l]] eqn:E; rewrite Hps in Hlen; simpl in Hlen; try lia.
  assert (∃ i j pi pj, 0 ≤ i < 256 ∧ 0 ≤ j < 256 ∧ i ≠ j ∧ g i = Some pi ∧ g j = Some pj) as (i & j & pi & pj & Hi & Hj & Hij & Hgi & Hgj).
  { assert (p ∈ omap g (seqZ 0 256)) as (i & Hi%elem_of_seqZ & Hgi)%list_elem_of_omap by (rewrite E; in_cons).
    destruct (slots_index _ _ _ i Hv ltac:(lia)) as [_ Hsp]. rewrite Hgi in Hsp.
    destruct (omap g (seqZ 0 i) ++ omap g (seqZ (i + 1) (255 - i))) as [|r rs] eqn:Er.
    { apply app_eq_nil in Er as [E1 E2]. rewrite E1, E2, Hps in Hsp. discriminate. }
    assert (r ∈ omap g (seqZ 0 i) ++ omap g (seqZ (i + 1) (255 - i))) as Hr by (rewrite Er; in_cons).
    apply elem_of_app in Hr as [(j & Hj%elem_of_seqZ & Hgj)%list_elem_of_omap|(j & Hj%elem_of_seqZ & Hgj)%list_elem_of_omap];
      exists i, j, p, r; (split_and!; [lia..|done|done]). }
  pose proof (Hg i Hi) as Hsi. pose proof (Hg j Hj) as Hsj. rewrite Hgi in Hsi. rewrite Hgj in Hsj.
  destruct Hsi as [(k & v & [Hk <-]%sub_lookup)%map_choose _], Hsj as [(k' & v' & [Hk' <-]%sub_lookup)%map_choose _].
  exists k, k'. eauto.
Qed.

(** What remains of [reaches] when keys are removed: the keys may no longer part
    at the end of the extension. *)
Definition spans (d : nat) m (ext : Extension) (e : nat) : Prop :=
  (S d ≤ e < levels w)%nat ∧
  (∀ k, is_Some (m !! k) → ext = path_ext w (H k) (S d) e) ∧
  (∀ k k' x, is_Some (m !! k) → is_Some (m !! k') → (S d ≤ x < e)%nat → slot x k = slot x k') ∧
  ((d < min_data_depth conf)%nat → e = S d).

Lemma reaches_delete d m ext e k : reaches d m ext e → spans d (delete k m) ext e.
Proof.
  assert (∀ a, is_Some (delete k m !! a) → is_Some (m !! a)) as Hsub by (intros a [v [_ ?]%lookup_delete_Some]; eauto).
  intros (He & Hx & Hs & Hlo & _). split_and!; [lia..| |auto|done]. auto.
Qed.

(** Joining the extensions of a node with one link and of the link to it. *)
Lemma join_ok d e e' m ext ext2 bf i : m ≠ ∅ → (min_data_depth conf ≤ d)%nat → spans d m ext e → reaches e m ext2 e' →
  last_one_idx bf = Some i → 0 ≤ i < 256 → (∀ k, is_Some (m !! k) → slot e k = i) →
  ∃ ext', unsplit_ext conf bf ext ext2 = Ok ext' ∧ reaches d m ext' e'.
Proof.
  intros (k0 & v0 & Hk0)%map_choose Hmd (He & Hx & Hs & _) (He' & Hx' & Hs' & _ & Hhi') Hlast Hi Hall.
  assert (∀ k, is_Some (m !! k) → unsplit_ext conf bf ext ext2 = Ok (path_ext w (H k) (S d) e')) as Hu.
  { intros k Hk. unfold unsplit_ext. rewrite Hlast, (Hx k), (Hx' k), wrap8_id by done. rewrite <-(Hall k) by done.
    apply unsplit_path; done || lia. }
  exists (path_ext w (H k0) (S d) e'). split; [by apply Hu; eauto|]. split_and!; [lia..| | |lia|].
  - intros k Hk. pose proof (Hu k Hk) as E. rewrite (Hu k0) in E by eauto. congruence.
  - intros k k' x Hk Hk' Hxx. destruct (Nat.lt_trichotomy x e) as [|[->|]].
    + apply Hs; [done..|lia].
    + by rewrite !Hall.
    + apply Hs'; [done..|lia].
  - intros _. apply Hhi'. lia.
Qed.

(** A node that lost a pair becomes the pointer of its map's canonical form. *)
Lemma knode_clean_ok s d e ext node m : spans d m ext e → nrep s e node m →
  ((min_data_depth conf ≤ d)%nat → (max_array_width conf ≤ size m)%nat) →
  ∃ x, node_clean conf d node ext = Ok x ∧ slot_rep (nrep s) s d x m.
Proof.
  intros Hsp Hn Hlarge. pose proof Hsp as (He & Hx & Hs & Hlo). pose proof Hn as Hn0.
  apply nrep_unfold in Hn as (g & Hv & Hg); [|lia].
  destruct (knode_sizes s e node g m ltac:(lia) Hv Hg) as (Hle & Hemp & Hnv & Hcat).
  assert (length (pointers node) ≠ 0%nat → m ≠ ∅) as Hne by (intros Hl ->; rewrite map_size_empty in Hle; lia).
  unfold node_clean, pointer_clean. destruct (Nat.eqb_spec (length (pointers node)) 0) as [Hl|Hl].
  { destruct (Nat.ltb_spec d (min_data_depth conf)); [exists None; split; [done|by apply Hemp]|].
    specialize (Hlarge ltac:(lia)). rewrite (Hemp Hl), map_size_empty in Hlarge. lia. }
  specialize (Hne Hl). destruct (Nat.ltb_spec d (min_data_depth conf)) as [Hd|Hd].
  { eexists. split; [done|]. split; [done|]. split; [unfold fits; lia|]. exists e. split; [|done]. split_and!; [lia|lia|done|done|done|intros; lia]. }
  specialize (Hnv ltac:(lia)). destruct (Nat.eqb_spec (length (pointers node)) 1) as [H1|H1].
  - destruct (pointers node) as [|p [|]] eqn:Hpn; try done.
    destruct (only_slot s e node g m p ltac:(lia) Hv Hg Hpn) as (i & Hi & Hgi & Hlast & Hsub & Hall).
    pose proof (Hg i Hi) as Hp. rewrite Hgi, Hsub in Hp. destruct Hp as [_ Hp]. destruct p as [vals|c ext2 o|n' ext2].
    + eexists. split; [done|]. split; [done|]. destruct Hp as [[_ Hsz] Hb]. by split.
    + destruct Hp as (Hnf & e' & Hr & Hrest).
      destruct (join_ok d e e' m ext ext2 _ i Hne Hd Hsp Hr Hlast Hi Hall) as (ext' & -> & Hr').
      eexists. split; [done|]. split; [done|]. split; [unfold fits in *; lia|]. by exists e'.
    + destruct Hp as (Hnf & e' & Hr & Hrest).
      destruct (join_ok d e e' m ext ext2 _ i Hne Hd Hsp Hr Hlast Hi Hall) as (ext' & -> & Hr').
      eexists. split; [done|]. split; [done|]. split; [unfold fits in *; lia|]. by exists e'.
  - assert ((max_array_width conf < size m)%nat → slot_rep (nrep s) s d (Some (Dirty node ext)) m) as Hdirty.
    { intros Hbig. split; [done|]. split; [unfold fits; lia|]. exists e. split; [|done].
      destruct (two_slots s e node g m) as (a & b & Hab); [lia|done|done|lia|]. split_and!; [lia..|done|done|lia|eauto]. }
    destruct (Nat.leb_spec (length (pointers node)) (max_array_width conf)).
    2:{ eexists. split; [done|]. apply Hdirty. lia. }
    destruct (all_values (pointers node)) as [children|] eqn:Hav.
    2:{ apply kall_values_none in Hav as (p & Hp & Hn). eexists. split; [done|]. apply Hdirty. eauto. }
    specialize (Hcat children eq_refl).
    assert (sum_list (length <$> children) = size m) as -> by (by rewrite length_concat_sum, Hcat, length_map_to_list).
    destruct (Nat.ltb_spec (max_array_width conf) (size m)); (eexists; split; [done|]); [by apply Hdirty|].
    split; [done|]. split; [unfold fits; lia|]. by apply bucket_sort.
Qed.

(** The child a pair was deleted from. *)
Lemma kcleaned_ok s d e ext n g m k v p node : (d < levels w)%nat →
  has_view n g → (∀ i, 0 ≤ i < 256 → slot_rep (nrep s) s d (g i) (subm d i m)) →
  0 ≤ slot d k < 256 → g (slot d k) = Some p →
  subm d (slot d k) m !! k = Some v → ¬ fits conf d (subm d (slot d k) m) → reaches d (subm d (slot d k) m) ext e →
  nrep s e node (delete k (subm d (slot d k) m)) →
  ∃ n', cleaned conf d (index_for_bit_pos (slot d k) (bitfield n)) (slot d k) v node ext n
      = (Ok (Some v), n') ∧ nrep s d n' (delete k m).
Proof.
  intros Hd Hv Hg Hi Hgi Hk Hnf Hr Hn.
  destruct (knode_clean_ok s d e ext node _ (reaches_delete d _ ext e k Hr) Hn) as (x & E & Hx).
  { intros Hmd. rewrite map_size_delete_Some by eauto. unfold fits in Hnf. lia. }
  unfold cleaned. rewrite E. rewrite <-sub_delete in Hx. destruct x as [p'|]; (eexists; split; [reflexivity|]).
  - eapply krep_update; [done|exact Hg|by eapply kview_set|exact Hx|]. intros. by apply sub_same_delete.
  - eapply krep_update; [done|exact Hg|by eapply kview_remove|exact Hx|]. intros. by apply sub_same_delete.
Qed.

(** Deleting from the bucket of a key. *)
Lemma bucket_delete_ok s d n g m k kvs : (d < levels w)%nat → nrep s d n m → has_view n g →
  (∀ i, 0 ≤ i < 256 → slot_rep (nrep s) s d (g i) (subm d i m)) → 0 ≤ slot d k < 256 →
  g (slot d k) = Some (Values kvs) → subm d (slot d k) m ≠ ∅ → fits conf d (subm d (slot d k) m) →
  bucket kvs (subm d (slot d k) m) →
  let cindex := index_for_bit_pos (slot d k) (bitfield n) in
  ∃ n', match position (λ p, key_eqb k p.1) kvs with
        | None => (Ok None, n)
        | Some i =>
            match kvs !! i with
            | None => (Err out_of_bounds, n)
            | Some old =>
                (Ok (Some old.2),
                 if (length kvs =? 1)%nat then rm_child cindex (slot d k) n
                 else set_child cindex (Values (vec_remove i kvs)) n)
            end
        end = (Ok (subm d (slot d k) m !! k), n') ∧ nrep s d n' (delete k m).
Proof.
  intros Hd Hn Hv Hg Hi Hgi Hne [Hmd Hsz] Hb cindex. set (mi := subm d (slot d k) m) in *.
  rewrite (position_ext _ (λ p, key_eqb p.1 k)) by (intros; apply bool_decide_ext; split; congruence).
  pose proof (bucket_position _ _ k Hb) as Hp. destruct (position _ kvs) as [j|].
  2:{ exists n. rewrite Hp, delete_id; [done|]. by rewrite <-(sub_at conf H d). }
  destruct Hp as (l1 & v & l2 & -> & <- & Hk). rewrite list_lookup_middle, Hk by done.
  eexists. split; [reflexivity|]. pose proof (bucket_length _ _ Hb) as Hlen. apply bucket_remove in Hb.
  assert (size (delete k mi) = pred (size mi)) as Hsd by (by rewrite map_size_delete_Some by eauto).
  unfold mi in Hb, Hsd. rewrite <-sub_delete in Hb, Hsd. fold mi in Hsd.
  destruct (Nat.eqb_spec (length (l1 ++ (k, v) :: l2)) 1);
    (eapply krep_update; [done|exact Hg| | |intros; by apply sub_same_delete]).
  - by eapply kview_remove.
  - simpl. apply map_size_empty_iff. lia.
  - by eapply kview_set.
  - assert (size mi ≠ 0%nat) by (by rewrite map_size_empty_iff).
    split; [rewrite <-map_size_empty_iff; lia|]. split; [unfold fits; lia|done].
Qed.

Lemma krm_value_ok s d : (d < levels w)%nat → ∀ fuel n m k, (levels w - d ≤ fuel)%nat → nrep s d n m →
  ∃ n', rm_value conf fuel s (hb_at w (H k) d) d k n = (Ok (m !! k), n') ∧ nrep s d n' (delete k m).
Proof.
  revert d. apply (levels_ind conf (λ d, ∀ fuel n m k, (levels w - d ≤ fuel)%nat → nrep s d n m →
    ∃ n', rm_value conf fuel s (hb_at w (H k) d) d k n = (Ok (m !! k), n') ∧ nrep s d n' (delete k m))).
  intros d Hd IH [|fuel] n m k Hfuel Hn; [lia|]. pose proof Hn as Hn0. apply nrep_unfold in Hn as (g & Hv & Hg); [|done].
  pose proof (slot_range conf H Hw d k Hd) as [_ Hi]. cbn [rm_value].
  assert (m !! k = None → nrep s d n (delete k m)) as Hnone by (intros; by rewrite delete_id).
  rewrite <-(sub_at conf H d m k) in *. enter_slot k Hv Hg Hi Hgi Hs p.
  2:{ exists n. rewrite Hs, lookup_empty in *. auto. }
  destruct Hs as [Hne Hs]. set (mi := subm d (slot d k) m) in *. destruct p as [kvs|c ext cache|node ext].
  - destruct Hs as [Hfit Hb]. by apply (bucket_delete_ok s d n g m k kvs).
  - destruct Hs as (Hnf & e & Hr & Hst & Hc). destruct (match_reaches d mi ext e k Hne Hr) as (y & Hy & _ & Hm).
    destruct (decide (y = e)) as [->|Hye].
    2:{ destruct Hm as (_ & Hdiff & ->). exists n. destruct (mi !! k) eqn:Hk; [by destruct (follows_key mi k y _ Hk)|]. auto. }
    rewrite Hm, Nat2Z.id. pose proof Hr as [He _]. replace (S d + (e - S d))%nat with e by lia.
    destruct (kchild_load s d d e c ext cache mi ltac:(unfold load_depth; lia) Hne Hr Hst Hc) as (node & -> & Hnode).
    destruct (IH e ltac:(lia) fuel node mi k ltac:(lia) Hnode) as (node' & -> & Hnode').
    destruct (mi !! k) as [v|] eqn:Hk; [by eapply kcleaned_ok|].
    eexists. split; [reflexivity|]. rewrite delete_id in Hnode' by done. rewrite delete_id by (by rewrite <-(sub_at conf H d)).
    eapply krep_update; [done|exact Hg|by eapply kview_set| |done]. split; [done|]. split; [done|].
    exists e. split_and!; [done..|]. by intros ? [= <-].
  - destruct Hs as (Hnf & e & Hr & Hnode). destruct (match_reaches d mi ext e k Hne Hr) as (y & Hy & _ & Hm).
    destruct (decide (y = e)) as [->|Hye].
    2:{ destruct Hm as (_ & Hdiff & ->). exists n. destruct (mi !! k) eqn:Hk; [by destruct (follows_key mi k y _ Hk)|]. auto. }
    rewrite Hm, Nat2Z.id. pose proof Hr as [He _]. replace (S d + (e - S d))%nat with e by lia.
    destruct (IH e ltac:(lia) fuel node mi k ltac:(lia) Hnode) as (node' & -> & Hnode').
    destruct (mi !! k) as [v|] eqn:Hk; [by eapply kcleaned_ok|].
    eexists. split; [reflexivity|]. rewrite delete_id in Hnode' by done. rewrite delete_id by (by rewrite <-(sub_at conf H d)).
    eapply krep_update; [done|exact Hg|by eapply kview_set| |done]. split; [done|]. split; [done|]. by exists e.
Qed.

(** ** Flush *)

Lemma kput_node_le s n r s' : store_ok s → put_node s n = (r, s') → store_ok s' ∧ store_le s s'.
Proof.
  intros Hs. unfold put_node. destruct (node_serialize n) as [b|e]; [|by intros [= _ <-]].
  destruct (put_cbor s b BLAKE2B_256) as [r' s1] eqn:Hp. intros [= _ <-]. by apply put_cbor_ok in Hp.
Qed.

(** Whatever the node, a flush only adds blocks. *)
Lemma kflush_pointers_le flush_node (ps : list (Pointer V)) :
  Forall (λ p, ∀ n ext, p = Dirty n ext → ∀ s r n' s', store_ok s → flush_node s n = (r, n', s') →
    store_ok s' ∧ store_le s s') ps →
  ∀ s r ps' s', store_ok s → flush_pointers flush_node s ps = (r, ps', s') → store_ok s' ∧ store_le s s'.
Proof.
  induction 1 as [|p ps Hp _ IH]; intros s r ps' s' Hs; simpl; [by intros [= _ _ <-]|].
  destruct p as [kvs|c ext cache|n ext].
  1,2: destruct (flush_pointers _ s ps) as [[r1 ps1] s1] eqn:E; intros [= _ _ <-]; by eapply IH.
  destruct (flush_node s n) as [[[[]|e] n1] s1] eqn:E1; destruct (Hp n ext eq_refl _ _ _ _ Hs E1) as [Hs1 Hle1].
  2:{ by intros [= _ _ <-]. }
  destruct (put_node s1 n1) as [[c|e] s2] eqn:E2; destruct (kput_node_le _ _ _ _ Hs1 E2) as [Hs2 Hle2].
  2:{ intros [= _ _ <-]. split; [done|by etrans]. }
  destruct (flush_pointers _ s2 ps) as [[r3 ps3] s3] eqn:E3. intros [= _ _ <-].
  destruct (IH _ _ _ _ Hs2 E3). split; [done|]. etrans; [done|by etrans].
Qed.

Lemma knode_flush_le n s r n' s' : store_ok s → node_flush s n = (r, n', s') → store_ok s' ∧ store_le s s'.
Proof.
  revert n s r n' s'. fix IH 1. intros [bf ps] s r n' s' Hs. cbn [node_flush].
  destruct (flush_pointers node_flush s ps) as [[r1 ps1] s1] eqn:E. intros [= _ _ <-].
  eapply kflush_pointers_le; [|exact Hs|exact E]. clear -IH.
  induction ps as [|p ps IHps]; constructor; [|exact IHps].
  destruct p as [kvs|c ext cache|n ext]; intros n0 ext0 Hn; [discriminate|discriminate|]. injection Hn as <- <-. intros. by eapply IH.
Qed.

Lemma krep_drop_caches s d n m : (d < levels w)%nat → nrep s d n m → nrep s d (drop_caches n) m.
Proof.
  intros Hd Hn. apply nrep_unfold in Hn as (g & (Hw' & Hb & Hp) & Hg); [|done]. apply nrep_unfold; [done|].
  exists (λ i, no_cache <$> g i). split.
  - split_and!; [done| |].
    + intros i Hi. cbn [drop_caches bitfield]. rewrite Hb by done. apply bool_decide_ext. by rewrite fmap_is_Some.
    + cbn [drop_caches pointers]. rewrite Hp. apply list_fmap_omap.
  - intros i Hi. specialize (Hg i Hi). clear Hb Hp.
    destruct (g i) as [[kvs|c ext cache|n' ext]|]; simpl in *; [done| |done..].
    destruct Hg as (? & ? & e & ? & ? & _). split_and!; [done..|]. exists e. by split_and!.
Qed.

Context `{ST : !StoreTotal}.

Lemma kput_node_ok s d n m : (d < levels w)%nat → store_ok s → nrep s d n m → Forall not_dirty (pointers n) →
  ∃ c s', put_node s n = (Ok c, s') ∧ store_ok s' ∧ store_le s s' ∧ stored s' d c m.
Proof.
  intros Hd Hs Hr Hnd. destruct (kserialize_no_dirty n Hnd) as (Hl & b & Hb & Hb').
  destruct (from_to_vec b) as (bz & Hz & _). set (c := block_cid DAG_CBOR BLAKE2B_256 bz).
  destruct (put_keyed_total s c bz) as [s' Hput].
  assert (put_node s n = (Ok c, s')) as E.
  { unfold put_node, put_cbor, bs_put. rewrite Hb, Hz. fold c. by rewrite Hput. }
  destruct (kput_node_le _ _ _ _ Hs E) as [Hs' Hle]. exists c, s'. split_and!; try done.
  exists (drop_caches n), b, bz. split_and!; try done.
  - eapply nrep_mono; [done|done|]. by apply krep_drop_caches.
  - by apply (put_keyed_get s c bz s' Hs eq_refl Hput).
Qed.

(** [node_flush] at one level, as the levels above use it. *)
Definition flushes_at (d : nat) : Prop := ∀ s n m, store_ok s → nrep s d n m →
  ∃ n' s', node_flush s n = (Ok tt, n', s') ∧ store_ok s' ∧ store_le s s' ∧ nrep s' d n' m ∧
    Forall not_dirty (pointers n').

Lemma kflush_slot d s m p ps : (∀ e, (d < e < levels w)%nat → flushes_at e) → store_ok s → m ≠ ∅ →
  pointer_rep conf H (nrep s) s d p m →
  ∃ p' s', flush_pointers node_flush s (p :: ps) =
      (let '(r, ps', s'') := flush_pointers node_flush s' ps in (r, p' :: ps', s'')) ∧
    store_ok s' ∧ store_le s s' ∧ not_dirty p' ∧ pointer_rep conf H (nrep s') s' d p' m.
Proof.
  intros Hfl Hs Hne Hp. destruct p as [kvs|c ext cache|node ext]; [by exists (Values kvs), s|by exists (Link c ext cache), s|].
  destruct Hp as (Hnf & e & Hr & Hnode). pose proof Hr as [He _].
  destruct (Hfl e ltac:(lia) s node m Hs Hnode) as (node' & s1 & E1 & Hs1 & Hle1 & Hr1 & Hnd).
  destruct (kput_node_ok s1 e node' m ltac:(lia) Hs1 Hr1 Hnd) as (c & s2 & E2 & Hs2 & Hle2 & Hst).
  exists (Link c ext (Some node')), s2. split_and!; [|done|by etrans|done|].
  - simpl. rewrite E1, E2. done.
  - split; [done|]. exists e. split_and!; [done..|]. intros ? [= <-]. eapply nrep_mono; [done|lia|done].
Qed.

Lemma kflush_slots d s g m l : (∀ e, (d < e < levels w)%nat → flushes_at e) → store_ok s → NoDup l →
  (∀ i, i ∈ l → slot_rep (nrep s) s d (g i) (subm d i m)) →
  ∃ g' s', flush_pointers node_flush s (omap g l) = (Ok tt, omap g' l, s') ∧ store_ok s' ∧ store_le s s' ∧
    ∀ i, i ∈ l → slot_rep (nrep s') s' d (g' i) (subm d i m) ∧
      bool_decide (is_Some (g' i)) = bool_decide (is_Some (g i)) ∧ ∀ p, g' i = Some p → not_dirty p.
Proof.
  intros Hfl. assert (∀ s s' x m, store_le s s' → slot_rep (nrep s) s d x m → slot_rep (nrep s') s' d x m) as Hmono.
  { intros s0 s0' x m0 Hle. apply kslot_rep_impl; [done|]. intros. eapply nrep_mono; [done|lia|done]. }
  revert s. induction l as [|i l IH]; intros s Hs Hnd Hg.
  { exists g, s. split_and!; [done..|]. by intros i Hi%elem_of_nil. }
  apply NoDup_cons in Hnd as [Hni Hnd]. pose proof (Hg i ltac:(in_cons)) as Hi.
  assert (∃ x s1, flush_pointers node_flush s (omap g (i :: l)) =
      (let '(r, ps', s') := flush_pointers node_flush s1 (omap g l) in (r, option_list x ++ ps', s')) ∧
    store_ok s1 ∧ store_le s s1 ∧ slot_rep (nrep s1) s1 d x (subm d i m) ∧
    bool_decide (is_Some x) = bool_decide (is_Some (g i)) ∧ ∀ p, x = Some p → not_dirty p)
    as (x & s1 & E1 & Hs1 & Hle1 & Hx & Hb & Hndx).
  { cbn [omap list_omap]. destruct (g i) as [p|]; simpl in Hi.
    - destruct Hi as [Hne Hp]. destruct (kflush_slot d s _ p (omap g l) Hfl Hs Hne Hp) as (p' & s1 & E & ? & ? & ? & ?).
      exists (Some p'), s1. split_and!; try done. by intros ? [= <-].
    - exists None, s. split_and!; try done. by destruct (flush_pointers _ s _) as [[??]?]. }
  destruct (IH s1 Hs1 Hnd) as (g' & s2 & E2 & Hs2 & Hle2 & Hl).
  { intros j Hj. eapply Hmono; [exact Hle1|]. apply Hg. in_cons. }
  exists (upd i x g'), s2. split_and!; [|done|by etrans|].
  - rewrite E1, E2, <-(omap_out i x g' l) by done. do 2 f_equal. cbn [omap list_omap].
    assert (upd i x g' i = x) as -> by (unfold upd; by rewrite decide_True). by destruct x.
  - intros j Hj. unfold upd. case_decide as Hji.
    + subst j. split_and!; [|done..]. by eapply Hmono.
    + apply Hl. apply elem_of_cons in Hj. naive_solver.
Qed.

Lemma knode_flush_ok d : (d < levels w)%nat → flushes_at d.
Proof.
  revert d. apply levels_ind. intros d Hd IH s n m Hs Hn. apply nrep_unfold in Hn as (g & (Hw' & Hb & Hp) & Hg); [|done].
  destruct (kflush_slots d s g m (seqZ 0 256) IH Hs) as (g' & s' & E & Hs' & Hle & Hl).
  { apply NoDup_seqZ. }
  { intros i Hi%elem_of_seqZ. apply Hg. lia. }
  destruct n as [bf ps]. cbn [bitfield pointers] in Hw', Hb, Hp. subst ps.
  assert (∀ i, 0 ≤ i < 256 → i ∈ seqZ 0 256) as Hin by (intros; apply elem_of_seqZ; lia).
  eexists _, s'. split; [cbn [node_flush]; rewrite E; reflexivity|]. split_and!; [done..| |].
  - apply nrep_unfold; [done|]. exists g'. split; [split_and!; [done| |done]|].
    + intros i Hi. cbn [bitfield]. rewrite Hb by done. symmetry. apply Hl. auto.
    + intros i Hi. apply Hl. auto.
  - cbn [pointers]. apply Forall_forall. intros p (i & Hi & Hgi)%list_elem_of_omap.
    destruct (Hl i Hi) as (_ & _ & Hnd). auto.
Qed.
End map.
