(* ===== verification/KamtTop.v ===== *)
(** * The KAMT's contract

    The operations of [Kamt] (ipld/kamt/src/kamt.rs) answer as those of a finite
    map, through extensions, lazily loaded links and any number of flushes; the
    root depends on the content alone; a flushed KAMT loads back. [set_root],
    which keeps the CID of the last flush, is outside this contract, and
    the last theorem says what it does. *)

From S2P Require Import Prelude Effects Address Types HamtBits HamtCommon KamtExt KamtPaths Kamt KamtRep KamtMap.
From stdpp Require Import gmap strings list fin_maps.
From Stdlib Require Import ZArith Lia.
#[local] Open Scope Z_scope.

(** The reference: [delete] returns the value alone, otherwise the map of
    the HAMT's contract. *)
Definition kmap_op {V} (op : HamtOp V) (m : gmap bytes V) : HamtAnswer V * gmap bytes V :=
  match op with
  | HDelete k => (AValue (m !! k), delete k m)
  | _ => map_op op m
  end.
Fixpoint kmap_ops {V} (ops : list (HamtOp V)) (m : gmap bytes V) : list (HamtAnswer V) * gmap bytes V :=
  match ops with
  | [] => ([], m)
  | op :: ops =>
      let '(a, m) := kmap_op op m in
      let '(l, m) := kmap_ops ops m in (a :: l, m)
  end.

Lemma kmap_op_dom {V} (op : HamtOp V) (m : gmap bytes V) : dom (kmap_op op m).2 ⊆ dom m ∪ set_keys [op].
Proof. destruct op; try apply map_op_dom. simpl. rewrite dom_delete. set_solver. Qed.

Section top.
Context `{BSS : BlockstoreSpec} {V : Type} `{EqDecision V} `{CB : !Cbor (NodeBlock V)} `{CS : !CborSpec (NodeBlock V)}.
Context (conf : Config) (H : bytes → bytes) `{HP : !HamtParams conf H}.
Implicit Types (h : @Kamt V) (m : gmap bytes V) (s : Store).

Definition answer_as {A} (f : A → HamtAnswer V) (r : result HamtError A) : result HamtError (HamtAnswer V) :=
  match r with Ok a => Ok (f a) | Err e => Err e end.

(** One operation, and a sequence of them that stops at the first error. *)
Definition kamt_run_op (op : HamtOp V) h s : result HamtError (HamtAnswer V) * Kamt * Store :=
  match op with
  | HGet k => let '(r, h) := get conf H s k h in (answer_as AValue r, h, s)
  | HContains k => let '(r, h) := contains_key conf H s k h in (answer_as ABool r, h, s)
  | HSet k v => let '(r, h) := set conf H s k v h in (answer_as AValue r, h, s)
  | HSetIfAbsent k v => let '(r, h) := set_if_absent conf H s k v h in (answer_as ABool r, h, s)
  | HDelete k => let '(r, h) := delete_key conf H s k h in (answer_as AValue r, h, s)
  | HFlush => let '(r, h, s) := flush s h in (answer_as (λ _, ADone) r, h, s)
  | HClear => (Ok ADone, clear h, s)
  | HIsEmpty => (Ok (ABool (is_empty h)), h, s)
  end.
Fixpoint kamt_run_ops (ops : list (HamtOp V)) h s : result HamtError (list (HamtAnswer V)) * Kamt * Store :=
  match ops with
  | [] => (Ok [], h, s)
  | op :: ops =>
      match kamt_run_op op h s with
      | (Err e, h, s) => (Err e, h, s)
      | (Ok a, h, s) =>
          let '(r, h, s) := kamt_run_ops ops h s in
          (match r with Ok l => Ok (a :: l) | Err e => Err e end, h, s)
      end
  end.

(** ** Representation *)

Abbreviation L := (levels (bit_width conf)).
Definition kstored s (c : Cid) m : Prop := stored conf H s 0 c m.
Definition krep s h m : Prop := nrep conf H s 0 (root h) m ∧ ∀ c, flushed_cid h = Some c → kstored s c m.

Lemma top_level : (0 < L)%nat.
Proof. pose proof (levels_bounds (bit_width conf) params_width). lia. Qed.

Lemma kfuel_enough k : (L - 0 ≤ fuel_for H k)%nat.
Proof.
  unfold fuel_for. destruct (params_hash (H := H) k) as [-> _].
  pose proof (levels_bounds (bit_width conf) params_width). lia.
Qed.

Lemma hb_new_at k : hb_new (H k) = hb_at (bit_width conf) (H k) 0.
Proof. unfold hb_new, hb_at. by rewrite consumed_at_0. Qed.

Lemma knode_set_rep s n m k v ow : nrep conf H s 0 n m → keys_apart H (dom (<[k := v]> m)) →
  ∃ n', node_set conf H s k v ow n = (Ok (set_result ow (m !! k) v), n') ∧ nrep conf H s 0 n' (put_kv ow k v m).
Proof.
  intros Hr Hk. unfold node_set. rewrite hb_new_at.
  apply (kmodify_value_ok conf H params_hash params_width params_array params_depth s 0 top_level);
    [apply kfuel_enough|done|by apply coherent_top].
Qed.

Lemma kset_rep s h n' m k v ow (old : option V) b : krep s h m →
  set_result ow (m !! k) v = (old, b) → nrep conf H s 0 n' (put_kv ow k v m) →
  krep s (mkKamt n' (if b then None else flushed_cid h)) (put_kv ow k v m).
Proof.
  intros [_ Hc] E Hr. split; [done|]. simpl. intros c Hfc. destruct b; [done|].
  rewrite (put_kv_unmodified _ _ _ _ _ E). auto.
Qed.

Lemma kset_ok s h m k v : krep s h m → keys_apart H (dom (<[k := v]> m)) →
  ∃ h', set conf H s k v h = (Ok (m !! k), h') ∧ krep s h' (<[k := v]> m).
Proof.
  intros Hh Hk. destruct (knode_set_rep s _ m k v true (proj1 Hh) Hk) as (n' & E & Hr). unfold set. rewrite E.
  destruct (set_result true (m !! k) v) as [old b] eqn:Eres. eexists. split.
  - do 2 f_equal. unfold set_result in Eres. destruct (m !! k); by injection Eres as <-.
  - replace (<[k := v]> m) with (put_kv true k v m); [by eapply kset_rep|].
    unfold put_kv. by destruct (m !! k).
Qed.

Lemma kset_if_absent_ok s h m k v : krep s h m → keys_apart H (dom (<[k := v]> m)) →
  ∃ h', set_if_absent conf H s k v h = (Ok (bool_decide (m !! k = None)), h') ∧
    krep s h' (if decide (m !! k = None) then <[k := v]> m else m).
Proof.
  intros Hh Hk. destruct (knode_set_rep s _ m k v false (proj1 Hh) Hk) as (n' & E & Hr). unfold set_if_absent. rewrite E.
  destruct (set_result false (m !! k) v) as [old b] eqn:Eres. eexists. split.
  - do 2 f_equal. unfold set_result in Eres. destruct (m !! k); by injection Eres as <- <-.
  - replace (if decide _ then _ else _) with (put_kv false k v m); [by eapply kset_rep|].
    unfold put_kv. by destruct (m !! k).
Qed.

Lemma knode_get_ok s h m k : krep s h m →
  ∃ n', node_get conf H s k (root h) = (Ok (m !! k), n') ∧ krep s (mkKamt n' (flushed_cid h)) m.
Proof.
  intros [Hr Hc]. unfold node_get. rewrite hb_new_at.
  destruct (kget_value_ok conf H params_hash params_width params_array params_depth s 0 top_level 0 (fuel_for H k) (root h) m k)
    as (n' & E & Hr'); [unfold load_depth; lia|apply kfuel_enough|done|]. exists n'. by split; [|split].
Qed.
Lemma kget_ok s h m k : krep s h m → ∃ h', get conf H s k h = (Ok (m !! k), h') ∧ krep s h' m.
Proof. intros Hh. unfold get. destruct (knode_get_ok s h m k Hh) as (n' & -> & Hh'). eauto. Qed.
Lemma kcontains_key_ok s h m k : krep s h m →
  ∃ h', contains_key conf H s k h = (Ok (bool_decide (is_Some (m !! k))), h') ∧ krep s h' m.
Proof. intros Hh. unfold contains_key. destruct (knode_get_ok s h m k Hh) as (n' & -> & Hh'). eauto. Qed.

Lemma kdelete_ok s h m k : krep s h m → ∃ h', delete_key conf H s k h = (Ok (m !! k), h') ∧ krep s h' (delete k m).
Proof.
  intros [Hr Hc]. unfold delete_key, remove_entry. rewrite hb_new_at.
  destruct (krm_value_ok conf H params_hash params_width params_array params_depth s 0 top_level (fuel_for H k) _ m k
    (kfuel_enough k) Hr) as (n' & -> & Hr').
  destruct (m !! k) as [v|] eqn:Hk; simpl; (eexists; split; [done|]); (split; [done|]); [done|].
  by rewrite delete_id in * by done.
Qed.

Lemma knew_ok s : krep s new_with_config ∅.
Proof. split; [|done]. apply krep_default, top_level. Qed.

Lemma kempty_iff s h m : krep s h m → is_empty h = bool_decide (m = ∅).
Proof.
  intros [Hr _]. unfold is_empty. apply nrep_unfold in Hr as (g & Hv & Hg); [|apply top_level].
  destruct (knode_sizes conf H params_width params_array params_depth s 0 _ g m top_level Hv Hg) as (Hle & He & _).
  case_bool_decide as Hm; [|apply Nat.eqb_neq; auto]. subst. rewrite map_size_empty in Hle. apply Nat.eqb_eq. lia.
Qed.

Lemma kclear_ok s h m : krep s h m → krep s (clear h) ∅.
Proof.
  intros Hh. unfold clear. rewrite (kempty_iff s h m Hh). case_bool_decide; [by subst|apply knew_ok].
Qed.

Lemma kflush_le s h r h' s' : store_ok s → flush s h = (r, h', s') → store_ok s' ∧ store_le s s'.
Proof.
  intros Hs. unfold flush. destruct (flushed_cid h); [by intros [= _ _ <-]|].
  destruct (node_flush s _) as [[[[]|e] n1] s1] eqn:E; destruct (knode_flush_le _ _ _ _ _ Hs E) as [Hs1 Hle1];
    [|by intros [= _ _ <-]].
  destruct (put_node s1 n1) as [[c|e] s2] eqn:E2; destruct (kput_node_le _ _ _ _ Hs1 E2) as [Hs2 Hle2];
    intros [= _ _ <-]; (split; [done|by etrans]).
Qed.

Context `{ST : !StoreTotal}.

Lemma kflush_ok s h m : store_ok s → krep s h m →
  ∃ c h' s', flush s h = (Ok c, h', s') ∧ store_ok s' ∧ store_le s s' ∧ krep s' h' m ∧ kstored s' c m.
Proof.
  intros Hs Hh. pose proof Hh as [Hr Hc]. unfold flush. destruct (flushed_cid h) as [c|] eqn:Ec.
  { exists c, h, s. split_and!; [done..|by apply Hc]. }
  destruct (knode_flush_ok conf H params_width params_array params_depth 0 top_level s _ m Hs Hr) as (n' & s1 & -> & Hs1 & Hle1 & Hr1 & Hnd).
  destruct (kput_node_ok conf H s1 0 n' m top_level Hs1 Hr1 Hnd) as (c & s2 & -> & Hs2 & Hle2 & Hst).
  exists c, (mkKamt n' (Some c)), s2. split_and!; [done..|by etrans| |done].
  split; [eapply nrep_mono; [done|apply top_level|done]|]. by intros ? [= <-].
Qed.

Lemma kamt_run_op_ok s h m op : store_ok s → krep s h m → keys_apart H (dom m ∪ set_keys [op]) →
  ∃ h' s', kamt_run_op op h s = (Ok (kmap_op op m).1, h', s') ∧ store_ok s' ∧ store_le s s' ∧ krep s' h' (kmap_op op m).2.
Proof.
  intros Hs Hh Hk.
  assert (∀ k v, k ∈ set_keys [op] → keys_apart H (dom (<[k := v]> m))) as Hset.
  { intros k v Hin. eapply keys_apart_sub; [|exact Hk]. rewrite dom_insert. clear -Hin. set_solver. }
  unfold set_keys in Hset. destruct op as [k|k|k v|k v|k| | |]; cbn [kamt_run_op kmap_op map_op]; cbn in Hset.
  - destruct (kget_ok s h m k Hh) as (h' & -> & ?). by exists h', s.
  - destruct (kcontains_key_ok s h m k Hh) as (h' & -> & ?). by exists h', s.
  - destruct (kset_ok s h m k v Hh) as (h' & -> & ?); [apply Hset; set_solver|]. by exists h', s.
  - destruct (kset_if_absent_ok s h m k v Hh) as (h' & -> & Hh'); [apply Hset; set_solver|].
    exists h', s. by destruct (m !! k).
  - destruct (kdelete_ok s h m k Hh) as (h' & -> & ?). by exists h', s.
  - destruct (kflush_ok s h m Hs Hh) as (c & h' & s' & -> & ? & ? & ? & _). by exists h', s'.
  - exists (clear h), s. split_and!; [done..|]. by eapply kclear_ok.
  - exists h, s. rewrite (kempty_iff s h m Hh). split_and!; [|done..]. simpl. do 4 f_equal. by apply bool_decide_ext.
Qed.

Lemma kamt_run_ops_ok ops s h m : store_ok s → krep s h m → keys_apart H (dom m ∪ set_keys ops) →
  ∃ h' s', kamt_run_ops ops h s = (Ok (kmap_ops ops m).1, h', s') ∧ store_ok s' ∧ store_le s s' ∧
    krep s' h' (kmap_ops ops m).2.
Proof.
  revert s h m. induction ops as [|op ops IH]; intros s h m Hs Hh Hk; [by exists h, s|].
  assert (set_keys (op :: ops) = set_keys [op] ∪ set_keys ops) as E.
  { unfold set_keys. destruct op; simpl; set_solver. }
  destruct (kamt_run_op_ok s h m op Hs Hh) as (h1 & s1 & E1 & Hs1 & Hle1 & Hh1).
  { eapply keys_apart_sub; [|exact Hk]. rewrite E. set_solver. }
  destruct (IH s1 h1 (kmap_op op m).2 Hs1 Hh1) as (h2 & s2 & E2 & Hs2 & Hle2 & Hh2).
  { eapply keys_apart_sub; [|exact Hk]. pose proof (kmap_op_dom op m). rewrite E. set_solver. }
  exists h2, s2. cbn [kamt_run_ops kmap_ops]. rewrite E1. destruct (kmap_op op m) as [a m1].
  simpl in E2, Hh2. rewrite E2. destruct (kmap_ops ops m1). split_and!; [done..|by etrans|done].
Qed.

Lemma kload_top s c m : kstored s c m → ∃ n, node_load conf s c 0 = Ok n ∧ nrep conf H s 0 n m.
Proof.
  intros Hst. apply (kload_ok conf H params_width params_array params_depth s 0 0 c m); [apply top_level| |done|done].
  unfold load_depth. lia.
Qed.

(** ** Claims *)

(** C23: a KAMT is a finite map. Any sequence of lookups, insertions, deletions,
    flushes and clears, on a KAMT whose nodes may be in memory, in the store
    or both and whose links skip levels, gives exactly the answers of the same
    sequence on a finite map, with no error, as long as the keys
    involved have different hashed keys. *)
Theorem kamt_refines_map ops s h m (Hs : store_ok s) (Hh : krep s h m)
    (Hk : keys_apart H (dom m ∪ set_keys ops)) :
  ∃ h' s', kamt_run_ops ops h s = (Ok (kmap_ops ops m).1, h', s') ∧ krep s' h' (kmap_ops ops m).2 ∧ store_le s s'.
Proof. destruct (kamt_run_ops_ok ops s h m Hs Hh Hk) as (h' & s' & E & _ & Hle & Hh'). eauto. Qed.

(** C24: the root CID of a KAMT is determined by its content. Two sequences
    of operations on new KAMTs, in two stores, that end with the same
    content flush to the same root: splitting and joining extensions and
    buckets leaves no trace. Loading that root in a later store
    gives the same content back. *)
Theorem kamt_root_canonical ops1 ops2 ops3 s1 s2 t (Hs1 : store_ok s1) (Hs2 : store_ok s2) (Ht : store_ok t)
    (Hk1 : keys_apart H (set_keys ops1)) (Hk2 : keys_apart H (set_keys ops2))
    (Hm : (kmap_ops ops1 ∅).2 = (kmap_ops ops2 (∅ : gmap bytes V)).2)
    (Hk3 : keys_apart H (dom (kmap_ops ops1 (∅ : gmap bytes V)).2 ∪ set_keys ops3)) :
  ∃ r1 h1 t1 r2 h2 t2 c h1' t1' h2' t2',
    kamt_run_ops ops1 new_with_config s1 = (Ok r1, h1, t1) ∧ kamt_run_ops ops2 new_with_config s2 = (Ok r2, h2, t2) ∧
    flush t1 h1 = (Ok c, h1', t1') ∧ flush t2 h2 = (Ok c, h2', t2') ∧
    (store_le t1' t → ∃ h h3 t3, load_with_config conf t c = Ok h ∧
       kamt_run_ops ops3 h t = (Ok (kmap_ops ops3 (kmap_ops ops1 ∅).2).1, h3, t3)).
Proof.
  destruct (kamt_run_ops_ok ops1 s1 _ ∅ Hs1 (knew_ok s1)) as (h1 & t1 & E1 & Ht1 & _ & Hh1).
  { by rewrite dom_empty_L, (left_id_L ∅ (∪)). }
  destruct (kamt_run_ops_ok ops2 s2 _ ∅ Hs2 (knew_ok s2)) as (h2 & t2 & E2 & Ht2 & _ & Hh2).
  { by rewrite dom_empty_L, (left_id_L ∅ (∪)). }
  destruct (kflush_ok t1 h1 _ Ht1 Hh1) as (c1 & h1' & t1' & F1 & _ & _ & _ & S1).
  destruct (kflush_ok t2 h2 _ Ht2 Hh2) as (c2 & h2' & t2' & F2 & _ & _ & _ & S2).
  assert (c1 = c2) as <- by (rewrite <-Hm in S2; by eapply (kstored_unique conf H _ _ 0); [apply top_level|..]).
  exists (kmap_ops ops1 ∅).1, h1, t1, (kmap_ops ops2 ∅).1, h2, t2, c1, h1', t1', h2', t2'. split_and!; [done..|].
  intros Hle. assert (kstored t c1 (kmap_ops ops1 ∅).2) as S3 by (eapply stored_mono; [exact Hle|apply top_level|exact S1]).
  destruct (kload_top t c1 _ S3) as (n & El & Hn). unfold load_with_config. rewrite El. eexists.
  destruct (kamt_run_ops_ok ops3 t (mkKamt n (Some c1)) (kmap_ops ops1 (∅ : gmap bytes V)).2 Ht)
    as (h3 & t3 & Er & _); [|done|by eauto]. split; [done|]. by intros c [= <-].
Qed.

(** [set_root] keeps the CID of the last flush: the KAMT reads from the
    new root, and the next flush returns the CID of the old one. *)
Lemma set_root_stale s h c0 c m : flushed_cid h = Some c0 → kstored s c m →
  ∃ n, set_root conf s c h = (Ok tt, mkKamt n (Some c0)) ∧ nrep conf H s 0 n m ∧
    (∀ k, (get conf H s k (mkKamt n (Some c0))).1 = Ok (m !! k)) ∧
    flush s (mkKamt n (Some c0)) = (Ok c0, mkKamt n (Some c0), s).
Proof.
  intros Hc Hst. destruct (kload_top s c m Hst) as (n & El & Hn). exists n. unfold set_root. rewrite El, Hc.
  split_and!; [done..| |done]. intros k.
  assert (krep s (mkKamt n None) m) as Hh by (by split). destruct (knode_get_ok s _ m k Hh) as (n' & E & _).
  unfold get. cbn [root] in *. by rewrite E.
Qed.
End top.
