(* ===== verification/KamtIter.v ===== *)
(** * Iterating over a KAMT (ipld/kamt/src/iter.rs, for_each and iter_from of kamt.rs)

    The iterator walks the nodes in the order of their slots. On a canonical KAMT
    it ends and yields every pair once; from a key on it yields the rest of
    the same sequence; and the pairs come in ascending order of their
    keys if the hashed keys are ordered as the keys are. *)

From S2P Require Import Prelude Effects Address Types HamtBits HamtCommon KamtExt KamtPaths Kamt KamtRep KamtMap KamtTop.
From stdpp Require Import gmap strings list fin_maps sorting.
From Stdlib Require Import ZArith Lia.
#[local] Open Scope Z_scope.

Section iter.
Context `{BS : Blockstore} {V : Type} `{CB : !Cbor (NodeBlock V)}.
Context (conf : Config) (H : bytes → bytes).

(** The head of [it_stack] is the last element of the source's vector. *)
Record Iter := mkIter { it_stack : list (list (Pointer V)); it_current : list (bytes * V) }.

Inductive Step :=
  | Yield (kv : bytes * V) (it : Iter)
  | Continue (it : Iter)
  | Fail (e : HamtError) (it : Iter)
  | Finished.

Definition iter_new (root : Node V) : Iter := mkIter [pointers root] [].

(** One turn of the loop of [next]; a bucket is made current in one turn and
    its first pair is taken in the following one. *)
Definition iter_step (s : Store) (it : Iter) : Step :=
  match it_current it with
  | v :: current => Yield v (mkIter (it_stack it) current)
  | [] =>
      match it_stack it with
      | [] => Finished
      | [] :: stack => Continue (mkIter stack [])
      | (next :: ps) :: stack =>
          let stack := ps :: stack in
          match next with
          | Link cid _ cache =>
              match load_cached conf s cid cache (length stack) with
              | Err e => Fail e (mkIter stack [])
              | Ok node => Continue (mkIter (pointers node :: stack) [])
              end
          | Dirty node _ => Continue (mkIter (pointers node :: stack) [])
          | Values kvs => Continue (mkIter stack kvs)
          end
      end
  end.

(** [Iter::new_from]: the path to the key. The slot of an index whose bit is not
    set is the next filled one; where there is none, the loop goes on with the
    same node. Every turn consumes bits of the key. *)
Fixpoint new_from_loop (fuel : nat) (s : Store) (key : bytes) (hash : HashBits) (node : Node V)
    (stack : list (list (Pointer V))) : result HamtError Iter :=
  match hb_next (bit_width conf) hash, fuel with
  | Err e, _ => Err e
  | Ok _, O => Err MaxDepth
  | Ok (idx, hash), S fuel =>
      match drop (index_for_bit_pos idx (bitfield node)) (pointers node) with
      | [] => new_from_loop fuel s key hash node ([] :: stack)
      | p :: ps =>
          let stack := ps :: stack in
          let enter node ext :=
            match match_extension conf hash ext with
            | Err e => Err e
            | Ok (Full _, hash) => new_from_loop fuel s key hash node stack
            | Ok (Partial _ _, _) => Err StartKeyNotFound
            end in
          match p with
          | Link cid ext cache =>
              match load_cached conf s cid cache (length stack) with
              | Err e => Err e
              | Ok node => enter node ext
              end
          | Dirty node ext => enter node ext
          | Values values =>
              match position (λ kv, key_eqb kv.1 key) values with
              | Some offset => Ok (mkIter stack (drop offset values))
              | None => Err StartKeyNotFound
              end
          end
      end
  end.
Definition iter_new_from (s : Store) (root : Node V) (key : bytes) : result HamtError Iter :=
  new_from_loop (S (fuel_for H key)) s key (hb_new (H key)) root [].

(** A loop over all that an iterator yields; the callback has a state of its
    own and may fail. Without fuel there is no answer. *)
Fixpoint drain {A} (f : bytes → V → A → result string unit * A) (fuel : nat) (s : Store) (it : Iter) (a : A)
    : option (result HamtError unit * A) :=
  match fuel with
  | O => None
  | S fuel =>
      match iter_step s it with
      | Yield (k, v) it =>
          match f k v a with
          | (Ok _, a) => drain f fuel s it a
          | (Err e, a) => Some (Err (Dynamic e), a)
          end
      | Fail e _ => Some (Err e, a)
      | Finished => Some (Ok tt, a)
      | Continue it => drain f fuel s it a
      end
  end.
Definition for_each {A} (f : bytes → V → A → result string unit * A) (fuel : nat) (s : Store) (h : @Kamt V) (a : A) :=
  drain f fuel s (iter_new (root h)) a.
Definition iter_from (s : Store) (key : bytes) (h : @Kamt V) : result HamtError Iter := iter_new_from s (root h) key.
End iter.
Arguments Iter V : clear implicits.

(** ** The order of the paths *)

(** The keys of a map are ordered as their hashed forms are. *)
Definition order_preserving {V} (H : bytes → bytes) (m : gmap bytes V) : Prop :=
  ∀ k k', is_Some (m !! k) → is_Some (m !! k') → be_value (H k) < be_value (H k') → key_lt k k' = true.

Lemma be_value_split h c i : hash_ok h → 0 ≤ c → 0 ≤ i → c + i ≤ 256 →
  be_value h = (bit_group h 0 c * 2 ^ i + bit_group h c i) * 2 ^ (256 - c - i) + bit_group h (c + i) (256 - c - i) ∧
  0 ≤ bit_group h (c + i) (256 - c - i) < 2 ^ (256 - c - i).
Proof.
  intros [Hl Hb] Hc Hi Hci. split; [|apply group_range; lia]. pose proof (be_value_bound h Hb) as Hr. rewrite Hl in Hr.
  change (bit_group h) with (bits_of (Z.of_nat (length h) * 8) (be_value h)). rewrite Hl.
  change (Z.of_nat 32 * 8) with 256. change (256 ^ Z.of_nat 32) with (2 ^ 256) in Hr.
  rewrite <-(bits_of_all 256 (be_value h)) at 1 by done.
  replace (bits_of 256 (be_value h) 0 256) with (bits_of 256 (be_value h) 0 (c + i + (256 - c - i))) by (f_equal; lia).
  rewrite !bits_of_app by lia. rewrite !Z.add_0_l. done.
Qed.

Lemma path_order w h h' d : 1 ≤ w ≤ 8 → hash_ok h → hash_ok h' → (d < levels w)%nat →
  (∀ x, (x < d)%nat → idx_at w h x = idx_at w h' x) → idx_at w h d < idx_at w h' d → be_value h < be_value h'.
Proof.
  intros Hw Hh Hh' Hd Hx Hlt. destruct (consumed_before w Hw d Hd) as (Hc & Hi & Hmin).
  pose proof (seg_same w Hw h h' 0 d Hh Hh' ltac:(lia) ltac:(intros; apply Hx; lia)) as Hseg. unfold seg in Hseg.
  rewrite consumed_at_0, Z.sub_0_r in Hseg. unfold idx_at in Hlt.
  set (c := consumed_at w d) in *. set (i := consumed_at w (S d) - c) in *.
  destruct (be_value_split h c i Hh) as [-> ?]; [lia..|]. destruct (be_value_split h' c i Hh') as [-> ?]; [lia..|].
  rewrite Hseg. pose proof (pow2_pos (256 - c - i) ltac:(lia)). nia.
Qed.
