(* ===== verification/KamtWalk.v ===== *)
(** * Iteration over a KAMT visits every pair once, in order *)

From S2P Require Import Prelude Effects Address Types HamtBits HamtCommon KamtExt KamtPaths Kamt KamtRep KamtMap KamtTop KamtIter.
From stdpp Require Import gmap strings list fin_maps sorting.
From Stdlib Require Import ZArith Lia.
#[local] Open Scope Z_scope.

Lemma sorted_app_lt {V} (l1 l2 : list (bytes * V)) : StronglySorted kv_lt l1 → StronglySorted kv_lt l2 →
  (∀ a b, a ∈ l1 → b ∈ l2 → kv_lt a b) → StronglySorted kv_lt (l1 ++ l2).
Proof.
  intros H1 H2 Hlt. induction H1 as [|a l1 H1 IH Hf]; simpl; [done|]. constructor.
  - apply IH. intros x y Hx. apply Hlt. by apply elem_of_cons; right.
  - apply Forall_app. split; [done|]. apply Forall_forall. intros y Hy. apply Hlt; [by apply elem_of_cons; left|done].
Qed.

Section walk.
Context `{BSS : BlockstoreSpec} {V : Type} `{CB : !Cbor (NodeBlock V)} `{CS : !CborSpec (NodeBlock V)}.
Context (conf : Config) (H : bytes → bytes) `{HP : !HamtParams conf H}.
Implicit Types (n : Node V) (m : gmap bytes V) (s : Store) (it : Iter V).

Abbreviation w := (bit_width conf).
Abbreviation step := (iter_step conf).
Abbreviation slot := (slot_of conf H).
Abbreviation subm := (sub conf H).
Abbreviation nrep := (nrep conf H).

(** A run of the iterator and what it yields. *)
Inductive kiter_run s : Iter V → list (bytes * V) → Iter V → Prop :=
  | krun_refl it : kiter_run s it [] it
  | krun_yield it kv it1 l it2 : step s it = Yield kv it1 → kiter_run s it1 l it2 → kiter_run s it (kv :: l) it2
  | krun_continue it it1 l it2 : step s it = Continue it1 → kiter_run s it1 l it2 → kiter_run s it l it2.

Lemma kiter_run_trans s it1 l1 it2 l2 it3 :
  kiter_run s it1 l1 it2 → kiter_run s it2 l2 it3 → kiter_run s it1 (l1 ++ l2) it3.
Proof.
  induction 1 as [|it kv it1 l it2 Hs _ IH|it it1 l it2 Hs _ IH]; intros Hr; simpl; [done| |].
  - eapply krun_yield; eauto.
  - eapply krun_continue; eauto.
Qed.

(** A run is a prefix of the run to the end. *)
Lemma kiter_run_prefix s it l1 it1 l it2 :
  kiter_run s it l1 it1 → step s it2 = Finished → kiter_run s it l it2 → ∃ l2, l = l1 ++ l2 ∧ kiter_run s it1 l2 it2.
Proof.
  intros H1 Hend. revert l. induction H1 as [it|it kv it' l' it1 Hs _ IH|it it' l' it1 Hs _ IH]; intros l Hr.
  - by exists l.
  - inversion Hr; subst; [congruence| |congruence].
    match goal with Hy : step s it = Yield _ _ |- _ => rewrite Hs in Hy; injection Hy as -> -> end.
    destruct (IH _ ltac:(eassumption)) as (l2 & -> & Hl2). by exists l2.
  - inversion Hr; subst; [congruence|congruence|].
    match goal with Hy : step s it = Continue _ |- _ => rewrite Hs in Hy; injection Hy as -> end. by apply IH.
Qed.

Lemma krun_current s stack kvs rest : kiter_run s (mkIter stack (kvs ++ rest)) kvs (mkIter stack rest).
Proof. induction kvs as [|kv kvs IH]; simpl; [apply krun_refl|]. by eapply krun_yield. Qed.

(** The keys of a node at level [d] share their path. *)
Definition agree (d : nat) m : Prop :=
  ∀ k k' x, is_Some (m !! k) → is_Some (m !! k') → (x < d)%nat → slot x k = slot x k'.

Lemma agree_child d i m ext e : agree d m → reaches conf H d (subm d i m) ext e → agree e (subm d i m).
Proof.
  intros Ha (He & _ & Hs & _) k k' x Hk Hk' Hx.
  destruct (Nat.lt_trichotomy x d) as [Hlt|[->|Hgt]].
  - destruct Hk as [v [Hk _]%sub_lookup], Hk' as [v' [Hk' _]%sub_lookup]. apply Ha; eauto.
  - destruct Hk as [v [_ <-]%sub_lookup], Hk' as [v' [_ Hk']%sub_lookup]. done.
  - apply Hs; [done..|lia].
Qed.

(** Entering a child node. *)
Lemma kstep_child s d p ps stack m : load_depth conf d (length stack) → m ≠ ∅ →
  pointer_rep conf H (nrep s) s d p m → (∀ kvs, p ≠ Values kvs) →
  ∃ node ext e, step s (mkIter ((p :: ps) :: stack) []) = Continue (mkIter (pointers node :: ps :: stack) []) ∧
    reaches conf H d m ext e ∧ nrep s e node m ∧ load_depth conf e (S (length stack)) ∧
    ∀ fuel k idx hb hb' n, hb_next w hb = Ok (idx, hb') →
      drop (index_for_bit_pos idx (bitfield n)) (pointers n) = p :: ps →
      new_from_loop conf (S fuel) s k hb n stack =
        match match_extension conf hb' ext with
        | Err e => Err e
        | Ok (Full _, hash) => new_from_loop conf fuel s k hash node (ps :: stack)
        | Ok (Partial _ _, _) => Err StartKeyNotFound
        end.
Proof.
  intros Hst Hne Hp Hnv. destruct p as [kvs|c ext cache|node ext]; [by destruct (Hnv kvs)| |].
  - destruct Hp as (_ & e & Hr & Hsto & Hc).
    destruct (kchild_load conf H params_width params_array params_depth s d (length stack) e c ext cache m Hst Hne Hr Hsto Hc)
      as (node & E & Hn).
    exists node, ext, e. split; [unfold iter_step; cbn [it_current it_stack length]; by rewrite E|].
    split_and!; [done..|by eapply (load_depth_child conf H params_array params_depth)|].
    intros fuel k idx hb hb' n Hnx Hd. cbn [new_from_loop]. rewrite Hnx, Hd. cbn [length]. by rewrite E.
  - destruct Hp as (_ & e & Hr & Hn). exists node, ext, e. split_and!; [done..|by eapply (load_depth_child conf H params_array params_depth)|].
    intros fuel k idx hb hb' n Hnx Hd. cbn [new_from_loop]. by rewrite Hnx, Hd.
Qed.

(** What a walk over a node yields: its pairs, in order. *)
Definition walks s it m it' : Prop := ∃ kvs, kvs ≡ₚ map_to_list m ∧ kiter_run s it kvs it' ∧
  (order_preserving H m → StronglySorted kv_lt kvs).

Lemma order_sub d i m : order_preserving H m → order_preserving H (subm d i m).
Proof. intros Ho k k' [v [Hk _]%sub_lookup] [v' [Hk' _]%sub_lookup]. apply Ho; eauto. Qed.

(** Pairs of an earlier slot are smaller. *)
Lemma slot_order d m i j a b : order_preserving H m → (d < levels w)%nat → agree d m → i < j →
  a ∈ map_to_list (subm d i m) → b ∈ map_to_list (subm d j m) → kv_lt a b.
Proof.
  destruct a as [k v], b as [k' v']. intros Ho Hd Ha Hij [Hk Hi]%elem_of_map_to_list%sub_lookup [Hk' Hj]%elem_of_map_to_list%sub_lookup.
  apply Ho; [by eauto..|]. apply (path_order w _ _ d); [apply params_width|apply params_hash..|done| |].
  - intros x Hx. apply (Ha k k' x); [by eauto|by eauto|done].
  - change (slot d k < slot d k'). lia.
Qed.

(** The pointers of a list of slots. *)
Lemma krun_slots s d g m stack a l :
  (∀ e, (d < e < levels w)%nat → ∀ n m stack, nrep s e n m → agree e m → load_depth conf e (length stack) →
    walks s (mkIter (pointers n :: stack) []) m (mkIter stack [])) →
  (d < levels w)%nat → agree d m → load_depth conf d (length stack) →
  (∀ i, i ∈ seqZ a l → slot_rep conf H (nrep s) s d (g i) (subm d i m)) →
  ∃ kvs, kvs ≡ₚ (seqZ a l ≫= λ i, map_to_list (subm d i m)) ∧
    kiter_run s (mkIter (omap g (seqZ a l) :: stack) []) kvs (mkIter stack []) ∧
    (order_preserving H m → StronglySorted kv_lt kvs).
Proof.
  intros Hnode Hd Hag Hst. destruct (Z.le_gt_cases l 0) as [Hl0|Hl0].
  { intros _. exists []. rewrite seqZ_nil by lia. split_and!; [done| |constructor]. eapply krun_continue; [done|apply krun_refl]. }
  remember (Z.to_nat l) as len eqn:Elen. revert a l Hl0 Elen. induction len as [|len IH]; intros a l Hl0 Elen Hl; [lia|].
  rewrite (seqZ_cons a l) in * by lia.
  assert (∃ kvs, kvs ≡ₚ (seqZ (Z.succ a) (Z.pred l) ≫= λ i, map_to_list (subm d i m)) ∧
    kiter_run s (mkIter (omap g (seqZ (Z.succ a) (Z.pred l)) :: stack) []) kvs (mkIter stack []) ∧
    (order_preserving H m → StronglySorted kv_lt kvs)) as (kvs & Hp & Hr & Ho).
  { destruct (decide (l = 1)) as [->|]; [|apply IH; [lia..|intros j Hj; apply Hl; by apply elem_of_cons; right]].
    exists []. split_and!; [done| |constructor]. eapply krun_continue; [done|apply krun_refl]. }
  assert (∀ kvs', kvs' ≡ₚ map_to_list (subm d a m) → order_preserving H m → StronglySorted kv_lt kvs' →
    StronglySorted kv_lt (kvs' ++ kvs)) as Happ.
  { intros kvs' Hp' Hop Hs'. apply sorted_app_lt; [done|by apply Ho|]. intros x y Hx Hy.
    rewrite Hp' in Hx. rewrite Hp in Hy. apply list_elem_of_bind in Hy as (j & Hy & Hj%elem_of_seqZ).
    eapply (slot_order d m a j); [done..|lia|done|done]. }
  pose proof (Hl a ltac:(apply elem_of_cons; by left)) as Hi. cbn [omap list_omap mbind list_bind].
  destruct (g a) as [p|].
  2:{ cbn in Hi. rewrite Hi, map_to_list_empty. by exists kvs. }
  destruct Hi as [Hne Hi]. destruct p as [vals|c ext cache|node ext].
  { destruct Hi as [_ [Hsort Hperm]]. exists (vals ++ kvs). split_and!; [by rewrite Hperm, Hp| |by auto].
    eapply krun_continue; [reflexivity|]. eapply kiter_run_trans; [|exact Hr].
    rewrite <-(app_nil_r vals) at 1. apply krun_current. }
  all: destruct (kstep_child s d _ (omap g (seqZ (Z.succ a) (Z.pred l))) stack _ Hst Hne Hi ltac:(done))
    as (n' & ext' & e & E & Hre & Hn & Hld & _); pose proof Hre as [Hde _].
  all: destruct (Hnode e ltac:(lia) n' _ (omap g (seqZ (Z.succ a) (Z.pred l)) :: stack) Hn) as (kvs' & Hp' & Hr' & Ho');
    [by eapply agree_child|done|].
  all: exists (kvs' ++ kvs); (split_and!; [by rewrite Hp', Hp| |by auto using order_sub]).
  all: eapply krun_continue; [exact E|]; by eapply kiter_run_trans.
Qed.

Lemma krun_node s d : (d < levels w)%nat → ∀ n m stack, nrep s d n m → agree d m → load_depth conf d (length stack) →
  walks s (mkIter (pointers n :: stack) []) m (mkIter stack []).
Proof.
  revert d. apply (levels_ind conf (λ d, ∀ n m stack, nrep s d n m → agree d m → load_depth conf d (length stack) →
    walks s (mkIter (pointers n :: stack) []) m (mkIter stack []))).
  intros d Hd IH n m stack Hn Hag Hst. apply nrep_unfold in Hn as (g & Hv & Hg); [|done].
  destruct (krun_slots s d g m stack 0 256 IH Hd Hag Hst) as (kvs & Hp & Hr & Ho).
  { intros i Hi%elem_of_seqZ. apply Hg. lia. }
  exists kvs. rewrite (sub_partition conf H params_width d m) by lia. split_and!; [done| |done].
  destruct Hv as (_ & _ & ->). exact Hr.
Qed.

(** ** Starting from a key *)

(** The iterator walks past the slots before the key's. *)
Lemma krun_until s d g m stack i : (d < levels w)%nat → agree d m → load_depth conf d (length stack) → 0 ≤ i < 256 →
  (∀ j, 0 ≤ j < 256 → slot_rep conf H (nrep s) s d (g j) (subm d j m)) →
  ∃ kvs, kiter_run s (mkIter (omap g (seqZ 0 256) :: stack) []) kvs
    (mkIter ((option_list (g i) ++ omap g (seqZ (i + 1) (255 - i))) :: stack) []).
Proof.
  intros Hd Hag Hst Hi Hg. rewrite (slots_split i) by done. rewrite omap_app.
  replace (omap g (i :: seqZ (i + 1) (255 - i))) with (option_list (g i) ++ omap g (seqZ (i + 1) (255 - i)))
    by (cbn [omap list_omap]; by destruct (g i)).
  set (rest := option_list (g i) ++ _). clearbody rest.
  assert (∀ j, j ∈ seqZ 0 i → 0 ≤ j < 256) as Hr by (intros j Hj%elem_of_seqZ; lia). revert Hr.
  generalize (seqZ 0 i). intros l. induction l as [|j l IH]; intros Hr.
  - exists []. apply krun_refl.
  - destruct IH as (kvs & Hk); [intros j' Hj'; apply Hr; apply elem_of_cons; by right|].
    pose proof (Hg j (Hr j ltac:(apply elem_of_cons; by left))) as Hj. cbn [omap list_omap].
    destruct (g j) as [p|]; [|by exists kvs]. destruct Hj as [Hne Hj]. destruct p as [vals|c ext cache|node ext].
    { exists (vals ++ kvs). eapply krun_continue; [reflexivity|]. eapply kiter_run_trans; [|exact Hk].
      rewrite <-(app_nil_r vals) at 1. apply krun_current. }
    all: destruct (kstep_child s d _ (omap g l ++ rest) stack _ Hst Hne Hj ltac:(done)) as (n' & ext' & e & E & Hre & Hn & Hld & _).
    all: pose proof Hre as [Hde _].
    all: destruct (krun_node s e ltac:(lia) n' _ ((omap g l ++ rest) :: stack) Hn) as (kvs' & _ & Hr' & _); [by eapply agree_child|done|].
    all: exists (kvs' ++ kvs); eapply krun_continue; [exact E|]; by eapply kiter_run_trans.
Qed.

Lemma knew_from_ok s d : (d < levels w)%nat → ∀ fuel n m stack k v, (levels w - d ≤ fuel)%nat → nrep s d n m → agree d m →
  load_depth conf d (length stack) → m !! k = Some v →
  ∃ l it rest, new_from_loop conf fuel s k (hb_at w (H k) d) n stack = Ok it ∧
    kiter_run s (mkIter (pointers n :: stack) []) l it ∧ it_current it = (k, v) :: rest.
Proof.
  revert d. apply (levels_ind conf (λ d, ∀ fuel n m stack k v, (levels w - d ≤ fuel)%nat → nrep s d n m → agree d m →
    load_depth conf d (length stack) → m !! k = Some v →
    ∃ l it rest, new_from_loop conf fuel s k (hb_at w (H k) d) n stack = Ok it ∧
      kiter_run s (mkIter (pointers n :: stack) []) l it ∧ it_current it = (k, v) :: rest)).
  intros d Hd IH [|fuel] n m stack k v Hfuel Hn Hag Hst Hk; [lia|]. apply nrep_unfold in Hn as (g & Hv & Hg); [|done].
  pose proof (slot_range conf H params_width d k Hd) as [_ Hi].
  pose proof (Hg _ Hi) as Hs. pose proof (sub_at conf H d m k) as Hsub. rewrite Hk in Hsub.
  destruct (slots_index _ _ g _ Hv Hi) as [Hidx Hps].
  destruct (krun_until s d g m stack _ Hd Hag Hst Hi Hg) as (kvs & Hrun). destruct Hv as (_ & _ & Hpn). rewrite <-Hpn in Hrun.
  pose proof (key_next w params_width (H k) d (params_hash k) ltac:(lia)) as Hnext.
  change (idx_at w (H k) d) with (slot d k) in Hnext.
  destruct (g (slot d k)) as [p|] eqn:Hgi; [|cbn in Hs; by rewrite Hs in Hsub].
  destruct Hs as [Hne Hs]. simpl in Hps, Hrun. set (ps := omap g (seqZ (slot d k + 1) _)) in *.
  assert (drop (index_for_bit_pos (slot d k) (bitfield n)) (pointers n) = p :: ps) as Hdrop.
  { by rewrite Hidx, Hps, drop_app_length. }
  destruct p as [vals|c ext cache|node ext].
  { cbn [new_from_loop]. rewrite Hnext, Hdrop. destruct Hs as [_ Hb].
    pose proof (bucket_position _ _ k Hb) as Hp. destruct (position _ vals) as [j|]; [|by rewrite Hp in Hsub].
    destruct Hp as (l1 & v' & l2 & -> & <- & Hv'). assert (v' = v) as -> by congruence.
    rewrite drop_app_length. exists (kvs ++ l1), (mkIter (ps :: stack) ((k, v) :: l2)), l2. split_and!; [done| |done].
    eapply kiter_run_trans; [exact Hrun|]. eapply krun_continue; [reflexivity|]. apply krun_current. }
  all: destruct (kstep_child s d _ ps stack _ Hst Hne Hs ltac:(done)) as (n' & ext' & e & E & Hre & Hn & Hld & Hloop).
  all: rewrite (Hloop fuel k _ _ _ n Hnext Hdrop); pose proof Hre as [Hde _].
  all: destruct (match_reaches conf H params_hash params_width params_array params_depth d _ ext' e k Hne Hre) as (y & Hy & _ & Hm).
  all: destruct (decide (y = e)) as [->|Hye];
    [|destruct Hm as (_ & Hdiff & _); by destruct (follows_key conf H _ k y _ Hsub Hdiff)].
  all: rewrite Hm; destruct (IH e ltac:(lia) fuel n' _ (ps :: stack) k v ltac:(lia) Hn ltac:(by eapply agree_child) Hld Hsub)
    as (l & it & rest & E' & Hr & Hc).
  all: exists (kvs ++ l), it, rest; split_and!; [done| |done].
  all: eapply kiter_run_trans; [exact Hrun|]; by eapply krun_continue.
Qed.

(** ** The loops end *)

Lemma drain_run {A} (f : bytes → V → A → result string unit * A) s it l it' :
  kiter_run s it l it' → step s it' = Finished → ∀ a, ∃ N, ∀ fuel, (N ≤ fuel)%nat → drain conf f fuel s it a = Some (visit f l a).
Proof.
  intros Hr Hend. induction Hr as [it|it kv it1 l it2 Hs Hr IH|it it1 l it2 Hs Hr IH]; intros a.
  - exists 1%nat. intros [|fuel] Hfuel; [lia|]. cbn [drain]. by rewrite Hend.
  - destruct kv as [k v]. destruct (f k v a) as [[[]|e] a1] eqn:Hf.
    + destruct (IH Hend a1) as (N & HN). exists (S N). intros [|fuel] Hfuel; [lia|]. cbn [drain visit].
      rewrite Hs, Hf. apply HN. lia.
    + exists 1%nat. intros [|fuel] Hfuel; [lia|]. cbn [drain visit]. by rewrite Hs, Hf.
  - destruct (IH Hend a) as (N & HN). exists (S N). intros [|fuel] Hfuel; [lia|]. cbn [drain]. rewrite Hs. apply HN. lia.
Qed.

Lemma krun_head s it l it' kv rest : kiter_run s it l it' → it_current it = kv :: rest → step s it' = Finished →
  ∃ l', l = kv :: l'.
Proof.
  intros Hr Hc Hend. unfold iter_step in Hend.
  destruct Hr as [it|it kv' it1 l it2 Hs|it it1 l it2 Hs]; unfold iter_step in *; rewrite Hc in *; [done| |done].
  injection Hs as <- <-. by eexists.
Qed.

(** iterating over a KAMT. There is one order of the pairs of the map, each
    pair once, such that [for_each] ends and calls back on the pairs in this
    order until the first error, and an iterator started at a key of the map yields
    the pairs from that key on; and if the hashed keys are ordered as the
    keys are, the order is the ascending order of the keys. *)
Theorem kamt_iteration s h m (Hh : krep conf H s h m) : ∃ l, l ≡ₚ map_to_list m ∧
  (order_preserving H m → StronglySorted kv_lt l) ∧
  (∀ A f (a : A), ∃ N, ∀ fuel, (N ≤ fuel)%nat → for_each conf f fuel s h a = Some (visit f l a)) ∧
  (∀ k v l1 l2, l = l1 ++ (k, v) :: l2 → ∃ it, iter_from conf H s k h = Ok it ∧
     ∀ A f (a : A), ∃ N, ∀ fuel, (N ≤ fuel)%nat → drain conf f fuel s it a = Some (visit f ((k, v) :: l2) a)).
Proof.
  destruct Hh as [Hr _]. assert (agree 0 m) as Hag by (intros ? ? ? _ _ Hx; lia).
  destruct (krun_node s 0 (top_level conf H) (root h) m [] Hr Hag) as (l & Hp & Hrun & Ho); [unfold load_depth; simpl; lia|].
  exists l. split_and!; [done..| |].
  - intros A f a. by eapply drain_run.
  - intros k v l1 l2 Hl.
    assert (m !! k = Some v) as Hk by (apply elem_of_map_to_list; rewrite <-Hp, Hl, elem_of_app, elem_of_cons; auto).
    destruct (knew_from_ok s 0 (top_level conf H) (S (fuel_for H k)) (root h) m [] k v) as (l1' & it & rest & E & Hr1 & Hc);
      [pose proof (kfuel_enough conf H k); lia|done|done|unfold load_depth; simpl; lia|done|].
    unfold iter_from, iter_new_from. rewrite (hb_new_at conf). exists it. split; [done|]. intros A f a.
    destruct (kiter_run_prefix s _ _ _ l (mkIter [] []) Hr1 eq_refl Hrun) as (l2' & Hl' & Hr2).
    destruct (krun_head s it l2' _ (k, v) rest Hr2 Hc) as [l3 ->]; [done|].
    assert (l3 = l2) as ->; [|by eapply drain_run].
    eapply same_split; [|exact Hl'|exact Hl]. rewrite Hp. apply NoDup_fst_map_to_list.
Qed.
End walk.
