(* ===== verification/StateTree.v ===== *)
(** * The state tree (fvm/src/state_tree.rs) and the init actor (fvm/src/init_actor.rs)

    The actors' HAMT with an actor cache and an address cache in front of it,
    both with undo histories, and a stack of transaction layers that record
    history heights. The [RefCell]s make reads mutate the caches; every
    operation is a computation in [M StateTree]. *)

From S2P Require Import Prelude Effects Gas PriceList Address HistoryMap Types.
From stdpp Require Import gmap strings list fin_maps.
From Stdlib Require Import ZArith Lia.
#[local] Open Scope Z_scope.

Record ActorCacheEntry := mkEntry { dirty : bool; actor : option ActorState }.
#[export] Instance ActorCacheEntry_eq_dec : EqDecision ActorCacheEntry.
Proof. solve_decision. Defined.

Record StateSnapLayer := mkLayer { actor_cache_height : nat; resolve_cache_height : nat }.

(** [st_store] is the blockstore the source keeps inside the HAMT; [layers] is
    a stack with its top first. *)
Record StateTree `{E : Env} := mkStateTree {
  st_store : Store;
  st_hamt : Hamt Store ActorState;
  st_version : StateTreeVersion;
  st_info : option Cid;
  actor_cache : HistoryMap ActorID ActorCacheEntry;
  resolve_cache : HistoryMap Address ActorID;
  layers : list StateSnapLayer;
}.

Section operations.
Context `{E : Env}.

Definition st_set_store (s : Store) (t : StateTree) : StateTree :=
  mkStateTree _ s (st_hamt t) (st_version t) (st_info t) (actor_cache t) (resolve_cache t) (layers t).
Definition st_set_hamt (h : Hamt Store ActorState) (t : StateTree) : StateTree :=
  mkStateTree _ (st_store t) h (st_version t) (st_info t) (actor_cache t) (resolve_cache t) (layers t).
Definition st_set_actors c (t : StateTree) : StateTree :=
  mkStateTree _ (st_store t) (st_hamt t) (st_version t) (st_info t) c (resolve_cache t) (layers t).
Definition st_set_resolve c (t : StateTree) : StateTree :=
  mkStateTree _ (st_store t) (st_hamt t) (st_version t) (st_info t) (actor_cache t) c (layers t).
Definition st_set_layers l (t : StateTree) : StateTree :=
  mkStateTree _ (st_store t) (st_hamt t) (st_version t) (st_info t) (actor_cache t) (resolve_cache t) l.

(** Run a store write, keeping the store it leaves behind. *)
Definition st_write {A} (f : Store → result string A * Store) : M StateTree A := λ t,
  let '(r, s) := f (st_store t) in (or_fatal r, st_set_store s t).

(** [StateInfo0::default()] serialises as the empty CBOR array. *)
Definition STATE_INFO_0 : bytes := [0x80].

Definition st_new (store : Store) (version : StateTreeVersion) : Result StateTree :=
  match version with
  | V0 | V1 | V2 | V3 | V4 => Err (Fatal "unsupported state tree version: {:?}")
  | V5 =>
      match bs_put store BLAKE2B_256 DAG_CBOR STATE_INFO_0 with
      | (Err _, _) => Err (Fatal "failed to put state info")
      | (Ok cid, store) => Ok (mkStateTree _ store hamt_new V5 (Some cid) hm_default hm_default [])
      end
  end.

Definition st_new_from_root (store : Store) (c : Cid) : Result StateTree :=
  match get_cbor (T := StateRoot) store c with
  | Ok None => Err (Fatal "failed to find state tree {}")
  | Err _ => Err (Fatal "failed to load state tree {}: {}")
  | Ok (Some root) =>
      match sr_version root with
      | V0 | V1 | V2 | V3 | V4 => Err (Fatal "unsupported state tree version: {:?}")
      | V5 =>
          match or_fatal (hamt_load store (sr_actors root)) with
          | Err e => Err e
          | Ok hamt => Ok (mkStateTree _ store hamt V5 (Some (sr_info root)) hm_default hm_default [])
          end
      end
  end.

(** The state-tree key of an actor. *)
Definition actor_key (id : ActorID) : bytes := to_bytes (new_id id).

Definition get_actor (id : ActorID) : M StateTree (option ActorState) := λ t,
  let fetch := match or_fatal (hamt_get (st_store t) (st_hamt t) (actor_key id)) with
               | Ok a => Ok (mkEntry false a)
               | Err e => Err e
               end in
  let '(r, c) := get_or_try_insert_with id fetch (actor_cache t) in
  (match r with Ok e => Ok (actor e) | Err e => Err e end, st_set_actors c t).

Definition set_actor (id : ActorID) (a : ActorState) : M StateTree unit :=
  modify (λ t, st_set_actors (hm_insert id (mkEntry true (Some a)) (actor_cache t)) t).

Definition delete_actor (id : ActorID) : M StateTree unit :=
  modify (λ t, st_set_actors (hm_insert id (mkEntry true None) (actor_cache t)) t).

(** *** init_actor.rs *)

Definition init_load : M StateTree (InitState * ActorState) :=
  o ← get_actor INIT_ACTOR_ID;
  init_act ← lift (ok_or o (Fatal "init actor address could not be resolved"));
  r ← gets (λ t, get_cbor (T := InitState) (st_store t) (as_state init_act));
  o ← lift (or_fatal r);
  state ← lift (ok_or o (Fatal "init actor state not found"));
  mret (state, init_act).

(** Returns the new id with the updated state. *)
Definition map_address_to_new_id (self : InitState) (addr : Address)
    : M StateTree (ActorID * InitState) :=
  let id := next_id self in
  let next := wrap64 (next_id self + 1) in
  r ← gets (λ t, hamt_load (st_store t) (address_map self));
  map ← lift (or_fatal r);
  rm ← gets (λ t, hamt_set (st_store t) map (to_bytes addr) id);
  _ ← lift (or_fatal rm.1);
  root ← st_write (λ s, let '(r, _, s') := hamt_flush s rm.2 in (r, s'));
  mret (id, mkInitState root next (network_name self)).

Definition init_resolve_address (self : InitState) (addr : Address)
    : M StateTree (option ActorID) :=
  match addr with
  | ID id => mret (Some id)
  | _ =>
      r ← gets (λ t, hamt_load (st_store t) (address_map self));
      map ← lift (or_fatal r);
      r ← gets (λ t, hamt_get (st_store t) map (to_bytes addr));
      lift (or_fatal r)
  end.

(** *** state_tree.rs, continued *)

Definition lookup_id (addr : Address) : M StateTree (option ActorID) :=
  match addr with
  | ID id => mret (Some id)
  | _ =>
      cached ← gets (λ t, hm_get addr (resolve_cache t));
      match cached with
      | Some id => mret (Some id)
      | None =>
          '(state, _) ← init_load;
          o ← init_resolve_address state addr;
          match o with
          | None => mret None
          | Some a =>
              _ ← modify (λ t, st_set_resolve (hm_insert addr a (resolve_cache t)) t);
              mret (Some a)
          end
      end
  end.

Definition maybe_mutate_actor_id (id : ActorID) (mutate : ActorState → Result ActorState)
    : M StateTree bool :=
  o ← get_actor id;
  match o with
  | None => mret false
  | Some act =>
      act' ← lift (mutate act);
      _ ← set_actor id act';
      mret true
  end.

Definition mutate_actor (id : ActorID) (mutate : ActorState → Result ActorState)
    : M StateTree unit :=
  found ← maybe_mutate_actor_id id mutate;
  if found : bool then mret tt else throw (Fatal "failed to lookup actor {}").

Definition as_set_state (c : Cid) (a : ActorState) : ActorState :=
  mkActorState (as_code a) c (as_sequence a) (as_balance a) (as_delegated_address a).

Definition register_new_address (addr : Address) : M StateTree ActorID :=
  '(state, act) ← init_load;
  '(new_id, state') ← map_address_to_new_id state addr;
  c ← st_write (λ s, put_cbor s state' BLAKE2B_256);
  _ ← set_actor INIT_ACTOR_ID (as_set_state c act);
  _ ← modify (λ t, st_set_resolve (hm_insert addr new_id (resolve_cache t)) t);
  mret new_id.

Definition begin_transaction : M StateTree unit :=
  modify (λ t, st_set_layers
    (mkLayer (history_len (actor_cache t)) (history_len (resolve_cache t)) :: layers t) t).

Definition in_transaction (t : StateTree) : bool :=
  match layers t with [] => false | _ => true end.

Definition end_transaction (revert : bool) : M StateTree unit := λ t,
  match layers t with
  | [] => (Err (Fatal "state snapshots empty"), t)
  | layer :: rest =>
      let t := st_set_layers rest t in
      let t := if revert
               then st_set_resolve (rollback (resolve_cache_height layer) (resolve_cache t))
                      (st_set_actors (rollback (actor_cache_height layer) (actor_cache t)) t)
               else t in
      let t := if in_transaction t then t
               else st_set_resolve (discard_history (resolve_cache t))
                      (st_set_actors (discard_history (actor_cache t)) t) in
      (Ok tt, t)
  end.

(** One turn of the loop of [flush]; [iter_mut] bypasses the undo history. *)
Definition flush_entry (ie : ActorID * ActorCacheEntry) : M StateTree unit :=
  let '(id, entry) := ie in
  if negb (dirty entry) then mret tt else
  _ ← modify (λ t, st_set_actors
        (mkHistoryMap (<[id := mkEntry false (actor entry)]> (hm_map (actor_cache t)))
           (hm_history (actor_cache t))) t);
  r ← gets (λ t, match actor entry with
                 | None => hamt_delete (st_store t) (st_hamt t) (actor_key id)
                 | Some state => hamt_set (st_store t) (st_hamt t) (actor_key id) state
                 end);
  _ ← modify (st_set_hamt r.2);
  lift (or_fatal r.1).

Fixpoint flush_entries (l : list (ActorID * ActorCacheEntry)) : M StateTree unit :=
  match l with
  | [] => mret tt
  | ie :: l => _ ← flush_entry ie; flush_entries l
  end.

Definition hamt_flush_st : M StateTree Cid := λ t,
  let '(r, h, s) := hamt_flush (st_store t) (st_hamt t) in
  (or_fatal r, st_set_store s (st_set_hamt h t)).

(** [V0] returns the bare HAMT root; it cannot occur, since [new_from_root]
    refuses every version but [V5]. The [expect] on [info] is a panic. *)
Definition st_flush : M StateTree Cid :=
  inside ← gets in_transaction;
  if inside : bool then throw (Fatal "cannot flush while inside of a transaction") else
  l ← gets (λ t, map_to_list (hm_map (actor_cache t)));
  _ ← flush_entries l;
  root ← hamt_flush_st;
  v ← gets st_version;
  match v with
  | V0 => mret root
  | _ =>
      info ← gets st_info;
      cid ← lift (ok_or info (Fatal "malformed state tree, version 1+ require info"));
      st_write (λ s, put_cbor s (mkStateRoot v root cid) BLAKE2B_256)
  end.
End operations.

(** ** Frames

    What an operation between [begin_transaction] and [end_transaction] may do
    to the tree: the HAMT, the header and the layers stay, and as long as a
    layer is open both caches can be undone to what they were. *)

Section frame.
Context `{E : Env}.

Definition st_ext (t t' : StateTree) : Prop :=
  st_hamt t' = st_hamt t ∧ st_version t' = st_version t ∧ st_info t' = st_info t ∧
  layers t' = layers t ∧
  (layers t ≠ [] →
     hm_ext (actor_cache t) (actor_cache t') ∧ hm_ext (resolve_cache t) (resolve_cache t')).

#[export] Instance st_ext_preorder : PreOrder st_ext.
Proof.
  split.
  - intros t. unfold st_ext. naive_solver.
  - intros a b c (?&?&?&Hl&Hab) (?&?&?&?&Hbc). unfold st_ext.
    split_and!; try congruence. intros Hne.
    destruct (Hab Hne) as [? ?]. rewrite Hl in Hbc. destruct (Hbc Hne) as [? ?].
    split; by etrans.
Qed.

Lemma st_ext_write {A} (f : Store → result string A * Store) : pres st_ext (st_write f).
Proof. intros t. unfold st_write, st_ext. destruct (f _). naive_solver. Qed.

Lemma st_ext_get_actor id : pres st_ext (get_actor id).
Proof.
  intros t. unfold get_actor, st_ext.
  pose proof (λ f : Result ActorCacheEntry, hm_ext_get_or_insert id f (actor_cache t)) as Hx.
  match goal with |- context [get_or_try_insert_with id ?f _] => specialize (Hx f) end.
  destruct (get_or_try_insert_with _ _ _) as [r c]. simpl in *. naive_solver.
Qed.

Lemma st_ext_set_actor id a : pres st_ext (set_actor id a).
Proof. intros t. unfold st_ext; simpl. split_and!; try done. intros; split; [apply hm_ext_insert|done]. Qed.
Lemma st_ext_delete_actor id : pres st_ext (delete_actor id).
Proof. intros t. unfold st_ext; simpl. split_and!; try done. intros; split; [apply hm_ext_insert|done]. Qed.
Lemma st_ext_resolve_insert k v :
  pres st_ext (modify (Er := ExecutionError) (λ t, st_set_resolve (hm_insert k v (resolve_cache t)) t)).
Proof. intros t. unfold st_ext; simpl. split_and!; try done. intros; split; [done|apply hm_ext_insert]. Qed.

#[local] Hint Resolve st_ext_write st_ext_get_actor st_ext_set_actor st_ext_delete_actor
  st_ext_resolve_insert : pres.

Lemma st_ext_init_load : pres st_ext init_load.
Proof. unfold init_load. solve_pres. Qed.
Lemma st_ext_map_address s a : pres st_ext (map_address_to_new_id s a).
Proof. unfold map_address_to_new_id. solve_pres. Qed.
Lemma st_ext_init_resolve s a : pres st_ext (init_resolve_address s a).
Proof. unfold init_resolve_address. solve_pres. Qed.
#[local] Hint Resolve st_ext_init_load st_ext_map_address st_ext_init_resolve : pres.
Lemma st_ext_lookup_id a : pres st_ext (lookup_id a).
Proof. unfold lookup_id. solve_pres. Qed.
Lemma st_ext_maybe_mutate id f : pres st_ext (maybe_mutate_actor_id id f).
Proof. unfold maybe_mutate_actor_id. solve_pres. Qed.
#[local] Hint Resolve st_ext_maybe_mutate : pres.
Lemma st_ext_mutate id f : pres st_ext (mutate_actor id f).
Proof. unfold mutate_actor. solve_pres. Qed.
Lemma st_ext_register a : pres st_ext (register_new_address a).
Proof. unfold register_new_address. solve_pres. Qed.

(** Closing the layer that was opened: the frame is restored, and after a
    revert so are both caches. *)
Lemma end_transaction_frame revert t t1 :
  st_ext (begin_transaction t).2 t1 →
  ∃ t2, end_transaction revert t1 = (Ok tt, t2) ∧ st_ext t t2 ∧
    st_store t2 = st_store t1 ∧
    hm_map (actor_cache t2) = hm_map (actor_cache (if revert then t else t1)) ∧
    hm_map (resolve_cache t2) = hm_map (resolve_cache (if revert then t else t1)) ∧
    (revert = true → in_transaction t = true →
       actor_cache t2 = actor_cache t ∧ resolve_cache t2 = resolve_cache t).
Proof.
  intros (Hh & Hv & Hi & Hl & Hc). simpl in *. destruct Hc as [Ha Hr]; [done|].
  pose proof (rollback_ext _ _ Ha) as Ea. pose proof (rollback_ext _ _ Hr) as Er.
  unfold end_transaction. rewrite Hl. eexists. split; [done|].
  unfold in_transaction, st_ext.
  destruct revert; cbn [st_set_layers st_set_resolve st_set_actors layers actor_cache
    resolve_cache st_hamt st_version st_info st_store actor_cache_height resolve_cache_height];
    rewrite ?Ea, ?Er; destruct (layers t) eqn:El; simpl; split_and!; try done.
Qed.
End frame.

#[export] Hint Resolve st_ext_write st_ext_get_actor st_ext_set_actor st_ext_delete_actor
  st_ext_resolve_insert st_ext_init_load st_ext_map_address st_ext_init_resolve
  st_ext_lookup_id st_ext_maybe_mutate st_ext_mutate st_ext_register : pres.

(** ** The actors the tree holds

    [m] is the content of the HAMT. An actor is what the cache says, and what
    the HAMT says when the cache is silent; a clean cache entry repeats the
    HAMT. *)

Section view.
Context `{ES : EnvSpec}.
Implicit Type m : gmap bytes ActorState.

Definition cache_at m (c : HistoryMap ActorID ActorCacheEntry) (id : ActorID) : option ActorState :=
  match hm_map c !! id with Some e => actor e | None => m !! actor_key id end.
Definition actor_at m (t : StateTree) (id : ActorID) : option ActorState := cache_at m (actor_cache t) id.

Definition cache_ok m (c : HistoryMap ActorID ActorCacheEntry) : Prop :=
  ∀ id e, hm_map c !! id = Some e → dirty e = false → actor e = m !! actor_key id.

Definition st_inv m (t : StateTree) : Prop :=
  store_ok (st_store t) ∧ hamt_rep (st_store t) (st_hamt t) m ∧ cache_ok m (actor_cache t).

Lemma cache_ok_insert m id a c : cache_ok m c → cache_ok m (hm_insert id (mkEntry true a) c).
Proof. intros Hc j e. rewrite lookup_hm_insert. case_decide; [by intros [= <-]|apply Hc]. Qed.

Lemma cache_at_insert m id a c j :
  cache_at m (hm_insert id (mkEntry true a) c) j = if decide (id = j) then a else cache_at m c j.
Proof. unfold cache_at. rewrite lookup_hm_insert. by case_decide. Qed.

(** Reading: the answer is the actor, the caching is invisible. *)
Lemma get_actor_spec m id t :
  st_inv m t →
  ∃ c, get_actor id t = (Ok (actor_at m t id), st_set_actors c t) ∧
    cache_ok m c ∧ hm_ext (actor_cache t) c ∧ ∀ j, cache_at m c j = actor_at m t j.
Proof.
  intros (Hs & Hh & Hc). unfold get_actor.
  rewrite (hamt_rep_get _ _ _ _ Hs Hh). unfold get_or_try_insert_with, actor_at, cache_at. simpl.
  destruct (hm_map (actor_cache t) !! id) as [e|] eqn:Hl.
  - exists (actor_cache t). by destruct t.
  - eexists. split; [reflexivity|]. split_and!.
    + intros j e. simpl. rewrite lookup_insert. case_decide; [|apply Hc].
      subst. by intros [= <-].
    + exists [(id, None)]. split; [done|]. simpl. unfold undo; simpl. by apply delete_insert_id.
    + intros j. simpl. rewrite lookup_insert. case_decide; [subst; by rewrite Hl|done].
Qed.

Lemma st_inv_actors m c t : st_inv m t → cache_ok m c → st_inv m (st_set_actors c t).
Proof. intros (?&?&?) ?. by split_and!. Qed.
Lemma st_inv_resolve m c t : st_inv m t → st_inv m (st_set_resolve c t).
Proof. intros (?&?&?). by split_and!. Qed.

Lemma st_inv_store m s t :
  st_inv m t → store_ok s → store_le (st_store t) s → st_inv m (st_set_store s t).
Proof. intros (?&?&?) ??. split_and!; [done| |done]. by eapply (hamt_rep_mono (st_store t)). Qed.

(** ** A map with nested transactions

    The abstract state tree: the current actors and one saved version per open
    transaction. *)

Definition Actors : Type := ActorID → option ActorState.
Record AbsTree := mkAbs { abs_now : Actors; abs_saved : list Actors }.

Inductive st_op :=
  | OGet (id : ActorID)
  | OSet (id : ActorID) (a : ActorState)
  | ODelete (id : ActorID)
  | OMutate (id : ActorID) (f : ActorState → Result ActorState)
  | OBegin
  | OEnd (revert : bool).

Definition fn_set (f : Actors) (id : ActorID) (a : option ActorState) : Actors :=
  λ j, if decide (id = j) then a else f j.

Definition run_op (o : st_op) : M StateTree (option ActorState) :=
  match o with
  | OGet id => get_actor id
  | OSet id a => _ ← set_actor id a; mret None
  | ODelete id => _ ← delete_actor id; mret None
  | OMutate id f => _ ← mutate_actor id f; mret None
  | OBegin => _ ← begin_transaction; mret None
  | OEnd revert => _ ← end_transaction revert; mret None
  end.

Definition abs_op (o : st_op) : M AbsTree (option ActorState) := λ s,
  match o with
  | OGet id => (Ok (abs_now s id), s)
  | OSet id a => (Ok None, mkAbs (fn_set (abs_now s) id (Some a)) (abs_saved s))
  | ODelete id => (Ok None, mkAbs (fn_set (abs_now s) id None) (abs_saved s))
  | OMutate id f =>
      match abs_now s id with
      | None => (Err (Fatal "failed to lookup actor {}"), s)
      | Some a => match f a with
                  | Err e => (Err e, s)
                  | Ok a' => (Ok None, mkAbs (fn_set (abs_now s) id (Some a')) (abs_saved s))
                  end
      end
  | OBegin => (Ok None, mkAbs (abs_now s) (abs_now s :: abs_saved s))
  | OEnd revert =>
      match abs_saved s with
      | [] => (Err (Fatal "state snapshots empty"), s)
      | v :: rest => (Ok None, mkAbs (if revert then v else abs_now s) rest)
      end
  end.

(** The answers of a sequence of operations; an error does not stop a client. *)
Fixpoint answers {S A O} (step : O → M S A) (l : list O) (s : S) : list (Result A) :=
  match l with
  | [] => []
  | o :: l => let '(r, s') := step o s in r :: answers step l s'
  end.

(** Each layer's heights lead back to a cache that shows the saved version. *)
Fixpoint layers_rep m (c : HistoryMap ActorID ActorCacheEntry)
    (ls : list StateSnapLayer) (saved : list Actors) : Prop :=
  match ls, saved with
  | [], [] => True
  | l :: ls, v :: saved =>
      ∃ c0, hm_ext c0 c ∧ history_len c0 = actor_cache_height l ∧ cache_ok m c0 ∧
        (∀ id, cache_at m c0 id = v id) ∧ layers_rep m c0 ls saved
  | _, _ => False
  end.

Definition tree_rep m (t : StateTree) (s : AbsTree) : Prop :=
  st_inv m t ∧ (∀ id, actor_at m t id = abs_now s id) ∧
  layers_rep m (actor_cache t) (layers t) (abs_saved s).

Lemma layers_rep_ext m c c' ls saved :
  hm_ext c c' → layers_rep m c ls saved → layers_rep m c' ls saved.
Proof.
  intros Hx. destruct ls, saved; simpl; try done.
  intros (c0 & ? & ?). exists c0. split; [by etrans|done].
Qed.

Lemma tree_rep_set m t s id a :
  tree_rep m t s →
  tree_rep m (st_set_actors (hm_insert id (mkEntry true a) (actor_cache t)) t)
    (mkAbs (fn_set (abs_now s) id a) (abs_saved s)).
Proof.
  intros (Hi & Hv & Hl). split_and!.
  - apply st_inv_actors; [done|]. by apply cache_ok_insert, Hi.
  - intros j. unfold actor_at. simpl. rewrite cache_at_insert. unfold fn_set.
    case_decide; [done|]. apply Hv.
  - simpl. eapply layers_rep_ext; [apply hm_ext_insert|done].
Qed.

Lemma tree_rep_get m t s id :
  tree_rep m t s → ∃ t', get_actor id t = (Ok (abs_now s id), t') ∧ tree_rep m t' s.
Proof.
  intros (Hi & Hv & Hl). destruct (get_actor_spec m id t Hi) as (c & -> & Hc & Hx & He).
  eexists. rewrite Hv. split; [done|]. split_and!; [by apply st_inv_actors| |].
  - intros j. unfold actor_at. simpl. by rewrite He, Hv.
  - simpl. by eapply layers_rep_ext.
Qed.

Lemma cache_at_map m c c' : hm_map c = hm_map c' → ∀ id, cache_at m c id = cache_at m c' id.
Proof. unfold cache_at. by intros ->. Qed.
Lemma cache_ok_map m c c' : hm_map c = hm_map c' → cache_ok m c' → cache_ok m c.
Proof. unfold cache_ok. by intros ->. Qed.

Lemma tree_rep_end m t s revert l ls v saved :
  tree_rep m t s → layers t = l :: ls → abs_saved s = v :: saved →
  tree_rep m (end_transaction revert t).2 (mkAbs (if revert then v else abs_now s) saved).
Proof.
  intros (Hi & Hv & Hl) El Es. rewrite El, Es in Hl. simpl in Hl.
  destruct Hl as (c0 & Hx & Hh & Hc0 & Hv0 & Hls).
  unfold end_transaction. rewrite El, <-Hh.
  pose proof (rollback_ext _ _ Hx) as Er. unfold tree_rep, st_inv, actor_at, in_transaction.
  destruct Hi as (Hs & Hr & Hc). destruct revert, ls, saved; simpl in *; rewrite ?Er;
    split_and!; try done; eauto using cache_ok_map, layers_rep_ext.
  all: by eapply (layers_rep_ext m c0 (actor_cache t) (_ :: _) (_ :: _)).
Qed.

(** Every operation of the tree answers as the abstract one. *)
Lemma run_op_rep m o t s :
  tree_rep m t s →
  ∃ r t' s', run_op o t = (r, t') ∧ abs_op o s = (r, s') ∧ tree_rep m t' s'.
Proof.
  intros Ht. pose proof Ht as (Hi & Hv & Hl). destruct o as [id|id a|id|id f| |revert]; simpl.
  - destruct (tree_rep_get m t s id Ht) as (t' & -> & ?). eauto 6.
  - do 3 eexists. split; [reflexivity|]. split; [done|]. by apply tree_rep_set.
  - do 3 eexists. split; [reflexivity|]. split; [done|]. by apply tree_rep_set.
  - destruct (tree_rep_get m t s id Ht) as (t' & Hg & Ht').
    unfold mutate_actor, maybe_mutate_actor_id, mbind, M_bind. rewrite Hg.
    destruct (abs_now s id) as [a|] eqn:Ea; [|by eauto 6]. unfold lift.
    destruct (f a) as [a'|e]; [|by eauto 6].
    do 3 eexists. split; [reflexivity|]. split; [done|]. by apply tree_rep_set.
  - do 3 eexists. split; [reflexivity|]. split; [done|]. split_and!; [done|done|].
    simpl. exists (actor_cache t). split_and!; try done. by apply Hi.
  - destruct (layers t) as [|l ls] eqn:El, (abs_saved s) as [|v saved] eqn:Es; try done.
    + unfold mbind, M_bind, end_transaction. rewrite El. eauto 6.
    + pose proof (tree_rep_end m t s revert _ _ _ _ Ht El Es) as He.
      unfold mbind, M_bind. destruct (end_transaction revert t) as [r t'] eqn:Ee.
      unfold end_transaction in Ee. rewrite El in Ee. simplify_eq/=. eauto 6.
Qed.

(** C6: refinement. Started on a representation of any set of actors, any
    sequence of reads, writes, deletions, mutations and nested transactions
    (committed or reverted) gets from the state tree exactly the answers of a
    plain map that saves a copy of itself per open transaction; in particular no
    operation of the cache machinery fails, and only closing a transaction that
    was never opened or mutating a missing actor is an error. *)
Theorem state_tree_refines m t s ops (Hrep : tree_rep m t s) :
  answers run_op ops t = answers abs_op ops s.
Proof.
  revert t s Hrep. induction ops as [|o ops IH]; intros t s Hrep; [done|]. simpl.
  destruct (run_op_rep m o t s Hrep) as (r & t' & s' & -> & -> & ?). f_equal. by apply IH.
Qed.
End view.

(** ** Flushing and reloading *)

Section flush.
Context `{ES : EnvSpec} `{HT : !StoreTotal}.
Implicit Type m : gmap bytes ActorState.

Lemma actor_key_inj i j : in_u64 i → in_u64 j → actor_key i = actor_key j → i = j.
Proof. intros Hi Hj Hk. apply to_bytes_inj in Hk; [by simplify_eq|done..]. Qed.

(** The HAMT after the loop: every dirty entry written. *)
Definition write_entry m (ie : ActorID * ActorCacheEntry) : gmap bytes ActorState :=
  if dirty ie.2
  then match actor ie.2 with
       | None => delete (actor_key ie.1) m
       | Some a => <[actor_key ie.1 := a]> m
       end
  else m.

Definition same_header (t t' : StateTree) : Prop :=
  st_store t' = st_store t ∧ st_version t' = st_version t ∧ st_info t' = st_info t ∧
  layers t' = layers t.

Lemma write_entry_dom m ie : dom (write_entry m ie) ⊆ {[actor_key ie.1]} ∪ dom m.
Proof. unfold write_entry. destruct ie as [i [[] [a|]]]; simpl; set_solver. Qed.

Lemma flush_entry_spec m ie t :
  hamt_keys_ok (V := ActorState) ({[actor_key ie.1]} ∪ dom m) →
  store_ok (st_store t) → hamt_rep (st_store t) (st_hamt t) m →
  ∃ t', flush_entry ie t = (Ok tt, t') ∧ same_header t t' ∧
    hamt_rep (st_store t') (st_hamt t') (write_entry m ie).
Proof.
  intros Hk Hs Hr. unfold flush_entry, write_entry. destruct ie as [id [[] a]]; simpl; [|by exists t].
  unfold mbind, M_bind, modify, gets, lift. simpl. destruct a as [a|].
  - destruct (hamt_rep_set _ _ _ (actor_key id) a Hs Hr) as (h' & -> & ?); [|by eexists].
    by rewrite dom_insert_L.
  - destruct (hamt_rep_delete _ _ _ (actor_key id) Hs Hr) as (h' & -> & ?). by eexists.
Qed.

Lemma flush_entries_spec l m t :
  hamt_keys_ok (V := ActorState) (list_to_set (actor_key <$> l.*1) ∪ dom m) →
  store_ok (st_store t) → hamt_rep (st_store t) (st_hamt t) m →
  ∃ t', flush_entries l t = (Ok tt, t') ∧ same_header t t' ∧
    hamt_rep (st_store t') (st_hamt t') (foldl write_entry m l).
Proof.
  revert m t. induction l as [|ie l IH]; intros m t Hk Hs Hr; simpl; [by exists t|]. csimpl in Hk.
  pose proof (write_entry_dom m ie) as Hd.
  destruct (flush_entry_spec m ie t) as (t1 & E1 & H1 & Hr1); [|done..|].
  { eapply hamt_keys_sub; [|exact Hk]. clear. set_solver. }
  destruct (IH (write_entry m ie) t1) as (t2 & E2 & H2 & Hr2); [|by rewrite (proj1 H1)|done|].
  { eapply hamt_keys_sub; [|exact Hk]. apply union_subseteq. split; [clear; set_solver|].
    etrans; [exact Hd|]. clear. set_solver. }
  exists t2. erewrite bind_ok by done. split; [done|]. split; [|done].
  destruct H1 as (?&?&?&?), H2 as (?&?&?&?). split_and!; congruence.
Qed.

(** Whatever the iteration order, a key of the result is its cache entry's. *)
Lemma foldl_write_lookup l m id :
  NoDup l.*1 → Forall (λ ie, in_u64 ie.1) l → in_u64 id →
  foldl write_entry m l !! actor_key id =
    match list_to_map (M := gmap ActorID ActorCacheEntry) l !! id with
    | Some e => if dirty e then actor e else m !! actor_key id
    | None => m !! actor_key id
    end.
Proof.
  intros Hnd Hu Hid. revert m. induction l as [|[j e] l IH]; intros m; [done|].
  apply NoDup_cons in Hnd as [Hj Hnd]. apply Forall_cons in Hu as [Hju Hu]. simpl.
  rewrite IH by done. destruct (decide (j = id)) as [->|Hne].
  - rewrite lookup_insert, decide_True by done.
    rewrite (not_elem_of_list_to_map_1 (M := gmap ActorID)) by done.
    unfold write_entry; simpl. destruct (dirty e), (actor e); simpl; by simplify_map_eq.
  - rewrite lookup_insert_ne by done.
    assert (write_entry m (j, e) !! actor_key id = m !! actor_key id) as ->; [|done].
    assert (actor_key j ≠ actor_key id) by (intros Hk%actor_key_inj; done).
    unfold write_entry; simpl. destruct (dirty e), (actor e); by simplify_map_eq.
Qed.

(** What a flush writes to the HAMT. *)
Definition flushed m (t : StateTree) : gmap bytes ActorState :=
  foldl write_entry m (map_to_list (hm_map (actor_cache t))).

(** The keys a flush may have to tell apart. *)
Definition flush_keys m (t : StateTree) : gset bytes :=
  list_to_set (actor_key <$> (map_to_list (hm_map (actor_cache t))).*1) ∪ dom m.

Definition cached_ids_ok (t : StateTree) : Prop :=
  ∀ id e, hm_map (actor_cache t) !! id = Some e → in_u64 id.

Lemma flushed_lookup m t id :
  cache_ok m (actor_cache t) → cached_ids_ok t → in_u64 id → flushed m t !! actor_key id = actor_at m t id.
Proof.
  intros Hc Hids Hid. unfold flushed, actor_at, cache_at.
  rewrite foldl_write_lookup; [|apply NoDup_fst_map_to_list| |done].
  - rewrite list_to_map_to_list. destruct (hm_map (actor_cache t) !! id) as [e|] eqn:He; [|done].
    destruct (dirty e) eqn:Hd; [done|]. by rewrite (Hc id e).
  - apply Forall_forall. intros [j e] Hj%elem_of_map_to_list. simpl. by eapply Hids.
Qed.

Lemma flushed_outside m t k : k ∉ flush_keys m t → flushed m t !! k = None.
Proof.
  unfold flush_keys, flushed. generalize (map_to_list (hm_map (actor_cache t))). intros l.
  revert m. induction l as [|ie l IH]; intros m Hk; simpl; [apply not_elem_of_dom; set_solver|].
  apply IH. csimpl in Hk. pose proof (write_entry_dom m ie k) as Hd.
  rewrite !elem_of_union in *. tauto.
Qed.

(** A flush succeeds; the root holds the version, the info and the HAMT's root. *)
Lemma flush_run m t info :
  st_inv m t → layers t = [] → st_version t = V5 → st_info t = Some info →
  hamt_keys_ok (V := ActorState) (flush_keys m t) →
  ∃ c bz t', st_flush t = (Ok (block_cid DAG_CBOR BLAKE2B_256 bz), t') ∧
    to_vec (mkStateRoot V5 c info) = Ok bz ∧
    store_ok (st_store t') ∧ store_le (st_store t) (st_store t') ∧ hamt_stored (st_store t') c (flushed m t) ∧
    get_cbor (st_store t') (block_cid DAG_CBOR BLAKE2B_256 bz) = Ok (Some (mkStateRoot V5 c info)).
Proof.
  intros (Hs & Hr & Hc) Hl Hv Hi Hk.
  destruct (flush_entries_spec (map_to_list (hm_map (actor_cache t))) m t Hk Hs Hr)
    as (t1 & E1 & (Hs1 & Hv1 & Hi1 & Hl1) & Hr1).
  rewrite Hs1 in Hr1. destruct (hamt_rep_flush _ _ _ HT Hs Hr1) as (c & h & s2 & Ef & Hs2 & Hle2 & _ & Hr2 & Hst2).
  destruct (from_to_vec (mkStateRoot V5 c info)) as (bz & Hz & _).
  destruct (put_keyed_total s2 (block_cid DAG_CBOR BLAKE2B_256 bz) bz) as [s3 Hp].
  assert (put_cbor s2 (mkStateRoot V5 c info) BLAKE2B_256 = (Ok (block_cid DAG_CBOR BLAKE2B_256 bz), s3)) as Ep
    by (unfold put_cbor, bs_put; by rewrite Hz, Hp).
  pose proof (put_cbor_ok _ _ _ _ _ Hs2 Ep) as [Hs3 Hle3].
  pose proof (put_get_cbor _ _ _ _ _ Hs2 Ep) as Hg.
  eexists c, bz, _. split; [|split; [done|split; [|split; [|split]]]].
  - unfold st_flush, mbind, M_bind, gets, in_transaction. rewrite Hl, E1.
    unfold hamt_flush_st. rewrite Hs1, Ef. simpl. rewrite Hv1, Hv. simpl.
    unfold lift. rewrite Hi1, Hi. unfold st_write. simpl. rewrite Ep. reflexivity.
  - done.
  - simpl. by etrans.
  - by eapply (hamt_stored_mono s2).
  - exact Hg.
Qed.

(** persistence. Flushing a version-5 tree outside a transaction
    succeeds, and a tree loaded from the root it returns shows exactly the
    actors the flushed tree showed (written, deleted or untouched), whatever
    the order in which the cache is iterated. *)
Theorem flush_reload m t info
    (Hinv : st_inv m t) (Hl : layers t = []) (Hv : st_version t = V5)
    (Hi : st_info t = Some info) (Hids : cached_ids_ok t)
    (Hk : hamt_keys_ok (V := ActorState) (flush_keys m t)) :
  ∃ root t' t'', st_flush t = (Ok root, t') ∧
    st_new_from_root (st_store t') root = Ok t'' ∧
    ∀ id, in_u64 id → (get_actor id t'').1 = Ok (actor_at m t id).
Proof.
  destruct (flush_run m t info Hinv Hl Hv Hi Hk) as (c & bz & t' & E1 & _ & Hs' & _ & Hst & Hg).
  destruct (hamt_rep_load _ c _ Hs' Hst) as (h3 & Eld & Hr3).
  eexists _, t', _. split; [exact E1|]. split.
  - unfold st_new_from_root. rewrite Hg. simpl. rewrite Eld. reflexivity.
  - intros id Hid. unfold get_actor. simpl. rewrite (hamt_rep_get _ _ _ _ Hs' Hr3).
    unfold get_or_try_insert_with. simpl. rewrite lookup_empty. simpl. f_equal.
    apply flushed_lookup; [apply Hinv|done..].
Qed.

(** the state root is determined by the actors. Two trees, in whatever
    stores and with whatever histories of writes, deletions and cached reads,
    that show the same actors and have the same info flush to the same root. *)
Theorem flush_root_deterministic m1 t1 m2 t2 info
    (Hinv1 : st_inv m1 t1) (Hl1 : layers t1 = []) (Hv1 : st_version t1 = V5)
    (Hi1 : st_info t1 = Some info) (Hids1 : cached_ids_ok t1)
    (Hk1 : hamt_keys_ok (V := ActorState) (flush_keys m1 t1))
    (Hinv2 : st_inv m2 t2) (Hl2 : layers t2 = []) (Hv2 : st_version t2 = V5)
    (Hi2 : st_info t2 = Some info) (Hids2 : cached_ids_ok t2)
    (Hk2 : hamt_keys_ok (V := ActorState) (flush_keys m2 t2))
    (Hkeys : ∀ k, k ∈ dom m1 ∪ dom m2 → ∃ id, in_u64 id ∧ k = actor_key id)
    (Hsame : ∀ id, in_u64 id → actor_at m1 t1 id = actor_at m2 t2 id) :
  ∃ root t1' t2', st_flush t1 = (Ok root, t1') ∧ st_flush t2 = (Ok root, t2').
Proof.
  destruct (flush_run m1 t1 info Hinv1 Hl1 Hv1 Hi1 Hk1) as (c1 & bz1 & t1' & E1 & Hz1 & _ & _ & Hst1 & _).
  destruct (flush_run m2 t2 info Hinv2 Hl2 Hv2 Hi2 Hk2) as (c2 & bz2 & t2' & E2 & Hz2 & _ & _ & Hst2 & _).
  assert (flushed m1 t1 = flushed m2 t2) as Heq.
  { apply map_eq. intros k. destruct (decide (k ∈ flush_keys m1 t1 ∪ flush_keys m2 t2)) as [Hin|Hout].
    - assert (∃ id, in_u64 id ∧ k = actor_key id) as (id & Hid & ->).
      { unfold flush_keys in Hin. apply elem_of_union in Hin. destruct Hin as [Hin|Hin]; apply elem_of_union in Hin;
          (destruct Hin as [Hin|Hin]; [|apply Hkeys; set_solver]);
          apply elem_of_list_to_set, list_elem_of_fmap in Hin as (id & -> & Hin);
          apply list_elem_of_fmap in Hin as ([j e] & -> & Hin); apply elem_of_map_to_list in Hin;
          exists j; (split; [by eauto|done]). }
      rewrite (flushed_lookup m1), (flushed_lookup m2) by (done || apply Hinv1 || apply Hinv2). auto.
    - apply not_elem_of_union in Hout as [??]. by rewrite !flushed_outside. }
  rewrite Heq in Hst1. pose proof (hamt_stored_root _ _ _ _ _ Hst1 Hst2) as ->.
  rewrite Hz1 in Hz2. injection Hz2 as ->. eauto.
Qed.
End flush.

(** ** Addresses

    [am] is the init actor's address map, [is_] its state. A cached resolution
    repeats the map. *)

Section addresses.
Context `{ES : EnvSpec} `{HT : !StoreTotal}.
Implicit Type m : gmap bytes ActorState.

Definition init_rep m (t : StateTree) (act : ActorState) (is_ : InitState)
    (am : gmap bytes ActorID) : Prop :=
  st_inv m t ∧ actor_at m t INIT_ACTOR_ID = Some act ∧
  get_cbor (st_store t) (as_state act) = Ok (Some is_) ∧
  hamt_stored (st_store t) (address_map is_) am ∧
  ∀ b i, hm_map (resolve_cache t) !! b = Some i → addr_wf b ∧ am !! to_bytes b = Some i.

Definition is_id (a : Address) : bool := match a with ID _ => true | _ => false end.

Lemma init_load_spec m t act is_ am :
  init_rep m t act is_ am →
  ∃ c, init_load t = (Ok (is_, act), st_set_actors c t) ∧ cache_ok m c ∧
    hm_ext (actor_cache t) c ∧ ∀ j, cache_at m c j = actor_at m t j.
Proof.
  intros (Hi & Ha & Hg & _). destruct (get_actor_spec m INIT_ACTOR_ID t Hi) as (c & E1 & ?).
  exists c. split; [|done]. unfold init_load. rewrite (bind_ok _ _ _ _ _ E1), Ha.
  unfold mbind, M_bind, lift, gets. simpl. by rewrite Hg.
Qed.

Lemma init_rep_actors m t act is_ am c :
  init_rep m t act is_ am → cache_ok m c → (∀ j, cache_at m c j = actor_at m t j) →
  init_rep m (st_set_actors c t) act is_ am.
Proof.
  intros (Hi & Ha & Hg & Hst & Hr) Hc He. split_and!; try done.
  - by apply st_inv_actors.
  - unfold actor_at. simpl. by rewrite He.
Qed.

(** Resolution through the cache or through the init actor gives the same. *)
Lemma lookup_id_spec m t act is_ am a :
  init_rep m t act is_ am → addr_wf a → is_id a = false →
  ∃ t', lookup_id a t = (Ok (am !! to_bytes a), t') ∧ init_rep m t' act is_ am.
Proof.
  intros Ht Hw Hid. pose proof Ht as (Hi & Ha & Hg & Hst & Hr).
  destruct (init_load_spec _ _ _ _ _ Ht) as (c & El & Hc & Hx & He).
  pose proof (init_rep_actors _ _ _ _ _ c Ht Hc He) as Ht1.
  destruct (hamt_rep_load _ _ _ (proj1 Hi) Hst) as (h & Hld & Hh).
  assert (init_resolve_address is_ a (st_set_actors c t)
          = (Ok (am !! to_bytes a), st_set_actors c t)) as Hres.
  { pose proof (hamt_rep_get _ _ _ (to_bytes a) (proj1 Hi) Hh) as Hget.
    unfold init_resolve_address, mbind, M_bind, gets, lift.
    destruct a; try done; cbn [st_store st_set_actors]; by rewrite Hld; cbn [or_fatal]; rewrite Hget. }
  assert (lookup_id a = (cached ← gets (λ t, hm_get a (resolve_cache t));
    match cached with Some id => mret (Some id) | None => '(state, _) ← init_load;
      o ← init_resolve_address state a;
      match o with None => mret None | Some i =>
        _ ← modify (λ t, st_set_resolve (hm_insert a i (resolve_cache t)) t); mret (Some i)
      end end)) as -> by by destruct a.
  unfold gets, hm_get. rewrite (bind_ok _ _ t (hm_map (resolve_cache t) !! a) t) by done.
  destruct (hm_map (resolve_cache t) !! a) as [i|] eqn:Hca.
  { destruct (Hr a i Hca) as [_ ->]. by exists t. }
  rewrite (bind_ok _ _ _ _ _ El), (bind_ok _ _ _ _ _ Hres).
  destruct (am !! to_bytes a) as [i|] eqn:Hai; [|by eexists].
  eexists. split; [reflexivity|]. destruct Ht1 as (?&?&?&?&?). split_and!; try done.
  intros b j. simpl. rewrite lookup_hm_insert. case_decide; [|by apply Hr].
  subst. intros [= <-]. done.
Qed.

Lemma map_address_spec m t act is_ am a :
  init_rep m t act is_ am → hamt_keys_ok (V := ActorID) ({[to_bytes a]} ∪ dom am) →
  ∃ root s', map_address_to_new_id is_ a t =
    (Ok (next_id is_, mkInitState root (wrap64 (next_id is_ + 1)) (network_name is_)),
     st_set_store s' t) ∧
    store_ok s' ∧ store_le (st_store t) s' ∧ hamt_stored s' root (<[to_bytes a := next_id is_]> am).
Proof.
  intros (Hi & _ & _ & Hst & _) Hk. pose proof (proj1 Hi) as Hs.
  destruct (hamt_rep_load _ _ _ Hs Hst) as (h & Hld & Hh).
  destruct (hamt_rep_set _ _ _ (to_bytes a) (next_id is_) Hs Hh) as (h' & Hset & Hh'); [by rewrite dom_insert_L|].
  destruct (hamt_rep_flush _ _ _ HT Hs Hh') as (c & h2 & s2 & Hf & ? & ? & _ & _ & ?).
  exists c, s2. split; [|done].
  unfold map_address_to_new_id, mbind, M_bind, gets, lift, st_write. simpl.
  rewrite Hld. simpl. rewrite Hset. simpl. by rewrite Hf.
Qed.

(** What registration does to every part of the tree. *)
Lemma register_spec m t act is_ am a :
  init_rep m t act is_ am → addr_wf a → hamt_keys_ok (V := ActorID) ({[to_bytes a]} ∪ dom am) →
  ∃ t' c root, register_new_address a t = (Ok (next_id is_), t') ∧
    init_rep m t' (as_set_state c act)
      (mkInitState root (wrap64 (next_id is_ + 1)) (network_name is_))
      (<[to_bytes a := next_id is_]> am) ∧
    ∀ j, j ≠ INIT_ACTOR_ID → actor_at m t' j = actor_at m t j.
Proof.
  intros Ht Hw Hk. destruct (init_load_spec _ _ _ _ _ Ht) as (c & El & Hc & _ & He).
  pose proof (init_rep_actors _ _ _ _ _ c Ht Hc He) as Ht1.
  destruct (map_address_spec _ _ _ _ _ a Ht1 Hk) as (root & s1 & Em & Hs1 & Hle1 & Hst1).
  set (is' := mkInitState _ _ _) in Em.
  destruct (from_to_vec is') as (bz & Hz & _).
  destruct (put_keyed_total s1 (block_cid DAG_CBOR BLAKE2B_256 bz) bz) as [s2 Hp].
  assert (put_cbor s1 is' BLAKE2B_256 = (Ok (block_cid DAG_CBOR BLAKE2B_256 bz), s2)) as Ep.
  { unfold put_cbor, bs_put. by rewrite Hz, Hp. }
  pose proof (put_cbor_ok _ _ _ _ _ Hs1 Ep) as [Hs2 Hle2].
  pose proof (put_get_cbor _ _ _ _ _ Hs1 Ep) as Hg2.
  eexists _, _, root. split; [|split].
  - unfold register_new_address. rewrite (bind_ok _ _ _ _ _ El), (bind_ok _ _ _ _ _ Em).
    unfold mbind, M_bind, st_write. simpl. rewrite Ep. reflexivity.
  - destruct Ht1 as (Hi & Ha & Hg & Hst & Hr). simpl in *. split_and!.
    + apply st_inv_resolve, (st_inv_actors m _ (st_set_store s2 (st_set_actors c t))).
      * apply st_inv_store; [done..|]. by etrans.
      * by apply cache_ok_insert.
    + unfold actor_at. simpl. by rewrite cache_at_insert, decide_True.
    + done.
    + simpl. by eapply (hamt_stored_mono s1).
    + intros b i. simpl. rewrite lookup_hm_insert. case_decide as Hab.
      * intros [= <-]. subst. by simplify_map_eq.
      * intros Hb. destruct (Hr b i Hb) as [Hbw Hbi]. split; [done|].
        rewrite lookup_insert_ne; [done|]. by intros Hx%to_bytes_inj.
  - intros j Hj. unfold actor_at. simpl. rewrite cache_at_insert, decide_False by done. apply He.
Qed.

(** address registration. On a tree whose init actor is in order,
    registering an address assigns it the init actor's next id, and afterwards
    resolving any non-ID address (through the cache or through the init actor's
    map) gives the new id for that address and what it gave before for every
    other one; no other actor changes and the init actor keeps its balance,
    code and nonce. *)
Theorem register_then_lookup m t act is_ am a b
    (Hrep : init_rep m t act is_ am) (Ha : addr_wf a) (Hb : addr_wf b) (Hid : is_id b = false)
    (Hk : hamt_keys_ok (V := ActorID) ({[to_bytes a]} ∪ dom am)) :
  ∃ t' t'', register_new_address a t = (Ok (next_id is_), t') ∧
    lookup_id b t' = (Ok (if decide (a = b) then Some (next_id is_) else am !! to_bytes b), t'') ∧
    (∀ j, j ≠ INIT_ACTOR_ID → actor_at m t' j = actor_at m t j) ∧
    ∃ c, actor_at m t' INIT_ACTOR_ID = Some (as_set_state c act).
Proof.
  destruct (register_spec _ _ _ _ _ a Hrep Ha Hk) as (t' & c & root & Er & Hrep' & Hj).
  destruct (lookup_id_spec _ _ _ _ _ b Hrep' Hb Hid) as (t'' & El & _).
  exists t', t''. split_and!; [done| |done|exists c; by apply Hrep'].
  rewrite El. do 2 f_equal. case_decide as Hab; [by subst; simplify_map_eq|].
  rewrite lookup_insert_ne; [done|]. by intros Hx%to_bytes_inj.
Qed.
End addresses.
