(* ===== verification/Access.v ===== *)
(** * State-access tracking (fvm/src/call_manager/state_access_tracker.rs)

    Which actors and addresses the message has already been charged for. Like
    the state tree, the tracker is transactional: a reverted call is charged
    again. *)

From S2P Require Import Prelude Effects Gas PriceList Address HistoryMap.
From stdpp Require Import gmap strings list fin_maps.
From Stdlib Require Import ZArith Lia.
#[local] Open Scope Z_scope.

(** [Option<ActorAccessState>] is ordered [None < Some(Read) < Some(Updated)]. *)
Inductive ActorAccessState := Read | Updated.
#[export] Instance ActorAccessState_eq_dec : EqDecision ActorAccessState.
Proof. solve_decision. Defined.

Record StateAccessLayer := mkAccessLayer { addresses_height : nat; actors_height : nat }.

Record StateAccessTracker := mkTracker {
  acc_actors : HistoryMap ActorID ActorAccessState;
  acc_addresses : HistoryMap Address unit;
  acc_layers : list StateAccessLayer;
}.

Definition tracker_new (preload_actors : list ActorID) : StateAccessTracker :=
  mkTracker (hm_from_iter ((λ id, (id, Updated)) <$> preload_actors)) hm_default [].

Definition acc_begin (t : StateAccessTracker) : StateAccessTracker :=
  mkTracker (acc_actors t) (acc_addresses t)
    (mkAccessLayer (history_len (acc_addresses t)) (history_len (acc_actors t)) :: acc_layers t).

Definition acc_end (revert : bool) : M StateAccessTracker unit := λ t,
  match acc_layers t with
  | [] => (Err (Fatal "state access tracker not in a transaction"), t)
  | layer :: rest =>
      if revert
      then (Ok tt, mkTracker (rollback (actors_height layer) (acc_actors t))
                     (rollback (addresses_height layer) (acc_addresses t)) rest)
      else (Ok tt, mkTracker (acc_actors t) (acc_addresses t) rest)
  end.

Definition get_actor_access_state (id : ActorID) (t : StateAccessTracker) : option ActorAccessState :=
  hm_get id (acc_actors t).

(** [access < Some(Read)] and [access < Some(Updated)]. *)
Definition lt_read (a : option ActorAccessState) : bool :=
  match a with None => true | Some _ => false end.
Definition lt_updated (a : option ActorAccessState) : bool :=
  match a with Some Updated => false | _ => true end.

Definition record_actor_read (id : ActorID) (t : StateAccessTracker) : StateAccessTracker :=
  match hm_get id (acc_actors t) with
  | None => mkTracker (hm_insert id Read (acc_actors t)) (acc_addresses t) (acc_layers t)
  | Some _ => t
  end.

Definition record_actor_update (id : ActorID) (t : StateAccessTracker) : StateAccessTracker :=
  mkTracker (hm_insert id Updated (acc_actors t)) (acc_addresses t) (acc_layers t).

Definition is_id_address (a : Address) : bool :=
  match protocol a with PID => true | _ => false end.

Definition get_address_lookup_state (a : Address) (t : StateAccessTracker) : bool :=
  is_id_address a || match hm_get a (acc_addresses t) with Some _ => true | None => false end.

Definition record_lookup_address (a : Address) (t : StateAccessTracker) : StateAccessTracker :=
  if is_id_address a then t
  else mkTracker (acc_actors t) (hm_insert a tt (acc_addresses t)) (acc_layers t).

(** ** Frames *)

Definition acc_ext (t t' : StateAccessTracker) : Prop :=
  acc_layers t' = acc_layers t ∧ hm_ext (acc_actors t) (acc_actors t') ∧
  hm_ext (acc_addresses t) (acc_addresses t').

#[export] Instance acc_ext_preorder : PreOrder acc_ext.
Proof.
  split; [by intros t|]. intros a b c (Hl1&?&?) (Hl2&?&?).
  split_and!; [congruence|by etrans|by etrans].
Qed.

Lemma acc_ext_read id t : acc_ext t (record_actor_read id t).
Proof.
  unfold record_actor_read. destruct (hm_get _ _); [done|].
  split_and!; try done. apply hm_ext_insert.
Qed.
Lemma acc_ext_update id t : acc_ext t (record_actor_update id t).
Proof. split_and!; try done. apply hm_ext_insert. Qed.
Lemma acc_ext_lookup a t : acc_ext t (record_lookup_address a t).
Proof.
  unfold record_lookup_address. case_match; [done|].
  split_and!; try done. apply hm_ext_insert.
Qed.

Lemma acc_end_frame revert t t1 :
  acc_ext (acc_begin t) t1 →
  ∃ t2, acc_end revert t1 = (Ok tt, t2) ∧ acc_ext t t2 ∧ (revert = true → t2 = t).
Proof.
  intros (Hl & Ha & Hd). simpl in *. unfold acc_end. rewrite Hl. simpl.
  rewrite (rollback_ext _ _ Ha : rollback (history_len (acc_actors t)) _ = _).
  rewrite (rollback_ext _ _ Hd : rollback (history_len (acc_addresses t)) _ = _).
  destruct revert; eexists; (split; [done|]); split; try done. by destruct t.
Qed.
