(* ===== verification/Blocks.v ===== *)
(** * The block registry (fvm/src/kernel/blocks.rs)

    Each invocation owns a registry: the blocks an actor has opened or created,
    under handles 1, 2, ..., and the set of CIDs it may refer to. *)

From S2P Require Import Prelude Effects Gas PriceList Address Types.
From stdpp Require Import gmap strings list fin_maps.
From Stdlib Require Import ZArith Lia.
#[local] Open Scope Z_scope.

Record Block := mkBlock { blk_codec : Z; blk_data : bytes; blk_links : list Cid }.

Record BlockRegistry := mkRegistry { br_blocks : list Block; br_reachable : gset Cid }.

Definition FIRST_ID : Z := 1.
Definition MAX_BLOCKS : Z := i32_max.
Definition NO_DATA_BLOCK_ID : Z := 0.

(** [data.len() as u32]. *)
Definition blk_size (b : Block) : Z := wrap32 (Z.of_nat (length (blk_data b))).
Definition BlockStat : Type := Z * Z.
Definition blk_stat (b : Block) : BlockStat := (blk_codec b, blk_size b).

Definition registry_new : BlockRegistry := mkRegistry [] ∅.

Definition br_len (r : BlockRegistry) : Z := wrap32 (Z.of_nat (length (br_blocks r))).
Definition is_full (r : BlockRegistry) : bool := br_len r =? MAX_BLOCKS.

Definition mark_reachable (k : Cid) (r : BlockRegistry) : BlockRegistry :=
  mkRegistry (br_blocks r) ({[k]} ∪ br_reachable r).
Definition is_reachable (k : Cid) (r : BlockRegistry) : bool := bool_decide (k ∈ br_reachable r).

Definition put_inner (block : Block) (check_reachable : bool) : M BlockRegistry BlockId := λ r,
  if is_full r then (Err (syscall_error LimitExceeded "too many blocks"), r) else
  let push r := (Ok (wrap32 (FIRST_ID + br_len r)),
                 mkRegistry (br_blocks r ++ [block]) (br_reachable r)) in
  if check_reachable
  then match List.find (λ k, negb (is_reachable k r)) (blk_links block) with
       | Some _ => (Err (syscall_error NotFound "cannot put block: {k} not reachable"), r)
       | None => push r
       end
  else push (foldl (λ r k, mark_reachable k r) r (blk_links block)).

Definition put_reachable (block : Block) : M BlockRegistry BlockId := put_inner block false.
Definition put_check_reachable (block : Block) : M BlockRegistry BlockId := put_inner block true.

Definition br_get (id : BlockId) (r : BlockRegistry) : Result Block :=
  if id <? FIRST_ID then Err (syscall_error InvalidHandle "invalid block handle {id}")
  else ok_or (br_blocks r !! Z.to_nat (id - FIRST_ID))
         (syscall_error InvalidHandle "invalid block handle {id}").

Definition br_stat (id : BlockId) (r : BlockRegistry) : Result BlockStat :=
  if id <? FIRST_ID then Err (syscall_error InvalidHandle "invalid block handle {id}")
  else match ok_or (br_blocks r !! Z.to_nat (id - FIRST_ID))
               (syscall_error InvalidHandle "invalid block handle {id}") with
       | Ok b => Ok (blk_stat b)
       | Err e => Err e
       end.

(** ** Invariant: closed under links, at most [MAX_BLOCKS] blocks *)

Definition br_ok (r : BlockRegistry) : Prop :=
  Z.of_nat (length (br_blocks r)) ≤ MAX_BLOCKS ∧
  Forall (λ b, Forall (λ k, k ∈ br_reachable r) (blk_links b)) (br_blocks r).

Lemma br_len_eq r : br_ok r → br_len r = Z.of_nat (length (br_blocks r)).
Proof. intros [H _]. unfold br_len. apply wrap32_small. unfold MAX_BLOCKS in H. mlia. Qed.

Lemma registry_new_ok : br_ok registry_new.
Proof. split; [simpl; unfold MAX_BLOCKS; mlia|constructor]. Qed.

Lemma foldl_mark_blocks ks r : br_blocks (foldl (λ r k, mark_reachable k r) r ks) = br_blocks r.
Proof. revert r. induction ks as [|k ks IH]; intros r; simpl; [done|]. by rewrite IH. Qed.
Lemma foldl_mark_reachable ks r k :
  k ∈ br_reachable (foldl (λ r k, mark_reachable k r) r ks) ↔ k ∈ ks ∨ k ∈ br_reachable r.
Proof.
  revert r. induction ks as [|k' ks IH]; intros r; simpl; [set_solver|].
  rewrite IH. simpl. set_solver.
Qed.

Lemma mark_reachable_ok k r : br_ok r → br_ok (mark_reachable k r).
Proof.
  intros [? Hf]. split; [done|]. simpl. eapply Forall_impl; [exact Hf|].
  simpl. intros b Hb. eapply Forall_impl; [exact Hb|]. set_solver.
Qed.
Lemma foldl_mark_ok ks r : br_ok r → br_ok (foldl (λ r k, mark_reachable k r) r ks).
Proof. revert r. induction ks; intros r Hr; simpl; [done|]. auto using mark_reachable_ok. Qed.

(** Appending a block whose links are reachable. *)
Lemma push_block_ok b r :
  br_ok r → is_full r = false → Forall (λ k, k ∈ br_reachable r) (blk_links b) →
  br_ok (mkRegistry (br_blocks r ++ [b]) (br_reachable r)) ∧
  wrap32 (FIRST_ID + br_len r) = FIRST_ID + Z.of_nat (length (br_blocks r)).
Proof.
  intros Hr Hfull Hb. unfold is_full in Hfull. rewrite (br_len_eq _ Hr) in *. apply Z.eqb_neq in Hfull.
  destruct Hr as [Hlen Hf]. unfold MAX_BLOCKS in *. split.
  - split; simpl; [rewrite length_app; simpl; unfold MAX_BLOCKS; lia|].
    apply Forall_app. split; [done|]. by constructor.
  - apply wrap32_small. unfold FIRST_ID. mlia.
Qed.

Lemma put_inner_spec b check r :
  br_ok r →
  match put_inner b check r with
  | (Ok id, r') =>
      id = FIRST_ID + Z.of_nat (length (br_blocks r)) ∧ br_ok r' ∧
      br_blocks r' = br_blocks r ++ [b] ∧
      (∀ k, k ∈ br_reachable r' ↔ k ∈ br_reachable r ∨ check = false ∧ k ∈ blk_links b) ∧
      (check = true → Forall (λ k, k ∈ br_reachable r) (blk_links b))
  | (Err e, r') => r' = r ∧
      (is_full r = true ∨ check = true ∧ ∃ k, k ∈ blk_links b ∧ k ∉ br_reachable r)
  end.
Proof.
  intros Hr. unfold put_inner. destruct (is_full r) eqn:Hfull; [by auto|]. destruct check.
  - destruct (List.find _ _) as [k|] eqn:Hfind.
    + apply List.find_some in Hfind as [Hin Hk]. split; [done|]. right. split; [done|].
      exists k. unfold is_reachable in Hk. case_bool_decide; [done|]. by rewrite list_elem_of_In.
    + assert (Forall (λ k, k ∈ br_reachable r) (blk_links b)) as Hall.
      { apply Forall_forall. intros k Hk.
        pose proof (List.find_none _ _ Hfind k) as Hn. rewrite <-list_elem_of_In in Hn. specialize (Hn Hk).
        unfold is_reachable in Hn. by case_bool_decide. }
      destruct (push_block_ok b r Hr Hfull Hall) as [? ->]. split_and!; try done.
      simpl. naive_solver.
  - set (r0 := foldl _ r _). assert (br_ok r0) as Hr0 by by apply foldl_mark_ok.
    assert (br_blocks r0 = br_blocks r) as Eb by apply foldl_mark_blocks.
    assert (is_full r0 = false) as Hf0 by (unfold is_full, br_len in *; by rewrite Eb).
    assert (Forall (λ k, k ∈ br_reachable r0) (blk_links b)) as Hall.
    { apply Forall_forall. intros k Hk. unfold r0. apply foldl_mark_reachable. by left. }
    destruct (push_block_ok b r0 Hr0 Hf0 Hall) as [? ->]. simpl. rewrite Eb in *. split_and!; try done.
    intros k. unfold r0. rewrite foldl_mark_reachable. naive_solver.
Qed.

Lemma put_inner_get b check r (Hok : br_ok r) :
  match put_inner b check r with
  | (Ok id, r') =>
      br_ok r' ∧ id ≠ NO_DATA_BLOCK_ID ∧ (∃ e, br_get id r = Err e) ∧ br_get id r' = Ok b ∧
      (∀ j b', br_get j r = Ok b' → br_get j r' = Ok b')
  | (Err _, r') => r' = r
  end.
Proof.
  pose proof (put_inner_spec b check r Hok) as Hs.
  destruct (put_inner b check r) as [[id|e] r']; [|by destruct Hs].
  destruct Hs as (-> & ? & Hb & _). unfold br_get. rewrite Hb.
  replace (FIRST_ID + Z.of_nat (length (br_blocks r)) - FIRST_ID)
    with (Z.of_nat (length (br_blocks r))) by lia.
  rewrite Nat2Z.id. split_and!; [done|unfold FIRST_ID, NO_DATA_BLOCK_ID; lia| | |].
  - case_tests; [by eexists|]. rewrite (proj2 (lookup_ge_None _ _)) by lia. by eexists.
  - case_tests; [unfold FIRST_ID in *; lia|]. by rewrite lookup_app_r, Nat.sub_diag.
  - intros j b'. case_tests; [done|].
    destruct (br_blocks r !! Z.to_nat (j - FIRST_ID)) as [b0|] eqn:E; [|done].
    by rewrite (lookup_app_l_Some _ _ _ _ E).
Qed.

(** Block handles. In a registry reached by puts, a put either leaves the
    registry untouched (it is full, or the block links to a CID the actor cannot
    reach) or returns a fresh non-zero handle under which exactly that block is
    read back, keeps every earlier handle, and keeps the registry closed: every
    link of every block is reachable. *)
Theorem put_get_block b check r (Hok : br_ok r) :
  match put_inner b check r with
  | (Ok id, r') =>
      br_ok r' ∧ id ≠ NO_DATA_BLOCK_ID ∧ (∃ e, br_get id r = Err e) ∧ br_get id r' = Ok b ∧
      (∀ j b', br_get j r = Ok b' → br_get j r' = Ok b')
  | (Err _, r') => r' = r
  end.
Proof. by apply put_inner_get. Qed.

Lemma put_get_block_witness :
  let b := mkBlock DAG_CBOR [1] [EMPTY_ARR_CID] in
  br_get 1 (put_inner b false registry_new).2 = Ok b.
Proof.
  intros b. pose proof (put_get_block b false registry_new registry_new_ok) as H.
  vm_compute in H |- *. destruct H as (_ & _ & _ & H & _). exact H.
Defined.
