(* ===== verification/Machine.v ===== *)
(** * The machine around a message

    Network and epoch context (fvm/src/machine/mod.rs), the memory limiter
    (machine/limiter.rs), the builtin-actors manifest (machine/manifest.rs), the
    events accumulator (call_manager/default.rs), error backtraces
    (call_manager/backtrace.rs) and execution traces (trace/mod.rs). *)

From S2P Require Import Prelude Effects Gas PriceList Address HistoryMap Types StateTree.
From S2P Require Import Blocks.
From stdpp Require Import gmap strings list fin_maps.
From Stdlib Require Import ZArith Lia.
#[local] Open Scope Z_scope.

Record NetworkConfig := mkNetworkConfig {
  network_version : Z;
  chain_id : Z;
  max_call_depth : Z;
  max_wasm_stack : Z;
  max_inst_memory_bytes : Z;
  max_memory_bytes : Z;
  max_block_size : Z;
  builtin_actors_override : option Cid;
  actor_debugging : bool;
  price_list : PriceList;
  actor_redirect : list (Cid * Cid);
}.

(** [NetworkConfig::new]. The price list is unknown (a panic) below version 21. *)
Definition NetworkConfig_new (nv : Z) : option NetworkConfig :=
  pl ← price_list_by_network_version nv;
  Some (mkNetworkConfig nv 0 1024 2048 (512 * 2 ^ 20) (2 * 2 ^ 30) (2 ^ 20) None false pl []).

Record MachineContext := mkMachineContext {
  mc_network : NetworkConfig;
  mc_epoch : Z;
  mc_timestamp : Z;
  mc_base_fee : TokenAmount;
  mc_initial_state_root : Cid;
  mc_circ_supply : TokenAmount;
  mc_tracing : bool;
}.

Definition TOTAL_FILECOIN : TokenAmount := 2000000000 * 10 ^ 18.

Definition for_epoch (n : NetworkConfig) (epoch timestamp : Z) (root : Cid) : MachineContext :=
  mkMachineContext n epoch timestamp 0 root TOTAL_FILECOIN false.

(** The setters of both records. *)
Definition enable_actor_debugging (n : NetworkConfig) : NetworkConfig :=
  mkNetworkConfig (network_version n) (chain_id n) (max_call_depth n) (max_wasm_stack n) (max_inst_memory_bytes n)
    (max_memory_bytes n) (max_block_size n) (builtin_actors_override n) true (price_list n) (actor_redirect n).
Definition override_actors (manifest : Cid) (n : NetworkConfig) : NetworkConfig :=
  mkNetworkConfig (network_version n) (chain_id n) (max_call_depth n) (max_wasm_stack n) (max_inst_memory_bytes n)
    (max_memory_bytes n) (max_block_size n) (Some manifest) (actor_debugging n) (price_list n) (actor_redirect n).
Definition redirect_actors (redirect : list (Cid * Cid)) (n : NetworkConfig) : NetworkConfig :=
  mkNetworkConfig (network_version n) (chain_id n) (max_call_depth n) (max_wasm_stack n) (max_inst_memory_bytes n)
    (max_memory_bytes n) (max_block_size n) (builtin_actors_override n) (actor_debugging n) (price_list n) redirect.
Definition set_chain_id (id : Z) (n : NetworkConfig) : NetworkConfig :=
  mkNetworkConfig (network_version n) id (max_call_depth n) (max_wasm_stack n) (max_inst_memory_bytes n)
    (max_memory_bytes n) (max_block_size n) (builtin_actors_override n) (actor_debugging n) (price_list n) (actor_redirect n).

Definition set_base_fee (amt : TokenAmount) (c : MachineContext) : MachineContext :=
  mkMachineContext (mc_network c) (mc_epoch c) (mc_timestamp c) amt (mc_initial_state_root c) (mc_circ_supply c) (mc_tracing c).
Definition set_epoch (epoch : Z) (c : MachineContext) : MachineContext :=
  mkMachineContext (mc_network c) epoch (mc_timestamp c) (mc_base_fee c) (mc_initial_state_root c) (mc_circ_supply c) (mc_tracing c).
Definition set_circulating_supply (amt : TokenAmount) (c : MachineContext) : MachineContext :=
  mkMachineContext (mc_network c) (mc_epoch c) (mc_timestamp c) (mc_base_fee c) (mc_initial_state_root c) amt (mc_tracing c).
Definition enable_tracing (c : MachineContext) : MachineContext :=
  mkMachineContext (mc_network c) (mc_epoch c) (mc_timestamp c) (mc_base_fee c) (mc_initial_state_root c) (mc_circ_supply c) true.

(** ** DefaultMemoryLimiter *)

Record MemoryLimiter := mkLimiter { lim_max : Z; lim_curr : Z }.

Definition limiter_for_network (n : NetworkConfig) : MemoryLimiter :=
  mkLimiter (max_memory_bytes n) 0.

Definition grow_memory (bytes : Z) (l : MemoryLimiter) : bool * MemoryLimiter :=
  let total_desired := sat_add (lim_curr l) bytes in
  if lim_max l <? total_desired then (false, l)
  else (true, mkLimiter (lim_max l) total_desired).

Definition grow_instance_memory (from to : Z) (l : MemoryLimiter) : bool * MemoryLimiter :=
  grow_memory (sat_sub to from) l.

(** [u32] arithmetic: eight bytes per table element. *)
Definition grow_instance_table (from to : Z) (l : MemoryLimiter) : bool * MemoryLimiter :=
  grow_memory (Z.min (Z.max (to - from) 0 * 8) u32_max) l.

(** [with_stack_frame]: the frame's memory is returned when it is left. *)
Definition limiter_with_stack_frame {S A} (get : S → MemoryLimiter) (set : MemoryLimiter → S → S)
    (f : M S A) : M S A := λ s,
  let memory_bytes := lim_curr (get s) in
  let '(r, s') := f s in
  (r, set (mkLimiter (lim_max (get s')) memory_bytes) s').

(** A limit of exactly [usize::MAX] would never refuse, because of saturation. *)
Definition lim_ok (l : MemoryLimiter) : Prop := 0 ≤ lim_curr l ≤ lim_max l ∧ lim_max l < u64_max.

Lemma grow_memory_spec b l :
  lim_ok l → 0 ≤ b →
  grow_memory b l =
    if decide (lim_curr l + b ≤ lim_max l)
    then (true, mkLimiter (lim_max l) (lim_curr l + b)) else (false, l).
Proof.
  intros [Hc Hm] Hb. unfold grow_memory, sat_add.
  destruct (Z.ltb_spec (lim_max l) (Z.min (lim_curr l + b) u64_max)); case_decide; try done; try lia.
  do 2 f_equal. lia.
Qed.

(** A limiter never exceeds its maximum, which never changes. *)
Definition lim_le (l l' : MemoryLimiter) : Prop :=
  lim_max l' = lim_max l ∧ (lim_ok l → lim_ok l').
#[export] Instance lim_le_preorder : PreOrder lim_le.
Proof. split; [by intros l|]. intros a b c [? ?] [? ?]. split; [congruence|auto]. Qed.

Lemma lim_le_grow b l : 0 ≤ b → lim_le l (grow_memory b l).2.
Proof.
  intros Hb. split; [by unfold grow_memory; case_match|].
  intros Hl. rewrite grow_memory_spec by done. case_decide; [|done].
  destruct Hl as [? ?]. unfold lim_ok; simpl. lia.
Qed.
Lemma lim_le_grow_instance from to l : lim_le l (grow_instance_memory from to l).2.
Proof. apply lim_le_grow. mlia. Qed.
Lemma lim_le_grow_table from to l : lim_le l (grow_instance_table from to l).2.
Proof. apply lim_le_grow. mlia. Qed.

(** ** Builtin-actors manifest *)

Record Manifest := mkManifest {
  account_code : Cid;
  placeholder_code : Cid;
  system_code : Cid;
  init_code : Cid;
  eam_code : Cid;
  ethaccount_code : Cid;
  by_id : gmap Z Cid;
  by_code : gmap Cid Z;
}.

(** The loop over [iter.zip(1u32..)], counting from [id]. *)
Fixpoint manifest_index (id : Z) (l : list (string * Cid))
    (acc : gmap string Cid * gmap Z Cid * gmap Cid Z) : gmap string Cid * gmap Z Cid * gmap Cid Z :=
  match l with
  | [] => acc
  | (name, code) :: l =>
      let '(by_name, by_id, by_code) := acc in
      manifest_index (id + 1) l (<[name := code]> by_name, <[id := code]> by_id, <[code := id]> by_code)
  end.

Definition Manifest_new (l : list (string * Cid)) : result string Manifest :=
  let '(by_name, by_id, by_code) := manifest_index 1 l (∅, ∅, ∅) in
  match by_name !! "account"%string with None => Err "manifest missing account actor" | Some account =>
  match by_name !! "system"%string with None => Err "manifest missing system actor" | Some system =>
  match by_name !! "init"%string with None => Err "manifest missing init actor" | Some init =>
  match by_name !! "placeholder"%string with None => Err "manifest missing placeholder actor" | Some placeholder =>
  match by_name !! "eam"%string with None => Err "manifest missing eam actor" | Some eam =>
  match by_name !! "ethaccount"%string with None => Err "manifest missing ethaccount actor" | Some ethaccount =>
  Ok (mkManifest account placeholder system init eam ethaccount by_id by_code)
  end end end end end end.

Definition code_by_id (m : Manifest) (id : Z) : option Cid := by_id m !! id.
Definition id_by_code (m : Manifest) (code : Cid) : Z := default 0 (by_code m !! code).
Definition is_account_actor (m : Manifest) (c : Cid) : bool := bool_decide (account_code m = c).
Definition is_placeholder_actor (m : Manifest) (c : Cid) : bool := bool_decide (placeholder_code m = c).
Definition is_ethaccount_actor (m : Manifest) (c : Cid) : bool := bool_decide (ethaccount_code m = c).

(** Both indexes describe the list: position [i] (from 1) holds the code, and a
    code's id is the last position it occurs at. *)
Lemma manifest_index_by_id id l acc i :
  id ≤ i → (∀ j, id ≤ j → acc.1.2 !! j = None) →
  (manifest_index id l acc).1.2 !! i = (l !! Z.to_nat (i - id)) ≫= λ p, Some p.2.
Proof.
  revert id acc. induction l as [|[n c] l IH]; intros id [[bn bi] bc] Hi Hacc; simpl in *.
  - by rewrite Hacc.
  - destruct (decide (i = id)) as [->|Hne].
    + rewrite Z.sub_diag. simpl.
      assert (∀ l id' acc, id < id' → acc.1.2 !! id = Some c →
        (manifest_index id' l acc).1.2 !! id = Some c) as Hkeep.
      { clear. intros l. induction l as [|[n' c'] l IH]; intros id' [[bn bi] bc] Hlt Hl; simpl in *; [done|].
        apply IH; [lia|]. simpl. by rewrite lookup_insert_ne by lia. }
      apply Hkeep; [lia|]. simpl. by rewrite lookup_insert_eq.
    + rewrite IH; [|lia|].
      * replace (Z.to_nat (i - id)) with (S (Z.to_nat (i - (id + 1)))) by lia. done.
      * intros j Hj. simpl. rewrite lookup_insert_ne by lia. apply Hacc. lia.
Qed.

Lemma manifest_index_by_code id l acc c i :
  NoDup l.*2 → acc.2 !! c = None →
  (manifest_index id l acc).2 !! c = Some i ↔ id ≤ i ∧ l.*2 !! Z.to_nat (i - id) = Some c.
Proof.
  revert id acc. induction l as [|[n c'] l IH]; intros id [[bn bi] bc] Hnd Hacc; simpl in *.
  - rewrite Hacc. naive_solver.
  - apply NoDup_cons in Hnd as [Hnotin Hnd]. destruct (decide (c' = c)) as [->|Hne].
    + assert (∀ l id' acc, c ∉ l.*2 → acc.2 !! c = Some id →
        (manifest_index id' l acc).2 !! c = Some id) as Hkeep.
      { clear. intros l. induction l as [|[n' c'] l IH]; intros id' [[bn bi] bc] Hni Hl; simpl in *; [done|].
        apply not_elem_of_cons in Hni as [? ?]. apply IH; [done|]. simpl. by rewrite lookup_insert_ne. }
      rewrite Hkeep; [|done|simpl; by rewrite lookup_insert_eq]. split.
      * intros [= <-]. rewrite Z.sub_diag. done.
      * intros [Hle Hl]. destruct (Z.to_nat (i - id)) as [|k] eqn:Ek; [f_equal; lia|].
        simpl in Hl. by apply list_elem_of_lookup_2 in Hl.
    + rewrite IH; [|done|simpl; by rewrite lookup_insert_ne]. split; intros [Hle Hl].
      * split; [lia|]. replace (Z.to_nat (i - id)) with (S (Z.to_nat (i - (id + 1)))) by lia. done.
      * destruct (Z.to_nat (i - id)) as [|k] eqn:Ek; [simpl in Hl; congruence|].
        split; [lia|]. replace (Z.to_nat (i - (id + 1))) with k by lia. done.
Qed.

(** manifest. For a manifest with distinct codes, ids and codes index
    each other: [code_by_id i = c] exactly when [c] is the [i]-th entry counted
    from 1, [id_by_code] inverts it, and every other code gets the reserved
    id 0. *)
Theorem manifest_indexes l mf (Hnew : Manifest_new l = Ok mf) (Hnd : NoDup l.*2) :
  (∀ i c, 1 ≤ i → (code_by_id mf i = Some c ↔ l.*2 !! Z.to_nat (i - 1) = Some c)) ∧
  (∀ i c, 1 ≤ i → (code_by_id mf i = Some c ↔ id_by_code mf c = i)) ∧
  (∀ c, c ∉ l.*2 → id_by_code mf c = 0).
Proof.
  pose proof (λ i Hi, manifest_index_by_id 1 l (∅, ∅, ∅) i Hi (λ j _, lookup_empty j)) as H1.
  pose proof (λ c i, manifest_index_by_code 1 l (∅, ∅, ∅) c i Hnd (lookup_empty c)) as H2.
  unfold Manifest_new in Hnew. destruct (manifest_index 1 l (∅, ∅, ∅)) as [[bn bi] bc].
  repeat case_match; simplify_eq. unfold code_by_id, id_by_code. simpl in *.
  clear - H1 H2 Hnd.
  assert (∀ i c, 1 ≤ i → bi !! i = Some c ↔ l.*2 !! Z.to_nat (i - 1) = Some c) as Hid.
  { intros i c Hi. rewrite H1, list_lookup_fmap by done.
    destruct (l !! Z.to_nat (i - 1)) as [[]|]; simpl; naive_solver. }
  split_and!; [done| |].
  - intros i c Hi. rewrite Hid by done. destruct (bc !! c) as [j|] eqn:Ej; simpl.
    + pose proof (proj1 (H2 c j) Ej) as [Hj Hlj]. split; [|by intros ->].
      intros Hl. pose proof (NoDup_lookup _ _ _ _ Hnd Hl Hlj). lia.
    + split; [|lia]. intros Hl. by rewrite (proj2 (H2 c i) (conj Hi Hl)) in Ej.
  - intros c Hc. destruct (bc !! c) as [j|] eqn:Ej; [|done].
    apply H2 in Ej as [_ Ej]. by apply list_elem_of_lookup_2 in Ej.
Qed.

Lemma manifest_indexes_witness :
  let code n := mkCid IPLD_RAW 0 [n] in
  let l := [("system", code 1); ("init", code 2); ("eam", code 3); ("ethaccount", code 4);
            ("account", code 5); ("placeholder", code 6)]%string in
  ∃ mf, Manifest_new l = Ok mf ∧ id_by_code mf (code 3) = 3.
Proof.
  intros code l. destruct (Manifest_new l) as [mf|] eqn:E; [|by vm_compute in E].
  exists mf. split; [done|].
  destruct (manifest_indexes l mf E) as (H1 & H2 & _).
  - apply (bool_decide_unpack _). vm_compute. exact I.
  - apply (H2 3 (code 3)); [lia|]. apply (H1 3 (code 3)); [lia|]. reflexivity.
Defined.

(** ** Events *)

(** The key is a Rust [String]: its UTF-8 bytes. *)
Record Entry := mkEventEntry { ee_flags : Z; ee_key : bytes; ee_codec : Z; ee_value : bytes }.
Record StampedEvent := mkStampedEvent { ev_emitter : ActorID; ev_entries : list Entry }.

(** Events in emission order; [idxs] is a stack with its top first. *)
Record EventsAccumulator := mkEvents { evs_events : list StampedEvent; evs_idxs : list nat }.

Definition evs_default : EventsAccumulator := mkEvents [] [].
Definition evs_append (e : StampedEvent) (a : EventsAccumulator) : EventsAccumulator :=
  mkEvents (evs_events a ++ [e]) (evs_idxs a).
Definition evs_begin (a : EventsAccumulator) : EventsAccumulator :=
  mkEvents (evs_events a) (length (evs_events a) :: evs_idxs a).
Definition evs_end (revert : bool) : M EventsAccumulator unit := λ a,
  match evs_idxs a with
  | [] => (Err (Fatal "no index in the event accumulator when ending a transaction"), a)
  | idx :: rest => (Ok tt, mkEvents (if revert then take idx (evs_events a) else evs_events a) rest)
  end.

(** [root_of] is the AMT root of the events, computed in a discarding store. *)
Definition evs_finish (root_of : list StampedEvent → result string Cid) (a : EventsAccumulator)
    : Result (list StampedEvent * option Cid) :=
  match evs_idxs a with
  | _ :: _ => Err (Fatal "bad events accumulator state; expected layer indices to be empty, had {} items")
  | [] =>
      match evs_events a with
      | [] => Ok ([], None)
      | evs => match root_of evs with
               | Ok root => Ok (evs, Some root)
               | Err _ => Err (Fatal "failed to construct events AMT")
               end
      end
  end.

Definition evs_ext (a b : EventsAccumulator) : Prop :=
  evs_idxs b = evs_idxs a ∧ evs_events a `prefix_of` evs_events b.
#[export] Instance evs_ext_preorder : PreOrder evs_ext.
Proof. split; [by intros a|]. intros a b c [? ?] [? ?]. split; [congruence|by etrans]. Qed.

Lemma evs_ext_append e a : evs_ext a (evs_append e a).
Proof. split; [done|]. by exists [e]. Qed.
Lemma evs_end_frame revert a a1 :
  evs_ext (evs_begin a) a1 →
  ∃ a2, evs_end revert a1 = (Ok tt, a2) ∧ evs_ext a a2 ∧
    evs_events a2 = evs_events (if revert then a else a1).
Proof.
  intros [Hi [suf Hs]]. simpl in *. unfold evs_end. rewrite Hi. eexists. split; [done|].
  rewrite Hs. destruct revert; simpl.
  - rewrite take_app_length. by split_and!.
  - split; [|done]. split; [done|]. by exists suf.
Qed.

(** ** Backtraces and traces *)

Inductive Cause :=
  | CauseSyscall (module function : string) (err : SyscallError)
  | CauseFatal (error_msg : string).

Record Frame := mkFrame {
  fr_source : ActorID; fr_method : MethodNum; fr_code : ExitCode; fr_message : string }.

Record Backtrace := mkBacktrace { bt_frames : list Frame; bt_cause : option Cause }.
Definition bt_default : Backtrace := mkBacktrace [] None.
Definition bt_is_empty (b : Backtrace) : bool :=
  match bt_frames b, bt_cause b with [], None => true | _, _ => false end.
Definition bt_clear (b : Backtrace) : Backtrace := mkBacktrace [] None.
Definition bt_begin (c : Cause) (b : Backtrace) : Backtrace := mkBacktrace [] (Some c).
Definition bt_set_cause (c : Cause) (b : Backtrace) : Backtrace := mkBacktrace (bt_frames b) (Some c).
Definition bt_push_frame (f : Frame) (b : Backtrace) : Backtrace :=
  mkBacktrace (bt_frames b ++ [f]) (bt_cause b).

Definition IpldBlock : Type := Z * bytes.
Definition to_ipld (b : Block) : IpldBlock := (blk_codec b, blk_data b).

Inductive ExecutionEvent :=
  | EGasCharge (c : GasCharge)
  | ECall (from : ActorID) (to : Address) (method : MethodNum) (params : option IpldBlock)
      (value : TokenAmount) (limit : N) (read_only : bool)
  | ECallReturn (code : ExitCode) (value : option IpldBlock)
  | ECallError (e : SyscallError)
  | EInvokeActor (id : ActorID) (state : ActorState)
  | ELog (msg : string).
