(* ===== verification/Ipld.v ===== *)
(** * Link scanning (fvm/src/ipld/mod.rs, fvm/src/ipld/cbor.rs)

    Before a block enters a registry, its DAG-CBOR is walked for CIDs, paying
    per field and per CID. CIDs with an identity hash carry their block inline
    and are walked in turn. [Cid::read_bytes] is a third-party parser. *)

From S2P Require Import Prelude Effects Gas PriceList Address Types.
From stdpp Require Import gmap strings list fin_maps.
From Stdlib Require Import ZArith Lia.
#[local] Open Scope Z_scope.

(** [Cid::read_bytes]: a CID at the front of the bytes and what follows it. *)
Class CidParser := cid_read_bytes : bytes → result string (Cid * bytes).

(** A CID's encoding holds a version and a codec before the multihash, whose
    digest it contains. *)
Class CidParserSpec `{CidParser} : Prop :=
  cid_read_bytes_len bz c rest :
    cid_read_bytes bz = Ok (c, rest) → (length (cid_digest c) + length rest < length bz)%nat.

Record LinkVisitor := mkVisitor {
  lv_prices : PriceList;
  lv_gas_available : Gas;
  lv_gas_remaining : Gas;
  lv_links : list Cid;
}.

Definition visitor_new (pl : PriceList) (available : Gas) : LinkVisitor :=
  mkVisitor pl available available [].
Definition visitor_gas_used (v : LinkVisitor) : Gas := gas_sub (lv_gas_available v) (lv_gas_remaining v).

Definition visitor_charge_gas (gas : Gas) : M LinkVisitor unit := λ v,
  if (lv_gas_remaining v <? gas)%N
  then (Err OutOfGas, mkVisitor (lv_prices v) (lv_gas_available v) 0 (lv_links v))
  else (Ok tt, mkVisitor (lv_prices v) (lv_gas_available v)
                 (gas_sub (lv_gas_remaining v) gas) (lv_links v)).

Definition push_link (c : Cid) : M LinkVisitor unit :=
  modify (λ v, mkVisitor (lv_prices v) (lv_gas_available v) (lv_gas_remaining v) (lv_links v ++ [c])).

Definition ALLOWED_CODECS : list Z := [CBOR; DAG_CBOR; IPLD_RAW].
Definition IGNORED_CODECS : list Z := [FIL_COMMITMENT_UNSEALED; FIL_COMMITMENT_SEALED].

Definition bad_header {A} : Result A := Err (syscall_error Serialization "invalid cbor header").

Definition read_fixed (n : nat) (r : bytes) : Result (bytes * bytes) :=
  if (length r <? n)%nat then bad_header else Ok (take n r, drop n r).

Definition from_be_bytes (bz : bytes) : Z := foldl (λ acc b, acc * 256 + b) 0 bz.

Definition read_int (n : nat) (r : bytes) : Result (Z * bytes) :=
  match read_fixed n r with Ok (b, r) => Ok (from_be_bytes b, r) | Err e => Err e end.

(** The major type, the argument, and the rest of the buffer. *)
Definition cbor_read_header_buf (br : bytes) : Result (Z * Z * bytes) :=
  match read_int 1 br with
  | Err e => Err e
  | Ok (first, br) =>
      let maj := Z.shiftr (Z.land first 0xe0) 5 in
      let low := Z.land first 0x1f in
      let val :=
        if low <=? 23 then Ok (low, br)
        else if low =? 24 then read_int 1 br
        else if low =? 25 then read_int 2 br
        else if low =? 26 then read_int 4 br
        else if low =? 27 then read_int 8 br
        else bad_header in
      match val with Ok (v, br) => Ok (maj, v, br) | Err e => Err e end
  end.

Section scan.
Context `{CidParser}.

(** [checked_add]. *)
Definition checked_add64 (a b : Z) : Result Z :=
  if u64_max <? a + b then Err (syscall_error Serialization "cbor field count overflow")
  else Ok (a + b).
Definition checked_mul2_add (extra remaining : Z) : Result Z :=
  if u64_max <? extra * 2 then Err (syscall_error Serialization "cbor field count overflow")
  else checked_add64 (extra * 2) remaining.

(** The byte string after a CID tag: a zero byte, then exactly one CID. *)
Definition read_tagged_cid (buf : bytes) : Result (Cid * bytes) :=
  match cbor_read_header_buf buf with
  | Err e => Err e
  | Ok (maj, extra, buf) =>
      if negb (maj =? 2)
      then Err (syscall_error Serialization "expected cbor type byte string in input")
      else if Z.of_nat (length buf) <? extra
      then Err (syscall_error Serialization "unexpected end of cbor stream")
      else if (extra <? 1) || negb (bool_decide (head buf = Some 0))
      then Err (syscall_error Serialization "DagCBOR CID does not start with a 0x byte")
      else
        let n := Z.to_nat (extra - 1) in
        match cid_read_bytes (take n (tail buf)) with
        | Err _ => Err (syscall_error Serialization "invalid cid: {e}")
        | Ok (cid, _ :: _) => Err (syscall_error Serialization "cid has {} trailing bytes")
        | Ok (cid, []) => Ok (cid, drop n (tail buf))
        end
  end.

(** [scan_for_links_inner], with what it does on a DAG-CBOR block as a parameter. *)
Definition links_inner (scan : bytes → M LinkVisitor unit) (codec : Z) (data : bytes)
    : M LinkVisitor unit :=
  if codec =? DAG_CBOR then scan data
  else if (codec =? IPLD_RAW) || (codec =? CBOR) then mret tt
  else throw (syscall_error IllegalCodec "codec {} not allowed").

(** [scan] is the walk of an inline block. *)
Definition visit_cid (scan : bytes → M LinkVisitor unit) (cid : Cid) : M LinkVisitor unit :=
  let codec := cid_codec cid in
  if bool_decide (codec ∈ IGNORED_CODECS) then mret tt
  else if negb (bool_decide (codec ∈ ALLOWED_CODECS))
  then throw (syscall_error NotFound "block links to CID with forbidden codec {codec}")
  else if cid_hash_code cid =? IDENTITY_HASH then links_inner scan codec (cid_digest cid)
  else if negb (cid_hash_code cid =? BLAKE2B_256) || negb (Nat.eqb (length (cid_digest cid)) 32)
  then throw (syscall_error NotFound
         "block links to CID with forbidden multihash type (code: {}, len: {})")
  else push_link cid.

(** The walk. [fuel] bounds the total length of what is left to read: every
    field consumes its header and an inline block is shorter than the buffer it
    is embedded in, so [S (length buf)] is always enough ([scan_fuel_enough]). *)
Fixpoint cbor_scan (fuel : nat) (remaining : Z) (buf : bytes) : M LinkVisitor unit :=
  match fuel with
  | O => throw (Fatal "scan fuel exhausted")
  | S fuel =>
      if remaining <=? 0
      then match buf with
           | [] => mret tt
           | _ => throw (syscall_error Serialization "{} trailing bytes in CBOR block")
           end
      else
        let remaining := remaining - 1 in
        pl ← gets lv_prices;
        _ ← visitor_charge_gas (ipld_cbor_scan_per_field pl);
        '(maj, extra, buf) ← lift (cbor_read_header_buf buf);
        if (maj =? 0) || (maj =? 1) || (maj =? 7) then cbor_scan fuel remaining buf
        else if (maj =? 2) || (maj =? 3) then
          if Z.of_nat (length buf) <? extra
          then throw (syscall_error Serialization "unexpected end of cbor stream")
          else cbor_scan fuel remaining (drop (Z.to_nat extra) buf)
        else if maj =? 6 then
          if negb (extra =? 42) then cbor_scan fuel (remaining + 1) buf else
          _ ← visitor_charge_gas (ipld_cbor_scan_per_cid pl);
          '(cid, buf) ← lift (read_tagged_cid buf);
          _ ← visit_cid (cbor_scan fuel 1) cid;
          cbor_scan fuel remaining buf
        else if maj =? 4 then
          remaining ← lift (checked_add64 remaining extra);
          cbor_scan fuel remaining buf
        else
          remaining ← lift (checked_mul2_add extra remaining);
          cbor_scan fuel remaining buf
  end.

Definition scan_for_links_inner (codec : Z) (data : bytes) : M LinkVisitor unit :=
  links_inner (cbor_scan (S (length data)) 1) codec data.

(** The scan runs on a copy of the available gas; what it used is charged even
    when it failed, and the charge is reported before the scan's own error. *)
Definition scan_for_reachable_links (codec : Z) (data : bytes) (pl : PriceList)
    : M GasTracker (list Cid) :=
  available ← gets gas_available;
  let '(ret, visitor) := scan_for_links_inner codec data (visitor_new pl available) in
  _ ← gt_charge_gas "OnScanIpldLinks" (visitor_gas_used visitor);
  match ret with
  | Ok _ => mret (lv_links visitor)
  | Err e => throw e
  end.
End scan.

(** ** Termination *)

Section termination.
Context `{CidParserSpec}.

Lemma read_int_len n r v r' : read_int n r = Ok (v, r') → length r = (n + length r')%nat.
Proof.
  unfold read_int, read_fixed. destruct (Nat.ltb_spec (length r) n); [done|].
  intros [= _ <-]. rewrite length_drop. lia.
Qed.

Lemma header_len br maj v br' :
  cbor_read_header_buf br = Ok (maj, v, br') → (length br' < length br)%nat.
Proof.
  unfold cbor_read_header_buf. destruct (read_int 1 br) as [[first b1]|] eqn:E1; [|done].
  apply read_int_len in E1. case_tests; simpl; try (intros [= _ _ <-]; lia); try done.
  all: match goal with |- context [read_int ?n ?b] => destruct (read_int n b) as [[]|] eqn:E2; [|done] end.
  all: apply read_int_len in E2; intros [= _ _ <-]; lia.
Qed.

Lemma read_int_err n r e : read_int n r = Err e → e = syscall_error Serialization "invalid cbor header".
Proof. unfold read_int, read_fixed, bad_header. by destruct (_ <? n)%nat; intros [= <-]. Qed.

Lemma header_err br e :
  cbor_read_header_buf br = Err e → e = syscall_error Serialization "invalid cbor header".
Proof.
  unfold cbor_read_header_buf, bad_header.
  destruct (read_int 1 br) as [[first b1]|] eqn:E1; [|intros [= ->]; by eapply read_int_err].
  case_tests; try done; try by intros [= <-].
  all: match goal with |- context [read_int ?n ?b] => destruct (read_int n b) as [[]|] eqn:E2 end;
    [done|intros [= ->]; by eapply read_int_err].
Qed.

Lemma tagged_cid_err buf e :
  read_tagged_cid buf = Err e → ∃ m, e = syscall_error Serialization m.
Proof.
  unfold read_tagged_cid. destruct (cbor_read_header_buf buf) as [[[maj extra] b]|e'] eqn:E.
  - do 3 (match goal with |- context [if ?t then Err _ else _] => destruct t; [intros [= <-]; by eexists|] end).
    destruct (cid_read_bytes _) as [[cid [|]]|]; intros [= <-]; by eexists.
  - intros [= ->]. apply header_err in E. by eexists.
Qed.

Lemma tagged_cid_len buf c rest :
  read_tagged_cid buf = Ok (c, rest) → (S (length (cid_digest c) + length rest) < length buf)%nat.
Proof.
  unfold read_tagged_cid. destruct (cbor_read_header_buf buf) as [[[maj extra] b]|] eqn:E; [|done].
  apply header_len in E. do 3 (match goal with |- context [if ?t then Err _ else _] => destruct t; [done|] end).
  destruct (cid_read_bytes _) as [[cid [|]]|] eqn:Ec; try done. intros [= <- <-].
  apply cid_read_bytes_len in Ec. rewrite length_take in Ec. rewrite length_drop. simpl in Ec.
  destruct b as [|x b]; simpl in *; lia.
Qed.

Lemma visit_cid_ext f g cid v :
  f (cid_digest cid) v = g (cid_digest cid) v → visit_cid f cid v = visit_cid g cid v.
Proof. intros Hfg. unfold visit_cid, links_inner. ifs; done. Qed.
Lemma visit_cid_no_fatal f cid v m :
  (f (cid_digest cid) v).1 ≠ Err (Fatal m) → (visit_cid f cid v).1 ≠ Err (Fatal m).
Proof. intros Hf. unfold visit_cid, links_inner. ifs; done. Qed.

(** More fuel than the buffer is long gives the same run. *)
Lemma cbor_scan_fuel n1 : ∀ n2 remaining buf v,
  (length buf < n1)%nat → (length buf < n2)%nat →
  cbor_scan n1 remaining buf v = cbor_scan n2 remaining buf v.
Proof.
  induction n1 as [|n1 IH]; intros [|n2] remaining buf v H1 H2; try lia. simpl.
  destruct (remaining <=? 0); [done|]. unfold mbind, M_bind, gets, lift.
  destruct (visitor_charge_gas _ v) as [[?|?] v1]; [|done].
  destruct (cbor_read_header_buf buf) as [[[maj extra] b]|] eqn:E; [|done].
  apply header_len in E.
  assert (∀ r b' v', (length b' ≤ length b)%nat → cbor_scan n1 r b' v' = cbor_scan n2 r b' v') as Hgo.
  { intros. apply IH; lia. }
  ifs; try (apply Hgo; rewrite ?length_drop; lia); try done.
  - destruct (visitor_charge_gas _ v1) as [[?|?] v2]; [|done].
    destruct (read_tagged_cid b) as [[cid b2]|] eqn:Ec; [|done].
    apply tagged_cid_len in Ec. rewrite (visit_cid_ext _ (cbor_scan n2 1)) by (apply Hgo; lia).
    destruct (visit_cid _ _ v2) as [[?|?] v3]; [|done]. apply Hgo; lia.
  - destruct (checked_add64 _ _); [|done]. apply Hgo; lia.
  - destruct (checked_mul2_add _ _); [|done]. apply Hgo; lia.
Qed.

(** The walk never runs out of fuel, nor fails fatally for any other reason. *)
Lemma cbor_scan_no_fatal n : ∀ remaining buf v m,
  (length buf < n)%nat → (cbor_scan n remaining buf v).1 ≠ Err (Fatal m).
Proof.
  induction n as [|n IH]; intros remaining buf v m Hn; [lia|]. simpl.
  destruct (remaining <=? 0); [by destruct buf|]. unfold mbind, M_bind, gets, lift.
  destruct (visitor_charge_gas _ v) as [[?|e] v1] eqn:Ev.
  2:{ unfold visitor_charge_gas in Ev. case_match; by simplify_eq. }
  destruct (cbor_read_header_buf buf) as [[[maj extra] b]|e] eqn:E.
  2:{ apply header_err in E as ->. done. }
  apply header_len in E.
  assert (∀ r b' v', (length b' ≤ length b)%nat → (cbor_scan n r b' v').1 ≠ Err (Fatal m)) as Hgo.
  { intros. apply IH; lia. }
  ifs; try (apply Hgo; rewrite ?length_drop; lia); try done.
  - destruct (visitor_charge_gas _ v1) as [[?|e] v2] eqn:Ev2.
    2:{ unfold visitor_charge_gas in Ev2. case_match; by simplify_eq. }
    destruct (read_tagged_cid b) as [[cid b2]|e] eqn:Ec.
    2:{ apply tagged_cid_err in Ec as [? ->]. done. }
    apply tagged_cid_len in Ec.
    pose proof (visit_cid_no_fatal (cbor_scan n 1) cid v2 m ltac:(apply Hgo; lia)) as Hv.
    destruct (visit_cid _ _ v2) as [[?|e] v3]; [apply Hgo; lia|done].
  - unfold checked_add64. ifs; [done|]. apply Hgo; lia.
  - unfold checked_mul2_add, checked_add64. ifs; try done. apply Hgo; lia.
Qed.

(** the link scan terminates. On any bytes, the walk with the fuel the
    scanner gives it returns what it would return with any larger fuel, and its
    result is never fatal: it succeeds, runs out of gas, or rejects the block
    with a syscall error. *)
Theorem scan_fuel_enough data fuel v (Hf : (length data < fuel)%nat) :
  cbor_scan fuel 1 data v = cbor_scan (S (length data)) 1 data v ∧
  ∀ m, (scan_for_links_inner DAG_CBOR data v).1 ≠ Err (Fatal m).
Proof.
  split; [apply cbor_scan_fuel; lia|]. intros m. unfold scan_for_links_inner, links_inner.
  rewrite Z.eqb_refl. apply cbor_scan_no_fatal. lia.
Qed.

(** ** What the scan collects, and what it costs *)

(** A link is a CID the blockstore can hold: an allowed codec and a 32-byte
    blake2b hash, never an inline block or a sector commitment. *)
Definition link_ok (c : Cid) : Prop :=
  cid_codec c ∈ ALLOWED_CODECS ∧ cid_codec c ∉ IGNORED_CODECS ∧
  cid_hash_code c = BLAKE2B_256 ∧ length (cid_digest c) = 32%nat.

Definition field_cost (pl : PriceList) : N :=
  (ipld_cbor_scan_per_field pl + ipld_cbor_scan_per_cid pl)%N.

(** [v'] continues [v], having added good links and spent at most the cost of
    [n] bytes, unless it ran out of gas. *)
Definition scanned (n : nat) (r : Result unit) (v v' : LinkVisitor) : Prop :=
  lv_prices v' = lv_prices v ∧ lv_gas_available v' = lv_gas_available v ∧
  (∃ l, lv_links v' = lv_links v ++ l ∧ Forall link_ok l) ∧
  (lv_gas_remaining v' ≤ lv_gas_remaining v)%N ∧
  (r ≠ Err OutOfGas →
   (lv_gas_remaining v ≤ lv_gas_remaining v' + field_cost (lv_prices v) * N.of_nat n)%N).

Lemma scanned_trans n1 n2 n r v1 v2 v3 :
  scanned n1 (Ok tt) v1 v2 → scanned n2 r v2 v3 → (n1 + n2 ≤ n)%nat → scanned n r v1 v3.
Proof.
  intros (Hp1 & Ha1 & (l1 & El1 & Hl1) & Hr1 & Hc1) (Hp2 & Ha2 & (l2 & El2 & Hl2) & Hr2 & Hc2) Hn.
  split_and!; [congruence|congruence| |lia|].
  - exists (l1 ++ l2). split; [by rewrite El2, El1, app_assoc|]. by apply Forall_app.
  - intros Hne. specialize (Hc1 ltac:(done)). specialize (Hc2 Hne). rewrite Hp1 in Hc2. nia.
Qed.
Lemma scanned_refl n r v : scanned n r v v.
Proof. split_and!; try done; [exists []; by rewrite app_nil_r|lia]. Qed.

Lemma charge_scanned g v r v' :
  visitor_charge_gas g v = (r, v') → (g ≤ field_cost (lv_prices v))%N →
  scanned 1 r v v' ∧ (r = Err OutOfGas ∨ r = Ok tt).
Proof.
  unfold visitor_charge_gas, gas_sub. intros Hc Hg.
  destruct (N.ltb_spec (lv_gas_remaining v) g); simplify_eq; (split; [|by auto]);
    split_and!; simpl; try done; try lia; exists []; by rewrite app_nil_r.
Qed.

Lemma two_charges_scanned v v1 v2 r :
  visitor_charge_gas (ipld_cbor_scan_per_field (lv_prices v)) v = (Ok tt, v1) →
  visitor_charge_gas (ipld_cbor_scan_per_cid (lv_prices v)) v1 = (r, v2) → scanned 1 r v v2.
Proof.
  unfold visitor_charge_gas, gas_sub, scanned, field_cost.
  destruct (N.ltb_spec (lv_gas_remaining v) (ipld_cbor_scan_per_field (lv_prices v))); [done|].
  intros [= <-]. simpl. case_match eqn:Hlt; intros [= <- <-]; simpl;
    try apply N.ltb_lt in Hlt; try apply N.ltb_ge in Hlt;
    split_and!; try done; try lia; exists []; by rewrite app_nil_r.
Qed.

Definition budget (r : Result unit) (buf : bytes) : nat :=
  match r with Ok _ => length buf | Err _ => S (length buf) end.

Lemma scanned_mono n m r v v' : scanned n r v v' → (n ≤ m)%nat → scanned m r v v'.
Proof. intros Hs Hn. eapply (scanned_trans 0 n); [apply scanned_refl|done|lia]. Qed.

(** Visiting one CID, given what the walk of an inline block does. *)
Lemma visit_scanned n cid v r v' :
  (∀ r v', cbor_scan n 1 (cid_digest cid) v = (r, v') →
     scanned (budget r (cid_digest cid)) r v v') →
  visit_cid (cbor_scan n 1) cid v = (r, v') →
  scanned (budget r (cid_digest cid)) r v v'.
Proof.
  intros Hin. unfold visit_cid, links_inner. case_bool_decide as Hi; [intros [= <- <-]; apply scanned_refl|].
  case_bool_decide as Ha; simpl; [|intros [= <- <-]; apply scanned_refl].
  destruct (Z.eqb_spec (cid_hash_code cid) IDENTITY_HASH); simpl.
  { destruct (cid_codec cid =? DAG_CBOR); [apply Hin|].
    destruct (_ || _); intros [= <- <-]; apply scanned_refl. }
  destruct (Z.eqb_spec (cid_hash_code cid) BLAKE2B_256); simpl; [|intros [= <- <-]; apply scanned_refl].
  destruct (Nat.eqb_spec (length (cid_digest cid)) 32); simpl; [|intros [= <- <-]; apply scanned_refl].
  intros [= <- <-]. split_and!; simpl; try done; [|lia].
  exists [cid]. split; [done|]. apply Forall_singleton. by split_and!.
Qed.

Lemma cbor_scan_scanned n : ∀ remaining buf v r v',
  (length buf < n)%nat → cbor_scan n remaining buf v = (r, v') → scanned (budget r buf) r v v'.
Proof.
  induction n as [|n IH]; intros remaining buf v r v' Hn; [lia|]. simpl.
  destruct (remaining <=? 0); [destruct buf; intros [= <- <-]; apply scanned_refl|].
  unfold mbind, M_bind, gets, lift.
  destruct (visitor_charge_gas _ v) as [r1 v1] eqn:Ev.
  pose proof (charge_scanned _ _ _ _ Ev ltac:(unfold field_cost; lia)) as [H1 Hr1].
  destruct Hr1 as [-> | ->]; [intros [= <- <-]; eapply scanned_mono; [done|simpl; lia]|].
  destruct (cbor_read_header_buf buf) as [[[maj extra] b]|e] eqn:E;
    [|intros [= <- <-]; apply header_err in E as ->;
      eapply scanned_trans; [done|apply (scanned_refl 0)|simpl; lia]].
  apply header_len in E.
  assert (∀ rm b' r v', (length b' ≤ length b)%nat → cbor_scan n rm b' v1 = (r, v') →
    scanned (budget r buf) r v v') as Hgo.
  { intros rm b' r0 v0 Hb Hs. apply IH in Hs; [|lia].
    eapply scanned_trans; [done|done|]. destruct r0; simpl in *; lia. }
  assert (∀ e v2, (Err e, v1) = (r, v2) → scanned (budget r buf) r v v2) as Herr.
  { intros e v2 [= <- <-]. eapply scanned_trans; [done|apply (scanned_refl 0)|simpl; lia]. }
  ifs; try (apply Hgo; rewrite ?length_drop; lia); try apply Herr.
  - destruct (visitor_charge_gas _ v1) as [r2 v2] eqn:Ev2.
    pose proof (two_charges_scanned _ _ _ _ Ev Ev2) as H2.
    destruct r2 as [[]|e2]; [|intros [= <- <-]; eapply scanned_mono; [done|simpl; lia]].
    destruct (read_tagged_cid b) as [[cid b2]|e] eqn:Ec;
      [|intros [= <- <-]; eapply scanned_trans; [done|apply (scanned_refl 0)|simpl; lia]].
    apply tagged_cid_len in Ec. cbn beta iota.
    match goal with |- context [match ?m v2 with _ => _ end] => destruct (m v2) as [r3 v3] eqn:Em end.
    apply visit_scanned in Em; [|intros r0 v0; apply IH; lia].
    destruct r3 as [[]|e3].
    + intros Hs. apply IH in Hs; [|lia].
      eapply scanned_trans; [exact H2|eapply (scanned_trans _ _ _ _ _ _ _ Em Hs (Nat.le_refl _))|].
      destruct r; simpl in *; lia.
    + intros [= <- <-]. eapply scanned_trans; [exact H2|exact Em|]. simpl in *. lia.
  - destruct (checked_add64 _ _); [|apply Herr]. apply Hgo; lia.
  - destruct (checked_mul2_add _ _); [|apply Herr]. apply Hgo; lia.
Qed.

(** what the link scan returns and costs. For a DAG-CBOR block whose scan
    succeeds, every link collected is a 32-byte blake2b CID of an allowed codec
    (inline blocks and sector commitments are never returned), and the gas spent
    is at most the price of one field and one CID per byte; a block of another
    allowed codec yields no links for free. *)
Theorem scan_links_spec data v v'
    (Hscan : scan_for_links_inner DAG_CBOR data v = (Ok tt, v')) :
  (∃ l, lv_links v' = lv_links v ++ l ∧ Forall link_ok l) ∧
  (lv_gas_remaining v' ≤ lv_gas_remaining v)%N ∧
  (lv_gas_remaining v - lv_gas_remaining v' ≤ field_cost (lv_prices v) * N.of_nat (length data))%N ∧
  scan_for_links_inner CBOR data v = (Ok tt, v) ∧
  scan_for_links_inner IPLD_RAW data v = (Ok tt, v).
Proof.
  unfold scan_for_links_inner, links_inner in Hscan. rewrite Z.eqb_refl in Hscan.
  apply cbor_scan_scanned in Hscan as (_ & _ & ? & ? & Hc); [|lia].
  specialize (Hc ltac:(done)). simpl in Hc. split_and!; try done. lia.
Qed.
End termination.

(** ** Witnesses *)

(** A parser for two-byte headers: codec, hash code, then the digest. *)
Definition short_cid_parser : CidParser := λ bz,
  match bz with
  | codec :: hash :: digest => Ok (mkCid codec (if hash =? 1 then BLAKE2B_256 else 0) digest, [])
  | _ => Err "invalid cid"
  end.
Lemma short_cid_parser_spec : @CidParserSpec short_cid_parser.
Proof.
  intros bz c rest. destruct bz as [|codec [|hash d]]; try done. intros [= <- <-]. simpl. lia.
Qed.

(** The array [1, CID] whose CID is a 32-byte blake2b hash. *)
Definition linked_block : bytes := [0x82; 1; 0xd8; 42; 0x58; 35; 0; DAG_CBOR; 1] ++ replicate 32 7.

Lemma scan_fuel_enough_witness :
  @cbor_scan short_cid_parser 100 1 linked_block (visitor_new WATERMELON_PRICES 1000000000) =
  @cbor_scan short_cid_parser (S (length linked_block)) 1 linked_block
    (visitor_new WATERMELON_PRICES 1000000000).
Proof.
  apply (@scan_fuel_enough short_cid_parser short_cid_parser_spec linked_block 100
    (visitor_new WATERMELON_PRICES 1000000000)). simpl. lia.
Defined.

Lemma scan_links_spec_witness :
  ∃ v', @scan_for_links_inner short_cid_parser DAG_CBOR linked_block
          (visitor_new WATERMELON_PRICES 1000000000) = (Ok tt, v') ∧
    lv_links v' = [mkCid DAG_CBOR BLAKE2B_256 (replicate 32 7)] ∧
    ∃ l, lv_links v' = [] ++ l ∧ Forall link_ok l.
Proof.
  eexists. split; [vm_compute; reflexivity|]. split; [reflexivity|].
  refine (proj1 (@scan_links_spec short_cid_parser short_cid_parser_spec linked_block
    (visitor_new WATERMELON_PRICES 1000000000) _ _)). vm_compute. reflexivity.
Defined.
