(* ===== verification/Buffered.v ===== *)
(** * The write buffer (fvm/src/blockstore/buffered.rs, discard.rs)

    Between flushes every block the machine writes stays in a buffer over the
    client's blockstore. Flushing a root moves the blocks that can be reached
    from it to the client and leaves the others. The buffer is itself a
    blockstore, and keeps the promises of one ([buffered_spec]). At the end, the
    store that counts accesses (ipld/blockstore/src/tracking.rs). *)

From S2P Require Import Prelude Effects Gas PriceList Address Types HamtBits Ipld.
From stdpp Require Import gmap strings list fin_maps.
From Stdlib Require Import ZArith Lia.
#[local] Open Scope Z_scope.

(** An error, or a panic of the scanner. *)
Inductive FlushError := FlushFailed (msg : string) | FlushPanic (msg : string).

Section buffered.
Context `{BS : Blockstore} `{CP : CidParser}.

Record BufferedBlockstore := mkBuffered { bb_base : Store; bb_write : gmap Cid bytes }.

Definition bb_new (base : Store) : BufferedBlockstore := mkBuffered base ∅.
Definition bb_into_inner (s : BufferedBlockstore) : Store := bb_base s.

Definition bb_get (s : BufferedBlockstore) (cid : Cid) : result string (option bytes) :=
  match bb_write s !! cid with Some data => Ok (Some data) | None => bs_get (bb_base s) cid end.
Definition bb_has (s : BufferedBlockstore) (k : Cid) : result string bool :=
  match bb_write s !! k with Some _ => Ok true | None => bs_has (bb_base s) k end.
Definition bb_put_keyed (s : BufferedBlockstore) (cid : Cid) (buf : bytes) : result string unit * BufferedBlockstore :=
  (Ok tt, mkBuffered (bb_base s) (<[cid := buf]> (bb_write s))).
Definition bb_put_many_keyed (s : BufferedBlockstore) (blocks : list (Cid * bytes))
    : result string unit * BufferedBlockstore :=
  (Ok tt, mkBuffered (bb_base s) (fold_left (λ m '(k, v), <[k := v]> m) blocks (bb_write s))).

(** ** Scanning

    [cbor_read_header_buf] of this file reads from a [Read] and reports plain errors;
    otherwise it is the one of ipld/cbor.rs. *)
Definition bb_read_header (buf : bytes) : result FlushError (Z * Z * bytes) :=
  match cbor_read_header_buf buf with
  | Ok h => Ok h
  | Err _ => Err (FlushFailed "invalid header cbor_read_header_buf")
  end.

(** [Cid::try_from(&[u8])]: [read_bytes], whatever follows the CID. *)
Definition cid_try_from (bz : bytes) : result FlushError Cid :=
  match cid_read_bytes bz with Ok (c, _) => Ok c | Err e => Err (FlushFailed e) end.

(** One round of [scan_for_links]: what remains, the rest of the buffer, and the
    link found. [remaining] is a [u64] that wraps (in a build without overflow
    checks). Slicing off the first byte of an empty string panics. *)
Definition scan_step (remaining : Z) (buf : bytes) : result FlushError (Z * bytes * option Cid) :=
  match bb_read_header buf with
  | Err e => Err e
  | Ok (maj, extra, buf) =>
      if (maj =? 0) || (maj =? 1) || (maj =? 7) then Ok (wrap64 (remaining - 1), buf, None)
      else if (maj =? 2) || (maj =? 3) then
        if Z.of_nat (length buf) <? extra then Err (FlushFailed "unexpected end of cbor stream")
        else Ok (wrap64 (remaining - 1), drop (Z.to_nat extra) buf, None)
      else if maj =? 6 then
        if extra =? 42 then
          match bb_read_header buf with
          | Err e => Err e
          | Ok (maj, extra, buf) =>
              if negb (maj =? 2) then Err (FlushFailed "expected cbor type byte string in input")
              else if Z.of_nat (length buf) <? extra then Err (FlushFailed "unexpected end of cbor stream")
              else if negb (bool_decide (head buf = Some 0)) then Err (FlushFailed "DagCBOR CID does not start with a 0x byte")
              else if extra =? 0 then Err (FlushPanic "range start index 1 out of range for slice of length 0")
              else match cid_try_from (take (Z.to_nat (extra - 1)) (tail buf)) with
                   | Err e => Err e
                   | Ok c => Ok (wrap64 (remaining - 1), drop (Z.to_nat extra) buf, Some c)
                   end
          end
        else Ok (wrap64 (wrap64 (remaining + 1) - 1), buf, None)
      else if maj =? 4 then Ok (wrap64 (wrap64 (remaining + extra) - 1), buf, None)
      else Ok (wrap64 (wrap64 (remaining + wrap64 (extra * 2)) - 1), buf, None)
  end.

Definition push (o : option Cid) (out : list Cid) : list Cid := match o with Some c => c :: out | None => out end.

(** The loop; the links are pushed on [out], last one first. Every round reads a
    header: more fuel than bytes is enough. *)
Fixpoint bb_scan (fuel : nat) (remaining : Z) (buf : bytes) (out : list Cid) : result FlushError (list Cid) :=
  match fuel with
  | O => Err (FlushFailed "scan fuel exhausted")
  | S fuel =>
      if remaining =? 0 then Ok out else
      match scan_step remaining buf with
      | Err e => Err e
      | Ok (remaining, buf, link) => bb_scan fuel remaining buf (push link out)
      end
  end.
Definition scan_for_links (buf : bytes) (out : list Cid) : result FlushError (list Cid) :=
  bb_scan (S (length buf)) 1 buf out.

(** ** Flushing *)

Definition BLAKE2B_LEN : nat := 32.

(** The checks of a popped CID: [Ok true] goes on with it, [Ok false] skips it. *)
Definition check_cid (k : Cid) : result FlushError bool :=
  if (cid_codec k =? FIL_COMMITMENT_UNSEALED) || (cid_codec k =? FIL_COMMITMENT_SEALED) then Ok false
  else if negb ((cid_codec k =? IPLD_RAW) || (cid_codec k =? DAG_CBOR) || (cid_codec k =? CBOR))
  then Err (FlushFailed "cid {k} has unexpected codec ({codec})")
  else if ((cid_hash_code k =? BLAKE2B_256) && Nat.eqb (length (cid_digest k)) BLAKE2B_LEN) || (cid_hash_code k =? IDENTITY_HASH)
  then Ok true
  else Err (FlushFailed "cid {k} has unexpected multihash (code={hash}, len={length})").

(** The loop of [take_reachable]: the cache loses the blocks it takes even when
    the loop ends with an error. *)
Fixpoint take_loop (fuel : nat) (stack : list Cid) (taken : list (Cid * bytes))
    : ME FlushError (gmap Cid bytes) (list (Cid * bytes)) := λ cache,
  match fuel with
  | O => (Err (FlushFailed "flush fuel exhausted"), cache)
  | S fuel =>
      match stack with
      | [] => (Ok taken, cache)
      | k :: stack =>
          match check_cid k with
          | Err e => (Err e, cache)
          | Ok false => take_loop fuel stack taken cache
          | Ok true =>
              if cid_hash_code k =? IDENTITY_HASH then
                match (if cid_codec k =? DAG_CBOR then scan_for_links (cid_digest k) stack else Ok stack) with
                | Err e => (Err e, cache)
                | Ok stack => take_loop fuel stack taken cache
                end
              else
                match cache !! k with
                | None => take_loop fuel stack taken cache
                | Some block =>
                    let cache := delete k cache in
                    match (if cid_codec k =? DAG_CBOR then scan_for_links block stack else Ok stack) with
                    | Err e => (Err e, cache)
                    | Ok stack => take_loop fuel stack (taken ++ [(k, block)]) cache
                    end
                end
          end
      end
  end.

(** A pushed CID is paid for by the bytes it was read from, so that the bytes
    of the buffered blocks and of inline blocks bound the loop. *)
Definition cid_weight (k : Cid) : nat := S (length (cid_digest k)).
Definition stack_weight (stack : list Cid) : nat := sum_list_with cid_weight stack.
Definition cache_weight (cache : gmap Cid bytes) : nat := map_fold (λ _ b n, (length b + n)%nat) 0%nat cache.

Definition take_reachable (root : Cid) : ME FlushError (gmap Cid bytes) (list (Cid * bytes)) := λ cache,
  take_loop (S (cid_weight root + cache_weight cache)) [root] [] cache.

(** The provided [put_many_keyed]: stop at the first error. *)
Fixpoint bs_put_many_keyed (s : Store) (blocks : list (Cid * bytes)) : result string unit * Store :=
  match blocks with
  | [] => (Ok tt, s)
  | (c, b) :: blocks =>
      match bs_put_keyed s c b with
      | (Ok _, s') => bs_put_many_keyed s' blocks
      | (Err e, s') => (Err e, s')
      end
  end.

Definition bb_flush (root : Cid) : ME FlushError BufferedBlockstore unit := λ s,
  match take_reachable root (bb_write s) with
  | (Err e, write) => (Err e, mkBuffered (bb_base s) write)
  | (Ok blocks, write) =>
      match bs_put_many_keyed (bb_base s) blocks with
      | (Ok _, base) => (Ok tt, mkBuffered base write)
      | (Err e, base) => (Err (FlushFailed e), mkBuffered base write)
      end
  end.

(** [DiscardBlockstore]: writes succeed and are forgotten, reads are errors. *)
Definition discard_bs : Blockstore := {|
  Store := unit;
  bs_get _ _ := Err "Blockstore#get not supported with DiscardBlockstore"%string;
  bs_put_keyed _ _ _ := (Ok tt, tt);
  mh_digest := mh_digest;
|}.

(** The buffer as a blockstore. *)
Definition buffered_bs : Blockstore := {|
  Store := BufferedBlockstore;
  bs_get := bb_get;
  bs_put_keyed := bb_put_keyed;
  mh_digest := mh_digest;
|}.
End buffered.
Arguments BufferedBlockstore {_}.
Arguments buffered_bs : clear implicits.
Arguments discard_bs : clear implicits.

(** ** Scanning ends *)

Section scanning.
Context `{CPS : CidParserSpec}.

Definition weight (o : option Cid) : nat := match o with Some c => cid_weight c | None => 0 end.

Lemma bb_header_len buf maj extra buf' : bb_read_header buf = Ok (maj, extra, buf') → (length buf' < length buf)%nat.
Proof. unfold bb_read_header. destruct (cbor_read_header_buf buf) as [[[? ?] ?]|] eqn:E; [|done]. intros [= <- <- <-]. by apply header_len in E. Qed.

Lemma scan_step_len r buf r' buf' o : scan_step r buf = Ok (r', buf', o) → (weight o + length buf' < length buf)%nat.
Proof using CPS.
  unfold scan_step. destruct (bb_read_header buf) as [[[maj extra] b]|] eqn:E; [|done]. apply bb_header_len in E.
  ifs; try (intros [= _ <- <-]; rewrite ?length_drop; simpl; lia); try done.
  destruct (bb_read_header b) as [[[maj2 extra2] b2]|] eqn:E2; [|done]. apply bb_header_len in E2.
  ifs; try done. unfold cid_try_from. destruct (cid_read_bytes _) as [[c rest]|] eqn:Ec; [|done]. intros [= _ <- <-].
  apply cid_read_bytes_len in Ec. rewrite length_take in Ec. rewrite length_drop. simpl. unfold cid_weight.
  destruct b2 as [|x b2]; simpl in *; lia.
Qed.

Lemma bb_scan_fuel n1 n2 r buf out : (length buf < n1)%nat → (length buf < n2)%nat →
  bb_scan n1 r buf out = bb_scan n2 r buf out.
Proof using CPS.
  revert n2 r buf out. induction n1 as [|n1 IH]; intros [|n2] r buf out H1 H2; try lia. simpl.
  destruct (r =? 0); [done|]. destruct (scan_step r buf) as [[[r' b'] o]|] eqn:E; [|done].
  apply scan_step_len in E. apply IH; lia.
Qed.

(** The links do not depend on what is on the stack already. *)
Lemma bb_scan_out n r buf out : bb_scan n r buf out = match bb_scan n r buf [] with Ok cs => Ok (cs ++ out) | Err e => Err e end.
Proof using.
  revert r buf out. induction n as [|n IH]; intros r buf out; simpl; [done|]. destruct (r =? 0); [done|].
  destruct (scan_step r buf) as [[[r' b'] o]|]; [|done]. rewrite IH, (IH _ _ (push o [])).
  destruct (bb_scan n r' b' []) as [cs|]; [|done]. f_equal. rewrite <-app_assoc. by destruct o.
Qed.

Lemma bb_scan_weight n r buf out out' : bb_scan n r buf out = Ok out' → (stack_weight out' ≤ stack_weight out + length buf)%nat.
Proof using CPS.
  revert r buf out. induction n as [|n IH]; intros r buf out; simpl; [done|]. destruct (r =? 0); [intros [= <-]; lia|].
  destruct (scan_step r buf) as [[[r' b'] o]|] eqn:E; [|done]. intros Hr%IH. apply scan_step_len in E.
  destruct o as [c|]; unfold stack_weight in *; simpl in *; lia.
Qed.
End scanning.

(** ** The flush ends *)

Section termination.
Context `{CPS : CidParserSpec}.

Lemma cache_weight_delete k b (cache : gmap Cid bytes) : cache !! k = Some b →
  cache_weight cache = (length b + cache_weight (delete k cache))%nat.
Proof using.
  intros Hk. unfold cache_weight.
  rewrite (map_fold_delete_L (λ _ b n, (length b + n)%nat) 0%nat k b cache); [done| |done]. intros. lia.
Qed.

Lemma scan_for_links_weight (t : bool) data stack stack' :
  (if t then scan_for_links data stack else Ok stack) = Ok stack' → (stack_weight stack' ≤ stack_weight stack + length data)%nat.
Proof using CPS. destruct t; [apply bb_scan_weight|intros [= <-]; lia]. Qed.

(** More fuel than what is left to read gives the same run. *)
Lemma take_loop_fuel n1 n2 stack taken cache :
  (stack_weight stack + cache_weight cache < n1)%nat → (stack_weight stack + cache_weight cache < n2)%nat →
  take_loop n1 stack taken cache = take_loop n2 stack taken cache.
Proof using CPS.
  revert n2 stack taken cache. induction n1 as [|n1 IH]; intros [|n2] stack taken cache H1 H2; try lia. simpl.
  destruct stack as [|k stack]; [done|]. unfold stack_weight in H1, H2. simpl in H1, H2.
  fold (stack_weight stack) in H1, H2. unfold cid_weight in H1, H2.
  destruct (check_cid k) as [[]|]; [|apply IH; lia|done]. destruct (cid_hash_code k =? IDENTITY_HASH).
  - destruct (if cid_codec k =? DAG_CBOR then _ else _) as [stack'|] eqn:E; [|done].
    apply scan_for_links_weight in E. apply IH; lia.
  - destruct (cache !! k) as [b|] eqn:Ek; [|apply IH; lia]. rewrite (cache_weight_delete k b) in H1, H2 by done.
    destruct (if cid_codec k =? DAG_CBOR then _ else _) as [stack'|] eqn:E; [|done].
    apply scan_for_links_weight in E. apply IH; lia.
Qed.
End termination.

(** ** What the flush moves *)

Section reachability.
Context `{CP : CidParser} (W : gmap Cid bytes).

Definition block_links (k : Cid) (data : bytes) : result FlushError (list Cid) :=
  if cid_codec k =? DAG_CBOR then scan_for_links data [] else Ok [].

(** A CID whose block is held by the store: checked and not inline. *)
Definition stored (k : Cid) : Prop := check_cid k = Ok true ∧ cid_hash_code k ≠ IDENTITY_HASH.

(** The links of a block that is in the buffer or in the CID itself. *)
Definition succs (k : Cid) : list Cid :=
  match check_cid k with
  | Ok true =>
      let data := if cid_hash_code k =? IDENTITY_HASH then Some (cid_digest k) else W !! k in
      match data with
      | Some data => match block_links k data with Ok cs => cs | Err _ => [] end
      | None => []
      end
  | _ => []
  end.

Inductive reaches (root : Cid) : Cid → Prop :=
  | reaches_root : reaches root root
  | reaches_step k k' : reaches root k → k' ∈ succs k → reaches root k'.

Lemma scan_links_push k data stack :
  (if cid_codec k =? DAG_CBOR then scan_for_links data stack else Ok stack) =
    match block_links k data with Ok cs => Ok (cs ++ stack) | Err e => Err e end.
Proof. unfold block_links, scan_for_links. destruct (_ =? _); [apply bb_scan_out|done]. Qed.

(** [P]: what has been popped. *)
Definition loop_inv (root : Cid) (P : Cid → Prop) (stack : list Cid) (taken : list (Cid * bytes)) (cache : gmap Cid bytes) : Prop :=
  cache ⊆ W ∧ (∀ k b, W !! k = Some b → cache !! k = Some b ∨ (k, b) ∈ taken) ∧
  (∀ k b, (k, b) ∈ taken → W !! k = Some b ∧ cache !! k = None ∧ reaches root k ∧ stored k ∧ P k) ∧
  (∀ k, k ∈ stack → reaches root k) ∧
  (∀ p, P p → (∀ k, k ∈ succs p → P k ∨ k ∈ stack) ∧ (stored p → cache !! p = None)) ∧
  (P root ∨ root ∈ stack).

Definition taken_exactly (root : Cid) (taken : list (Cid * bytes)) (cache : gmap Cid bytes) : Prop :=
  ∀ k b, W !! k = Some b →
    (reaches root k ∧ stored k ∧ (k, b) ∈ taken ∧ cache !! k = None) ∨
    (¬ (reaches root k ∧ stored k) ∧ cache !! k = Some b).

Lemma loop_inv_done root P taken cache : loop_inv root P [] taken cache → taken_exactly root taken cache.
Proof.
  intros (Hsub & Hcov & Htk & _ & HP & Hroot) k b Hk.
  assert (∀ k, reaches root k → P k) as Hreach.
  { induction 1 as [|k0 k' _ IH Hin]; [destruct Hroot as [?|?%elem_of_nil]; done|].
    destruct (HP k0 IH) as [Hs _]. destruct (Hs k' Hin) as [?|?%elem_of_nil]; done. }
  destruct (Hcov k b Hk) as [Hc|Ht].
  - right. split; [|done]. intros [Hr Hst]. destruct (HP k (Hreach k Hr)) as [_ Hn]. by rewrite Hn in Hc.
  - left. destruct (Htk k b Ht) as (_ & ? & ? & ? & _). by split_and!.
Qed.

(** Popping [k]: its links are pushed, or it has none. *)
Lemma loop_inv_pop root P k cs stack taken cache : loop_inv root P (k :: stack) taken cache →
  (succs k ⊆ cs ∨ P k) → (∀ c, c ∈ cs → c ∈ succs k) → (stored k → cache !! k = None) →
  loop_inv root (λ p, P p ∨ p = k) (cs ++ stack) taken cache.
Proof.
  intros (Hsub & Hcov & Htk & Hst & HP & Hroot) Hcs Hcs' Hn.
  assert (∀ c, c ∈ succs k → P k → c = k ∨ P c ∨ c ∈ stack) as Hpk.
  { intros c Hc Hk. destruct (HP k Hk) as [Hs _]. destruct (Hs c Hc) as [?|[->|?]%elem_of_cons]; auto. }
  split_and!; [done..| | | |].
  - intros k' b Hk'. destruct (Htk k' b Hk') as (? & ? & ? & ? & ?). split_and!; auto.
  - intros c [Hc|Hc]%elem_of_app; [|by apply Hst; right]. eapply reaches_step; [apply Hst; left|by apply Hcs'].
  - intros p [Hp|Hp].
    + destruct (HP p Hp) as [Hs Hc]. split; [|done]. intros c Hc'. rewrite elem_of_app.
      destruct (Hs c Hc') as [?|[->|?]%elem_of_cons]; tauto.
    + subst p. split; [|done]. intros c Hc. rewrite elem_of_app.
      destruct Hcs as [Hcs|Hk]; [right; left; by apply Hcs|]. destruct (Hpk c Hc Hk) as [?|[?|?]]; tauto.
  - rewrite elem_of_app. destruct Hroot as [?|[->|?]%elem_of_cons]; tauto.
Qed.

Lemma loop_inv_take root P k b cs stack taken cache : loop_inv root P (k :: stack) taken cache →
  cache !! k = Some b → stored k → succs k = cs →
  loop_inv root (λ p, P p ∨ p = k) (cs ++ stack) (taken ++ [(k, b)]) (delete k cache).
Proof.
  intros Hinv Hk Hstk Hcs. assert (loop_inv root P (k :: stack) taken cache) as Hinv' by done.
  destruct Hinv' as (Hsub & Hcov & Htk & Hst & HP & Hroot).
  assert (W !! k = Some b) as HW by (by eapply lookup_weaken). assert (reaches root k) as Hr by (apply Hst; left).
  split_and!.
  - etrans; [apply delete_subseteq|done].
  - intros k' b' Hk'. rewrite elem_of_app, list_elem_of_singleton. destruct (decide (k' = k)) as [->|Hne].
    + right. right. congruence.
    + rewrite lookup_delete_ne by done. destruct (Hcov k' b' Hk'); tauto.
  - intros k' b' [Hk'|Hk']%elem_of_app.
    + destruct (Htk k' b' Hk') as (? & ? & ? & ? & ?). split_and!; auto. rewrite lookup_delete_None. by right.
    + apply list_elem_of_singleton in Hk'. simplify_eq. split_and!; try done; [by rewrite lookup_delete_eq|by right].
  - intros c [Hc|Hc]%elem_of_app; [|by apply Hst; right]. eapply reaches_step; [done|]. by rewrite Hcs.
  - intros p [Hp|Hp].
    + destruct (HP p Hp) as [Hs Hc]. split; [|intros; rewrite lookup_delete_None; auto]. intros c Hc'. rewrite elem_of_app.
      destruct (Hs c Hc') as [?|[->|?]%elem_of_cons]; tauto.
    + subst p. split; [|intros _; apply lookup_delete_eq]. intros c Hc. rewrite elem_of_app. rewrite Hcs in Hc. tauto.
  - rewrite elem_of_app. destruct Hroot as [?|[->|?]%elem_of_cons]; tauto.
Qed.

Lemma take_loop_taken n root P stack taken cache taken' cache' : loop_inv root P stack taken cache →
  take_loop n stack taken cache = (Ok taken', cache') → taken_exactly root taken' cache' ∧ ∀ k b, (k, b) ∈ taken' → W !! k = Some b.
Proof.
  revert P stack taken cache. induction n as [|n IH]; intros P stack taken cache Hinv; simpl; [done|].
  destruct stack as [|k stack]; [intros [= <- <-]; split; [by eapply loop_inv_done|]; intros k b Hk; by apply Hinv in Hk as [? _]|].
  destruct (check_cid k) as [[]|] eqn:Ec; [| |done].
  - rewrite !scan_links_push. destruct (Z.eqb_spec (cid_hash_code k) IDENTITY_HASH) as [Hid|Hid].
    + destruct (block_links k (cid_digest k)) as [cs|] eqn:El; [|done].
      assert (succs k = cs) as Hsk by (unfold succs; by rewrite Ec, Hid, Z.eqb_refl, El).
      apply (IH (λ p, P p ∨ p = k)). eapply loop_inv_pop; [done|left; by rewrite Hsk|by rewrite Hsk|]. by intros [_ ?].
    + apply Z.eqb_neq in Hid as Hidb. destruct (cache !! k) as [b|] eqn:Eb.
      * rewrite scan_links_push. destruct (block_links k b) as [cs|] eqn:El; [|done]. apply (IH (λ p, P p ∨ p = k)).
        eapply loop_inv_take; [done..| |].
        { by split. }
        unfold succs. rewrite Ec, Hidb. rewrite (lookup_weaken _ _ _ _ Eb (proj1 Hinv)). by rewrite El.
      * apply (IH (λ p, P p ∨ p = k)). apply (loop_inv_pop root P k [] stack taken cache Hinv); [|by intros c ?%elem_of_nil|done].
        destruct (W !! k) as [b|] eqn:Ew.
        { right. destruct Hinv as (_ & Hcov & Htk & _). destruct (Hcov k b Ew) as [?|Ht]; [congruence|]. by apply (Htk k b Ht). }
        left. unfold succs. rewrite Ec, Hidb, Ew. done.
  - apply (IH (λ p, P p ∨ p = k)). apply (loop_inv_pop root P k [] stack taken cache Hinv); [|by intros c ?%elem_of_nil|].
    + left. unfold succs. by rewrite Ec.
    + intros [? _]. congruence.
Qed.

Lemma loop_inv_start root : loop_inv root (λ _, False) [root] [] W.
Proof.
  split_and!; [done|by left|by intros ? ? ?%elem_of_nil| |done|right; left].
  intros k ->%list_elem_of_singleton. apply reaches_root.
Qed.
End reachability.

(** ** The flushed store *)

Section flush.
Context `{BSS : BlockstoreSpec} `{CPS : CidParserSpec}.

(** The CID of a block carries its hash. *)
Definition addressed (k : Cid) (b : bytes) : Prop := cid_digest k = mh_digest (cid_hash_code k) b.

Definition bb_ok (s : BufferedBlockstore) : Prop :=
  store_ok (bb_base s) ∧ map_Forall addressed (bb_write s).

Lemma put_many_ok s blocks r s' : store_ok s → (∀ k b, (k, b) ∈ blocks → addressed k b) →
  bs_put_many_keyed s blocks = (r, s') →
  store_ok s' ∧ store_le s s' ∧ (r = Ok tt → ∀ k b, (k, b) ∈ blocks → bs_get s' k = Ok (Some b)).
Proof.
  revert s. induction blocks as [|[k b] blocks IH]; intros s Hs Ha; simpl.
  { intros [= <- <-]. split_and!; [done..|]. by intros _ k b ?%elem_of_nil. }
  destruct (bs_put_keyed s k b) as [r1 s1] eqn:Ep.
  assert (addressed k b) as Hk by (apply Ha; left). destruct (put_keyed_ok _ _ _ _ _ Hs Hk Ep) as [Hs1 Hle1].
  destruct r1 as [[]|e]; [|intros [= <- <-]; by split_and!].
  intros Hrun. destruct (IH s1 Hs1) as (Hs' & Hle & Hg); [intros; apply Ha; by right|done|].
  split_and!; [done|by etrans|]. intros -> k' b' [?|Hin]%elem_of_cons; [|by apply Hg]. simplify_eq.
  eapply store_le_get; [exact Hle|]. exact (put_keyed_get s k b s1 Hs Hk Ep).
Qed.

Lemma flush_moves_reachable_lemma (root : Cid) (s s' : BufferedBlockstore) : bb_ok s → bb_flush root s = (Ok tt, s') →
  bb_ok s' ∧ store_le (bb_base s) (bb_base s') ∧
  (∀ k b, bb_get s k = Ok (Some b) → bb_get s' k = Ok (Some b)) ∧
  ∀ k b, bb_write s !! k = Some b →
    (reaches (bb_write s) root k ∧ stored k ∧ bs_get (bb_base s') k = Ok (Some b) ∧ bb_write s' !! k = None) ∨
    (¬ (reaches (bb_write s) root k ∧ stored k) ∧ bb_write s' !! k = Some b).
Proof.
  intros [Hs Ha]. unfold bb_flush, take_reachable.
  destruct (take_loop _ _ _ _) as [[taken|e] write] eqn:Et; [|done].
  destruct (take_loop_taken _ _ _ _ _ _ _ _ _ (loop_inv_start (bb_write s) root) Et) as [Hex Htk].
  destruct (bs_put_many_keyed _ _) as [[[]|e] base] eqn:Ep; [|done]. intros [= <-]. simpl.
  destruct (put_many_ok _ _ _ _ Hs (λ k b Hk, Ha k b (Htk k b Hk)) Ep) as (Hs' & Hle & Hg). specialize (Hg eq_refl).
  assert (∀ k b, write !! k = Some b → bb_write s !! k = Some b) as Hsub.
  { intros k b Hk. destruct (bb_write s !! k) as [b'|] eqn:E.
    - destruct (Hex k b' E) as [(_ & _ & _ & ?)|[_ ?]]; congruence.
    - exfalso. clear -Et Hk E. revert Et. generalize (S (cid_weight root + cache_weight (bb_write s))), [root], (@nil (Cid * bytes)).
      intros n. generalize dependent (bb_write s). induction n as [|n IH]; intros W HW st tk; simpl; [done|].
      repeat case_match; intros Ht; simplify_eq; try by eapply IH in Ht.
      all: eapply IH in Ht; [done|]. all: by rewrite lookup_delete_None; right. }
  split_and!.
  - split; [done|]. intros k b Hk. by apply Ha, Hsub.
  - done.
  - intros k b. unfold bb_get. simpl. destruct (bb_write s !! k) as [b'|] eqn:E.
    + intros [= ->]. destruct (Hex k b E) as [(_ & _ & Hin & ->)|[_ ->]]; [|done]. by apply Hg.
    + intros Hb. destruct (write !! k) eqn:Ew; [apply Hsub in Ew; congruence|]. by eapply store_le_get.
  - intros k b Hk. destruct (Hex k b Hk) as [(? & ? & Hin & ?)|?]; [|by right]. left. split_and!; try done. by apply Hg.
Qed.
(** C14: Flushing a root moves exactly the buffered blocks that can be reached
    from it into the client's blockstore: each of them can be read there under
    its CID, every other buffered block stays in the buffer, nothing that could
    be read through the buffer before reads differently after, and the client's
    store only grows. *)
Theorem flush_moves_reachable (root : Cid) (s s' : BufferedBlockstore) : bb_ok s → bb_flush root s = (Ok tt, s') →
  bb_ok s' ∧ store_le (bb_base s) (bb_base s') ∧
  (∀ k b, bb_get s k = Ok (Some b) → bb_get s' k = Ok (Some b)) ∧
  ∀ k b, bb_write s !! k = Some b →
    (reaches (bb_write s) root k ∧ stored k ∧ bs_get (bb_base s') k = Ok (Some b) ∧ bb_write s' !! k = None) ∨
    (¬ (reaches (bb_write s) root k ∧ stored k) ∧ bb_write s' !! k = Some b).
Proof. apply flush_moves_reachable_lemma. Qed.
End flush.

(** ** Blocks the kernel accepted

    Blocks that actors write were walked by the kernel's scanner
    (ipld/cbor.rs) before; the flush then has nothing to complain about. *)

Section accepted.
Context `{CPS : CidParserSpec}.
(** A parsed digest is part of the bytes it was parsed from. *)
Context (cid_read_digest : ∀ bz c rest, cid_read_bytes bz = Ok (c, rest) → ∃ k, cid_digest c = take (length (cid_digest c)) (drop k bz)).

(** CIDs the flush can process: ignored, held by the store, or inline with
    links that can be processed. *)
Inductive flushable : Cid → Prop :=
  | flush_skip k : check_cid k = Ok false → flushable k
  | flush_stored k : stored k → flushable k
  | flush_inline k cs : check_cid k = Ok true → cid_hash_code k = IDENTITY_HASH →
      block_links k (cid_digest k) = Ok cs → Forall flushable cs → flushable k.

(** A block whose links can be processed. *)
Definition block_ok (k : Cid) (b : bytes) : Prop := ∃ cs, block_links k b = Ok cs ∧ Forall flushable cs.

Lemma flushable_check k : flushable k → ∃ t, check_cid k = Ok t.
Proof using. destruct 1 as [? ->|? [-> _]|? ? ->]; eauto. Qed.

Lemma take_loop_accepted n stack taken cache :
  (stack_weight stack + cache_weight cache < n)%nat → Forall flushable stack →
  (∀ k b, cache !! k = Some b → block_ok k b) → ∃ taken' cache', take_loop n stack taken cache = (Ok taken', cache').
Proof using CPS.
  revert stack taken cache. induction n as [|n IH]; intros stack taken cache Hn Hst Hc; [lia|]. simpl.
  destruct Hst as [|k stack Hk Hst]; [eauto|]. unfold stack_weight in Hn. simpl in Hn. fold (stack_weight stack) in Hn.
  destruct (flushable_check k Hk) as [t Et]. rewrite Et. unfold cid_weight in Hn. destruct t; [|apply IH; [lia|done..]].
  rewrite scan_links_push. destruct (Z.eqb_spec (cid_hash_code k) IDENTITY_HASH) as [Hid|Hid].
  - destruct Hk as [k Ek|k [_ ?]|k cs _ _ El F]; [congruence|done|]. rewrite El.
    assert (stack_weight (cs ++ stack) ≤ stack_weight stack + length (cid_digest k))%nat.
    { apply (scan_for_links_weight (cid_codec k =? DAG_CBOR)). by rewrite scan_links_push, El. }
    apply IH; [lia|by apply Forall_app|done].
  - destruct (cache !! k) as [b|] eqn:Eb; [|apply IH; [lia|done..]]. rewrite scan_links_push.
    destruct (Hc k b Eb) as (cs & El & F). rewrite El. rewrite (cache_weight_delete k b) in Hn by done.
    assert (stack_weight (cs ++ stack) ≤ stack_weight stack + length b)%nat.
    { apply (scan_for_links_weight (cid_codec k =? DAG_CBOR)). by rewrite scan_links_push, El. }
    apply IH; [lia|by apply Forall_app|]. intros k' b' [_ ?]%lookup_delete_Some. by apply Hc.
Qed.

(** One round of each scanner, on the same buffer. *)
Lemma tagged_try_from buf c rest : read_tagged_cid buf = Ok (c, rest) →
  ∃ maj extra b, bb_read_header buf = Ok (maj, extra, b) ∧ maj = 2 ∧ extra ≤ Z.of_nat (length b) ∧
    head b = Some 0 ∧ 1 ≤ extra ∧ cid_try_from (take (Z.to_nat (extra - 1)) (tail b)) = Ok c ∧ rest = drop (Z.to_nat extra) b.
Proof using.
  unfold read_tagged_cid, bb_read_header. destruct (cbor_read_header_buf buf) as [[[maj extra] b]|]; [|done].
  destruct (Z.eqb_spec maj 2); [|done]. destruct (Z.ltb_spec (Z.of_nat (length b)) extra); [done|].
  destruct (Z.ltb_spec extra 1); [done|]. case_bool_decide as Eh; [|done]. simpl.
  destruct (cid_read_bytes _) as [[cid [|]]|] eqn:Ec; try done. intros [= <- <-]. exists maj, extra, b.
  split_and!; try done. { unfold cid_try_from. by rewrite Ec. }
  destruct b as [|x b]; [done|]. simpl. replace (Z.to_nat extra) with (S (Z.to_nat (extra - 1))) by lia. done.
Qed.

Lemma visit_cid_flushable f cid v v' : visit_cid f cid v = (Ok tt, v') →
  (∀ v v', f (cid_digest cid) v = (Ok tt, v') → ∃ cs, scan_for_links (cid_digest cid) [] = Ok cs ∧ Forall flushable cs) →
  flushable cid.
Proof using.
  unfold visit_cid, links_inner, IGNORED_CODECS, ALLOWED_CODECS. intros Hv Hf.
  case_bool_decide as Hi; simpl in Hv.
  { apply flush_skip. unfold check_cid. rewrite !elem_of_cons, elem_of_nil in Hi.
    destruct (Z.eqb_spec (cid_codec cid) FIL_COMMITMENT_UNSEALED); [done|].
    destruct (Z.eqb_spec (cid_codec cid) FIL_COMMITMENT_SEALED); [done|]. tauto. }
  case_bool_decide as Ha; simpl in Hv; [|done]. rewrite !elem_of_cons, elem_of_nil in Hi. rewrite !elem_of_cons in Ha.
  assert ((cid_codec cid =? FIL_COMMITMENT_UNSEALED) || (cid_codec cid =? FIL_COMMITMENT_SEALED) = false) as Hign
    by (apply orb_false_iff; rewrite !Z.eqb_neq; tauto).
  assert ((cid_codec cid =? IPLD_RAW) || (cid_codec cid =? DAG_CBOR) || (cid_codec cid =? CBOR) = true) as Hall.
  { rewrite !orb_true_iff, !Z.eqb_eq. destruct Ha as [?|[?|[?|?%elem_of_nil]]]; tauto. }
  assert (check_cid cid = if ((cid_hash_code cid =? BLAKE2B_256) && Nat.eqb (length (cid_digest cid)) BLAKE2B_LEN) || (cid_hash_code cid =? IDENTITY_HASH)
    then Ok true else Err (FlushFailed "cid {k} has unexpected multihash (code={hash}, len={length})")) as Hchk
    by (unfold check_cid; by rewrite Hign, Hall).
  destruct (Z.eqb_spec (cid_hash_code cid) IDENTITY_HASH) as [Hid|Hid].
  - rewrite orb_true_r in Hchk. destruct (Z.eqb_spec (cid_codec cid) DAG_CBOR) as [Hd|Hd].
    + destruct (Hf _ _ Hv) as (cs & Es & F). apply (flush_inline cid cs); [done..| |done]. unfold block_links. by rewrite Hd.
    + apply (flush_inline cid []); [done..| |done]. unfold block_links. by apply Z.eqb_neq in Hd as ->.
  - apply flush_stored. split; [|done]. rewrite Hchk. unfold BLAKE2B_LEN.
    destruct (cid_hash_code cid =? BLAKE2B_256), (Nat.eqb (length (cid_digest cid)) 32); done.
Qed.

Lemma from_be_bytes_nonneg bz : Forall is_byte bz → 0 ≤ from_be_bytes bz.
Proof using.
  unfold from_be_bytes. assert (∀ acc, 0 ≤ acc → Forall is_byte bz → 0 ≤ foldl (λ acc b, acc * 256 + b) acc bz) as Hg; [|intros; by apply Hg].
  induction bz as [|b bz IH]; intros acc Ha F; simpl; [done|]. inversion_clear F as [|? ? Hb F']. apply IH; [|done]. unfold is_byte in Hb. lia.
Qed.

Lemma read_int_bytes n r v r' : Forall is_byte r → read_int n r = Ok (v, r') → 0 ≤ v ∧ Forall is_byte r'.
Proof using.
  unfold read_int, read_fixed. intros F. destruct (_ <? n)%nat; [done|]. intros [= <- <-].
  split; [apply from_be_bytes_nonneg; by apply Forall_take|by apply Forall_drop].
Qed.

Lemma header_bytes br maj v br' : Forall is_byte br → cbor_read_header_buf br = Ok (maj, v, br') → 0 ≤ v ∧ Forall is_byte br'.
Proof using.
  intros F. unfold cbor_read_header_buf. destruct (read_int 1 br) as [[first b1]|] eqn:E1; [|done].
  destruct (read_int_bytes _ _ _ _ F E1) as [Hf F1]. ifs; try done.
  1:{ intros [= _ <- <-]. split; [|done]. apply Z.land_nonneg. by right. }
  all: match goal with |- context [read_int ?n ?b] => destruct (read_int n b) as [[v' r']|] eqn:E2; [|done] end.
  all: intros [= _ <- <-]; by eapply read_int_bytes in E2.
Qed.

Lemma tagged_cid_bytes buf c rest : Forall is_byte buf → read_tagged_cid buf = Ok (c, rest) →
  Forall is_byte (cid_digest c) ∧ Forall is_byte rest.
Proof using cid_read_digest.
  unfold read_tagged_cid. destruct (cbor_read_header_buf buf) as [[[maj extra] b]|] eqn:E; [|done]. intros F.
  destruct (header_bytes _ _ _ _ F E) as [_ Fb].
  do 3 (match goal with |- context [if ?t then Err _ else _] => destruct t; [done|] end).
  destruct (cid_read_bytes _) as [[cid [|]]|] eqn:Ec; try done. intros [= <- <-].
  assert (Forall is_byte (tail b)) as Ft by (by destruct Fb). split; [|by apply Forall_drop].
  destruct (cid_read_digest _ _ _ Ec) as [k ->]. by apply Forall_take, Forall_drop, Forall_take.
Qed.

Lemma accepted_scan n remaining buf v v' : 0 ≤ remaining ≤ u64_max → Forall is_byte buf → cbor_scan n remaining buf v = (Ok tt, v') →
  ∃ cs, bb_scan (S (length buf)) remaining buf [] = Ok cs ∧ Forall flushable cs.
Proof using CPS cid_read_digest.
  revert remaining buf v v'. induction n as [|n IH]; intros remaining buf v v' Hr Fb; [done|]. cbn [cbor_scan].
  destruct (Z.leb_spec remaining 0) as [Hz|Hz].
  { intros _. exists []. simpl. destruct (Z.eqb_spec remaining 0); [done|lia]. }
  unfold mbind, M_bind, gets, lift. destruct (visitor_charge_gas _ v) as [[?|?] v1]; [|done].
  destruct (cbor_read_header_buf buf) as [[[maj extra] b]|] eqn:Eh; [|done].
  pose proof (header_len _ _ _ _ Eh) as Hlen. destruct (header_bytes _ _ _ _ Fb Eh) as [He Fb1].
  assert (bb_read_header buf = Ok (maj, extra, b)) as Ehb by (unfold bb_read_header; by rewrite Eh).
  assert (∀ r' b' o v2, scan_step remaining buf = Ok (r', b', o) → (length b' < length buf)%nat → 0 ≤ r' ≤ u64_max → Forall is_byte b' →
    (∀ c, o = Some c → flushable c) → cbor_scan n r' b' v2 = (Ok tt, v') →
    ∃ cs, bb_scan (S (length buf)) remaining buf [] = Ok cs ∧ Forall flushable cs) as Hstep.
  { intros r' b' o v2 Es Hl Hr' Fb' Ho Hrun. destruct (IH r' b' v2 v' Hr' Fb' Hrun) as (cs & Ecs & F). cbn [bb_scan].
    destruct (Z.eqb_spec remaining 0); [lia|]. rewrite Es, (bb_scan_fuel _ (S (length b'))) by lia. rewrite bb_scan_out, Ecs.
    eexists. split; [done|]. apply Forall_app. split; [done|]. destruct o as [c|]; [|done]. constructor; [by apply Ho|done]. }
  assert (∀ x, 0 ≤ x ≤ u64_max → wrap64 x = x) as Hw by (intros x Hx; unfold wrap64, u64_max in *; apply Z.mod_small; lia).
  unfold scan_step in Hstep. rewrite Ehb in Hstep.
  destruct ((maj =? 0) || (maj =? 1) || (maj =? 7)).
  { intros Hrun. rewrite Hw in Hstep by lia. eapply (Hstep (remaining - 1) b None); done || lia. }
  destruct ((maj =? 2) || (maj =? 3)).
  { destruct (Z.of_nat (length b) <? extra); [done|]. intros Hrun. rewrite Hw in Hstep by lia.
    eapply (Hstep (remaining - 1) _ None); [done|rewrite length_drop; lia|lia|by apply Forall_drop|done|done]. }
  destruct (maj =? 6).
  { destruct (Z.eqb_spec extra 42) as [->|Hne]; simpl.
    2:{ intros Hrun. assert (wrap64 (wrap64 (remaining + 1) - 1) = remaining) as Ew.
        { unfold wrap64. rewrite Zminus_mod_idemp_l. replace (remaining + 1 - 1) with remaining by lia. by apply Hw. }
        rewrite Ew in Hstep. replace (remaining - 1 + 1) with remaining in Hrun by lia.
        eapply (Hstep remaining b None); done || lia. }
    destruct (visitor_charge_gas _ v1) as [[?|?] v2]; [|done].
    destruct (read_tagged_cid b) as [[cid b2]|] eqn:Et; [|done].
    destruct (visit_cid _ cid v2) as [[[]|?] v3] eqn:Ev; [|done]. intros Hrun.
    destruct (tagged_cid_bytes _ _ _ Fb1 Et) as [Fd Fr].
    pose proof (tagged_cid_len _ _ _ Et) as Hl2. destruct (tagged_try_from _ _ _ Et) as (m2 & e2 & b3 & Eh2 & -> & He2 & Hh & He1 & Ec & ->).
    rewrite Eh2 in Hstep. simpl in Hstep. destruct (Z.ltb_spec (Z.of_nat (length b3)) e2); [lia|].
    rewrite bool_decide_eq_true_2 in Hstep by done. simpl in Hstep. destruct (Z.eqb_spec e2 0); [lia|]. rewrite Ec, Hw in Hstep by lia.
    eapply (Hstep (remaining - 1) _ (Some cid)); [done|lia|lia|done| |done].
    intros c [= <-]. eapply visit_cid_flushable; [exact Ev|]. intros va vb Hrun'. unfold scan_for_links.
    apply (IH 1 _ va vb); [unfold u64_max; lia|exact Fd|exact Hrun']. }
  assert (∀ e, wrap64 (wrap64 (remaining + e) - 1) = wrap64 (remaining - 1 + e)) as Hwa.
  { intros e. unfold wrap64. rewrite Zminus_mod_idemp_l. f_equal. lia. }
  rewrite !Hwa in Hstep.
  unfold checked_add64, checked_mul2_add, checked_add64. destruct (maj =? 4).
  - destruct (Z.ltb_spec u64_max (remaining - 1 + extra)); [done|]. intros Hrun. rewrite Hw in Hstep by lia.
    eapply (Hstep (remaining - 1 + extra) b None); done || lia.
  - destruct (Z.ltb_spec u64_max (extra * 2)); [done|]. destruct (Z.ltb_spec u64_max (extra * 2 + (remaining - 1))); [done|].
    intros Hrun. rewrite (Hw (extra * 2)), Hw in Hstep by lia. rewrite (Z.add_comm (extra * 2)) in Hrun.
    eapply (Hstep (remaining - 1 + extra * 2) b None); done || lia.
Qed.

Lemma flush_accepts `{BS : Blockstore} `{!StoreTotal} (root : Cid) (s : BufferedBlockstore) :
  stored root → (∀ k b, bb_write s !! k = Some b → block_ok k b) → ∃ s', bb_flush root s = (Ok tt, s').
Proof using CPS.
  intros Hroot Hacc. assert (∀ blocks st, ∃ st', bs_put_many_keyed st blocks = (Ok tt, st')) as Hput.
  { induction blocks as [|[k b] blocks IH]; intros st; simpl; [eauto|].
    destruct (put_keyed_total st k b) as [st' ->]. apply IH. }
  destruct (take_loop_accepted (S (cid_weight root + cache_weight (bb_write s))) [root] [] (bb_write s)) as (taken & cache & Et).
  - unfold stack_weight. simpl. lia.
  - constructor; [by apply flush_stored|constructor].
  - done.
  - unfold bb_flush, take_reachable. rewrite Et. destruct (Hput taken (bb_base s)) as [base ->]. eauto.
Qed.

(** C19: The kernel's admission check covers what the flush needs: when every
    buffered block was accepted by the kernel's link scan, flushing a root of an
    allowed kind cannot fail or panic (over a client store that does not), and
    ends. *)
Theorem flush_accepts_kernel_blocks `{BS : Blockstore} `{!StoreTotal} (root : Cid) (s : BufferedBlockstore) :
  stored root →
  (∀ k b, bb_write s !! k = Some b → Forall is_byte b ∧ ∃ v v', scan_for_links_inner (cid_codec k) b v = (Ok tt, v')) →
  ∃ s', bb_flush root s = (Ok tt, s').
Proof using CPS cid_read_digest.
  intros Hroot Hacc. apply flush_accepts; [done|]. intros k b Hk. destruct (Hacc k b Hk) as (Fb & v & v' & Hscan).
  unfold block_ok, block_links. unfold scan_for_links_inner, links_inner in Hscan.
  destruct (cid_codec k =? DAG_CBOR); [|by exists []]. eapply accepted_scan; [|done|exact Hscan]. unfold u64_max. lia.
Qed.
End accepted.

(** ** The promises of a blockstore

    With hashes that do not collide, the buffer is a blockstore like the one
    below it: the state tree and the HAMTs run on it unchanged. *)

Section buffered_spec.
Context `{BSS : BlockstoreSpec}.
Context (collision_free : ∀ h b b', mh_digest h b = mh_digest h b' → b = b')
  (base_addressed : ∀ s k b, store_ok s → bs_get s k = Ok (Some b) → addressed k b).

Definition bb_le (s s' : BufferedBlockstore) : Prop :=
  store_le (bb_base s) (bb_base s') ∧ ∀ k b, bb_get s k = Ok (Some b) → bb_get s' k = Ok (Some b).

Lemma bb_get_addressed s k b : bb_ok s → bb_get s k = Ok (Some b) → addressed k b.
Proof using base_addressed.
  intros [Hs Ha]. unfold bb_get. destruct (bb_write s !! k) eqn:E; [intros [= <-]; by apply Ha|by apply base_addressed].
Qed.

(** A write leaves the client's store alone. *)
Definition bb_grow (s s' : BufferedBlockstore) : Prop :=
  bb_base s' = bb_base s ∧ ∀ k b, bb_get s k = Ok (Some b) → bb_get s' k = Ok (Some b).

Lemma bb_put_ok s k b r s' : bb_ok s → addressed k b → bb_put_keyed s k b = (r, s') → bb_ok s' ∧ bb_grow s s'.
Proof using base_addressed collision_free.
  intros Hok Hk [= <- <-]. pose proof Hok as [Hs Ha]. split.
  - split; [done|]. simpl. by apply map_Forall_insert_2.
  - split; [done|]. intros k' b' Hg. unfold bb_get. simpl. destruct (decide (k' = k)) as [->|Hne].
    + rewrite lookup_insert_eq. do 2 f_equal. apply bb_get_addressed in Hg; [|done]. unfold addressed in Hg, Hk.
      apply (collision_free (cid_hash_code k)). congruence.
    + rewrite lookup_insert_ne by done. exact Hg.
Qed.

Definition buffered_spec : @BlockstoreSpec (buffered_bs _).
Proof using base_addressed collision_free BSS.
  unshelve refine (@Build_BlockstoreSpec (buffered_bs _) bb_ok bb_grow _ _ _ _).
  - split; [by intros s; split|]. intros a b c [H1 H2] [H3 H4]. split; [congruence|auto].
  - intros s s' c b [_ Hg]. apply Hg.
  - intros s k b r s'. apply bb_put_ok.
  - intros s k b s' Hs Hk [= <-]. unfold bs_get, buffered_bs, bb_get. simpl. by rewrite lookup_insert_eq.
Defined.
#[export] Instance buffered_total : @StoreTotal (buffered_bs _).
Proof using. intros s k b. by eexists. Qed.

(** Flushing the buffer is a step forward of the store. *)
Lemma bb_flush_le `{CPS : CidParserSpec} root (s s' : BufferedBlockstore) :
  bb_ok s → bb_flush root s = (Ok tt, s') → bb_ok s' ∧ bb_le s s'.
Proof using.
  intros Hs Hf. destruct (flush_moves_reachable_lemma root s s' Hs Hf) as (? & ? & ? & _). split; [done|by split].
Qed.
End buffered_spec.

(** ** The counting blockstore (ipld/blockstore/src/tracking.rs)

    A wrapper that counts reads and writes, their bytes too, and otherwise only
    forwards. The counters are [usize]. *)

Module Tracking.
Record BSStats := mkStats { r : Z; w : Z; br : Z; bw : Z }.

Definition count_read (len : Z) (st : BSStats) : BSStats :=
  mkStats (wrap64 (r st + 1)) (w st) (wrap64 (br st + len)) (bw st).
Definition count_write (b : bytes) (st : BSStats) : BSStats :=
  mkStats (r st) (wrap64 (w st + 1)) (br st) (wrap64 (bw st + Z.of_nat (length b))).

Section tracking.
Context `{BS : Blockstore}.

Record TrackingBlockstore := mkTracking { base : Store; stats : BSStats }.
Definition tr_new (base : Store) : TrackingBlockstore := mkTracking base (mkStats 0 0 0 0).

Definition tr_get (t : TrackingBlockstore) (cid : Cid) : result string (option bytes) * TrackingBlockstore :=
  let bytes := bs_get (base t) cid in
  let len := match bytes with Ok (Some b) => Z.of_nat (length b) | _ => 0 end in
  (bytes, mkTracking (base t) (count_read len (stats t))).
Definition tr_has (t : TrackingBlockstore) (cid : Cid) : result string bool * TrackingBlockstore :=
  (bs_has (base t) cid, mkTracking (base t) (count_read 0 (stats t))).
Definition tr_put (t : TrackingBlockstore) (code codec : Z) (data : bytes) : result string Cid * TrackingBlockstore :=
  let '(res, s) := bs_put (base t) code codec data in (res, mkTracking s (count_write data (stats t))).
Definition tr_put_keyed (t : TrackingBlockstore) (k : Cid) (block : bytes) : result string unit * TrackingBlockstore :=
  let '(res, s) := bs_put_keyed (base t) k block in (res, mkTracking s (count_write block (stats t))).

(** The blocks the base takes from the iterator: up to the first it refuses. *)
Fixpoint taken (s : Store) (blocks : list (Cid * bytes)) : list bytes :=
  match blocks with
  | [] => []
  | (k, b) :: blocks => b :: match bs_put_keyed s k b with (Ok _, s') => taken s' blocks | (Err _, _) => [] end
  end.
Definition tr_put_many_keyed (t : TrackingBlockstore) (blocks : list (Cid * bytes))
    : result string unit * TrackingBlockstore :=
  let '(res, s) := bs_put_many_keyed (base t) blocks in
  (res, mkTracking s (foldl (λ st b, count_write b st) (stats t) (taken (base t) blocks))).
Definition tr_put_many (t : TrackingBlockstore) (blocks : list (Z * (Z * bytes))) : result string unit * TrackingBlockstore :=
  tr_put_many_keyed t ((λ '(mc, (codec, data)), (block_cid codec mc data, data)) <$> blocks).

(** Requests to a store, to the base itself and through the wrapper. *)
Inductive Req :=
  | RGet (k : Cid) | RHas (k : Cid) | RPut (code codec : Z) (data : bytes) | RPutKeyed (k : Cid) (b : bytes)
  | RPutMany (blocks : list (Cid * bytes)).
Inductive Ans :=
  | AGet (a : result string (option bytes)) | AHas (a : result string bool) | APut (a : result string Cid)
  | ADone (a : result string unit).
Definition ask (q : Req) (s : Store) : Ans * Store :=
  match q with
  | RGet k => (AGet (bs_get s k), s)
  | RHas k => (AHas (bs_has s k), s)
  | RPut code codec data => let '(a, s) := bs_put s code codec data in (APut a, s)
  | RPutKeyed k b => let '(a, s) := bs_put_keyed s k b in (ADone a, s)
  | RPutMany blocks => let '(a, s) := bs_put_many_keyed s blocks in (ADone a, s)
  end.
Definition ask_tracked (q : Req) (t : TrackingBlockstore) : Ans * TrackingBlockstore :=
  match q with
  | RGet k => let '(a, t) := tr_get t k in (AGet a, t)
  | RHas k => let '(a, t) := tr_has t k in (AHas a, t)
  | RPut code codec data => let '(a, t) := tr_put t code codec data in (APut a, t)
  | RPutKeyed k b => let '(a, t) := tr_put_keyed t k b in (ADone a, t)
  | RPutMany blocks => let '(a, t) := tr_put_many_keyed t blocks in (ADone a, t)
  end.

(** What a request adds to the counters: reads, writes, bytes read, bytes written. *)
Definition cost (q : Req) (s : Store) : Z * Z * Z * Z :=
  match q with
  | RGet k => (1, 0, match bs_get s k with Ok (Some b) => Z.of_nat (length b) | _ => 0 end, 0)
  | RHas _ => (1, 0, 0, 0)
  | RPut _ _ b | RPutKeyed _ b => (0, 1, 0, Z.of_nat (length b))
  | RPutMany blocks => (0, Z.of_nat (length (taken s blocks)), 0, Z.of_nat (sum_list (length <$> taken s blocks)))
  end.

Fixpoint serve {S A : Type} (f : Req → S → A * S) (qs : list Req) (s : S) : list A * S :=
  match qs with
  | [] => ([], s)
  | q :: qs => let '(a, s) := f q s in let '(l, s) := serve f qs s in (a :: l, s)
  end.
Definition add4 (x y : Z * Z * Z * Z) : Z * Z * Z * Z :=
  let '(a, b, c, d) := x in let '(a', b', c', d') := y in (a + a', b + b', c + c', d + d').
Fixpoint costs (qs : list Req) (s : Store) : Z * Z * Z * Z :=
  match qs with [] => (0, 0, 0, 0) | q :: qs => add4 (cost q s) (costs qs (ask q s).2) end.

Definition counted (st : BSStats) (c : Z * Z * Z * Z) : BSStats :=
  let '(a, b, x, y) := c in mkStats (wrap64 (r st + a)) (wrap64 (w st + b)) (wrap64 (br st + x)) (wrap64 (bw st + y)).
Definition in_range (st : BSStats) : Prop := in_u64 (r st) ∧ in_u64 (w st) ∧ in_u64 (br st) ∧ in_u64 (bw st).

Lemma wrap64_add a b : wrap64 (wrap64 a + b) = wrap64 (a + b).
Proof. apply Zplus_mod_idemp_l. Qed.
Lemma wrap64_range a : in_u64 (wrap64 a).
Proof. unfold in_u64, wrap64, u64_max. pose proof (Z.mod_pos_bound a 18446744073709551616). lia. Qed.

Lemma counted_range st c : in_range (counted st c).
Proof. destruct c as [[[]]]. split_and!; apply wrap64_range. Qed.
Lemma counted_add st c c' : counted (counted st c) c' = counted st (add4 c c').
Proof. destruct c as [[[]]], c' as [[[]]]. unfold counted; simpl. f_equal; rewrite wrap64_add; f_equal; lia. Qed.
Lemma counted_zero st : in_range st → counted st (0, 0, 0, 0) = st.
Proof. intros (H1 & H2 & H3 & H4). destruct st. unfold counted; simpl in *. f_equal; rewrite Z.add_0_r; by apply wrap64_small. Qed.

Lemma count_write_counted b st : in_range st → count_write b st = counted st (0, 1, 0, Z.of_nat (length b)).
Proof.
  intros (H1 & _ & H3 & _). unfold count_write, counted. f_equal; rewrite Z.add_0_r; symmetry; by apply wrap64_small.
Qed.
Lemma count_writes st l : in_range st →
  foldl (λ st b, count_write b st) st l = counted st (0, Z.of_nat (length l), 0, Z.of_nat (sum_list (length <$> l))).
Proof.
  intros Hst. revert st Hst. induction l as [|b l IH]; intros st Hst; [by rewrite counted_zero|]. cbn [foldl].
  rewrite (count_write_counted b st Hst).
  rewrite IH by apply counted_range. rewrite counted_add. unfold add4. rewrite fmap_cons. cbn [length sum_list].
  rewrite Nat2Z.inj_add, Nat2Z.inj_succ. unfold id. by rewrite (Z.add_comm 1).
Qed.

Lemma ask_tracked_spec q s st : in_range st →
  ask_tracked q (mkTracking s st) = ((ask q s).1, mkTracking (ask q s).2 (counted st (cost q s))).
Proof.
  intros Hst. pose proof Hst as (H1 & H2 & H3 & H4). destruct q as [k|k|code codec data|k b|blocks]; simpl.
  - unfold tr_get, count_read, counted. simpl. do 3 f_equal; rewrite Z.add_0_r; symmetry; by apply wrap64_small.
  - unfold tr_has, count_read, counted. simpl. do 3 f_equal; rewrite ?Z.add_0_r; try done; symmetry; by apply wrap64_small.
  - unfold tr_put. simpl. destruct (bs_put s code codec data) as [a s']. simpl. f_equal. f_equal. by apply count_write_counted.
  - unfold tr_put_keyed. simpl. destruct (bs_put_keyed s k b) as [a s']. simpl. f_equal. f_equal. by apply count_write_counted.
  - unfold tr_put_many_keyed. simpl. destruct (bs_put_many_keyed s blocks) as [a s']. simpl. f_equal. f_equal. by apply count_writes.
Qed.

(** counting does not show. Through the wrapper every request is answered as by
    the store below it, which ends up the same, and the counters are the sums of
    what was read and written (in 64 bits). *)
Theorem tracking_transparent qs s :
  serve ask_tracked qs (tr_new s) =
    ((serve ask qs s).1, mkTracking (serve ask qs s).2 (counted (mkStats 0 0 0 0) (costs qs s))).
Proof.
  unfold tr_new. generalize (mkStats 0 0 0 0) (ltac:(done) : in_range (mkStats 0 0 0 0)).
  revert s. induction qs as [|q qs IH]; intros s st Hst; cbn [serve costs fst snd]; [by rewrite counted_zero|].
  rewrite ask_tracked_spec by done. destruct (ask q s) as [a s'] eqn:Ha. cbn [fst snd]. rewrite IH by apply counted_range.
  destruct (serve ask qs s') as [l s'']. cbn [fst snd]. by rewrite counted_add.
Qed.
End tracking.
End Tracking.
