(* ===== verification/Car.v ===== *)
(** * CAR files (ipld/car/src/lib.rs, util.rs)

    A CAR file is a sequence of length-prefixed records: a CBOR header with the
    roots, then blocks, each with its CID in front. The reader is the bytes that
    are left; a source that fails for other reasons is not modelled. Varints,
    CIDs as bytes, CBOR and hash functions are interfaces. *)

From S2P Require Import Prelude Effects Address Types Ipld Buffered.
From stdpp Require Import gmap strings list fin_maps.
From Stdlib Require Import ZArith Lia.
#[local] Open Scope Z_scope.

(** [unsigned_varint::aio::read_usize] reads byte by byte. *)
Inductive VarRead := VarDone (n : Z) (rest : bytes) | VarEof | VarInvalid.
Class VarintIo `{Varint} := varint_read : bytes → VarRead.
(** Only the minimal encoding of a number is accepted. *)
Class VarintIoSpec `{VarintIo} : Prop := {
  varint_read_encode n rest : in_u64 n → varint_read (varint_encode n ++ rest) = VarDone n rest;
  varint_read_done bz n rest : varint_read bz = VarDone n rest → bz = varint_encode n ++ rest ∧ in_u64 n;
  varint_read_nil : varint_read [] = VarEof;
  varint_read_nonempty n : varint_encode n ≠ [];
}.

(** [Cid::to_bytes], the inverse of [Cid::read_bytes] on CIDs that fit: a digest has
    at most 64 bytes. *)
Class CidBytes := cid_to_bytes : Cid → bytes.
Definition cid_fits (c : Cid) : Prop :=
  in_u64 (cid_codec c) ∧ in_u64 (cid_hash_code c) ∧ (length (cid_digest c) ≤ 64)%nat.
Class CidBytesSpec `{CidParser, CidBytes} : Prop := {
  cid_read_to_bytes c rest : cid_fits c → cid_read_bytes (cid_to_bytes c ++ rest) = Ok (c, rest);
  cid_read_inv bz c rest : cid_read_bytes bz = Ok (c, rest) → bz = cid_to_bytes c ++ rest ∧ cid_fits c;
}.

Record CarHeader := mkCarHeader { roots : list Cid; version : Z }.
(** [From<Vec<Cid>>]. *)
Definition car_header (roots : list Cid) : CarHeader := mkCarHeader roots 1.

Inductive CarError := ParsingError (msg : string) | InvalidFile (msg : string) | IoError (msg : string)
  | CborError (msg : string) | OtherError (msg : string).

Section car.
Context `{VIO : VarintIo} `{CP : CidParser} `{CB : CidBytes} `{HC : Cbor CarHeader} `{BS : Blockstore}.
(** [Code::try_from]: the hash functions of [multihash_codetable]. *)
Context (hash_supported : Z → bool).

(** ** Records *)

(** [ld_read]: the end of the input inside the length counts as the end. *)
Definition ld_read (reader : bytes) : result CarError (option (bytes * bytes)) :=
  match varint_read reader with
  | VarEof => Ok None
  | VarInvalid => Err (ParsingError "{decode error}")
  | VarDone l rest =>
      let n := Z.to_nat l in
      if (length rest <? n)%nat then Err (IoError "expected to read at least {} bytes, but read {}")
      else Ok (Some (take n rest, drop n rest))
  end.
Definition ld_write (bz : bytes) : bytes := varint_encode (Z.of_nat (length bz)) ++ bz.

Definition read_node (reader : bytes) : result CarError (option (Cid * bytes * bytes)) :=
  match ld_read reader with
  | Err e => Err e
  | Ok None => Ok None
  | Ok (Some (buf, rest)) =>
      match cid_read_bytes buf with
      | Err msg => Err (OtherError msg)
      | Ok (cid, data) => Ok (Some (cid, data, rest))
      end
  end.

(** ** Writing *)

(** [CarHeader::write_stream_async]. *)
Definition write_node (b : Cid * bytes) : bytes := ld_write (cid_to_bytes b.1 ++ b.2).
Definition write_stream (h : CarHeader) (blocks : list (Cid * bytes)) : result CarError bytes :=
  match to_vec h with
  | Err e => Err (CborError e)
  | Ok header_bytes => Ok (ld_write header_bytes ++ concat (write_node <$> blocks))
  end.

(** ** Reading *)

Record CarReader := mkCarReader { cr_reader : bytes; cr_header : CarHeader; cr_validate : bool }.

(** [CarReader::new] and [new_unchecked]. *)
Definition car_reader_new (reader : bytes) : result CarError CarReader :=
  match ld_read reader with
  | Err e => Err e
  | Ok None => Err (ParsingError "failed to parse uvarint for header")
  | Ok (Some (buf, rest)) =>
      match from_slice buf with
      | Err e => Err (ParsingError e)
      | Ok header =>
          if (length (roots header) =? 0)%nat then Err (ParsingError "empty CAR file")
          else if negb (version header =? 1) then Err (InvalidFile "CAR file version must be 1")
          else Ok (mkCarReader rest header true)
      end
  end.
Definition car_reader_new_unchecked (reader : bytes) : result CarError CarReader :=
  match car_reader_new reader with
  | Err e => Err e
  | Ok r => Ok (mkCarReader (cr_reader r) (cr_header r) false)
  end.

(** The check of a block's CID in [next_block]. *)
Definition check_block (cid : Cid) (data : bytes) : result CarError unit :=
  if cid_hash_code cid =? 0 then
    if decide (cid_digest cid = data) then Ok tt
    else Err (InvalidFile "CAR has an identity CID that doesn't match the corresponding data")
  else if negb (hash_supported (cid_hash_code cid)) then Err (ParsingError "unsupported multihash code")
  else
    let actual := mkCid (cid_codec cid) (cid_hash_code cid) (mh_digest (cid_hash_code cid) data) in
    if decide (actual = cid) then Ok tt else Err (InvalidFile "CAR has an incorrect CID: expected {}, found {}").

Definition next_block (r : CarReader) : result CarError (option (Cid * bytes * CarReader)) :=
  match read_node (cr_reader r) with
  | Err e => Err e
  | Ok None => Ok None
  | Ok (Some (cid, data, rest)) =>
      match (if cr_validate r then check_block cid data else Ok tt) with
      | Err e => Err e
      | Ok _ => Ok (Some (cid, data, mkCarReader rest (cr_header r) (cr_validate r)))
      end
  end.

(** [CarReader::read_into]: blocks are written in batches; an error leaves the
    batches written before it. Every turn reads at least one byte. *)
Definition flush_batch (s : Store) (buf : list (Cid * bytes)) : result CarError unit * Store :=
  match bs_put_many_keyed s buf with
  | (Ok _, s') => (Ok tt, s')
  | (Err e, s') => (Err (OtherError e), s')
  end.
Fixpoint read_loop (fuel : nat) (r : CarReader) (buf : list (Cid * bytes)) (s : Store) : result CarError (list Cid) * Store :=
  match fuel with
  | O => (Err (OtherError "out of fuel"), s)
  | S fuel =>
      match next_block r with
      | Err e => (Err e, s)
      | Ok None =>
          match flush_batch s buf with
          | (Err e, s') => (Err e, s')
          | (Ok _, s') => (Ok (roots (cr_header r)), s')
          end
      | Ok (Some (cid, data, r')) =>
          let buf := buf ++ [(cid, data)] in
          if (1000 <? length buf)%nat then
            match flush_batch s buf with
            | (Err e, s') => (Err e, s')
            | (Ok _, s') => read_loop fuel r' [] s'
            end
          else read_loop fuel r' buf s
      end
  end.
Definition read_into (r : CarReader) (s : Store) : result CarError (list Cid) * Store :=
  read_loop (S (length (cr_reader r))) r [] s.

Definition load_car (s : Store) (reader : bytes) : result CarError (list Cid) * Store :=
  match car_reader_new reader with Err e => (Err e, s) | Ok r => read_into r s end.
Definition load_car_unchecked (s : Store) (reader : bytes) : result CarError (list Cid) * Store :=
  match car_reader_new_unchecked reader with Err e => (Err e, s) | Ok r => read_into r s end.
End car.

(** ** Records are read back *)

Section records.
Context `{VIS : VarintIoSpec} `{CBS : CidBytesSpec}.

Lemma ld_read_write bz rest : in_u64 (Z.of_nat (length bz)) → ld_read (ld_write bz ++ rest) = Ok (Some (bz, rest)).
Proof using VIS.
  intros H64. unfold ld_read, ld_write. rewrite <-app_assoc, varint_read_encode by done. rewrite Nat2Z.id, length_app.
  destruct (Nat.ltb_spec (length bz + length rest) (length bz)); [lia|].
  by rewrite take_app_length, drop_app_length.
Qed.

Lemma ld_read_inv reader bz rest : ld_read reader = Ok (Some (bz, rest)) →
  reader = ld_write bz ++ rest ∧ in_u64 (Z.of_nat (length bz)).
Proof using VIS.
  unfold ld_read, ld_write. destruct (varint_read reader) as [l r| |] eqn:E; [|done..].
  apply varint_read_done in E as [-> Hl]. destruct (Nat.ltb_spec (length r) (Z.to_nat l)); [done|].
  intros [= <- <-]. unfold in_u64 in *. rewrite length_take, Nat.min_l, Z2Nat.id by lia.
  by rewrite <-app_assoc, take_drop.
Qed.

Lemma ld_read_end reader : ld_read reader = Ok None → varint_read reader = VarEof.
Proof using. unfold ld_read. destruct (varint_read reader); [by case_match|done..]. Qed.

Lemma ld_write_length bz : (length bz < length (ld_write bz))%nat.
Proof using VIS.
  unfold ld_write. rewrite length_app.
  pose proof (varint_read_nonempty (Z.of_nat (length bz))). destruct (varint_encode _); [done|]. simpl. lia.
Qed.

(** What a block needs to be written and read back. *)
Definition node_fits (b : Cid * bytes) : Prop :=
  cid_fits b.1 ∧ in_u64 (Z.of_nat (length (cid_to_bytes b.1 ++ b.2))).

Lemma read_write_node b rest : node_fits b → read_node (write_node b ++ rest) = Ok (Some (b.1, b.2, rest)).
Proof using VIS CBS.
  intros [Hc Hl]. unfold read_node, write_node. rewrite ld_read_write by done. by rewrite cid_read_to_bytes.
Qed.

Lemma read_node_inv reader c d rest : read_node reader = Ok (Some (c, d, rest)) →
  reader = write_node (c, d) ++ rest ∧ node_fits (c, d) ∧ (length rest < length reader)%nat.
Proof using VIS CBS.
  unfold read_node. destruct (ld_read reader) as [[[buf r]|]|] eqn:E; [|done..].
  apply ld_read_inv in E as [-> Hl]. destruct (cid_read_bytes buf) as [[c' d']|] eqn:Ec; [|done]. intros [= <- <- <-].
  apply cid_read_inv in Ec as [-> Hc]. split_and!; [done|by split|].
  rewrite length_app. pose proof (ld_write_length (cid_to_bytes c' ++ d')). lia.
Qed.

Lemma read_node_end reader : read_node reader = Ok None → varint_read reader = VarEof.
Proof using.
  unfold read_node. destruct (ld_read reader) as [[[buf r]|]|] eqn:E; [by repeat case_match| |done].
  intros _. by apply ld_read_end.
Qed.
End records.

(** ** Loading *)

Section loading.
Context `{VIS : VarintIoSpec} `{CBS : CidBytesSpec} `{HC : Cbor CarHeader} `{BSS : BlockstoreSpec}.
Context (hash_supported : Z → bool).
(** The identity "hash" of data is the data. *)
Context (identity_digest : ∀ b, mh_digest 0 b = b).

(** A block whose CID [next_block] accepts. *)
Definition checked (b : Cid * bytes) : Prop := check_block hash_supported b.1 b.2 = Ok tt.

Lemma checked_addressed b : checked b → addressed b.1 b.2.
Proof using identity_digest.
  unfold checked, check_block, addressed. destruct (Z.eqb_spec (cid_hash_code b.1) 0) as [->|].
  - case_decide as E; [|done]. intros _. by rewrite identity_digest.
  - destruct (negb _); [done|]. case_decide as E; [|done]. intros _. by rewrite <-E.
Qed.

Lemma flush_batch_spec s buf r s' : store_ok s → Forall checked buf → flush_batch s buf = (r, s') →
  store_ok s' ∧ store_le s s' ∧ (r = Ok tt → ∀ k b, (k, b) ∈ buf → bs_get s' k = Ok (Some b)).
Proof using identity_digest BSS.
  intros Hs Hb. unfold flush_batch. destruct (bs_put_many_keyed s buf) as [r1 s1] eqn:E.
  eapply put_many_ok in E as (Hs1 & Hle & Hg); [|done|].
  - destruct r1 as [[]|e]; intros [= <- <-]; split_and!; auto; done.
  - intros k b Hin. rewrite Forall_forall in Hb. by apply (checked_addressed (k, b)), Hb.
Qed.

(** The blocks of [reader] up to a place where no length can be read. *)
Definition holds_blocks (reader : bytes) (blocks : list (Cid * bytes)) : Prop :=
  ∃ tail, reader = concat (write_node <$> blocks) ++ tail ∧ varint_read tail = VarEof ∧
    Forall node_fits blocks ∧ Forall checked blocks.

(** What a run of the loop leaves behind. *)
Definition loaded (s s' : Store) (buf : list (Cid * bytes)) (reader : bytes) (res : result CarError (list Cid)) : Prop :=
  store_ok s' ∧ store_le s s' ∧
  ∀ rs, res = Ok rs → ∃ blocks, holds_blocks reader blocks ∧ ∀ k b, (k, b) ∈ buf ++ blocks → bs_get s' k = Ok (Some b).

Lemma next_block_inv r c d r' : cr_validate r = true → next_block hash_supported r = Ok (Some (c, d, r')) →
  cr_reader r = write_node (c, d) ++ cr_reader r' ∧ node_fits (c, d) ∧ checked (c, d) ∧ (length (cr_reader r') < length (cr_reader r))%nat ∧
  cr_header r' = cr_header r ∧ cr_validate r' = true.
Proof using VIS CBS.
  intros Hv. unfold next_block. rewrite Hv. destruct (read_node (cr_reader r)) as [[[[c' d'] rest]|]|] eqn:E; [|done..].
  apply read_node_inv in E as (E & Hf & Hl). destruct (check_block hash_supported c' d') as [[]|] eqn:Ec; [|done].
  by intros [= <- <- <-].
Qed.

Lemma loaded_cons s1 s2 s' buf buf' reader reader' c d res : reader = write_node (c, d) ++ reader' → node_fits (c, d) → checked (c, d) →
  store_le s1 s2 → (∀ k b, (k, b) ∈ buf ++ [(c, d)] → (k, b) ∈ buf' ∨ bs_get s2 k = Ok (Some b)) →
  loaded s2 s' buf' reader' res → loaded s1 s' buf reader res.
Proof using.
  intros -> Hf Hc Hle Hbuf (Hs & Hle' & Hr). split_and!; [done|by etrans|]. intros rs Hrs.
  destruct (Hr rs Hrs) as (blocks & (tail & -> & Ht & HN & HF) & Hg). exists ((c, d) :: blocks). split.
  - exists tail. split_and!; [by simpl; rewrite <-app_assoc|done|by constructor..].
  - intros k b. rewrite cons_middle, (app_assoc buf), elem_of_app. intros [Hin|Hin].
    + destruct (Hbuf k b Hin) as [?|?]; [apply Hg, elem_of_app; by left|by eapply store_le_get].
    + apply Hg, elem_of_app. by right.
Qed.

Lemma read_loop_loaded n r buf s res s' : (length (cr_reader r) < n)%nat → cr_validate r = true → store_ok s → Forall checked buf →
  read_loop hash_supported n r buf s = (res, s') →
  loaded s s' buf (cr_reader r) res ∧ (∀ rs, res = Ok rs → rs = roots (cr_header r)).
Proof using VIS CBS identity_digest BSS.
  revert r buf s. induction n as [|n IH]; intros r buf s Hn Hv Hs Hb; [lia|]. simpl.
  destruct (next_block hash_supported r) as [[[[c d] r']|]|e] eqn:E; cycle 1.
  - destruct (flush_batch s buf) as [fr s1] eqn:Ef. destruct (flush_batch_spec _ _ _ _ Hs Hb Ef) as (Hs1 & Hle & Hg).
    destruct fr as [[]|e]; intros [= <- <-]; (split; [split_and!; [done..|]|by intros rs [= <-]]); [|done].
    intros rs _. exists []. rewrite app_nil_r. split; [|by apply Hg]. exists (cr_reader r). split_and!; [done| |constructor..].
    unfold next_block in E. destruct (read_node (cr_reader r)) as [[[[c d] r']|]|] eqn:E'; [by repeat case_match| |done].
    by apply read_node_end.
  - intros [= <- <-]. by repeat split.
  - apply next_block_inv in E as (Er & Hf & Hc & Hl & Hh & Hv'); [|done].
    assert (Forall checked (buf ++ [(c, d)])) as Hb' by (apply Forall_app; auto).
    destruct (1000 <? _)%nat.
    + destruct (flush_batch s (buf ++ [(c, d)])) as [fr s1] eqn:Ef.
      destruct (flush_batch_spec _ _ _ _ Hs Hb' Ef) as (Hs1 & Hle & Hg).
      destruct fr as [[]|e]; [|intros [= <- <-]; by repeat split]. rewrite <-Hh. intros Hrun.
      apply IH in Hrun as [Hld ?]; [|lia|done..|constructor]. split; [|done].
      eapply (loaded_cons s s1); [done..| |done]. intros k b Hin. right. by apply Hg.
    + rewrite <-Hh. intros Hrun. apply IH in Hrun as [Hld ?]; [|lia|done..]. split; [|done].
      eapply (loaded_cons s s); [done..| |done]. by left.
Qed.

(** More fuel than bytes gives the same run. *)
Lemma read_loop_fuel n1 n2 r buf s : (length (cr_reader r) < n1)%nat → (length (cr_reader r) < n2)%nat →
  read_loop hash_supported n1 r buf s = read_loop hash_supported n2 r buf s.
Proof using VIS CBS.
  revert n2 r buf s. induction n1 as [|n1 IH]; intros [|n2] r buf s Hn1 Hn2; try lia. simpl.
  destruct (next_block hash_supported r) as [[[[c d] r']|]|e] eqn:E; [|done..].
  assert (length (cr_reader r') < length (cr_reader r))%nat.
  { unfold next_block in E. destruct (read_node (cr_reader r)) as [[[[c' d'] rest]|]|] eqn:E'; [|done..].
    apply read_node_inv in E' as (_ & _ & ?). destruct (if _ : bool then _ else _); [|done]. by simplify_eq. }
  destruct (_ <? _)%nat; [destruct (flush_batch _ _) as [[]]; [|done]|]; apply IH; lia.
Qed.

Lemma car_reader_new_inv reader r : car_reader_new reader = Ok r →
  ∃ bz, reader = ld_write bz ++ cr_reader r ∧ from_slice bz = Ok (cr_header r) ∧ roots (cr_header r) ≠ [] ∧
    version (cr_header r) = 1 ∧ cr_validate r = true.
Proof using VIS.
  unfold car_reader_new. destruct (ld_read reader) as [[[bz rest]|]|] eqn:E; [|done..]. apply ld_read_inv in E as [-> _].
  destruct (from_slice bz) as [h|] eqn:Eh; [|done]. destruct (Nat.eqb_spec (length (roots h)) 0) as [|Hr]; [done|].
  destruct (Z.eqb_spec (version h) 1); [|done]. intros [= <-]. exists bz. split_and!; try done.
  intros E0. simpl in E0. by rewrite E0 in Hr.
Qed.

(** C39: Loading any bytes as a CAR file only adds blocks to the store, each under
    a CID that its content hashes to, also when loading fails on the way. When it
    succeeds the bytes are a header of version 1 followed by blocks up to a place
    where no further length can be read, the result is the (non-empty) roots of the
    header, and each of the blocks can be read from the store. *)
Theorem load_car_sound (s s' : Store) (reader : bytes) (res : result CarError (list Cid)) : store_ok s →
  load_car hash_supported s reader = (res, s') →
  store_ok s' ∧ store_le s s' ∧
  ∀ rs, res = Ok rs → ∃ bz h rest blocks,
    reader = ld_write bz ++ rest ∧ from_slice bz = Ok h ∧ version h = 1 ∧ roots h = rs ∧ rs ≠ [] ∧
    holds_blocks rest blocks ∧ ∀ k b, (k, b) ∈ blocks → bs_get s' k = Ok (Some b).
Proof using VIS CBS identity_digest BSS.
  intros Hs. unfold load_car, read_into. destruct (car_reader_new reader) as [r|e] eqn:E; [|intros [= <- <-]; by repeat split].
  apply car_reader_new_inv in E as (bz & -> & Hh & Hr & Hv & Hval). intros Hrun.
  apply read_loop_loaded in Hrun as [(Hs' & Hle & Hld) Hroots]; [|lia|done..|constructor]. split_and!; [done..|].
  intros rs Hrs. destruct (Hld rs Hrs) as (blocks & Hb & Hg). rewrite (Hroots rs Hrs). by exists bz, (cr_header r), (cr_reader r), blocks.
Qed.

(** ** Round trip *)

Context `{ST : !StoreTotal} `{CHS : !CborSpec CarHeader}.

Lemma put_many_total s blocks : ∃ s', bs_put_many_keyed s blocks = (Ok tt, s').
Proof using ST.
  revert s. induction blocks as [|[k b] blocks IH]; intros s; simpl; [eauto|].
  destruct (put_keyed_total s k b) as [s1 ->]. apply IH.
Qed.
Lemma flush_batch_total s buf : ∃ s', flush_batch s buf = (Ok tt, s').
Proof using ST. unfold flush_batch. destruct (put_many_total s buf) as [s' ->]. eauto. Qed.

Lemma next_block_write h b rest : node_fits b → checked b →
  next_block hash_supported (mkCarReader (write_node b ++ rest) h true) = Ok (Some (b.1, b.2, mkCarReader rest h true)).
Proof using VIS CBS. intros Hf Hc. unfold next_block. simpl. rewrite read_write_node by done. by rewrite Hc. Qed.

(** The loop gets through blocks that were written. *)
Lemma read_loop_ok n h blocks buf s : (length (concat (write_node <$> blocks)) < n)%nat →
  Forall node_fits blocks → Forall checked blocks →
  ∃ s', read_loop hash_supported n (mkCarReader (concat (write_node <$> blocks)) h true) buf s = (Ok (roots h), s').
Proof using VIS CBS ST.
  revert n buf s. induction blocks as [|b blocks IH]; intros [|n] buf s Hn Hf Hc; try lia; cbn [read_loop].
  - assert (next_block hash_supported (mkCarReader (concat (write_node <$> [])) h true) = Ok None) as ->.
    { unfold next_block, read_node, ld_read. simpl. by rewrite varint_read_nil. }
    destruct (flush_batch_total s buf) as [s' ->]. eauto.
  - rewrite fmap_cons in *. cbn [concat] in *. apply Forall_cons in Hf as [Hf1 Hf], Hc as [Hc1 Hc].
    rewrite next_block_write by done. rewrite length_app in Hn.
    assert (length (concat (write_node <$> blocks)) < n)%nat as Hn'.
    { pose proof (ld_write_length (cid_to_bytes b.1 ++ b.2)). unfold write_node in Hn at 1. lia. }
    destruct (_ <? _)%nat; [|by apply IH]. destruct (flush_batch_total s (buf ++ [(b.1, b.2)])) as [s1 ->]. by apply IH.
Qed.

(** Bytes hold the same blocks however they are read. *)
Lemma holds_blocks_written blocks blocks' : Forall node_fits blocks →
  holds_blocks (concat (write_node <$> blocks)) blocks' → blocks' = blocks.
Proof using VIS CBS.
  intros Hf (tail & E & Ht & Hf' & _). revert blocks' E Hf'.
  induction Hf as [|[c d] blocks Hb Hf IH]; intros [|[c' d'] blocks'] E Hf'; [done| | |].
  - apply Forall_cons in Hf' as [Hb' _]. rewrite fmap_cons in E. cbn [concat] in E. rewrite <-app_assoc in E.
    assert (Hr := read_write_node (c', d') (concat (write_node <$> blocks') ++ tail) Hb').
    rewrite <-E in Hr. unfold read_node, ld_read in Hr. simpl in Hr. by rewrite varint_read_nil in Hr.
  - assert (Hr := read_write_node (c, d) (concat (write_node <$> blocks)) Hb). rewrite fmap_cons in E. cbn [concat] in E.
    rewrite E in Hr. unfold read_node, ld_read in Hr. simpl in Hr. by rewrite Ht in Hr.
  - apply Forall_cons in Hf' as [Hb' Hf']. rewrite !fmap_cons in E. cbn [concat] in E. rewrite <-app_assoc in E.
    assert (Hr := read_write_node (c, d) (concat (write_node <$> blocks)) Hb). rewrite E, (read_write_node (c', d')) in Hr by done.
    injection Hr as -> -> Er. f_equal. apply IH; [|done]. by rewrite Er.
Qed.

(** A CAR file that was written with a header of version 1 and at least one
    root, and with blocks whose CIDs match their content, loads into any store
    that does not fail: the result is the roots, the store keeps what it had, and
    every block of the file can be read from it. *)
Theorem car_roundtrip (s : Store) (h : CarHeader) (blocks : list (Cid * bytes)) : store_ok s →
  roots h ≠ [] → version h = 1 → (∀ bz, to_vec h = Ok bz → in_u64 (Z.of_nat (length bz))) →
  Forall node_fits blocks → Forall checked blocks →
  ∃ bz s', write_stream h blocks = Ok bz ∧ load_car hash_supported s bz = (Ok (roots h), s') ∧
    store_ok s' ∧ store_le s s' ∧ ∀ k b, (k, b) ∈ blocks → bs_get s' k = Ok (Some b).
Proof using VIS CBS ST CHS identity_digest BSS.
  intros Hs Hr Hv H64 Hf Hc. destruct (from_to_vec h) as (hb & Eh & Eh'). specialize (H64 hb Eh).
  unfold write_stream. rewrite Eh. eexists. unfold load_car, car_reader_new. rewrite ld_read_write by done.
  rewrite Eh', Hv. destruct (Nat.eqb_spec (length (roots h)) 0) as [E0%length_zero_iff_nil|_]; [done|]. simpl. unfold read_into. simpl.
  edestruct (read_loop_ok (S (length (concat (write_node <$> blocks)))) h blocks [] s) as [s' Hrun]; [lia|done..|].
  exists s'. split; [done|]. split; [done|].
  apply read_loop_loaded in Hrun as [(Hs' & Hle & Hld) _]; simpl; [|lia|done..|constructor].
  destruct (Hld _ eq_refl) as (blocks' & Hb & Hg). simpl in Hb. rewrite (holds_blocks_written _ _ Hf Hb) in Hg. done.
Qed.
End loading.
