(* ===== verification/AmtEvents.v ===== *)
(** * The root of a message's events (EventsAccumulator::finish)

    The call manager computes the root CID of the events of a message by building
    an AMT over a store that forgets every block and refuses every read. An AMT
    that is only filled never reads, and its CIDs depend on the blocks alone: the
    root is the one a real store would hold. *)

From S2P Require Import Prelude Effects Gas PriceList Address HistoryMap Types Amt AmtRep AmtMap AmtTop Machine Ipld Buffered.
From stdpp Require Import gmap strings list fin_maps.
From Stdlib Require Import ZArith Lia.
#[local] Open Scope Z_scope.

Definition EVENTS_AMT_BITWIDTH : Z := 5.

(** The root of the events, as [finish] computes it. *)
Definition events_root `{BS : Blockstore} `{CB : !AmtCodec StampedEvent} (events : list StampedEvent) : result string Cid :=
  match (new_from_iter_with_bit_width (BS := discard_bs BS) V3 tt EVENTS_AMT_BITWIDTH events).1 with
  | Ok c => Ok c
  | Err _ => Err "failed to construct events AMT"%string
  end.

(** ** Two stores that hash alike *)

(** Induction on a node, through its dirty links. *)
Section node_ind.
Context {V : Type} (Q : Node V → Prop).
Definition dirty_sat (o : option (Link V)) : Prop := match o with Some (LinkDirty n) => Q n | _ => True end.
Context (Hleaf : ∀ vals, Q (NodeLeaf vals)) (Hlink : ∀ links, Forall dirty_sat links → Q (NodeLink links)).
Fixpoint Node_dirty_ind (n : Node V) : Q n :=
  match n with
  | NodeLeaf vals => Hleaf vals
  | NodeLink links =>
      Hlink links ((fix go (links : list (option (Link V))) : Forall dirty_sat links :=
        match links with
        | [] => Forall_nil_2 _
        | o :: links =>
            Forall_cons_2 _ _ _
              (match o as o return dirty_sat o with
               | Some (LinkDirty n) => Node_dirty_ind n
               | Some (LinkCid _ _) => I
               | None => I
               end) (go links)
        end) links)
  end.
End node_ind.

(** Without stored nodes. *)
Inductive in_memory {V} : Node V → Prop :=
  | in_memory_leaf vals : in_memory (NodeLeaf vals)
  | in_memory_link links : (∀ l, Some l ∈ links → ∃ n, l = LinkDirty n ∧ in_memory n) → in_memory (NodeLink links).

Section two_stores.
Context {BS1 BS2 : Blockstore} {ST1 : @StoreTotal BS1} {ST2 : @StoreTotal BS2}.
Context {V : Type} `{CB : !AmtCodec V} (ver : Version).
Context (same_digest : ∀ h d, @mh_digest BS1 h d = @mh_digest BS2 h d).
Implicit Types (n : Node V) (r : RootImpl V) (t : AmtImpl V).

Lemma put_cbor_same {T} `{!Cbor T} (s1 : @Store BS1) (s2 : @Store BS2) (x : T) :
  (put_cbor s1 x BLAKE2B_256).1 = (put_cbor s2 x BLAKE2B_256).1.
Proof using same_digest ST1 ST2.
  unfold put_cbor, bs_put, block_cid. destruct (to_vec x) as [bz|]; [|done]. rewrite same_digest.
  destruct (@put_keyed_total BS1 ST1 s1 (mkCid DAG_CBOR BLAKE2B_256 (@mh_digest BS2 BLAKE2B_256 bz)) bz) as [? ->].
  by destruct (@put_keyed_total BS2 ST2 s2 (mkCid DAG_CBOR BLAKE2B_256 (@mh_digest BS2 BLAKE2B_256 bz)) bz) as [? ->].
Qed.
Lemma put_node_same (s1 : @Store BS1) (s2 : @Store BS2) n : (put_node s1 n).1 = (put_node s2 n).1.
Proof using same_digest ST1 ST2.
  unfold put_node. destruct (node_serialize n) as [b|]; [|done]. pose proof (put_cbor_same s1 s2 b) as E.
  destruct (put_cbor s1 b _), (put_cbor s2 b _). simpl in *. by rewrite E.
Qed.
Lemma node_flush_same n : ∀ (s1 : @Store BS1) (s2 : @Store BS2), (node_flush s1 n).1 = (node_flush s2 n).1.
Proof using same_digest ST1 ST2.
  induction n as [vals|links IH] using Node_dirty_ind; intros s1 s2; [done|]. cbn [node_flush].
  assert ((flush_links node_flush s1 links).1 = (flush_links node_flush s2 links).1) as E.
  2:{ destruct (flush_links _ s1 links) as [[? ?] ?], (flush_links _ s2 links) as [[? ?] ?]. simpl in *. congruence. }
  revert s1 s2. induction IH as [|o links Ho _ IHl]; intros s1 s2; [done|].
  assert (∀ (s1 : @Store BS1) (s2 : @Store BS2) (x : option (Link V)),
    (let '(r, links, s) := flush_links node_flush s1 links in (r, x :: links, s)).1 =
    (let '(r, links, s) := flush_links node_flush s2 links in (r, x :: links, s)).1) as Hx.
  { intros a b x. specialize (IHl a b). destruct (flush_links _ a links) as [[? ?] ?], (flush_links _ b links) as [[? ?] ?]. simpl in *. congruence. }
  destruct o as [[c cache|n]|]; cbn [flush_links]; [apply Hx| |apply Hx]. specialize (Ho s1 s2).
  destruct (node_flush s1 n) as [[[?|?] n1] a1], (node_flush s2 n) as [[[?|?] n2] a2]; simpl in Ho; simplify_eq; [|done].
  pose proof (put_node_same a1 a2 n2) as Ep. destruct (put_node a1 n2) as [[c1|?] b1], (put_node a2 n2) as [[c2|?] b2]; simpl in Ep; simplify_eq; [|done].
  apply Hx.
Qed.
Lemma flush_same (s1 : @Store BS1) (s2 : @Store BS2) t : (flush ver s1 t).1 = (flush ver s2 t).1.
Proof using same_digest ST1 ST2.
  unfold flush. destruct (flushed_cid t); [done|]. pose proof (node_flush_same (node (root t)) s1 s2) as E.
  destruct (node_flush s1 _) as [[[?|?] n1] a1], (node_flush s2 _) as [[[?|?] n2] a2]; simpl in E; simplify_eq; [|done].
  set (r := set_node n2 (root t)). assert ((put_root ver a1 r).1 = (put_root ver a2 r).1) as Ep.
  { unfold put_root. destruct (node_serialize (node r)) as [b|]; [|done]. destruct ver.
    - pose proof (put_cbor_same a1 a2 (Z.of_nat (height r), count r, b)) as Ec. destruct (put_cbor a1 _ _), (put_cbor a2 _ _). simpl in *. by rewrite Ec.
    - pose proof (put_cbor_same a1 a2 (bit_width r, Z.of_nat (height r), count r, b)) as Ec. destruct (put_cbor a1 _ _), (put_cbor a2 _ _). simpl in *. by rewrite Ec. }
  destruct (put_root ver a1 r) as [[?|?] ?], (put_root ver a2 r) as [[?|?] ?]; simpl in Ep; by simplify_eq.
Qed.

(** ** Filling reads nothing *)

Lemma new_sub_in_memory h bw : in_memory (new_sub_node (V := V) h bw).
Proof using. destruct h; constructor. intros l Hl. by apply elem_of_replicate in Hl as [? _]. Qed.

Lemma node_set_same (s1 : @Store BS1) (s2 : @Store BS2) h bw v : ∀ n i, in_memory n →
  node_set s1 h bw i v n = node_set s2 h bw i v n ∧ in_memory (node_set s1 h bw i v n).2.
Proof using.
  induction h as [|h IH]; intros n i Hn; cbn [node_set].
  { split; [done|]. destruct n as [links|vals]; [done|]. simpl. destruct (vals !! Z.to_nat i); [constructor|done]. }
  destruct n as [links|vals]; [|done]. destruct (links !! Z.to_nat _) as [o|] eqn:Ho; [|done].
  inversion Hn as [|? Hl]; subst. set (j := Z.to_nat (i / nodes_for_height bw (S h))) in *.
  assert (∀ sub, in_memory sub → in_memory (set_link j (Some (LinkDirty sub)) links)) as Hset.
  { intros sub Hsub. constructor. intros l Hin. apply list_elem_of_lookup in Hin as [j' Hj'].
    apply list_lookup_insert_Some in Hj' as [(_ & [= <-] & _)|[_ Hj']]; [by eauto|]. apply Hl. by eapply list_elem_of_lookup_2. }
  destruct o as [[c cache|sub]|].
  - destruct (Hl (LinkCid c cache)) as (? & ? & _); [by eapply list_elem_of_lookup_2|]. done.
  - destruct (Hl (LinkDirty sub)) as (sub' & [= <-] & Hsub); [by eapply list_elem_of_lookup_2|].
    destruct (IH sub (i `mod` nodes_for_height bw (S h)) Hsub) as [E Hm]. rewrite E in Hm |- *.
    destruct (node_set s2 h bw _ v sub) as [res sub']. split; [done|]. by apply Hset.
  - destruct (IH (new_sub_node h bw) (i `mod` nodes_for_height bw (S h)) (new_sub_in_memory h bw)) as [E Hm]. rewrite E in Hm |- *.
    destruct (node_set s2 h bw _ v _) as [res sub']. split; [done|]. by apply Hset.
Qed.

Lemma grow_in_memory fuel i : ∀ r r', grow fuel i r = Ok r' → in_memory (node r) → in_memory (node r').
Proof using.
  induction fuel as [|fuel IH]; intros r r'; cbn [grow]; (destruct (_ <=? i); [|by intros [= <-]]); [done|].
  intros Hg Hm. eapply IH; [exact Hg|]. simpl. destruct (node_is_empty (node r)); constructor; intros l Hl.
  - by apply elem_of_replicate in Hl as [? _].
  - apply list_elem_of_lookup in Hl as [j Hj]. apply list_lookup_insert_Some in Hj as [(_ & [= <-] & _)|[_ Hj]]; [by eauto|].
    by apply lookup_replicate in Hj as [? _].
Qed.

Lemma set_same (s1 : @Store BS1) (s2 : @Store BS2) i v t : in_memory (node (root t)) →
  set s1 i v t = set s2 i v t ∧ in_memory (node (root (set s1 i v t).2)).
Proof using.
  intros Hm. unfold set. destruct (_ <? i); [done|]. destruct (grow 64 i (root t)) as [r|] eqn:Eg; [|done].
  destruct (node_set_same s1 s2 (height r) (bit_width r) v (node r) i (grow_in_memory _ _ _ _ Eg Hm)) as [E Hn].
  rewrite E in Hn |- *. by destruct (node_set s2 _ _ _ _ _) as [[?|?] ?].
Qed.
Lemma batch_set_same (s1 : @Store BS1) (s2 : @Store BS2) vals : ∀ i t, in_memory (node (root t)) →
  batch_set_from s1 i vals t = batch_set_from s2 i vals t.
Proof using.
  induction vals as [|v vals IH]; intros i t Hm; cbn [batch_set_from]; [done|]. destruct (set_same s1 s2 i v t Hm) as [E Hm'].
  rewrite E in Hm' |- *. destruct (set s2 i v t) as [[?|?] t']; [by apply IH|done].
Qed.
Lemma from_iter_same (s1 : @Store BS1) (s2 : @Store BS2) bw vals :
  (new_from_iter_with_bit_width ver s1 bw vals).1 = (new_from_iter_with_bit_width ver s2 bw vals).1.
Proof using same_digest ST1 ST2.
  unfold new_from_iter_with_bit_width, batch_set. rewrite (batch_set_same s1 s2) by constructor.
  destruct (batch_set_from s2 0 vals _) as [[?|?] t]; [|done]. pose proof (flush_same s1 s2 t) as E.
  destruct (flush ver s1 t) as [[? ?] ?], (flush ver s2 t) as [[? ?] ?]. simpl in *. congruence.
Qed.
End two_stores.

(** ** The events root *)

(** The values at their positions. *)
Definition indexed {V} (vals : list V) : gmap Z V := (ref_batch_set 0 vals ∅).2.

Lemma ref_batch_set_lookup {V} (vals : list V) : ∀ i (m : gmap Z V), i + Z.of_nat (length vals) ≤ MAX_INDEX + 1 →
  (ref_batch_set i vals m).1 = Ok tt ∧
  ∀ k, (ref_batch_set i vals m).2 !! k = if decide (i ≤ k < i + Z.of_nat (length vals)) then vals !! Z.to_nat (k - i) else m !! k.
Proof.
  induction vals as [|v vals IH]; intros i m Hl; cbn [ref_batch_set length] in *.
  { split; [done|]. intros k. case_decide; [lia|done]. }
  destruct (Z.ltb_spec MAX_INDEX i); [lia|]. destruct (IH (i + 1) (<[i := v]> m) ltac:(lia)) as [E Hk]. split; [done|].
  intros k. rewrite Hk. destruct (decide (k = i)) as [->|Hne].
  - rewrite decide_False, decide_True by lia. by rewrite lookup_insert_eq, Z.sub_diag.
  - rewrite lookup_insert_ne by done. repeat case_decide; try lia; [|done].
    replace (Z.to_nat (k - i)) with (S (Z.to_nat (k - (i + 1)))) by lia. done.
Qed.
Lemma indexed_lookup {V} (vals : list V) k : Z.of_nat (length vals) ≤ MAX_INDEX + 1 →
  indexed vals !! k = if decide (0 ≤ k) then vals !! Z.to_nat k else None.
Proof.
  intros Hl. unfold indexed. destruct (ref_batch_set_lookup vals 0 ∅ ltac:(lia)) as [_ ->]. rewrite Z.sub_0_r, lookup_empty.
  repeat case_decide; try lia; [done| |done]. symmetry. apply lookup_ge_None. lia.
Qed.

Lemma ref_batch_set_size {V} (vals : list V) : ∀ i (m : gmap Z V), i + Z.of_nat (length vals) ≤ MAX_INDEX + 1 →
  (∀ k, i ≤ k → m !! k = None) → size (ref_batch_set i vals m).2 = (size m + length vals)%nat.
Proof.
  induction vals as [|v vals IH]; intros i m Hl Hm; cbn [ref_batch_set length] in *; [simpl; lia|].
  destruct (Z.ltb_spec MAX_INDEX i); [lia|]. rewrite IH; [|lia|].
  - rewrite map_size_insert_None by (apply Hm; lia). lia.
  - intros k Hk. rewrite lookup_insert_ne by lia. apply Hm. lia.
Qed.

#[export] Instance discard_total (BS : Blockstore) : @StoreTotal (discard_bs BS).
Proof. intros s k b. by exists tt. Qed.

Section events.
Context `{BSS : BlockstoreSpec} `{ST : !StoreTotal} `{CB : !AmtCodec StampedEvent} `{CS : !AmtCodecSpec StampedEvent}.

(** C29: the root of a message's events is right without a store. For any
    list of events that fits an AMT, the root computed over the discarding store is found (no
    read is attempted), finishing the accumulator succeeds with it, and it is the CID that building the same AMT in a real store gives, where it loads
    back as the array of the events in emission order. *)
Theorem events_root_real (s : Store) (evs : list StampedEvent) (Hs : store_ok s) (Hne : evs ≠ [])
    (Hlen : Z.of_nat (length evs) ≤ MAX_INDEX + 1) :
  ∃ c s' t, events_root evs = Ok c ∧ evs_finish events_root (mkEvents evs []) = Ok (evs, Some c) ∧
    new_from_iter_with_bit_width V3 s EVENTS_AMT_BITWIDTH evs = (Ok c, s') ∧
    load V3 s' c = Ok t ∧ amt_rep V3 EVENTS_AMT_BITWIDTH s' t (indexed evs) ∧
    count (root t) = Z.of_nat (length evs) ∧
    ∀ i, (i < length evs)%nat → ∃ t', get s' (Z.of_nat i) t = (Ok (evs !! i), t').
Proof using BSS ST CS.
  assert (1 ≤ EVENTS_AMT_BITWIDTH ≤ 63) as Hbw by (cbv; split; congruence).
  pose proof (from_iter_same (BS1 := discard_bs BS) (BS2 := BS) V3 (λ _ _, eq_refl) tt s EVENTS_AMT_BITWIDTH evs) as Esame.
  destruct (batch_set_ok V3 EVENTS_AMT_BITWIDTH Hbw s evs 0 _ ∅ ltac:(lia) (amt_new_ok V3 EVENTS_AMT_BITWIDTH Hbw s)) as (t1 & E1 & H1).
  destruct (ref_batch_set_lookup evs 0 (∅ : gmap Z StampedEvent) ltac:(lia)) as [Eok _]. rewrite Eok in E1.
  destruct (amt_flush_ok V3 EVENTS_AMT_BITWIDTH Hbw s t1 _ Hs H1) as (c & t2 & s' & E2 & Hs' & _ & _ & Hst).
  destruct (amt_load_ok V3 EVENTS_AMT_BITWIDTH Hbw ltac:(done) s' c _ Hst) as (t & El & Ht).
  assert (new_from_iter_with_bit_width V3 s EVENTS_AMT_BITWIDTH evs = (Ok c, s')) as Enew.
  { unfold new_from_iter_with_bit_width, batch_set. by rewrite E1, E2. }
  rewrite Enew in Esame. assert (events_root evs = Ok c) as Eroot by (unfold events_root; by rewrite Esame).
  exists c, s', t. split_and!; try done.
  - unfold evs_finish. simpl. destruct evs; [done|]. by rewrite Eroot.
  - destruct Ht as [(_ & _ & _ & _ & -> & _) _]. rewrite ref_batch_set_size; [by rewrite map_size_empty|lia|intros; apply lookup_empty].
  - intros i Hi. destruct (amt_get_ok V3 EVENTS_AMT_BITWIDTH Hbw s' t _ (Z.of_nat i) Ht ltac:(lia)) as (t' & Eg & _).
    exists t'. rewrite Eg. do 2 f_equal. fold (indexed evs). rewrite indexed_lookup by done. rewrite decide_True by lia. by rewrite Nat2Z.id.
Qed.
End events.
