(* ===== verification/Host.v ===== *)
(** * Guest code and the outside world

    An actor's Wasm code is opaque: between two host calls it may do anything
    to its memory and its gas counter. A [Guest] is what one invocation does,
    as a tree of its host calls; metered Wasm always ends, so the tree is
    well-founded. The values a guest hands over (its gas counter, its memory,
    the arguments) are arbitrary, so that theorems hold for every guest.

    [Host] collects the third-party code and the client's callbacks the VM
    calls: the Wasm engine's modules, cryptography, randomness and chain access
    ([Externs]), the events AMT and CID serialisation. *)

From S2P Require Import Prelude Effects Gas PriceList Address Types Sector Proofs Machine Ipld.
From stdpp Require Import gmap strings list fin_maps.
From Stdlib Require Import ZArith Lia.
#[local] Open Scope Z_scope.

(** The host functions [SyscallHandler::link_syscalls] binds for the default
    kernel and for the Filecoin kernel on top of it (syscalls/mod.rs), with the arguments as the guest passes them.
    A [ret] is the out pointer of a call that returns a value. *)
Inductive SyscallReq :=
  | VmExit (code blk message_off message_len : Z)
  | VmMessageContext (ret : Z)
  | NetworkContext (ret : Z)
  | NetworkTipsetCid (ret epoch obuf_off obuf_len : Z)
  | IpldBlockOpen (ret cid : Z)
  | IpldBlockCreate (ret codec data_off data_len : Z)
  | IpldBlockRead (ret id offset obuf_off obuf_len : Z)
  | IpldBlockStat (ret id : Z)
  | IpldBlockLink (ret id hash_fun hash_len cid_off cid_len : Z)
  | SelfRoot (ret obuf_off obuf_len : Z)
  | SelfSetRoot (cid_off : Z)
  | SelfCurrentBalance (ret : Z)
  | SelfSelfDestruct (burn_unspent : Z)
  | ActorResolveAddress (ret addr_off addr_len : Z)
  | ActorLookupDelegatedAddress (ret actor_id obuf_off obuf_len : Z)
  | ActorGetActorCodeCid (ret actor_id obuf_off obuf_len : Z)
  | ActorNextActorAddress (ret obuf_off obuf_len : Z)
  | ActorCreateActor (actor_id typ_off delegated_addr_off delegated_addr_len : Z)
  | ActorUpgradeActor (ret new_code_cid_off params_id : Z)
  | ActorGetBuiltinActorType (ret code_cid_off : Z)
  | ActorGetCodeCidForType (ret typ obuf_off obuf_len : Z)
  | ActorBalanceOf (ret actor_id : Z)
  | CryptoVerifySignature (ret sig_type sig_off sig_len addr_off addr_len plaintext_off plaintext_len : Z)
  | CryptoVerifyBlsAggregate (ret num_signers sig_off pub_keys_off plaintexts_off plaintext_lens_off : Z)
  | CryptoRecoverSecp (ret hash_off sig_off : Z)
  | CryptoHash (ret hash_code data_off data_len digest_off digest_len : Z)
  | EventEmitEvent (event_off event_len key_off key_len val_off val_len : Z)
  | RandGetChainRandomness (ret round : Z)
  | RandGetBeaconRandomness (ret round : Z)
  | GasCharge_ (name_off name_len compute : Z)
  | GasAvailable (ret : Z)
  | SendSend (ret recipient_off recipient_len method params_id value_hi value_lo gas_limit flags : Z)
  | DebugLog (msg_off msg_len : Z)
  | DebugEnabled (ret : Z)
  | DebugStoreArtifact (name_off name_len data_off data_len : Z)
  | NetworkTotalFilCircSupply (ret : Z)
  | CryptoComputeUnsealedSectorCid (ret proof_type pieces_off pieces_len cid_off cid_len : Z)
  | CryptoVerifyPost (ret info_off info_len : Z)
  | CryptoVerifyConsensusFault (ret h1_off h1_len h2_off h2_len extra_off extra_len : Z)
  | CryptoVerifyAggregateSeals (ret agg_off agg_len : Z)
  | CryptoVerifyReplicaUpdate (ret rep_off rep_len : Z)
  | CryptoBatchVerifySeals (batch_off batch_len result_off : Z).

(** How a Wasm function ends other than by returning: one of the traps
    [From<anyhow::Error> for Abort] maps to an exit, or an unexpected one. *)
Inductive Trap := TrapExit (msg : string) | TrapUnexpected (msg : string).

(** [gas] is the value of the gas counter when control reaches the host; the
    continuation of a call receives the error number (0 for success), the memory,
    with the returned value in it, and the refreshed counter. *)
Inductive Guest :=
  | GReturn (gas : Z) (ret : Z)
  | GTrap (gas : Z) (t : Trap)
  | GGrowMemory (current desired : Z) (maximum : option Z) (k : bool → Guest)
  | GGrowTable (current desired : Z) (maximum : option Z) (k : bool → Guest)
  | GSyscall (gas : Z) (mem : bytes) (req : SyscallReq)
      (k : Z → bytes → Z → Guest).

(** A compiled module. [mod_links] says that its imports are host functions the
    kernel binds, [mod_init] is what instantiation runs; a function receives its
    parameters and the gas counter. *)
Record Module_ := mkModule {
  mod_min_memory_pages : option Z;
  mod_min_table : option Z;
  mod_links : bool;
  mod_init : Z → Guest;
  mod_func : string → option (list Z → Z → Guest);
}.

(** A detected consensus fault (shared/src/consensus). *)
Inductive ConsensusFaultType := DoubleForkMining | ParentGrinding | TimeOffsetMining.
Record ConsensusFault := mkConsensusFault {
  cf_target : Address; cf_epoch : Z; cf_fault_type : ConsensusFaultType }.

(** The CBOR decoder at the types the Filecoin calls read; [None] is a panic. *)
Class CborIn (T : Type) := cbor_in : bytes → option (result string T).

Class Host `{E : Env} := {
  host_cid_parser :: CidParser;
  (** The module cache, filled from the blockstore on a miss. *)
  host_module : Store → Cid → result string (option Module_);
  host_cid_bytes : Cid → bytes;
  host_address_hash : bytes → bytes;
  host_upgrade_info : Cid → result string bytes;
  host_events_root : list StampedEvent → result string Cid;
  host_from_utf8 : bytes → option string;
  (** [Err] is a panic of the verifier. *)
  host_verify_signature : SignatureType → bytes → bytes → Address → result string bool;
  host_verify_bls_aggregate : bytes → list bytes → list bytes → result string bool;
  host_recover_secp : bytes → bytes → result string bytes;
  host_chain_randomness : Z → result string bytes;
  host_beacon_randomness : Z → result string bytes;
  host_tipset_cid : Z → result string Cid;
  (** The externs' answer, with the gas the client reports for it. *)
  host_verify_consensus_fault : bytes → bytes → bytes → result string (option ConsensusFault * Z);
  host_proofs :: ProofsApi;
  host_cbor_pieces :: CborIn (list PieceInfo);
  host_cbor_window_post :: CborIn WindowPoStVerifyInfo;
  host_cbor_aggregate :: CborIn AggregateSealVerifyProofAndInfos;
  host_cbor_replica :: CborIn ReplicaUpdateInfo;
  host_cbor_seals :: CborIn (list SealVerifyInfo);
}.
