(* ===== verification/CallManager.v ===== *)
(** * The call manager's services (fvm/src/call_manager/default.rs)

    The state of one message's execution and the operations on it that do not
    run guest code: metered access to actors and addresses, transfers, actor
    creation, transactions, traces. [Invocation] adds the calls. *)

From S2P Require Import Prelude Effects Gas PriceList Address HistoryMap Types StateTree.
From S2P Require Import Access Blocks Machine Ipld Host.
From stdpp Require Import gmap strings list fin_maps.
From Stdlib Require Import ZArith Lia.
#[local] Open Scope Z_scope.

(** What does not change during a message: the machine's context and manifest,
    and the message's fields. *)
Record CallConst := mkConst {
  cc_context : MachineContext;
  cc_builtin : Manifest;
  cc_gas_premium : TokenAmount;
  cc_origin : ActorID;
  cc_origin_address : Address;
  cc_nonce : Z;
}.

(** [InnerDefaultCallManager]. The call stack is in call order. *)
Record CM `{E : Env} := mkCM {
  cm_const : CallConst;
  cm_tree : StateTree;
  cm_gas : GasTracker;
  cm_access : StateAccessTracker;
  cm_num_actors_created : Z;
  cm_depth : Z;
  cm_backtrace : Backtrace;
  cm_exec_trace : list ExecutionEvent;
  cm_invocation_count : Z;
  cm_limits : MemoryLimiter;
  cm_events : EventsAccumulator;
  cm_call_stack : list (ActorID * string);
}.

Section call_manager.
Context `{H : Host}.

Definition cm_set_tree t (c : CM) : CM := mkCM _ (cm_const c) t (cm_gas c) (cm_access c)
  (cm_num_actors_created c) (cm_depth c) (cm_backtrace c) (cm_exec_trace c)
  (cm_invocation_count c) (cm_limits c) (cm_events c) (cm_call_stack c).
Definition cm_set_gas g (c : CM) : CM := mkCM _ (cm_const c) (cm_tree c) g (cm_access c)
  (cm_num_actors_created c) (cm_depth c) (cm_backtrace c) (cm_exec_trace c)
  (cm_invocation_count c) (cm_limits c) (cm_events c) (cm_call_stack c).
Definition cm_set_access a (c : CM) : CM := mkCM _ (cm_const c) (cm_tree c) (cm_gas c) a
  (cm_num_actors_created c) (cm_depth c) (cm_backtrace c) (cm_exec_trace c)
  (cm_invocation_count c) (cm_limits c) (cm_events c) (cm_call_stack c).
Definition cm_set_created n (c : CM) : CM := mkCM _ (cm_const c) (cm_tree c) (cm_gas c) (cm_access c)
  n (cm_depth c) (cm_backtrace c) (cm_exec_trace c)
  (cm_invocation_count c) (cm_limits c) (cm_events c) (cm_call_stack c).
Definition cm_set_depth d (c : CM) : CM := mkCM _ (cm_const c) (cm_tree c) (cm_gas c) (cm_access c)
  (cm_num_actors_created c) d (cm_backtrace c) (cm_exec_trace c)
  (cm_invocation_count c) (cm_limits c) (cm_events c) (cm_call_stack c).
Definition cm_set_backtrace b (c : CM) : CM := mkCM _ (cm_const c) (cm_tree c) (cm_gas c) (cm_access c)
  (cm_num_actors_created c) (cm_depth c) b (cm_exec_trace c)
  (cm_invocation_count c) (cm_limits c) (cm_events c) (cm_call_stack c).
Definition cm_set_trace t (c : CM) : CM := mkCM _ (cm_const c) (cm_tree c) (cm_gas c) (cm_access c)
  (cm_num_actors_created c) (cm_depth c) (cm_backtrace c) t
  (cm_invocation_count c) (cm_limits c) (cm_events c) (cm_call_stack c).
Definition cm_set_invocations n (c : CM) : CM := mkCM _ (cm_const c) (cm_tree c) (cm_gas c) (cm_access c)
  (cm_num_actors_created c) (cm_depth c) (cm_backtrace c) (cm_exec_trace c)
  n (cm_limits c) (cm_events c) (cm_call_stack c).
Definition cm_set_limits l (c : CM) : CM := mkCM _ (cm_const c) (cm_tree c) (cm_gas c) (cm_access c)
  (cm_num_actors_created c) (cm_depth c) (cm_backtrace c) (cm_exec_trace c)
  (cm_invocation_count c) l (cm_events c) (cm_call_stack c).
Definition cm_set_events e (c : CM) : CM := mkCM _ (cm_const c) (cm_tree c) (cm_gas c) (cm_access c)
  (cm_num_actors_created c) (cm_depth c) (cm_backtrace c) (cm_exec_trace c)
  (cm_invocation_count c) (cm_limits c) e (cm_call_stack c).
Definition cm_set_stack s (c : CM) : CM := mkCM _ (cm_const c) (cm_tree c) (cm_gas c) (cm_access c)
  (cm_num_actors_created c) (cm_depth c) (cm_backtrace c) (cm_exec_trace c)
  (cm_invocation_count c) (cm_limits c) (cm_events c) s.

Definition cm_context (c : CM) : MachineContext := cc_context (cm_const c).
Definition cm_network (c : CM) : NetworkConfig := mc_network (cm_context c).
Definition cm_price_list (c : CM) : PriceList := price_list (cm_network c).
Definition cm_builtin (c : CM) : Manifest := cc_builtin (cm_const c).
Definition cm_tracing (c : CM) : bool := mc_tracing (cm_context c).

Definition on_tree {A} (m : M StateTree A) : M CM A := zoom cm_tree cm_set_tree m.
Definition on_gas {A} (m : M GasTracker A) : M CM A := zoom cm_gas cm_set_gas m.
Definition on_access (f : StateAccessTracker → StateAccessTracker) : M CM unit :=
  modify (λ c, cm_set_access (f (cm_access c)) c).

(** [CallManager::new]. *)
Definition cm_new (tree : StateTree) (context : MachineContext) (builtin : Manifest)
    (limit : Z) (origin : ActorID) (origin_address : Address) (receiver : option ActorID)
    (receiver_address : Address) (nonce : Z) (gas_premium : TokenAmount) : CM :=
  let access := tracker_new (preloaded_actors (price_list (mc_network context))) in
  let access := record_actor_update origin access in
  let access := record_lookup_address origin_address access in
  let access := match receiver with Some id => record_actor_read id access | None => access end in
  let access := record_lookup_address receiver_address access in
  mkCM _ (mkConst context builtin gas_premium origin origin_address nonce)
    tree (gt_new (Gas_new (Z.to_N limit)) 0 (mc_tracing context)) access
    0 0 bt_default [] 0 (limiter_for_network (mc_network context)) evs_default [].

Definition charge_gas (f : PriceList → GasCharge) : M CM unit :=
  pl ← gets cm_price_list;
  on_gas (apply_charge (f pl)).

(** [trace]: the gas charges so far, then the event. *)
Definition cm_trace (e : ExecutionEvent) : M CM unit :=
  charges ← on_gas drain_trace;
  modify (λ c, cm_set_trace (cm_exec_trace c ++ (EGasCharge <$> charges) ++ [e]) c).

Definition cm_log (msg : string) : M CM unit := cm_trace (ELog msg).

Definition cm_resolve_address (a : Address) : M CM (option ActorID) :=
  match address_id a with
  | Ok id => mret (Some id)
  | Err _ =>
      known ← gets (λ c, get_address_lookup_state a (cm_access c));
      _ ← (if known : bool then mret tt else charge_gas (λ _, on_resolve_address));
      id ← on_tree (lookup_id a);
      _ ← (match id with Some _ => on_access (record_lookup_address a) | None => mret tt end);
      mret id
  end.

Definition cm_get_actor (id : ActorID) : M CM (option ActorState) :=
  access ← gets (λ c, get_actor_access_state id (cm_access c));
  _ ← (if lt_read access then charge_gas on_actor_lookup else mret tt);
  act ← on_tree (get_actor id);
  _ ← on_access (record_actor_read id);
  mret act.

(** The charges for writing an actor. *)
Definition charge_update (id : ActorID) : M CM unit :=
  access ← gets (λ c, get_actor_access_state id (cm_access c));
  _ ← (if lt_read access then charge_gas on_actor_lookup else mret tt);
  if lt_updated access then charge_gas on_actor_update else mret tt.

Definition cm_set_actor (id : ActorID) (state : ActorState) : M CM unit :=
  _ ← charge_update id;
  _ ← on_tree (set_actor id state);
  on_access (record_actor_update id).

Definition cm_delete_actor (id : ActorID) : M CM unit :=
  _ ← charge_update id;
  _ ← on_tree (delete_actor id);
  on_access (record_actor_update id).

Definition cm_transfer (from to : ActorID) (value : TokenAmount) : M CM unit :=
  if value <? 0
  then throw (syscall_error IllegalArgument "attempted to transfer negative transfer value {}") else
  o ← cm_get_actor from;
  from_actor ← lift (ok_or o (syscall_error InsufficientFunds
    "insufficient funds to transfer {value}FIL from {from} to {to})"));
  if as_balance from_actor <? value
  then throw (syscall_error InsufficientFunds
         "sender does not have funds to transfer (balance {}, transfer {})")
  else if from =? to then mret tt
  else
    o ← cm_get_actor to;
    to_actor ← lift (ok_or o (syscall_error NotFound
      "transfer recipient {to} does not exist in state-tree"));
    from_actor' ← lift (transfer_or_fatal (deduct_funds value from_actor));
    to_actor' ← lift (transfer_or_fatal (deposit_funds value to_actor));
    _ ← cm_set_actor from from_actor';
    cm_set_actor to to_actor'.

Definition as_set_code (code : Cid) (a : ActorState) : ActorState :=
  mkActorState code (as_state a) (as_sequence a) (as_balance a) (as_delegated_address a).

(** What [create_actor] installs: a placeholder keeps everything but its code,
    any other existing actor is refused. *)
Definition cm_create_actor (code_id : Cid) (actor_id : ActorID)
    (delegated_address : option Address) : M CM unit :=
  b ← gets cm_builtin;
  if is_placeholder_actor b code_id
  then throw (syscall_error Forbidden "cannot explicitly construct a placeholder actor") else
  o ← cm_get_actor actor_id;
  actor ← (match o with
    | Some act =>
        if is_placeholder_actor b (as_code act)
        then if bool_decide (as_delegated_address act = None)
             then throw (Fatal "placeholder {actor_id} doesn't have a delegated address")
             else if bool_decide (as_delegated_address act ≠ delegated_address)
             then throw (syscall_error Forbidden "placeholder has a different delegated address")
             else mret (as_set_code code_id act)
        else throw (syscall_error Forbidden "Actor address already exists")
    | None =>
        _ ← charge_gas (λ pl, on_create_actor pl false);
        mret (new_empty code_id delegated_address)
    end);
  _ ← cm_set_actor actor_id actor;
  modify (λ c, cm_set_created (wrap64 (cm_num_actors_created c + 1)) c).

Definition append_event (e : StampedEvent) : M CM unit :=
  modify (λ c, cm_set_events (evs_append e (cm_events c)) c).

(** [to_vec] of an address: a CBOR byte string. *)
Definition cbor_bytes (bz : bytes) : bytes :=
  let n := Z.of_nat (length bz) in
  if n <? 24 then (0x40 + n) :: bz else 0x58 :: n :: bz.

Definition next_actor_address (c : CM) : Address :=
  ActorAddr (host_address_hash
    (cbor_bytes (to_bytes (cc_origin_address (cm_const c))) ++
     to_be_bytes 8 (cc_nonce (cm_const c)) ++ to_be_bytes 8 (cm_num_actors_created c))).

(** Helper of the sends that create their receiver. *)
Definition create_actor_from_send (addr : Address) (act : ActorState) : M CM ActorID :=
  _ ← charge_gas (λ pl, on_create_actor pl true);
  addr_id ← on_tree (register_new_address addr);
  _ ← on_access (record_lookup_address addr);
  _ ← cm_set_actor addr_id act;
  mret addr_id.

Definition create_placeholder_actor_from_send (addr : Address) : M CM ActorID :=
  code ← gets (λ c, placeholder_code (cm_builtin c));
  create_actor_from_send addr (new_empty code (Some addr)).

Record InvocationResult := mkInvocationResult { ir_exit_code : ExitCode; ir_value : option Block }.
Definition ir_default : InvocationResult := mkInvocationResult EXIT_OK None.

Definition cm_begin : M CM unit :=
  _ ← on_tree begin_transaction;
  modify (λ c, cm_set_access (acc_begin (cm_access c)) (cm_set_events (evs_begin (cm_events c)) c)).

Definition cm_end (revert : bool) : M CM unit :=
  _ ← on_tree (end_transaction revert);
  _ ← zoom cm_events cm_set_events (evs_end revert);
  zoom cm_access cm_set_access (acc_end revert).

(** [with_transaction]: a non-zero exit code or an error reverts. *)
Definition with_transaction (f : M CM InvocationResult) : M CM InvocationResult :=
  _ ← cm_begin;
  res ← attempt f;
  let revert := match res with Ok v => negb (is_success (ir_exit_code v)) | Err _ => true end in
  _ ← cm_end revert;
  lift res.

(** [with_stack_frame]: the depth check, then the body one level deeper with
    its memory handed back. *)
Definition with_stack_frame {A} (f : M CM A) : M CM A :=
  too_deep ← gets (λ c, max_call_depth (cm_network c) <=? cm_depth c);
  if too_deep : bool
  then throw (syscall_error LimitExceeded "message execution exceeds call depth") else
  _ ← modify (λ c, cm_set_depth (cm_depth c + 1) c);
  res ← attempt (limiter_with_stack_frame cm_limits cm_set_limits f);
  _ ← modify (λ c, cm_set_depth (cm_depth c - 1) c);
  lift res.

Record FinishRet := mkFinishRet {
  fin_gas_used : N;
  fin_backtrace : Backtrace;
  fin_exec_trace : list ExecutionEvent;
  fin_events : list StampedEvent;
  fin_events_root : option Cid;
}.

Definition cm_finish (c : CM) : Result FinishRet * StateTree :=
  let gas_used := round_up (gas_used (cm_gas c)) in
  let exec_trace :=
    if cm_tracing c
    then cm_exec_trace c ++ (EGasCharge <$> default [] (gas_trace (cm_gas c)))
    else cm_exec_trace c in
  (match evs_finish host_events_root (cm_events c) with
   | Err e => Err e
   | Ok (events, root) => Ok (mkFinishRet gas_used (cm_backtrace c) exec_trace events root)
   end, cm_tree c).
End call_manager.
