(* ===== verification/Frame.v ===== *)
(** * What every operation of the call manager respects

    [cm_frame] is what one call may do to the state it runs in, whatever the
    guest code: limits, depth, call stack and transaction layers come back as
    they were, gas only grows within its limit, events are only appended, both
    histories can be undone, and the blockstore only gains blocks.

    [Adm] says which further relations on call-manager states can be carried
    through a whole call tree: they hold for reads and for the handful of
    operations that change actors or events. *)

From S2P Require Import Prelude Effects Gas PriceList Address HistoryMap Types StateTree.
From S2P Require Import Access Blocks Machine Ipld Host CallManager.
From stdpp Require Import gmap strings list fin_maps.
From Stdlib Require Import ZArith Lia.
#[local] Open Scope Z_scope.

(** ** State trees *)

Section tree.
Context `{ES : EnvSpec}.
Implicit Type m : gmap bytes ActorState.

Definition store_grows (s s' : Store) : Prop := store_ok s → store_ok s' ∧ store_le s s'.
#[export] Instance store_grows_preorder : PreOrder store_grows.
Proof.
  split; [by intros s|]. intros a b c H1 H2 Ha. destruct (H1 Ha) as [Hb ?], (H2 Hb) as [? ?].
  split; [done|by etrans].
Qed.

Definition st_frame (t t' : StateTree) : Prop :=
  st_ext t t' ∧ store_grows (st_store t) (st_store t').
#[export] Instance st_frame_preorder : PreOrder st_frame.
Proof. split; [by intros t|]. intros a b c [? ?] [? ?]. split; by etrans. Qed.

(** The same actors, seen through possibly different caches. *)
Definition st_read (t t' : StateTree) : Prop :=
  ∀ m, st_inv m t → st_inv m t' ∧ ∀ id, actor_at m t' id = actor_at m t id.
#[export] Instance st_read_preorder : PreOrder st_read.
Proof.
  split; [by intros t m|]. intros a b c H1 H2 m Ha.
  destruct (H1 m Ha) as [Hb E1], (H2 m Hb) as [Hc E2]. split; [done|].
  intros id. by rewrite E2, E1.
Qed.

Definition st_both (t t' : StateTree) : Prop := st_frame t t' ∧ st_read t t'.
#[export] Instance st_both_preorder : PreOrder st_both.
Proof. split; [by intros t|]. intros a b c [? ?] [? ?]. split; by etrans. Qed.

Lemma st_both_frame {A} (op : M StateTree A) : pres st_both op → pres st_frame op.
Proof. intros Hp t. apply Hp. Qed.

(** Operations that leave the store alone. *)
Lemma st_frame_ext {A} (op : M StateTree A) :
  pres st_ext op → (∀ t, st_store (op t).2 = st_store t) → pres st_frame op.
Proof. intros He Hs t. split; [apply He|]. by rewrite Hs. Qed.

Lemma st_both_get_actor id : pres st_both (get_actor id).
Proof.
  intros t. split.
  - apply st_frame_ext; [apply st_ext_get_actor|]. intros t'. unfold get_actor.
    by destruct (get_or_try_insert_with _ _ _).
  - intros m Hi. destruct (get_actor_spec m id t Hi) as (c & -> & Hc & _ & He).
    split; [by apply st_inv_actors|done].
Qed.
Lemma st_frame_set_actor id a : pres st_frame (set_actor id a).
Proof. apply st_frame_ext; [apply st_ext_set_actor|done]. Qed.
Lemma st_frame_delete_actor id : pres st_frame (delete_actor id).
Proof. apply st_frame_ext; [apply st_ext_delete_actor|done]. Qed.

Lemma st_both_write {A} (f : Store → result string A * Store) :
  (∀ s r s', f s = (r, s') → store_grows s s') → pres st_both (st_write f).
Proof.
  intros Hf t. unfold st_write. destruct (f (st_store t)) as [r s'] eqn:Ew. simpl.
  specialize (Hf _ _ _ Ew). split; [split; [|done]|].
  - pose proof (st_ext_write f t) as Hx. unfold st_write in Hx. by rewrite Ew in Hx.
  - intros m Hi. destruct (Hf (proj1 Hi)). split; [by apply st_inv_store|done].
Qed.

Lemma st_both_resolve_insert k v :
  pres st_both (modify (Er := ExecutionError) (λ t, st_set_resolve (hm_insert k v (resolve_cache t)) t)).
Proof.
  intros t. split; [split; [apply st_ext_resolve_insert|done]|].
  intros m Hi. split; [by apply st_inv_resolve|done].
Qed.

Lemma st_both_flush_write (h : Hamt Store ActorID) :
  pres st_both (st_write (λ s, let '(r, _, s') := hamt_flush s h in (r, s'))).
Proof.
  apply st_both_write. intros s r s'.
  destruct (hamt_flush s h) as [[r1 h1] s1] eqn:Ew. intros [= <- <-] Hs. by eapply hamt_flush_le.
Qed.
Lemma st_both_put_cbor {T} `{Cbor T} (o : T) h : pres st_both (st_write (λ s, put_cbor s o h)).
Proof. apply st_both_write. intros s r s' Ew Hs. by eapply put_cbor_ok. Qed.

#[local] Hint Resolve st_both_get_actor st_both_resolve_insert st_both_flush_write
  st_both_put_cbor : pres.

Lemma st_both_init_load : pres st_both init_load.
Proof. unfold init_load. solve_pres. Qed.
Lemma st_both_map_address s a : pres st_both (map_address_to_new_id s a).
Proof. unfold map_address_to_new_id. solve_pres. Qed.
Lemma st_both_init_resolve s a : pres st_both (init_resolve_address s a).
Proof. unfold init_resolve_address. solve_pres. Qed.
#[local] Hint Resolve st_both_init_load st_both_map_address st_both_init_resolve : pres.
Lemma st_both_lookup_id a : pres st_both (lookup_id a).
Proof. unfold lookup_id. solve_pres. Qed.

#[local] Hint Resolve st_both_frame st_frame_set_actor : pres.
Lemma st_frame_register a : pres st_frame (register_new_address a).
Proof. unfold register_new_address. solve_pres. Qed.

(** A reverted transaction shows the actors it started from. *)
Lemma revert_read t t1 t2 :
  st_ext (begin_transaction t).2 t1 → store_grows (st_store t) (st_store t1) →
  end_transaction true t1 = (Ok tt, t2) → st_read t t2.
Proof.
  intros Hx Hg He m (Hs & Hr & Hc).
  destruct (end_transaction_frame true t t1 Hx) as (t2' & He' & Hext & Est & Ea & _).
  rewrite He in He'. simplify_eq. destruct (Hg Hs) as [Hs1 Hle].
  split; [|intros id; unfold actor_at; by apply cache_at_map].
  split_and!; [by rewrite Est| |by eapply cache_ok_map].
  rewrite Est, (proj1 Hext). by eapply (hamt_rep_mono (st_store t)).
Qed.

(** A committed one shows what it ended with. *)
Lemma commit_read t t1 t2 :
  st_ext (begin_transaction t).2 t1 → end_transaction false t1 = (Ok tt, t2) → st_read t1 t2.
Proof.
  intros Hx He m (Hs & Hr & Hc).
  destruct (end_transaction_frame false t t1 Hx) as (t2' & He' & Hext & Est & Ea & _).
  rewrite He in He'. simplify_eq.
  split; [|intros id; unfold actor_at; by apply cache_at_map].
  split_and!; [by rewrite Est| |by eapply cache_ok_map].
  rewrite Est, (proj1 Hext). by rewrite (proj1 Hx) in Hr.
Qed.
End tree.

(** ** Call-manager states *)

(** [CallManager] operation used twice by the kernel: read an actor, store an
    updated version, return the old one. *)
Definition cm_update_actor `{H : Host} (id : ActorID) (f : ActorState → ActorState)
    (missing : ExecutionError) : M CM ActorState :=
  o ← cm_get_actor id;
  state ← lift (ok_or o missing);
  _ ← cm_set_actor id (f state);
  mret state.

Section frame.
Context `{H : Host} {ES : EnvSpec}.

Definition cm_frame (c c' : CM) : Prop :=
  cm_const c' = cm_const c ∧ st_frame (cm_tree c) (cm_tree c') ∧ gt_le (cm_gas c) (cm_gas c') ∧
  acc_ext (cm_access c) (cm_access c') ∧ evs_ext (cm_events c) (cm_events c') ∧
  cm_depth c' = cm_depth c ∧ cm_call_stack c' = cm_call_stack c ∧
  lim_le (cm_limits c) (cm_limits c').

#[export] Instance cm_frame_preorder : PreOrder cm_frame.
Proof.
  split.
  - intros c. unfold cm_frame. split_and!; reflexivity.
  - intros a b c (?&?&?&?&?&?&?&?) (?&?&?&?&?&?&?&?). unfold cm_frame.
    split_and!; first [congruence|by etrans].
Qed.

(** Relations that survive every read and, unless [ro], the operations that
    change actors or emit events. *)
Class Adm (ro : bool) (X : relation CM) : Prop := {
  adm_preorder :: PreOrder X;
  adm_read c c' : st_read (cm_tree c) (cm_tree c') →
    evs_events (cm_events c') = evs_events (cm_events c) → X c c';
  adm_transfer from to v : ro = false → pres X (cm_transfer from to v);
  adm_create code id da : ro = false → pres X (cm_create_actor code id da);
  adm_from_send a code da : ro = false → pres X (create_actor_from_send a (new_empty code da));
  adm_update id f e : ro = false → (∀ a, as_balance (f a) = as_balance a) →
    pres X (cm_update_actor id f e);
  adm_delete id : ro = false → pres X (cm_delete_actor id);
  adm_event e : ro = false → pres X (append_event e);
}.

Definition cm_rel (X : relation CM) (c c' : CM) : Prop := cm_frame c c' ∧ X c c'.
#[export] Instance cm_rel_preorder X `{!PreOrder X} : PreOrder (cm_rel X).
Proof. split; [by intros c|]. intros a b c [? ?] [? ?]. split; by etrans. Qed.

(** Changes outside the tree, the events and the framed fields. *)
Lemma cm_frame_other c c' :
  cm_const c' = cm_const c → cm_tree c' = cm_tree c → cm_gas c' = cm_gas c →
  cm_access c' = cm_access c → cm_events c' = cm_events c → cm_depth c' = cm_depth c →
  cm_call_stack c' = cm_call_stack c → cm_limits c' = cm_limits c → cm_frame c c'.
Proof. unfold cm_frame. intros -> -> -> -> -> -> -> ->. split_and!; reflexivity. Qed.

Lemma frame_on_tree {A} (op : M StateTree A) : pres st_frame op → pres cm_frame (on_tree op).
Proof.
  intros Hp. apply pres_zoom. intros c. unfold cm_frame; simpl. split_and!; try reflexivity. apply Hp.
Qed.
Lemma frame_on_gas {A} (op : M GasTracker A) : pres gt_le op → pres cm_frame (on_gas op).
Proof.
  intros Hp. apply pres_zoom. intros c. unfold cm_frame; simpl. split_and!; try reflexivity. apply Hp.
Qed.
Lemma frame_on_access f : (∀ a, acc_ext a (f a)) → pres cm_frame (on_access f).
Proof.
  intros Hp. apply pres_modify. intros c. unfold cm_frame; simpl. split_and!; try reflexivity. apply Hp.
Qed.
Lemma frame_append_event e : pres cm_frame (append_event e).
Proof.
  apply pres_modify. intros c. unfold cm_frame; simpl. split_and!; try reflexivity. apply evs_ext_append.
Qed.
Lemma frame_created n : pres cm_frame (modify (Er := ExecutionError) (λ c, cm_set_created (n c) c)).
Proof. apply pres_modify. intros c. by apply cm_frame_other. Qed.
Lemma frame_backtrace b : pres cm_frame (modify (Er := ExecutionError) (λ c, cm_set_backtrace (b c) c)).
Proof. apply pres_modify. intros c. by apply cm_frame_other. Qed.
Lemma frame_trace_set t : pres cm_frame (modify (Er := ExecutionError) (λ c, cm_set_trace (t c) c)).
Proof. apply pres_modify. intros c. by apply cm_frame_other. Qed.
Lemma frame_invocations n : pres cm_frame (modify (Er := ExecutionError) (λ c, cm_set_invocations (n c) c)).
Proof. apply pres_modify. intros c. by apply cm_frame_other. Qed.

#[local] Hint Resolve frame_on_gas frame_append_event frame_created frame_backtrace
  frame_trace_set frame_invocations : pres.
#[local] Hint Extern 1 (pres cm_frame (on_tree (get_actor _))) =>
  apply frame_on_tree, st_both_frame, st_both_get_actor : pres.
#[local] Hint Extern 1 (pres cm_frame (on_tree (lookup_id _))) =>
  apply frame_on_tree, st_both_frame, st_both_lookup_id : pres.
#[local] Hint Extern 1 (pres cm_frame (on_tree (set_actor _ _))) =>
  apply frame_on_tree, st_frame_set_actor : pres.
#[local] Hint Extern 1 (pres cm_frame (on_tree (delete_actor _))) =>
  apply frame_on_tree, st_frame_delete_actor : pres.
#[local] Hint Extern 1 (pres cm_frame (on_tree (register_new_address _))) =>
  apply frame_on_tree, st_frame_register : pres.
#[local] Hint Extern 1 (pres cm_frame (on_access _)) =>
  apply frame_on_access; intros;
  first [apply acc_ext_read|apply acc_ext_update|apply acc_ext_lookup] : pres.

Lemma frame_charge f : pres cm_frame (charge_gas f).
Proof. unfold charge_gas. solve_pres. Qed.
#[local] Hint Resolve frame_charge : pres.
Lemma frame_trace e : pres cm_frame (cm_trace e).
Proof. unfold cm_trace. solve_pres. Qed.
Lemma frame_resolve a : pres cm_frame (cm_resolve_address a).
Proof. unfold cm_resolve_address. solve_pres. Qed.
Lemma frame_get_actor id : pres cm_frame (cm_get_actor id).
Proof. unfold cm_get_actor. solve_pres. Qed.
Lemma frame_charge_update id : pres cm_frame (charge_update id).
Proof. unfold charge_update. solve_pres. Qed.
#[local] Hint Resolve frame_trace frame_resolve frame_get_actor frame_charge_update : pres.
Lemma frame_set_actor id a : pres cm_frame (cm_set_actor id a).
Proof. unfold cm_set_actor. solve_pres. Qed.
Lemma frame_delete_actor id : pres cm_frame (cm_delete_actor id).
Proof. unfold cm_delete_actor. solve_pres. Qed.
#[local] Hint Resolve frame_set_actor frame_delete_actor : pres.
Lemma frame_transfer from to v : pres cm_frame (cm_transfer from to v).
Proof. unfold cm_transfer. solve_pres. Qed.
Lemma frame_create_actor code id da : pres cm_frame (cm_create_actor code id da).
Proof. unfold cm_create_actor. solve_pres. Qed.
Lemma frame_from_send a act : pres cm_frame (create_actor_from_send a act).
Proof. unfold create_actor_from_send. solve_pres. Qed.
Lemma frame_update id f e : pres cm_frame (cm_update_actor id f e).
Proof. unfold cm_update_actor. solve_pres. Qed.

(** ** Brackets *)

Definition reverted (r : Result InvocationResult) : bool :=
  match r with Ok v => negb (is_success (ir_exit_code v)) | Err _ => true end.

(** A transaction around a body that respects the frame: the body's result, no
    failure of its own, and on a revert the caches, events and access records
    the transaction started from. *)
Lemma with_transaction_spec f c r c2 :
  f (cm_begin c).2 = (r, c2) → cm_frame (cm_begin c).2 c2 →
  ∃ c3, with_transaction f c = (r, c3) ∧ cm_frame c c3 ∧ cm_gas c3 = cm_gas c2 ∧
    cm_limits c3 = cm_limits c2 ∧
    (reverted r = true →
       hm_map (actor_cache (cm_tree c3)) = hm_map (actor_cache (cm_tree c)) ∧
       hm_map (resolve_cache (cm_tree c3)) = hm_map (resolve_cache (cm_tree c)) ∧
       evs_events (cm_events c3) = evs_events (cm_events c) ∧ cm_access c3 = cm_access c ∧
       st_read (cm_tree c) (cm_tree c3)) ∧
    (reverted r = false →
       st_read (cm_tree c2) (cm_tree c3) ∧
       evs_events (cm_events c3) = evs_events (cm_events c2)).
Proof.
  intros Hf (Hcst & [Hst Hgr] & Hg & Hacc & Hev & Hd & Hstk & Hlim).
  destruct (end_transaction_frame (reverted r) (cm_tree c) _ Hst)
    as (t3 & Et & Hx & Es & Ea & Er & _).
  destruct (evs_end_frame (reverted r) (cm_events c) _ Hev) as (e3 & Ee & Hxe & Eev).
  destruct (acc_end_frame (reverted r) (cm_access c) _ Hacc) as (a3 & Eacc & Hxa & Erv).
  exists (cm_set_access a3 (cm_set_events e3 (cm_set_tree t3 c2))). split.
  { unfold with_transaction. rewrite (bind_ok _ _ c tt (cm_begin c).2) by done.
    unfold attempt, mbind at 1, M_bind. rewrite Hf. fold (reverted r).
    unfold cm_end, on_tree, zoom, mbind, M_bind. rewrite Et. simpl. rewrite Ee. simpl.
    rewrite Eacc. done. }
  split.
  { unfold cm_frame. simpl. split_and!; try done. split; [done|]. by rewrite Es. }
  split; [done|]. split; [done|]. simpl. split; intros Hr; rewrite Hr in *.
  - split_and!; try done; [exact (Erv eq_refl)|]. by apply (revert_read (cm_tree c) (cm_tree c2) t3 Hst Hgr Et).
  - split; [|done]. by apply (commit_read (cm_tree c) (cm_tree c2) t3 Hst Et).
Qed.

Lemma with_stack_frame_spec {A} (f : M CM A) c r c2 :
  cm_depth c < max_call_depth (cm_network c) →
  f (cm_set_depth (cm_depth c + 1) c) = (r, c2) → cm_frame (cm_set_depth (cm_depth c + 1) c) c2 →
  with_stack_frame f c = (r, cm_set_depth (cm_depth c)
     (cm_set_limits (mkLimiter (lim_max (cm_limits c2)) (lim_curr (cm_limits c))) c2)).
Proof.
  intros Hd Hf (_&_&_&_&_&Hdep&_&_). simpl in Hdep.
  unfold with_stack_frame, attempt, limiter_with_stack_frame, mbind, M_bind, gets, modify, lift.
  destruct (Z.leb_spec (max_call_depth (cm_network c)) (cm_depth c)); [lia|].
  rewrite Hf. simpl. rewrite Hdep. replace (cm_depth c + 1 - 1) with (cm_depth c) by lia. done.
Qed.

(** ** Carrying a relation *)

Definition cm_same (c c' : CM) : Prop :=
  st_read (cm_tree c) (cm_tree c') ∧ evs_events (cm_events c') = evs_events (cm_events c).
#[export] Instance cm_same_preorder : PreOrder cm_same.
Proof. split; [by intros c|]. intros a b c [? ?] [? ?]. split; [by etrans|congruence]. Qed.

Lemma same_on_tree {A} (op : M StateTree A) : pres st_both op → pres cm_same (on_tree op).
Proof. intros Hp. apply pres_zoom. intros c. split; [apply Hp|done]. Qed.
Lemma same_on_gas {A} (op : M GasTracker A) : pres cm_same (on_gas op).
Proof. apply pres_zoom. intros c. by split. Qed.
Lemma same_on_access f : pres cm_same (on_access f).
Proof. apply pres_modify. intros c. by split. Qed.
Lemma same_trace_set t : pres cm_same (modify (Er := ExecutionError) (λ c, cm_set_trace (t c) c)).
Proof. apply pres_modify. intros c. by split. Qed.
#[local] Hint Resolve same_on_gas same_on_access same_trace_set : pres.
#[local] Hint Extern 1 (pres cm_same (on_tree _)) =>
  apply same_on_tree; first [apply st_both_get_actor|apply st_both_lookup_id] : pres.

Lemma same_charge f : pres cm_same (charge_gas f).
Proof. unfold charge_gas. solve_pres. Qed.
#[local] Hint Resolve same_charge : pres.
Lemma same_trace e : pres cm_same (cm_trace e).
Proof. unfold cm_trace. solve_pres. Qed.
Lemma same_resolve a : pres cm_same (cm_resolve_address a).
Proof. unfold cm_resolve_address. solve_pres. Qed.
Lemma same_get_actor id : pres cm_same (cm_get_actor id).
Proof. unfold cm_get_actor. solve_pres. Qed.

Section carry.
Context (ro : bool) (X : relation CM) `{HX : !Adm ro X}.

Lemma rel_of {A} (op : M CM A) : pres cm_frame op → pres cm_same op → pres (cm_rel X) op.
Proof. intros Hf Hs c. split; [apply Hf|]. destruct (Hs c). by apply (adm_read (ro := ro)). Qed.
Lemma rel_other f : (∀ c, cm_frame c (f c)) → (∀ c, cm_same c (f c)) → pres (cm_rel X) (modify (Er := ExecutionError) f).
Proof. intros. apply rel_of; by apply pres_modify. Qed.

Lemma rel_charge f : pres (cm_rel X) (charge_gas f).
Proof. apply rel_of; [apply frame_charge|apply same_charge]. Qed.
Lemma rel_trace e : pres (cm_rel X) (cm_trace e).
Proof. apply rel_of; [apply frame_trace|apply same_trace]. Qed.
Lemma rel_resolve a : pres (cm_rel X) (cm_resolve_address a).
Proof. apply rel_of; [apply frame_resolve|apply same_resolve]. Qed.
Lemma rel_get_actor id : pres (cm_rel X) (cm_get_actor id).
Proof. apply rel_of; [apply frame_get_actor|apply same_get_actor]. Qed.
Lemma rel_on_gas {A} (op : M GasTracker A) : pres gt_le op → pres (cm_rel X) (on_gas op).
Proof. intros. apply rel_of; [by apply frame_on_gas|apply same_on_gas]. Qed.
Lemma rel_on_access f : (∀ a, acc_ext a (f a)) → pres (cm_rel X) (on_access f).
Proof. intros. apply rel_of; [by apply frame_on_access|apply same_on_access]. Qed.
Lemma rel_backtrace b : pres (cm_rel X) (modify (Er := ExecutionError) (λ c, cm_set_backtrace (b c) c)).
Proof. apply rel_other; intros c; [by apply cm_frame_other|by split]. Qed.
Lemma rel_invocations n : pres (cm_rel X) (modify (Er := ExecutionError) (λ c, cm_set_invocations (n c) c)).
Proof. apply rel_other; intros c; [by apply cm_frame_other|by split]. Qed.
Lemma rel_limits f : (∀ l, lim_le l (f l)) → pres (cm_rel X) (modify (Er := ExecutionError) (λ c, cm_set_limits (f (cm_limits c)) c)).
Proof.
  intros Hf. apply rel_other; intros c; [|by split].
  unfold cm_frame; simpl. split_and!; try reflexivity. apply Hf.
Qed.

Lemma rel_transfer from to v : ro = false → pres (cm_rel X) (cm_transfer from to v).
Proof. intros Hro c. split; [apply frame_transfer|by apply (adm_transfer (ro := ro))]. Qed.
Lemma rel_create code id da : ro = false → pres (cm_rel X) (cm_create_actor code id da).
Proof. intros Hro c. split; [apply frame_create_actor|by apply (adm_create (ro := ro))]. Qed.
Lemma rel_from_send a code da :
  ro = false → pres (cm_rel X) (create_actor_from_send a (new_empty code da)).
Proof. intros Hro c. split; [apply frame_from_send|by apply (adm_from_send (ro := ro))]. Qed.
Lemma rel_update id f e :
  ro = false → (∀ a, as_balance (f a) = as_balance a) → pres (cm_rel X) (cm_update_actor id f e).
Proof. intros Hro ? c. split; [apply frame_update|by apply (adm_update (ro := ro))]. Qed.
Lemma rel_delete id : ro = false → pres (cm_rel X) (cm_delete_actor id).
Proof. intros Hro c. split; [apply frame_delete_actor|by apply (adm_delete (ro := ro))]. Qed.
Lemma rel_event e : ro = false → pres (cm_rel X) (append_event e).
Proof. intros Hro c. split; [apply frame_append_event|by apply (adm_event (ro := ro))]. Qed.

Lemma rel_transaction f : pres (cm_rel X) f → pres (cm_rel X) (with_transaction f).
Proof.
  intros Hf c. destruct (f (cm_begin c).2) as [r c2] eqn:Ef.
  pose proof (Hf (cm_begin c).2) as [Hfr Hx]. rewrite Ef in *. simpl in *.
  destruct (with_transaction_spec f c r c2 Ef Hfr) as (c3 & -> & Hfr3 & _ & _ & Hrev & Hcom).
  split; [done|]. simpl. destruct (reverted r).
  - destruct Hrev as (_ & _ & ? & _ & ?); [done|]. by apply (adm_read (ro := ro)).
  - destruct Hcom as [? ?]; [done|]. etrans; [|etrans; [exact Hx|by apply (adm_read (ro := ro))]].
    by apply (adm_read (ro := ro)).
Qed.

Lemma rel_stack_frame {A} (f : M CM A) : pres (cm_rel X) f → pres (cm_rel X) (with_stack_frame f).
Proof.
  intros Hf c. destruct (decide (cm_depth c < max_call_depth (cm_network c))) as [Hd|Hd].
  - set (c1 := cm_set_depth (cm_depth c + 1) c). destruct (f c1) as [r c2] eqn:Ef.
    pose proof (Hf c1) as [Hfr Hx]. rewrite Ef in *. simpl in *.
    rewrite (with_stack_frame_spec f c r c2 Hd Ef Hfr).
    destruct Hfr as (?&?&?&?&?&?&?&[Hm Hok]). split.
    + unfold cm_frame; simpl in *. split_and!; try done. split; simpl; [done|].
      intros Hl. specialize (Hok Hl). unfold lim_ok in *; simpl. rewrite Hm. lia.
    + etrans; [|etrans; [exact Hx|]]; by apply (adm_read (ro := ro)).
  - unfold with_stack_frame, mbind, M_bind, gets.
    destruct (Z.leb_spec (max_call_depth (cm_network c)) (cm_depth c)); [done|lia].
Qed.
End carry.
End frame.

#[export] Hint Resolve frame_charge frame_trace frame_resolve frame_get_actor frame_set_actor
  frame_delete_actor frame_transfer frame_create_actor frame_from_send frame_update
  frame_append_event frame_backtrace frame_invocations : pres.
#[export] Hint Resolve rel_charge rel_trace rel_resolve rel_get_actor rel_backtrace
  rel_invocations rel_transfer rel_create rel_from_send rel_update rel_delete rel_event
  rel_transaction rel_stack_frame : pres.
