(* ===== verification/Kernel.v ===== *)
(** * The kernel (fvm/src/kernel/default.rs)

    What one invocation may ask of the VM. A kernel holds the call manager for
    the time its actor runs, the invocation's block registry, and the fields of
    the message. [send] and [upgrade_actor] call other actors through [call]
    ([CallManager::call_actor]). *)

From S2P Require Import Prelude Effects Gas PriceList Address HistoryMap Types StateTree.
From S2P Require Import Access Blocks Machine Ipld Host CallManager Frame.
From stdpp Require Import gmap strings list fin_maps.
From Stdlib Require Import ZArith Lia.
#[local] Open Scope Z_scope.

Inductive Entrypoint :=
  | ImplicitConstructor
  | Invoke (method : MethodNum)
  | Upgrade (old_code_cid : Cid).

Definition INVOKE_FUNC_NAME : string := "invoke".
Definition UPGRADE_FUNC_NAME : string := "upgrade".
Definition METHOD_UPGRADE : MethodNum := 932083.

Definition entry_method_num (e : Entrypoint) : MethodNum :=
  match e with
  | ImplicitConstructor => METHOD_CONSTRUCTOR | Invoke n => n | Upgrade _ => METHOD_UPGRADE
  end.
Definition entry_func_name (e : Entrypoint) : string :=
  match e with ImplicitConstructor | Invoke _ => INVOKE_FUNC_NAME | Upgrade _ => UPGRADE_FUNC_NAME end.
Definition entry_invokes (e : Entrypoint) (method : MethodNum) : bool :=
  match e with
  | ImplicitConstructor => method =? METHOD_CONSTRUCTOR
  | Invoke num => num =? method
  | Upgrade _ => false
  end.

(** [CallManager::call_actor]: from, to, entrypoint, params, value, gas limit,
    read-only. *)
Definition CallFn `{E : Env} : Type :=
  ActorID → Address → Entrypoint → option Block → TokenAmount → option Gas → bool →
  M CM InvocationResult.

Record Kernel `{E : Env} := mkKernel {
  k_caller : ActorID;
  k_actor_id : ActorID;
  k_method : MethodNum;
  k_value_received : TokenAmount;
  k_read_only : bool;
  k_cm : CM;
  k_blocks : BlockRegistry;
}.

Record CallResult := mkCallResult {
  cr_block_id : BlockId; cr_block_stat : BlockStat; cr_exit_code : ExitCode }.

(** [EventEntry] of shared/src/sys. *)
Record EventHeader := mkEventHeader { eh_flags : Z; eh_codec : Z; eh_key_len : Z; eh_val_len : Z }.

(** [u128::try_from] on a token amount. *)
Definition token_to_u128 (v : TokenAmount) : result string Z :=
  if (v <? 0) || (2 ^ 128 <=? v) then Err "token amount exceeds u128" else Ok v.

Definition wrap_i32 (x : Z) : Z :=
  let y := wrap32 x in if i32_max <? y then y - 4294967296 else y.

Section kernel.
Context `{H : Host} (call : CallFn).

Definition k_set_cm c (k : Kernel) : Kernel :=
  mkKernel _ (k_caller k) (k_actor_id k) (k_method k) (k_value_received k) (k_read_only k) c (k_blocks k).
Definition k_set_blocks b (k : Kernel) : Kernel :=
  mkKernel _ (k_caller k) (k_actor_id k) (k_method k) (k_value_received k) (k_read_only k) (k_cm k) b.

Definition kcm {A} (m : M CM A) : M Kernel A := zoom k_cm k_set_cm m.
Definition kblk {A} (m : M BlockRegistry A) : M Kernel A := zoom k_blocks k_set_blocks m.

Definition require (b : bool) (n : ErrorNumber) (msg : string) : M Kernel unit :=
  if b then mret tt else throw (syscall_error n msg).

Definition k_get_self : M Kernel (option ActorState) :=
  id ← gets k_actor_id;
  kcm (cm_get_actor id).

(** Parameters by handle, then room for the return block. *)
Definition k_params (params_id : BlockId) : M Kernel (option Block) :=
  params ← (if params_id =? NO_DATA_BLOCK_ID then mret None
            else r ← gets (λ k, br_get params_id (k_blocks k));
                 b ← lift r; mret (Some b));
  full ← gets (λ k, is_full (k_blocks k));
  _ ← require (negb full) LimitExceeded "cannot store return block";
  mret params.

(** *** SendOps, UpgradeOps *)

Definition k_send (recipient : Address) (method : MethodNum) (params_id : BlockId)
    (value : TokenAmount) (gas_limit : option Gas) (flag_read_only : bool) : M Kernel CallResult :=
  from ← gets k_actor_id;
  self_ro ← gets k_read_only;
  let read_only := (self_ro : bool) || flag_read_only in
  _ ← require (negb (read_only && negb (value =? 0))) ReadOnly "cannot transfer value when read-only";
  params ← k_params params_id;
  result ← kcm (with_transaction
    (call from recipient (Invoke method) params value gas_limit read_only));
  match ir_value result with
  | Some blk =>
      r ← attempt (kblk (put_reachable blk));
      block_id ← lift (err_or_fatal r);
      mret (mkCallResult block_id (blk_stat blk) (ir_exit_code result))
  | None => mret (mkCallResult NO_DATA_BLOCK_ID (0, 0) (ir_exit_code result))
  end.

(** The actor may already be on the stack only below its own upgrades. *)
Fixpoint after_first_invoke (id : ActorID) (stack : list (ActorID * string)) : option (list (ActorID * string)) :=
  match stack with
  | [] => None
  | f :: rest => if bool_decide (f = (id, INVOKE_FUNC_NAME)) then Some rest
                 else after_first_invoke id rest
  end.
Definition upgrade_allowed (id : ActorID) (stack : list (ActorID * string)) : bool :=
  match after_first_invoke id stack with
  | None => true
  | Some rest => forallb (λ f, bool_decide (f.1 = id) && bool_decide (f.2 = UPGRADE_FUNC_NAME)) rest
  end.

Definition k_upgrade_actor (new_code_cid : Cid) (params_id : BlockId) : M Kernel CallResult :=
  ro ← gets k_read_only;
  _ ← require (negb ro) ReadOnly "upgrade_actor cannot be called while read-only";
  id ← gets k_actor_id;
  stack ← gets (λ k, cm_call_stack (k_cm k));
  _ ← require (upgrade_allowed id stack) Forbidden
        "calling upgrade on actor already on call stack is forbidden";
  params ← k_params params_id;
  caller ← gets k_caller;
  result ← kcm (with_transaction (
    state ← cm_update_actor id
      (λ s, mkActorState new_code_cid (as_state s) (as_sequence s) (as_balance s) None)
      (syscall_error IllegalOperation "actor deleted");
    call caller (new_id id) (Upgrade (as_code state)) params 0 None false));
  match ir_value result with
  | None => mret (mkCallResult NO_DATA_BLOCK_ID (0, 0) (ir_exit_code result))
  | Some block =>
      block_id ← kblk (put_reachable block);
      mret (mkCallResult block_id (blk_stat block) (ir_exit_code result))
  end.

(** *** SelfOps *)

Definition k_root : M Kernel Cid :=
  _ ← kcm (charge_gas on_get_root);
  o ← k_get_self;
  act ← lift (ok_or o (syscall_error IllegalOperation "state root requested after actor deletion"));
  _ ← modify (λ k, k_set_blocks (mark_reachable (as_state act) (k_blocks k)) k);
  mret (as_state act).

Definition k_set_root (new : Cid) : M Kernel unit :=
  ro ← gets k_read_only;
  _ ← require (negb ro) ReadOnly "cannot update the state-root while read-only";
  _ ← kcm (charge_gas on_set_root);
  ok ← gets (λ k, is_reachable new (k_blocks k));
  _ ← require ok NotFound "new root cid not reachable: {new}";
  id ← gets k_actor_id;
  _ ← kcm (cm_update_actor id (as_set_state new) (syscall_error IllegalOperation "actor deleted"));
  mret tt.

Definition k_current_balance : M Kernel TokenAmount :=
  _ ← kcm (charge_gas (λ _, on_self_balance));
  o ← k_get_self;
  mret (match o with Some a => as_balance a | None => 0 end).

Definition k_self_destruct (burn_unspent : bool) : M Kernel unit :=
  ro ← gets k_read_only;
  _ ← require (negb ro) ReadOnly "cannot self-destruct when read-only";
  _ ← kcm (charge_gas (λ _, on_delete_actor));
  balance ← k_current_balance;
  id ← gets k_actor_id;
  _ ← (if balance =? 0 then mret tt else
       _ ← require burn_unspent IllegalOperation "self-destruct with unspent funds";
       r ← attempt (kcm (cm_transfer id BURNT_FUNDS_ACTOR_ID balance));
       lift (err_or_fatal r));
  kcm (cm_delete_actor id).

(** *** IpldBlockOps *)

Definition k_scan (codec : Z) (data : bytes) : M Kernel (list Cid) :=
  pl ← gets (λ k, cm_price_list (k_cm k));
  kcm (on_gas (scan_for_reachable_links codec data pl)).

Definition k_block_open (cid : Cid) : M Kernel (BlockId * BlockStat) :=
  _ ← kcm (charge_gas on_block_open_base);
  ok ← gets (λ k, is_reachable cid (k_blocks k));
  _ ← require ok NotFound "block not reachable: {cid}";
  r ← gets (λ k, bs_get (st_store (cm_tree (k_cm k))) cid);
  o ← lift (or_fatal r);
  data ← lift (ok_or o (Fatal "missing reachable state: {}"));
  children ← k_scan (cid_codec cid) data;
  _ ← kcm (charge_gas (λ pl, on_block_open pl (N.of_nat (length data)) (N.of_nat (length children))));
  let block := mkBlock (cid_codec cid) data children in
  id ← kblk (put_reachable block);
  mret (id, blk_stat block).

Definition k_block_create (codec : Z) (data : bytes) : M Kernel BlockId :=
  mx ← gets (λ k, max_block_size (cm_network (k_cm k)));
  _ ← require (Z.of_nat (length data) <=? mx) LimitExceeded "blocks may not be larger than 1MiB";
  _ ← require (bool_decide (codec ∈ ALLOWED_CODECS)) IllegalCodec "codec {} not allowed";
  children ← k_scan codec data;
  _ ← kcm (charge_gas (λ pl, on_block_create pl (N.of_nat (length data)) (N.of_nat (length children))));
  kblk (put_check_reachable (mkBlock codec data children)).

Definition k_block_link (id : BlockId) (hash_fun hash_len : Z) : M Kernel Cid :=
  _ ← require ((hash_fun =? BLAKE2B_256) && (hash_len =? 32)) IllegalCid "cids must be 32-byte blake2b";
  r ← gets (λ k, br_get id (k_blocks k));
  block ← lift r;
  code ← lift (ok_or (hash_from_code hash_fun) (syscall_error IllegalCid "invalid CID codec"));
  _ ← kcm (charge_gas (λ pl, on_block_link pl code (Z.to_N (blk_size block))));
  let hash := mh_digest hash_fun (blk_data block) in
  _ ← require (hash_len <=? Z.of_nat (length hash)) IllegalCid "invalid hash length: {}";
  let k := mkCid (blk_codec block) hash_fun (take (Z.to_nat hash_len) hash) in
  _ ← kcm (on_tree (st_write (λ s, bs_put_keyed s k (blk_data block))));
  _ ← modify (λ kn, k_set_blocks (mark_reachable k (k_blocks kn)) kn);
  mret k.

(** The bytes copied to the front of the guest's buffer, and what is left of
    the block past the end of the buffer (negative when the buffer is longer). *)
Definition k_block_read (id : BlockId) (offset buf_len : Z) : M Kernel (Z * bytes) :=
  let end_ := offset + buf_len in
  _ ← require (end_ <=? i32_max) IllegalArgument "offset plus buffer length did not fit into an i32";
  r ← gets (λ k, br_get id (k_blocks k));
  block ← lift r;
  let data := blk_data block in
  let to_read := Z.min (Z.max (Z.of_nat (length data) - offset) 0) buf_len in
  _ ← kcm (charge_gas (λ pl, on_block_read pl (Z.to_N to_read)));
  mret (wrap_i32 (wrap_i32 (Z.of_nat (length data)) - end_),
        take (Z.to_nat to_read) (drop (Z.to_nat offset) data)).

Definition k_block_stat (id : BlockId) : M Kernel BlockStat :=
  _ ← kcm (charge_gas (λ _, on_block_stat));
  r ← gets (λ k, br_stat id (k_blocks k));
  lift r.

(** *** MessageOps, NetworkOps, RandomnessOps *)

(** origin, nonce, caller, receiver, method, value, premium, flags. *)
Definition k_msg_context : M Kernel (list Z) :=
  _ ← kcm (charge_gas on_message_context);
  k ← gets (λ k, k);
  value ← lift (or_fatal (token_to_u128 (k_value_received k)));
  premium ← lift (or_fatal (token_to_u128 (cc_gas_premium (cm_const (k_cm k)))));
  mret [cc_origin (cm_const (k_cm k)); cc_nonce (cm_const (k_cm k)); k_caller k; k_actor_id k;
        k_method k; value; premium; if k_read_only k then 1 else 0].

(** epoch, timestamp, base fee, chain id, network version. *)
Definition k_network_context : M Kernel (list Z) :=
  _ ← kcm (charge_gas on_network_context);
  ctx ← gets (λ k, cm_context (k_cm k));
  base_fee ← lift (or_fatal (token_to_u128 (mc_base_fee ctx)));
  mret [mc_epoch ctx; mc_timestamp ctx; base_fee;
        chain_id (mc_network ctx); network_version (mc_network ctx)].

Definition k_tipset_cid (epoch : Z) : M Kernel Cid :=
  _ ← require (negb (epoch <? 0)) IllegalArgument "epoch is negative";
  now ← gets (λ k, mc_epoch (cm_context (k_cm k)));
  let offset := now - epoch in
  _ ← require (negb (offset <? 0)) IllegalArgument "epoch {} is in the future";
  _ ← require (negb (offset =? 0)) IllegalArgument
        "cannot lookup the tipset cid for the current epoch";
  _ ← kcm (charge_gas (λ pl, on_tipset_cid pl offset));
  lift (or_fatal (host_tipset_cid epoch)).

(** [checked_sub] fails only when the difference leaves the [i64] range. *)
Definition k_lookback (rand_epoch : Z) : M Kernel unit :=
  now ← gets (λ k, mc_epoch (cm_context (k_cm k)));
  let lookback := now - rand_epoch in
  _ ← require ((i64_min <=? lookback) && (lookback <=? i64_max)) IllegalArgument
        "randomness epoch {} is in the future";
  kcm (charge_gas (λ pl, on_get_randomness pl lookback)).

Definition k_get_randomness_from_tickets (rand_epoch : Z) : M Kernel bytes :=
  _ ← k_lookback rand_epoch;
  lift (or_illegal_argument (host_chain_randomness rand_epoch)).
Definition k_get_randomness_from_beacon (rand_epoch : Z) : M Kernel bytes :=
  _ ← k_lookback rand_epoch;
  lift (or_illegal_argument (host_beacon_randomness rand_epoch)).

(** *** CryptoOps *)

Definition k_verify_signature (sig_type : SignatureType) (signature : bytes) (signer : Address)
    (plaintext : bytes) : M Kernel bool :=
  _ ← kcm (charge_gas (λ pl, on_verify_signature pl sig_type (N.of_nat (length plaintext))));
  match signer with
  | BLSAddr _ | Secp256k1Addr _ =>
      lift (or_illegal_argument (host_verify_signature sig_type signature plaintext signer))
  | _ => throw (syscall_error IllegalArgument "address protocol {} not supported")
  end.

(** The plaintexts cut out of their concatenation, and the end of the last. *)
Fixpoint cut_plaintexts (concat : bytes) (offset : Z) (lens : list Z) : Result (list bytes * Z) :=
  match lens with
  | [] => Ok ([], offset)
  | len :: lens =>
      let start := offset in
      let offset := start + len in
      if u64_max <? offset then Err (syscall_error IllegalArgument "invalid bls plaintext length")
      else if Z.of_nat (length concat) <? offset
      then Err (syscall_error IllegalArgument "bls signature plaintext out of bounds")
      else match cut_plaintexts concat offset lens with
           | Err e => Err e
           | Ok (ps, end_) => Ok (take (Z.to_nat len) (drop (Z.to_nat start) concat) :: ps, end_)
           end
  end.

Definition k_verify_bls_aggregate (aggregate_sig : bytes) (pub_keys : list bytes)
    (plaintexts_concat : bytes) (plaintext_lens : list Z) : M Kernel bool :=
  let num_signers := length pub_keys in
  _ ← require (num_signers =? length plaintext_lens)%nat IllegalArgument
        "unequal numbers of bls public keys and plaintexts";
  _ ← kcm (charge_gas (λ pl, on_verify_aggregate_signature pl (N.of_nat num_signers)
        (N.of_nat (length plaintexts_concat))));
  '(plaintexts, offset) ← lift (cut_plaintexts plaintexts_concat 0 plaintext_lens);
  _ ← require (offset =? Z.of_nat (length plaintexts_concat)) IllegalArgument
        "plaintexts buffer length doesn't match";
  mret (match host_verify_bls_aggregate aggregate_sig pub_keys plaintexts with
        | Ok v => v
        | Err _ => false
        end).

Definition k_recover_secp_public_key (hash signature : bytes) : M Kernel bytes :=
  _ ← kcm (charge_gas on_recover_secp_public_key);
  lift (or_illegal_argument (host_recover_secp hash signature)).

Definition k_hash (code : Z) (data : bytes) : M Kernel bytes :=
  hasher ← lift (ok_or (hash_from_code code) (syscall_error IllegalArgument "unsupported hash code {}"));
  _ ← kcm (charge_gas (λ pl, on_hashing pl hasher (N.of_nat (length data))));
  mret (mh_digest (hash_code hasher) data).

(** *** ActorOps *)

Definition k_resolve_address (a : Address) : M Kernel ActorID :=
  _ ← kcm (charge_gas (λ _, on_resolve_address));
  o ← kcm (cm_resolve_address a);
  lift (ok_or o (syscall_error NotFound "actor not found")).

Definition k_actor (id : ActorID) (price : PriceList → GasCharge) : M Kernel ActorState :=
  _ ← kcm (charge_gas price);
  o ← kcm (cm_get_actor id);
  lift (ok_or o (syscall_error NotFound "actor not found")).

Definition k_get_actor_code_cid (id : ActorID) : M Kernel Cid :=
  a ← k_actor id (λ _, on_get_actor_code_cid); mret (as_code a).
Definition k_balance_of (id : ActorID) : M Kernel TokenAmount :=
  a ← k_actor id (λ _, on_balance_of); mret (as_balance a).
Definition k_lookup_delegated_address (id : ActorID) : M Kernel (option Address) :=
  a ← k_actor id (λ _, on_lookup_delegated_address); mret (as_delegated_address a).

Definition k_next_actor_address : M Kernel Address := gets (λ k, next_actor_address (k_cm k)).

Definition k_create_actor (code_id : Cid) (actor_id : ActorID) (da : option Address) : M Kernel unit :=
  self ← gets k_actor_id;
  _ ← require (self =? INIT_ACTOR_ID) Forbidden
        "create_actor is restricted to InitActor. Called by {}";
  ro ← gets k_read_only;
  _ ← require (negb ro) ReadOnly "create_actor cannot be called while read-only";
  kcm (cm_create_actor code_id actor_id da).

Definition k_get_builtin_actor_type (code : Cid) : M Kernel Z :=
  _ ← kcm (charge_gas on_get_builtin_actor_type);
  gets (λ k, id_by_code (cm_builtin (k_cm k)) code).

Definition k_get_code_cid_for_type (typ : Z) : M Kernel Cid :=
  _ ← kcm (charge_gas on_get_code_cid_for_type);
  o ← gets (λ k, code_by_id (cm_builtin (k_cm k)) typ);
  lift (ok_or o (syscall_error IllegalArgument "tried to resolve CID of unrecognized actor type")).

(** *** DebugOps *)

Definition k_debug_enabled (k : Kernel) : bool := actor_debugging (cm_network (k_cm k)).
Definition k_log (msg : string) : M Kernel unit := kcm (cm_log msg).

(** Only the checks on the name; the file written is outside the VM's state. *)
Definition k_store_artifact (name : bytes) : M Kernel unit :=
  _ ← require (Z.of_nat (length name) <=? 256) IllegalArgument
        "debug artifact name should not exceed 256 bytes";
  _ ← require (negb (bool_decide (47 ∈ name))) IllegalArgument
        "debug artifact name should not include any path separators";
  match name with
  | [] => throw (syscall_error IllegalArgument "debug artifact name should be at least one character")
  | c :: _ => require (negb (c =? 46)) IllegalArgument
                "debug artifact name should not start with a decimal '.'"
  end.

(** *** EventOps *)

Definition MAX_NR_ENTRIES : Z := 255.
Definition MAX_KEY_LEN : Z := 31.
Definition MAX_TOTAL_VALUES_LEN : Z := 8192.
Definition ALL_EVENT_FLAGS : Z := 3.

(** [str::get(range)]: in bounds and on character boundaries. *)
Definition is_char_boundary (s : bytes) (i : Z) : bool :=
  (i =? 0) || (i =? Z.of_nat (length s)) ||
  match s !! Z.to_nat i with
  | Some b => (b <? 0x80) || (0xc0 <=? b)
  | None => false
  end.
Definition slice (s : bytes) (a b : Z) : option bytes :=
  if b <=? Z.of_nat (length s) then Some (take (Z.to_nat (b - a)) (drop (Z.to_nat a) s)) else None.
Definition str_slice (s : bytes) (a b : Z) : option bytes :=
  if is_char_boundary s a && is_char_boundary s b then slice s a b else None.

(** One turn of the loop over the headers, at offsets [ko] and [vo]. *)
Definition parse_entry (keys values : bytes) (ko vo : Z) (h : EventHeader) : Result Entry :=
  if negb (Z.land (eh_flags h) (Z.lnot ALL_EVENT_FLAGS) =? 0)
  then Err (syscall_error IllegalArgument "event flags are invalid: {}")
  else if MAX_KEY_LEN <? eh_key_len h
  then Err (syscall_error LimitExceeded "event key exceeded max size: {} > {MAX_KEY_LEN}")
  else if MAX_TOTAL_VALUES_LEN <? eh_val_len h
  then Err (syscall_error IllegalArgument "event entry value out of range")
  else match str_slice keys ko (ko + eh_key_len h) with
  | None => Err (syscall_error IllegalArgument "event entry key out of range")
  | Some key =>
      match slice values vo (vo + eh_val_len h) with
      | None => Err (syscall_error IllegalArgument "event entry value out of range")
      | Some value =>
          if negb (eh_codec h =? IPLD_RAW) && negb (eh_codec h =? CBOR)
          then Err (syscall_error IllegalCodec "event codec must be IPLD_RAW or CBOR, was: {}")
          else Ok (mkEventEntry (eh_flags h) key (eh_codec h) value)
      end
  end.

Fixpoint parse_entries (keys values : bytes) (ko vo : Z) (hs : list EventHeader)
    : Result (list Entry * Z * Z) :=
  match hs with
  | [] => Ok ([], ko, vo)
  | h :: hs =>
      match parse_entry keys values ko vo h with
      | Err e => Err e
      | Ok en =>
          match parse_entries keys values (ko + eh_key_len h) (vo + eh_val_len h) hs with
          | Err e => Err e
          | Ok (ens, ko', vo') => Ok (en :: ens, ko', vo')
          end
      end
  end.

Definition k_emit_event (headers : list EventHeader) (keys values : bytes) : M Kernel unit :=
  ro ← gets k_read_only;
  _ ← require (negb ro) ReadOnly "cannot emit events while read-only";
  _ ← kcm (charge_gas (λ pl, on_actor_event pl (N.of_nat (length headers))
        (N.of_nat (length keys)) (N.of_nat (length values))));
  _ ← require (Z.of_nat (length headers) <=? MAX_NR_ENTRIES) LimitExceeded
        "event exceeded max entries: {} > {MAX_NR_ENTRIES}";
  _ ← require (Z.of_nat (length values) <=? MAX_TOTAL_VALUES_LEN) LimitExceeded
        "total event value lengths exceeded the max size: {} > {MAX_TOTAL_VALUES_LEN}";
  _ ← lift (ok_or (host_from_utf8 keys) (syscall_error IllegalArgument "invalid event key"));
  '(entries, ko, vo) ← lift (parse_entries keys values 0 0 headers);
  _ ← require (ko =? Z.of_nat (length keys)) IllegalArgument
        "event key buffer length is too large: {} < {}";
  _ ← require (vo =? Z.of_nat (length values)) IllegalArgument
        "event value buffer length is too large: {} < {}";
  id ← gets k_actor_id;
  kcm (append_event (mkStampedEvent id entries)).

(** *** Gas and limits, as the Wasm runtime sees them *)

Definition k_gas_available (k : Kernel) : Gas := gas_available (cm_gas (k_cm k)).
Definition k_charge_gas (name : string) (compute : Gas) : M Kernel unit :=
  kcm (on_gas (gt_charge_gas name compute)).
Definition k_memory_used (k : Kernel) : Z := lim_curr (cm_limits (k_cm k)).
End kernel.
