(* ===== verification/FilKernel.v ===== *)
(** * The Filecoin kernel (fvm/src/kernel/filecoin.rs)

    [DefaultFilecoinKernel] wraps the default kernel, to which it delegates every
    other operation, and adds the operations on proofs of storage, consensus
    faults and the circulating supply: they charge for the work, check and
    convert the arguments, ask the proofs library or the client, and turn panics
    into errors of the caller. None of them changes anything but the gas. *)

From S2P Require Import Prelude Effects Gas PriceList Address HistoryMap Types Sector Proofs StateTree.
From S2P Require Import Access Blocks Machine Ipld Host CallManager Frame Kernel.
From stdpp Require Import gmap strings list fin_maps.
From Stdlib Require Import ZArith Lia.
#[local] Open Scope Z_scope.

Section filecoin.
Context `{H : Host}.

(** A charge whose price lookup panics when the table lacks the entry; the panic
    is not caught by the operation. *)
Definition kcharge_expect (f : PriceList → option GasCharge) (msg : string) : M Kernel unit :=
  pl ← gets (λ k, cm_price_list (k_cm k));
  match f pl with
  | Some ch => kcm (charge_gas (λ _, ch))
  | None => throw (Fatal msg)
  end.

Definition k_compute_unsealed_sector_cid (proof_type : RegisteredSealProof) (pieces : list PieceInfo)
    : M Kernel Cid :=
  _ ← kcm (charge_gas on_compute_unsealed_sector_cid);
  lift (catch_and_log_panic "computing unsealed sector CID"
    (Fil.compute_unsealed_sector_cid proof_type pieces)).

Definition k_verify_post (verify_info : WindowPoStVerifyInfo) : M Kernel bool :=
  _ ← kcharge_expect (λ pl, on_verify_post pl (pp_post_proof <$> head (wp_proofs verify_info))
        (N.of_nat (length (wp_challenged_sectors verify_info)))) "512MiB lookup must exist in price table";
  lift (catch_and_log_panic "verifying post" (Fil.verify_post verify_info)).

Definition k_verify_consensus_fault (h1 h2 extra : bytes) : M Kernel (option ConsensusFault) :=
  _ ← kcm (charge_gas on_verify_consensus_fault);
  '(fault, _) ← lift (or_illegal_argument (host_verify_consensus_fault h1 h2 extra));
  mret fault.

Fixpoint charge_seals (vis : list SealVerifyInfo) : M Kernel unit :=
  match vis with
  | [] => mret tt
  | _ :: vis => _ ← kcm (charge_gas on_verify_seal); charge_seals vis
  end.

(** Errors and panics of the verification count as a failed verification. *)
Definition seal_ok (seal : SealVerifyInfo) : bool :=
  match Fil.verify_seal seal with Ok correct => correct | Err _ => false end.

Definition k_batch_verify_seals (vis : list SealVerifyInfo) : M Kernel (list bool) :=
  _ ← charge_seals vis;
  mret (seal_ok <$> vis).

Definition k_verify_aggregate_seals (aggregate : AggregateSealVerifyProofAndInfos) : M Kernel bool :=
  _ ← kcharge_expect (λ pl, on_verify_aggregate_seals pl (ag_seal_proof aggregate)
        (N.of_nat (length (ag_infos aggregate))))
        "There is an implementation error where proof type does not exist in table";
  lift (catch_and_log_panic "verifying aggregate seals" (Fil.verify_aggregate_seals aggregate)).

Definition k_verify_replica_update (replica : ReplicaUpdateInfo) : M Kernel bool :=
  _ ← kcm (charge_gas on_verify_replica_update);
  lift (catch_and_log_panic "verifying replica update" (Fil.verify_replica_update replica)).

Definition k_total_fil_circ_supply : M Kernel TokenAmount :=
  gets (λ k, mc_circ_supply (cm_context (k_cm k))).
End filecoin.
