(* ===== verification/Syscalls.v ===== *)
(** * System calls (fvm/src/syscalls)

    From the arguments a guest passes (offsets into its memory) to kernel
    operations: [Memory] (context.rs), one definition per bound function
    (vm.rs, send.rs, sself.rs, actor.rs, ipld.rs, network.rs, rand.rs, crypto.rs,
    event.rs, gas.rs, debug.rs, filecoin.rs) and the metered wrapper the linker puts around
    each of them (linker.rs). *)

From S2P Require Import Prelude Effects Gas PriceList Address HistoryMap Types StateTree.
From S2P Require Import Sector Proofs Access Blocks Machine Ipld Host CallManager Frame Kernel FilKernel.
From stdpp Require Import gmap strings list fin_maps.
From Stdlib Require Import ZArith Lia.
#[local] Open Scope Z_scope.

(** [Abort] (error.rs). *)
Inductive Abort :=
  | AExit (code : ExitCode) (message : string) (blk : BlockId)
  | AOutOfGas
  | AFatal (msg : string).

Definition abort_from_error_as_fatal (e : ExecutionError) : Abort :=
  match e with
  | OutOfGas => AOutOfGas
  | Fatal m => AFatal m
  | Syscall _ => AFatal "unexpected syscall error: {}"
  end.

(** The failing cases of [ControlFlow]. *)
Inductive Control := CError (e : SyscallError) | CAbort (a : Abort).

Definition into_control_flow (e : ExecutionError) : Control :=
  match e with
  | Syscall e => CError e
  | OutOfGas => CAbort AOutOfGas
  | Fatal m => CAbort (AFatal m)
  end.

(** [Context]: the kernel and the running actor's memory. *)
Record Ctx `{E : Env} := mkCtx { ctx_kernel : Kernel; ctx_mem : bytes }.

Section syscalls.
Context `{H : Host} (call : CallFn).

Definition illegal {A} (msg : string) : Result A := Err (syscall_error IllegalArgument msg).

(** ** Memory *)

Definition mem_len (mem : bytes) : Z := Z.of_nat (length mem).

Definition check_bounds (offset len : Z) (mem : bytes) : Result unit :=
  if offset + len <=? mem_len mem then Ok tt else illegal "buffer {} (length {}) out of bounds".

Definition try_slice (offset len : Z) (mem : bytes) : Result bytes :=
  if mem_len mem <? offset then illegal "buffer {} (length {}) out of bounds"
  else if mem_len mem - offset <? len then illegal "buffer {} (length {}) out of bounds"
  else Ok (take (Z.to_nat len) (drop (Z.to_nat offset) mem)).

(** Copying [data] over the memory from [offset] on. *)
Definition mem_write (offset : Z) (data mem : bytes) : bytes :=
  take (Z.to_nat offset) mem ++ data ++ drop (Z.to_nat offset + length data) mem.

Definition read_cid (offset : Z) (mem : bytes) : Result Cid :=
  if mem_len mem <? offset then illegal "cid at offset {} is out of bounds"
  else match cid_read_bytes (drop (Z.to_nat offset) mem) with
       | Ok (c, _) => Ok c
       | Err _ => illegal "failed to parse cid"
       end.

Definition read_address (offset len : Z) (mem : bytes) : Result Address :=
  match try_slice offset len mem with
  | Err e => Err e
  | Ok bz => match from_bytes bz with Ok a => Ok a | Err _ => illegal "invalid address" end
  end.

Definition rd {A} (f : bytes → Result A) : M Ctx A := λ c, (f (ctx_mem c), c).
Definition kern {A} (m : M Kernel A) : M Ctx A :=
  zoom ctx_kernel (λ k c, mkCtx _ k (ctx_mem c)) m.
Definition write_mem (offset : Z) (data : bytes) : M Ctx unit :=
  modify (λ c, mkCtx _ (ctx_kernel c) (mem_write offset data (ctx_mem c))).

Definition write_cid (k : Cid) (offset len : Z) : M Ctx Z :=
  out ← rd (try_slice offset len);
  let buf := host_cid_bytes k in
  if Z.of_nat (length out) <? Z.of_nat (length buf)
  then throw (syscall_error BufferTooSmall "cid output buffer is too small")
  else _ ← write_mem offset buf; mret (Z.of_nat (length buf)).

(** ** The bound functions *)

(** A CID written to the guest's buffer, whose bounds are checked first. *)
Definition out_cid (m : M Kernel Cid) (off len : Z) : M Ctx (list Z) :=
  _ ← rd (check_bounds off len);
  k ← kern m;
  n ← write_cid k off len;
  mret [n].

Definition sys_exit (code blk message_off message_len : Z) (mem : bytes) : Abort :=
  if negb (is_success code) && is_system_error code
  then AExit SYS_ILLEGAL_EXIT_CODE "actor aborted with code {}" blk
  else AExit code
    (if message_len =? 0 then "actor aborted"
     else match try_slice message_off message_len mem with
          | Ok _ => "{message}"
          | Err _ => "failed to extract error message: {e}"
          end) blk.

Definition sys_send (recipient_off recipient_len method params_id value_hi value_lo gas_limit flags : Z)
    : M Ctx (list Z) :=
  recipient ← rd (read_address recipient_off recipient_len);
  let value := Z.lor (Z.shiftl value_hi 64) value_lo in
  let limit := if gas_limit <? u64_max then Some (Gas_new (Z.to_N gas_limit)) else None in
  if negb (Z.land flags (Z.lnot 1) =? 0)
  then throw (syscall_error IllegalArgument "invalid send flags: {flags}") else
  r ← kern (k_send call recipient method params_id value limit (Z.testbit flags 0));
  mret [cr_exit_code r; cr_block_id r; (cr_block_stat r).1; (cr_block_stat r).2].

Definition sys_upgrade_actor (new_code_cid_off params_id : Z) : ME Control Ctx (list Z) :=
  cid ← map_err into_control_flow (rd (read_cid new_code_cid_off));
  r ← map_err into_control_flow (kern (k_upgrade_actor call cid params_id));
  if is_success (cr_exit_code r)
  then throw (CAbort (AExit (cr_exit_code r) "" (cr_block_id r)))
  else mret [cr_exit_code r; cr_block_id r; (cr_block_stat r).1; (cr_block_stat r).2].

Definition sys_lookup_delegated_address (id off len : Z) : M Ctx (list Z) :=
  obuf ← rd (try_slice off len);
  o ← kern (k_lookup_delegated_address id);
  match o with
  | None => mret [0]
  | Some a =>
      let bz := to_bytes a in
      if Z.of_nat (length obuf) <? Z.of_nat (length bz)
      then throw (syscall_error BufferTooSmall "address output buffer is too small")
      else _ ← write_mem off bz; mret [Z.of_nat (length bz)]
  end.

Definition sys_next_actor_address (off len : Z) : M Ctx (list Z) :=
  _ ← rd (try_slice off len);
  if len <? Z.of_nat PAYLOAD_HASH_LEN + 1
  then throw (syscall_error BufferTooSmall "output buffer must have a minimum capacity of 21 bytes") else
  a ← kern k_next_actor_address;
  let bz := to_bytes a in
  if len <? Z.of_nat (length bz) then throw (Fatal "created {} byte actor address")
  else _ ← write_mem off bz; mret [Z.of_nat (length bz)].

Definition sys_create_actor (id typ_off da_off da_len : Z) : M Ctx (list Z) :=
  typ ← rd (read_cid typ_off);
  da ← (if 0 <? da_len then a ← rd (read_address da_off da_len); mret (Some a) else mret None);
  _ ← kern (k_create_actor typ id da);
  mret [].

Definition token_out (m : M Kernel TokenAmount) : M Ctx (list Z) :=
  b ← kern m;
  v ← lift (or_fatal (token_to_u128 b));
  mret [v].

Definition sys_block_read (id offset off len : Z) : M Ctx (list Z) :=
  _ ← rd (try_slice off len);
  '(r, data) ← kern (k_block_read id offset len);
  _ ← write_mem off data;
  mret [r].

Definition sig_type_of (t : Z) : Result SignatureType :=
  if t =? 1 then Ok Secp256k1 else if t =? 2 then Ok BLS else illegal "unknown signature type {}".

Definition sys_verify_signature (t sig_off sig_len addr_off addr_len p_off p_len : Z) : M Ctx (list Z) :=
  sig_type ← lift (sig_type_of t);
  sig ← rd (try_slice sig_off sig_len);
  addr ← rd (read_address addr_off addr_len);
  plaintext ← rd (try_slice p_off p_len);
  v ← kern (k_verify_signature sig_type sig addr plaintext);
  mret [if v : bool then 0 else -1].

Definition BLS_SIG_LEN : Z := 96.

(** A multi-byte little-endian integer, as the guest's memory holds it. *)
Definition from_le_bytes (bz : bytes) : Z := foldr (λ b acc, b + 256 * acc) 0 bz.
Fixpoint to_le_bytes (n : nat) (x : Z) : bytes :=
  match n with
  | O => []
  | S n => x `mod` 256 :: to_le_bytes n (x / 256)
  end.

Fixpoint chunks (n size : nat) (bz : bytes) : list bytes :=
  match n with
  | O => []
  | S n => take size bz :: chunks n size (drop size bz)
  end.

Definition try_chunks (size offset len : Z) (mem : bytes) : Result (list bytes) :=
  if negb (len mod size =? 0) then illegal "buffer length {len} is not divisible by chunk len {S}"
  else match try_slice offset len mem with
       | Err e => Err e
       | Ok bz => Ok (chunks (Z.to_nat (len / size)) (Z.to_nat size) bz)
       end.

Definition sys_verify_bls_aggregate (num_signers sig_off pub_keys_off plaintexts_off lens_off : Z)
    : M Ctx (list Z) :=
  _ ← (if u32_max <? num_signers * Z.of_nat BLS_PUB_LEN
       then throw (syscall_error IllegalArgument
              "number of signatures aggregated ({num_signers}) exceeds limit") else mret tt);
  sig ← rd (try_slice sig_off BLS_SIG_LEN);
  pub_keys ← rd (try_chunks (Z.of_nat BLS_PUB_LEN) pub_keys_off (num_signers * Z.of_nat BLS_PUB_LEN));
  lens ← rd (try_slice lens_off (num_signers * 4));
  let plaintext_lens := from_le_bytes <$> chunks (Z.to_nat num_signers) 4 lens in
  plaintexts_concat ← rd (try_slice plaintexts_off (wrap32 (foldr Z.add 0 plaintext_lens)));
  v ← kern (k_verify_bls_aggregate sig pub_keys plaintexts_concat plaintext_lens);
  mret [if v : bool then 0 else -1].

Definition SECP_SIG_MESSAGE_HASH_SIZE : Z := 32.
Definition SECP_SIG_LEN : Z := 65.

Definition sys_recover_secp (hash_off sig_off : Z) : M Ctx (list Z) :=
  hash ← rd (try_slice hash_off SECP_SIG_MESSAGE_HASH_SIZE);
  sig ← rd (try_slice sig_off SECP_SIG_LEN);
  kern (k_recover_secp_public_key hash sig).

Definition sys_hash (code data_off data_len digest_off digest_len : Z) : M Ctx (list Z) :=
  _ ← rd (check_bounds digest_off digest_len);
  data ← rd (try_slice data_off data_len);
  digest ← kern (k_hash code data);
  out ← rd (try_slice digest_off digest_len);
  let n := Nat.min (length out) (length digest) in
  _ ← write_mem digest_off (take n digest);
  mret [Z.of_nat n].

(** Headers are 24 packed little-endian bytes: flags, codec, key and value length. *)
Definition EVENT_SIZE : Z := 24.
Definition decode_header (bz : bytes) : EventHeader :=
  mkEventHeader (from_le_bytes (take 8 bz)) (from_le_bytes (take 8 (drop 8 bz)))
    (from_le_bytes (take 4 (drop 16 bz))) (from_le_bytes (take 4 (drop 20 bz))).
Fixpoint decode_headers (n : nat) (bz : bytes) : list EventHeader :=
  match n with
  | O => []
  | S n => decode_header (take 24 bz) :: decode_headers n (drop 24 bz)
  end.

Definition sys_emit_event (event_off event_len key_off key_len val_off val_len : Z) : M Ctx (list Z) :=
  _ ← (if u32_max <? event_len * EVENT_SIZE
       then throw (syscall_error IllegalArgument "events index out of bounds") else mret tt);
  buf ← rd (try_slice event_off (event_len * EVENT_SIZE));
  raw_key ← rd (try_slice key_off key_len);
  raw_val ← rd (try_slice val_off val_len);
  _ ← kern (k_emit_event (decode_headers (Z.to_nat event_len) buf) raw_key raw_val);
  mret [].

Definition sys_charge_gas (name_off name_len compute : Z) : M Ctx (list Z) :=
  bz ← rd (try_slice name_off name_len);
  name ← lift (ok_or (host_from_utf8 bz) (syscall_error IllegalArgument "invalid utf-8"));
  _ ← kern (k_charge_gas name (Gas_new (Z.to_N compute)));
  mret [].

Definition sys_log (off len : Z) : M Ctx (list Z) :=
  on ← gets (λ c, k_debug_enabled (ctx_kernel c));
  if negb on then mret [] else
  bz ← rd (try_slice off len);
  msg ← lift (ok_or (host_from_utf8 bz) (syscall_error IllegalArgument "invalid utf-8"));
  _ ← kern (k_log msg);
  mret [].

Definition sys_store_artifact (name_off name_len data_off data_len : Z) : M Ctx (list Z) :=
  on ← gets (λ c, k_debug_enabled (ctx_kernel c));
  if negb on then mret [] else
  _ ← rd (try_slice data_off data_len);
  name ← rd (try_slice name_off name_len);
  _ ← lift (ok_or (host_from_utf8 name) (syscall_error IllegalArgument "invalid utf-8"));
  _ ← kern (k_store_artifact name);
  mret [].

(** *** The Filecoin calls *)

(** [ReadCbor::read_cbor]. *)
Definition read_cbor {T} `{CborIn T} (offset len : Z) (mem : bytes) : Result T :=
  match try_slice offset len mem with
  | Err e => Err e
  | Ok bz => match cbor_in bz with
             | Some r => or_error IllegalArgument r
             | None => illegal "panic when decoding cbor from actor"
             end
  end.

Definition status (m : M Kernel bool) : M Ctx (list Z) :=
  v ← kern m; mret [if v : bool then 0 else -1].

Definition sys_compute_unsealed_sector_cid (proof_type pieces_off pieces_len cid_off cid_len : Z)
    : M Ctx (list Z) :=
  let typ := seal_from_i64 proof_type in
  _ ← (match typ with
       | SealInvalid _ => throw (syscall_error IllegalArgument "invalid proof type {}")
       | _ => mret tt
       end);
  pieces ← rd (read_cbor (T := list PieceInfo) pieces_off pieces_len);
  out_cid (k_compute_unsealed_sector_cid typ pieces) cid_off cid_len.

Definition sys_verify_post (info_off info_len : Z) : M Ctx (list Z) :=
  info ← rd (read_cbor (T := WindowPoStVerifyInfo) info_off info_len);
  status (k_verify_post info).

Definition fault_number (f : ConsensusFaultType) : Z :=
  match f with DoubleForkMining => 1 | ParentGrinding => 2 | TimeOffsetMining => 3 end.

(** epoch, target, fault. *)
Definition sys_verify_consensus_fault (h1_off h1_len h2_off h2_len extra_off extra_len : Z)
    : M Ctx (list Z) :=
  h1 ← rd (try_slice h1_off h1_len);
  h2 ← rd (try_slice h2_off h2_len);
  extra ← rd (try_slice extra_off extra_len);
  ret ← kern (k_verify_consensus_fault h1 h2 extra);
  match ret with
  | Some fault =>
      target ← lift (match address_id (cf_target fault) with
                     | Ok id => Ok id
                     | Err _ => Err (Fatal "kernel returned non-id target address")
                     end);
      mret [cf_epoch fault; target; fault_number (cf_fault_type fault)]
  | None => mret [0; 0; 0]
  end.

Definition sys_verify_aggregate_seals (agg_off agg_len : Z) : M Ctx (list Z) :=
  info ← rd (read_cbor (T := AggregateSealVerifyProofAndInfos) agg_off agg_len);
  status (k_verify_aggregate_seals info).

Definition sys_verify_replica_update (rep_off rep_len : Z) : M Ctx (list Z) :=
  info ← rd (read_cbor (T := ReplicaUpdateInfo) rep_off rep_len);
  status (k_verify_replica_update info).

(** One byte per result is written back. *)
Definition sys_batch_verify_seals (batch_off batch_len result_off : Z) : M Ctx (list Z) :=
  batch ← rd (read_cbor (T := list SealVerifyInfo) batch_off batch_len);
  _ ← rd (try_slice result_off (wrap32 (Z.of_nat (length batch))));
  result ← kern (k_batch_verify_seals batch);
  _ ← (if (length result =? length batch)%nat then mret tt
       else throw (Fatal "expected one result per input: {} != {}"));
  _ ← write_mem result_off ((λ b : bool, if b then 1 else 0) <$> result);
  mret [].

(** The function each request is bound to. *)
Definition dispatch (req : SyscallReq) : ME Control Ctx (list Z) :=
  let ok := map_err into_control_flow in
  match req with
  | VmExit code blk moff mlen => λ c, (Err (CAbort (sys_exit code blk moff mlen (ctx_mem c))), c)
  | VmMessageContext _ => ok (kern k_msg_context)
  | NetworkContext _ => ok (kern k_network_context)
  | NetworkTipsetCid _ epoch off len => ok (out_cid (k_tipset_cid epoch) off len)
  | IpldBlockOpen _ cid => ok (
      k ← rd (read_cid cid);
      '(id, stat) ← kern (k_block_open k);
      mret [stat.1; id; stat.2])
  | IpldBlockCreate _ codec off len => ok (
      data ← rd (try_slice off len);
      id ← kern (k_block_create codec data);
      mret [id])
  | IpldBlockRead _ id offset off len => ok (sys_block_read id offset off len)
  | IpldBlockStat _ id => ok (s ← kern (k_block_stat id); mret [s.1; s.2])
  | IpldBlockLink _ id hash_fun hash_len off len => ok (out_cid (k_block_link id hash_fun hash_len) off len)
  | SelfRoot _ off len => ok (out_cid k_root off len)
  | SelfSetRoot off => ok (k ← rd (read_cid off); _ ← kern (k_set_root k); mret [])
  | SelfCurrentBalance _ => ok (token_out k_current_balance)
  | SelfSelfDestruct burn => ok (_ ← kern (k_self_destruct (0 <? burn)); mret [])
  | ActorResolveAddress _ off len => ok (
      a ← rd (read_address off len);
      id ← kern (k_resolve_address a);
      mret [id])
  | ActorLookupDelegatedAddress _ id off len => ok (sys_lookup_delegated_address id off len)
  | ActorGetActorCodeCid _ id off len => ok (out_cid (k_get_actor_code_cid id) off len)
  | ActorNextActorAddress _ off len => ok (sys_next_actor_address off len)
  | ActorCreateActor id typ_off da_off da_len => ok (sys_create_actor id typ_off da_off da_len)
  | ActorUpgradeActor _ off params_id => sys_upgrade_actor off params_id
  | ActorGetBuiltinActorType _ off => ok (
      k ← rd (read_cid off);
      t ← kern (k_get_builtin_actor_type k);
      mret [wrap_i32 t])
  | ActorGetCodeCidForType _ typ off len => ok (out_cid (k_get_code_cid_for_type (wrap32 typ)) off len)
  | ActorBalanceOf _ id => ok (token_out (k_balance_of id))
  | CryptoVerifySignature _ t so sl ao al po pl => ok (sys_verify_signature t so sl ao al po pl)
  | CryptoVerifyBlsAggregate _ n so ko po lo => ok (sys_verify_bls_aggregate n so ko po lo)
  | CryptoRecoverSecp _ hash_off sig_off => ok (sys_recover_secp hash_off sig_off)
  | CryptoHash _ code off len doff dlen => ok (sys_hash code off len doff dlen)
  | EventEmitEvent eo el ko kl vo vl => ok (sys_emit_event eo el ko kl vo vl)
  | RandGetChainRandomness _ round => ok (kern (k_get_randomness_from_tickets round))
  | RandGetBeaconRandomness _ round => ok (kern (k_get_randomness_from_beacon round))
  | GasCharge_ off len compute => ok (sys_charge_gas off len compute)
  | GasAvailable _ => ok (gets (λ c, [Z.of_N (round_down (k_gas_available (ctx_kernel c)))]))
  | SendSend _ ro rl method params vhi vlo limit flags => ok (sys_send ro rl method params vhi vlo limit flags)
  | DebugLog off len => ok (sys_log off len)
  | DebugEnabled _ => ok (gets (λ c, [if k_debug_enabled (ctx_kernel c) then 0 else -1]))
  | DebugStoreArtifact no nl do dl => ok (sys_store_artifact no nl do dl)
  | NetworkTotalFilCircSupply _ => ok (token_out k_total_fil_circ_supply)
  | CryptoComputeUnsealedSectorCid _ typ po pl co cl => ok (sys_compute_unsealed_sector_cid typ po pl co cl)
  | CryptoVerifyPost _ io il => ok (sys_verify_post io il)
  | CryptoVerifyConsensusFault _ o1 l1 o2 l2 eo el => ok (sys_verify_consensus_fault o1 l1 o2 l2 eo el)
  | CryptoVerifyAggregateSeals _ ao al => ok (sys_verify_aggregate_seals ao al)
  | CryptoVerifyReplicaUpdate _ ro rl => ok (sys_verify_replica_update ro rl)
  | CryptoBatchVerifySeals bo bl ro => ok (sys_batch_verify_seals bo bl ro)
  end.

(** The out pointer and the widths of the returned value's fields, for the
    requests that return one; the structures are packed (shared/src/sys/out.rs). *)
Definition out_value (req : SyscallReq) : option (Z * list nat) :=
  match req with
  | VmExit _ _ _ _ | SelfSetRoot _ | SelfSelfDestruct _ | ActorCreateActor _ _ _ _
  | EventEmitEvent _ _ _ _ _ _ | GasCharge_ _ _ _ | DebugLog _ _ | DebugStoreArtifact _ _ _ _
  | CryptoBatchVerifySeals _ _ _ => None
  | VmMessageContext ret => Some (ret, [8; 8; 8; 8; 8; 16; 16; 8]%nat)
  | NetworkContext ret => Some (ret, [8; 8; 16; 8; 4]%nat)
  | IpldBlockOpen ret _ => Some (ret, [8; 4; 4]%nat)
  | IpldBlockStat ret _ => Some (ret, [8; 4]%nat)
  | SelfCurrentBalance ret | ActorBalanceOf ret _ | NetworkTotalFilCircSupply ret => Some (ret, [16]%nat)
  | CryptoVerifyConsensusFault ret _ _ _ _ _ _ => Some (ret, [8; 8; 4]%nat)
  | ActorResolveAddress ret _ _ | GasAvailable ret => Some (ret, [8]%nat)
  | ActorUpgradeActor ret _ _ | SendSend ret _ _ _ _ _ _ _ _ => Some (ret, [4; 4; 8; 4]%nat)
  | CryptoRecoverSecp ret _ _ => Some (ret, replicate 65 1%nat)
  | RandGetChainRandomness ret _ | RandGetBeaconRandomness ret _ => Some (ret, replicate 32 1%nat)
  | NetworkTipsetCid ret _ _ _ | IpldBlockCreate ret _ _ _ | IpldBlockRead ret _ _ _ _
  | IpldBlockLink ret _ _ _ _ _ | SelfRoot ret _ _ | ActorLookupDelegatedAddress ret _ _ _
  | ActorGetActorCodeCid ret _ _ _ | ActorNextActorAddress ret _ _
  | ActorGetBuiltinActorType ret _ | ActorGetCodeCidForType ret _ _ _
  | CryptoVerifySignature ret _ _ _ _ _ _ _ | CryptoVerifyBlsAggregate ret _ _ _ _ _
  | CryptoHash ret _ _ _ _ _ | DebugEnabled ret | CryptoComputeUnsealedSectorCid ret _ _ _ _ _
  | CryptoVerifyPost ret _ _ | CryptoVerifyAggregateSeals ret _ _
  | CryptoVerifyReplicaUpdate ret _ _ => Some (ret, [4]%nat)
  end.

(** The value's bytes, and the value back from them. *)
Fixpoint encode_fields (ws : list nat) (vs : list Z) : bytes :=
  match ws, vs with
  | w :: ws, v :: vs => to_le_bytes w v ++ encode_fields ws vs
  | _, _ => []
  end.
Fixpoint decode_fields (ws : list nat) (bz : bytes) : list Z :=
  match ws with
  | [] => []
  | w :: ws => from_le_bytes (take w bz) :: decode_fields ws (drop w bz)
  end.

Definition no_space (req : SyscallReq) (mem : bytes) : bool :=
  match out_value req with
  | None => false
  | Some (ret, ws) => (mem_len mem <? ret) || (mem_len mem - ret <? Z.of_nat (sum_list ws))
  end.

(** Writing the returned value to the out pointer. *)
Definition write_out (req : SyscallReq) (v : list Z) (mem : bytes) : bytes :=
  match out_value req with
  | None => mem
  | Some (ret, ws) => mem_write ret (encode_fields ws v) mem
  end.
End syscalls.

(** ** Returned values *)

Lemma to_le_bytes_length n x : length (to_le_bytes n x) = n.
Proof. revert x. induction n; intros x; simpl; [done|]. by rewrite IHn. Qed.
Lemma from_to_le_bytes n x : 0 ≤ x < 256 ^ Z.of_nat n → from_le_bytes (to_le_bytes n x) = x.
Proof.
  revert x. induction n as [|n IH]; intros x Hx; simpl; [simpl in Hx; lia|].
  rewrite Nat2Z.inj_succ, Z.pow_succ_r in Hx by lia. unfold from_le_bytes in *. simpl.
  rewrite IH; [pose proof (Z.div_mod x 256); lia|].
  split; [apply Z.div_pos; lia|apply Z.div_lt_upper_bound; lia].
Qed.

(** The values a field of [w] bytes holds. *)
Definition field_fits (w : nat) (v : Z) : Prop := 0 ≤ v < 256 ^ Z.of_nat w.

Lemma encode_fields_length ws vs :
  Forall2 field_fits ws vs → length (encode_fields ws vs) = sum_list ws.
Proof.
  induction 1 as [|w v ws vs _ _ IH]; simpl; [done|]. by rewrite length_app, to_le_bytes_length, IH.
Qed.
Lemma decode_encode_fields ws vs rest :
  Forall2 field_fits ws vs → decode_fields ws (encode_fields ws vs ++ rest) = vs.
Proof.
  intros Hf. revert rest. induction Hf as [|w v ws vs Hv _ IH]; intros rest; simpl; [done|].
  rewrite <-app_assoc. rewrite take_app_length', drop_app_length' by (by rewrite to_le_bytes_length).
  by rewrite from_to_le_bytes, IH.
Qed.

(** a returned value reaches the guest. When there is room at the out
    pointer and every field fits its width, what the guest decodes there is the
    value the host function returned, and no other byte of its memory and not
    its size change. *)
Theorem returned_value_roundtrip req ret ws vs mem
    (Hout : out_value req = Some (ret, ws)) (Hret : 0 ≤ ret)
    (Hroom : no_space req mem = false) (Hfit : Forall2 field_fits ws vs) :
  decode_fields ws (drop (Z.to_nat ret) (write_out req vs mem)) = vs ∧
  length (write_out req vs mem) = length mem ∧
  ∀ i, (i < Z.to_nat ret ∨ Z.to_nat ret + sum_list ws ≤ i)%nat →
    write_out req vs mem !! i = mem !! i.
Proof.
  pose proof (encode_fields_length ws vs Hfit) as Hlen.
  unfold write_out, no_space, mem_len in *. rewrite Hout in *. unfold mem_write.
  assert (Z.to_nat ret + sum_list ws ≤ length mem)%nat as Hin by lia.
  assert (length (take (Z.to_nat ret) mem) = Z.to_nat ret) as Ht by (rewrite length_take; lia).
  split_and!.
  - rewrite drop_app_length' by done. by apply decode_encode_fields.
  - rewrite !length_app, Ht, Hlen, length_drop. lia.
  - intros i [Hi|Hi].
    + rewrite lookup_app_l by lia. by apply lookup_take_lt.
    + rewrite lookup_app_r, lookup_app_r by lia. rewrite lookup_drop. f_equal. lia.
Qed.

Lemma returned_value_roundtrip_witness :
  decode_fields [8; 4; 4]%nat
    (drop 2 (write_out (IpldBlockOpen 2 0) [0x71; 3; 1000] (replicate 32 0))) = [0x71; 3; 1000].
Proof.
  apply (returned_value_roundtrip (IpldBlockOpen 2 0) 2 [8; 4; 4]%nat [0x71; 3; 1000] (replicate 32 0));
    [reflexivity|lia|reflexivity|repeat constructor; vm_compute; congruence].
Defined.
