(* ===== verification/Invocation.v ===== *)
(** * Invocations (fvm/src/syscalls/mod.rs, linker.rs, fvm/src/engine/mod.rs,
    fvm/src/call_manager/default.rs)

    How guest code runs: gas flows between the tracker and the guest's counter
    around every host call, a call instantiates the callee's module and turns
    the way it ends into a result, and calls nest up to the network's depth. *)

From S2P Require Import Prelude Effects Gas PriceList Address HistoryMap Types StateTree.
From S2P Require Import Access Blocks Machine Ipld Host CallManager Frame Kernel Syscalls.
From stdpp Require Import gmap strings list fin_maps.
From Stdlib Require Import ZArith Lia.
#[local] Open Scope Z_scope.

(** [InvocationData]. The guest's memory travels with the guest. *)
Record Inv `{E : Env} := mkInv {
  iv_kernel : Kernel;
  iv_last_error : option Cause;
  iv_gas_global : Z;
  iv_last_gas_available : Gas;
  iv_last_memory_bytes : Z;
}.

Section invocation.
Context `{H : Host} (call : CallFn).

Definition iv_set_kernel k (i : Inv) : Inv :=
  mkInv _ k (iv_last_error i) (iv_gas_global i) (iv_last_gas_available i) (iv_last_memory_bytes i).
Definition iv_set_error e (i : Inv) : Inv :=
  mkInv _ (iv_kernel i) e (iv_gas_global i) (iv_last_gas_available i) (iv_last_memory_bytes i).
Definition iv_set_global g (i : Inv) : Inv :=
  mkInv _ (iv_kernel i) (iv_last_error i) g (iv_last_gas_available i) (iv_last_memory_bytes i).

Abbreviation MA := (ME Abort Inv).

Definition iv_charge (name : string) (g : Gas) : MA unit :=
  map_err abort_from_error_as_fatal (zoom iv_kernel iv_set_kernel (k_charge_gas name g)).

Definition wasm_prices (i : Inv) : WasmGasPrices := wasm_rules (cm_price_list (k_cm (iv_kernel i))).

(** Refresh the guest's gas counter and what the next charge is measured from. *)
Definition update_gas_available : MA unit :=
  avail ← gets (λ i, k_gas_available (iv_kernel i));
  if (I64_MAX <? avail)%N then throw (AFatal "available milligas exceeded i64::MAX") else
  modify (λ i, mkInv _ (iv_kernel i) (iv_last_error i) (Z.of_N avail) avail (k_memory_used (iv_kernel i))).

(** Charge what the guest consumed since the last refresh; its counter is
    negative when it ran out. *)
Definition charge_for_exec : MA unit :=
  i ← gets (λ i, i);
  let global := iv_gas_global i in
  let abs := Z.to_N (Z.abs global) in
  let exec_gas_charge :=
    if global <? 0 then gas_add (iv_last_gas_available i) abs
    else gas_sub (iv_last_gas_available i) abs in
  let memory_delta := sat_sub (k_memory_used (iv_kernel i)) (iv_last_memory_bytes i) in
  let memory_gas_charge := grow_memory_gas (wasm_prices i) (Z.to_N memory_delta) in
  let '(memory_gas_charge, exec_gas_charge) :=
    if (memory_gas_charge <=? exec_gas_charge)%N
    then (memory_gas_charge, gas_sub exec_gas_charge memory_gas_charge)
    else (exec_gas_charge, 0%N) in
  _ ← iv_charge "wasm_exec" exec_gas_charge;
  if (memory_gas_charge =? 0)%N then mret tt else iv_charge "wasm_memory_grow" memory_gas_charge.

Definition charge_syscall_gas : MA unit :=
  p ← gets (λ i, host_call_cost (wasm_prices i));
  iv_charge "OnSyscall" p.

Definition WASM_PAGE : Z := 65536.

Definition charge_for_init (m : Module_) : MA unit :=
  match mod_min_memory_pages m with
  | None => throw (AFatal "actor has no memory export")
  | Some pages =>
      let min_memory_bytes := pages * WASM_PAGE in
      p ← gets wasm_prices;
      _ ← modify (λ i, mkInv _ (iv_kernel i) (iv_last_error i) (iv_gas_global i)
                         (iv_last_gas_available i) (wrap64 (iv_last_memory_bytes i + min_memory_bytes)));
      _ ← (match mod_min_table m with
           | Some n => iv_charge "wasm_table_init" (init_table_gas p (Z.to_N n))
           | None => mret tt
           end);
      iv_charge "wasm_memory_init" (init_memory_gas p (Z.to_N min_memory_bytes))
  end.

(** [ErrorNumber as u32]. *)
Definition errno (n : ErrorNumber) : Z :=
  match n with
  | IllegalArgument => 1 | IllegalOperation => 2 | LimitExceeded => 3 | AssertionFailed => 4
  | InsufficientFunds => 5 | NotFound => 6 | InvalidHandle => 7 | IllegalCid => 8
  | IllegalCodec => 9 | Serialization => 10 | Forbidden => 11 | BufferTooSmall => 12 | ReadOnly => 13
  end.

(** [impl_syscall!]: what the guest sees of a host call is an error number and
    its memory, with the value at the out pointer. When there is no room for the value the wrapper returns
    early, without refreshing the counter. *)
Definition link_syscall (mem : bytes) (req : SyscallReq) : MA (Z * bytes) :=
  _ ← charge_for_exec;
  _ ← charge_syscall_gas;
  if no_space req mem
  then _ ← modify (iv_set_error (Some (CauseSyscall "{module}" "{name}"
             (mkSyscallError "no space for return value" IllegalArgument))));
       mret (errno IllegalArgument, mem)
  else
    k ← gets iv_kernel;
    let '(out, ctx) := dispatch call req (mkCtx _ k mem) in
    _ ← modify (iv_set_kernel (ctx_kernel ctx));
    match out with
    | Ok v =>
        _ ← modify (iv_set_error None);
        _ ← update_gas_available;
        mret (0, write_out req v (ctx_mem ctx))
    | Err (CError e) =>
        _ ← modify (iv_set_error (Some (CauseSyscall "{module}" "{name}" e)));
        _ ← update_gas_available;
        mret (errno (se_number e), ctx_mem ctx)
    | Err (CAbort a) =>
        _ ← update_gas_available;
        throw a
    end.

(** [ResourceLimiter] on the call manager's limiter. *)
Definition limited (grow : MemoryLimiter → bool * MemoryLimiter) (desired : Z) (maximum : option Z)
    : MA bool :=
  if (match maximum with Some m => m <? desired | None => false end) then mret false else
  l ← gets (λ i, cm_limits (k_cm (iv_kernel i)));
  _ ← modify (λ i, iv_set_kernel (k_set_cm (cm_set_limits (grow (cm_limits (k_cm (iv_kernel i)))).2
                     (k_cm (iv_kernel i))) (iv_kernel i)) i);
  mret (grow l).1.

Definition trap_abort (t : Trap) : Abort :=
  match t with
  | TrapExit msg => AExit SYS_ILLEGAL_INSTRUCTION msg NO_DATA_BLOCK_ID
  | TrapUnexpected _ => AFatal "unexpected wasmtime trap: {}"
  end.

(** Run guest code to its end: the value it returned, or how it was stopped. An
    abort raised inside a host call unwinds the guest. *)
Fixpoint run_guest (g : Guest) : MA Z :=
  match g with
  | GReturn gas ret => _ ← modify (iv_set_global gas); mret ret
  | GTrap gas t => _ ← modify (iv_set_global gas); throw (trap_abort t)
  | GGrowMemory cur des mx k =>
      ok ← limited (grow_instance_memory cur des) des mx;
      run_guest (k ok)
  | GGrowTable cur des mx k =>
      ok ← limited (grow_instance_table cur des) des mx;
      run_guest (k ok)
  | GSyscall gas mem req k =>
      _ ← modify (iv_set_global gas);
      '(err, mem') ← link_syscall mem req;
      g ← gets iv_gas_global;
      run_guest (k err mem' g)
  end.

Definition redirect (l : list (Cid * Cid)) (k : Cid) : Cid :=
  default k (list_to_map (M := gmap Cid Cid) (reverse l) !! k).

(** [Engine::instantiate]. Errors of the initialisation itself are exits. *)
Definition instantiate (code : Cid) : MA (option Module_) :=
  c ← gets (λ i, k_cm (iv_kernel i));
  match host_module (st_store (cm_tree c)) (redirect (actor_redirect (cm_network c)) code) with
  | Err msg => throw (AFatal msg)
  | Ok None => mret None
  | Ok (Some m) =>
      _ ← charge_for_init m;
      _ ← (if mod_links m then mret tt else throw (AFatal "failed to link actor module"));
      _ ← update_gas_available;
      g ← gets iv_gas_global;
      res ← attempt (run_guest (mod_init m g));
      _ ← charge_for_exec;
      match res with
      | Ok _ => mret (Some m)
      | Err _ => throw (AExit SYS_ILLEGAL_INSTRUCTION "failed to instantiate module: {e}" 0)
      end
  end.

(** The closure of [call_actor_resolved] between [new_store] and [into_data]. *)
Definition invoke (code : Cid) (e : Entrypoint) (params_id : BlockId) (extra : list Z) : MA BlockId :=
  o ← instantiate code;
  m ← lift (ok_or o (AFatal "actor not found"));
  match mod_func m (entry_func_name e) with
  | None => throw (AExit SYS_INVALID_RECEIVER "cannot upgrade to {code}" 0)
  | Some f =>
      _ ← update_gas_available;
      g ← gets iv_gas_global;
      res ← attempt (run_guest (f (params_id :: extra) g));
      _ ← charge_for_exec;
      lift res
  end.
End invocation.

(** ** Calls *)

Section calls.
Context `{H : Host}.

(** [Entrypoint::into_params]. *)
Definition into_params (e : Entrypoint) : M BlockRegistry (list Z) :=
  match e with
  | ImplicitConstructor | Invoke _ => mret []
  | Upgrade old =>
      ui ← lift (or_fatal (host_upgrade_info old));
      id ← put_reachable (mkBlock CBOR ui []);
      mret [id]
  end.

(** [Engine::new_store]. *)
Definition new_store (k : Kernel) : Inv := mkInv _ k None 0 0 (k_memory_used k).

(** The return handle resolved into a block. *)
Definition return_block (r : result Abort BlockId) (br : BlockRegistry) : result Abort (option Block) :=
  match r with
  | Err a => Err a
  | Ok ret_id =>
      if ret_id =? NO_DATA_BLOCK_ID then Ok None
      else match br_get ret_id br with
           | Ok b => Ok (Some b)
           | Err _ => Err (AExit SYS_MISSING_RETURN "returned block does not exist" NO_DATA_BLOCK_ID)
           end
  end.

(** How an abort is reported: exit code and message of the backtrace frame, and
    the result. *)
Definition abort_result (a : Abort) (br : BlockRegistry)
    : ExitCode * string * Result InvocationResult :=
  match a with
  | AExit code message blk_id =>
      if blk_id =? NO_DATA_BLOCK_ID then (code, message, Ok (mkInvocationResult code None))
      else match br_get blk_id br with
           | Err _ => (SYS_MISSING_RETURN, "error getting exit data block"%string,
                       Err (Fatal "invalid block handle {id}"))
           | Ok blk => (code, message, Ok (mkInvocationResult code (Some blk)))
           end
  | AOutOfGas => (SYS_OUT_OF_GAS, "out of gas"%string, Err OutOfGas)
  | AFatal msg => (SYS_ASSERTION_FAILED, "fatal error"%string, Err (Fatal msg))
  end.

(** The backtrace entry of a failed explicit message. *)
Definition record_failure (e : Entrypoint) (to : ActorID) (code : ExitCode) (message : string)
    (last_error : option Cause) : M CM unit :=
  match e with
  | Invoke method =>
      if is_success code then mret tt
      else modify (λ c, cm_set_backtrace (bt_push_frame (mkFrame to method code message)
             (match last_error with Some err => bt_begin err (cm_backtrace c) | None => cm_backtrace c end)) c)
  | _ => mret tt
  end.

Definition blk_counts (o : option Block) : N * N :=
  match o with
  | Some b => (Z.to_N (blk_size b), N.of_nat (length (blk_links b)))
  | None => (0, 0)%N
  end.

(** From the callee's kernel to its result: [map_mut(|cm| ...)]. [call] is how
    the callee calls on. *)
Definition run_callee (call : CallFn) (br : BlockRegistry) (code : Cid) (from to : ActorID)
    (e : Entrypoint) (params_id : BlockId) (extra : list Z) (value : TokenAmount) (read_only : bool)
    : M CM InvocationResult :=
  c ← gets (λ c, c);
  let kernel := mkKernel _ from to (entry_method_num e) value read_only c br in
  let '(result, i) := invoke call code e params_id extra (new_store kernel) in
  _ ← modify (λ _, k_cm (iv_kernel i));
  let br := k_blocks (iv_kernel i) in
  ret ← (match return_block result br with
         | Ok v => mret (Ok (mkInvocationResult EXIT_OK v))
         | Err a =>
             let '(code, message, res) := abort_result a br in
             _ ← record_failure e to code message (iv_last_error i);
             mret res
         end);
  match ret with
  | Ok (mkInvocationResult _ (Some blk)) =>
      depth ← gets cm_depth;
      _ ← charge_gas (λ pl, on_method_return pl depth (Z.to_N (blk_size blk))
                              (N.of_nat (length (blk_links blk))));
      lift ret
  | _ => lift ret
  end.

Definition is_invoke (e : Entrypoint) : bool := match e with Invoke _ => true | _ => false end.

Definition call_actor_resolved (call : CallFn) (from to : ActorID) (e : Entrypoint)
    (params : option Block) (value : TokenAmount) (read_only : bool) : M CM InvocationResult :=
  o ← cm_get_actor to;
  state ← lift (ok_or o (syscall_error NotFound "actor does not exist: {}"));
  tracing ← gets cm_tracing;
  _ ← (if tracing && is_invoke e then cm_trace (EInvokeActor to state) else mret tt);
  _ ← (if value =? 0 then mret tt else
       _ ← charge_gas on_value_transfer;
       cm_transfer from to value);
  if entry_invokes e METHOD_SEND then mret ir_default else
  let '(size, links) := blk_counts params in
  _ ← charge_gas (λ pl, on_method_invocation pl size links);
  let '(r, br) := (match params with
                   | Some blk => put_reachable blk
                   | None => mret NO_DATA_BLOCK_ID
                   end : M BlockRegistry BlockId) registry_new in
  params_id ← lift r;
  let '(r, br) := into_params e br in
  extra ← lift r;
  _ ← modify (λ c, cm_set_invocations (wrap64 (cm_invocation_count c + 1)) c);
  run_callee call br (as_code state) from to e params_id extra value read_only.

Definition create_account_actor_from_send (call : CallFn) (addr : Address) : M CM ActorID :=
  if is_bls_zero_address addr
  then throw (syscall_error IllegalArgument "cannot create the bls zero address actor") else
  code ← gets (λ c, account_code (cm_builtin c));
  id ← create_actor_from_send addr (new_empty code None);
  let params := cbor_bytes (to_bytes addr) in
  _ ← call_actor_resolved call SYSTEM_ACTOR_ID id ImplicitConstructor
        (Some (mkBlock CBOR params [])) 0 false;
  mret id.

Definition call_actor_unchecked (call : CallFn) (from : ActorID) (to : Address) (e : Entrypoint)
    (params : option Block) (value : TokenAmount) (read_only : bool) : M CM InvocationResult :=
  o ← cm_resolve_address to;
  to ← (match o with
    | Some id => mret id
    | None =>
        match to with
        | BLSAddr _ | Secp256k1Addr _ =>
            if read_only
            then throw (syscall_error ReadOnly "cannot auto-create account {to} in read-only calls")
            else create_account_actor_from_send call to
        | Delegated da =>
            if da_namespace da =? EAM_ACTOR_ID
            then if read_only
                 then throw (syscall_error ReadOnly "cannot auto-create account {to} in read-only calls")
                 else create_placeholder_actor_from_send to
            else throw (syscall_error NotFound "actor does not exist or cannot be created: {}")
        | _ => throw (syscall_error NotFound "actor does not exist or cannot be created: {}")
        end
    end);
  _ ← modify (λ c, cm_set_stack (cm_call_stack c ++ [(to, entry_func_name e)]) c);
  res ← attempt (call_actor_resolved call from to e params value read_only);
  _ ← modify (λ c, cm_set_stack (removelast (cm_call_stack c)) c);
  lift res.

Definition trace_call (from : ActorID) (to : Address) (e : Entrypoint) (params : option Block)
    (value : TokenAmount) (limit : option Gas) (read_only : bool) : M CM unit :=
  tracing ← gets cm_tracing;
  match tracing : bool, e with
  | true, Invoke method =>
      avail ← gets (λ c, gas_available (cm_gas c));
      cm_trace (ECall from to method (to_ipld <$> params) value
        (N.min (round_up (default U64_MAX limit)) (round_up avail)) read_only)
  | _, _ => mret tt
  end.

Definition trace_return (e : Entrypoint) (r : Result InvocationResult) : M CM unit :=
  tracing ← gets cm_tracing;
  if tracing && is_invoke e
  then cm_trace (match r with
    | Ok v => ECallReturn (ir_exit_code v) (to_ipld <$> ir_value v)
    | Err OutOfGas => ECallReturn SYS_OUT_OF_GAS None
    | Err (Fatal _) => ECallError (mkSyscallError "fatal" Forbidden)
    | Err (Syscall s) => ECallError s
    end)
  else mret tt.

(** One level of [call_actor]; [call] is the level below. *)
Definition call_actor_step (call : CallFn) : CallFn := λ from to e params value limit read_only,
  _ ← trace_call from to e params value limit read_only;
  _ ← (match limit with Some l => on_gas (push_limit l) | None => mret tt end);
  result ← attempt (with_stack_frame (call_actor_unchecked call from to e params value read_only));
  _ ← (match limit with Some _ => on_gas pop_limit | None => mret tt end);
  avail ← gets (λ c, gas_available (cm_gas c));
  let result := match result with
    | Err OutOfGas => if (avail =? 0)%N then result else Ok (mkInvocationResult SYS_OUT_OF_GAS None)
    | _ => result
    end in
  _ ← trace_return e result;
  lift result.

(** The recursion is bounded by the call depth ([call_actor_fuel]); the bottom
    is never reached. *)
Fixpoint call_actor (fuel : nat) : CallFn :=
  match fuel with
  | O => λ _ _ _ _ _ _ _, throw (Fatal "call fuel exhausted")
  | S fuel => call_actor_step (call_actor fuel)
  end.
End calls.
