(* ===== verification/Sdk.v ===== *)
(** * The actor SDK (sdk/src)

    What an actor written with the SDK does at the host boundary. The code runs
    inside the guest, so that an SDK function is a piece of a [Guest]: a function
    of what happens next ([Sdk], a continuation monad over the guest's memory and
    gas counter). Arguments are laid out in memory, host calls are made with
    offsets, and results are read back, as the bindings generated by
    [fvm_syscalls!] do.

    The compiler, the allocator and the instructions between two host calls are
    the interface [Runtime]. Buffers are taken from the free end of the memory and
    given back when the function returns. *)

From S2P Require Import Prelude Effects Gas PriceList Address Decimal AddressText Types Sector Signature.
From S2P Require Import Blocks Machine Ipld Host Kernel Syscalls Invocation.
From stdpp Require Import gmap strings list fin_maps.
From Stdlib Require Import ZArith Lia.
#[local] Open Scope Z_scope.

Definition MAX_CID_LEN : Z := 100.
Definition MAX_ADDRESS_LEN : Z := 65.
Definition USR_ASSERTION_FAILED : ExitCode := 24.

(** What the guest keeps: its memory, free from [gs_top] on, its gas counter,
    and the cells of [lazy_static!]. *)
Record Gs := mkGs {
  gs_mem : bytes; gs_top : Z; gs_gas : Z;
  gs_message : option (list Z); gs_network : option (list Z); gs_debug : option bool;
}.

(** [rt_exec]: the counter when the next host call is reached. [rt_capacity]: the
    capacity [Vec::with_capacity] gives. [rt_panic_info]: the text of a panic.
    [rt_initialized]: the actor called [initialize]. *)
Class Runtime := {
  rt_exec : Z → Z;
  rt_capacity : Z → Z;
  rt_panic_info : string → bytes;
  rt_initialized : bool;
}.

Definition Sdk (A : Type) : Type := (A → Gs → Guest) → Gs → Guest.
#[export] Instance sdk_ret : MRet Sdk := λ A a k g, k a g.
#[export] Instance sdk_bind : MBind Sdk := λ A B f m k g, m (λ a g', f a k g') g.

(** [SyscallResult], and the [?] operator on it. *)
Abbreviation SyscallResult A := (result ErrorNumber A).
Definition and_then {A B} (m : Sdk (SyscallResult A)) (f : A → Sdk (SyscallResult B)) : Sdk (SyscallResult B) :=
  r ← m; match r with Ok a => f a | Err e => mret (Err e) end.
Notation "x ?← m ; k" := (and_then m (λ x, k)) (at level 20, m at level 100, k at level 200, only parsing).

Definition set_mem (m : bytes) (g : Gs) : Gs := mkGs m (gs_top g) (gs_gas g) (gs_message g) (gs_network g) (gs_debug g).
Definition set_top (t : Z) (g : Gs) : Gs := mkGs (gs_mem g) t (gs_gas g) (gs_message g) (gs_network g) (gs_debug g).
Definition set_message (c : list Z) (g : Gs) : Gs := mkGs (gs_mem g) (gs_top g) (gs_gas g) (Some c) (gs_network g) (gs_debug g).
Definition set_network (c : list Z) (g : Gs) : Gs := mkGs (gs_mem g) (gs_top g) (gs_gas g) (gs_message g) (Some c) (gs_debug g).
Definition set_debug (b : bool) (g : Gs) : Gs := mkGs (gs_mem g) (gs_top g) (gs_gas g) (gs_message g) (gs_network g) (Some b).
Definition resume (mem : bytes) (gas : Z) (g : Gs) : Gs :=
  mkGs mem (gs_top g) gas (gs_message g) (gs_network g) (gs_debug g).

Definition load_at (mem : bytes) (off len : Z) : bytes := take (Z.to_nat len) (drop (Z.to_nat off) mem).
Definition u32_len (bz : bytes) : Z := wrap32 (Z.of_nat (length bz)).

(** [ErrorNumber::from_u32]. *)
Definition errno_from (code : Z) : option ErrorNumber :=
  List.find (λ e, errno e =? code)
    [IllegalArgument; IllegalOperation; LimitExceeded; AssertionFailed; InsufficientFunds; NotFound; InvalidHandle;
     IllegalCid; IllegalCodec; Serialization; Forbidden; BufferTooSmall; ReadOnly].

Record IpldBlock := mkIpldBlock { ib_codec : Z; ib_data : bytes }.
Record Response := mkResponse { resp_exit_code : ExitCode; resp_return_data : option IpldBlock }.
Inductive StateReadError := StateRead.
Inductive StateUpdateError := ActorDeleted | UpdateReadOnly.
Inductive ActorDeleteError := DeleteReadOnly | UnspentFunds.
Inductive EpochBoundsError := EpochInvalid | ExceedsLookback.

Section runtime.
Context `{RT : Runtime}.

(** An [unreachable] instruction, which ends every Rust abort. *)
Definition trap {A} : Sdk A := λ _ g, GTrap (rt_exec (gs_gas g)) (TrapExit "wasm `unreachable` instruction executed").

(** Space of [n] bytes; without it the allocator aborts. *)
Definition alloc (n : Z) : Sdk Z := λ k g,
  if mem_len (gs_mem g) <? gs_top g + n then trap k g else k (gs_top g) (set_top (gs_top g + n) g).
Definition store_at (off : Z) (data : bytes) : Sdk unit := λ k g, k tt (set_mem (mem_write off data (gs_mem g)) g).
Definition load (off len : Z) : Sdk bytes := λ k g, k (load_at (gs_mem g) off len) g.
(** Buffers of a function are given back at its end. *)
Definition scope {A} (m : Sdk A) : Sdk A := λ k g, m (λ a g', k a (set_top (gs_top g) g')) g.
Definition slice_in (data : bytes) : Sdk Z := off ← alloc (Z.of_nat (length data)); _ ← store_at off data; mret off.

Definition syscall (req : SyscallReq) : Sdk Z := λ k g,
  GSyscall (rt_exec (gs_gas g)) (gs_mem g) req (λ code mem gas, k code (resume mem gas g)).

(** ** Exits and panics (vm.rs) *)

(** The [-> !] case of [fvm_syscalls!]. *)
Definition exit_syscall {A} (code blk off len : Z) : Sdk A := _ ← syscall (VmExit code blk off len); trap.
Definition exit_with {A} (code blk : Z) (message : option bytes) : Sdk A :=
  match message with
  | Some m => off ← slice_in m; exit_syscall code blk off (u32_len m)
  | None => exit_syscall code blk 0 0
  end.
(** [vm::abort]: [exit] without data. *)
Definition abort {A} (code : Z) (message : option bytes) : Sdk A :=
  if code =? 0 then exit_with USR_ASSERTION_FAILED NO_DATA_BLOCK_ID message else exit_with code NO_DATA_BLOCK_ID message.
(** A panic, with the handler of [set_panic_handler] or without. *)
Definition panic {A} (msg : string) : Sdk A :=
  if rt_initialized then abort USR_ASSERTION_FAILED (Some (rt_panic_info msg)) else trap.
Definition expect {A} (msg : string) (r : SyscallResult A) : Sdk A :=
  match r with Ok a => mret a | Err _ => panic msg end.
Definition assert (b : bool) (msg : string) : Sdk unit := if b then mret tt else panic msg.

(** ** The bindings (sys/mod.rs) *)

Definition call_unit (req : SyscallReq) : Sdk (SyscallResult unit) :=
  code ← syscall req;
  if code =? 0 then mret (Ok tt)
  else match errno_from code with Some e => mret (Err e) | None => panic "syscall returned unrecognized exit code" end.

(** The value is read from the out pointer. *)
Definition call_value (ws : list nat) (req : Z → SyscallReq) : Sdk (SyscallResult (list Z)) :=
  scope (
    ret ← alloc (Z.of_nat (sum_list ws));
    code ← syscall (req ret);
    if code =? 0 then bz ← load ret (Z.of_nat (sum_list ws)); mret (Ok (decode_fields ws bz))
    else match errno_from code with Some e => mret (Err e) | None => panic "syscall returned unrecognized exit code" end).
Definition field (n : nat) (vs : list Z) : Z := nth n vs 0.
(** A call that returns one number of [w] bytes. *)
Definition call_num (w : nat) (req : Z → SyscallReq) : Sdk (SyscallResult Z) :=
  v ?← call_value [w] req; mret (Ok (field 0 v)).
End runtime.

Section sdk.
Context `{H : Host} `{RT : Runtime}.

(** [[0u8; n]]. *)
Definition zeroed (n : Z) : Sdk Z := off ← alloc n; _ ← store_at off (replicate (Z.to_nat n) 0); mret off.

(** A CID written to a fresh buffer of [MAX_CID_LEN] bytes. *)
Definition cid_in (k : Cid) : Sdk Z :=
  off ← zeroed MAX_CID_LEN;
  if MAX_CID_LEN <? Z.of_nat (length (host_cid_bytes k)) then panic "CID encoding should not fail"
  else _ ← store_at off (host_cid_bytes k); mret off.
(** A call that writes a CID to a buffer of [MAX_CID_LEN] bytes. *)
Definition cid_out (req : Z → Z → SyscallReq) (on_err : ErrorNumber → Sdk (SyscallResult Cid)) (msg : string)
    : Sdk (SyscallResult Cid) :=
  off ← zeroed MAX_CID_LEN;
  r ← call_num 4 (req off);
  match r with
  | Err e => on_err e
  | Ok len =>
      bz ← load off len;
      match cid_read_bytes bz with Ok (k, _) => mret (Ok k) | Err _ => panic msg end
  end.
Definition pass {A} (e : ErrorNumber) : Sdk (SyscallResult A) := mret (Err e).

(** ** ipld.rs *)

Definition put_block (codec : Z) (data : bytes) : Sdk (SyscallResult Z) := scope (
  off ← slice_in data;
  call_num 4 (λ ret, IpldBlockCreate ret codec off (u32_len data))).

(** [Multihash::wrap] holds at most 64 bytes. *)
Definition put (mh_code mh_size codec : Z) (data : bytes) : Sdk (SyscallResult Cid) :=
  if mh_code =? IDENTITY_HASH then
    if negb (mh_size =? Z.of_nat (length data)) then mret (Err IllegalCid)
    else if 64 <? Z.of_nat (length data) then mret (Err IllegalCid)
    else mret (Ok (mkCid codec mh_code data))
  else scope (
    off ← slice_in data;
    id ?← call_num 4 (λ ret, IpldBlockCreate ret codec off (u32_len data));
    cid_out (λ buf ret, IpldBlockLink ret id mh_code mh_size buf MAX_CID_LEN) pass "runtime returned an invalid CID").

Definition get (cid : Cid) : Sdk (SyscallResult bytes) :=
  if cid_hash_code cid =? IDENTITY_HASH then mret (Ok (cid_digest cid))
  else scope (
    off ← cid_in cid;
    o ?← call_value [8; 4; 4]%nat (λ ret, IpldBlockOpen ret off);
    let id := field 1 o in
    let size := field 2 o in
    block ← alloc (rt_capacity size);
    remaining ?← call_num 4 (λ ret, IpldBlockRead ret id 0 block size);
    _ ← assert (wrap_i32 remaining =? 0) "expected to read the block exactly";
    data ← load block size;
    mret (Ok data)).

(** The vector is moved when it has to grow. *)
Definition get_block (id : Z) (size_hint : option Z) : Sdk (SyscallResult bytes) :=
  if id =? NO_DATA_BLOCK_ID then mret (Ok []) else scope (
  let cap := rt_capacity (default 1024 size_hint) in
  buf ← alloc cap;
  remaining ?← call_num 4 (λ ret, IpldBlockRead ret id 0 buf (wrap32 cap));
  let remaining := wrap_i32 remaining in
  if 0 <? remaining then
    let cap' := rt_capacity (cap + remaining) in
    buf' ← alloc cap';
    old ← load buf cap;
    _ ← store_at buf' old;
    remaining ?← call_num 4 (λ ret, IpldBlockRead ret id (wrap32 cap) (buf' + cap) (wrap32 (cap' - cap)));
    let remaining := wrap_i32 remaining in
    _ ← assert (remaining <=? 0) "should have read whole block";
    let size := cap' + remaining in
    _ ← assert (0 <=? size) "size can't be negative";
    _ ← assert (size <=? cap') "size shouldn't exceed capacity";
    data ← load buf' size;
    mret (Ok data)
  else
    let size := cap + remaining in
    _ ← assert (0 <=? size) "size can't be negative";
    _ ← assert (size <=? cap) "size shouldn't exceed capacity";
    data ← load buf size;
    mret (Ok data)).

(** ** vm.rs, message.rs *)

Definition exit {A} (code : Z) (data : option IpldBlock) (message : option bytes) : Sdk A :=
  match data with
  | None => exit_with code NO_DATA_BLOCK_ID message
  | Some d =>
      off ← slice_in (ib_data d);
      r ← call_num 4 (λ ret, IpldBlockCreate ret (ib_codec d) off (u32_len (ib_data d)));
      id ← expect "called `Result::unwrap()` on an `Err` value" r;
      exit_with code id message
  end.

(** [MESSAGE_CONTEXT]: the host is asked once. *)
Definition message_context : Sdk (list Z) := λ k g,
  match gs_message g with
  | Some c => k c g
  | None => (r ← call_value [8; 8; 8; 8; 8; 16; 16; 8]%nat VmMessageContext;
             expect "failed to lookup message context" r) (λ c g', k c (set_message c g')) g
  end.
Definition origin : Sdk ActorID := c ← message_context; mret (field 0 c).
Definition nonce : Sdk Z := c ← message_context; mret (field 1 c).
Definition caller : Sdk ActorID := c ← message_context; mret (field 2 c).
Definition receiver : Sdk ActorID := c ← message_context; mret (field 3 c).
Definition method_number : Sdk MethodNum := c ← message_context; mret (field 4 c).
Definition value_received : Sdk TokenAmount := c ← message_context; mret (field 5 c).
Definition gas_premium : Sdk TokenAmount := c ← message_context; mret (field 6 c).
Definition read_only : Sdk bool := c ← message_context; mret (Z.testbit (field 7 c) 0).

Definition params_raw (id : Z) : Sdk (SyscallResult (option IpldBlock)) :=
  if id =? NO_DATA_BLOCK_ID then mret (Ok None)
  else
    s ?← call_value [8; 4]%nat (λ ret, IpldBlockStat ret id);
    data ?← get_block id (Some (field 1 s));
    mret (Ok (Some (mkIpldBlock (field 0 s) data))).

(** ** sself.rs *)

Definition unexpected {A} (e : ErrorNumber) : Sdk A := panic "unexpected error from syscall".

Definition root : Sdk (result StateReadError Cid) := scope (
  r ← cid_out (λ buf ret, SelfRoot ret buf MAX_CID_LEN)
        (λ e, match e with IllegalOperation => mret (Err e) | e => unexpected e end) "runtime returned an invalid CID";
  mret (match r with Ok k => Ok k | Err _ => Err StateRead end)).

Definition set_root (cid : Cid) : Sdk (result StateUpdateError unit) := scope (
  off ← cid_in cid;
  r ← call_unit (SelfSetRoot off);
  match r with
  | Ok _ => mret (Ok tt)
  | Err IllegalOperation => mret (Err ActorDeleted)
  | Err ReadOnly => mret (Err UpdateReadOnly)
  | Err e => unexpected e
  end).

Definition current_balance : Sdk TokenAmount :=
  r ← call_num 16 SelfCurrentBalance; expect "failed to get current balance" r.

Definition self_destruct (burn_funds : bool) : Sdk (result ActorDeleteError unit) :=
  r ← call_unit (SelfSelfDestruct (if burn_funds then 1 else 0));
  match r with
  | Ok _ => mret (Ok tt)
  | Err IllegalOperation => mret (Err UnspentFunds)
  | Err ReadOnly => mret (Err DeleteReadOnly)
  | Err e => unexpected e
  end.

(** ** send.rs, lib.rs *)

(** The [Send] structure: exit code, return id, codec, size. *)
Definition build_response (send : list Z) : Sdk (SyscallResult Response) :=
  let return_id := field 1 send in
  if return_id =? NO_DATA_BLOCK_ID then mret (Ok (mkResponse (field 0 send) None))
  else scope (
    let size := field 3 send in
    buf ← zeroed size;
    unread ?← call_num 4 (λ ret, IpldBlockRead ret return_id 0 buf size);
    _ ← assert (wrap_i32 unread =? 0) "assertion `left == right` failed";
    data ← load buf size;
    mret (Ok (mkResponse (field 0 send) (Some (mkIpldBlock (field 2 send) data))))).

Definition params_in (params : option IpldBlock) : Sdk (SyscallResult Z) :=
  match params with Some p => put_block (ib_codec p) (ib_data p) | None => mret (Ok NO_DATA_BLOCK_ID) end.

Definition send (to : Address) (method : MethodNum) (params : option IpldBlock) (value : TokenAmount)
    (gas_limit : option Z) (flags : Z) : Sdk (SyscallResult Response) :=
  match token_to_u128 value with
  | Err _ => mret (Err InsufficientFunds)
  | Ok v => scope (
      let recipient := to_bytes to in
      off ← slice_in recipient;
      params_id ?← params_in params;
      s ?← call_value [4; 4; 8; 4]%nat (λ ret, SendSend ret off (u32_len recipient) method params_id
             (Z.shiftr v 64) (wrap64 v) (default u64_max gas_limit) flags);
      build_response s)
  end.

(** ** actor.rs *)

Definition resolve_address (addr : Address) : Sdk (option ActorID) :=
  match addr with
  | ID id => mret (Some id)
  | _ => scope (
      let bz := to_bytes addr in
      off ← slice_in bz;
      r ← call_num 8 (λ ret, ActorResolveAddress ret off (u32_len bz));
      match r with
      | Ok id => mret (Some id)
      | Err NotFound => mret None
      | Err e => panic "unexpected address resolution failure: {}"
      end)
  end.

Definition lookup_delegated_address (id : ActorID) : Sdk (option Address) := scope (
  out ← zeroed MAX_ADDRESS_LEN;
  r ← call_num 4 (λ ret, ActorLookupDelegatedAddress ret id out MAX_ADDRESS_LEN);
  match r with
  | Ok len =>
      if len =? 0 then mret None
      else bz ← load out len; mret (match from_bytes bz with Ok a => Some a | Err _ => None end)
  | Err NotFound => mret None
  | Err e => panic "unexpected address resolution failure: {}"
  end).

Definition get_actor_code_cid (addr : Address) : Sdk (option Cid) :=
  o ← resolve_address addr;
  match o with
  | None => mret None
  | Some id => scope (
      r ← cid_out (λ buf ret, ActorGetActorCodeCid ret id buf MAX_CID_LEN)
            (λ e, match e with NotFound => mret (Err e) | _ => panic "unexpected code cid resolution failure: {}" end)
            "invalid cid returned";
      mret (match r with Ok k => Some k | Err _ => None end))
  end.

Definition next_actor_address : Sdk Address := scope (
  buf ← zeroed MAX_ADDRESS_LEN;
  r ← call_num 4 (λ ret, ActorNextActorAddress ret buf MAX_ADDRESS_LEN);
  len ← expect "failed to create a new actor address" r;
  bz ← load buf len;
  match from_bytes bz with Ok a => mret a | Err _ => panic "syscall returned invalid address" end).

Definition create_actor (actor_id : ActorID) (code_cid : Cid) (delegated_address : option Address)
    : Sdk (SyscallResult unit) := scope (
  cid ← slice_in (host_cid_bytes code_cid);
  match delegated_address with
  | Some a => off ← slice_in (to_bytes a); call_unit (ActorCreateActor actor_id cid off (u32_len (to_bytes a)))
  | None => call_unit (ActorCreateActor actor_id cid 0 0)
  end).

Definition upgrade_actor (new_code_cid : Cid) (params : option IpldBlock) : Sdk (SyscallResult Response) := scope (
  cid ← slice_in (host_cid_bytes new_code_cid);
  params_id ?← params_in params;
  s ?← call_value [4; 4; 8; 4]%nat (λ ret, ActorUpgradeActor ret cid params_id);
  build_response s).

Definition get_builtin_actor_type (code_cid : Cid) : Sdk (option Z) := scope (
  cid ← slice_in (host_cid_bytes code_cid);
  r ← call_num 4 (λ ret, ActorGetBuiltinActorType ret cid);
  t ← expect "failed to determine if CID belongs to builtin actor" r;
  mret (if wrap_i32 t =? 0 then None else Some (wrap_i32 t))).

Definition get_code_cid_for_type (typ : Z) : Sdk Cid := scope (
  r ← cid_out (λ buf ret, ActorGetCodeCidForType ret typ buf MAX_CID_LEN) pass "invalid cid returned";
  expect "failed to get CodeCID for type" r).

Definition balance_of (id : ActorID) : Sdk (option TokenAmount) :=
  r ← call_num 16 (λ ret, ActorBalanceOf ret id);
  match r with
  | Ok b => mret (Some b)
  | Err NotFound => mret None
  | Err e => panic "unexpected error: {e}"
  end.

(** ** network.rs, rand.rs, gas.rs *)

(** [NETWORK_CONTEXT]. *)
Definition network_context : Sdk (list Z) := λ k g,
  match gs_network g with
  | Some c => k c g
  | None => (r ← call_value [8; 8; 16; 8; 4]%nat NetworkContext;
             expect "failed to lookup network context" r) (λ c g', k c (set_network c g')) g
  end.
Definition wrap_i64 (x : Z) : Z := let y := wrap64 x in if i64_max <? y then y - 18446744073709551616 else y.
Definition curr_epoch : Sdk Z := c ← network_context; mret (wrap_i64 (field 0 c)).
Definition tipset_timestamp : Sdk Z := c ← network_context; mret (field 1 c).
Definition base_fee : Sdk TokenAmount := c ← network_context; mret (field 2 c).
Definition chain_id : Sdk Z := c ← network_context; mret (field 3 c).
Definition version : Sdk Z := c ← network_context; mret (field 4 c).
Definition total_fil_circ_supply : Sdk TokenAmount :=
  r ← call_num 16 NetworkTotalFilCircSupply; expect "failed to get circulating supply" r.

Definition tipset_cid (epoch : Z) : Sdk (result EpochBoundsError Cid) := scope (
  r ← cid_out (λ buf ret, NetworkTipsetCid ret epoch buf MAX_CID_LEN)
        (λ e, match e with
              | IllegalArgument | LimitExceeded => mret (Err e)
              | _ => panic "unexpected cid resolution failure: {}"
              end) "invalid cid";
  mret (match r with
        | Ok k => Ok k
        | Err LimitExceeded => Err ExceedsLookback
        | Err _ => Err EpochInvalid
        end)).

Definition get_chain_randomness (round : Z) : Sdk (SyscallResult bytes) :=
  call_value (replicate 32 1%nat) (λ ret, RandGetChainRandomness ret round).
Definition get_beacon_randomness (round : Z) : Sdk (SyscallResult bytes) :=
  call_value (replicate 32 1%nat) (λ ret, RandGetBeaconRandomness ret round).

Definition charge (name : bytes) (compute : Z) : Sdk unit := scope (
  off ← slice_in name;
  r ← call_unit (GasCharge_ off (u32_len name) compute);
  expect "failed to charge gas" r).
Definition available : Sdk Z := r ← call_num 8 GasAvailable; expect "failed to check available gas" r.

(** ** debug.rs *)

Definition enabled : Sdk bool := λ k g,
  match gs_debug g with
  | Some b => k b g
  | None => (r ← call_num 4 DebugEnabled; v ← expect "called `Result::unwrap()` on an `Err` value" r; mret (0 <=? wrap_i32 v))
              (λ b g', k b (set_debug b g')) g
  end.
Definition log (msg : bytes) : Sdk unit := scope (
  off ← slice_in msg;
  r ← call_unit (DebugLog off (u32_len msg));
  expect "called `Result::unwrap()` on an `Err` value" r).
(** [Logger]: the record as text. *)
Definition logger_log (record : bytes) : Sdk unit := b ← enabled; if b : bool then log record else mret tt.
Definition store_artifact (name data : bytes) : Sdk unit := scope (
  no ← slice_in name;
  do_ ← slice_in data;
  r ← call_unit (DebugStoreArtifact no (u32_len name) do_ (u32_len data));
  expect "called `Result::unwrap()` on an `Err` value" r).

(** ** event.rs *)

Definition event_entry (e : Entry) : bytes :=
  to_le_bytes 8 (ee_flags e) ++ to_le_bytes 8 (ee_codec e) ++
  to_le_bytes 4 (u32_len (ee_key e)) ++ to_le_bytes 4 (u32_len (ee_value e)).

Definition emit_event (entries : list Entry) : Sdk (SyscallResult unit) := scope (
  let fixed_entries := concat (event_entry <$> entries) in
  let keys := concat (ee_key <$> entries) in
  let values := concat (ee_value <$> entries) in
  fo ← slice_in fixed_entries;
  ko ← slice_in keys;
  vo ← slice_in values;
  call_unit (EventEmitEvent fo (wrap32 (Z.of_nat (length entries))) ko (u32_len keys) vo (u32_len values))).
End sdk.

(** ** crypto.rs *)

Section crypto.
Context `{H : Host} `{RT : Runtime}.
(** The guest's CBOR encoders and its address hash. *)
Context `{CP : Cbor (list PieceInfo)} `{CW : Cbor WindowPoStVerifyInfo} `{CA : Cbor AggregateSealVerifyProofAndInfos}.
Context `{CR : Cbor ReplicaUpdateInfo} `{CS : Cbor (list SealVerifyInfo)} `{B2 : Blake2b}.

Definition status_code_to_bool (code : Z) : bool := wrap_i32 code =? 0.
(** A call with one argument encoded as CBOR that answers with a status. *)
Definition cbor_status {T} `{Cbor T} (info : T) (msg : string) (req : Z → Z → Z → SyscallReq) : Sdk (SyscallResult bool) :=
  match to_vec info with
  | Err _ => panic msg
  | Ok bz => scope (off ← slice_in bz; v ?← call_num 4 (λ ret, req ret off (u32_len bz)); mret (Ok (status_code_to_bool v)))
  end.

Definition try_u32 (n : Z) : SyscallResult Z := if u32_max <? n then Err IllegalArgument else Ok n.
Fixpoint try_lens (plaintexts : list bytes) : SyscallResult (list Z) :=
  match plaintexts with
  | [] => Ok []
  | p :: ps =>
      match try_u32 (Z.of_nat (length p)) with
      | Err e => Err e
      | Ok n => match try_lens ps with Err e => Err e | Ok ns => Ok (n :: ns) end
      end
  end.

Definition verify_bls_aggregate (sig : bytes) (pub_keys plaintexts : list bytes) : Sdk (SyscallResult bool) :=
  if negb (length pub_keys =? length plaintexts)%nat then mret (Err IllegalArgument) else
  match try_u32 (Z.of_nat (length pub_keys)) with
  | Err e => mret (Err e)
  | Ok num_signers =>
      match try_lens plaintexts with
      | Err e => mret (Err e)
      | Ok lens => scope (
          so ← slice_in sig;
          ko ← slice_in (concat pub_keys);
          po ← slice_in (concat plaintexts);
          lo ← slice_in (concat (to_le_bytes 4 <$> lens));
          v ?← call_num 4 (λ ret, CryptoVerifyBlsAggregate ret num_signers so ko po lo);
          mret (Ok (status_code_to_bool v)))
      end
  end.

Definition recover_secp_public_key (hash signature : bytes) : Sdk (SyscallResult bytes) := scope (
  ho ← slice_in hash;
  so ← slice_in signature;
  call_value (replicate 65 1%nat) (λ ret, CryptoRecoverSecp ret ho so)).

Definition hash_blake2b (data : bytes) : Sdk bytes := scope (
  ret ← zeroed 32;
  off ← slice_in data;
  r ← call_num 4 (λ out, CryptoHash out BLAKE2B_256 off (u32_len data) ret 32);
  _ ← expect "failed to compute blake2b hash" r;
  load ret 32).

Definition hash_owned (hasher : SupportedHashes) (data : bytes) : Sdk bytes := scope (
  ret ← alloc (rt_capacity 64);
  off ← slice_in data;
  r ← call_num 4 (λ out, CryptoHash out (hash_code hasher) off (u32_len data) ret 64);
  written ← expect "failed compute hash using {:?}" r;
  _ ← assert (written <=? rt_capacity 64) "assertion failed: written <= ret.capacity()";
  load ret written).

(** The caller's buffer [digest] is overwritten from its start. *)
Definition hash_into (hasher : SupportedHashes) (data digest : bytes) : Sdk (Z * bytes) := scope (
  ret ← slice_in digest;
  off ← slice_in data;
  r ← call_num 4 (λ out, CryptoHash out (hash_code hasher) off (u32_len data) ret (u32_len digest));
  written ← expect "failed compute hash using {:?}" r;
  bz ← load ret (Z.of_nat (length digest));
  mret (written, bz)).

(** With the feature [verify-signature] the host is asked; without it the
    signature is checked with the calls above. *)
Definition verify_signature_host (signature : Signature) (signer : Address) (plaintext : bytes) : Sdk (SyscallResult bool) :=
  scope (
    so ← slice_in (sig_bytes signature);
    ao ← slice_in (to_bytes signer);
    po ← slice_in plaintext;
    v ?← call_num 4 (λ ret, CryptoVerifySignature ret (sig_type_byte (sig_type signature)) so (u32_len (sig_bytes signature))
           ao (u32_len (to_bytes signer)) po (u32_len plaintext));
    mret (Ok (status_code_to_bool v))).

Definition verify_signature (signature : Signature) (addr : Address) (plaintext : bytes) : Sdk (SyscallResult bool) :=
  match sig_type signature with
  | BLS =>
      if negb (length (sig_bytes signature) =? Signature.BLS_SIG_LEN)%nat then mret (Err IllegalArgument)
      else match addr with
           | BLSAddr pub_key => verify_bls_aggregate (sig_bytes signature) [pub_key] [plaintext]
           | _ => mret (Err IllegalArgument)
           end
  | Secp256k1 =>
      match addr with
      | Secp256k1Addr _ =>
          if negb (length (sig_bytes signature) =? Signature.SECP_SIG_LEN)%nat then mret (Err IllegalArgument)
          else
            digest ← hash_blake2b plaintext;
            pub_key ?← recover_secp_public_key digest (sig_bytes signature);
            match new_secp256k1 pub_key with
            | Err _ => panic "recovered secp256k1 public key should always be a valid secp256k1 address"
            | Ok recovered => mret (Ok (bool_decide (addr = recovered)))
            end
      | _ => mret (Err IllegalArgument)
      end
  end.

Definition compute_unsealed_sector_cid (proof_type : RegisteredSealProof) (pieces : list PieceInfo) : Sdk (SyscallResult Cid) :=
  match to_vec pieces with
  | Err _ => panic "failed to marshal piece infos"
  | Ok bz => scope (
      off ← slice_in bz;
      out ← zeroed MAX_CID_LEN;
      len ?← call_num 4 (λ ret, CryptoComputeUnsealedSectorCid ret (seal_to_i64 proof_type) off (u32_len bz) out MAX_CID_LEN);
      _ ← assert (len <=? MAX_CID_LEN) "CID too large: {} > {}";
      cid ← load out len;
      match cid_read_bytes cid with Ok (k, _) => mret (Ok k) | Err _ => panic "runtime returned an invalid CID" end)
  end.

Definition verify_post (info : WindowPoStVerifyInfo) : Sdk (SyscallResult bool) :=
  cbor_status info "failed to marshal PoSt verification input" CryptoVerifyPost.
Definition verify_aggregate_seals (info : AggregateSealVerifyProofAndInfos) : Sdk (SyscallResult bool) :=
  cbor_status info "failed to marshal aggregate seal verification input" CryptoVerifyAggregateSeals.
Definition verify_replica_update (info : ReplicaUpdateInfo) : Sdk (SyscallResult bool) :=
  cbor_status info "failed to marshal replica update verification input" CryptoVerifyReplicaUpdate.

Definition fault_from (n : Z) : option ConsensusFaultType :=
  if n =? 1 then Some DoubleForkMining else if n =? 2 then Some ParentGrinding
  else if n =? 3 then Some TimeOffsetMining else None.
Definition verify_consensus_fault (h1 h2 extra : bytes) : Sdk (SyscallResult (option ConsensusFault)) := scope (
  o1 ← slice_in h1;
  o2 ← slice_in h2;
  oe ← slice_in extra;
  v ?← call_value [8; 8; 4]%nat (λ ret, CryptoVerifyConsensusFault ret o1 (u32_len h1) o2 (u32_len h2) oe (u32_len extra));
  if field 2 v =? 0 then mret (Ok None)
  else match fault_from (field 2 v) with
       | None => panic "received an invalid fault type from the runtime"
       | Some t => mret (Ok (Some (mkConsensusFault (new_id (field 1 v)) (wrap_i64 (field 0 v)) t)))
       end).

(** One byte per seal, read as a [bool]. *)
Definition batch_verify_seals (batch : list SealVerifyInfo) : Sdk (SyscallResult (list bool)) :=
  match to_vec batch with
  | Err _ => panic "failed to marshal batch seal verification input"
  | Ok encoded => scope (
      off ← slice_in encoded;
      result ← alloc (rt_capacity (Z.of_nat (length batch)));
      _ ?← call_unit (CryptoBatchVerifySeals off (u32_len encoded) result);
      bz ← load result (Z.of_nat (length batch));
      mret (Ok ((λ b, negb (b =? 0)) <$> bz)))
  end.
End crypto.
