(* ===== verification/Encoding.v ===== *)
(** * Encoding helpers (ipld/encoding/src)

    How the value types of the VM meet a codec. A value is serialised by one call
    on a serializer and read by a visitor that gets one call from a deserializer;
    these calls are serde's data model, [Ser] and [Visit] here. The raw codec
    ([raw.rs]), the strict byte strings ([bytes.rs]), Go's nullable slices
    ([vec.rs]), [RawBytes] ([cbor.rs]) and blocks ([ipld_block.rs]) are
    translated; the DAG-CBOR library and serde's deserializer over bytes are the
    interface [DagCbor], with what they document in [DagCborSpec]. *)

From S2P Require Import Prelude Effects Address Decimal AddressText Values Signature Types HamtBits HamtCommon Sdk.
From stdpp Require Import gmap strings list fin_maps.
From Stdlib Require Import ZArith Lia.
#[local] Open Scope Z_scope.

(** ** The data model *)

Inductive IntKind := I8 | I16 | I32 | I64 | I128 | U8 | U16 | U32 | U64 | U128.

(** One constructor per method of a serializer; [SerCustom] is a value whose own
    [serialize] fails with [S::Error::custom]. *)
Inductive Ser :=
  | SerBool (v : bool) | SerInt (k : IntKind) (v : Z) | SerF32 (bits : Z) | SerF64 (bits : Z)
  | SerChar (c : Z) | SerStr (s : bytes) | SerBytes (v : bytes)
  | SerNone | SerSome (v : Ser) | SerUnit | SerUnitStruct (name : string)
  | SerUnitVariant (name : string) (index : Z) (variant : string)
  | SerNewtypeStruct (name : string) (v : Ser)
  | SerNewtypeVariant (name : string) (index : Z) (variant : string) (v : Ser)
  | SerSeq (len : option nat) (elems : list Ser) | SerTuple (elems : list Ser)
  | SerTupleStruct (name : string) (elems : list Ser)
  | SerTupleVariant (name : string) (index : Z) (variant : string) (elems : list Ser)
  | SerMap (len : option nat) (entries : list (Ser * Ser))
  | SerStruct (name : string) (fields : list (string * Ser))
  | SerStructVariant (name : string) (index : Z) (variant : string) (fields : list (string * Ser))
  | SerCustom (msg : string).

(** The method by which a type asks for its data, and the method of its visitor
    that answers. A sequence hands out deserializers for its elements and may
    end in an error of the format. *)
Inductive Hint := HAny | HBytes | HByteBuf | HOther (method : string).
Inductive Visit :=
  | VisitBool (v : bool) | VisitInt (k : IntKind) (v : Z) | VisitF32 (bits : Z) | VisitF64 (bits : Z)
  | VisitChar (c : Z) | VisitStr (s : bytes) | VisitBorrowedStr (s : bytes) | VisitString (s : bytes)
  | VisitBytes (v : bytes) | VisitBorrowedBytes (v : bytes) | VisitByteBuf (v : bytes)
  | VisitNone | VisitSome (d : Deserializer) | VisitUnit | VisitNewtypeStruct (d : Deserializer)
  | VisitSeq (elems : list Deserializer) (fault : option string)
  | VisitMap (entries : list (Deserializer * Deserializer)) (fault : option string)
  | VisitEnum (variant : Deserializer) (content : Deserializer)
with Deserializer :=
  | Deser (answer : Hint → result string Visit).

Definition answer (d : Deserializer) : Hint → result string Visit := let 'Deser f := d in f.

(** The methods the visitors of this crate have; a missing one is the trait's
    default, which forwards to [visit_bytes] or fails with a type error. *)
Record Visitor (A : Type) := mkVisitor {
  expecting : string;
  visit_bytes : option (bytes → result string A);
  visit_borrowed_bytes : option (bytes → result string A);
  visit_byte_buf : option (bytes → result string A);
  visit_none : option (result string A);
  visit_unit : option (result string A);
  visit_seq : option (list Deserializer → option string → result string A);
}.
Arguments mkVisitor {A}.
Arguments expecting {A}.
Arguments visit_bytes {A}.
Arguments visit_borrowed_bytes {A}.
Arguments visit_byte_buf {A}.
Arguments visit_none {A}.
Arguments visit_unit {A}.
Arguments visit_seq {A}.

Definition invalid_type {A} (exp : string) : result string A := Err ("invalid type: {}, expected " +:+ exp)%string.
Definition invalid_length {A} (exp : string) : result string A := Err ("invalid length {}, expected " +:+ exp)%string.

Definition visit {A} (vis : Visitor A) (v : Visit) : result string A :=
  let refuse := invalid_type (expecting vis) in
  let on_bytes := default (λ _, refuse) (visit_bytes vis) in
  match v with
  | VisitBytes b => on_bytes b
  | VisitBorrowedBytes b => default on_bytes (visit_borrowed_bytes vis) b
  | VisitByteBuf b => default on_bytes (visit_byte_buf vis) b
  | VisitNone => default refuse (visit_none vis)
  | VisitUnit => default refuse (visit_unit vis)
  | VisitSeq elems fault => default (λ _ _, refuse) (visit_seq vis) elems fault
  | _ => refuse
  end.

Definition deserialize_as {A} (h : Hint) (vis : Visitor A) (d : Deserializer) : result string A :=
  match answer d h with Ok v => visit vis v | Err e => Err e end.

(** What a type does with its serializer and its deserializer. *)
Class Serialize (T : Type) := ser : T → Ser.
Class Deserialize (T : Type) := de : Deserializer → result string T.

(** ** Errors (errors.rs) *)

Inductive CodecProtocol := Unsupported | CborProtocol | RawProtocol.
Record EncError := mkEncError { description : string; err_protocol : CodecProtocol }.

Definition protocol_text (p : CodecProtocol) : string :=
  match p with Unsupported => "Unsupported" | CborProtocol => "Cbor" | RawProtocol => "Raw" end.
Definition enc_error_text (e : EncError) : string :=
  ("Serialization error for " +:+ protocol_text (err_protocol e) +:+ " protocol: " +:+ description e)%string.

Definition map_err {E F A} (f : E → F) (r : result E A) : result F A :=
  match r with Ok a => Ok a | Err e => Err (f e) end.
(** [From<DecodeError>], [From<EncodeError>] and [From<CidError>]. *)
Definition cbor_error (text : string) : EncError := mkEncError text CborProtocol.

(** ** The raw codec (raw.rs) *)

Module Raw.
Inductive Error := KindNotSupported | Other (msg : string).
Definition error_text (e : Error) : string :=
  match e with
  | KindNotSupported => "IPLD kind not supported by the raw codec"
  | Other msg => ("i/o error when serializing: " +:+ msg)%string
  end.

(** The serializer. It has no methods for 128-bit integers, which the trait's
    defaults refuse. *)
Definition serializer (v : Ser) : result Error bytes :=
  match v with
  | SerBytes b => Ok b
  | SerInt I128 _ => Err (Other "i128 is not supported")
  | SerInt U128 _ => Err (Other "u128 is not supported")
  | SerCustom msg => Err (Other msg)
  | SerBool _ | SerInt _ _ | SerF32 _ | SerF64 _ | SerChar _ | SerStr _ | SerUnitStruct _
  | SerNone | SerSome _ | SerUnit | SerUnitVariant _ _ _ | SerNewtypeStruct _ _ | SerNewtypeVariant _ _ _ _
  | SerSeq _ _ | SerTuple _ | SerTupleStruct _ _ | SerTupleVariant _ _ _ _
  | SerMap _ _ | SerStruct _ _ | SerStructVariant _ _ _ _ => Err KindNotSupported
  end.

Definition to_vec `{Serialize T} (value : T) : result EncError bytes :=
  map_err (λ e, mkEncError (error_text e) RawProtocol) (serializer (ser value)).
End Raw.

(** ** Strict byte strings (bytes.rs) *)

(** [Serialize for T: AsRef<[u8]>]. *)
Definition strict_serialize (b : bytes) : Ser := SerBytes b.

Definition VecVisitor : Visitor bytes :=
  mkVisitor "byte array" (Some Ok) None (Some Ok) None None None.
Definition vec_deserialize : Deserializer → result string bytes := deserialize_as HByteBuf VecVisitor.

Inductive Cow := Borrowed (b : bytes) | Owned (b : bytes).
Definition cow_data (c : Cow) : bytes := match c with Borrowed b | Owned b => b end.
Definition CowVisitor : Visitor Cow :=
  mkVisitor "a byte array" (Some (λ b, Ok (Owned b))) (Some (λ b, Ok (Borrowed b))) (Some (λ b, Ok (Owned b)))
    None None None.
Definition cow_deserialize : Deserializer → result string Cow := deserialize_as HBytes CowVisitor.

Definition ArrVisitor (S : nat) : Visitor bytes :=
  mkVisitor "a {}byte array"
    (Some (λ v, if negb (length v =? S)%nat then invalid_length "a {}byte array" else Ok v))
    None None None None None.
Definition array_deserialize (L : nat) : Deserializer → result string bytes := deserialize_as HBytes (ArrVisitor L).

(** [ByteBuf] ([BytesDe]), [BytesSer] and [RawBytes] are transparent wrappers. *)
Record ByteBuf := mkByteBuf { into_vec : bytes }.
Definition ByteBuf_ser : Serialize ByteBuf := λ b, strict_serialize (into_vec b).
#[export] Existing Instance ByteBuf_ser.
Definition ByteBuf_de : Deserialize ByteBuf := λ d,
  match vec_deserialize d with Ok b => Ok (mkByteBuf b) | Err e => Err e end.
#[export] Existing Instance ByteBuf_de.
Record BytesSer := mkBytesSer { bytes_ser : bytes }.
Definition BytesSer_ser : Serialize BytesSer := λ b, strict_serialize (bytes_ser b).
#[export] Existing Instance BytesSer_ser.

(** ** Go's nullable slices (vec.rs) *)

Section go_vec.
Context {T D : Type} (conv : D → T).

Fixpoint go_visit_seq (de_elem : Deserializer → result string D) (seq : list Deserializer) (fault : option string)
    : result string (list T) :=
  match seq with
  | [] => match fault with Some e => Err e | None => Ok [] end
  | d :: seq =>
      match de_elem d with
      | Err e => Err e
      | Ok elem => match go_visit_seq de_elem seq fault with Err e => Err e | Ok vec => Ok (conv elem :: vec) end
      end
  end.
Definition GoVecVisitor (de_elem : Deserializer → result string D) : Visitor (list T) :=
  mkVisitor "a vector of serializable objects or null" None None None
    (Some (Ok [])) (Some (Ok [])) (Some (go_visit_seq de_elem)).
End go_vec.

Definition go_vec_serialize `{Serialize T} (m : list T) : Ser := SerSeq (Some (length m)) (ser <$> m).
Definition go_vec_deserialize `{Deserialize T} : Deserializer → result string (list T) :=
  deserialize_as HAny (GoVecVisitor id de).

(** ** The value types that are byte strings on the wire

    [Address], [Signature], [BigInt], [BigUint], [Randomness], the bit field of a
    HAMT node. Their bytes are those of the components that define them. *)

Definition de_cow {T} (from : bytes → result string T) (d : Deserializer) : result string T :=
  match cow_deserialize d with Ok bz => from (cow_data bz) | Err e => Err e end.

(** [Display for address::Error]. *)
Definition address_error_text (e : AddressError) : string :=
  match e with
  | UnknownNetwork => "Unknown address network"
  | UnknownProtocol => "Unknown address protocol"
  | InvalidPayload => "Invalid address payload"
  | InvalidLength => "Invalid address length"
  | InvalidPayloadLength _ => "Invalid payload length: {0}"
  | InvalidBLSLength _ => "Invalid BLS pub key length, wanted: {} got: {0}"
  | InvalidSECPLength _ => "Invalid SECP pub key length, wanted: {} got: {0}"
  | InvalidChecksum => "Invalid address checksum"
  | Base32Decoding => "Decoding for address failed: {0}"
  | NonIDAddress => "Cannot get id from non id address"
  | NonDelegatedAddress => "Cannot get delegated address from non delegate address"
  end.

Definition Address_ser `{Varint} : Serialize Address := λ a, strict_serialize (to_bytes a).
#[export] Existing Instance Address_ser.
Definition Address_de `{Varint} : Deserialize Address :=
  de_cow (λ bz, map_err address_error_text (from_bytes bz)).
#[export] Existing Instance Address_de.

Definition Signature_ser : Serialize Signature := λ s, strict_serialize (sig_serialize s).
#[export] Existing Instance Signature_ser.
Definition Signature_de : Deserialize Signature := de_cow sig_deserialize.
#[export] Existing Instance Signature_de.

Record BigInt := mkBigInt { bigint : Z }.
Definition ser_result (r : result string bytes) : Ser :=
  match r with Ok bz => strict_serialize bz | Err msg => SerCustom msg end.
Definition BigInt_ser : Serialize BigInt := λ i, ser_result (BigIntSer.serialize (bigint i)).
#[export] Existing Instance BigInt_ser.
Definition BigInt_de : Deserialize BigInt := de_cow (λ bz,
  match BigIntSer.deserialize bz with Ok z => Ok (mkBigInt z) | Err e => Err e end).
#[export] Existing Instance BigInt_de.
Record BigUint := mkBigUint { biguint : Z }.
Definition BigUint_ser : Serialize BigUint := λ i, ser_result (BigIntSer.serialize_uint (biguint i)).
#[export] Existing Instance BigUint_ser.
Definition BigUint_de : Deserialize BigUint := de_cow (λ bz,
  match BigIntSer.deserialize_uint bz with Ok z => Ok (mkBigUint z) | Err e => Err e end).
#[export] Existing Instance BigUint_de.

Definition TokenAmount_ser : Serialize Econ.TokenAmount := λ t, ser (mkBigInt (Econ.atto t)).
#[export] Existing Instance TokenAmount_ser.
Definition TokenAmount_de : Deserialize Econ.TokenAmount := λ d,
  match de (T := BigInt) d with Ok v => Ok (Econ.mkAmount (bigint v)) | Err e => Err e end.
#[export] Existing Instance TokenAmount_de.

Record Randomness := mkRandomness { randomness : bytes }.
Definition Randomness_ser : Serialize Randomness := λ r, ser (mkBytesSer (randomness r)).
#[export] Existing Instance Randomness_ser.
Definition Randomness_de : Deserialize Randomness := λ d,
  match de (T := ByteBuf) d with Ok b => Ok (mkRandomness (into_vec b)) | Err e => Err e end.
#[export] Existing Instance Randomness_de.

Record NodeBitfield := mkNodeBitfield { node_bits : Bitfield }.
Definition NodeBitfield_ser : Serialize NodeBitfield := λ b, strict_serialize (bf_serialize (node_bits b)).
#[export] Existing Instance NodeBitfield_ser.
Definition NodeBitfield_de : Deserialize NodeBitfield := λ d,
  match de (T := ByteBuf) d with
  | Ok b => match bf_deserialize (into_vec b) with Ok v => Ok (mkNodeBitfield v) | Err e => Err e end
  | Err e => Err e
  end.
#[export] Existing Instance NodeBitfield_de.

Record RawBytes := mkRawBytes { raw_bytes : bytes }.
Definition RawBytes_ser : Serialize RawBytes := λ b, strict_serialize (raw_bytes b).
#[export] Existing Instance RawBytes_ser.
Definition RawBytes_de : Deserialize RawBytes := λ d,
  match vec_deserialize d with Ok b => Ok (mkRawBytes b) | Err e => Err e end.
#[export] Existing Instance RawBytes_de.

(** ** The codecs *)

(** [serde_ipld_dagcbor::to_vec] and [from_slice], whose errors are their text,
    and [serde::de::value::BytesDeserializer]. *)
Class DagCbor := {
  dagcbor_to_vec : Ser → result string bytes;
  dagcbor_from_slice : ∀ {A : Type}, (Deserializer → result string A) → bytes → result string A;
  bytes_deserializer : bytes → Deserializer;
}.

(** A deserializer that answers a request with exactly these bytes. *)
Definition visited_bytes (v : Visit) : option bytes :=
  match v with VisitBytes b | VisitBorrowedBytes b | VisitByteBuf b => Some b | _ => None end.
Definition presents (d : Deserializer) (h : Hint) (b : bytes) : Prop :=
  ∃ v, answer d h = Ok v ∧ visited_bytes v = Some b.
Definition byte_string (b : bytes) (d : Deserializer) : Prop := presents d HBytes b ∧ presents d HByteBuf b.

(** Byte strings, null and lists of byte strings of lengths CBOR can write. *)
Definition short (b : bytes) : Prop := Z.of_nat (length b) ≤ u64_max.
Inductive reads : Ser → Deserializer → Prop :=
  | reads_bytes b d : byte_string b d → reads (SerBytes b) d
  | reads_none d v : answer d HAny = Ok v → v = VisitNone ∨ v = VisitUnit → reads SerNone d
  | reads_seq bs ds d :
      answer d HAny = Ok (VisitSeq ds None) → Forall2 byte_string bs ds →
      reads (SerSeq (Some (length bs)) (SerBytes <$> bs)) d.
Inductive writable : Ser → Prop :=
  | writable_bytes b : short b → writable (SerBytes b)
  | writable_none : writable SerNone
  | writable_seq bs : Forall short bs → Z.of_nat (length bs) ≤ u64_max →
      writable (SerSeq (Some (length bs)) (SerBytes <$> bs)).

(** CBOR keeps the three kinds apart and gives back what was written; a value
    that refuses to be serialised is refused. The deserializer over bytes always
    calls [visit_bytes]. *)
Class DagCborSpec `{DC : DagCbor} : Prop := {
  dagcbor_reads s : writable s → ∃ bz d, dagcbor_to_vec s = Ok bz ∧ reads s d ∧
    ∀ A (D : Deserializer → result string A), dagcbor_from_slice D bz = D d;
  dagcbor_custom msg : ∃ e, dagcbor_to_vec (SerCustom msg) = Err e;
  bytes_deserializer_visits b h : answer (bytes_deserializer b) h = Ok (VisitBytes b);
}.

Section codecs.
Context `{DC : DagCbor}.

(** [to_vec] and [from_slice] of lib.rs. *)
Definition to_vec `{Serialize T} (value : T) : result EncError bytes := map_err cbor_error (dagcbor_to_vec (ser value)).
Definition from_slice `{Deserialize T} (slice : bytes) : result EncError T :=
  map_err cbor_error (dagcbor_from_slice de slice).

(** [RawBytes::serialize] and [RawBytes::deserialize]. *)
Definition raw_serialize `{Serialize V} (obj : V) : result EncError RawBytes :=
  match to_vec obj with Ok b => Ok (mkRawBytes b) | Err e => Err e end.
Definition raw_deserialize `{Deserialize V} (b : RawBytes) : result EncError V := from_slice (raw_bytes b).

(** *** Blocks (ipld_block.rs) *)

Definition unsupported : EncError := mkEncError "unsupported protocol" Unsupported.

Definition block_deserialize `{Deserialize T} (b : IpldBlock) : result EncError T :=
  if ib_codec b =? IPLD_RAW then
    map_err (λ e, mkEncError e RawProtocol) (de (bytes_deserializer (ib_data b)))
  else if (ib_codec b =? DAG_CBOR) || (ib_codec b =? CBOR) then from_slice (ib_data b)
  else Err unsupported.

Definition block_serialize `{Serialize T} (codec : Z) (value : T) : result EncError IpldBlock :=
  match (if codec =? IPLD_RAW then Raw.to_vec value
         else if (codec =? DAG_CBOR) || (codec =? CBOR) then to_vec value
         else Err unsupported) with
  | Ok data => Ok (mkIpldBlock codec data)
  | Err e => Err e
  end.

Definition serialize_cbor `{Serialize T} (value : T) : result EncError (option IpldBlock) :=
  match block_serialize CBOR value with Ok b => Ok (Some b) | Err e => Err e end.
Definition serialize_dag_cbor `{Serialize T} (value : T) : result EncError (option IpldBlock) :=
  match block_serialize DAG_CBOR value with Ok b => Ok (Some b) | Err e => Err e end.
End codecs.

(** [From<RawBytes> for Option<IpldBlock>]. *)
Definition raw_to_block (other : RawBytes) : option IpldBlock :=
  if decide (raw_bytes other = []) then None else Some (mkIpldBlock CBOR (raw_bytes other)).

(** [Debug]: numbers and bytes in hexadecimal. *)
Definition hex_digit (d : Z) : Z := if d <? 10 then 48 + d else 87 + d.
Definition hex_byte (b : Z) : bytes := [hex_digit (b / 16); hex_digit (b `mod` 16)].
Definition hex_number (n : Z) : bytes := hex_digit <$> to_base 16 (S (Z.to_nat (Z.log2 n / 4))) n.
Fixpoint text (s : string) : bytes :=
  match s with EmptyString => [] | String c s => Z.of_nat (Ascii.nat_of_ascii c) :: text s end.
Definition block_debug (b : IpldBlock) : bytes :=
  text "IpldBlock { codec: " ++ hex_number (ib_codec b) ++ text ", data: [" ++ (ib_data b ≫= hex_byte) ++ text "] }".
Definition raw_debug (b : RawBytes) : bytes := text "RawBytes { " ++ (raw_bytes b ≫= hex_byte) ++ text " }".

(** ** What the pieces do *)

(** A type is byte-shaped when it is written as one byte string and read from
    nothing else: [wf] values have the bytes [bytes_of] and every answer is read
    by [of_bytes]. *)
Class ByteShaped (T : Type) `{Serialize T, Deserialize T}
    (wf : T → Prop) (bytes_of : T → bytes) (of_bytes : bytes → result string T) : Prop := {
  shaped_ser t : wf t → ser t = SerBytes (bytes_of t);
  shaped_round t : wf t → of_bytes (bytes_of t) = Ok t;
  shaped_de d b : byte_string b d → de d = of_bytes b;
  shaped_strict d t : de d = Ok t → ∃ b h, presents d h b ∧ of_bytes b = Ok t;
}.

(** The requests of the two visitors of byte strings, answered by bytes and by
    anything else. *)
Lemma vec_deserialize_bytes d b : presents d HByteBuf b → vec_deserialize d = Ok b.
Proof. intros (v & Ha & Hv). unfold vec_deserialize, deserialize_as. rewrite Ha. destruct v; simplify_eq/=; done. Qed.
Lemma vec_deserialize_strict d b : vec_deserialize d = Ok b → presents d HByteBuf b.
Proof.
  unfold vec_deserialize, deserialize_as. destruct (answer d HByteBuf) as [v|] eqn:Ha; [|done].
  destruct v; intros; simplify_eq/=; eexists; split; eauto.
Qed.
Lemma cow_deserialize_bytes d b : presents d HBytes b → ∃ c, cow_deserialize d = Ok c ∧ cow_data c = b.
Proof.
  intros (v & Ha & Hv). unfold cow_deserialize, deserialize_as. rewrite Ha. destruct v; simplify_eq/=; eexists; split; done.
Qed.
Lemma cow_deserialize_strict d c : cow_deserialize d = Ok c → presents d HBytes (cow_data c).
Proof.
  unfold cow_deserialize, deserialize_as. destruct (answer d HBytes) as [v|] eqn:Ha; [|done].
  destruct v; intros; simplify_eq/=; eexists; split; eauto.
Qed.

Lemma shaped_cow {T} `{Serialize T} (wf : T → Prop) bytes_of of_bytes :
  (∀ t, wf t → ser t = SerBytes (bytes_of t)) → (∀ t, wf t → of_bytes (bytes_of t) = Ok t) →
  @ByteShaped T _ (de_cow of_bytes) wf bytes_of of_bytes.
Proof.
  intros Hs Hr. split; [done..| |].
  - intros d b [Hb _]. destruct (cow_deserialize_bytes d b Hb) as (c & Hc & <-). unfold de, de_cow. by rewrite Hc.
  - intros d t. unfold de, de_cow. destruct (cow_deserialize d) as [c|] eqn:Hc; [|done]. intros Ht.
    exists (cow_data c), HBytes. split; [by apply cow_deserialize_strict|done].
Qed.

(** A type read through [ByteBuf]. *)
Lemma shaped_vec {T} `{Serialize T, Deserialize T} (wf : T → Prop) bytes_of of_bytes :
  (∀ t, wf t → ser t = SerBytes (bytes_of t)) → (∀ t, wf t → of_bytes (bytes_of t) = Ok t) →
  (∀ d, de (T := T) d = match vec_deserialize d with Ok b => of_bytes b | Err e => Err e end) →
  ByteShaped T wf bytes_of of_bytes.
Proof.
  intros Hs Hr Hd. split; [done..| |].
  - intros d b [_ Hb]. rewrite Hd. by rewrite (vec_deserialize_bytes d b Hb).
  - intros d t. rewrite Hd. destruct (vec_deserialize d) as [b|] eqn:Hb; [|done]. intros Ht.
    exists b, HByteBuf. split; [by apply vec_deserialize_strict|done].
Qed.

(** ** The byte-shaped types *)

#[export] Instance SerBytes_inj : Inj (=) (=) SerBytes.
Proof. by intros ?? [= ->]. Qed.

#[export] Instance Address_shaped `{VarintSpec} :
  ByteShaped Address addr_wf to_bytes (λ bz, map_err address_error_text (from_bytes bz)).
Proof. apply shaped_cow; [done|]. intros a Ha. by rewrite (proj2 (from_bytes_spec _ a)). Qed.

#[export] Instance Signature_shaped : ByteShaped Signature (λ _, True) sig_serialize sig_deserialize.
Proof. apply shaped_cow; [done|]. intros s _. by apply sig_roundtrip. Qed.

Definition bigint_bytes (z : Z) : bytes := match BigIntSer.serialize z with Ok bz => bz | Err _ => [] end.

Lemma bigint_bytes_ok z : Z.abs z < 256 ^ 127 →
  BigIntSer.serialize z = Ok (bigint_bytes z) ∧ BigIntSer.deserialize (bigint_bytes z) = Ok z.
Proof.
  intros Hz. destruct (proj1 (BigIntSer.serialize_spec z) Hz) as (bz & Hs & Hd). unfold bigint_bytes. by rewrite Hs.
Qed.

#[export] Instance BigInt_shaped :
  ByteShaped BigInt (λ i, Z.abs (bigint i) < 256 ^ 127) (λ i, bigint_bytes (bigint i))
    (λ bz, match BigIntSer.deserialize bz with Ok z => Ok (mkBigInt z) | Err e => Err e end).
Proof.
  apply shaped_cow; intros [z] Hz; destruct (bigint_bytes_ok z Hz) as [Hs Hd]; cbn [bigint].
  - unfold ser, BigInt_ser. cbn [bigint]. by rewrite Hs.
  - by rewrite Hd.
Qed.

#[export] Instance BigUint_shaped :
  ByteShaped BigUint (λ i, 0 ≤ biguint i < 256 ^ 127) (λ i, bigint_bytes (biguint i))
    (λ bz, match BigIntSer.deserialize_uint bz with Ok z => Ok (mkBigUint z) | Err e => Err e end).
Proof.
  apply shaped_cow; intros [z] Hz; cbn [biguint] in *;
    destruct (proj1 (BigIntSer.bigint_bytes_roundtrip z) ltac:(lia)) as (bz & Hs & _ & Hu); destruct (Hu ltac:(lia)) as [Hsu Hdu].
  - unfold ser, BigUint_ser, bigint_bytes. cbn [biguint]. by rewrite Hs, Hsu.
  - unfold bigint_bytes. by rewrite Hs, Hdu.
Qed.

#[export] Instance TokenAmount_shaped :
  ByteShaped Econ.TokenAmount (λ t, Z.abs (Econ.atto t) < 256 ^ 127) (λ t, bigint_bytes (Econ.atto t))
    (λ bz, match BigIntSer.deserialize bz with Ok z => Ok (Econ.mkAmount z) | Err e => Err e end).
Proof.
  pose proof BigInt_shaped as HB. split.
  - intros [a] Ha. apply (@shaped_ser _ _ _ _ _ _ HB (mkBigInt a) Ha).
  - intros [a] Ha. cbn [Econ.atto] in *. by rewrite (proj2 (bigint_bytes_ok a Ha)).
  - intros d b Hb. unfold de, TokenAmount_de. rewrite (@shaped_de _ _ _ _ _ _ HB d b Hb). by destruct (BigIntSer.deserialize b).
  - intros d [a]. unfold de at 1, TokenAmount_de. destruct (de (T := BigInt) d) as [[z]|] eqn:Hd; [|done]. intros [= ->].
    destruct (@shaped_strict _ _ _ _ _ _ HB d _ Hd) as (b & h & Hp & Hb). exists b, h. split; [done|].
    destruct (BigIntSer.deserialize b); simplify_eq/=. done.
Qed.

#[export] Instance Randomness_shaped :
  ByteShaped Randomness (λ _, True) randomness (λ bz, Ok (mkRandomness bz)).
Proof.
  apply shaped_vec; [done|by intros []|]. intros d. unfold de, Randomness_de, de, ByteBuf_de. by destruct (vec_deserialize d).
Qed.

#[export] Instance NodeBitfield_shaped :
  ByteShaped NodeBitfield (λ b, bf_wf (node_bits b)) (λ b, bf_serialize (node_bits b))
    (λ bz, match bf_deserialize bz with Ok v => Ok (mkNodeBitfield v) | Err e => Err e end).
Proof.
  apply shaped_vec; [done|intros [b] Hb; cbn [node_bits] in *; by rewrite (bf_roundtrip b Hb)|].
  intros d. unfold de, NodeBitfield_de, de, ByteBuf_de. by destruct (vec_deserialize d).
Qed.

#[export] Instance RawBytes_shaped : ByteShaped RawBytes (λ _, True) raw_bytes (λ bz, Ok (mkRawBytes bz)).
Proof. apply shaped_vec; [done|by intros []|done]. Qed.

(** The raw codec writes byte strings and nothing else, as they are. *)
Lemma raw_serializer_iff v b : Raw.serializer v = Ok b ↔ v = SerBytes b.
Proof. split; [|by intros ->]. destruct v as [| k | | | | | | | | | | | | | | | | | | | |]; try destruct k; simpl; intros; by simplify_eq. Qed.

Section blocks.
Context `{DS : DagCborSpec}.
Context {T : Type} `{SH : ByteShaped T wf bytes_of of_bytes}.

Definition supported (codec : Z) : Prop := codec = IPLD_RAW ∨ codec = DAG_CBOR ∨ codec = CBOR.

Lemma cbor_shaped_roundtrip t : wf t → short (bytes_of t) →
  ∃ bz, to_vec t = Ok bz ∧ from_slice bz = Ok t.
Proof.
  intros Hw Hb. destruct (dagcbor_reads _ (writable_bytes _ Hb)) as (bz & d & Hz & Hr & Hd). exists bz.
  unfold to_vec, from_slice. rewrite (shaped_ser t Hw), Hz, Hd. inversion Hr; subst.
  rewrite (shaped_de d (bytes_of t)) by done. by rewrite (shaped_round t Hw).
Qed.

Lemma raw_block_reads data :
  block_deserialize (mkIpldBlock IPLD_RAW data) = map_err (λ e, mkEncError e RawProtocol) (of_bytes data).
Proof.
  unfold block_deserialize. cbn [ib_codec ib_data]. rewrite Z.eqb_refl. f_equal. apply shaped_de.
  split; eexists; split; [apply bytes_deserializer_visits|done|apply bytes_deserializer_visits|done].
Qed.

(** blocks of byte-shaped values. Any value type that is a byte string on the
    wire (addresses, signatures, amounts, randomness, bit fields, raw bytes) is
    read back from the block it was put in, with each of the three codecs; a raw
    block is the value's bytes and nothing else, and any raw block is read as the
    type reads its bytes; other codecs are refused on both sides. *)
Theorem ipld_block_roundtrip t codec :
  wf t → short (bytes_of t) →
  (supported codec →
     ∃ blk, block_serialize codec t = Ok blk ∧ ib_codec blk = codec ∧ block_deserialize blk = Ok t ∧
            (codec = IPLD_RAW → ib_data blk = bytes_of t)) ∧
  (¬ supported codec →
     block_serialize codec t = Err unsupported ∧
     ∀ data, block_deserialize (T := T) (mkIpldBlock codec data) = Err unsupported) ∧
  ∀ data, block_deserialize (mkIpldBlock IPLD_RAW data) = map_err (λ e, mkEncError e RawProtocol) (of_bytes data).
Proof.
  intros Hw Hb. split_and!; [| |apply raw_block_reads].
  - intros Hc. destruct (decide (codec = IPLD_RAW)) as [->|Hn].
    + exists (mkIpldBlock IPLD_RAW (bytes_of t)). unfold block_serialize, Raw.to_vec. rewrite (shaped_ser t Hw).
      split_and!; [done..| |done]. rewrite raw_block_reads. by rewrite (shaped_round t Hw).
    + destruct (cbor_shaped_roundtrip t Hw Hb) as (bz & Hz & Hr). exists (mkIpldBlock codec bz).
      unfold block_serialize, block_deserialize. cbn [ib_codec ib_data]. rewrite (proj2 (Z.eqb_neq codec IPLD_RAW) Hn), Hz.
      destruct Hc as [|[->| ->]]; [done|by split_and!|by split_and!].
  - intros Hc. assert ((codec =? IPLD_RAW) = false ∧ (codec =? DAG_CBOR) || (codec =? CBOR) = false) as [E1 E2].
    { unfold supported in Hc. split; [apply Z.eqb_neq|apply orb_false_iff; split; apply Z.eqb_neq]; naive_solver. }
    unfold block_serialize, block_deserialize. cbn [ib_codec]. rewrite E1, E2. done.
Qed.

(** nullable lists. A list of byte-shaped values is read back from CBOR, and null
    is the empty list. *)
Theorem go_vec_roundtrip (l : list T) :
  Forall wf l → Forall (λ t, short (bytes_of t)) l → Z.of_nat (length l) ≤ u64_max →
  (∃ bz, dagcbor_to_vec (go_vec_serialize l) = Ok bz ∧
         dagcbor_from_slice go_vec_deserialize bz = Ok l) ∧
  ∃ bz, dagcbor_to_vec SerNone = Ok bz ∧ dagcbor_from_slice (go_vec_deserialize (T := T)) bz = Ok [].
Proof.
  intros Hw Hs Hl. split.
  - assert (go_vec_serialize l = SerSeq (Some (length (bytes_of <$> l))) (SerBytes <$> (bytes_of <$> l))) as ->.
    { unfold go_vec_serialize. rewrite length_fmap, <-list_fmap_compose. f_equal. apply list_fmap_ext. intros i t Ht.
      apply shaped_ser. by eapply Forall_lookup_1. }
    destruct (dagcbor_reads (SerSeq (Some (length (bytes_of <$> l))) (SerBytes <$> (bytes_of <$> l)))) as (bz & d & Hz & Hr & Hd).
    { constructor; [by apply Forall_fmap|by rewrite length_fmap]. }
    exists bz. split; [done|]. rewrite Hd. inversion Hr as [| |bs ds d' Ha Hf]; subst.
    assert (bs = bytes_of <$> l) as -> by (by apply (inj (fmap SerBytes))). unfold go_vec_deserialize, deserialize_as. rewrite Ha. cbn. clear - SH Hw Hf.
    revert ds Hf. induction Hw as [|t l Ht Hw IH]; intros ds Hf; inversion Hf as [|? d ? ds' Hb Hf']; subst; [done|].
    cbn [go_visit_seq]. rewrite (shaped_de d _ Hb), (shaped_round t Ht), (IH _ Hf'). done.
  - destruct (dagcbor_reads SerNone writable_none) as (bz & d & Hz & Hr & Hd). exists bz. split; [done|]. rewrite Hd.
    inversion Hr as [|? v Ha Hv|]; subst. unfold go_vec_deserialize, deserialize_as. rewrite Ha. by destruct Hv as [-> | ->].
Qed.
End blocks.

(** ** A codec

    CBOR of byte strings, lists of byte strings and null, with lengths in eight
    bytes, as an instance of the interface. *)

Module Mini.
Definition header (major n : Z) : bytes := major :: to_base 256 8 n.
Definition item (b : bytes) : bytes := header 91 (Z.of_nat (length b)) ++ b.

Fixpoint items (l : list Ser) : option bytes :=
  match l with
  | [] => Some []
  | SerBytes b :: l => rest ← items l; Some (item b ++ rest)
  | _ :: _ => None
  end.
Definition write (s : Ser) : result string bytes :=
  match s with
  | SerBytes b => Ok (item b)
  | SerNone => Ok [246]
  | SerSeq _ l => match items l with Some bz => Ok (header 155 (Z.of_nat (length l)) ++ bz) | None => Err "unsupported" end
  | _ => Err "unsupported"
  end.

Definition split_header (bz : bytes) : Z * bytes := (of_base 256 (take 8 bz), drop 8 bz).
Fixpoint read_items (n : nat) (bz : bytes) : option (list bytes * bytes) :=
  match n with
  | O => Some ([], bz)
  | S n =>
      match bz with
      | 91 :: bz =>
          let '(len, bz) := split_header bz in
          '(l, rest) ← read_items n (drop (Z.to_nat len) bz); Some (take (Z.to_nat len) bz :: l, rest)
      | _ => None
      end
  end.
Definition of_item (b : bytes) : Deserializer := Deser (λ _, Ok (VisitBorrowedBytes b)).
Definition open (bz : bytes) : option (Deserializer * bytes) :=
  match bz with
  | 246 :: rest => Some (Deser (λ _, Ok VisitNone), rest)
  | 155 :: rest =>
      let '(n, rest) := split_header rest in
      '(l, rest) ← read_items (Z.to_nat n) rest; Some (Deser (λ _, Ok (VisitSeq (of_item <$> l) None)), rest)
  | _ => '(l, rest) ← read_items 1 bz; Some (Deser (λ _, Ok (VisitBorrowedBytes (concat l))), rest)
  end.

#[export] Instance mini : DagCbor := {|
  dagcbor_to_vec := write;
  dagcbor_from_slice := λ A D bz,
    match open bz with
    | None => Err "eof"
    | Some (d, rest) => match D d with
                        | Ok a => if decide (rest = []) then Ok a else Err "trailing data"
                        | Err e => Err e
                        end
    end;
  bytes_deserializer := λ b, Deser (λ _, Ok (VisitBytes b));
|}%string.

Lemma split_header_to n bz : 0 ≤ n ≤ u64_max → split_header (to_base 256 8 n ++ bz) = (n, bz).
Proof.
  intros Hn. unfold split_header. rewrite take_app_le, drop_app_le by (rewrite to_base_length; lia).
  rewrite take_ge, drop_ge by (rewrite to_base_length; lia). f_equal. apply of_to_base; [lia|].
  unfold u64_max in Hn. change (256 ^ Z.of_nat 8) with 18446744073709551616. lia.
Qed.

Lemma read_items_write bs bz rest :
  Forall short bs → items (SerBytes <$> bs) = Some bz → read_items (length bs) (bz ++ rest) = Some (bs, rest).
Proof.
  intros Hs. revert bz. induction Hs as [|b bs Hb Hs IH]; intros bz; cbn [items fmap list_fmap length read_items].
  - by intros [= <-].
  - destruct (items (SerBytes <$> bs)) as [bz'|] eqn:E; cbn [mbind option_bind]; [|by intros]. intros Hq.
    assert (bz = item b ++ bz') as -> by congruence.
    replace ((item b ++ bz') ++ rest) with (91 :: (to_base 256 8 (Z.of_nat (length b)) ++ (b ++ (bz' ++ rest))))
      by (unfold item; by rewrite <-!app_assoc).
    rewrite split_header_to by (unfold short in Hb; lia). rewrite Nat2Z.id.
    rewrite drop_app_length, take_app_length. by rewrite (IH bz' eq_refl).
Qed.

Lemma items_total bs : ∃ bz, items (SerBytes <$> bs) = Some bz.
Proof. induction bs as [|b bs [bz IH]]; [by exists []|]. eexists. cbn. by rewrite IH. Qed.

#[export] Instance mini_spec : DagCborSpec (DC := mini).
Proof.
  split; [|by intros; eexists|done]. intros s [b Hb| |bs Hs Hl].
  - exists (item b), (of_item b). split_and!; [done|constructor; split; eexists; split; done|]. intros A D. cbn [dagcbor_from_slice mini].
    assert (open (item b) = Some (of_item b, [])) as ->; [|cbn; by destruct (D (of_item b))].
    pose proof (read_items_write [b] (item b) [] ltac:(by constructor)) as Hr. rewrite app_nil_r in Hr.
    specialize (Hr ltac:(cbn; by rewrite app_nil_r)). cbn [length] in Hr.
    unfold open. change (item b) with (91 :: (to_base 256 8 (Z.of_nat (length b)) ++ b)) in *. rewrite Hr. cbn. by rewrite app_nil_r.
  - exists [246], (Deser (λ _, Ok VisitNone)). split_and!; [done|by apply (reads_none _ VisitNone); [|left]|]. intros A D. cbn. by destruct (D _).
  - destruct (items_total bs) as [bz Hz].
    exists (header 155 (Z.of_nat (length bs)) ++ bz), (Deser (λ _, Ok (VisitSeq (of_item <$> bs) None))). split_and!.
    + cbn [dagcbor_to_vec mini write]. by rewrite Hz, length_fmap.
    + eapply reads_seq; [done|]. apply Forall2_fmap_r, Forall_Forall2_diag, Forall_true. intros b. split; eexists; split; done.
    + intros A D. cbn [dagcbor_from_slice mini open header app]. rewrite split_header_to by lia. rewrite Nat2Z.id.
      pose proof (read_items_write bs bz [] Hs Hz) as Hr. rewrite app_nil_r in Hr. rewrite Hr. cbn. by destruct (D _).
Qed.
End Mini.

(** The texts of the source's tests. *)
Example debug_hex :
  block_debug (mkIpldBlock 0 []) = text "IpldBlock { codec: 0, data: [] }" ∧
  block_debug (mkIpldBlock 0xab [15]) = text "IpldBlock { codec: ab, data: [0f] }" ∧
  block_debug (mkIpldBlock 0xaaaa [0; 1; 10; 16; 255]) = text "IpldBlock { codec: aaaa, data: [00010a10ff] }" ∧
  raw_debug (mkRawBytes []) = text "RawBytes {  }".
Proof. vm_compute. split_and!; reflexivity. Qed.

(** Arrays take their length only, whichever way the format hands out bytes. *)
Lemma array_exact L d b :
  presents d HBytes b →
  array_deserialize L d = if (length b =? L)%nat then Ok b else invalid_length "a {}byte array".
Proof.
  intros (v & Ha & Hv). unfold array_deserialize, deserialize_as. rewrite Ha.
  destruct v; simplify_eq/=; by destruct (length b =? L)%nat.
Qed.

Lemma ipld_block_roundtrip_witness :
  ∃ blk, block_serialize (DC := Mini.mini) (H := @Address_ser leb128) DAG_CBOR (new_id 1000) = Ok blk ∧
         block_deserialize (DC := Mini.mini) (H := @Address_de leb128) blk = Ok (new_id 1000).
Proof.
  pose proof (@Address_shaped leb128 leb128_spec) as SH.
  destruct (@ipld_block_roundtrip Mini.mini Mini.mini_spec Address _ _ _ _ _ SH (new_id 1000) DAG_CBOR) as ((blk & H1 & _ & H2 & _) & _).
  - cbn. unfold in_u64, u64_max. lia.
  - unfold short. vm_compute. discriminate.
  - right. by left.
  - by exists blk.
Defined.
