(* ===== verification/Executor.v ===== *)
(** * Messages (fvm/src/executor/default.rs, executor/mod.rs, shared/src/message.rs)

    A message is checked and paid for ([preflight_message]), run in one
    transaction, and settled ([finish_message]). *)

From S2P Require Import Prelude Effects Gas PriceList Address HistoryMap Types StateTree.
From S2P Require Import Access Blocks Machine Ipld Host CallManager Frame Kernel Syscalls.
From S2P Require Import Invocation.
From stdpp Require Import gmap strings list fin_maps.
From Stdlib Require Import ZArith Lia.
#[local] Open Scope Z_scope.

Record Message := mkMessage {
  msg_version : Z;
  msg_from : Address;
  msg_to : Address;
  msg_sequence : Z;
  msg_value : TokenAmount;
  msg_method_num : MethodNum;
  msg_params : bytes;
  msg_gas_limit : Z;
  msg_gas_fee_cap : TokenAmount;
  msg_gas_premium : TokenAmount;
}.

Definition msg_check (m : Message) : result string unit :=
  if msg_gas_limit m =? 0 then Err "Message has no gas limit set"
  else if i64_max <? msg_gas_limit m then Err "Message gas exceeds i64 max"
  else Ok tt.

Record Receipt := mkReceipt {
  rc_exit_code : ExitCode;
  rc_return_data : bytes;
  rc_gas_used : Z;
  rc_events_root : option Cid;
}.

Inductive ApplyFailure :=
  | MessageBacktrace (bt : Backtrace)
  | PreValidation (msg : string).

Record ApplyRet := mkApplyRet {
  ar_msg_receipt : Receipt;
  ar_penalty : TokenAmount;
  ar_miner_tip : TokenAmount;
  ar_base_fee_burn : TokenAmount;
  ar_over_estimation_burn : TokenAmount;
  ar_refund : TokenAmount;
  ar_gas_refund : Z;
  ar_gas_burned : Z;
  ar_failure_info : option ApplyFailure;
  ar_exec_trace : list ExecutionEvent;
  ar_events : list StampedEvent;
}.

Definition prevalidation_fail (code : ExitCode) (message : string) (miner_penalty : TokenAmount)
    : ApplyRet :=
  mkApplyRet (mkReceipt code [] 0 None) miner_penalty 0 0 0 0 0 0 (Some (PreValidation message)) [] [].

Inductive ApplyKind := Explicit | Implicit.

(** [DefaultMachine], less the externs (in [Host]) and the identifier. *)
Record Machine `{E : Env} := mkMachine {
  ma_context : MachineContext;
  ma_builtin : Manifest;
  ma_tree : StateTree;
}.

(** What the settlement of a message needs of its execution. *)
Record MachineExecRet := mkExecRet {
  er_result : Result InvocationResult;
  er_fin : FinishRet;
}.

(** The receipt for a result, and the backtrace to report with it. *)
Definition message_receipt (msg : Message) (ret : MachineExecRet) : Receipt * Backtrace :=
  let fin := er_fin ret in
  let gas_used := Z.of_N (fin_gas_used fin) in
  let root := fin_events_root fin in
  match er_result ret with
  | Ok (mkInvocationResult exit_code value) =>
      (mkReceipt exit_code (match value with Some blk => blk_data blk | None => [] end) gas_used root,
       if is_success exit_code then bt_clear (fin_backtrace fin) else fin_backtrace fin)
  | Err OutOfGas => (mkReceipt SYS_OUT_OF_GAS [] gas_used root, fin_backtrace fin)
  | Err (Syscall err) =>
      (mkReceipt (match se_number err with
                  | InsufficientFunds => SYS_INSUFFICIENT_FUNDS
                  | NotFound => SYS_INVALID_RECEIVER
                  | _ => SYS_ASSERTION_FAILED
                  end) [] gas_used root,
       bt_begin (CauseSyscall "send" "send" err) (fin_backtrace fin))
  | Err (Fatal err) =>
      (mkReceipt SYS_ASSERTION_FAILED [] (msg_gas_limit msg) root,
       bt_set_cause (CauseFatal err) (fin_backtrace fin))
  end.

Section executor.
Context `{H : Host}.

Definition ma_set_tree t (m : Machine) : Machine := mkMachine _ (ma_context m) (ma_builtin m) t.
Definition on_state {A} (op : M StateTree A) : M Machine A := zoom ma_tree ma_set_tree op.

Definition ma_base_fee (m : Machine) : TokenAmount := mc_base_fee (ma_context m).
Definition ma_price_list (m : Machine) : PriceList := price_list (mc_network (ma_context m)).

(** An account, an Ethereum account, or an unused placeholder in the EAM's
    namespace, which becomes an Ethereum account. *)
Definition valid_sender (b : Manifest) (s : ActorState) : option ActorState :=
  if is_placeholder_actor b (as_code s) && (as_sequence s =? 0) &&
     match as_delegated_address s with
     | Some (Delegated da) => da_namespace da =? EAM_ACTOR_ID
     | _ => false
     end
  then Some (as_set_code (ethaccount_code b) s)
  else if is_account_actor b (as_code s) || is_ethaccount_actor b (as_code s) then Some s
  else None.

Definition as_set_sequence (n : Z) (a : ActorState) : ActorState :=
  mkActorState (as_code a) (as_state a) n (as_balance a) (as_delegated_address a).

(** [inl] is the short circuit with a result, [inr] the sender, the funds taken
    and the charge for including the message. This is the part of
    [preflight_message] for explicit messages, from the load of the sender on. *)
Definition charge_sender (msg : Message) (sender_id : ActorID) (inclusion_cost : GasCharge)
    (miner_penalty_amount : TokenAmount) : M Machine (ApplyRet + ActorID * TokenAmount * GasCharge) :=
  let fail code message := mret (inl (prevalidation_fail code message miner_penalty_amount)) in
  o ← on_state (get_actor sender_id);
  match o with
  | None => fail SYS_SENDER_INVALID "Sender invalid"%string
  | Some sender_state =>
      b ← gets ma_builtin;
      match valid_sender b sender_state with
      | None => fail SYS_SENDER_INVALID "Send not from valid sender"%string
      | Some sender_state =>
          if negb (msg_sequence msg =? as_sequence sender_state)
          then fail SYS_SENDER_STATE_INVALID "Actor sequence invalid: {} != {}"%string
          else
          let sender_state := as_set_sequence (wrap64 (as_sequence sender_state + 1)) sender_state in
          let gas_cost := msg_gas_fee_cap msg * msg_gas_limit msg in
          if as_balance sender_state <? gas_cost
          then fail SYS_SENDER_STATE_INVALID "Actor balance less than needed: {} < {}"%string
          else
          sender_state ← lift (transfer_or_fatal (deduct_funds gas_cost sender_state));
          _ ← on_state (set_actor sender_id sender_state);
          mret (inr (sender_id, gas_cost, inclusion_cost))
      end
  end.

Definition preflight_message (msg : Message) (apply_kind : ApplyKind) (raw_length : Z)
    : M Machine (ApplyRet + ActorID * TokenAmount * GasCharge) :=
  _ ← lift (or_fatal (msg_check msg));
  base_fee ← gets ma_base_fee;
  pl ← gets ma_price_list;
  let inclusion_cost := match apply_kind with
    | Implicit => mkGasCharge "none" 0 0
    | Explicit => on_chain_message pl (Z.to_N raw_length)
    end in
  let inclusion_total := Z.of_N (round_up (gc_total inclusion_cost)) in
  if match apply_kind with Implicit => false | Explicit => msg_gas_limit msg <? inclusion_total end
  then mret (inl (prevalidation_fail SYS_OUT_OF_GAS "Out of gas ({} > {})" (base_fee * inclusion_total)))
  else
  let miner_penalty_amount := match apply_kind with
    | Implicit => 0 | Explicit => base_fee * msg_gas_limit msg end in
  o ← on_state (lookup_id (msg_from msg));
  match o with
  | None => mret (inl (prevalidation_fail SYS_SENDER_INVALID "Sender invalid" miner_penalty_amount))
  | Some sender_id =>
      match apply_kind with
      | Implicit => mret (inr (sender_id, 0, inclusion_cost))
      | Explicit => charge_sender msg sender_id inclusion_cost miner_penalty_amount
      end
  end.

(** The closure of [finish_message]. *)
Definition transfer_to_actor (addr : ActorID) (amt : TokenAmount) : M Machine unit :=
  if amt <? 0 then throw (Fatal "attempted to transfer negative value into actor")
  else if amt =? 0 then mret tt
  else on_state (mutate_actor addr (λ act, transfer_or_fatal (deposit_funds amt act))).

Definition finish_message (sender_id : ActorID) (msg : Message) (receipt : Receipt)
    (failure_info : option ApplyFailure) (gas_cost : TokenAmount)
    (exec_trace : list ExecutionEvent) (events : list StampedEvent) : M Machine ApplyRet :=
  base_fee ← gets ma_base_fee;
  let o := GasOutputs_compute (rc_gas_used receipt) (msg_gas_limit msg) base_fee
             (msg_gas_fee_cap msg) (msg_gas_premium msg) in
  _ ← transfer_to_actor BURNT_FUNDS_ACTOR_ID (base_fee_burn o);
  _ ← transfer_to_actor REWARD_ACTOR_ID (miner_tip o);
  _ ← transfer_to_actor BURNT_FUNDS_ACTOR_ID (over_estimation_burn o);
  _ ← transfer_to_actor sender_id (refund o);
  if negb (base_fee_burn o + over_estimation_burn o + refund o + miner_tip o =? gas_cost)
  then throw (Fatal "Gas handling math is wrong")
  else mret (mkApplyRet receipt (miner_penalty o) (miner_tip o) (base_fee_burn o)
               (over_estimation_burn o) (refund o) (gas_refund o) (gas_burned o)
               failure_info exec_trace events).

Definition effective_premium (msg : Message) (base_fee : TokenAmount) : TokenAmount :=
  Z.max (Z.min (msg_gas_premium msg) (msg_gas_fee_cap msg - base_fee)) 0.

Definition msg_block (msg : Message) : option Block :=
  match msg_params msg with
  | [] => None
  | p => Some (mkBlock (if msg_method_num msg =? METHOD_SEND then IPLD_RAW else CBOR) p [])
  end.

(** Enough for the calls a message can nest. *)
Definition call_fuel (m : MachineContext) : nat := S (Z.to_nat (max_call_depth (mc_network m))).

(** The closure of [map_machine]: a call manager over the machine, the message
    in a transaction, and the machine back. *)
Definition run_message (msg : Message) (sender_id : ActorID) (inclusion_cost : GasCharge)
    (receiver_id : option ActorID) : M Machine MachineExecRet := λ m,
  let cm := cm_new (ma_tree m) (ma_context m) (ma_builtin m) (msg_gas_limit msg) sender_id
    (msg_from msg) receiver_id (msg_to msg) (msg_sequence msg)
    (effective_premium msg (ma_base_fee m)) in
  let '(charged, cm) := charge_gas (λ _, inclusion_cost) cm in
  match charged with
  | Err e => (Err e, ma_set_tree (cm_finish cm).2 m)
  | Ok _ =>
      let '(result, cm) := with_transaction
        (call_actor (call_fuel (ma_context m)) sender_id (msg_to msg) (Invoke (msg_method_num msg))
           (msg_block msg) (msg_value msg) None false) cm in
      let '(fin, tree) := cm_finish cm in
      (match fin with Ok res => Ok (mkExecRet result res) | Err e => Err e end, ma_set_tree tree m)
  end.

Definition execute_message (msg : Message) (apply_kind : ApplyKind) (raw_length : Z)
    : M Machine ApplyRet :=
  pre ← preflight_message msg apply_kind raw_length;
  match pre with
  | inl apply_ret => mret apply_ret
  | inr (sender_id, gas_cost, inclusion_cost) =>
      receiver_id ← on_state (lookup_id (msg_to msg));
      ret ← run_message msg sender_id inclusion_cost receiver_id;
      let '(receipt, backtrace) := message_receipt msg ret in
      let failure_info :=
        if bt_is_empty backtrace || is_success (rc_exit_code receipt) then None
        else Some (MessageBacktrace backtrace) in
      let exec_trace := fin_exec_trace (er_fin ret) in
      let events := fin_events (er_fin ret) in
      match apply_kind with
      | Explicit => finish_message sender_id msg receipt failure_info gas_cost exec_trace events
      | Implicit => mret (mkApplyRet receipt 0 0 0 0 0 0 0 failure_info exec_trace events)
      end
  end.
End executor.
