(* ===== verification/EnginePool.v ===== *)
(** * Engines and their instances

    The limits of fvm/src/engine: how many engines run at once
    ([EngineConcurrency], engine/concurrency.rs) and how many Wasm instances
    they may hold together ([InstancePool], engine/instance_pool.rs). Both are a
    counter behind a mutex with a condition variable. A critical section is one
    step; a thread that finds the condition of [wait_while] true goes to sleep
    and tries again when it is woken, by [notify_one], which picks any sleeper,
    or for no reason, as condition variables may.

    Threads are executors: each acquires an engine, takes an instance for every
    frame it enters, returns it when it leaves the frame, and drops the engine.
    The theorems hold for every interleaving of any number of such threads. *)

From S2P Require Import Prelude.
From stdpp Require Import gmap strings list fin_maps.
From Stdlib Require Import ZArith Lia.
#[local] Open Scope Z_scope.

(** ** The two monitors *)

Record EngineConcurrencyInner := mkConcurrency { next_id : Z; limit : Z }.

Definition concurrency_new (concurrency : Z) : EngineConcurrencyInner := mkConcurrency 0 concurrency.

(** [EngineConcurrency::acquire]: the condition of [wait_while], and the rest. *)
Definition acquire_waits (c : EngineConcurrencyInner) : bool := limit c =? 0.
Definition acquire (c : EngineConcurrencyInner) : Z * EngineConcurrencyInner :=
  (next_id c, mkConcurrency (wrap64 (next_id c + 1)) (wrap32 (limit c - 1))).

(** [EngineConcurrency::release]; it always notifies. *)
Definition release (c : EngineConcurrencyInner) : EngineConcurrencyInner :=
  mkConcurrency (next_id c) (wrap32 (limit c + 1)).

Record InstancePoolInner := mkInstancePool {
  available : Z; per_engine_limit : Z; locked : option Z }.

Definition instance_pool_new (available per_engine_limit : Z) : InstancePoolInner :=
  mkInstancePool available per_engine_limit None.

(** [InstancePool::put], and whether it notifies. *)
Definition put (p : InstancePoolInner) : InstancePoolInner * bool :=
  let available := wrap32 (available p + 1) in
  if per_engine_limit p <=? available
  then (mkInstancePool available (per_engine_limit p) None, true)
  else (mkInstancePool available (per_engine_limit p) (locked p), false).

(** [InstancePool::take]: the condition of [wait_while], and the rest. *)
Definition take_waits (id : Z) (p : InstancePoolInner) : bool := negb (default id (locked p) =? id).
Definition take (id : Z) (p : InstancePoolInner) : result string InstancePoolInner :=
  if 0 <? available p
  then
    let available := wrap32 (available p - 1) in
    Ok (mkInstancePool available (per_engine_limit p)
          (if available <? per_engine_limit p then Some id else locked p))
  else Err "no instances available: we must have exceeded our stack depth".

(** ** Threads *)

(** What an executor does with the engine: [EnginePool::acquire], the
    reservation of [Engine::new_store] and its drop, and the engine's drop. *)
Inductive Act := Acquire | Take | Put | Release.
#[export] Instance Act_eq_dec : EqDecision Act.
Proof. solve_decision. Defined.

(** [th_held] counts the reservations that are alive. *)
Record Thread := mkThread {
  th_engine : option Z; th_held : Z; th_asleep : bool; th_prog : list Act }.
Record Sys := mkSys {
  sy_conc : EngineConcurrencyInner; sy_pool : InstancePoolInner;
  sy_threads : list Thread; sy_panic : option string }.

Definition thread_new (prog : list Act) : Thread := mkThread None 0 false prog.
Definition sleep (b : bool) (t : Thread) : Thread := mkThread (th_engine t) (th_held t) b (th_prog t).
Definition heads (a : Act) (t : Thread) : bool := bool_decide (head (th_prog t) = Some a).
Definition sleeps_on (a : Act) (t : Thread) : bool := th_asleep t && heads a t.

(** [Condvar::notify_one], waking the thread [w]; it is lost when nobody sleeps. *)
Definition notify_one (a : Act) (w : option nat) (ts : list Thread) : option (list Thread) :=
  match w with
  | Some i =>
      t ← ts !! i;
      if sleeps_on a t then Some (<[i := sleep false t]> ts) else None
  | None => if existsb (sleeps_on a) ts then None else Some ts
  end.

(** One turn of thread [i]: its next critical section, up to the end or up to
    the wait. A panic poisons the mutex and ends the run. *)
Definition run_thread (i : nat) (w : option nat) (s : Sys) : option Sys :=
  let '(mkSys c p ts panic) := s in
  t ← ts !! i;
  match panic, th_asleep t, th_prog t with
  | None, false, Acquire :: rest =>
      if acquire_waits c then Some (mkSys c p (<[i := sleep true t]> ts) None)
      else
        let '(id, c') := acquire c in
        Some (mkSys c' p (<[i := mkThread (Some id) (th_held t) false rest]> ts) None)
  | None, false, Take :: rest =>
      id ← th_engine t;
      if take_waits id p then Some (mkSys c p (<[i := sleep true t]> ts) None)
      else match take id p with
           | Ok p' => Some (mkSys c p' (<[i := mkThread (Some id) (th_held t + 1) false rest]> ts) None)
           | Err msg => Some (mkSys c p ts (Some msg))
           end
  | None, false, Put :: rest =>
      let '(p', notify) := put p in
      let ts' := <[i := mkThread (th_engine t) (th_held t - 1) false rest]> ts in
      if notify then ts'' ← notify_one Take w ts'; Some (mkSys c p' ts'' None)
      else Some (mkSys c p' ts' None)
  | None, false, Release :: rest =>
      ts' ← notify_one Acquire w (<[i := mkThread None (th_held t) false rest]> ts);
      Some (mkSys (release c) p ts' None)
  | _, _, _ => None
  end.

Inductive Label := Run (i : nat) (w : option nat) | Spurious (i : nat).

Definition step (l : Label) (s : Sys) : option Sys :=
  match l with
  | Run i w => run_thread i w s
  | Spurious i =>
      t ← sy_threads s !! i;
      if th_asleep t then Some (mkSys (sy_conc s) (sy_pool s) (<[i := sleep false t]> (sy_threads s)) (sy_panic s))
      else None
  end.

Fixpoint steps (ls : list Label) (s : Sys) : option Sys :=
  match ls with [] => Some s | l :: ls => s' ← step l s; steps ls s' end.

(** A program an executor runs: nested frames, at most [L] at once, between
    acquiring and dropping an engine; nothing is left over at the end. *)
Fixpoint prog_ok (L : Z) (engine : bool) (held : Z) (prog : list Act) : bool :=
  match prog with
  | [] => negb engine && (held =? 0)
  | Acquire :: rest => negb engine && (held =? 0) && prog_ok L true 0 rest
  | Take :: rest => engine && (held <? L) && prog_ok L engine (held + 1) rest
  | Put :: rest => engine && (0 <? held) && prog_ok L engine (held - 1) rest
  | Release :: rest => engine && (held =? 0) && prog_ok L false 0 rest
  end.

Definition is_run (l : Label) : bool := match l with Run _ _ => true | Spurious _ => false end.
Definition done (t : Thread) : Prop := th_prog t = [] ∧ th_asleep t = false ∧ th_engine t = None.

(** ** Sums over threads *)

Section sums.
Context {A : Type}.
Implicit Types f : A → Z.

Definition sum_of f (l : list A) : Z := foldr (λ x s, f x + s) 0 l.

Lemma sum_of_insert f l i x y : l !! i = Some x → sum_of f (<[i := y]> l) = sum_of f l - f x + f y.
Proof.
  revert i; induction l as [|z l IH]; intros [|i] Hi; simplify_eq/=; [lia|].
  rewrite (IH _ Hi). lia.
Qed.

Lemma sum_of_nonneg f l : Forall (λ x, 0 ≤ f x) l → 0 ≤ sum_of f l.
Proof. induction 1; simpl; lia. Qed.

Lemma sum_of_lookup f l i x : Forall (λ x, 0 ≤ f x) l → l !! i = Some x → f x ≤ sum_of f l.
Proof.
  intros Hf. revert i; induction Hf as [|z l Hz Hf IH]; intros [|i] Hi; simplify_eq/=.
  - pose proof (sum_of_nonneg f l Hf). lia.
  - specialize (IH _ Hi). lia.
Qed.

Lemma sum_of_zero f l : Forall (λ x, f x = 0) l → sum_of f l = 0.
Proof. induction 1; simpl; lia. Qed.

Lemma sum_of_pos f l : 0 < sum_of f l → ∃ i x, l !! i = Some x ∧ 0 < f x.
Proof.
  induction l as [|z l IH]; simpl; [lia|]. intros Hp.
  destruct (decide (0 < f z)) as [Hz|Hz]; [by exists 0%nat, z|].
  destruct IH as (i & x & Hi & Hx); [lia|]. by exists (S i), x.
Qed.
End sums.

Definition b2z (b : bool) : Z := if b then 1 else 0.

Lemma b2z_bounds b : 0 ≤ b2z b ≤ 1.
Proof. destruct b; simpl; lia. Qed.

Lemma number_nonneg {A} (f : A → bool) l : 0 ≤ sum_of (λ x, b2z (f x)) l.
Proof. apply sum_of_nonneg, Forall_true. intros. apply b2z_bounds. Qed.

Lemma existsb_sum {A} (f : A → bool) l : existsb f l = false ↔ sum_of (λ x, b2z (f x)) l = 0.
Proof.
  induction l as [|x l IH]; simpl; [done|].
  pose proof (number_nonneg f l).
  rewrite orb_false_iff, IH. destruct (f x); simpl; [|tauto]. split; [by intros []|lia].
Qed.

(** ** The invariant *)

Definition has_engine (t : Thread) : bool := match th_engine t with Some _ => true | None => false end.
Definition acquires (t : Thread) : Z := Z.of_nat (length (filter (λ a, a = Acquire) (th_prog t))).
Definition held (ts : list Thread) : Z := sum_of th_held ts.
Definition engines (ts : list Thread) : Z := sum_of (λ t, b2z (has_engine t)) ts.
Definition asleep (a : Act) (ts : list Thread) : Z := sum_of (λ t, b2z (sleeps_on a t)) ts.
Definition awake (a : Act) (ts : list Thread) : Z := sum_of (λ t, b2z (negb (th_asleep t) && heads a t)) ts.

Record thread_ok (L next : Z) (lk : option Z) (t : Thread) : Prop := {
  to_prog : prog_ok L (has_engine t) (th_held t) (th_prog t) = true;
  to_held : 0 ≤ th_held t ≤ L;
  to_sleep : th_asleep t = true → heads Acquire t = true ∨ heads Take t = true;
  to_id id : th_engine t = Some id → 0 ≤ id < next;
  to_lock id : th_engine t = Some id → sleeps_on Take t = true → lk ≠ Some id;
}.

(** Instances and engines are conserved, ids are fresh and unique, and the pool
    is locked exactly while it could not serve a whole call stack: the owner is
    a live engine for which enough instances remain. *)
Record pool_core (T L C : Z) (c : EngineConcurrencyInner) (p : InstancePoolInner) (ts : list Thread) : Prop := {
  pc_limit : per_engine_limit p = L;
  pc_sum : available p + held ts = T;
  pc_conc : limit c + engines ts = C;
  pc_conc_nonneg : 0 ≤ limit c;
  pc_next : 0 ≤ next_id c ∧ next_id c + sum_of acquires ts < 2 ^ 64;
  pc_threads i t : ts !! i = Some t → thread_ok L (next_id c) (locked p) t;
  pc_unique i j t t' id :
    ts !! i = Some t → ts !! j = Some t' → th_engine t = Some id → th_engine t' = Some id → i = j;
  pc_lock :
    match locked p with
    | None => L ≤ available p
    | Some id =>
        available p < L ∧
        ∃ i t, ts !! i = Some t ∧ th_engine t = Some id ∧ L ≤ available p + th_held t
    end;
}.

(** No wake-up is lost: as long as the pool is open, either nobody sleeps or
    enough threads are on their way to take what is free. *)
Definition wakes (L : Z) (c : EngineConcurrencyInner) (p : InstancePoolInner) (ts : list Thread) : Prop :=
  (locked p = None → asleep Take ts = 0 ∨ available p - L + 1 ≤ awake Take ts) ∧
  (asleep Acquire ts = 0 ∨ limit c ≤ awake Acquire ts).

Record pool_inv (T L C : Z) (s : Sys) : Prop := {
  pi_core : pool_core T L C (sy_conc s) (sy_pool s) (sy_threads s);
  pi_wakes : wakes L (sy_conc s) (sy_pool s) (sy_threads s);
  pi_panic : sy_panic s = None;
}.

Section invariant.
Context (T L C : Z).
Context (HL : 0 < L ≤ T) (HT : T < 2 ^ 32) (HC : 0 < C < 2 ^ 32).
Implicit Types (t u : Thread) (ts : list Thread).

Lemma all_held c p ts : pool_core T L C c p ts → Forall (λ t, 0 ≤ th_held t) ts.
Proof.
  intros Hc. apply Forall_lookup. intros i t Hi. apply (to_held _ _ _ _ (pc_threads _ _ _ _ _ _ Hc i t Hi)).
Qed.

Lemma held_nonneg c p ts : pool_core T L C c p ts → 0 ≤ held ts.
Proof. intros Hc. by eapply sum_of_nonneg, all_held. Qed.

Lemma available_bounds c p ts : pool_core T L C c p ts → 0 ≤ available p ≤ T.
Proof.
  intros Hc. pose proof (held_nonneg _ _ _ Hc). pose proof (pc_sum _ _ _ _ _ _ Hc).
  split; [|lia]. pose proof (pc_lock _ _ _ _ _ _ Hc) as Hl.
  destruct (locked p); [|lia]. destruct Hl as (_ & i & t & Hi & _ & Hle).
  pose proof (to_held _ _ _ _ (pc_threads _ _ _ _ _ _ Hc i t Hi)). lia.
Qed.

Lemma engines_nonneg ts : 0 ≤ engines ts.
Proof. apply number_nonneg. Qed.

Lemma asleep_nonneg a ts : 0 ≤ asleep a ts.
Proof. apply number_nonneg. Qed.
Lemma awake_nonneg a ts : 0 ≤ awake a ts.
Proof. apply number_nonneg. Qed.

(** Replacing one thread, with the monitors its step changed. *)
Lemma core_replace c p ts i t c' p' t' :
  pool_core T L C c p ts → ts !! i = Some t →
  per_engine_limit p' = L →
  available p' + th_held t' = available p + th_held t →
  limit c' + b2z (has_engine t') = limit c + b2z (has_engine t) → 0 ≤ limit c' →
  next_id c ≤ next_id c' → next_id c' + acquires t' ≤ next_id c + acquires t →
  thread_ok L (next_id c') (locked p') t' →
  (th_engine t' = th_engine t ∨ th_engine t' = None ∨ th_engine t' = Some (next_id c)) →
  (locked p' = locked p ∨ locked p' = None ∨ (locked p' = th_engine t ∧ th_engine t' = th_engine t)) →
  match locked p' with
  | None => L ≤ available p'
  | Some id => available p' < L ∧
      (th_engine t' = Some id ∧ L ≤ available p' + th_held t' ∨
       locked p = Some id ∧ th_engine t ≠ Some id ∧ available p ≤ available p')
  end →
  pool_core T L C c' p' (<[i := t']> ts).
Proof.
  intros Hc Hi Hlim Hav Hlc Hlc0 Hn Hn' Hok Heng Hlk Hlock.
  pose proof (pc_next _ _ _ _ _ _ Hc) as [Hn0 Hacq].
  assert (Hid : ∀ j u id, ts !! j = Some u → th_engine u = Some id → id ≠ next_id c).
  { intros j u id Hj Hu ->. pose proof (to_id _ _ _ _ (pc_threads _ _ _ _ _ _ Hc j u Hj) _ Hu). lia. }
  split; unfold held, engines; rewrite ?(sum_of_insert _ _ _ _ _ Hi); try done.
  - pose proof (pc_sum _ _ _ _ _ _ Hc). unfold held in *. lia.
  - pose proof (pc_conc _ _ _ _ _ _ Hc). unfold engines in *. lia.
  - lia.
  - intros j u. rewrite list_lookup_insert_Some. intros [(<- & <- & _)|[Hji Hj]]; [done|].
    destruct (pc_threads _ _ _ _ _ _ Hc j u Hj) as [H1 H2 H3 H4 H5]. split; try done.
    + intros id Hu. specialize (H4 _ Hu). lia.
    + intros id Hu Hs. destruct Hlk as [->| [->| [-> _]]]; [by eapply H5|done|].
      intros Ht. apply Hji. symmetry. by eapply (pc_unique _ _ _ _ _ _ Hc).
  - intros j k u v id. rewrite !list_lookup_insert_Some.
    intros [(<- & <- & _)|[Hji Hj]] [(<- & <- & _)|[Hki Hk]] Hu Hv; [done|..].
    + exfalso. destruct Heng as [He|[He|He]]; rewrite He in Hu; simplify_eq.
      * apply Hki. by eapply (pc_unique _ _ _ _ _ _ Hc).
      * by eapply Hid.
    + exfalso. destruct Heng as [He|[He|He]]; rewrite He in Hv; simplify_eq.
      * apply Hji. by eapply (pc_unique _ _ _ _ _ _ Hc).
      * by eapply Hid.
    + by eapply (pc_unique _ _ _ _ _ _ Hc).
  - destruct (locked p') as [id|]; [|done]. destruct Hlock as [Hlt [[He Hle]|(Hl & Hne & Hle)]].
    + split; [done|]. exists i, t'. rewrite list_lookup_insert_eq; [done|]. by eapply lookup_lt_Some.
    + split; [done|]. pose proof (pc_lock _ _ _ _ _ _ Hc) as Hp. rewrite Hl in Hp.
      destruct Hp as (_ & j & u & Hj & Hu & Hge). exists j, u.
      rewrite list_lookup_insert_ne by (intros ->; congruence). split_and!; [done..|lia].
Qed.

(** The owner of the lock has what it needs. *)
Lemma lock_owner c p ts i t id :
  pool_core T L C c p ts → locked p = Some id → ts !! i = Some t → th_engine t = Some id →
  available p < L ≤ available p + th_held t.
Proof.
  intros Hc Hl Hi Ht. pose proof (pc_lock _ _ _ _ _ _ Hc) as Hp. rewrite Hl in Hp.
  destruct Hp as (Hlt & j & u & Hj & Hu & Hle).
  assert (j = i) as -> by (by eapply (pc_unique _ _ _ _ _ _ Hc)). simplify_eq. lia.
Qed.

Lemma core_sleep b c p ts i t :
  pool_core T L C c p ts → ts !! i = Some t → thread_ok L (next_id c) (locked p) (sleep b t) →
  pool_core T L C c p (<[i := sleep b t]> ts).
Proof.
  intros Hc Hi Hok. eapply core_replace; eauto using pc_limit, pc_conc_nonneg; try reflexivity.
  pose proof (pc_lock _ _ _ _ _ _ Hc) as Hp. destruct (locked p) as [id|] eqn:Hl; [|done].
  split; [lia|]. destruct (decide (th_engine t = Some id)) as [Ht|Ht]; [left|right; done].
  pose proof (lock_owner _ _ _ _ _ _ Hc Hl Hi Ht). split; [done|]. simpl. lia.
Qed.

Lemma thread_ok_awake n lk t : thread_ok L n lk t → thread_ok L n lk (sleep false t).
Proof. intros [? ? ? ? ?]. by split. Qed.

Lemma core_wake c p ts i t :
  pool_core T L C c p ts → ts !! i = Some t → pool_core T L C c p (<[i := sleep false t]> ts).
Proof. intros Hc Hi. eapply core_sleep; eauto using thread_ok_awake, pc_threads. Qed.

(** Counting sleepers and takers. *)
Lemma heads_ne a b t : heads a t = true → a ≠ b → heads b t = false.
Proof. unfold heads. rewrite bool_decide_eq_true, bool_decide_eq_false. congruence. Qed.

Lemma sleep_counts (b : bool) a ts i t :
  ts !! i = Some t → th_asleep t = negb b → heads a t = true →
  asleep a (<[i := sleep b t]> ts) = asleep a ts + (if b then 1 else -1) ∧
  awake a (<[i := sleep b t]> ts) = awake a ts - (if b then 1 else -1) ∧
  ∀ a', a ≠ a' → asleep a' (<[i := sleep b t]> ts) = asleep a' ts ∧ awake a' (<[i := sleep b t]> ts) = awake a' ts.
Proof.
  intros Hi Hs Hh. unfold asleep, awake. rewrite !(sum_of_insert _ _ _ _ _ Hi). unfold sleeps_on.
  change (heads a (sleep b t)) with (heads a t). rewrite Hs, Hh. split_and!; [destruct b; simpl; lia..|].
  intros a' Ha. rewrite !(sum_of_insert _ _ _ _ _ Hi).
  change (heads a' (sleep b t)) with (heads a' t). rewrite (heads_ne _ _ _ Hh Ha), !andb_false_r. lia.
Qed.

(** A thread that passes its critical section. *)
Lemma pop_counts a ts i t t' rest :
  ts !! i = Some t → th_asleep t = false → th_prog t = a :: rest → th_asleep t' = false →
  (∀ a', asleep a' (<[i := t']> ts) = asleep a' ts) ∧ awake a ts - 1 ≤ awake a (<[i := t']> ts) ∧
  ∀ a', a ≠ a' → awake a' ts ≤ awake a' (<[i := t']> ts).
Proof.
  intros Hi Hs Hp Hs'. assert (Hh : heads a t = true) by (unfold heads; rewrite Hp; by apply bool_decide_true).
  unfold asleep, awake, sleeps_on. rewrite !(sum_of_insert _ _ _ _ _ Hi).
  split_and!; [intros a'|..|intros a' Ha]; rewrite ?(sum_of_insert _ _ _ _ _ Hi), ?Hs, ?Hs', ?Hh; simpl; try lia.
  - pose proof (b2z_bounds (heads a t')). lia.
  - rewrite (heads_ne _ _ _ Hh Ha). pose proof (b2z_bounds (heads a' t')). simpl. lia.
Qed.

Lemma notify_cases a w ts ts' :
  notify_one a w ts = Some ts' →
  (ts' = ts ∧ asleep a ts = 0) ∨
  ∃ j u, ts !! j = Some u ∧ sleeps_on a u = true ∧ ts' = <[j := sleep false u]> ts.
Proof.
  unfold notify_one. destruct w as [j|].
  - destruct (ts !! j) as [u|] eqn:Hj; simpl; [|done]. destruct (sleeps_on a u) eqn:Hs; [|done].
    intros [= <-]. right. eauto.
  - destruct (existsb (sleeps_on a) ts) eqn:He; [done|]. intros [= <-]. left.
    split; [done|]. by apply existsb_sum.
Qed.

Lemma notify_core c p a w ts ts' :
  pool_core T L C c p ts → notify_one a w ts = Some ts' → pool_core T L C c p ts'.
Proof. intros Hc [[-> _]|(j & u & Hj & _ & ->)]%notify_cases; eauto using core_wake. Qed.

Lemma notify_counts a w ts ts' :
  notify_one a w ts = Some ts' →
  (asleep a ts' = 0 ∨ 0 < asleep a ts ∧ awake a ts' = awake a ts + 1) ∧
  ∀ a', a ≠ a' → asleep a' ts' = asleep a' ts ∧ awake a' ts' = awake a' ts.
Proof.
  intros [[-> H]|(j & u & Hj & Hu & ->)]%notify_cases; [auto|].
  pose proof Hu as Hs. unfold sleeps_on in Hs. apply andb_true_iff in Hs as [Hs Hh].
  destruct (sleep_counts false a ts j u Hj Hs Hh) as (? & ? & ?). split; [right|done].
  pose proof (asleep_nonneg a (<[j := sleep false u]> ts)). lia.
Qed.

(** ** Every step keeps the invariant *)

Lemma acquire_step c p ts i t rest :
  pool_core T L C c p ts → wakes L c p ts → ts !! i = Some t → th_asleep t = false →
  th_prog t = Acquire :: rest → acquire_waits c = false →
  pool_inv T L C (mkSys (acquire c).2 p (<[i := mkThread (Some (next_id c)) (th_held t) false rest]> ts) None).
Proof.
  intros Hc [Hw1 Hw2] Hi Hs Hp Hwait. apply Z.eqb_neq in Hwait.
  pose proof (pc_threads _ _ _ _ _ _ Hc i t Hi) as [Hprog Hheld _ _ _].
  pose proof (pc_next _ _ _ _ _ _ Hc) as [Hn0 Hn]. pose proof (pc_conc_nonneg _ _ _ _ _ _ Hc).
  pose proof (pc_conc _ _ _ _ _ _ Hc). pose proof (engines_nonneg ts).
  rewrite Hp in Hprog. simpl in Hprog. apply andb_true_iff in Hprog as [[He Hh]%andb_true_iff Hprog].
  assert (Hacq : acquires t = 1 + acquires (mkThread (Some (next_id c)) (th_held t) false rest)).
  { unfold acquires. rewrite Hp, filter_cons_True by done. cbn [length th_prog]. lia. }
  pose proof (sum_of_lookup acquires ts i t ltac:(apply Forall_true; intros; unfold acquires; lia) Hi).
  assert (Hw64 : wrap64 (next_id c + 1) = next_id c + 1).
  { apply wrap64_small. unfold acquires in *. mlia. }
  assert (Hw32 : wrap32 (limit c - 1) = limit c - 1) by (apply wrap32_small; mlia).
  unfold has_engine in He. destruct (th_engine t) as [|] eqn:Ht; [done|]. apply Z.eqb_eq in Hh. rewrite Hh in Hacq.
  destruct (pop_counts Acquire ts i t (mkThread (Some (next_id c)) (th_held t) false rest) rest) as (Ha & Hp' & Hb); [done..|].
  split; simpl; [|split|done].
  - eapply core_replace; eauto using pc_limit; simpl; rewrite ?Hw32, ?Hw64, ?Hh; unfold has_engine;
      rewrite ?Ht; simpl; try lia; eauto.
    + split; simpl; try done; [lia|]. intros id [= <-]. lia.
    + pose proof (pc_lock _ _ _ _ _ _ Hc) as Hl. destruct (locked p); [|done]. split; [lia|]. right. by rewrite ?Ht.
  - intros Hl. rewrite Ha. specialize (Hb Take ltac:(done)). destruct (Hw1 Hl); lia.
  - rewrite Ha, Hw32. simpl. destruct Hw2; lia.
Qed.

(** A thread whose condition holds goes to sleep. *)
Lemma sleep_step a c p ts i t :
  pool_core T L C c p ts → wakes L c p ts → ts !! i = Some t → th_asleep t = false → heads a t = true →
  (a = Acquire ∧ limit c = 0 ∨ a = Take ∧ ∃ id, th_engine t = Some id ∧ take_waits id p = true) →
  pool_inv T L C (mkSys c p (<[i := sleep true t]> ts) None).
Proof.
  intros Hc [Hw1 Hw2] Hi Hs Hh Hcond. pose proof (pc_threads _ _ _ _ _ _ Hc i t Hi) as [H1 H2 H3 H4 H5].
  destruct (sleep_counts true a ts i t Hi Hs Hh) as (Hm1 & Hm2 & Hm3).
  destruct Hcond as [[-> Hl]|[-> (id & Ht & Hl)]].
  - destruct (Hm3 Take ltac:(done)) as [Hm4 Hm5]. split; simpl; [|split|done].
    + eapply core_sleep; eauto. split; simpl; eauto. intros id Ht [_ Hx]%andb_true_iff.
      unfold heads in *. simpl in *. rewrite bool_decide_eq_true in Hh, Hx. congruence.
    + intros Hk. rewrite Hm4, Hm5. auto.
    + right. rewrite Hl. apply awake_nonneg.
  - destruct (Hm3 Acquire ltac:(done)) as [Hm4 Hm5]. unfold take_waits in Hl.
    apply negb_true_iff, Z.eqb_neq in Hl. split; simpl; [|split|done].
    + eapply core_sleep; eauto. split; simpl; eauto.
      intros id' Ht' _ Hk. rewrite Hk in Hl. simplify_eq/=.
    + intros Hk. rewrite Hk in Hl. done.
    + by rewrite Hm4, Hm5.
Qed.

(** The assertion of [take] holds, and the pool is locked when it runs low. *)
Lemma take_step c p ts i t id rest :
  pool_core T L C c p ts → wakes L c p ts → ts !! i = Some t → th_asleep t = false →
  th_prog t = Take :: rest → th_engine t = Some id → take_waits id p = false →
  ∃ p', take id p = Ok p' ∧
    pool_inv T L C (mkSys c p' (<[i := mkThread (Some id) (th_held t + 1) false rest]> ts) None).
Proof.
  intros Hc [Hw1 Hw2] Hi Hs Hp Ht Hwait. apply negb_false_iff, Z.eqb_eq in Hwait.
  pose proof (pc_threads _ _ _ _ _ _ Hc i t Hi) as [Hprog Hheld _ Hid _].
  unfold has_engine in Hprog. rewrite Hp, Ht in Hprog. simpl in Hprog.
  apply andb_true_iff in Hprog as [Hlt Hprog]. apply Z.ltb_lt in Hlt.
  pose proof (available_bounds _ _ _ Hc) as Hav. pose proof (pc_limit _ _ _ _ _ _ Hc) as Hpl.
  assert (Hcase : (locked p = Some id ∧ available p < L ≤ available p + th_held t) ∨ (locked p = None ∧ L ≤ available p)).
  { pose proof (pc_lock _ _ _ _ _ _ Hc) as Hl. destruct (locked p) as [x|] eqn:Hk; simpl in Hwait; [left; subst x|by right].
    split; [done|]. by eapply lock_owner. }
  unfold take. destruct (Z.ltb_spec 0 (available p)); [|lia]. eexists. split; [done|].
  rewrite (wrap32_small (available p - 1)) by mlia. rewrite Hpl.
  assert (Hacq : acquires (mkThread (Some id) (th_held t + 1) false rest) = acquires t).
  { unfold acquires. by rewrite Hp, filter_cons_False. }
  destruct (pop_counts Take ts i t (mkThread (Some id) (th_held t + 1) false rest) rest) as (Ha & Hp' & Hb); [done..|].
  split; simpl; [|split; simpl|done].
  - eapply core_replace; eauto using pc_conc_nonneg; simpl; unfold has_engine; rewrite ?Ht, ?Hacq; try lia; eauto.
    + split; simpl; try done; [lia|]. intros x [= <-]. auto.
    + case_tests; [right; right; done|left; done].
    + destruct (Z.ltb_spec (available p - 1) L) as [|].
      * split; [lia|]. left. split; [done|]. destruct Hcase; lia.
      * destruct Hcase as [[-> ?]|[-> ?]]; lia.
  - intros Hl. rewrite Ha. destruct (Z.ltb_spec (available p - 1) L) as [|]; [done|]. destruct (Hw1 Hl); lia.
  - rewrite Ha. specialize (Hb Acquire ltac:(done)). destruct Hw2; lia.
Qed.

Lemma put_core c p ts i t rest :
  pool_core T L C c p ts → ts !! i = Some t → th_prog t = Put :: rest →
  pool_core T L C c (put p).1 (<[i := mkThread (th_engine t) (th_held t - 1) false rest]> ts) ∧
  available (put p).1 = available p + 1 ∧ (put p).2 = (L <=? available p + 1) ∧
  (L ≤ available p + 1 → locked (put p).1 = None) ∧ (available p + 1 < L → is_Some (locked (put p).1)).
Proof.
  intros Hc Hi Hp. pose proof (pc_threads _ _ _ _ _ _ Hc i t Hi) as [Hprog Hheld _ Hid _].
  rewrite Hp in Hprog. simpl in Hprog. apply andb_true_iff in Hprog as [[He Hlt]%andb_true_iff Hprog].
  apply Z.ltb_lt in Hlt. pose proof (available_bounds _ _ _ Hc) as Hav. pose proof (pc_limit _ _ _ _ _ _ Hc) as Hpl.
  pose proof (pc_sum _ _ _ _ _ _ Hc) as Hsum.
  pose proof (sum_of_lookup th_held ts i t (all_held _ _ _ Hc) Hi) as Hlt'. fold (held ts) in Hlt'.
  assert (Hacq : acquires (mkThread (th_engine t) (th_held t - 1) false rest) = acquires t).
  { unfold acquires. by rewrite Hp, filter_cons_False. }
  unfold put. rewrite (wrap32_small (available p + 1)), Hpl by mlia.
  pose proof (pc_lock _ _ _ _ _ _ Hc) as Hl.
  destruct (Z.leb_spec L (available p + 1)) as [Hle|Hle]; simpl; split_and!; try done; try (by intros; lia).
  - eapply core_replace; eauto using pc_conc_nonneg; simpl; rewrite ?Hacq; try lia; eauto.
    split; simpl; try done; lia.
  - eapply core_replace; eauto using pc_conc_nonneg; simpl; rewrite ?Hacq; try lia; eauto.
    + split; simpl; try done; lia.
    + destruct (locked p) as [id|] eqn:Hk; [|lia]. split; [lia|].
      destruct (decide (th_engine t = Some id)) as [Ht|Ht]; [left|right; split_and!; [done..|lia]].
      pose proof (lock_owner _ _ _ _ _ _ Hc Hk Hi Ht). split; [done|lia].
  - intros _. destruct (locked p); [done|lia].
Qed.

Lemma put_step c p ts i w t rest s' :
  pool_core T L C c p ts → wakes L c p ts → ts !! i = Some t → th_asleep t = false →
  th_prog t = Put :: rest →
  run_thread i w (mkSys c p ts None) = Some s' → pool_inv T L C s'.
Proof.
  intros Hc [Hw1 Hw2] Hi Hs Hp. unfold run_thread. rewrite Hi. simpl. rewrite Hs, Hp.
  destruct (put_core c p ts i t rest Hc Hi Hp) as (Hc' & Hav & Hn & Ho & Hk).
  destruct (pop_counts Put ts i t (mkThread (th_engine t) (th_held t - 1) false rest) rest) as (Ha & _ & Hb); [done..|].
  pose proof (Hb Take ltac:(done)) as HbT. pose proof (Hb Acquire ltac:(done)) as HbA.
  pose proof (pc_lock _ _ _ _ _ _ Hc) as Hl.
  destruct (put p) as [p' n]; simpl in *. subst n.
  destruct (Z.leb_spec L (available p + 1)) as [Hle|Hle].
  - destruct (notify_one Take w _) as [ts''|] eqn:Hnot; simpl; [|done]. intros [= <-].
    destruct (notify_counts _ _ _ _ Hnot) as [HT' HA]. destruct (HA Acquire ltac:(done)) as [HA1 HA2].
    split; simpl; [by eapply notify_core|split; simpl|done].
    + intros _. destruct HT' as [|[Hpos HT']]; [by left|right]. rewrite HT', Hav. rewrite Ha in Hpos.
      pose proof (awake_nonneg Take ts). destruct (locked p) eqn:Hlk; [lia|]. destruct (Hw1 eq_refl); lia.
    + rewrite HA1, HA2, Ha. destruct Hw2; lia.
  - intros [= <-]. split; simpl; [done|split; simpl|done].
    + intros Hx. destruct (Hk Hle). congruence.
    + rewrite Ha. destruct Hw2; lia.
Qed.

Lemma release_step c p ts i w t rest s' :
  pool_core T L C c p ts → wakes L c p ts → ts !! i = Some t → th_asleep t = false →
  th_prog t = Release :: rest →
  run_thread i w (mkSys c p ts None) = Some s' → pool_inv T L C s'.
Proof.
  intros Hc [Hw1 Hw2] Hi Hs Hp. unfold run_thread. rewrite Hi. simpl. rewrite Hs, Hp.
  pose proof (pc_threads _ _ _ _ _ _ Hc i t Hi) as [Hprog Hheld _ _ _]. rewrite Hp in Hprog. simpl in Hprog.
  apply andb_true_iff in Hprog as [[He Hh]%andb_true_iff Hprog]. apply Z.eqb_eq in Hh.
  pose proof (pc_conc _ _ _ _ _ _ Hc) as Hcc. pose proof (pc_conc_nonneg _ _ _ _ _ _ Hc).
  pose proof (sum_of_lookup (λ t, b2z (has_engine t)) ts i t
    ltac:(apply Forall_true; intros; apply b2z_bounds) Hi) as Hge. simpl in Hge. rewrite He in Hge.
  fold (engines ts) in Hge. simpl in Hge.
  assert (Hw32 : wrap32 (limit c + 1) = limit c + 1) by (apply wrap32_small; mlia).
  destruct (pop_counts Release ts i t (mkThread None (th_held t) false rest) rest) as (Ha & _ & Hb); [done..|].
  pose proof (Hb Take ltac:(done)) as HbT. pose proof (Hb Acquire ltac:(done)) as HbA.
  assert (Hc' : pool_core T L C (release c) p (<[i := mkThread None (th_held t) false rest]> ts)).
  { eapply core_replace; eauto using pc_limit; simpl; rewrite ?Hw32, ?He; simpl; try lia; eauto.
    - unfold acquires. simpl. rewrite Hp, filter_cons_False by done. lia.
    - split; simpl; rewrite ?Hh; try done; lia.
    - pose proof (pc_lock _ _ _ _ _ _ Hc) as Hl. destruct (locked p) as [id|] eqn:Hk; [|done].
      split; [lia|right]. split; [done|]. split; [|lia]. intros Ht.
      pose proof (lock_owner _ _ _ _ _ _ Hc Hk Hi Ht). lia. }
  destruct (notify_one Acquire w _) as [ts'|] eqn:Hnot; simpl; [|done]. intros [= <-].
  destruct (notify_counts _ _ _ _ Hnot) as [HT' HA]. destruct (HA Take ltac:(done)) as [HA1 HA2].
  split; simpl; [by eapply notify_core|split; simpl|done].
  - intros Hl. rewrite HA1, HA2, Ha. destruct (Hw1 Hl); lia.
  - destruct HT' as [|[Hpos HT']]; [by left|right]. rewrite HT', Hw32. rewrite Ha in Hpos. destruct Hw2; lia.
Qed.

Lemma run_inv i w s s' : pool_inv T L C s → run_thread i w s = Some s' → pool_inv T L C s'.
Proof.
  destruct s as [c p ts pn]. intros [Hc Hw Hpn]; simpl in Hc, Hw, Hpn; subst pn. intros Hrun. pose proof Hrun as Hrun'.
  unfold run_thread in Hrun. destruct (ts !! i) as [t|] eqn:Hi; simpl in Hrun; [|done].
  destruct (th_asleep t) eqn:Hs; [done|]. destruct (th_prog t) as [|[] rest] eqn:Hp; [done|..].
  - destruct (acquire_waits c) eqn:Hwait; simplify_eq.
    + apply (sleep_step Acquire); try done; [by unfold heads; rewrite Hp; apply bool_decide_true|].
      left. split; [done|]. by apply Z.eqb_eq.
    + by apply (acquire_step c p ts i t rest).
  - destruct (th_engine t) as [id|] eqn:Ht; simpl in Hrun; [|done]. destruct (take_waits id p) eqn:Hwait; simplify_eq.
    + apply (sleep_step Take); try done; [by unfold heads; rewrite Hp; apply bool_decide_true|]. right. eauto.
    + destruct (take_step c p ts i t id rest) as (p' & Htk & Hinv); try done. rewrite Htk in Hrun. by simplify_eq.
  - by apply (put_step c p ts i w t rest).
  - by apply (release_step c p ts i w t rest).
Qed.

Lemma step_inv l s s' : pool_inv T L C s → step l s = Some s' → pool_inv T L C s'.
Proof.
  destruct l as [i w|i]; simpl; [apply run_inv|]. intros [Hc [Hw1 Hw2] Hpn].
  destruct (sy_threads s !! i) as [t|] eqn:Hi; simpl; [|done]. destruct (th_asleep t) eqn:Hs; [|done].
  intros [= <-]. destruct (to_sleep _ _ _ _ (pc_threads _ _ _ _ _ _ Hc i t Hi) Hs) as [Hh|Hh].
  all: destruct (sleep_counts false _ _ i t Hi Hs Hh) as (H1 & H2 & H3).
  - destruct (H3 Take ltac:(done)) as [H4 H5]. split; simpl; [by apply core_wake|split; simpl|done].
    + by rewrite H4, H5.
    + destruct Hw2; [|lia]. pose proof (asleep_nonneg Acquire (<[i := sleep false t]> (sy_threads s))). lia.
  - destruct (H3 Acquire ltac:(done)) as [H4 H5]. split; simpl; [by apply core_wake|split; simpl|done].
    + intros Hl. destruct (Hw1 Hl); [|lia]. pose proof (asleep_nonneg Take (<[i := sleep false t]> (sy_threads s))). lia.
    + by rewrite H4, H5.
Qed.

Lemma steps_inv ls s s' : pool_inv T L C s → steps ls s = Some s' → pool_inv T L C s'.
Proof.
  revert s. induction ls as [|l ls IH]; intros s Hs; simpl; [by intros [= <-]|].
  destruct (step l s) as [s1|] eqn:H1; simpl; [|done]. eauto using step_inv.
Qed.

(** ** Progress *)

Lemma notify_some a ts : ∃ w ts', notify_one a w ts = Some ts'.
Proof.
  destruct (existsb (sleeps_on a) ts) eqn:He.
  - apply existsb_exists in He as (t & Hin & Ht). apply list_elem_of_In, list_elem_of_lookup in Hin as [i Hi].
    exists (Some i). simpl. rewrite Hi. simpl. rewrite Ht. eauto.
  - exists None, ts. simpl. by rewrite He.
Qed.

(** A thread that is awake and not at its end can take its turn. *)
Lemma run_enabled c p ts i t :
  pool_core T L C c p ts → ts !! i = Some t → th_asleep t = false → th_prog t ≠ [] →
  ∃ w s', run_thread i w (mkSys c p ts None) = Some s'.
Proof.
  intros Hc Hi Hs Hp. pose proof (to_prog _ _ _ _ (pc_threads _ _ _ _ _ _ Hc i t Hi)) as Hprog.
  unfold run_thread. rewrite Hi. simpl. rewrite Hs. destruct (th_prog t) as [|[] rest]; [done|..]; simpl in Hprog.
  - exists None. destruct (acquire_waits c); eauto.
  - exists None. unfold has_engine in Hprog. destruct (th_engine t) as [id|]; [|done]. simpl.
    destruct (take_waits id p); eauto. destruct (take id p); eauto.
  - destruct (put p) as [p' []]; [|by exists None; eauto].
    edestruct (notify_some Take) as (w & ts' & Hn). exists w. rewrite Hn. simpl. eauto.
  - edestruct (notify_some Acquire) as (w & ts' & Hn). exists w. rewrite Hn. simpl. eauto.
Qed.

Section stuck.
Context (c : EngineConcurrencyInner) (p : InstancePoolInner) (ts : list Thread).
Context (Hc : pool_core T L C c p ts) (Hw : wakes L c p ts).
Context (Hstuck : ∀ i t, ts !! i = Some t → th_asleep t = true ∨ th_prog t = []).

Lemma stuck_awake a : awake a ts = 0.
Proof.
  unfold awake. apply existsb_sum. apply not_true_iff_false. rewrite existsb_exists.
  intros (t & Hin & [Hs Hh]%andb_true_iff). apply list_elem_of_In, list_elem_of_lookup in Hin as [i Hi].
  apply negb_true_iff in Hs. unfold heads in Hh. rewrite bool_decide_eq_true in Hh.
  destruct (Hstuck i t Hi) as [?|Hp]; [congruence|]. by rewrite Hp in Hh.
Qed.

(** A thread with an engine sleeps in [take]. *)
Lemma stuck_engine i t id : ts !! i = Some t → th_engine t = Some id → sleeps_on Take t = true.
Proof.
  intros Hi Ht. pose proof (pc_threads _ _ _ _ _ _ Hc i t Hi) as [Hprog _ Hsl _ _].
  unfold has_engine in Hprog. rewrite Ht in Hprog.
  destruct (Hstuck i t Hi) as [Hs|Hp]; [|by rewrite Hp in Hprog]. unfold sleeps_on. rewrite Hs. simpl.
  destruct (Hsl Hs) as [Hh|Hh]; [|done]. unfold heads in Hh. rewrite bool_decide_eq_true in Hh.
  destruct (th_prog t) as [|a rest]; simplify_eq/=.
Qed.

Lemma stuck_unlocked : locked p = None.
Proof.
  destruct (locked p) as [id|] eqn:Hk; [|done]. pose proof (pc_lock _ _ _ _ _ _ Hc) as Hl. rewrite Hk in Hl.
  destruct Hl as (_ & i & t & Hi & Ht & _).
  destruct (to_lock _ _ _ _ (pc_threads _ _ _ _ _ _ Hc i t Hi) _ Ht (stuck_engine i t id Hi Ht) Hk).
Qed.

Lemma no_sleeper a i t : asleep a ts = 0 → ts !! i = Some t → sleeps_on a t = false.
Proof.
  intros Hz Hi. apply existsb_sum, not_true_iff_false in Hz. apply not_true_iff_false. intros Ht. apply Hz.
  apply existsb_exists. exists t. split; [|done]. by eapply list_elem_of_In, list_elem_of_lookup_2.
Qed.

Lemma stuck_asleep : asleep Take ts = 0 ∧ asleep Acquire ts = 0.
Proof.
  destruct Hw as [Hw1 Hw2]. specialize (Hw1 stuck_unlocked). rewrite (stuck_awake Take) in Hw1.
  rewrite (stuck_awake Acquire) in Hw2. pose proof (pc_lock _ _ _ _ _ _ Hc) as Hl. rewrite stuck_unlocked in Hl.
  assert (HzT : asleep Take ts = 0) by (destruct Hw1; lia). split; [done|]. destruct Hw2 as [|Hlim]; [done|]. exfalso.
  pose proof (pc_conc _ _ _ _ _ _ Hc). pose proof (pc_conc_nonneg _ _ _ _ _ _ Hc).
  destruct (sum_of_pos (λ t, b2z (has_engine t)) ts) as (i & t & Hi & Ht); [unfold engines in *; lia|].
  unfold has_engine in Ht. destruct (th_engine t) as [id|] eqn:He; simpl in Ht; [|lia].
  pose proof (stuck_engine i t id Hi He). rewrite (no_sleeper Take i t HzT Hi) in *. done.
Qed.

Lemma stuck_done : Forall (λ t, done t ∧ th_held t = 0) ts.
Proof.
  destruct stuck_asleep as [HT0 HA0]. apply Forall_lookup. intros i t Hi.
  pose proof (pc_threads _ _ _ _ _ _ Hc i t Hi) as [Hprog _ Hsl _ _].
  assert (Hs : th_asleep t = false).
  { apply not_true_iff_false. intros Hs. pose proof (no_sleeper Take i t HT0 Hi) as H1.
    pose proof (no_sleeper Acquire i t HA0 Hi) as H2. unfold sleeps_on in *. rewrite Hs in *. simpl in *.
    destruct (Hsl eq_refl); congruence. }
  destruct (Hstuck i t Hi) as [|Hp]; [congruence|]. rewrite Hp in Hprog. simpl in Hprog.
  apply andb_true_iff in Hprog as [He Hh]. apply Z.eqb_eq in Hh. unfold has_engine in He.
  destruct (th_engine t) eqn:Ht; [done|]. by repeat split.
Qed.

Lemma stuck_full : p = instance_pool_new T L ∧ limit c = C.
Proof.
  pose proof stuck_done as Hd. pose proof stuck_unlocked as Hu.
  assert (Hz : held ts = 0 ∧ engines ts = 0).
  { unfold held, engines. clear -Hd. induction Hd as [|t l [(_ & _ & He) Hh] _ [IH1 IH2]]; [done|]. simpl.
    unfold has_engine at 1. rewrite He. simpl. lia. }
  pose proof (pc_sum _ _ _ _ _ _ Hc). pose proof (pc_conc _ _ _ _ _ _ Hc). pose proof (pc_limit _ _ _ _ _ _ Hc).
  split; [|lia]. destruct p as [a l k]; simpl in *. subst. unfold instance_pool_new. f_equal. lia.
Qed.
End stuck.

Lemma progress s :
  pool_inv T L C s →
  (∃ i w s', run_thread i w s = Some s') ∨
  (Forall done (sy_threads s) ∧ sy_pool s = instance_pool_new T L ∧ limit (sy_conc s) = C).
Proof.
  destruct s as [c p ts pn]. intros [Hc Hw Hpn]; simpl in *; subst pn.
  destruct (decide (Exists (λ t, th_asleep t = false ∧ th_prog t ≠ []) ts)) as [He|He].
  - left. apply Exists_exists in He as (t & [i Hi]%list_elem_of_lookup & Hs & Hp). exists i. by eapply run_enabled.
  - right. apply not_Exists_Forall in He; [|solve_decision]. rewrite Forall_lookup in He.
    assert (Hst : ∀ i t, ts !! i = Some t → th_asleep t = true ∨ th_prog t = []).
    { intros i t Hi. specialize (He i t Hi). simpl in He. destruct (th_asleep t); [by left|right].
      destruct (th_prog t); [done|]. destruct He. by split. }
    split; [|exact (stuck_full c p ts Hc Hw Hst)].
    eapply Forall_impl; [exact (stuck_done c p ts Hc Hw Hst)|]. by intros t [].
Qed.
End invariant.

(** ** Every run ends *)

Definition weight (t : Thread) : Z := 2 * Z.of_nat (length (th_prog t)) + b2z (negb (th_asleep t)).
Definition work (ts : list Thread) : Z := sum_of weight ts.

Lemma notify_work a w ts ts' : notify_one a w ts = Some ts' → work ts' ≤ work ts + 1.
Proof.
  intros [[-> _]|(j & u & Hj & _ & ->)]%notify_cases; [lia|]. unfold work.
  rewrite (sum_of_insert _ _ _ _ _ Hj). unfold weight. simpl. pose proof (b2z_bounds (negb (th_asleep u))). lia.
Qed.

(** A turn uses up work: it shortens a program or puts a thread to sleep. *)
Lemma run_work i w s s' :
  run_thread i w s = Some s' → sy_panic s' = None → work (sy_threads s') + 1 ≤ work (sy_threads s).
Proof.
  destruct s as [c p ts pn]. unfold run_thread. destruct (ts !! i) as [t|] eqn:Hi; simpl; [|done].
  destruct pn; [done|]. destruct (th_asleep t) eqn:Hs; [done|].
  assert (Hpop : ∀ a rest e h, th_prog t = a :: rest → work (<[i := mkThread e h false rest]> ts) + 2 ≤ work ts).
  { intros a rest e h Hp. unfold work. rewrite (sum_of_insert _ _ _ _ _ Hi). unfold weight. simpl. rewrite Hp, Hs.
    simpl. lia. }
  assert (Hsleep : work (<[i := sleep true t]> ts) + 1 ≤ work ts).
  { unfold work. rewrite (sum_of_insert _ _ _ _ _ Hi). unfold weight. simpl. rewrite Hs. simpl. lia. }
  destruct (th_prog t) as [|[] rest] eqn:Hp; [done|..].
  - destruct (acquire_waits c); intros [= <-] _; simpl; [done|].
    specialize (Hpop _ _ (Some (next_id c)) (th_held t) eq_refl). lia.
  - destruct (th_engine t) as [id|]; simpl; [|done]. destruct (take_waits id p); [by intros [= <-]|].
    destruct (take id p); intros [= <-] Hn; simpl in *; [|done].
    specialize (Hpop _ _ (Some id) (th_held t + 1) eq_refl). lia.
  - specialize (Hpop _ _ (th_engine t) (th_held t - 1) eq_refl). destruct (put p) as [p' []].
    + destruct (notify_one _ _ _) as [ts'|] eqn:Hn; simpl; [|done]. apply notify_work in Hn.
      intros [= <-] _; simpl. lia.
    + intros [= <-] _; simpl. lia.
  - specialize (Hpop _ _ None (th_held t) eq_refl). destruct (notify_one _ _ _) as [ts'|] eqn:Hn; simpl; [|done].
    apply notify_work in Hn. intros [= <-] _; simpl. lia.
Qed.

Definition turns (ls : list Label) : Z := sum_of (λ l, b2z (is_run l)) ls.
Definition spurious (ls : list Label) : Z := sum_of (λ l, b2z (negb (is_run l))) ls.

Lemma steps_work T L C ls s s' :
  0 < L ≤ T → T < 2 ^ 32 → 0 < C < 2 ^ 32 → pool_inv T L C s →
  steps ls s = Some s' → turns ls + work (sy_threads s') ≤ work (sy_threads s) + spurious ls.
Proof.
  intros HL HT HC. revert s. induction ls as [|l ls IH]; intros s Hs; [intros [= <-]; unfold turns, spurious; simpl; lia|].
  simpl. destruct (step l s) as [s1|] eqn:H1; simpl; [|done]. intros Hls.
  pose proof (step_inv T L C HL HT HC _ _ _ Hs H1) as Hs1. specialize (IH _ Hs1 Hls).
  unfold turns, spurious in *. simpl. destruct l as [i w|i]; simpl in *.
  - pose proof (run_work _ _ _ _ H1 (pi_panic _ _ _ _ Hs1)). lia.
  - destruct (sy_threads s !! i) as [t|] eqn:Hi; simpl in H1; [|done]. destruct (th_asleep t) eqn:Ha; [|done].
    simplify_eq/=. unfold work in *. rewrite (sum_of_insert _ _ _ _ _ Hi) in IH. unfold weight in IH. simpl in IH.
    rewrite Ha in IH. simpl in IH. fold weight in IH. lia.
Qed.

(** The threads before they start. *)
Lemma init_inv T L C progs :
  0 < L ≤ T → 0 < C → Forall (λ prog, prog_ok L false 0 prog = true) progs →
  sum_of acquires (thread_new <$> progs) < 2 ^ 64 →
  pool_inv T L C (mkSys (concurrency_new C) (instance_pool_new T L) (thread_new <$> progs) None).
Proof.
  intros HL HC Hok Hacq.
  assert (Hz : ∀ f : Thread → Z, (∀ prog, f (thread_new prog) = 0) → sum_of f (thread_new <$> progs) = 0).
  { intros f Hf. apply sum_of_zero, Forall_fmap, Forall_true. done. }
  split; simpl; [split; simpl|split; simpl|done]; unfold held, engines, asleep; rewrite ?Hz by done; try done; try lia.
  - intros i t Hi. apply list_lookup_fmap_Some in Hi as (prog & -> & Hi). rewrite Forall_lookup in Hok.
    split; simpl; try done; [by eapply Hok|lia].
  - intros i j t t' id Hi _ Ht. apply list_lookup_fmap_Some in Hi as (prog & -> & Hi). done.
Qed.
