(* ===== verification/Engine.v ===== *)
(** * The engine: configuration, pools and the module cache

    fvm/src/engine/mod.rs around instantiation (which is [Invocation]): the
    Wasm configuration derived from the network's, pools of engines shared by
    configuration ([MultiEngine]), and the cache of compiled modules with its
    preloading. Compiling a module (validation, the stack limiter, gas metering,
    code generation) is third-party code. *)

From S2P Require Import Prelude Effects Gas PriceList Address HistoryMap Types StateTree Blocks Machine.
From S2P Require Import Ipld Host CallManager Kernel Syscalls Invocation EnginePool.
From stdpp Require Import gmap strings list fin_maps.
From Stdlib Require Import ZArith Lia.
#[local] Open Scope Z_scope.

#[export] Instance WasmGasPrices_eq_dec : EqDecision WasmGasPrices.
Proof. solve_decision. Defined.

(** ** Configuration *)

Record EngineConfig := mkEngineConfig {
  ec_max_call_depth : Z;
  ec_max_wasm_stack : Z;
  ec_max_inst_memory_bytes : Z;
  ec_concurrency : Z;
  ec_wasm_prices : WasmGasPrices;
  ec_actor_redirect : list (Cid * Cid);
}.
#[export] Instance EngineConfig_eq_dec : EqDecision EngineConfig.
Proof. solve_decision. Defined.

Definition EXPECTED_MAX_STACK_DEPTH : Z := 20.

(** [EngineConfig::instance_pool_size]. *)
Definition instance_pool_size (ec : EngineConfig) : Z :=
  Z.min (wrap32 (ec_max_call_depth ec + wrap32 (EXPECTED_MAX_STACK_DEPTH * ec_concurrency ec))) (48 * 1024).

(** [From<&NetworkConfig>]. *)
Definition EngineConfig_from (nc : NetworkConfig) : EngineConfig :=
  mkEngineConfig (max_call_depth nc) (max_wasm_stack nc) (max_inst_memory_bytes nc) 1
    (wasm_rules (price_list nc)) (actor_redirect nc).

(** The settings of [wasmtime_config], in the order of the code. *)
Record WasmtimeConfig := mkWasmtimeConfig {
  wc_total_core_instances : Z;
  wc_total_memories : Z;
  wc_max_memories_per_module : Z;
  wc_total_tables : Z;
  wc_max_tables_per_module : Z;
  wc_max_memory_size : Z;
  wc_custom_page_sizes : bool;
  wc_memory_init_cow : bool;
  wc_static_memory_maximum_size : Z;
  wc_static_memory_forced : bool;
  wc_simd : bool;
  wc_relaxed_simd : bool;
  wc_relaxed_simd_deterministic : bool;
  wc_tail_call : bool;
  wc_multi_memory : bool;
  wc_memory64 : bool;
  wc_bulk_memory : bool;
  wc_multi_value : bool;
  wc_nan_canonicalization : bool;
  wc_max_wasm_stack : Z;
  wc_consume_fuel : bool;
  wc_epoch_interruption : bool;
  wc_debug_info : bool;
  wc_generate_address_map : bool;
  wc_debug_verifier : bool;
  wc_native_unwind_info : bool;
  wc_backtrace : bool;
  wc_guard_before_linear_memory : bool;
  wc_parallel_compilation : bool;
  wc_macos_use_mach_ports : bool;
  wc_extended_const : bool;
}.

Definition DEFAULT_PAGE_SIZE : Z := 65536.

Definition wasmtime_config (ec : EngineConfig) : result string WasmtimeConfig :=
  if ec_concurrency ec <? 1 then Err "concurrency limit must not be 0"
  else
    let instance_count := instance_pool_size ec in
    let instance_memory_maximum_size := ec_max_inst_memory_bytes ec in
    if negb (instance_memory_maximum_size `mod` DEFAULT_PAGE_SIZE =? 0)
    then Err "requested memory limit {} not a multiple of the WASM_PAGE_SIZE {}"
    else Ok {|
      wc_total_core_instances := instance_count;
      wc_total_memories := instance_count;
      wc_max_memories_per_module := 1;
      wc_total_tables := instance_count;
      wc_max_tables_per_module := 1;
      wc_max_memory_size := instance_memory_maximum_size;
      wc_custom_page_sizes := false;
      wc_memory_init_cow := false;
      wc_static_memory_maximum_size := instance_memory_maximum_size;
      wc_static_memory_forced := true;
      wc_simd := false;
      wc_relaxed_simd := false;
      wc_relaxed_simd_deterministic := true;
      wc_tail_call := false;
      wc_multi_memory := false;
      wc_memory64 := false;
      wc_bulk_memory := true;
      wc_multi_value := false;
      wc_nan_canonicalization := true;
      wc_max_wasm_stack := Z.shiftl 4 20;
      wc_consume_fuel := false;
      wc_epoch_interruption := false;
      wc_debug_info := false;
      wc_generate_address_map := false;
      wc_debug_verifier := false;
      wc_native_unwind_info := false;
      wc_backtrace := false;
      wc_guard_before_linear_memory := true;
      wc_parallel_compilation := true;
      wc_macos_use_mach_ports := false;
      wc_extended_const := false;
    |}.

(** The compiler: [Module::validate], the two injections of
    [fvm_wasm_instrument] and [Module::from_binary]. *)
Class WasmCompiler := {
  wasm_module : Type;
  engine_new : WasmtimeConfig → result string unit;
  validate : bytes → result string unit;
  inject_stack_limiter : bytes → Z → result string bytes;
  inject_gas : bytes → WasmGasPrices → result string bytes;
  from_binary : bytes → result string wasm_module;
  deserialize : bytes → result string wasm_module;
}.

(** ** Pools of engines *)

Section engine.
Context `{W : WasmCompiler}.

Record ModuleRecord := mkModuleRecord { mr_module : wasm_module; mr_size : Z }.

(** [EngineInner]: what the engines of one pool share. *)
Record EngineInner := mkEngineInner {
  ei_concurrency_limit : EngineConcurrencyInner;
  ei_instance_limit : InstancePoolInner;
  ei_module_cache : gmap Cid ModuleRecord;
  ei_config : EngineConfig;
  ei_actor_redirect : gmap Cid Cid;
}.

(** [EnginePool::new]. *)
Definition EnginePool_new (ec : EngineConfig) : result string EngineInner :=
  match wasmtime_config ec with
  | Err e => Err e
  | Ok c =>
      match engine_new c with
      | Err e => Err e
      | Ok _ =>
          Ok {| ei_concurrency_limit := concurrency_new (ec_concurrency ec);
                ei_instance_limit := instance_pool_new (instance_pool_size ec) (ec_max_call_depth ec);
                ei_module_cache := ∅;
                ei_config := ec;
                ei_actor_redirect := list_to_map (reverse (ec_actor_redirect ec)) |}
      end
  end.

(** [MultiEngine]: a pool is shared by reference, here by its index. *)
Record MultiEngine := mkMultiEngine {
  me_engines : list (EngineConfig * nat);
  me_concurrency : Z;
  me_pools : list EngineInner;
}.

(** [MultiEngine::new] panics on 0. *)
Definition MultiEngine_new (concurrency : Z) : result string MultiEngine :=
  if concurrency =? 0 then Err "concurrency must be positive" else Ok (mkMultiEngine [] concurrency []).

Definition with_concurrency (n : Z) (ec : EngineConfig) : EngineConfig :=
  mkEngineConfig (ec_max_call_depth ec) (ec_max_wasm_stack ec) (ec_max_inst_memory_bytes ec) n
    (ec_wasm_prices ec) (ec_actor_redirect ec).

Fixpoint assoc {A B} `{EqDecision A} (k : A) (l : list (A * B)) : option B :=
  match l with [] => None | (a, b) :: l => if decide (k = a) then Some b else assoc k l end.

(** [MultiEngine::get]. *)
Definition multi_get (nc : NetworkConfig) (me : MultiEngine) : result string nat * MultiEngine :=
  let ec := with_concurrency (me_concurrency me) (EngineConfig_from nc) in
  match assoc ec (me_engines me) with
  | Some pool => (Ok pool, me)
  | None =>
      match EnginePool_new ec with
      | Err e => (Err e, me)
      | Ok pool =>
          let i := length (me_pools me) in
          (Ok i, mkMultiEngine ((ec, i) :: me_engines me) (me_concurrency me) (me_pools me ++ [pool]))
      end
  end.

(** Every entry refers to a pool made for its configuration. *)
Definition multi_ok (me : MultiEngine) : Prop :=
  ∀ ec i, assoc ec (me_engines me) = Some i → ∃ p, me_pools me !! i = Some p ∧ ei_config p = ec.

Lemma EnginePool_new_config ec p : EnginePool_new ec = Ok p → ei_config p = ec.
Proof.
  unfold EnginePool_new. destruct (wasmtime_config ec); [|done]. destruct (engine_new _); [|done]. by intros [= <-].
Qed.

(** Executors of the same network configuration share a pool, and only they. *)
Theorem multi_get_shares me nc nc' i me' :
  multi_ok me → multi_get nc me = (Ok i, me') →
  multi_ok me' ∧
  (EngineConfig_from nc' = EngineConfig_from nc → multi_get nc' me' = (Ok i, me')) ∧
  ∀ me'', multi_get nc' me' = (Ok i, me'') → EngineConfig_from nc' = EngineConfig_from nc.
Proof.
  intros Hok Hget.
  assert (H : multi_ok me' ∧ me_concurrency me' = me_concurrency me ∧
    assoc (with_concurrency (me_concurrency me) (EngineConfig_from nc)) (me_engines me') = Some i).
  { unfold multi_get in Hget. destruct (assoc _ _) as [j|] eqn:Ha; simplify_eq; [done|].
    destruct (EnginePool_new _) as [p|] eqn:Hp; simplify_eq; simpl.
    split_and!; [|done|by rewrite decide_True]. intros ec j. simpl. case_decide as Hec.
    - intros [= <-]. exists p. rewrite list_lookup_middle by done. subst ec. eauto using EnginePool_new_config.
    - intros Hj. destruct (Hok _ _ Hj) as (q & Hq & Hcfg). exists q. split; [|done]. by apply lookup_app_l_Some. }
  destruct H as (Hok' & Hcc & Ha). split_and!; [done| |].
  - intros Heq. unfold multi_get. by rewrite Heq, Hcc, Ha.
  - intros me'' Hget'. destruct (Hok' _ _ Ha) as (p & Hp & Hcfg).
    assert (Hcfg' : ei_config p = with_concurrency (me_concurrency me) (EngineConfig_from nc')).
    { unfold multi_get in Hget'. rewrite Hcc in Hget'. destruct (assoc (with_concurrency _ (EngineConfig_from nc')) _) as [j|] eqn:Ha'; simplify_eq.
      - destruct (Hok' _ _ Ha') as (q & Hq & Hcfg'). congruence.
      - destruct (EnginePool_new _) as [q|] eqn:Hq; simplify_eq. apply lookup_lt_Some in Hp. lia. }
    rewrite Hcfg in Hcfg'. unfold with_concurrency in Hcfg'. unfold EngineConfig_from in *. simpl in *. congruence.
Qed.

(** ** Modules *)

Section modules.
Context `{BS : Blockstore}.

(** [Engine::with_redirect]. *)
Definition with_redirect (e : EngineInner) (k : Cid) : Cid := default k (ei_actor_redirect e !! k).

(** [Engine::load_raw]; the size recorded is that of the instrumented code. *)
Definition load_raw (ec : EngineConfig) (raw_wasm : bytes) : result string ModuleRecord :=
  match validate raw_wasm with
  | Err _ => Err "failed to validate actor wasm"
  | Ok _ =>
      match inject_stack_limiter raw_wasm (ec_max_wasm_stack ec) with
      | Err e => Err e
      | Ok raw_wasm =>
          match inject_gas raw_wasm (ec_wasm_prices ec) with
          | Err _ => Err "injecting gas counter failed"
          | Ok raw_wasm =>
              match from_binary raw_wasm with
              | Err e => Err e
              | Ok m => Ok (mkModuleRecord m (Z.of_nat (length raw_wasm)))
              end
          end
      end
  end.

Definition set_cache (c : gmap Cid ModuleRecord) (e : EngineInner) : EngineInner :=
  mkEngineInner (ei_concurrency_limit e) (ei_instance_limit e) c (ei_config e) (ei_actor_redirect e).

(** [Engine::preload]. *)
Definition preload (s : Store) (code_cid : Cid) (e : EngineInner) : result string Z * EngineInner :=
  let code_cid := with_redirect e code_cid in
  match ei_module_cache e !! code_cid with
  | Some r => (Ok (mr_size r), e)
  | None =>
      match bs_get s code_cid with
      | Err msg => (Err msg, e)
      | Ok None => (Err "no wasm bytecode in blockstore for CID {}", e)
      | Ok (Some wasm) =>
          match load_raw (ei_config e) wasm with
          | Err msg => (Err msg, e)
          | Ok r => (Ok (mr_size r), set_cache (<[code_cid := r]> (ei_module_cache e)) e)
          end
      end
  end.

(** [Engine::preload_all]: the loop, with the size added up in [usize]. *)
Fixpoint preload_loop (s : Store) (cids : list Cid) (total : Z) (e : EngineInner) : result string Z * EngineInner :=
  match cids with
  | [] => (Ok total, e)
  | cid :: rest =>
      match preload s cid e with
      | (Ok size, e') => preload_loop s rest (wrap64 (total + size)) e'
      | (Err _, e') => (Err "could not prepare actor with code CID {}", e')
      end
  end.
Definition preload_all (s : Store) (cids : list Cid) (e : EngineInner) : result string Z * EngineInner :=
  preload_loop s cids 0 e.

(** [Engine::load_compiled], unsafe and unused: the caller answers for the
    compiled code being that of [k]. *)
Definition load_compiled (k : Cid) (compiled : bytes) (e : EngineInner) : result string wasm_module * EngineInner :=
  let k := with_redirect e k in
  match ei_module_cache e !! k with
  | Some m => (Ok (mr_module m), e)
  | None =>
      match deserialize compiled with
      | Err msg => (Err msg, e)
      | Ok m =>
          let r := mkModuleRecord m (Z.of_nat (length compiled)) in
          (Ok m, set_cache (<[k := r]> (ei_module_cache e)) e)
      end
  end.

(** The lookup at the end of [Engine::instantiate]. *)
Definition cached_module (s : Store) (k : Cid) (e : EngineInner) : result string (option wasm_module) * EngineInner :=
  let k := with_redirect e k in
  match ei_module_cache e !! k with
  | Some r => (Ok (Some (mr_module r)), e)
  | None =>
      match bs_get s k with
      | Err _ => (Err "failed to lookup wasm module in blockstore", e)
      | Ok None => (Ok None, e)
      | Ok (Some raw_wasm) =>
          match load_raw (ei_config e) raw_wasm with
          | Err msg => (Err msg, e)
          | Ok r => (Ok (Some (mr_module r)), set_cache (<[k := r]> (ei_module_cache e)) e)
          end
      end
  end.

(** The same without a cache: a function of the store, as [host_module] of the
    interface [Host] is. *)
Definition module_of (ec : EngineConfig) (s : Store) (k : Cid) : result string (option wasm_module) :=
  match bs_get s (redirect (ec_actor_redirect ec) k) with
  | Err _ => Err "failed to lookup wasm module in blockstore"
  | Ok None => Ok None
  | Ok (Some raw_wasm) => match load_raw ec raw_wasm with Err msg => Err msg | Ok r => Ok (Some (mr_module r)) end
  end.

(** Every cached module is the compiled block of the store. *)
Definition coherent_cache (s : Store) (e : EngineInner) : Prop :=
  ei_actor_redirect e = list_to_map (reverse (ec_actor_redirect (ei_config e))) ∧
  ∀ k r, ei_module_cache e !! k = Some r →
    ∃ raw, bs_get s k = Ok (Some raw) ∧ load_raw (ei_config e) raw = Ok r.

Lemma coherent_insert s e k r raw :
  coherent_cache s e → bs_get s k = Ok (Some raw) → load_raw (ei_config e) raw = Ok r →
  coherent_cache s (set_cache (<[k := r]> (ei_module_cache e)) e).
Proof.
  intros [Hr Hc] Hg Hl. split; [done|]. simpl. intros k' r'. rewrite lookup_insert_Some.
  intros [[<- <-]|[_ ?]]; eauto.
Qed.

Lemma with_redirect_eq s e k : coherent_cache s e → with_redirect e k = redirect (ec_actor_redirect (ei_config e)) k.
Proof. intros [Hr _]. unfold with_redirect, redirect. by rewrite Hr. Qed.

Lemma cached_module_spec s k e :
  coherent_cache s e →
  (cached_module s k e).1 = module_of (ei_config e) s k ∧
  coherent_cache s (cached_module s k e).2 ∧ ei_config (cached_module s k e).2 = ei_config e.
Proof.
  intros Hc. unfold cached_module, module_of. rewrite (with_redirect_eq _ _ _ Hc).
  set (k' := redirect _ k). destruct (ei_module_cache e !! k') as [r|] eqn:Hk; simpl.
  - destruct (proj2 Hc _ _ Hk) as (raw & -> & ->). done.
  - destruct (bs_get s k') as [[raw|]|] eqn:Hg; simpl; [|done..].
    destruct (load_raw (ei_config e) raw) as [r|] eqn:Hl; simpl; [|done].
    split_and!; [done| |done]. by eapply coherent_insert.
Qed.

Lemma preload_spec s k e :
  coherent_cache s e →
  coherent_cache s (preload s k e).2 ∧ ei_config (preload s k e).2 = ei_config e ∧
  ei_module_cache e ⊆ ei_module_cache (preload s k e).2 ∧
  ∀ n, (preload s k e).1 = Ok n →
    ∃ r, ei_module_cache (preload s k e).2 !! redirect (ec_actor_redirect (ei_config e)) k = Some r ∧ mr_size r = n.
Proof.
  intros Hc. unfold preload. rewrite (with_redirect_eq _ _ _ Hc). set (k' := redirect _ k).
  destruct (ei_module_cache e !! k') as [r|] eqn:Hk; simpl; [naive_solver|].
  destruct (bs_get s k') as [[raw|]|] eqn:Hg; simpl; [|done..].
  destruct (load_raw (ei_config e) raw) as [r|] eqn:Hl; simpl; [|done].
  split_and!; [by eapply coherent_insert|done|by apply insert_subseteq|].
  intros n [= <-]. exists r. by rewrite lookup_insert_eq.
Qed.

Lemma preload_loop_spec s cids e total :
  coherent_cache s e →
  let e' := (preload_loop s cids total e).2 in
  coherent_cache s e' ∧ ei_config e' = ei_config e ∧ ei_module_cache e ⊆ ei_module_cache e' ∧
  ∀ n, (preload_loop s cids total e).1 = Ok n →
    ∀ k, k ∈ cids → is_Some (ei_module_cache e' !! redirect (ec_actor_redirect (ei_config e)) k).
Proof.
  revert e total. induction cids as [|k cids IH]; intros e total Hc; simpl.
  { split_and!; try done. intros n _ k Hk. by apply elem_of_nil in Hk. }
  destruct (preload_spec s k e Hc) as (Hc1 & Hcfg & Hsub & Hin).
  destruct (preload s k e) as [[size|msg] e1]; simpl in *; [|done].
  destruct (IH e1 (wrap64 (total + size)) Hc1) as (Hc2 & Hcfg2 & Hsub2 & Hin2). rewrite Hcfg in *.
  split_and!; [done|congruence|by etrans|]. intros n Hn k' [->|Hk']%elem_of_cons; [|by eapply Hin2].
  destruct (Hin _ eq_refl) as (r & Hr & _). exists r. by eapply lookup_weaken.
Qed.

(** What executors ask of a shared engine, each with its own store. *)
Inductive EngineReq := ReqPreload (cids : list Cid) | ReqModule (k : Cid).
Definition serve_one (r : Store * EngineReq) (e : EngineInner) : option (result string (option wasm_module)) * EngineInner :=
  match r with
  | (s, ReqPreload cids) => (None, (preload_all s cids e).2)
  | (s, ReqModule k) => let '(m, e') := cached_module s k e in (Some m, e')
  end.
Fixpoint serve (rs : list (Store * EngineReq)) (e : EngineInner)
    : list (option (result string (option wasm_module))) * EngineInner :=
  match rs with
  | [] => ([], e)
  | r :: rs => let '(a, e1) := serve_one r e in let '(l, e2) := serve rs e1 in (a :: l, e2)
  end.

(** The answers a compiler without a cache gives. *)
Definition serve_uncached (ec : EngineConfig) (r : Store * EngineReq) : option (result string (option wasm_module)) :=
  match r with (_, ReqPreload _) => None | (s, ReqModule k) => Some (module_of ec s k) end.
End modules.

Section transparency.
Context `{BSS : BlockstoreSpec}.

(** Stores that only gain blocks from one request to the next. *)
Fixpoint growing (s : Store) (rs : list (Store * EngineReq)) : Prop :=
  match rs with [] => True | (s', _) :: rs => store_le s s' ∧ growing s' rs end.

Lemma coherent_mono s s' e : store_le s s' → coherent_cache s e → coherent_cache s' e.
Proof.
  intros Hle [Hr Hc]. split; [done|]. intros k r Hk. destruct (Hc k r Hk) as (raw & Hg & Hl).
  exists raw. split; [|done]. by eapply store_le_get.
Qed.

Lemma serve_one_spec s r e :
  coherent_cache s e → store_le s r.1 →
  (serve_one r e).1 = serve_uncached (ei_config e) r ∧
  coherent_cache r.1 (serve_one r e).2 ∧ ei_config (serve_one r e).2 = ei_config e.
Proof.
  intros Hc Hle. pose proof (coherent_mono _ _ _ Hle Hc) as Hc'. destruct r as [s' [cids|k]]; simpl in *.
  - destruct (preload_loop_spec s' cids e 0 Hc') as (? & ? & _). done.
  - pose proof (cached_module_spec s' k e Hc') as (H1 & H2 & H3).
    destruct (cached_module s' k e) as [m e']; simpl in *. by subst m.
Qed.

Lemma serve_spec s rs e :
  coherent_cache s e → growing s rs → (serve rs e).1 = serve_uncached (ei_config e) <$> rs.
Proof.
  revert s e. induction rs as [|r rs IH]; intros s e Hc Hg; [done|]. destruct r as [s' q].
  destruct Hg as [Hle Hg]. destruct (serve_one_spec s (s', q) e Hc Hle) as (H1 & H2 & H3).
  rewrite fmap_cons, <- H1. change (serve ((s', q) :: rs) e)
    with (let '(a, e1) := serve_one (s', q) e in let '(l, e2) := serve rs e1 in (a :: l, e2)).
  destruct (serve_one (s', q) e) as [a e1]; simpl in *. specialize (IH _ _ H2 Hg). rewrite H3 in IH.
  destruct (serve rs e1) as [l e2]; simpl in *. by subst l.
Qed.

Lemma new_coherent s ec ei : EnginePool_new ec = Ok ei → coherent_cache s ei ∧ ei_config ei = ec.
Proof.
  unfold EnginePool_new. destruct (wasmtime_config ec); [|done]. destruct (engine_new _); [|done].
  intros [= <-]. split; [|done]. split; [done|]. intros k r. simpl. by rewrite lookup_empty.
Qed.

End transparency.

(** ** Installing an actor's code

    [install_actor] of kernel/default.rs and syscalls/actor.rs, linked with the
    feature [m2-native] only: it compiles into the engine's cache, then charges by
    the size of the code. *)

Section install.
Context `{Hst : Host}.

Definition k_install_actor (code_id : Cid) (e : EngineInner) (k : Kernel.Kernel) : Result unit * Kernel.Kernel * EngineInner :=
  match preload_all (st_store (cm_tree (k_cm k))) [code_id] e with
  | (Err _, e') => (Err (syscall_error IllegalArgument "failed to install actor"), k, e')
  | (Ok size, e') => (kcm (charge_gas (λ pl, on_install_actor pl (Z.to_N size))) k, e')
  end.
Definition sys_install_actor (mem : bytes) (typ_off : Z) (e : EngineInner) (k : Kernel.Kernel)
    : Result unit * Kernel.Kernel * EngineInner :=
  match read_cid typ_off mem with
  | Err err => (Err err, k, e)
  | Ok typ => k_install_actor typ e k
  end.

(** Code that is missing or does not compile is an illegal argument and leaves
    the actor's side as it was; otherwise its size is charged, and the code stays
    available from then on, whether or not the gas was enough. *)
Lemma install_actor_spec code e k r k' e' :
  coherent_cache (st_store (cm_tree (k_cm k))) e →
  k_install_actor code e k = (r, k', e') →
  coherent_cache (st_store (cm_tree (k_cm k))) e' ∧
  ((k' = k ∧ r = Err (syscall_error IllegalArgument "failed to install actor")) ∨
   ∃ size, kcm (charge_gas (λ pl, on_install_actor pl (Z.to_N size))) k = (r, k') ∧
           ∀ s', ∃ m, (cached_module s' code e').1 = Ok (Some m) ∧
                      module_of (ei_config e) (st_store (cm_tree (k_cm k))) code = Ok (Some m)).
Proof.
  set (s := st_store (cm_tree (k_cm k))). intros Hc. unfold k_install_actor, preload_all. fold s.
  destruct (preload_loop_spec s [code] e 0 Hc) as (Hc1 & Hcfg & _ & Hin).
  destruct (preload_loop s [code] 0 e) as [[size|msg] e1]; cbn [fst snd] in *; intros Heq; simplify_eq; split; try done; [right|by left].
  exists size. split; [done|]. intros s'. destruct (Hin size eq_refl code ltac:(by left)) as [m Hm]. exists (mr_module m).
  destruct (cached_module_spec s code e' Hc1) as (H1 & _). rewrite Hcfg in H1. rewrite <-H1.
  unfold cached_module. rewrite (with_redirect_eq _ _ _ Hc1), Hcfg, Hm. done.
Qed.
End install.

(** ** The limits of a pool *)

(** Executors on the engines of a pool. *)
Definition pool_system (ei : EngineInner) (progs : list (list Act)) : Sys :=
  mkSys (ei_concurrency_limit ei) (ei_instance_limit ei) (thread_new <$> progs) None.

(** A configuration whose pool holds one full call stack. *)
Definition sized (ec : EngineConfig) : Prop :=
  0 < ec_max_call_depth ec ≤ 48 * 1024 ∧ ec_concurrency ec < 2 ^ 27.

Lemma pool_size_fits ec :
  sized ec → 1 ≤ ec_concurrency ec → ec_max_call_depth ec ≤ instance_pool_size ec < 2 ^ 32.
Proof.
  intros [Hd Hc] Hc1. unfold instance_pool_size, EXPECTED_MAX_STACK_DEPTH.
  rewrite (wrap32_small (20 * ec_concurrency ec)) by mlia. rewrite wrap32_small by mlia. lia.
Qed.

Lemma pool_system_inv ec ei progs :
  EnginePool_new ec = Ok ei → sized ec →
  Forall (λ prog, prog_ok (ec_max_call_depth ec) false 0 prog = true) progs →
  sum_of acquires (thread_new <$> progs) < 2 ^ 64 →
  1 ≤ ec_concurrency ec ∧
  pool_inv (instance_pool_size ec) (ec_max_call_depth ec) (ec_concurrency ec) (pool_system ei progs).
Proof.
  unfold EnginePool_new, wasmtime_config. intros Hnew Hs Hok Hacq.
  destruct (Z.ltb_spec (ec_concurrency ec) 1); [done|]. destruct (negb _); [done|].
  destruct (engine_new _); [|done]. injection Hnew as <-. split; [done|].
  pose proof (pool_size_fits ec Hs ltac:(lia)). destruct Hs. apply init_inv; try done; lia.
Qed.
End engine.

(** C36: executors sharing a pool of engines never fail or block each other for
    ever. For any number of threads that acquire an engine, enter and leave
    frames up to the call depth and drop the engine, and in every interleaving
    with arbitrary wake-ups: no assertion fails; instances and engines are
    conserved, at most the configured number of engines is alive and no two
    have the same id; a thread can take its turn unless all have finished, with
    every instance and engine returned; and every run is finite, since turns are
    bounded by the programs' length but for spurious wake-ups. *)
Theorem engine_pool_live `{W : WasmCompiler} ec ei progs ls s :
  EnginePool_new ec = Ok ei → sized ec →
  Forall (λ prog, prog_ok (ec_max_call_depth ec) false 0 prog = true) progs →
  sum_of acquires (thread_new <$> progs) < 2 ^ 64 →
  steps ls (pool_system ei progs) = Some s →
  sy_panic s = None ∧
  available (sy_pool s) + held (sy_threads s) = instance_pool_size ec ∧
  limit (sy_conc s) + engines (sy_threads s) = ec_concurrency ec ∧ 0 ≤ limit (sy_conc s) ∧
  (∀ i j t t' id, sy_threads s !! i = Some t → sy_threads s !! j = Some t' →
    th_engine t = Some id → th_engine t' = Some id → i = j) ∧
  ((∃ i w s', step (Run i w) s = Some s') ∨
   Forall done (sy_threads s) ∧ sy_pool s = ei_instance_limit ei ∧ limit (sy_conc s) = ec_concurrency ec) ∧
  turns ls ≤ work (thread_new <$> progs) + spurious ls.
Proof.
  intros Hnew Hs Hok Hacq Hls. destruct (pool_system_inv ec ei progs Hnew Hs Hok Hacq) as [Hc1 Hinv].
  pose proof (pool_size_fits ec Hs Hc1) as Hsz. pose proof Hs as [Hd Hc].
  assert (HC : 0 < ec_concurrency ec < 2 ^ 32) by lia. assert (HL : 0 < ec_max_call_depth ec ≤ instance_pool_size ec) by lia.
  pose proof (steps_inv _ _ _ HL (proj2 Hsz) HC _ _ _ Hinv Hls) as Hinv'.
  pose proof (steps_work _ _ _ _ _ _ HL (proj2 Hsz) HC Hinv Hls) as Hwork.
  destruct (pi_core _ _ _ _ Hinv') as [_ Hsum Hconc Hnn _ _ Huniq _].
  split_and!; [exact (pi_panic _ _ _ _ Hinv')|done..|exact Huniq| |].
  - destruct (progress _ _ _ HL (proj2 Hsz) HC s Hinv') as [?|(H1 & H2 & H3)]; [by left|right]. split_and!; [done| |done].
    rewrite H2. unfold EnginePool_new in Hnew. destruct (wasmtime_config ec); [|done].
    destruct (engine_new _); [|done]. by injection Hnew as <-.
  - assert (0 ≤ work (sy_threads s)); [|simpl in Hwork; lia]. apply sum_of_nonneg, Forall_true.
    intros t. unfold weight. pose proof (b2z_bounds (negb (th_asleep t))). lia.
Qed.
