(* ===== verification/Carry.v ===== *)
(** * Carrying a relation through a call tree

    One pass over every kernel operation, system call and call-manager
    operation: if [X] is admissible, a whole call, whatever the guest code and
    however deep it nests, relates its start and end states by [cm_frame] and
    [X]. The instances of [X] are the safety theorems of [Safety]. *)

From S2P Require Import Prelude Effects Gas PriceList Address HistoryMap Types StateTree.
From S2P Require Import Access Blocks Machine Ipld Host CallManager Frame Kernel FilKernel Syscalls.
From S2P Require Import Invocation.
From stdpp Require Import gmap strings list fin_maps.
From Stdlib Require Import ZArith Lia.
#[local] Open Scope Z_scope.

Section kernel.
Context `{H : Host} {ES : EnvSpec} (ro : bool) (X : relation CM) `{HX : !Adm ro X}.

(** When [ro], calls are read-only and move no value. *)
Definition call_carries (call : CallFn) : Prop :=
  ∀ from to e params value limit read_only,
    (ro = true → read_only = true) → (ro = true → value = 0) →
    pres (cm_rel X) (call from to e params value limit read_only).

Definition krel (k k' : Kernel) : Prop :=
  (ro = true → k_read_only k = true) →
  k_read_only k' = k_read_only k ∧ k_actor_id k' = k_actor_id k ∧ k_caller k' = k_caller k ∧
  cm_rel X (k_cm k) (k_cm k') ∧ (br_ok (k_blocks k) → br_ok (k_blocks k')).

#[local] Instance X_preorder : PreOrder X := adm_preorder.
#[export] Instance krel_preorder : PreOrder krel.
Proof.
  split; [intros k _; split_and!; done|].
  intros a b c H1 H2 Ha. destruct (H1 Ha) as (Er & Ei & Ec & Hr & Hb).
  destruct H2 as (Er' & Ei' & Ec' & Hr' & Hb'); [by rewrite Er|].
  split_and!; try congruence; [by etrans|auto].
Qed.

Lemma krel_cm {A} (op : M CM A) : pres (cm_rel X) op → pres krel (kcm op).
Proof. intros Hp. apply pres_zoom. intros k _. simpl. split_and!; try done; apply Hp. Qed.
Lemma krel_blk {A} (op : M BlockRegistry A) :
  (∀ r, br_ok r → br_ok (op r).2) → pres krel (kblk op).
Proof. intros Hp. apply pres_zoom. intros k _. simpl. split_and!; try done. apply Hp. Qed.
Lemma put_inner_ok b check r : br_ok r → br_ok (put_inner b check r).2.
Proof.
  intros Hr. pose proof (put_inner_spec b check r Hr) as Hs.
  destruct (put_inner b check r) as [[?|?] r']; naive_solver.
Qed.
Lemma krel_put b check : pres krel (kblk (put_inner b check)).
Proof. apply krel_blk. intros r. apply put_inner_ok. Qed.
Lemma krel_mark c :
  pres krel (modify (Er := ExecutionError) (λ k, k_set_blocks (mark_reachable c (k_blocks k)) k)).
Proof. apply pres_modify. intros k _. split_and!; try done. apply mark_reachable_ok. Qed.

(** Reading the read-only flag tells a read-only run apart; a check that
    passed may be used by what follows. *)
Lemma krel_ro_bind {A} (f : bool → M Kernel A) :
  (∀ b, (ro = true → b = true) → pres krel (f b)) → pres krel (gets k_read_only ≫= f).
Proof. intros Hf k Hk. by apply (Hf (k_read_only k) Hk). Qed.
Lemma krel_require_bind {A} b n msg (f : unit → M Kernel A) :
  (b = true → pres krel (f tt)) → pres krel (require b n msg ≫= f).
Proof.
  intros Hf k. unfold require, mbind, M_bind. destruct b; [by apply Hf|]. reflexivity.
Qed.
Lemma krel_require b n msg : pres krel (require b n msg).
Proof. unfold require. destruct b; [apply pres_ret|apply pres_throw]; exact _. Qed.

Lemma scan_gt_le codec data pl : pres gt_le (scan_for_reachable_links codec data pl).
Proof. unfold scan_for_reachable_links. solve_pres. Qed.

Lemma not_ro b : (ro = true → b = true) → negb b = true → ro = false.
Proof. destruct ro, b; naive_solver. Qed.
End kernel.

(** As [solve_pres], using what was checked on the way. *)
Ltac kstep :=
  match goal with
  | |- pres _ (gets k_read_only ≫= _) => apply krel_ro_bind; intros ??
  | |- pres _ (require _ _ _ ≫= _) => eapply krel_require_bind; [try exact _..|intros ?]
  | |- pres _ (require _ _ _) => eapply krel_require
  | |- pres _ (kcm _) => apply krel_cm
  | |- pres _ (kblk (put_reachable _)) => eapply krel_put
  | |- pres _ (kblk (put_check_reachable _)) => eapply krel_put
  | |- pres _ (modify (λ _, k_set_blocks (mark_reachable _ _) _)) => eapply krel_mark
  | |- pres _ (on_gas (scan_for_reachable_links _ _ _)) => eapply rel_on_gas, scan_gt_le
  | |- pres _ (on_gas (gt_charge_gas _ _)) => eapply rel_on_gas, gt_le_gt_charge
  | |- pres (cm_rel _) _ => solve [eauto using not_ro with pres typeclass_instances]
  | |- _ => pres_step
  end.
Ltac solve_k := intros; repeat (kstep; try exact _); try done.

Section ops.
Context `{H : Host} {ES : EnvSpec} (ro : bool) (X : relation CM) `{HX : !Adm ro X}.
Context (call : CallFn) (Hcall : call_carries ro X call).
#[local] Existing Instance X_preorder.
#[local] Abbreviation krel := (krel ro X).

Lemma krel_get_self : pres krel k_get_self.
Proof. unfold k_get_self. solve_k. Qed.
#[local] Hint Resolve krel_get_self : pres.
Lemma krel_params id : pres krel (k_params id).
Proof. unfold k_params. solve_k. Qed.
#[local] Hint Resolve krel_params : pres.
Lemma krel_root : pres krel k_root.
Proof. unfold k_root. solve_k. Qed.
Lemma krel_set_root c : pres krel (k_set_root c).
Proof. unfold k_set_root. solve_k. Qed.
Lemma krel_current_balance : pres krel k_current_balance.
Proof. unfold k_current_balance. solve_k. Qed.
#[local] Hint Resolve krel_current_balance : pres.

Lemma krel_send to m p v l f : pres krel (k_send call to m p v l f).
Proof.
  unfold k_send. solve_k. apply (rel_transaction ro X). apply Hcall.
  - intros Hro. match goal with Hb : ro = true → _ = true |- _ => by rewrite (Hb Hro) end.
  - intros Hro. match goal with Hb : ro = true → _ = true, Hr : negb _ = true |- _ =>
      rewrite (Hb Hro) in Hr end. by destruct (Z.eqb_spec v 0).
Qed.

Lemma krel_upgrade c p : pres krel (k_upgrade_actor call c p).
Proof.
  unfold k_upgrade_actor. solve_k. apply (rel_transaction ro X).
  assert (ro = false) as Hro by eauto using not_ro.
  apply pres_bind; [exact _|by apply (rel_update ro X)|]. intros old. apply Hcall; by rewrite ?Hro.
Qed.

Lemma krel_self_destruct b : pres krel (k_self_destruct b).
Proof. unfold k_self_destruct. solve_k. Qed.
Lemma krel_scan codec d : pres krel (k_scan codec d).
Proof. unfold k_scan. solve_k. Qed.
#[local] Hint Resolve krel_scan : pres.
Lemma krel_block_open c : pres krel (k_block_open c).
Proof. unfold k_block_open. solve_k. Qed.
Lemma krel_block_create c d : pres krel (k_block_create c d).
Proof. unfold k_block_create. solve_k. Qed.

(** A block is stored under its own hash. *)
Lemma rel_put_block c data :
  pres (cm_rel X) (on_tree (st_write (λ s, bs_put_keyed s
    (mkCid c BLAKE2B_256 (take 32 (mh_digest BLAKE2B_256 data))) data))).
Proof.
  assert (pres st_both (st_write (λ s, bs_put_keyed s
    (mkCid c BLAKE2B_256 (take 32 (mh_digest BLAKE2B_256 data))) data))) as Hp.
  { apply st_both_write. intros s r s' Eq Hs. eapply put_keyed_ok; [done| |done]. simpl.
    apply take_ge. by rewrite blake2b_len. }
  apply (rel_of ro X); [by apply frame_on_tree, st_both_frame|by apply same_on_tree].
Qed.
Lemma krel_block_link id hf hl : pres krel (k_block_link id hf hl).
Proof.
  unfold k_block_link. apply krel_require_bind; [exact _|].
  intros [->%Z.eqb_eq ->%Z.eqb_eq]%andb_prop. solve_k. apply rel_put_block.
Qed.
Lemma krel_block_read id o n : pres krel (k_block_read id o n).
Proof. unfold k_block_read. solve_k. Qed.
Lemma krel_block_stat id : pres krel (k_block_stat id).
Proof. unfold k_block_stat. solve_k. Qed.
Lemma krel_msg_context : pres krel k_msg_context.
Proof. unfold k_msg_context. solve_k. Qed.
Lemma krel_network_context : pres krel k_network_context.
Proof. unfold k_network_context. solve_k. Qed.
Lemma krel_tipset_cid e : pres krel (k_tipset_cid e).
Proof. unfold k_tipset_cid. solve_k. Qed.
Lemma krel_lookback e : pres krel (k_lookback e).
Proof. unfold k_lookback. solve_k. Qed.
#[local] Hint Resolve krel_lookback : pres.
Lemma krel_tickets e : pres krel (k_get_randomness_from_tickets e).
Proof. unfold k_get_randomness_from_tickets. solve_k. Qed.
Lemma krel_beacon e : pres krel (k_get_randomness_from_beacon e).
Proof. unfold k_get_randomness_from_beacon. solve_k. Qed.
Lemma krel_verify_signature t sg a p : pres krel (k_verify_signature t sg a p).
Proof. unfold k_verify_signature. solve_k. Qed.
Lemma krel_bls_aggregate sg ks cc ls : pres krel (k_verify_bls_aggregate sg ks cc ls).
Proof. unfold k_verify_bls_aggregate. solve_k. Qed.
Lemma krel_recover h sg : pres krel (k_recover_secp_public_key h sg).
Proof. unfold k_recover_secp_public_key. solve_k. Qed.
Lemma krel_hash c d : pres krel (k_hash c d).
Proof. unfold k_hash. solve_k. Qed.
Lemma krel_resolve a : pres krel (k_resolve_address a).
Proof. unfold k_resolve_address. solve_k. Qed.
Lemma krel_actor id p : pres krel (k_actor id p).
Proof. unfold k_actor. solve_k. Qed.
#[local] Hint Resolve krel_actor : pres.
Lemma krel_code_cid id : pres krel (k_get_actor_code_cid id).
Proof. unfold k_get_actor_code_cid. solve_k. Qed.
Lemma krel_balance_of id : pres krel (k_balance_of id).
Proof. unfold k_balance_of. solve_k. Qed.
Lemma krel_delegated id : pres krel (k_lookup_delegated_address id).
Proof. unfold k_lookup_delegated_address. solve_k. Qed.
Lemma krel_next_address : pres krel k_next_actor_address.
Proof. unfold k_next_actor_address. solve_k. Qed.
Lemma krel_create c id da : pres krel (k_create_actor c id da).
Proof. unfold k_create_actor. solve_k. Qed.
Lemma krel_builtin_type c : pres krel (k_get_builtin_actor_type c).
Proof. unfold k_get_builtin_actor_type. solve_k. Qed.
Lemma krel_code_for_type t : pres krel (k_get_code_cid_for_type t).
Proof. unfold k_get_code_cid_for_type. solve_k. Qed.
Lemma krel_log m : pres krel (k_log m).
Proof. unfold k_log, cm_log. solve_k. Qed.
Lemma krel_artifact n : pres krel (k_store_artifact n).
Proof. unfold k_store_artifact. solve_k. Qed.
Lemma krel_emit_event h ks vs : pres krel (k_emit_event h ks vs).
Proof. unfold k_emit_event. solve_k. Qed.
Lemma krel_expect f msg : pres krel (kcharge_expect f msg).
Proof. unfold kcharge_expect. solve_k. Qed.
#[local] Hint Resolve krel_expect : pres.
Lemma krel_unsealed_cid t ps : pres krel (k_compute_unsealed_sector_cid t ps).
Proof. unfold k_compute_unsealed_sector_cid. solve_k. Qed.
Lemma krel_verify_post i : pres krel (k_verify_post i).
Proof. unfold k_verify_post. solve_k. Qed.
Lemma krel_consensus_fault h1 h2 ex : pres krel (k_verify_consensus_fault h1 h2 ex).
Proof. unfold k_verify_consensus_fault. solve_k. Qed.
Lemma krel_charge_seals vis : pres krel (charge_seals vis).
Proof. induction vis; simpl; solve_k. Qed.
#[local] Hint Resolve krel_charge_seals : pres.
Lemma krel_batch_seals vis : pres krel (k_batch_verify_seals vis).
Proof. unfold k_batch_verify_seals. solve_k. Qed.
Lemma krel_aggregate_seals a : pres krel (k_verify_aggregate_seals a).
Proof. unfold k_verify_aggregate_seals. solve_k. Qed.
Lemma krel_replica_update r : pres krel (k_verify_replica_update r).
Proof. unfold k_verify_replica_update. solve_k. Qed.
Lemma krel_circ_supply : pres krel k_total_fil_circ_supply.
Proof. unfold k_total_fil_circ_supply. solve_k. Qed.
Lemma krel_charge n g : pres krel (k_charge_gas n g).
Proof. unfold k_charge_gas. solve_k. Qed.
End ops.

(** ** System calls *)

Section syscalls.
Context `{H : Host} {ES : EnvSpec} (ro : bool) (X : relation CM) `{HX : !Adm ro X}.
Context (call : CallFn) (Hcall : call_carries ro X call).
#[local] Existing Instance X_preorder.

Definition crel (c c' : Ctx) : Prop := krel ro X (ctx_kernel c) (ctx_kernel c').
#[export] Instance crel_preorder : PreOrder crel.
Proof. split; [intros c; unfold crel; reflexivity|]. intros a b c Hab Hbc. unfold crel in *. by etrans. Qed.

Lemma crel_kern {A} (m : M Kernel A) : pres (krel ro X) m → pres crel (kern m).
Proof. intros Hp. apply pres_zoom. intros c. apply Hp. Qed.
Lemma crel_rd {A} (f : bytes → Result A) : pres crel (rd f).
Proof. intros c. unfold crel; simpl. reflexivity. Qed.
Lemma crel_write o d : pres crel (write_mem o d).
Proof. intros c. unfold crel; simpl. reflexivity. Qed.
#[local] Hint Resolve crel_rd crel_write : pres.

Lemma crel_write_cid k o l : pres crel (write_cid k o l).
Proof. unfold write_cid. solve_pres. Qed.
#[local] Hint Resolve crel_write_cid : pres.
Lemma crel_out_cid m o l : pres (krel ro X) m → pres crel (out_cid m o l).
Proof. intros. unfold out_cid. repeat pres_step. by apply crel_kern. Qed.
Lemma crel_token_out m : pres (krel ro X) m → pres crel (token_out m).
Proof. intros. unfold token_out. repeat pres_step. by apply crel_kern. Qed.

#[local] Hint Extern 1 (pres crel (kern _)) => apply crel_kern : pres.
#[local] Hint Resolve crel_out_cid crel_token_out krel_root krel_set_root krel_current_balance
  krel_send krel_upgrade krel_self_destruct krel_block_open krel_block_create krel_block_link
  krel_block_read krel_block_stat krel_msg_context krel_network_context krel_tipset_cid
  krel_tickets krel_beacon krel_verify_signature krel_bls_aggregate krel_recover krel_hash krel_resolve
  krel_code_cid krel_balance_of krel_delegated krel_next_address krel_create
  krel_builtin_type krel_code_for_type krel_log krel_artifact krel_emit_event krel_charge
  krel_unsealed_cid krel_verify_post krel_consensus_fault krel_batch_seals krel_aggregate_seals
  krel_replica_update krel_circ_supply : pres.

Lemma crel_dispatch req : pres crel (dispatch call req).
Proof.
  destruct req; simpl dispatch; try (apply pres_map_err; [exact _..|]);
    unfold sys_send, sys_upgrade_actor, sys_lookup_delegated_address, sys_next_actor_address,
      sys_create_actor, sys_block_read, sys_verify_signature, sys_verify_bls_aggregate, sys_recover_secp, sys_hash,
      sys_emit_event, sys_charge_gas, sys_log, sys_store_artifact, sys_compute_unsealed_sector_cid,
      sys_verify_post, sys_verify_consensus_fault, sys_verify_aggregate_seals, sys_verify_replica_update,
      sys_batch_verify_seals, status.
  all: try (intros c; unfold crel; simpl; reflexivity).
  all: solve_pres.
Qed.

(** ** Guests *)

Definition irel (i i' : Inv) : Prop := krel ro X (iv_kernel i) (iv_kernel i').
#[export] Instance irel_preorder : PreOrder irel.
Proof. split; [intros c; unfold irel; reflexivity|]. intros a b c Hab Hbc. unfold irel in *. by etrans. Qed.

(** Changes to the invocation's own bookkeeping. *)
Lemma irel_local {Er} f : (∀ i, iv_kernel (f i) = iv_kernel i) → pres irel (modify (Er := Er) f).
Proof. intros Hf i. unfold irel; simpl. rewrite Hf. reflexivity. Qed.
#[local] Hint Extern 1 (pres irel (modify _)) => apply irel_local; done : pres.

Lemma irel_charge n g : pres irel (iv_charge n g).
Proof.
  unfold iv_charge. apply pres_map_err; [exact _..|]. apply pres_zoom. intros i.
  by apply krel_charge.
Qed.
#[local] Hint Resolve irel_charge : pres.
Lemma irel_update : pres irel update_gas_available.
Proof. unfold update_gas_available. solve_pres. Qed.
Lemma irel_exec : pres irel charge_for_exec.
Proof. unfold charge_for_exec. solve_pres. Qed.
Lemma irel_syscall_gas : pres irel charge_syscall_gas.
Proof. unfold charge_syscall_gas. solve_pres. Qed.
Lemma irel_init m : pres irel (charge_for_init m).
Proof. unfold charge_for_init. solve_pres. Qed.
#[local] Hint Resolve irel_update irel_exec irel_syscall_gas irel_init : pres.

Lemma irel_link mem req : pres irel (link_syscall call mem req).
Proof.
  unfold link_syscall. do 2 (apply pres_bind; [exact _|by auto with pres|intros []]).
  destruct (no_space req mem); [solve_pres|]. intros i. unfold gets. rewrite (bind_ok _ _ i (iv_kernel i) i) by done.
  pose proof (crel_dispatch req (mkCtx _ (iv_kernel i) mem)) as Hd.
  destruct (dispatch call req (mkCtx _ (iv_kernel i) mem)) as [out ctx]. unfold crel in Hd. simpl in Hd.
  set (rest := match out with Ok _ => _ | Err _ => _ end).
  assert (pres irel rest) as Hrest by (unfold rest; solve_pres).
  rewrite (bind_ok _ _ i tt (iv_set_kernel (ctx_kernel ctx) i)) by done.
  etrans; [|apply Hrest]. exact Hd.
Qed.
#[local] Hint Resolve irel_link : pres.

Lemma irel_limited grow des mx : (∀ l, lim_le l (grow l).2) → pres irel (limited grow des mx).
Proof.
  intros Hg. unfold limited. destruct (match mx with Some m => m <? des | None => false end); [solve_pres|].
  apply pres_bind; [exact _|solve_pres|intros l]. apply pres_bind; [exact _| |intros; solve_pres].
  apply pres_modify. intros i _. simpl. split_and!; try done.
  apply (rel_limits ro X (λ l, (grow l).2) Hg (k_cm (iv_kernel i))).
Qed.

Lemma irel_run g : pres irel (run_guest call g).
Proof.
  induction g as [gas ret|gas t|cur des mx k IH|cur des mx k IH|gas mem req k IH]; simpl; [solve_pres|solve_pres|..].
  - apply pres_bind; [exact _|apply irel_limited; intros; apply lim_le_grow_instance|done].
  - apply pres_bind; [exact _|apply irel_limited; intros; apply lim_le_grow_table|done].
  - apply pres_bind; [exact _|pres_step|intros _].
    apply pres_bind; [exact _|pres_step|intros [err mem']].
    apply pres_bind; [exact _|pres_step|intros g]. apply IH.
Qed.
#[local] Hint Resolve irel_run : pres.
Lemma irel_instantiate code : pres irel (instantiate call code).
Proof. unfold instantiate. solve_pres. Qed.
#[local] Hint Resolve irel_instantiate : pres.
Lemma irel_invoke code e p ex : pres irel (invoke call code e p ex).
Proof. unfold invoke. solve_pres. Qed.
End syscalls.

(** ** Calls *)

Section calls.
Context `{H : Host} {ES : EnvSpec} (ro : bool) (X : relation CM) `{HX : !Adm ro X}.
#[local] Existing Instance X_preorder.

Section level.
Context (call : CallFn) (Hcall : call_carries ro X call).

Lemma rel_record_failure e to code msg err : pres (cm_rel X) (record_failure e to code msg err).
Proof. unfold record_failure. solve_pres. Qed.
#[local] Hint Resolve rel_record_failure : pres.

Lemma rel_run_callee br code from to e p ex v read_only :
  (ro = true → read_only = true) →
  pres (cm_rel X) (run_callee call br code from to e p ex v read_only).
Proof.
  intros Hro c. unfold run_callee, gets. rewrite (bind_ok _ _ c c c) by done.
  set (k := mkKernel _ from to (entry_method_num e) v read_only c br).
  pose proof (irel_invoke ro X call Hcall code e p ex (new_store k)) as Hi.
  destruct (invoke call code e p ex (new_store k)) as [result i].
  destruct Hi as (_ & _ & _ & Hc & _); [done|]. simpl in Hc. cbn zeta.
  set (rest := mbind _ (match return_block _ _ with Ok _ => _ | Err _ => _ end)).
  assert (pres (cm_rel X) rest) as Hrest by (unfold rest; solve_pres).
  rewrite (bind_ok _ _ c tt (k_cm (iv_kernel i))) by done. etrans; [exact Hc|apply Hrest].
Qed.

Lemma rel_call_resolved from to e params v read_only :
  (ro = true → read_only = true) → (ro = true → v = 0) →
  pres (cm_rel X) (call_actor_resolved call from to e params v read_only).
Proof.
  intros Hro Hv. unfold call_actor_resolved.
  destruct (Z.eqb_spec v 0) as [_|Hne].
  - solve_pres. by apply rel_run_callee.
  - assert (ro = false) as Hf by (destruct ro; [by specialize (Hv eq_refl)|done]).
    solve_pres. by apply rel_run_callee.
Qed.
#[local] Hint Resolve rel_call_resolved : pres.

Lemma rel_create_account a : ro = false → pres (cm_rel X) (create_account_actor_from_send call a).
Proof.
  intros Hf. unfold create_account_actor_from_send.
  assert (ro = true → false = true) by (by rewrite Hf). solve_pres.
Qed.
Lemma rel_create_placeholder a : ro = false → pres (cm_rel X) (create_placeholder_actor_from_send a).
Proof. intros Hf. unfold create_placeholder_actor_from_send. solve_pres. Qed.
#[local] Hint Resolve rel_create_account rel_create_placeholder : pres.

(** The call stack is pushed and popped around the body. *)
Lemma rel_stack_bracket {A} (f : M CM A) x :
  pres (cm_rel X) f →
  pres (cm_rel X) (_ ← modify (λ c, cm_set_stack (cm_call_stack c ++ [x]) c);
    res ← attempt f; _ ← modify (λ c, cm_set_stack (removelast (cm_call_stack c)) c); lift res).
Proof.
  intros Hf c. unfold mbind, M_bind, modify, attempt, lift.
  set (c1 := cm_set_stack (cm_call_stack c ++ [x]) c).
  pose proof (Hf c1) as [(?&?&?&?&?&?&Hs&?) Hx]. destruct (f c1) as [r c2]. simpl in *.
  split.
  - unfold cm_frame; simpl. rewrite Hs, removelast_last. by split_and!.
  - etrans; [|etrans; [exact Hx|]]; by apply (adm_read (ro := ro)).
Qed.

Lemma rel_unchecked from to e params v read_only :
  (ro = true → read_only = true) → (ro = true → v = 0) →
  pres (cm_rel X) (call_actor_unchecked call from to e params v read_only).
Proof.
  intros Hro Hv. unfold call_actor_unchecked.
  assert (read_only = false → ro = false) as Hf by (destruct ro, read_only; naive_solver).
  apply pres_bind; [exact _|by apply (rel_resolve ro X)|intros o].
  apply pres_bind; [exact _| |intros id; apply rel_stack_bracket; by apply rel_call_resolved].
  destruct read_only; solve_pres.
Qed.

Lemma rel_trace_call from to e params v l read_only :
  pres (cm_rel X) (trace_call from to e params v l read_only).
Proof. unfold trace_call. solve_pres. Qed.
Lemma rel_trace_return e r : pres (cm_rel X) (trace_return e r).
Proof. unfold trace_return. solve_pres. Qed.

(** A gas limit is pushed and popped around the body. *)
Lemma rel_limit_bracket {A B} (f : M CM A) limit (k : Result A → M CM B) :
  pres (cm_rel X) f → (∀ r, pres (cm_rel X) (k r)) →
  pres (cm_rel X) (_ ← (match limit with Some l => on_gas (push_limit l) | None => mret tt end);
    r ← attempt f; _ ← (match limit with Some _ => on_gas pop_limit | None => mret tt end); k r).
Proof.
  intros Hf Hk. destruct limit as [l|]; [|solve_pres]. intros c.
  unfold mbind, M_bind, on_gas, attempt, zoom at 1. cbn [push_limit].
  set (c1 := cm_set_gas _ c). pose proof (Hf c1) as [(?&?&Hg&?&?&?&?&?) Hx].
  destruct (f c1) as [r c2]. simpl in Hg, Hx.
  destruct (push_pop_le l (cm_gas c) (cm_gas c2) Hg) as (g3 & Hpop & Hg3 & _).
  unfold zoom. rewrite Hpop. etrans; [|apply Hk]. split.
  - unfold cm_frame; simpl in *. by split_and!.
  - etrans; [|etrans; [exact Hx|]]; by apply (adm_read (ro := ro)).
Qed.

Lemma rel_call_step from to e params v l read_only :
  (ro = true → read_only = true) → (ro = true → v = 0) →
  pres (cm_rel X) (call_actor_step call from to e params v l read_only).
Proof.
  intros Hro Hv. unfold call_actor_step.
  apply pres_bind; [exact _|apply rel_trace_call|intros []].
  apply rel_limit_bracket; [by apply (rel_stack_frame ro X), rel_unchecked|].
  intros r. apply pres_bind; [exact _|apply pres_gets; exact _|intros g].
  apply pres_bind; [exact _|apply rel_trace_return|intros []]. apply pres_lift; exact _.
Qed.
End level.

(** Whatever the guests do, a call carries [X]. *)
Lemma rel_call_actor n : call_carries ro X (call_actor n).
Proof.
  induction n as [|n IH]; intros from to e params v l read_only Hro Hv; simpl.
  - apply pres_throw; exact _.
  - by apply rel_call_step.
Qed.
End calls.
