(* ===== verification/Supply.v ===== *)
(** * Token supply

    The sum of all actors' balances, what the call manager's operations do to
    single actors, and the proof that no operation creates tokens. *)

From S2P Require Import Prelude Effects Gas PriceList Address HistoryMap Types StateTree.
From S2P Require Import Access Blocks Machine Ipld Host CallManager Frame Kernel Syscalls.
From S2P Require Import Invocation Carry.
From stdpp Require Import gmap strings list fin_maps.
From Stdlib Require Import ZArith Lia.
#[local] Open Scope Z_scope.

(** ** Sums of balances *)

Definition bal (o : option ActorState) : TokenAmount :=
  match o with Some a => as_balance a | None => 0 end.

Definition balance_sum (v : gmap ActorID ActorState) : TokenAmount :=
  map_fold (λ _ a s, as_balance a + s) 0 v.

Lemma balance_sum_insert_new id a v :
  v !! id = None → balance_sum (<[id := a]> v) = as_balance a + balance_sum v.
Proof. intros Hn. unfold balance_sum. rewrite map_fold_insert_L; [done| |done]. intros; lia. Qed.

Lemma balance_sum_delete id v : balance_sum (delete id v) = balance_sum v - bal (v !! id).
Proof.
  destruct (v !! id) as [a|] eqn:Hl; simpl.
  - rewrite <-(insert_delete_id v id a Hl) at 2.
    rewrite balance_sum_insert_new by (by rewrite lookup_delete_eq). lia.
  - rewrite delete_id by done. lia.
Qed.

Lemma balance_sum_insert id a v :
  balance_sum (<[id := a]> v) = balance_sum v - bal (v !! id) + as_balance a.
Proof.
  rewrite <-insert_delete_eq, balance_sum_insert_new by (by rewrite lookup_delete_eq).
  rewrite balance_sum_delete. lia.
Qed.

(** ** Single actors *)

Section actors.
Context `{H : Host} {ES : EnvSpec}.
Implicit Type m : gmap bytes ActorState.

Definition cm_at m (c : CM) : ActorID → option ActorState := actor_at m (cm_tree c).
Definition cm_inv m (c : CM) : Prop := st_inv m (cm_tree c).

Lemma same_at m c c' : cm_same c c' → cm_inv m c → cm_inv m c' ∧ ∀ id, cm_at m c' id = cm_at m c id.
Proof. intros [Hr _] Hi. by apply Hr. Qed.

Lemma cm_get_actor_at m id c r c' :
  cm_inv m c → cm_get_actor id c = (r, c') →
  cm_same c c' ∧ (∀ o, r = Ok o → o = cm_at m c id).
Proof.
  intros Hi Hg. split; [pose proof (same_get_actor id c) as Hs; by rewrite Hg in Hs|].
  intros o ->. unfold cm_get_actor in Hg.
  apply bind_inv_ok in Hg as (acc & c1 & [= _ <-] & Hg).
  apply bind_inv_ok in Hg as ([] & c2 & Hch & Hg).
  assert (cm_tree c2 = cm_tree c) as Ht.
  { destruct (lt_read acc); [|by injection Hch as <-].
    unfold charge_gas, mbind, M_bind, gets, on_gas, zoom in Hch.
    destruct (apply_charge _ _). by simplify_eq/=. }
  apply bind_inv_ok in Hg as (o' & c3 & Hgt & Hg). unfold on_tree, zoom in Hgt.
  destruct (get_actor_spec m id (cm_tree c2)) as (ch & Egt & _); [by rewrite Ht|].
  rewrite Egt in Hgt. apply bind_inv_ok in Hg as ([] & c4 & _ & [= <- _]).
  simplify_eq. unfold cm_at. by rewrite Ht.
Qed.

Lemma charge_update_tree id c r c' : charge_update id c = (r, c') → cm_tree c' = cm_tree c ∧ cm_events c' = cm_events c.
Proof.
  unfold charge_update, charge_gas, mbind, M_bind, mret, M_ret, gets, on_gas, zoom. simpl.
  destruct (lt_read _), (lt_updated _); 
    repeat (destruct (apply_charge _ _) as [[[]|?] ?]; simpl); intros Hq; by simplify_eq/=.
Qed.

(** A write either does not happen (no gas left to pay for it) or sets exactly
    that actor. *)
Lemma cm_write_at m id (o : option ActorState) (op : M StateTree unit) c r c' :
  (∀ t, op t = (Ok tt, st_set_actors (hm_insert id (mkEntry true o) (actor_cache t)) t)) →
  cm_inv m c → (_ ← charge_update id; _ ← on_tree op; on_access (record_actor_update id)) c = (r, c') →
  cm_inv m c' ∧ evs_events (cm_events c') = evs_events (cm_events c) ∧
  match r with
  | Ok _ => ∀ j, cm_at m c' j = if decide (id = j) then o else cm_at m c j
  | Err _ => ∀ j, cm_at m c' j = cm_at m c j
  end.
Proof.
  intros Hop Hi Hs. unfold mbind at 1, M_bind at 1 in Hs.
  destruct (charge_update id c) as [[[]|e] c1] eqn:Hch;
    apply charge_update_tree in Hch as [Ht He]; [|injection Hs as <- <-].
  - unfold mbind, M_bind, on_tree, on_access, modify, zoom in Hs. rewrite Hop in Hs.
    injection Hs as <- <-.
    unfold cm_inv, cm_at. simpl. rewrite Ht, He. split_and!; [|done|].
    + apply st_inv_actors; [done|]. by apply cache_ok_insert, Hi.
    + intros j. unfold actor_at. simpl. by rewrite cache_at_insert.
  - unfold cm_inv, cm_at. by rewrite Ht, He.
Qed.

Lemma cm_set_actor_at m id a c r c' :
  cm_inv m c → cm_set_actor id a c = (r, c') →
  cm_inv m c' ∧ evs_events (cm_events c') = evs_events (cm_events c) ∧
  match r with
  | Ok _ => ∀ j, cm_at m c' j = if decide (id = j) then Some a else cm_at m c j
  | Err _ => ∀ j, cm_at m c' j = cm_at m c j
  end.
Proof. by apply cm_write_at. Qed.
Lemma cm_delete_actor_at m id c r c' :
  cm_inv m c → cm_delete_actor id c = (r, c') →
  cm_inv m c' ∧ evs_events (cm_events c') = evs_events (cm_events c) ∧
  match r with
  | Ok _ => ∀ j, cm_at m c' j = if decide (id = j) then None else cm_at m c j
  | Err _ => ∀ j, cm_at m c' j = cm_at m c j
  end.
Proof. by apply cm_write_at. Qed.
Lemma charge_tree f c : cm_tree (charge_gas f c).2 = cm_tree c ∧ cm_events (charge_gas f c).2 = cm_events c.
Proof. unfold charge_gas, mbind, M_bind, gets, on_gas, zoom. by destruct (apply_charge _ _). Qed.

(** ** Errors of the metered operations *)

(** The only error of an operation on a sound tree is running out of gas. *)
Definition dry {A} (r : Result A) (c : CM) : Prop :=
  match r with Ok _ => True | Err e => e = OutOfGas ∧ gas_available (cm_gas c) = 0%N end.

Lemma charge_dry f c r c' : charge_gas f c = (r, c') → dry r c'.
Proof.
  unfold charge_gas, mbind, M_bind, gets, on_gas, zoom, apply_charge, charge_gas_inner.
  destruct (_ <? _)%N; intros [= <- <-]; [|done]. split; [done|].
  unfold gas_available, gas_sub; simpl. lia.
Qed.
Lemma charge_update_dry id c r c' : charge_update id c = (r, c') → dry r c'.
Proof.
  unfold charge_update. intros Hrun. unfold mbind at 1, M_bind at 1, gets in Hrun.
  set (m := if lt_read _ then _ else _) in Hrun. unfold mbind, M_bind in Hrun.
  destruct (m c) as [[[]|e] c1] eqn:Hm.
  - destruct (lt_updated _); [by eapply charge_dry|by injection Hrun as <- <-].
  - injection Hrun as <- <-. unfold m in Hm. destruct (lt_read _); [|done].
    by apply charge_dry in Hm.
Qed.
Lemma set_actor_dry id a c r c' : cm_set_actor id a c = (r, c') → dry r c'.
Proof.
  unfold cm_set_actor, mbind, M_bind. destruct (charge_update id c) as [[[]|e] c1] eqn:Hu.
  - by intros [= <- <-].
  - intros [= <- <-]. by apply charge_update_dry in Hu.
Qed.
Lemma get_actor_dry m id c r c' : cm_inv m c → cm_get_actor id c = (r, c') → dry r c'.
Proof.
  intros Hi Hrun. unfold cm_get_actor in Hrun. unfold mbind at 1, M_bind at 1, gets in Hrun.
  set (ch := if lt_read _ then _ else _) in Hrun. unfold mbind at 1, M_bind at 1 in Hrun.
  destruct (ch c) as [[[]|e] c1] eqn:Hch.
  - assert (cm_tree c1 = cm_tree c) as Ht.
    { unfold ch in Hch. destruct (lt_read _); [|by injection Hch as <-].
      pose proof (charge_tree on_actor_lookup c) as [Ht _]. by rewrite Hch in Ht. }
    unfold mbind, M_bind, on_tree, zoom in Hrun.
    destruct (get_actor_spec m id (cm_tree c1)) as (x & Hg & _); [by rewrite Ht|].
    rewrite Hg in Hrun. by injection Hrun as <- <-.
  - injection Hrun as <- <-. unfold ch in Hch. destruct (lt_read _); [|done].
    by apply charge_dry in Hch.
Qed.

End actors.

(** ** Transfers *)

Section transfers.
Context `{H : Host} {ES : EnvSpec}.
Implicit Type m : gmap bytes ActorState.

(** What a transfer does to the actors: nothing, the whole transfer, or (when
    gas runs out between the two writes) only the deduction. *)
Definition moved m (c c' : CM) (from to : ActorID) (v : TokenAmount) (r : Result unit) : Prop :=
  match r with
  | Ok _ =>
      0 ≤ v ∧ ∃ fa, cm_at m c from = Some fa ∧ v ≤ as_balance fa ∧
      ((from = to ∧ ∀ j, cm_at m c' j = cm_at m c j) ∨
       (from ≠ to ∧ ∃ ta, cm_at m c to = Some ta ∧ ∀ j, cm_at m c' j =
          if decide (to = j) then Some (as_set_balance (as_balance ta + v) ta)
          else if decide (from = j) then Some (as_set_balance (as_balance fa - v) fa)
          else cm_at m c j))
  | Err e =>
      (∀ j, cm_at m c' j = cm_at m c j) ∨
      (e = OutOfGas ∧ 0 ≤ v ∧ ∃ fa, cm_at m c from = Some fa ∧ v ≤ as_balance fa ∧ ∀ j, cm_at m c' j =
         if decide (from = j) then Some (as_set_balance (as_balance fa - v) fa) else cm_at m c j)
  end.

Lemma transfer_writes m from to v fa ta c0 c r c' :
  0 ≤ v → v ≤ as_balance fa → from ≠ to → cm_inv m c → (∀ j, cm_at m c j = cm_at m c0 j) →
  cm_at m c0 from = Some fa → cm_at m c0 to = Some ta →
  (_ ← cm_set_actor from (as_set_balance (as_balance fa - v) fa);
   cm_set_actor to (as_set_balance (as_balance ta + v) ta)) c = (r, c') →
  cm_inv m c' ∧ evs_events (cm_events c') = evs_events (cm_events c) ∧ moved m c0 c' from to v r.
Proof.
  intros Hv Hle Hne Hi Hsame Hfa Hta Hrun. unfold mbind, M_bind in Hrun.
  destruct (cm_set_actor from _ c) as [[[]|e] c1] eqn:H1.
  - destruct (cm_set_actor_at m _ _ _ _ _ Hi H1) as (Hi1 & He1 & Hat1).
    destruct (cm_set_actor_at m _ _ _ _ _ Hi1 Hrun) as (Hi2 & He2 & Hat2).
    split_and!; [done|congruence|]. destruct r as [[]|e]; simpl.
    + split; [done|]. exists fa. split_and!; [done|done|]. right. split; [done|].
      exists ta. split; [done|]. intros j. rewrite Hat2, Hat1, Hsame. done.
    + apply set_actor_dry in Hrun as [-> _].
      right. split_and!; [done|done|]. exists fa. split_and!; [done|done|].
      intros j. rewrite Hat2, Hat1, Hsame. done.
  - injection Hrun as <- <-. destruct (cm_set_actor_at m _ _ _ _ _ Hi H1) as (Hi1 & He1 & Hat1).
    split_and!; [done|done|]. left. intros j. by rewrite Hat1, Hsame.
Qed.

Lemma cm_transfer_at m from to v c r c' :
  cm_inv m c → cm_transfer from to v c = (r, c') →
  cm_inv m c' ∧ evs_events (cm_events c') = evs_events (cm_events c) ∧ moved m c c' from to v r.
Proof.
  intros Hi Hrun. unfold cm_transfer in Hrun.
  destruct (Z.ltb_spec v 0); [injection Hrun as <- <-; split_and!; try done; by left|].
  unfold mbind at 1, M_bind at 1 in Hrun.
  destruct (cm_get_actor from c) as [[o|e] c1] eqn:Hg1;
    destruct (cm_get_actor_at m _ _ _ _ Hi Hg1) as [Hs1 Ho1];
    destruct (same_at m _ _ Hs1 Hi) as [Hi1 Hat1];
    [|injection Hrun as <- <-; split_and!; [done|apply Hs1|by left]].
  specialize (Ho1 o eq_refl). unfold mbind at 1, M_bind at 1, lift at 1 in Hrun.
  destruct o as [fa|]; simpl in Hrun; [|injection Hrun as <- <-; split_and!; [done|apply Hs1|by left]].
  destruct (Z.ltb_spec (as_balance fa) v); [injection Hrun as <- <-; split_and!; [done|apply Hs1|by left]|].
  destruct (Z.eqb_spec from to) as [->|Hne].
  { injection Hrun as <- <-. split_and!; [done|apply Hs1|]. split; [done|]. exists fa.
    split_and!; [done|done|]. by left. }
  unfold mbind at 1, M_bind at 1 in Hrun.
  destruct (cm_get_actor to c1) as [[o|e] c2] eqn:Hg2;
    destruct (cm_get_actor_at m _ _ _ _ Hi1 Hg2) as [Hs2 Ho2];
    destruct (same_at m _ _ Hs2 Hi1) as [Hi2 Hat2];
    [|injection Hrun as <- <-; split_and!; [done|destruct Hs1, Hs2; congruence|];
      left; intros j; by rewrite Hat2, Hat1].
  specialize (Ho2 o eq_refl). rewrite Hat1 in Ho2.
  unfold mbind at 1, M_bind at 1, lift at 1 in Hrun.
  destruct o as [ta|]; simpl in Hrun;
    [|injection Hrun as <- <-; split_and!; [done|destruct Hs1, Hs2; congruence|];
      left; intros j; by rewrite Hat2, Hat1].
  unfold deduct_funds, deposit_funds, mbind at 1, M_bind at 1, lift at 1 in Hrun.
  destruct (Z.ltb_spec v 0), (Z.ltb_spec (as_balance fa) v); [lia..|]. simpl in Hrun.
  unfold mbind at 1, M_bind at 1, lift at 1 in Hrun.
  destruct (transfer_writes m from to v fa ta c c2 r c') as (?&?&?); try done.
  { intros j. by rewrite Hat2, Hat1. }
  split_and!; [done|destruct Hs1, Hs2; congruence|done].
Qed.
End transfers.

(** ** The other writes *)

Section writes.
Context `{H : Host} {ES : EnvSpec}.
Implicit Type m : gmap bytes ActorState.

(** Registration rewrites the init actor's state root and nothing else. *)
Lemma register_at m a t r t' :
  st_inv m t → register_new_address a t = (r, t') →
  st_inv m t' ∧
  ((∀ j, actor_at m t' j = actor_at m t j) ∨
   ∃ act c, actor_at m t INIT_ACTOR_ID = Some act ∧ ∀ j, actor_at m t' j =
     if decide (INIT_ACTOR_ID = j) then Some (as_set_state c act) else actor_at m t j).
Proof.
  intros Hi Hrun. unfold register_new_address in Hrun.
  unfold mbind at 1, M_bind at 1 in Hrun.
  pose proof (st_both_init_load t) as [_ Hr1]. destruct (Hr1 m Hi) as [Hi1 Hat1]. clear Hr1.
  assert (∀ st act t1, init_load t = (Ok (st, act), t1) → actor_at m t INIT_ACTOR_ID = Some act) as Hact.
  { intros st act t1 Hl. unfold init_load in Hl.
    destruct (get_actor_spec m INIT_ACTOR_ID t Hi) as (c & Eg & _).
    rewrite (bind_ok _ _ _ _ _ Eg) in Hl.
    destruct (actor_at m t INIT_ACTOR_ID) as [a0|]; [|by unfold mbind, M_bind, lift in Hl].
    unfold mbind, M_bind, lift, gets, mret, M_ret in Hl. simpl in Hl.
    destruct (get_cbor _ _) as [[?|]|]; simpl in Hl; congruence. }
  destruct (init_load t) as [[[st act]|e] t1]; simpl in Hi1, Hat1;
    [|injection Hrun as <- <-; auto]. specialize (Hact st act t1 eq_refl).
  unfold mbind at 1, M_bind at 1 in Hrun.
  pose proof (st_both_map_address st a t1) as [_ Hr2]. destruct (Hr2 m Hi1) as [Hi2 Hat2]. clear Hr2.
  destruct (map_address_to_new_id st a t1) as [[[id st']|e] t2]; simpl in Hi2, Hat2;
    [|injection Hrun as <- <-; split; [done|]; left; intros j; by rewrite Hat2, Hat1].
  unfold mbind at 1, M_bind at 1 in Hrun.
  pose proof (st_both_put_cbor st' BLAKE2B_256 t2) as [_ Hr3]. destruct (Hr3 m Hi2) as [Hi3 Hat3]. clear Hr3.
  destruct (st_write _ t2) as [[c|e] t3]; simpl in Hi3, Hat3;
    [|injection Hrun as <- <-; split; [done|]; left; intros j; by rewrite Hat3, Hat2, Hat1].
  injection Hrun as <- <-. split.
  - apply st_inv_resolve, st_inv_actors; [done|]. by apply cache_ok_insert, Hi3.
  - right. exists act, c. split; [done|]. intros j. unfold actor_at at 1. simpl.
    rewrite cache_at_insert. case_decide; [done|]. by rewrite <-Hat1, <-Hat2, <-Hat3.
Qed.

Lemma cm_update_at m id f e c r c' :
  cm_inv m c → cm_update_actor id f e c = (r, c') →
  cm_inv m c' ∧ evs_events (cm_events c') = evs_events (cm_events c) ∧
  match r with
  | Err _ => ∀ j, cm_at m c' j = cm_at m c j
  | Ok a => cm_at m c id = Some a ∧
      ∀ j, cm_at m c' j = if decide (id = j) then Some (f a) else cm_at m c j
  end.
Proof.
  intros Hi Hrun. unfold cm_update_actor, mbind at 1, M_bind at 1 in Hrun.
  destruct (cm_get_actor id c) as [[o|?] c1] eqn:Hg;
    destruct (cm_get_actor_at m _ _ _ _ Hi Hg) as [Hs1 Ho1];
    destruct (same_at m _ _ Hs1 Hi) as [Hi1 Hat1];
    [|injection Hrun as <- <-; split_and!; [done|apply Hs1|done]].
  specialize (Ho1 o eq_refl). unfold mbind at 1, M_bind at 1, lift in Hrun.
  destruct o as [a|]; simpl in Hrun; [|injection Hrun as <- <-; split_and!; [done|apply Hs1|done]].
  unfold mbind at 1, M_bind at 1 in Hrun.
  destruct (cm_set_actor id (f a) c1) as [[[]|?] c2] eqn:Hset; injection Hrun as <- <-;
    destruct (cm_set_actor_at m _ _ _ _ _ Hi1 Hset) as (Hi2 & He2 & Hat2);
    (split; [done|]); (split; [destruct Hs1; congruence|]).
  - split; [done|]. intros j. by rewrite Hat2, Hat1.
  - intros j. by rewrite Hat2, Hat1.
Qed.

(** What the creation of an actor installs over [o]: a fresh actor without
    funds, or a placeholder with its code filled in. *)
Definition created (b : Manifest) (code : Cid) (da : option Address) (o : option ActorState)
    (a : ActorState) : Prop :=
  match o with
  | None => a = new_empty code da
  | Some act => is_placeholder_actor b (as_code act) = true ∧ as_delegated_address act = da ∧
      da ≠ None ∧ a = as_set_code code act
  end.

Lemma created_balance b code da o a : created b code da o a → as_balance a = bal o.
Proof. destruct o as [act|]; [by intros (_ & _ & _ & ->)|by intros ->]. Qed.

Lemma create_set_at m id a c0 c r c' :
  cm_inv m c → evs_events (cm_events c) = evs_events (cm_events c0) →
  (∀ j, cm_at m c j = cm_at m c0 j) →
  (_ ← cm_set_actor id a; modify (λ c, cm_set_created (wrap64 (cm_num_actors_created c + 1)) c)) c = (r, c') →
  cm_inv m c' ∧ evs_events (cm_events c') = evs_events (cm_events c0) ∧
  match r with
  | Ok _ => ∀ j, cm_at m c' j = if decide (id = j) then Some a else cm_at m c0 j
  | Err _ => ∀ j, cm_at m c' j = cm_at m c0 j
  end.
Proof.
  intros Hi He Hat Hset. unfold mbind, M_bind in Hset.
  destruct (cm_set_actor id a c) as [[[]|?] c3] eqn:Es; injection Hset as <- <-;
    destruct (cm_set_actor_at m _ _ _ _ _ Hi Es) as (Hi3 & He3 & Hat3);
    (split; [done|]); (split; [simpl; congruence|]); intros j.
  - unfold cm_at at 1; simpl. fold (cm_at m c3 j). by rewrite Hat3, Hat.
  - by rewrite Hat3, Hat.
Qed.

Lemma cm_create_at m code id da c r c' :
  cm_inv m c → cm_create_actor code id da c = (r, c') →
  cm_inv m c' ∧ evs_events (cm_events c') = evs_events (cm_events c) ∧
  match r with
  | Err _ => ∀ j, cm_at m c' j = cm_at m c j
  | Ok _ => is_placeholder_actor (cm_builtin c) code = false ∧
      ∃ a, created (cm_builtin c) code da (cm_at m c id) a ∧
        ∀ j, cm_at m c' j = if decide (id = j) then Some a else cm_at m c j
  end.
Proof.
  intros Hi Hrun. unfold cm_create_actor, gets in Hrun.
  rewrite (bind_ok _ _ c (cm_builtin c) c) in Hrun by done.
  destruct (is_placeholder_actor (cm_builtin c) code) eqn:Hph; [injection Hrun as <- <-; by split_and!|].
  unfold mbind at 1, M_bind at 1 in Hrun.
  destruct (cm_get_actor id c) as [[o|?] c1] eqn:Hg;
    destruct (cm_get_actor_at m _ _ _ _ Hi Hg) as [Hs1 Ho1];
    destruct (same_at m _ _ Hs1 Hi) as [Hi1 Hat1];
    [|injection Hrun as <- <-; split_and!; [done|apply Hs1|done]].
  rewrite <-(Ho1 o eq_refl). destruct o as [act|].
  - destruct (is_placeholder_actor _ (as_code act)) eqn:Hpa;
      [|injection Hrun as <- <-; split_and!; [done|apply Hs1|done]].
    case_bool_decide as Hn; [injection Hrun as <- <-; split_and!; [done|apply Hs1|done]|].
    case_bool_decide as Hd; [injection Hrun as <- <-; split_and!; [done|apply Hs1|done]|].
    destruct (create_set_at m id (as_set_code code act) c c1 r c' Hi1 (proj2 Hs1) Hat1 Hrun) as (?&?&Hr).
    split; [done|]. split; [done|]. destruct r; [|done]. split; [done|].
    exists (as_set_code code act). split; [split_and!; congruence|done].
  - unfold mbind, M_bind in Hrun.
    pose proof (charge_tree (λ pl, on_create_actor pl false) c1) as [Ht2 He2].
    destruct (charge_gas (λ pl, on_create_actor pl false) c1) as [[[]|?] c2]; simpl in Ht2, He2.
    + assert (cm_inv m c2) as Hi2 by (unfold cm_inv; by rewrite Ht2).
      assert (∀ j, cm_at m c2 j = cm_at m c j) as Hat2 by (intros j; unfold cm_at at 1; rewrite Ht2; apply Hat1).
      assert (evs_events (cm_events c2) = evs_events (cm_events c)) as Hev2 by (rewrite He2; apply Hs1).
      destruct (create_set_at m id (new_empty code da) c c2 r c' Hi2 Hev2 Hat2 Hrun) as (?&?&Hr).
      split; [done|]. split; [done|]. destruct r; [|done]. split; [done|]. by eexists.
    + injection Hrun as <- <-. unfold cm_inv, cm_at. rewrite Ht2, He2.
      split; [done|]. split; [apply Hs1|done].
Qed.
End writes.

(** ** No operation creates tokens *)

Section supply.
Context `{H : Host} {ES : EnvSpec}.
(** The content of the HAMT, by key and by actor. *)
Context (m : gmap bytes ActorState) (bm : gmap ActorID ActorState).
Context (Hbm : ∀ id, m !! actor_key id = bm !! id).

(** All actors of a tree, as one map. *)
Definition tree_view (t : StateTree) : gmap ActorID ActorState :=
  merge (λ e b, match e with Some e => actor e | None => b end) (hm_map (actor_cache t)) bm.
Definition tree_total (t : StateTree) : TokenAmount := balance_sum (tree_view t).
Definition tree_solvent (t : StateTree) : Prop := ∀ id, 0 ≤ bal (actor_at m t id).

Definition token_total (c : CM) : TokenAmount := tree_total (cm_tree c).
Definition solvent (c : CM) : Prop := ∀ id, 0 ≤ bal (cm_at m c id).

Lemma tree_view_at t id : tree_view t !! id = actor_at m t id.
Proof.
  unfold tree_view, actor_at, cache_at. rewrite lookup_merge, Hbm.
  by destruct (hm_map _ !! id), (bm !! id).
Qed.

Lemma tree_total_same t t' : (∀ j, actor_at m t' j = actor_at m t j) → tree_total t' = tree_total t.
Proof. intros Hs. unfold tree_total. f_equal. apply map_eq. intros j. by rewrite !tree_view_at. Qed.

Lemma tree_total_set t t' id o :
  (∀ j, actor_at m t' j = if decide (id = j) then o else actor_at m t j) →
  tree_total t' = tree_total t - bal (actor_at m t id) + bal o.
Proof.
  intros Hs. unfold tree_total. rewrite <-(tree_view_at t id). destruct o as [a|]; simpl.
  - rewrite <-balance_sum_insert. f_equal. apply map_eq. intros j.
    by rewrite tree_view_at, Hs, lookup_insert, tree_view_at.
  - rewrite Z.add_0_r, <-balance_sum_delete. f_equal. apply map_eq. intros j.
    rewrite tree_view_at, Hs, lookup_delete, tree_view_at. done.
Qed.

Lemma total_same c c' : (∀ j, cm_at m c' j = cm_at m c j) → token_total c' = token_total c.
Proof. apply tree_total_same. Qed.
Lemma total_set c c' id o :
  (∀ j, cm_at m c' j = if decide (id = j) then o else cm_at m c j) →
  token_total c' = token_total c - bal (cm_at m c id) + bal o.
Proof. apply tree_total_set. Qed.

Definition supply_le (c c' : CM) : Prop :=
  cm_inv m c → solvent c → cm_inv m c' ∧ solvent c' ∧ token_total c' ≤ token_total c.

#[export] Instance supply_le_preorder : PreOrder supply_le.
Proof.
  split; [by intros c|]. intros a b c H1 H2 Hi Hs.
  destruct (H1 Hi Hs) as (Hi' & Hs' & ?), (H2 Hi' Hs') as (? & ? & ?). split_and!; [done..|lia].
Qed.

Lemma supply_same c c' : cm_inv m c' → (∀ j, cm_at m c' j = cm_at m c j) → supply_le c c'.
Proof.
  intros Hi' Hs Hi Hsol. split_and!; [done|intros j; rewrite Hs; apply Hsol|].
  by rewrite (total_same c c').
Qed.

(** One actor is replaced by a poorer one. *)
Lemma supply_set c c' id o :
  cm_inv m c' → (∀ j, cm_at m c' j = if decide (id = j) then o else cm_at m c j) →
  0 ≤ bal o ≤ bal (cm_at m c id) → supply_le c c'.
Proof.
  intros Hi' Hs Hb Hi Hsol. split_and!; [done| |].
  - intros j. rewrite Hs. case_decide; [lia|apply Hsol].
  - rewrite (total_set c c' id o Hs). lia.
Qed.

(** Two actors exchange funds. *)
Lemma total_transfer c c' from to v fa ta :
  from ≠ to → cm_at m c from = Some fa → cm_at m c to = Some ta →
  (∀ j, cm_at m c' j =
     if decide (to = j) then Some (as_set_balance (as_balance ta + v) ta)
     else if decide (from = j) then Some (as_set_balance (as_balance fa - v) fa)
     else cm_at m c j) →
  token_total c' = token_total c.
Proof.
  intros Hne Hf Ht Hs. unfold token_total, tree_total.
  assert (tree_view (cm_tree c') = <[to := as_set_balance (as_balance ta + v) ta]>
    (<[from := as_set_balance (as_balance fa - v) fa]> (tree_view (cm_tree c)))) as ->.
  { apply map_eq. intros j. rewrite tree_view_at, !lookup_insert, tree_view_at. apply Hs. }
  rewrite !balance_sum_insert, lookup_insert_ne by done.
  rewrite !tree_view_at. unfold cm_at in *. rewrite Hf, Ht. simpl. lia.
Qed.

Lemma supply_transfer from to v : pres supply_le (cm_transfer from to v).
Proof.
  intros c Hi Hsol. destruct (cm_transfer from to v c) as [r c'] eqn:Hrun.
  destruct (cm_transfer_at m _ _ _ _ _ _ Hi Hrun) as (Hi' & _ & Hm). simpl.
  destruct r as [[]|e]; simpl in Hm.
  - destruct Hm as (Hv & fa & Hfa & Hle & [[-> Hs]|(Hne & ta & Hta & Hs)]).
    + by apply (supply_same c c').
    + split_and!; [done| |by rewrite (total_transfer c c' from to v fa ta)].
      intros j. rewrite Hs. pose proof (Hsol j) as Hj. pose proof (Hsol to) as Htj. rewrite Hta in Htj.
      simpl in Htj. repeat case_decide; simpl; try lia; done.
  - destruct Hm as [Hs|(_ & Hv & fa & Hfa & Hle & Hs)]; [by apply (supply_same c c')|].
    eapply (supply_set c c' from); [done|exact Hs| |done..]. rewrite Hfa. simpl. lia.
Qed.

Lemma supply_from_send a code da : pres supply_le (create_actor_from_send a (new_empty code da)).
Proof.
  intros c Hi Hsol. destruct (create_actor_from_send a _ c) as [r c'] eqn:Hrun. simpl.
  unfold create_actor_from_send, mbind at 1, M_bind at 1 in Hrun.
  pose proof (charge_tree (λ pl, on_create_actor pl true) c) as [Ht1 _].
  destruct (charge_gas _ c) as [[[]|?] c1]; simpl in Ht1;
    [|injection Hrun as <- <-; apply (supply_same c c1); unfold cm_inv, cm_at; rewrite ?Ht1; done].
  unfold mbind at 1, M_bind at 1, on_tree, zoom in Hrun.
  destruct (register_new_address a (cm_tree c1)) as [r2 t2] eqn:Hreg.
  rewrite Ht1 in Hreg. destruct (register_at m a _ _ _ Hi Hreg) as [Hi2 Hat2].
  assert (supply_le c (cm_set_tree t2 c1)) as H2.
  { destruct Hat2 as [Hs|(act & ci & Hact & Hs)]; [by apply supply_same|].
    eapply (supply_set c _ INIT_ACTOR_ID); [done|exact Hs|]. unfold cm_at. rewrite Hact. simpl.
    pose proof (Hsol INIT_ACTOR_ID) as Hb. unfold cm_at in Hb. rewrite Hact in Hb. simpl in Hb. lia. }
  destruct (H2 Hi Hsol) as (Hi3 & Hsol3 & Hle3).
  destruct r2 as [id|?]; [|by injection Hrun as <- <-].
  unfold mbind, M_bind, on_access, modify in Hrun.
  set (c3 := cm_set_access _ (cm_set_tree t2 c1)) in Hrun.
  destruct (cm_set_actor id (new_empty code da) c3) as [r4 c4] eqn:Hset.
  destruct (cm_set_actor_at m _ _ _ _ _ (Hi3 : cm_inv m c3) Hset) as (Hi4 & _ & Hat4).
  assert (supply_le c3 c4) as H4.
  { destruct r4; [|by apply supply_same]. eapply (supply_set c3 c4 id); [done|exact Hat4|].
    simpl. split; [lia|]. apply (Hsol3 id). }
  destruct (H4 Hi3 Hsol3) as (?&?&?).
  assert (token_total c3 = token_total (cm_set_tree t2 c1)) as E3 by by apply total_same.
  destruct r4; injection Hrun as <- <-; (split_and!; [done..|lia]).
Qed.

Lemma supply_create code id da : pres supply_le (cm_create_actor code id da).
Proof.
  intros c Hi Hsol. destruct (cm_create_actor code id da c) as [r c'] eqn:Hrun.
  destruct (cm_create_at m _ _ _ _ _ _ Hi Hrun) as (Hi' & _ & Hr); simpl.
  destruct r as [[]|]; [|by apply (supply_same c c')]. destruct Hr as (_ & a & Hb%created_balance & Hs).
  eapply (supply_set c c' id); [done|exact Hs| |done..]. simpl. pose proof (Hsol id). lia.
Qed.

Lemma supply_update id f e :
  (∀ a, as_balance (f a) = as_balance a) → pres supply_le (cm_update_actor id f e).
Proof.
  intros Hf c Hi Hsol. destruct (cm_update_actor id f e c) as [r c'] eqn:Hrun.
  destruct (cm_update_at m _ _ _ _ _ _ Hi Hrun) as (Hi' & _ & Hr); simpl.
  destruct r as [a|]; [|by apply (supply_same c c')]. destruct Hr as [Ha Hs].
  eapply (supply_set c c' id); [done|exact Hs| |done..]. simpl. pose proof (Hsol id) as Hb.
  rewrite Ha in *. simpl in *. rewrite Hf. lia.
Qed.

Lemma supply_delete id : pres supply_le (cm_delete_actor id).
Proof.
  intros c Hi Hsol. destruct (cm_delete_actor id c) as [r c'] eqn:Hrun.
  destruct (cm_delete_actor_at m _ _ _ _ Hi Hrun) as (Hi' & _ & Hs). simpl.
  destruct r; [|by apply (supply_same c c')].
  eapply (supply_set c c' id); [done|exact Hs| |done..]. simpl. split; [lia|apply Hsol].
Qed.

#[export] Instance supply_adm : Adm false supply_le.
Proof.
  split; try exact _; intros.
  - intros Hi Hsol. match goal with Hr : st_read _ _ |- _ => destruct (Hr m Hi) as [Hi' Hat] end.
    by apply (supply_same c c').
  - apply supply_transfer.
  - apply supply_create.
  - apply supply_from_send.
  - by apply supply_update.
  - apply supply_delete.
  - intros c Hi Hsol. split_and!; [done|done|]. by apply Z.eq_le_incl, total_same.
Qed.
End supply.
