(* ===== verification/Persist.v ===== *)
(** * Persistence (fvm/src/machine/default.rs, fvm/src/system_actor.rs, Manifest::load)

    The machine runs on the write buffer. Building one reads the state root, the
    system actor and the manifest through it; flushing one writes the state tree
    and moves the blocks below the new root to the client. The theorem puts the
    state tree, the HAMT and the buffer together: what the client holds after
    a flush is enough to load the tree again. *)

From S2P Require Import Prelude Effects Gas PriceList Address HistoryMap Types HamtBits HamtCommon Hamt HamtRep HamtMap HamtTop.
From S2P Require Import StateTree Blocks Machine Ipld Buffered Host CallManager Executor.
From stdpp Require Import gmap strings list fin_maps.
From Stdlib Require Import ZArith Lia.
#[local] Open Scope Z_scope.

(** The system actor's state. *)
Record SystemState := mkSystemState { builtin_actors : Cid }.

(** ** Environments over a blockstore

    The same codecs and HAMT parameters, over any blockstore. *)
Section env.
Context `{VI : Varint} `{CR : !Cbor StateRoot} `{CI : !Cbor InitState}.
Context `{CA : !Cbor (NodeBlock ActorState)} `{CN : !Cbor (NodeBlock ActorID)} (conf : Config) (H : bytes → bytes).

Definition env_over (bs : Blockstore) : Env := {|
  env_bs := bs;
  env_varint := VI;
  env_state_root := CR;
  env_init_state := CI;
  env_actors := @hamt_ops bs ActorState _ CA conf H;
  env_addresses := @hamt_ops bs ActorID _ CN conf H;
|}.
End env.

Section machine.
Context `{BS : Blockstore} `{CP : CidParser}.
Context `{VI : Varint} `{CR : !Cbor StateRoot} `{CI : !Cbor InitState}.
Context `{CA : !Cbor (NodeBlock ActorState)} `{CN : !Cbor (NodeBlock ActorID)} (conf : Config) (H : bytes → bytes).
Context `{CS : !Cbor SystemState} `{CM : !Cbor (list (string * Cid))} `{CO : !Cbor (Z * Cid)}.

Definition buffered_env : Env := env_over conf H (buffered_bs BS).
#[local] Existing Instance buffered_env.

(** [State::load] of the system actor. *)
Definition system_load : M StateTree (SystemState * ActorState) :=
  o ← get_actor SYSTEM_ACTOR_ID;
  system_act ← lift (ok_or o (Fatal "system actor address could not be resolved"));
  store ← gets st_store;
  o ← lift (or_fatal (get_cbor store (as_state system_act)));
  state ← lift (ok_or o (Fatal "system actor state not found"));
  mret (state, system_act).

Definition Manifest_load (bs : @Store (buffered_bs BS)) (root_cid : Cid) (ver : Z) : result string Manifest :=
  if negb (ver =? 1) then Err "unsupported manifest version {}"%string else
  match @get_cbor (buffered_bs BS) (list (string * Cid)) CM bs root_cid with
  | Err e => Err e
  | Ok None => Err "cannot find manifest root cid {}"%string
  | Ok (Some vec) => Manifest_new vec
  end.

Definition EMPTY_ARRAY_BLOCK : bytes := [128].
Definition put_empty_blocks (blockstore : @Store BS) : result string unit * @Store BS :=
  let '(r, s) := @bs_put BS blockstore BLAKE2B_256 DAG_CBOR EMPTY_ARRAY_BLOCK in
  (match r with Ok _ => Ok tt | Err e => Err e end, s).

(** Any error as the text of an [anyhow] error. *)
Definition anyhow {A} (r : Result A) : result string A :=
  match r with Ok a => Ok a | Err (Fatal m) => Err m | Err _ => Err "syscall error"%string end.

(** The CID and the version of the manifest. *)
Definition manifest_location (context : MachineContext) : M StateTree (Cid * Z) :=
  match builtin_actors_override (mc_network context) with
  | Some manifest_cid =>
      store ← gets st_store;
      match get_cbor (T := Z * Cid) store manifest_cid with
      | Ok (Some (version, cid)) => mret (cid, version)
      | Ok None => throw (Fatal "failed to load actor manifest")
      | Err e => throw (Fatal e)
      end
  | None => '(state, _) ← system_load; mret (builtin_actors state, 1)
  end.

(** [DefaultMachine::new], and the client's store as it leaves it. *)
Definition machine_new (context : MachineContext) (blockstore : @Store BS) : result string Machine * @Store BS :=
  let nv := network_version (mc_network context) in
  if negb ((21 <=? nv) && (nv <=? 25)) then (Err "unsupported network version: {}"%string, blockstore) else
  match @bs_has BS blockstore (mc_initial_state_root context) with
  | Err _ => (Err "failed to load initial state-root"%string, blockstore)
  | Ok false => (Err "blockstore doesn't have the initial state-root {}"%string, blockstore)
  | Ok true =>
      match put_empty_blocks blockstore with
      | (Err e, blockstore) => (Err e, blockstore)
      | (Ok _, blockstore) =>
          (match anyhow (st_new_from_root (bb_new blockstore) (mc_initial_state_root context)) with
           | Err e => Err e
           | Ok state_tree =>
               let '(r, state_tree) := manifest_location context state_tree in
               match anyhow r with
               | Err e => Err e
               | Ok (builtin_actors_cid, manifest_version) =>
                   match Manifest_load (st_store state_tree) builtin_actors_cid manifest_version with
                   | Err e => Err e
                   | Ok builtin => Ok (mkMachine _ context builtin state_tree)
                   end
               end
           end, blockstore)
      end
  end.

(** [Machine::flush]; a panic of the buffer's scanner is a fatal error here. *)
Definition machine_flush : M Machine Cid := λ m,
  match st_flush (ma_tree m) with
  | (Err e, t) => (Err e, mkMachine _ (ma_context m) (ma_builtin m) t)
  | (Ok root, t) =>
      let '(r, s) := bb_flush root (st_store t) in
      (match r with
       | Ok _ => Ok root
       | Err (FlushFailed msg) | Err (FlushPanic msg) => Err (Fatal msg)
       end, mkMachine _ (ma_context m) (ma_builtin m) (st_set_store s t))
  end.
End machine.

(** ** Moving a stored HAMT to the client *)

Section relocate.
Context `{BSS : BlockstoreSpec} `{CP : CidParser} `{CPS : !CidParserSpec}.
Context (blake2b_len : ∀ d, length (mh_digest BLAKE2B_256 d) = 32%nat).
Context (collision_free : ∀ h b b', mh_digest h b = mh_digest h b' → b = b')
  (base_addressed : ∀ s k b, store_ok s → bs_get s k = Ok (Some b) → addressed k b).

(** What lies below a block the client holds, it holds too: what
    [take_reachable] assumes of blocks that are not buffered. *)
Definition base_closed (base : Store) : Prop := ∀ k b cs c, bs_get base k = Ok (Some b) →
  block_links k b = Ok cs → c ∈ cs → stored c → ∃ b', bs_get base c = Ok (Some b').

Lemma block_cid_stored d : stored (block_cid DAG_CBOR BLAKE2B_256 d).
Proof using blake2b_len.
  split; [|done]. unfold check_cid, block_cid. simpl. rewrite blake2b_len. done.
Qed.

Context (root : Cid) (s s' : BufferedBlockstore).
Context (Hok : bb_ok s) (Hflush : bb_flush root s = (Ok tt, s')) (Hclosed : base_closed (bb_base s)).

(** Blocks that are with the client after the flush. *)
Definition available (c : Cid) : Prop :=
  stored c ∧ (reaches (bb_write s) root c ∨ ∃ b, bs_get (bb_base s) c = Ok (Some b)).

Lemma available_get c b : available c → bb_get s c = Ok (Some b) → bs_get (bb_base s') c = Ok (Some b).
Proof using CPS base_addressed collision_free Hok Hflush.
  intros [Hst Hav] Hg. destruct (flush_moves_reachable_lemma root s s' Hok Hflush) as (_ & Hle & _ & Hmv).
  pose proof (bb_get_addressed base_addressed s c b Hok Hg) as Ha. unfold bb_get in Hg.
  destruct (bb_write s !! c) as [b'|] eqn:Ew; [|by eapply store_le_get]. injection Hg as ->.
  destruct (Hmv c b Ew) as [(_ & _ & ? & _)|[Hn _]]; [done|]. destruct Hav as [Hr|[b' Hb']]; [by destruct Hn|].
  pose proof (base_addressed _ _ _ (proj1 Hok) Hb') as Ha'. unfold addressed in Ha, Ha'.
  assert (b' = b) as -> by (apply (collision_free (cid_hash_code c)); congruence). by eapply store_le_get.
Qed.

Lemma available_link c b cs c' : available c → bb_get s c = Ok (Some b) → cid_hash_code c ≠ IDENTITY_HASH →
  block_links c b = Ok cs → c' ∈ cs → stored c' → available c'.
Proof using base_addressed collision_free Hok Hclosed.
  intros [[Hchk _] Hav] Hg Hid Hl Hin Hst'. split; [done|].
  pose proof (bb_get_addressed base_addressed s c b Hok Hg) as Ha. unfold bb_get in Hg.
  destruct (bb_write s !! c) as [b'|] eqn:Ew; [injection Hg as ->|right; by eapply Hclosed].
  destruct Hav as [Hr|[b' Hb']].
  - left. eapply reaches_step; [exact Hr|]. unfold succs. apply Z.eqb_neq in Hid. by rewrite Hchk, Hid, Ew, Hl.
  - right. pose proof (base_addressed _ _ _ (proj1 Hok) Hb') as Ha'. unfold addressed in Ha, Ha'.
    assert (b' = b) as -> by (apply (collision_free (cid_hash_code c)); congruence). by eapply Hclosed.
Qed.

Section hamt.
Context {V : Type} `{CB : !Cbor (NodeBlock V)} (conf : Config) (H : bytes → bytes).
(** DAG-CBOR writes links where the scanner finds them. *)
Context (node_links : ∀ (b : NodeBlock V) bz, to_vec b = Ok bz → ∃ cs, scan_for_links bz [] = Ok cs ∧ ∀ c, BLink c ∈ b.2 → c ∈ cs).

Lemma pointers_serialize_link ps bs c : pointers_serialize ps = Ok bs → Link c None ∈ ps → BLink (V := V) c ∈ bs.
Proof using.
  revert bs. induction ps as [|p ps IH]; intros bs; [by intros _ ?%elem_of_nil|]. simpl.
  destruct (pointer_serialize p) as [b|] eqn:Ep; [|done]. destruct (pointers_serialize ps) as [bs'|]; [|done].
  intros [= <-] [<-|Hin]%elem_of_cons; [|right; by apply IH]. simpl in Ep. injection Ep as <-. left.
Qed.

Lemma relocate (f d : nat) (c : Cid) (m : gmap bytes V) : available c →
  stored_rep (BS := buffered_bs BS) conf H f s d c m → stored_rep conf H f (bb_base s') d c m.
Proof using All.
  revert d c m. induction f as [|f IH]; intros d c m Hav; [by intros (? & ? & ? & _ & [] & _)|].
  intros (n & b & bz & Hl & (g & Hv & Hg) & Hs & Hz & -> & Hget).
  exists n, b, bz. split_and!; try done; [|by apply available_get]. exists g. split; [done|]. intros i Hi. specialize (Hg i Hi).
  destruct (g i) as [p|] eqn:E; [|done]. destruct Hg as [Hne Hp]. split; [done|].
  pose proof (loaded_slot _ _ _ _ Hv Hl Hi E) as Hload. destruct p as [kvs|c' [|]|]; try done.
  destruct Hp as (Hnf & Hst & _). split_and!; [done| |done]. apply IH; [|done].
  destruct (node_links b bz Hz) as (cs & Hscan & Hcs).
  eapply available_link; [exact Hav|exact Hget|done| |apply (Hcs c')|].
  - unfold block_links. simpl. exact Hscan.
  - unfold node_serialize in Hs. destruct (pointers_serialize (pointers n)) as [bs|] eqn:Eps; [|done]. injection Hs as <-.
    simpl. eapply pointers_serialize_link; [exact Eps|]. destruct Hv as (_ & _ & ->).
    apply list_elem_of_omap. exists i. split; [apply elem_of_seqZ; lia|exact E].
  - destruct Hst as (? & ? & bz' & _ & _ & _ & _ & -> & _). apply block_cid_stored.
Qed.
End hamt.
End relocate.

(** ** Flush and reload *)

Section persist.
Context `{BSS : BlockstoreSpec} `{ST : !StoreTotal} `{CP : CidParser} `{CPS : !CidParserSpec}.
Context (blake2b_len : ∀ d, length (mh_digest BLAKE2B_256 d) = 32%nat).
Context (collision_free : ∀ h b b', mh_digest h b = mh_digest h b' → b = b')
  (base_addressed : ∀ s k b, store_ok s → bs_get s k = Ok (Some b) → addressed k b).
Context `{VI : Varint} `{VS : !VarintSpec} `{CR : !Cbor StateRoot} `{CRS : !CborSpec StateRoot}.
Context `{CI : !Cbor InitState} `{CIS : !CborSpec InitState}.
Context `{CA : !Cbor (NodeBlock ActorState)} `{CAS : !CborSpec (NodeBlock ActorState)}.
Context `{CN : !Cbor (NodeBlock ActorID)} `{CNS : !CborSpec (NodeBlock ActorID)}.
Context (conf : Config) (H : bytes → bytes) `{HP : !HamtParams conf H}.
Context (node_links : ∀ (b : NodeBlock ActorState) bz, to_vec b = Ok bz → ∃ cs, scan_for_links bz [] = Ok cs ∧ ∀ c, BLink c ∈ b.2 → c ∈ cs)
  (root_links : ∀ (r : StateRoot) bz, to_vec r = Ok bz → ∃ cs, scan_for_links bz [] = Ok cs ∧ sr_actors r ∈ cs).

(** The promises of the environment, over any blockstore that keeps its own. *)
Definition env_over_spec (bs : Blockstore) (bss : @BlockstoreSpec bs) (blake : ∀ d, length (@mh_digest bs BLAKE2B_256 d) = 32%nat) :
  @EnvSpec (env_over conf H bs) :=
  @Build_EnvSpec (env_over conf H bs) bss blake VS CRS CIS (hamt_spec conf H) (hamt_spec conf H).

Definition client_env : Env := env_over conf H BS.
Definition client_spec : @EnvSpec client_env := env_over_spec BS BSS blake2b_len.
Definition machine_env : Env := buffered_env conf H.
Definition machine_spec : @EnvSpec machine_env :=
  env_over_spec (buffered_bs BS) (buffered_spec collision_free base_addressed) blake2b_len.
#[local] Existing Instance machine_env.
#[local] Existing Instance machine_spec.

(** C13: What a flushed machine leaves with the client is the whole state tree.
    Flushing a machine outside a transaction succeeds when the links in the
    buffered blocks are of the kinds the buffer accepts, and a tree that
    is loaded from the returned root out of the client's blockstore alone, without
    the machine's buffer, shows exactly the actors the machine showed. *)
Theorem machine_flush_persists (m : Machine) (am : gmap bytes ActorState) (info : Cid) :
  st_inv am (ma_tree m) → layers (ma_tree m) = [] → st_version (ma_tree m) = V5 →
  st_info (ma_tree m) = Some info → cached_ids_ok (ma_tree m) →
  keys_apart H (flush_keys am (ma_tree m)) → base_closed (bb_base (st_store (ma_tree m))) →
  ∃ root t', st_flush (ma_tree m) = (Ok root, t') ∧
  ((∀ k b, bb_write (st_store t') !! k = Some b → block_ok k b) →
   ∃ m' t'', machine_flush conf H m = (Ok root, m') ∧
     @st_new_from_root client_env (bb_base (st_store (ma_tree m'))) root = Ok t'' ∧
     ∀ id, in_u64 id → (@get_actor client_env id t'').1 = Ok (actor_at am (ma_tree m) id)).
Proof using All.
  intros Hinv Hl Hv Hi Hids Hk Hcl.
  destruct (flush_run am (ma_tree m) info Hinv Hl Hv Hi Hk) as (c & bz & t' & E1 & Hz & Hs' & [Hbase _] & Hst & Hg).
  exists (block_cid DAG_CBOR BLAKE2B_256 bz), t'. split; [exact E1|]. intros Hacc.
  set (root := block_cid DAG_CBOR BLAKE2B_256 bz) in *.
  assert (stored root) as Hroot by (apply block_cid_stored, blake2b_len).
  destruct (flush_accepts root (st_store t') Hroot Hacc) as [s2 Ef].
  rewrite <-Hbase in Hcl. assert (available root (st_store t') root) as Hav by (split; [done|left; apply reaches_root]).
  destruct (root_links _ _ Hz) as (cs & Hscan & Hin).
  assert (bb_get (st_store t') root = Ok (Some bz) ∧ from_slice (T := StateRoot) bz = Ok (mkStateRoot V5 c info)) as [Hgr Hdec].
  { unfold get_cbor in Hg. simpl in Hg. destruct (bb_get (st_store t') root) as [[b|]|] eqn:E; try done.
    pose proof (bb_get_addressed base_addressed _ _ _ Hs' E) as Ha. apply collision_free in Ha as <-. split; [done|].
    destruct (from_slice bz); by simplify_eq. }
  assert (available root (st_store t') c) as Hac.
  { eapply (available_link collision_free base_addressed root (st_store t') Hs' Hcl root bz cs c); try done.
    destruct Hst as (? & ? & bz' & _ & _ & _ & _ & -> & _). apply block_cid_stored, blake2b_len. }
  pose proof (relocate blake2b_len collision_free base_addressed root (st_store t') s2 Hs' Ef Hcl conf H node_links _ _ _ _ Hac Hst) as Hst2.
  destruct (flush_moves_reachable_lemma root (st_store t') s2 Hs' Ef) as ([Hs2 _] & _).
  destruct (load_top conf H (bb_base s2) c _ Hst2) as (h & Eh & Hh).
  eexists _, _. split_and!.
  - unfold machine_flush. change (buffered_env conf H) with machine_env. rewrite E1, Ef. reflexivity.
  - simpl. unfold st_new_from_root, get_cbor. simpl.
    rewrite (available_get collision_free base_addressed root (st_store t') s2 Hs' Ef root bz Hav Hgr), Hdec. simpl. rewrite Eh. reflexivity.
  - intros id Hid. unfold get_actor. simpl. destruct (get_ok conf H _ _ _ (@actor_key client_env id) Hh) as (h' & Eg & _).
    rewrite Eg. simpl. unfold get_or_try_insert_with. simpl. rewrite lookup_empty. simpl. f_equal.
    apply (flushed_lookup am (ma_tree m) id); [apply Hinv|done..].
Qed.
End persist.
