(* ===== verification/BitRanges.v ===== *)
(** * Ranges of bits (ipld/bitfield/src/iter/mod.rs, iter/combine.rs, range.rs)

    A [RangeIterator] is the list of the ranges it yields. The combinators walk
    two such lists at once, look at the two first ranges, give out a range and
    advance the side whose range ends first; [merge] joins what touches. *)

From S2P Require Import Prelude Effects.
From stdpp Require Import gmap strings list fin_maps.
From stdpp Require Import sorting.
From Stdlib Require Import ZArith Lia.
#[local] Open Scope Z_scope.

(** [Range<u64>]: start and (exclusive) end. *)
Definition Range : Type := Z * Z.
Definition range_size (r : Range) : Z := if r.2 <=? r.1 then 0 else r.2 - r.1.
Definition range_is_empty (r : Range) : bool := negb (r.1 <? r.2).

(** ** Combinators *)

(** [Combinator]: each step returns the output range and what becomes of the
    range on the other side. The state is the cut's offset. *)
Record Combinator := mkCombinator {
  advance_lhs : Z → Range → Range → Range * Range * Z;
  advance_rhs : Z → Range → Range → Range * Range * Z;
  advance_lhs_tail : Z → Range → option Range;
  advance_rhs_tail : Z → Range → option Range;
}.

Definition Union : Combinator := {|
  advance_lhs o lhs rhs := ((Z.min lhs.1 rhs.1, lhs.2), rhs, o);
  advance_rhs o lhs rhs := ((Z.min lhs.1 rhs.1, rhs.2), lhs, o);
  advance_lhs_tail _ lhs := Some lhs;
  advance_rhs_tail _ rhs := Some rhs;
|}.

Definition Intersection : Combinator := {|
  advance_lhs o lhs rhs := ((Z.max lhs.1 rhs.1, lhs.2), rhs, o);
  advance_rhs o lhs rhs := ((Z.max lhs.1 rhs.1, rhs.2), lhs, o);
  advance_lhs_tail _ _ := None;
  advance_rhs_tail _ _ := None;
|}.

Definition Difference : Combinator := {|
  advance_lhs o lhs rhs := ((lhs.1, Z.min lhs.2 rhs.1), rhs, o);
  advance_rhs o lhs rhs := ((lhs.1, Z.min lhs.2 rhs.1), (Z.max lhs.1 rhs.2, lhs.2), o);
  advance_lhs_tail _ lhs := Some lhs;
  advance_rhs_tail _ _ := None;
|}.

(** [SymmetricDifference::advance]: the output and the new right range. *)
Definition sd_advance (left right : Range) : Range * Range :=
  if left.1 <=? right.1
  then ((left.1, Z.min left.2 right.1), (Z.max right.1 left.2, right.2))
  else ((right.1, left.1), (left.2, right.2)).
Definition SymmetricDifference : Combinator := {|
  advance_lhs o lhs rhs := (sd_advance lhs rhs, o);
  advance_rhs o lhs rhs := (sd_advance rhs lhs, o);
  advance_lhs_tail _ lhs := Some lhs;
  advance_rhs_tail _ rhs := Some rhs;
|}.

(** The subtractions of [offset] do not underflow: the bits cut so far lie
    below both ends. *)
Definition cut_offset (o : Z) (r : Range) : Range := (r.1 - o, r.2 - o).
Definition Cut : Combinator := {|
  advance_lhs o lhs rhs := (cut_offset o (lhs.1, Z.min lhs.2 rhs.1), rhs, o);
  advance_rhs o lhs rhs :=
    (cut_offset o (lhs.1, Z.min lhs.2 rhs.1), (Z.max lhs.1 rhs.2, lhs.2), o + range_size rhs);
  advance_lhs_tail o lhs := Some (cut_offset o lhs);
  advance_rhs_tail _ _ := None;
|}.

(** ** Combine *)

(** [_Combine::next_range], until both sides are exhausted (a [None] of a tail
    ends the iteration of [next]); every step advances one side, so that the
    fuel of [combine] is enough. Empty ranges are filtered out. *)
Definition emit (r : Range) (out : list Range) : list Range :=
  if range_is_empty r then out else r :: out.

Fixpoint combine_ranges (fuel : nat) (c : Combinator) (o : Z) (lhs rhs : list Range) : list Range :=
  match fuel with
  | O => []
  | S fuel =>
      match lhs, rhs with
      | l :: lhs', r :: rhs' =>
          if l.2 <=? r.2
          then let '(out, r, o) := advance_lhs c o l r in emit out (combine_ranges fuel c o lhs' (r :: rhs'))
          else let '(out, l, o) := advance_rhs c o l r in emit out (combine_ranges fuel c o (l :: lhs') rhs')
      | l :: lhs', [] =>
          match advance_lhs_tail c o l with
          | Some out => emit out (combine_ranges fuel c o lhs' [])
          | None => []
          end
      | [], r :: rhs' =>
          match advance_rhs_tail c o r with
          | Some out => emit out (combine_ranges fuel c o [] rhs')
          | None => []
          end
      | [], [] => []
      end
  end.

(** [Merge::next], repeated: [range] is the range being extended. *)
Fixpoint merge_from (range : Range) (rs : list Range) : list Range :=
  match rs with
  | [] => [range]
  | next :: rs =>
      if range.2 <? next.1 then range :: merge_from next rs
      else merge_from (range.1, Z.max range.2 next.2) rs
  end.
Definition merge (rs : list Range) : list Range :=
  match rs with [] => [] | r :: rs => merge_from r rs end.

Definition combine (c : Combinator) (lhs rhs : list Range) : list Range :=
  merge (combine_ranges (length lhs + length rhs) c 0 lhs rhs).

Definition ranges_union := combine Union.
Definition ranges_intersection := combine Intersection.
Definition ranges_difference := combine Difference.
Definition ranges_symmetric_difference := combine SymmetricDifference.
Definition ranges_cut := combine Cut.

(** ** Skip, take, and ranges of given bits *)

Fixpoint skip_bits (n : Z) (rs : list Range) : list Range :=
  match rs with
  | [] => []
  | range :: rs =>
      if n <? range_size range then (range.1 + n, range.2) :: skip_bits 0 rs
      else skip_bits (n - range_size range) rs
  end.

Fixpoint take_bits (n : Z) (rs : list Range) : list Range :=
  if n =? 0 then [] else
  match rs with
  | [] => []
  | range :: rs =>
      let range := if n <? range_size range then (range.1, range.1 + n) else range in
      range :: take_bits (n - range_size range) rs
  end.

(** [ranges_from_bits], on increasing bits below [u64::MAX] (the source panics
    otherwise). *)
Fixpoint ranges_from_bits_go (start end_ : Z) (bits : list Z) : list Range :=
  match bits with
  | [] => [(start, end_)]
  | next :: bits =>
      if end_ <? next then (start, end_) :: ranges_from_bits_go next (next + 1) bits
      else ranges_from_bits_go start (end_ + 1) bits
  end.
Definition ranges_from_bits (bits : list Z) : list Range :=
  match bits with [] => [] | b :: bits => ranges_from_bits_go b (b + 1) bits end.

(** ** Sets of bits *)

Definition in_range (i : Z) (r : Range) : bool := (r.1 <=? i) && (i <? r.2).
Definition mem (i : Z) (rs : list Range) : bool := existsb (in_range i) rs.

(** The requirements on a [RangeIterator], above [e]: the ranges are non-empty,
    ascending, and no two overlap or touch. *)
Fixpoint ranges_above (e : Z) (rs : list Range) : Prop :=
  match rs with
  | [] => True
  | r :: rs => e < r.1 ∧ r.1 < r.2 ∧ ranges_above r.2 rs
  end.
Definition ranges_ok (rs : list Range) : Prop := ranges_above (-1) rs.

Lemma ranges_above_weaken e e' rs : e' ≤ e → ranges_above e rs → ranges_above e' rs.
Proof. destruct rs as [|r rs]; simpl; [done|]. intros. split_and!; try apply H0. lia. Qed.

Lemma mem_above e rs i : ranges_above e rs → mem i rs = true → e < i.
Proof.
  revert e. induction rs as [|[a b] rs IH]; intros e; simpl; [done|]. intros (H1 & H2 & Hr).
  unfold in_range at 1. simpl in *. specialize (IH _ Hr). change (existsb (in_range i) rs) with (mem i rs).
  destruct (mem i rs); [specialize (IH eq_refl); lia|]. rewrite orb_false_r. lia.
Qed.

(** Ranges that satisfy the requirements are determined by their bits. *)
Lemma ranges_unique e rs rs' : ranges_above e rs → ranges_above e rs' →
  (∀ i, mem i rs = mem i rs') → rs = rs'.
Proof.
  revert e rs'. induction rs as [|[a b] rs IH]; intros e [|[a' b'] rs'] H1 H2 Heq; simpl in *; try done.
  - specialize (Heq a'). unfold in_range in Heq. simpl in Heq. symmetry in Heq.
    apply orb_false_iff in Heq as [Hf _]. lia.
  - specialize (Heq a). unfold in_range in Heq. simpl in Heq. apply orb_false_iff in Heq as [Hf _]. lia.
  - destruct H1 as (? & ? & H1), H2 as (? & ? & H2).
    assert (∀ i, mem i rs = true → b < i) as Hb by (intros; by eapply mem_above).
    assert (∀ i, mem i rs' = true → b' < i) as Hb' by (intros; by eapply mem_above).
    assert (∀ i, in_range i (a, b) || mem i rs = in_range i (a', b') || mem i rs') as Heq' by done. unfold in_range in Heq'. simpl in Heq'.
    assert (a = a') as <-.
    { pose proof (Heq' a) as E1. pose proof (Heq' a') as E2. specialize (Hb a'). specialize (Hb' a).
      destruct (mem a rs'), (mem a' rs); lia. }
    assert (b = b') as <-.
    { pose proof (Heq' b) as E1. pose proof (Heq' b') as E2. pose proof (Hb b). pose proof (Hb' b').
      pose proof (Hb b'). pose proof (Hb' b). destruct (mem b rs), (mem b' rs'), (mem b rs'), (mem b' rs); lia. }
    f_equal. apply (IH b); [done..|]. intros i. specialize (Heq' i). specialize (Hb i). specialize (Hb' i).
    destruct (mem i rs), (mem i rs'); lia.
Qed.

(** ** What the combinators compute

    A combinator that computes the Boolean operation [op] bit by bit: each step
    gives out bits so that the operation on what is left gives the others
    ([x] and [y]: whether the bit is in the ranges after the first ones). [low p]
    bounds the starts of the ranges still to come, given the first starts
    of both sides. *)

Definition beyond (e : Z) (start : option Z) : Prop := ∀ z, start = Some z → e < z.

Class CombinatorSpec (c : Combinator) (op : bool → bool → bool) (low : Z → option Z → option Z → Prop) : Prop := {
  op_none : op false false = false;
  step_lhs o a b next : a.1 ≤ a.2 → b.1 ≤ b.2 → a.2 ≤ b.2 → beyond a.2 next →
    let '(out, b', _) := advance_lhs c o a b in
    b'.2 = b.2 ∧ b'.1 ≤ b'.2 ∧
    (∀ p, low p (Some a.1) (Some b.1) →
       if out.1 <? out.2 then p ≤ out.1 ∧ low out.1 next (Some b'.1) else low p next (Some b'.1)) ∧
    ∀ i x y, (x = true → a.2 < i) → (y = true → b.2 < i) →
      in_range i out || op x (in_range i b' || y) = op (in_range i a || x) (in_range i b || y);
  step_rhs o a b next : a.1 ≤ a.2 → b.1 ≤ b.2 → b.2 < a.2 → beyond b.2 next →
    let '(out, a', _) := advance_rhs c o a b in
    a'.2 = a.2 ∧ a'.1 ≤ a'.2 ∧
    (∀ p, low p (Some a.1) (Some b.1) →
       if out.1 <? out.2 then p ≤ out.1 ∧ low out.1 (Some a'.1) next else low p (Some a'.1) next) ∧
    ∀ i x y, (x = true → a.2 < i) → (y = true → b.2 < i) →
      in_range i out || op (in_range i a' || x) y = op (in_range i a || x) (in_range i b || y);
  step_lhs_tail o a next : beyond a.2 next → a.1 ≤ a.2 →
    match advance_lhs_tail c o a with
    | Some out => out = a ∧ (∀ x, op x false = x) ∧
        ∀ p, low p (Some a.1) None → p ≤ a.1 ∧ low a.1 next None ∧ low p next None
    | None => ∀ x, op x false = false
    end;
  step_rhs_tail o b next : beyond b.2 next → b.1 ≤ b.2 →
    match advance_rhs_tail c o b with
    | Some out => out = b ∧ (∀ x, op false x = x) ∧
        ∀ p, low p None (Some b.1) → p ≤ b.1 ∧ low b.1 None next ∧ low p None next
    | None => ∀ x, op false x = false
    end;
}.

Definition low_min (p : Z) (l r : option Z) : Prop :=
  (∀ z, l = Some z → p ≤ z) ∧ (∀ z, r = Some z → p ≤ z).
Definition low_max (p : Z) (l r : option Z) : Prop := ∀ z z', l = Some z → r = Some z' → p ≤ Z.max z z'.
Definition low_lhs (p : Z) (l r : option Z) : Prop := ∀ z, l = Some z → p ≤ z.

(** The laws are linear arithmetic on the four ends and the bit. *)
Ltac range_law :=
  repeat match goal with
  | |- _ ∧ _ => split
  | |- ∀ _, _ => intro
  | |- context [if ?a <? ?b then _ else _] => destruct (Z.ltb_spec a b)
  | |- context [if ?a <=? ?b then _ else _] => destruct (Z.leb_spec a b)
  | r : Range |- _ => destruct r as [? ?]
  | x : bool |- _ => destruct x
  | Hs : Some _ = Some _ |- _ => injection Hs as Hs; subst
  | Hb : beyond _ (Some ?z) |- _ => specialize (Hb z eq_refl)
  | Hb : beyond _ _, Hs : ?n = Some ?z |- _ =>
      lazymatch goal with Hk : _ < z |- _ => fail | _ => pose proof (Hb z Hs) end
  | Hl : _ ∧ _ |- _ => destruct Hl
  | Hl : ∀ z, Some ?a = Some z → _ |- _ => specialize (Hl a eq_refl)
  | Hl : ∀ z z', Some ?a = Some z → Some ?b = Some z' → _ |- _ => specialize (Hl a b eq_refl eq_refl)
  | _ => progress (unfold low_min, low_max, low_lhs, in_range, sd_advance in * )
  | _ => progress (simpl in * )
  end; try done; try lia.

#[export] Instance Union_spec : CombinatorSpec Union orb low_min.
Proof. split; range_law. Qed.
#[export] Instance Intersection_spec : CombinatorSpec Intersection andb low_max.
Proof. split; range_law. Qed.
#[export] Instance Difference_spec : CombinatorSpec Difference (λ a b, a && negb b) low_lhs.
Proof. split; range_law. Qed.
#[export] Instance SymmetricDifference_spec : CombinatorSpec SymmetricDifference xorb low_min.
Proof.
  split; range_law;
    repeat match goal with
    | |- context [?a <=? ?b] => destruct (Z.leb_spec a b)
    | |- context [?a <? ?b] => destruct (Z.ltb_spec a b)
    end; simpl; (done || lia).
Qed.

(** ** Combining *)

(** Non-empty ranges whose starts do not decrease. *)
Fixpoint starts_from (p : Z) (rs : list Range) : Prop :=
  match rs with
  | [] => True
  | r :: rs => p ≤ r.1 ∧ r.1 < r.2 ∧ starts_from r.1 rs
  end.

(** A side of the walk: its first range may have been shortened, even to nothing. *)
Definition side_ok (rs : list Range) : Prop :=
  match rs with [] => True | r :: rs => r.1 ≤ r.2 ∧ ranges_above r.2 rs end.
Definition first_start (rs : list Range) : option Z := fst <$> head rs.

Lemma above_side e rs : ranges_above e rs → side_ok rs ∧ beyond e (first_start rs).
Proof.
  destruct rs as [|r rs]; [done|]. intros (? & ? & ?). split; [split; [lia|done]|]. by intros z [= <-].
Qed.

Lemma side_ok_start r r' rs : r'.2 = r.2 → r'.1 ≤ r'.2 → side_ok (r :: rs) → side_ok (r' :: rs).
Proof. intros E ? [_ ?]. by split; [|rewrite E]. Qed.

Section combine.
Context (c : Combinator) (op : bool → bool → bool) (low : Z → option Z → option Z → Prop) `{CS : !CombinatorSpec c op low}.

(** What is left to do gives the bits of the operation on what is left, in
    ranges with growing starts. *)
Definition combines (out lhs rhs : list Range) (p : Z) : Prop :=
  starts_from p out ∧ ∀ i, mem i out = op (mem i lhs) (mem i rhs).

Lemma combine_emit out outs p q lhs rhs lhs' rhs' :
  (if out.1 <? out.2 then p ≤ out.1 ∧ combines outs lhs' rhs' out.1 else combines outs lhs' rhs' p) →
  (∀ i, in_range i out || op (mem i lhs') (mem i rhs') = op (mem i lhs) (mem i rhs)) →
  q = p → combines (emit out outs) lhs rhs q.
Proof.
  intros Ho Hm ->. unfold emit, range_is_empty. destruct (Z.ltb_spec out.1 out.2) as [Hlt|Hge]; simpl.
  - destruct Ho as (Hp & Hs & He). split; [by split_and!|]. intros i. simpl. by rewrite He, Hm.
  - destruct Ho as (Hs & He). split; [done|]. intros i. rewrite He, <-Hm.
    assert (in_range i out = false) as -> by (unfold in_range; lia). done.
Qed.

Lemma mem_cons i r rs : mem i (r :: rs) = in_range i r || mem i rs.
Proof. done. Qed.

Lemma combine_ranges_ok fuel o lhs rhs p : (length lhs + length rhs ≤ fuel)%nat → side_ok lhs → side_ok rhs →
  low p (first_start lhs) (first_start rhs) → combines (combine_ranges fuel c o lhs rhs) lhs rhs p.
Proof.
  revert o lhs rhs p. induction fuel as [|fuel IH]; intros o lhs rhs p Hf Hl Hr Hp.
  { destruct lhs, rhs; simpl in Hf; try lia. split; [done|]. intros i. symmetry. apply op_none. }
  destruct lhs as [|a lhs], rhs as [|b rhs]; cbn [combine_ranges].
  - split; [done|]. intros i. symmetry. apply op_none.
  - destruct Hr as [Hb Hr]. destruct (above_side _ _ Hr) as [Hr' Hn].
    pose proof (step_rhs_tail (c := c) o b _ Hn Hb) as Ht. destruct (advance_rhs_tail c o b) as [out|].
    2:{ split; [done|]. intros i. simpl. by rewrite Ht. }
    destruct Ht as (-> & Hop & Hlow). destruct (Hlow p Hp) as (Hpb & Hl1 & Hl2).
    eapply (combine_emit b _ p p [] (b :: rhs) [] rhs); [|intros i; rewrite !Hop; by rewrite mem_cons|done].
    destruct (Z.ltb_spec b.1 b.2); [split; [done|]|]; apply IH; simpl in *; done || lia.
  - destruct Hl as [Ha Hl]. destruct (above_side _ _ Hl) as [Hl' Hn].
    pose proof (step_lhs_tail (c := c) o a _ Hn Ha) as Ht. destruct (advance_lhs_tail c o a) as [out|].
    2:{ split; [done|]. intros i. simpl. by rewrite Ht. }
    destruct Ht as (-> & Hop & Hlow). destruct (Hlow p Hp) as (Hpa & Hl1 & Hl2).
    eapply (combine_emit a _ p p (a :: lhs) [] lhs []); [|intros i; rewrite !Hop; by rewrite mem_cons|done].
    destruct (Z.ltb_spec a.1 a.2); [split; [done|]|]; apply IH; simpl in *; done || lia.
  - pose proof Hl as [Ha Hal]. pose proof Hr as [Hb Hbr].
    assert (∀ i, mem i lhs = true → a.2 < i) as Hma by (intros i; by apply mem_above).
    assert (∀ i, mem i rhs = true → b.2 < i) as Hmb by (intros i; by apply mem_above).
    destruct (above_side _ _ Hal) as [Hl' Hnl]. destruct (above_side _ _ Hbr) as [Hr' Hnr].
    destruct (Z.leb_spec a.2 b.2) as [Hab|Hab].
    + pose proof (step_lhs (c := c) o a b _ Ha Hb Hab Hnl) as Hstep.
      destruct (advance_lhs c o a b) as [[out b'] o']. destruct Hstep as (E & Hb' & Hlow & Hm).
      eapply (combine_emit out _ p p (a :: lhs) (b :: rhs) lhs (b' :: rhs)); [|intros i; rewrite !mem_cons; by auto|done].
      specialize (Hlow p Hp). destruct (out.1 <? out.2); [destruct Hlow; split; [done|]|];
        apply IH; [simpl in *; lia|done|by eapply side_ok_start|done|simpl in *; lia|done|by eapply side_ok_start|done].
    + pose proof (step_rhs (c := c) o a b _ Ha Hb Hab Hnr) as Hstep.
      destruct (advance_rhs c o a b) as [[out a'] o']. destruct Hstep as (E & Ha' & Hlow & Hm).
      eapply (combine_emit out _ p p (a :: lhs) (b :: rhs) (a' :: lhs) rhs); [|intros i; rewrite !mem_cons; by auto|done].
      specialize (Hlow p Hp). destruct (out.1 <? out.2); [destruct Hlow; split; [done|]|];
        apply IH; [simpl in *; lia|by eapply side_ok_start|done|done|simpl in *; lia|by eapply side_ok_start|done|done].
Qed.
End combine.

(** Merging keeps the bits and restores the requirements. *)
Lemma merge_from_ok r rs e : e < r.1 → r.1 < r.2 → starts_from r.1 rs →
  ranges_above e (merge_from r rs) ∧ ∀ i, mem i (merge_from r rs) = in_range i r || mem i rs.
Proof.
  revert r e. induction rs as [|n rs IH]; intros r e He Hr Hs; simpl.
  - split; [done|]. intros i. done.
  - destruct Hs as (Hn & Hne & Hs). destruct (Z.ltb_spec r.2 n.1) as [Hlt|Hge].
    + destruct (IH n r.2 Hlt Hne Hs) as [Ho Hm]. split; [by split_and!|]. intros i. simpl. by rewrite Hm.
    + destruct (IH (r.1, r.2 `max` n.2) e) as [Ho Hm]; simpl; [done|lia| |].
      { destruct rs as [|r' rs]; [done|]. simpl in *. destruct Hs as (? & ? & ?). split_and!; [lia|done..]. }
      split; [done|]. intros i. rewrite Hm. change (existsb (in_range i) rs) with (mem i rs).
      rewrite orb_assoc. f_equal. unfold in_range. simpl. lia.
Qed.

Lemma merge_ok rs : starts_from 0 rs → ranges_ok (merge rs) ∧ ∀ i, mem i (merge rs) = mem i rs.
Proof.
  destruct rs as [|r rs]; simpl; [done|]. intros (? & ? & Hs).
  destruct (merge_from_ok r rs (-1)) as [Ho Hm]; [lia|done..|]. split; [done|]. exact Hm.
Qed.

Lemma combine_ok c op low `{!CombinatorSpec c op low} lhs rhs : ranges_ok lhs → ranges_ok rhs →
  low 0 (first_start lhs) (first_start rhs) →
  ranges_ok (combine c lhs rhs) ∧ ∀ i, mem i (combine c lhs rhs) = op (mem i lhs) (mem i rhs).
Proof.
  intros Hl Hr Hp. destruct (combine_ranges_ok c op low (length lhs + length rhs) 0 lhs rhs 0) as [Hs Hm];
    [lia|by eapply above_side..|done|].
  destruct (merge_ok _ Hs) as [Ho Hm']. split; [done|]. intros i. unfold combine. by rewrite Hm', Hm.
Qed.

Lemma ranges_ok_start rs : ranges_ok rs → ∀ z, first_start rs = Some z → 0 ≤ z.
Proof. destruct rs as [|r rs]; [done|]. intros (? & _) z [= <-]. lia. Qed.

Lemma ranges_union_ok a b : ranges_ok a → ranges_ok b →
  ranges_ok (ranges_union a b) ∧ ∀ i, mem i (ranges_union a b) = mem i a || mem i b.
Proof. intros Ha Hb. apply (combine_ok Union orb low_min); [done..|]. split; by apply ranges_ok_start. Qed.
Lemma ranges_intersection_ok a b : ranges_ok a → ranges_ok b →
  ranges_ok (ranges_intersection a b) ∧ ∀ i, mem i (ranges_intersection a b) = mem i a && mem i b.
Proof.
  intros Ha Hb. apply (combine_ok Intersection andb low_max); [done..|]. intros z z' Hz _.
  pose proof (ranges_ok_start a Ha z Hz). lia.
Qed.
Lemma ranges_difference_ok a b : ranges_ok a → ranges_ok b →
  ranges_ok (ranges_difference a b) ∧ ∀ i, mem i (ranges_difference a b) = mem i a && negb (mem i b).
Proof. intros Ha Hb. apply (combine_ok Difference (λ a b, a && negb b) low_lhs); [done..|]. intros z. by apply ranges_ok_start. Qed.
Lemma ranges_symmetric_difference_ok a b : ranges_ok a → ranges_ok b →
  ranges_ok (ranges_symmetric_difference a b) ∧ ∀ i, mem i (ranges_symmetric_difference a b) = xorb (mem i a) (mem i b).
Proof. intros Ha Hb. apply (combine_ok SymmetricDifference xorb low_min); [done..|]. split; by apply ranges_ok_start. Qed.

(** ** Cutting *)

(** How many bits of the ranges lie below [i]. *)
Definition below (i : Z) (r : Range) : Z := Z.max 0 (Z.min i r.2 - r.1).
Fixpoint rank (i : Z) (rs : list Range) : Z :=
  match rs with [] => 0 | r :: rs => below i r + rank i rs end.

Lemma rank_growth e rs i j : ranges_above e rs → i ≤ j →
  0 ≤ rank j rs - rank i rs ≤ Z.max 0 (j - Z.max i e).
Proof.
  revert e. induction rs as [|r rs IH]; intros e Ha Hij; simpl; [lia|]. destruct Ha as (? & ? & Ha).
  specialize (IH _ Ha Hij). unfold below. lia.
Qed.

Lemma rank_low e rs i : ranges_above e rs → i ≤ e + 1 → rank i rs = 0.
Proof.
  revert e. induction rs as [|r rs IH]; intros e Ha Hi; simpl; [done|]. destruct Ha as (? & ? & Ha).
  rewrite (IH r.2) by (done || lia). unfold below. lia.
Qed.

(** Where a bit ends up when [rs] is cut out and [o] bits were cut before. *)
Definition cut_to (o : Z) (rs : list Range) (i : Z) : Z := i - o - rank i rs.

Lemma cut_to_mono e o rs i j : ranges_above e rs → i ≤ j → cut_to o rs i ≤ cut_to o rs j.
Proof. intros Ha Hij. pose proof (rank_growth _ _ _ _ Ha Hij). unfold cut_to. lia. Qed.

(** Past the first range cut out. *)
Lemma cut_to_past o r rs i : r.1 < r.2 → r.2 ≤ i → cut_to o (r :: rs) i = cut_to (o + range_size r) rs i.
Proof. intros. unfold cut_to, range_size, below. simpl. unfold below. destruct (Z.leb_spec r.2 r.1); lia. Qed.

Definition cuts (out lhs rhs : list Range) (o p : Z) : Prop :=
  starts_from p out ∧
  ∀ j, mem j out = true ↔ ∃ i, mem i lhs = true ∧ mem i rhs = false ∧ j = cut_to o rhs i.

Lemma cut_emit a b o outs lhs rhs lhs' rhs' p q : ranges_above b.2 rhs → b.1 < b.2 →
  (∀ i, mem i (a :: lhs) = true → mem i (b :: rhs) = false →
     (a.1 ≤ i < Z.min a.2 b.1) ∨ (mem i lhs' = true ∧ mem i rhs' = false ∧ cut_to o (b :: rhs) i = cut_to q rhs' i)) →
  (∀ i, mem i lhs' = true → mem i rhs' = false →
     mem i (a :: lhs) = true ∧ mem i (b :: rhs) = false ∧ cut_to o (b :: rhs) i = cut_to q rhs' i) →
  p ≤ cut_to o (b :: rhs) a.1 →
  (∀ p', p' ≤ cut_to o (b :: rhs) a.1 → cuts outs lhs' rhs' q p') →
  cuts (emit (cut_offset o (a.1, Z.min a.2 b.1)) outs) (a :: lhs) (b :: rhs) o p.
Proof.
  intros Hr Hb H1 H2 Hp Houts.
  assert (∀ i, i ≤ b.1 → cut_to o (b :: rhs) i = i - o) as Hto.
  { intros i Hi. unfold cut_to. rewrite (rank_low (b.1 - 1)); [lia| |lia]. simpl. split_and!; [lia|done..]. }
  assert (∀ i, a.1 ≤ i < Z.min a.2 b.1 → mem i (a :: lhs) = true ∧ mem i (b :: rhs) = false) as Hin.
  { intros i Hi. split; [rewrite mem_cons; unfold in_range; lia|]. destruct (mem i (b :: rhs)) eqn:E; [|done].
    apply (mem_above (b.1 - 1)) in E; [lia|]. simpl. split_and!; [lia|done..]. }
  assert (∀ j outs', (∀ k, mem k outs' = true ↔ ∃ i, mem i lhs' = true ∧ mem i rhs' = false ∧ k = cut_to q rhs' i) →
    (a.1 - o ≤ j < Z.min a.2 b.1 - o ∨ mem j outs' = true) ↔
    ∃ i, mem i (a :: lhs) = true ∧ mem i (b :: rhs) = false ∧ j = cut_to o (b :: rhs) i) as Hiff.
  { intros j outs' Ho. rewrite Ho. split.
    - intros [Hj|(i & Hi1 & Hi2 & ->)].
      + exists (j + o). destruct (Hin (j + o)); [lia|]. rewrite Hto by lia. split_and!; [done..|lia].
      + destruct (H2 i Hi1 Hi2) as (? & ? & E). by exists i.
    - intros (i & Hi1 & Hi2 & ->). destruct (H1 i Hi1 Hi2) as [Hi|(? & ? & E)].
      + left. rewrite Hto by lia. lia.
      + right. by exists i. }
  unfold emit, range_is_empty, cut_offset. simpl. destruct (Z.ltb_spec (a.1 - o) (Z.min a.2 b.1 - o)) as [Hlt|Hge]; simpl.
  - destruct (Houts (a.1 - o)) as [Hs Ho]; [rewrite Hto by lia; lia|]. rewrite Hto in Hp by lia.
    split; [simpl; split_and!; [lia|lia|done]|]. intros j. rewrite <-(Hiff j outs Ho), mem_cons, orb_true_iff.
    unfold in_range. simpl. intuition lia.
  - destruct (Houts p Hp) as [Hs Ho]. split; [done|]. intros j. rewrite <-(Hiff j outs Ho). intuition lia.
Qed.

Lemma cut_ranges_ok fuel o lhs rhs p : (length lhs + length rhs ≤ fuel)%nat → side_ok lhs → ranges_ok rhs →
  (∀ z, first_start lhs = Some z → p ≤ cut_to o rhs z) → cuts (combine_ranges fuel Cut o lhs rhs) lhs rhs o p.
Proof.
  unfold ranges_ok. generalize (-1) as e. revert o lhs rhs p. induction fuel as [|fuel IH]; intros o lhs rhs p e Hf Hl Hr Hp.
  { destruct lhs, rhs; simpl in Hf; try lia. split; [done|]. intros i. simpl. split; [done|]. by intros (? & ? & _). }
  destruct lhs as [|a lhs]; [|pose proof Hl as [Ha Hal]; specialize (Hp _ eq_refl); destruct (above_side _ _ Hal) as [Hl' Hnl]].
  { assert (combine_ranges (S fuel) Cut o [] rhs = []) as -> by (by destruct rhs).
    split; [done|]. intros i. simpl. split; [done|]. by intros (? & ? & _). }
  assert (∀ i, mem i lhs = true → a.2 < i) as Hma by (intros i; by apply mem_above).
  destruct rhs as [|b rhs]; cbn [combine_ranges advance_lhs advance_rhs advance_lhs_tail Cut].
  - assert (∀ p', p' ≤ a.1 - o → cuts (combine_ranges fuel Cut o lhs []) lhs [] o p') as Hrest.
    { intros p' Hp'. apply (IH o lhs [] p' e); [simpl in *; lia|done..|]. intros z Hz. specialize (Hnl z Hz).
      unfold cut_to. simpl. lia. }
    unfold cut_to in Hp. simpl in Hp. unfold emit, range_is_empty, cut_offset. simpl.
    destruct (Z.ltb_spec (a.1 - o) (a.2 - o)) as [Hlt|Hge]; simpl.
    + destruct (Hrest (a.1 - o)) as [Hs Hm]; [lia|]. split; [simpl; split_and!; [lia|lia|done]|]. intros j.
      rewrite mem_cons, orb_true_iff, Hm. unfold in_range, cut_to. simpl. split.
      * intros [Hj|(i & Hi & _ & ->)]; [exists (j + o)|exists i]; (split; [apply orb_true_iff|split; [done|lia]]); [left; unfold in_range; lia|by right].
      * intros (i & Hi & _ & ->). apply orb_true_iff in Hi as [Hi|Hi]; [left; unfold in_range in Hi; lia|right; by exists i].
    + destruct (Hrest p) as [Hs Hm]; [lia|]. split; [done|]. intros j. rewrite Hm. split; intros (i & Hi & Hn & E); exists i;
        (split; [|done]); [rewrite mem_cons, Hi; apply orb_true_r|].
      rewrite mem_cons in Hi. unfold in_range in Hi. destruct (mem i lhs); [done|lia].
  - destruct Hr as (He & Hb & Hr). assert (∀ i, mem i rhs = true → b.2 < i) as Hmb by (intros i; by apply mem_above).
    assert (ranges_above (b.1 - 1) (b :: rhs)) as Hbr by (simpl; split_and!; [lia|done..]).
    destruct (Z.leb_spec a.2 b.2) as [Hab|Hab].
    + apply (cut_emit a b o _ lhs rhs lhs (b :: rhs) p o Hr Hb); [| |done|].
      * intros i. rewrite !mem_cons. unfold in_range. specialize (Hma i). specialize (Hmb i).
        destruct (mem i lhs), (mem i rhs); intros; try lia; right; split_and!; done || lia.
      * intros i Hi Hn. split_and!; [rewrite mem_cons, Hi; apply orb_true_r|done..].
      * intros p' Hp'. apply (IH o lhs (b :: rhs) p' (b.1 - 1)); [simpl in *; lia|done..|]. intros z Hz.
        specialize (Hnl z Hz). etrans; [exact Hp'|]. eapply cut_to_mono; [exact Hbr|]. lia.
    + apply (cut_emit a b o _ lhs rhs ((a.1 `max` b.2, a.2) :: lhs) rhs p (o + range_size b) Hr Hb); [| |done|].
      * intros i. rewrite !mem_cons. unfold in_range at 1 2. specialize (Hma i). specialize (Hmb i). intros Hi Hn.
        destruct (Z.ltb_spec i b.2) as [Hlt|Hge].
        { left. unfold in_range in *. destruct (mem i lhs), (mem i rhs); lia. }
        right. split_and!; [|destruct (mem i rhs); [by rewrite orb_true_r in Hn|done]|by apply cut_to_past].
        unfold in_range in *. simpl. destruct (mem i lhs), (mem i rhs); lia.
      * intros i. rewrite !mem_cons. unfold in_range at 1. simpl. intros Hi Hn. specialize (Hma i).
        assert (b.2 ≤ i) by (destruct (mem i lhs); lia). split_and!; [|rewrite Hn; unfold in_range; lia|by apply cut_to_past].
        unfold in_range. destruct (mem i lhs); lia.
      * intros p' Hp'. apply (IH _ _ rhs p' b.2); [simpl in *; lia|split; simpl; [lia|done]|done|]. intros z [= <-].
        rewrite <-cut_to_past by lia. etrans; [exact Hp'|]. eapply cut_to_mono; [exact Hbr|]. lia.
Qed.

(** Cutting removes the bits of [b] and moves each remaining bit down by the
    number of bits removed below it. *)
Lemma ranges_cut_ok a b : ranges_ok a → ranges_ok b → ranges_ok (ranges_cut a b) ∧
  ∀ j, mem j (ranges_cut a b) = true ↔ ∃ i, mem i a = true ∧ mem i b = false ∧ j = i - rank i b.
Proof.
  intros Ha Hb. destruct (cut_ranges_ok (length a + length b) 0 a b 0) as [Hs Hm]; [lia|by eapply above_side|done| |].
  - intros z Hz. pose proof (ranges_ok_start a Ha z Hz). pose proof (rank_growth (-1) b 0 z Hb ltac:(lia)) as Hg.
    rewrite (rank_low (-1) b 0) in Hg by (done || lia). unfold cut_to. lia.
  - destruct (merge_ok _ Hs) as [Ho Hm']. split; [done|]. intros j. unfold ranges_cut, combine. rewrite Hm', Hm.
    unfold cut_to. split; intros (i & ? & ? & ->); exists i; (split_and!; [done..|lia]).
Qed.

(** ** The bits one by one *)

(** [flatten]: the bits of a range iterator, in order. *)
Definition range_bits (r : Range) : list Z := seqZ r.1 (range_size r).
Definition flatten (rs : list Range) : list Z := rs ≫= range_bits.
Definition ranges_len (rs : list Range) : Z := foldr (λ r n, range_size r + n) 0 rs.

Lemma range_size_pos r : r.1 < r.2 → range_size r = r.2 - r.1.
Proof. unfold range_size. destruct (Z.leb_spec r.2 r.1); lia. Qed.
Lemma range_size_nonneg r : 0 ≤ range_size r.
Proof. unfold range_size. destruct (Z.leb_spec r.2 r.1); lia. Qed.

Lemma elem_of_range_bits i r : i ∈ range_bits r ↔ in_range i r = true.
Proof. unfold range_bits, in_range, range_size. rewrite elem_of_seqZ. destruct (Z.leb_spec r.2 r.1); lia. Qed.

Lemma elem_of_flatten i rs : i ∈ flatten rs ↔ mem i rs = true.
Proof.
  induction rs as [|r rs IH]; simpl; [split; [by intros ?%elem_of_nil|done]|].
  unfold flatten in *. cbn [mbind list_bind]. rewrite elem_of_app, elem_of_range_bits, orb_true_iff. by rewrite IH.
Qed.

Lemma length_flatten rs : Z.of_nat (length (flatten rs)) = ranges_len rs.
Proof.
  induction rs as [|r rs IH]; [done|]. unfold flatten in *. cbn [mbind list_bind ranges_len foldr].
  rewrite length_app, Nat2Z.inj_add, IH. unfold range_bits. rewrite length_seqZ.
  pose proof (range_size_nonneg r). unfold ranges_len. lia.
Qed.

(** Strictly increasing lists are determined by their elements. *)
Lemma seqZ_sorted a n : StronglySorted Z.lt (seqZ a n).
Proof.
  unfold seqZ. generalize (Z.to_nat n), 0%nat. clear.
  intros n. induction n as [|n IH]; intros k; simpl; constructor; [done|].
  apply Forall_forall. intros x (y & -> & Hy%elem_of_seq)%list_elem_of_fmap. lia.
Qed.

Lemma sorted_unique l1 l2 : StronglySorted Z.lt l1 → StronglySorted Z.lt l2 → (∀ i, i ∈ l1 ↔ i ∈ l2) → l1 = l2.
Proof.
  revert l2. induction l1 as [|x l1 IH]; intros [|y l2] H1 H2 Heq; [done| | |].
  - destruct (not_elem_of_nil y). apply Heq. left.
  - destruct (not_elem_of_nil x). apply Heq. left.
  - inversion_clear H1 as [|? ? H1' F1]. inversion_clear H2 as [|? ? H2' F2]. rewrite Forall_forall in F1, F2.
    assert (x = y) as <-.
    { assert (x ∈ y :: l2) as Hx by (apply Heq; left). assert (y ∈ x :: l1) as Hy by (apply Heq; left).
      apply elem_of_cons in Hx as [?|Hx]; [done|]. apply elem_of_cons in Hy as [?|Hy]; [done|].
      specialize (F1 _ Hy). specialize (F2 _ Hx). lia. }
    f_equal. apply IH; [done..|]. intros i. specialize (Heq i). rewrite !elem_of_cons in Heq.
    split; intros Hi.
    + destruct (proj1 Heq (or_intror Hi)) as [->|?]; [|done]. specialize (F1 _ Hi). lia.
    + destruct (proj2 Heq (or_intror Hi)) as [->|?]; [|done]. specialize (F2 _ Hi). lia.
Qed.

Lemma flatten_sorted e rs : ranges_above e rs → StronglySorted Z.lt (flatten rs).
Proof.
  revert e. induction rs as [|r rs IH]; intros e; simpl; [constructor|]. intros (_ & _ & Ha).
  unfold flatten. cbn [mbind list_bind]. apply StronglySorted_app_2; [|apply seqZ_sorted|by eapply IH].
  intros i j Hi%elem_of_range_bits Hj. apply elem_of_flatten in Hj.
  apply (mem_above _ _ _ Ha) in Hj. unfold in_range in Hi. lia.
Qed.

Lemma flatten_above e rs : ranges_above e rs → Forall (Z.lt e) (flatten rs).
Proof. intros Ha. apply Forall_forall. intros i Hi%elem_of_flatten. by eapply mem_above. Qed.

(** [skip_bits] and [take_bits] drop and keep the first [n] bits. *)
Lemma skip_bits_ok n e rs : 0 ≤ n → ranges_above e rs →
  ranges_above e (skip_bits n rs) ∧ flatten (skip_bits n rs) = drop (Z.to_nat n) (flatten rs).
Proof.
  revert n e. induction rs as [|r rs IH]; intros n e Hn Ha; simpl; [by rewrite drop_nil|].
  destruct Ha as (He & Hr & Ha). unfold flatten. cbn [mbind list_bind]. fold (flatten rs). rewrite drop_app.
  assert (length (range_bits r) = Z.to_nat (range_size r)) as Hl by apply length_seqZ.
  pose proof (range_size_pos r Hr) as Hs. destruct (Z.ltb_spec n (range_size r)) as [Hlt|Hge].
  - destruct (IH 0 r.2 ltac:(lia) Ha) as [Ho Hf]. split; [simpl; split_and!; [lia|lia|done]|].
    cbn [mbind list_bind]. replace (Z.to_nat n - _)%nat with 0%nat by lia. f_equal; [|exact Hf].
    unfold range_bits. rewrite range_size_pos by (simpl; lia). simpl. unfold seqZ. rewrite <-fmap_drop, drop_seq, Hs.
    replace (Z.to_nat (r.2 - r.1) - Z.to_nat n)%nat with (Z.to_nat (r.2 - (r.1 + n))) by lia.
    set (m := Z.to_nat (r.2 - (r.1 + n))).
    replace (seq (0 + Z.to_nat n) m) with (Nat.add (Z.to_nat n) <$> seq 0 m) by (rewrite fmap_add_seq; f_equal; lia).
    rewrite <-list_fmap_compose. apply list_fmap_ext. intros ? x _. cbn. lia.
  - destruct (IH (n - range_size r) r.2 ltac:(lia) Ha) as [Ho Hf]. split; [eapply ranges_above_weaken; [|done]; lia|].
    fold (flatten (skip_bits (n - range_size r) rs)). rewrite Hf, (drop_ge (range_bits r)) by lia. simpl. f_equal. lia.
Qed.

Lemma take_bits_ok n e rs : 0 ≤ n → ranges_above e rs →
  ranges_above e (take_bits n rs) ∧ flatten (take_bits n rs) = take (Z.to_nat n) (flatten rs).
Proof.
  revert n e. induction rs as [|r rs IH]; intros n e Hn Ha; simpl.
  { destruct (n =? 0); by rewrite take_nil. }
  destruct (Z.eqb_spec n 0) as [->|Hn0]; [done|].
  destruct Ha as (He & Hr & Ha). unfold flatten. cbn [mbind list_bind]. fold (flatten rs). rewrite take_app.
  assert (length (range_bits r) = Z.to_nat (range_size r)) as Hl by apply length_seqZ.
  pose proof (range_size_pos r Hr) as Hs. destruct (Z.ltb_spec n (range_size r)) as [Hlt|Hge].
  - assert (range_size (r.1, r.1 + n) = n) as Hsz by (rewrite range_size_pos; simpl; lia). rewrite Hsz, Z.sub_diag.
    assert (take_bits 0 rs = []) as -> by (by destruct rs). split; [simpl; split_and!; [lia|lia|done]|].
    replace (Z.to_nat n - _)%nat with 0%nat by lia. rewrite take_0. cbn [mbind list_bind]. f_equal.
    unfold range_bits. rewrite Hsz, Hs. simpl. unfold seqZ. rewrite <-fmap_take, take_seq. do 2 f_equal. lia.
  - destruct (IH (n - range_size r) r.2 ltac:(lia) Ha) as [Ho Hf]. split; [by split_and!|].
    fold (flatten (take_bits (n - range_size r) rs)). rewrite Hf, (take_ge (range_bits r)) by lia. repeat f_equal. lia.
Qed.

(** [ranges_from_bits] on increasing bits. *)
Lemma ranges_from_bits_go_ok start end_ bits e : e < start → start < end_ →
  StronglySorted Z.lt bits → Forall (Z.le end_) bits →
  ranges_above e (ranges_from_bits_go start end_ bits) ∧
  ∀ i, mem i (ranges_from_bits_go start end_ bits) = true ↔ start ≤ i < end_ ∨ i ∈ bits.
Proof.
  revert start end_ e. induction bits as [|b bits IH]; intros start end_ e He Hse Hs Hb; simpl.
  - split; [done|]. intros i. unfold in_range. simpl. rewrite elem_of_nil. lia.
  - inversion_clear Hs as [|? ? Hs' F]. inversion_clear Hb as [|? ? Hb1 Hb'].
    destruct (Z.ltb_spec end_ b) as [Hlt|Hge].
    + destruct (IH b (b + 1) end_) as [Ho Hm]; [lia|lia|done|eapply Forall_impl; [exact F|]; simpl; lia|].
      split; [by split_and!|]. intros i. simpl. rewrite orb_true_iff, Hm, elem_of_cons. unfold in_range. simpl. rewrite andb_true_iff, Z.leb_le, Z.ltb_lt. intuition lia.
    + destruct (IH start (end_ + 1) e) as [Ho Hm]; [lia|lia|done|eapply Forall_impl; [exact F|]; simpl; lia|].
      split; [done|]. intros i. rewrite Hm, elem_of_cons. assert (b = end_) as -> by lia. destruct (decide (i ∈ bits)); intuition lia.
Qed.

Lemma ranges_from_bits_ok bits : StronglySorted Z.lt bits → Forall (Z.le 0) bits →
  ranges_ok (ranges_from_bits bits) ∧ ∀ i, mem i (ranges_from_bits bits) = bool_decide (i ∈ bits).
Proof.
  destruct bits as [|b bits]; intros Hs Hb; simpl.
  - done.
  - inversion_clear Hs as [|? ? Hs' F]. inversion_clear Hb.
    destruct (ranges_from_bits_go_ok b (b + 1) bits (-1)) as [Ho Hm]; [lia|lia|done|eapply Forall_impl; [exact F|]; simpl; lia|].
    split; [done|]. intros i. specialize (Hm i).
    apply eq_true_iff_eq. rewrite Hm, bool_decide_eq_true, elem_of_cons. destruct (decide (i ∈ bits)); intuition lia.
Qed.
