(* ===== verification/BitField.v ===== *)
(** * Bit fields (ipld/bitfield/src/lib.rs, ops.rs)

    A [BitField] keeps the ranges it was made of and, next to them, the bits set
    and unset since. [has] is the set of bits it stands for; the theorems say
    what each operation does to that set. *)

From S2P Require Import Prelude Effects BitRanges.
From stdpp Require Import gmap strings list fin_maps sorting.
From Stdlib Require Import ZArith Lia.
#[local] Open Scope Z_scope.

(** ** Ordered sets

    [BTreeSet<u64>], as the increasing list of its elements. *)
Fixpoint bt_insert (x : Z) (s : list Z) : list Z :=
  match s with
  | [] => [x]
  | y :: s' => if x <? y then x :: s else if x =? y then s else y :: bt_insert x s'
  end.
Definition bt_remove (x : Z) (s : list Z) : list Z := List.filter (λ y, negb (y =? x)) s.
Definition bt_contains (s : list Z) (x : Z) : bool := existsb (Z.eqb x) s.

Lemma bt_contains_spec s x : bt_contains s x = bool_decide (x ∈ s).
Proof.
  apply eq_true_iff_eq. unfold bt_contains. rewrite bool_decide_eq_true, existsb_exists. setoid_rewrite Z.eqb_eq.
  setoid_rewrite <-list_elem_of_In. naive_solver.
Qed.

Lemma elem_of_bt_insert x y s : y ∈ bt_insert x s ↔ y = x ∨ y ∈ s.
Proof.
  induction s as [|z s IH]; simpl; [by rewrite list_elem_of_singleton, elem_of_nil; intuition|].
  destruct (Z.ltb_spec x z); [by rewrite elem_of_cons|]. destruct (Z.eqb_spec x z) as [->|].
  - rewrite elem_of_cons. naive_solver.
  - rewrite !elem_of_cons, IH. naive_solver.
Qed.
Lemma elem_of_bt_remove x y s : y ∈ bt_remove x s ↔ y ≠ x ∧ y ∈ s.
Proof. unfold bt_remove. rewrite !list_elem_of_In, filter_In, negb_true_iff, Z.eqb_neq. naive_solver. Qed.

Lemma filter_sorted f l : StronglySorted Z.lt l → StronglySorted Z.lt (List.filter f l).
Proof.
  induction 1 as [|x l Hs IH F]; simpl; [constructor|]. destruct (f x); [|done]. constructor; [done|].
  rewrite Forall_forall in *. intros y Hy%list_elem_of_In. apply filter_In in Hy as [Hy _]. by apply F, list_elem_of_In.
Qed.
Lemma bt_insert_sorted x s : StronglySorted Z.lt s → StronglySorted Z.lt (bt_insert x s).
Proof.
  induction 1 as [|y s Hs IH F]; simpl; [by repeat constructor|].
  destruct (Z.ltb_spec x y); [|destruct (Z.eqb_spec x y) as [->|]]; constructor; try done.
  - by constructor.
  - constructor; [done|]. eapply Forall_impl; [exact F|]. simpl. lia.
  - rewrite Forall_forall in *. intros z [->|Hz]%elem_of_bt_insert; [lia|by apply F].
Qed.

(** ** The bit field *)

Record BitField := mkBitField { bf_ranges : list Range; bf_set : list Z; bf_unset : list Z }.
Inductive OutOfRangeError := OutOfRange.

Definition new : BitField := mkBitField [] [] [].
Definition from_ranges (iter : list Range) : BitField := mkBitField iter [] [].

Definition try_set (bit : Z) (bf : BitField) : result OutOfRangeError BitField :=
  if bit =? u64_max then Err OutOfRange
  else Ok (mkBitField (bf_ranges bf) (bt_insert bit (bf_set bf)) (bt_remove bit (bf_unset bf))).
Definition unset (bit : Z) (bf : BitField) : BitField :=
  if bit =? u64_max then bf
  else mkBitField (bf_ranges bf) (bt_remove bit (bf_set bf)) (bt_insert bit (bf_unset bf)).

(** [slice::binary_search_by]: halve until one candidate is left. *)
Inductive Ordering := Less | Equal | Greater.
Fixpoint search_base {A} (fuel : nat) (f : A → Ordering) (l : list A) (base size : nat) : nat :=
  match fuel with
  | O => base
  | S fuel =>
      if (size <=? 1)%nat then base else
      let half := Nat.div2 size in
      let mid := (base + half)%nat in
      let base := match l !! mid with
                  | Some x => match f x with Greater => base | _ => mid end
                  | None => base
                  end in
      search_base fuel f l base (size - half)
  end.
Definition binary_search_by {A} (f : A → Ordering) (l : list A) : option nat :=
  let base := search_base (length l) f l 0 (length l) in
  match l !! base with
  | Some x => match f x with Equal => Some base | _ => None end
  | None => None
  end.

Definition locate (index : Z) (range : Range) : Ordering :=
  if index <? range.1 then Greater else if range.2 <=? index then Less else Equal.
Definition get (bf : BitField) (index : Z) : bool :=
  if bt_contains (bf_set bf) index then true
  else if bt_contains (bf_unset bf) index then false
  else match binary_search_by (locate index) (bf_ranges bf) with Some _ => true | None => false end.

Definition opt_combine (f : Z → Z → Z) (a b : option Z) : option Z :=
  match a, b with
  | None, None => None
  | Some v, None | None, Some v => Some v
  | Some a, Some b => Some (f a b)
  end.
Definition kept (bf : BitField) (i : Z) : bool := negb (bt_contains (bf_unset bf) i).
Fixpoint find_map {A B} (f : A → option B) (l : list A) : option B :=
  match l with [] => None | x :: l => match f x with Some y => Some y | None => find_map f l end end.
Definition first (bf : BitField) : option Z :=
  opt_combine Z.min (head (bf_set bf))
    (find_map (λ r, List.find (kept bf) (range_bits r)) (bf_ranges bf)).
Definition bf_last (bf : BitField) : option Z :=
  opt_combine Z.max (last (bf_set bf))
    (List.find (kept bf) (reverse (bf_ranges bf) ≫= λ r, reverse (range_bits r))).

Definition bf_iter (bf : BitField) : list Z :=
  List.filter (kept bf) (flatten (ranges_union (bf_ranges bf) (ranges_from_bits (bf_set bf)))).
Definition ranges (bf : BitField) : list Range :=
  ranges_difference (ranges_union (bf_ranges bf) (ranges_from_bits (bf_set bf)))
    (ranges_from_bits (bf_unset bf)).

Definition is_empty (bf : BitField) : bool :=
  match bf_set bf with [] => true | _ => false end &&
  forallb (bt_contains (bf_unset bf)) (flatten (bf_ranges bf)).
Definition is_trivially_empty (bf : BitField) : bool :=
  match bf_set bf with [] => true | _ => false end &&
  match bf_ranges bf with [] => true | _ => false end.

(** [len] sums the sizes in a [u64]; [len_bounds] is why the sum fits. *)
Definition len (bf : BitField) : Z := ranges_len (ranges bf).
Definition bounded_iter (bf : BitField) (max : Z) : option (list Z) :=
  if len bf <=? max then Some (bf_iter bf) else None.
Definition slice (bf : BitField) (start length : Z) : option BitField :=
  let slice := from_ranges (take_bits length (skip_bits start (ranges bf))) in
  if len slice =? length then Some slice else None.
Definition cut (bf other : BitField) : BitField := from_ranges (ranges_cut (ranges bf) (ranges other)).

(** [PartialEq::eq]: the same ranges. *)
Definition bf_eq (a b : BitField) : bool := bool_decide (ranges a = ranges b).

(** ** ops.rs *)

Definition bitor (a b : BitField) : BitField :=
  if is_trivially_empty a then b else if is_trivially_empty b then a
  else from_ranges (ranges_union (ranges a) (ranges b)).
Definition bitand (a b : BitField) : BitField :=
  if is_trivially_empty a || is_trivially_empty b then new
  else from_ranges (ranges_intersection (ranges a) (ranges b)).
Definition sub (a b : BitField) : BitField :=
  if is_trivially_empty a || is_trivially_empty b then a
  else from_ranges (ranges_difference (ranges a) (ranges b)).
Definition bitxor (a b : BitField) : BitField :=
  if is_trivially_empty a then b else if is_trivially_empty b then a
  else from_ranges (ranges_symmetric_difference (ranges a) (ranges b)).

Definition union_all (bfs : list BitField) : BitField := fold_left bitor bfs new.
Definition contains_any (a b : BitField) : bool :=
  negb (is_trivially_empty a || is_trivially_empty b) &&
  match ranges_intersection (ranges a) (ranges b) with [] => false | _ => true end.
Definition contains_all (a b : BitField) : bool :=
  is_trivially_empty b ||
  match ranges_difference (ranges b) (ranges a) with [] => true | _ => false end.

(** ** From bits *)

(** [FromIterator<bool>]: positions are counted in a [u64]. *)
Fixpoint positions (i : Z) (bs : list bool) : list Z :=
  match bs with [] => [] | b :: bs => if b then i :: positions (i + 1) bs else positions (i + 1) bs end.
Definition from_bools (bs : list bool) : result OutOfRangeError BitField :=
  if u64_max <? Z.of_nat (length bs) then Err OutOfRange
  else Ok (from_ranges (ranges_from_bits (positions 0 bs))).

(** [FromIterator<u64>]: sort, drop duplicates, look at the last. *)
Fixpoint dedup (l : list Z) : list Z :=
  match l with
  | x :: (y :: _) as l' => if x =? y then dedup l' else x :: dedup l'
  | l => l
  end.
Definition from_u64s (l : list Z) : result OutOfRangeError BitField :=
  match l with
  | [] => Ok new
  | _ =>
      let vec := dedup (merge_sort Z.le l) in
      if bool_decide (last vec = Some u64_max) then Err OutOfRange
      else Ok (from_ranges (ranges_from_bits vec))
  end.

(** ** Meaning and invariant *)

(** The bits a bit field stands for. *)
Definition has (bf : BitField) (i : Z) : bool :=
  (mem i (bf_ranges bf) || bool_decide (i ∈ bf_set bf)) && negb (bool_decide (i ∈ bf_unset bf)).

Definition bits_ok (l : list Z) : Prop := StronglySorted Z.lt l ∧ Forall (λ i, 0 ≤ i < u64_max) l.
Definition below_max (rs : list Range) : Prop := ∀ i, mem i rs = true → i < u64_max.

(** The comments of the struct: ordered disjoint ranges, and no bit both set and
    unset; bits stay below [u64::MAX]. *)
Definition bf_ok (bf : BitField) : Prop :=
  ranges_ok (bf_ranges bf) ∧ below_max (bf_ranges bf) ∧ bits_ok (bf_set bf) ∧ bits_ok (bf_unset bf) ∧
  ∀ i, i ∈ bf_set bf → i ∈ bf_unset bf → False.

(** [bf] is a well-formed bit field with the bits [s]. *)
Definition denotes (bf : BitField) (s : Z → bool) : Prop := bf_ok bf ∧ ∀ i, has bf i = s i.

Lemma bits_ok_nil : bits_ok [].
Proof. split; constructor. Qed.
Lemma bits_ok_insert x l : 0 ≤ x < u64_max → bits_ok l → bits_ok (bt_insert x l).
Proof.
  intros Hx [Hs F]. split; [by apply bt_insert_sorted|]. rewrite Forall_forall in *.
  intros i [->|Hi]%elem_of_bt_insert; [done|by apply F].
Qed.
Lemma bits_ok_remove x l : bits_ok l → bits_ok (bt_remove x l).
Proof.
  intros [Hs F]. split; [by apply filter_sorted|]. rewrite Forall_forall in *.
  intros i [_ Hi]%elem_of_bt_remove. by apply F.
Qed.
Lemma bits_ok_ranges l : bits_ok l →
  ranges_ok (ranges_from_bits l) ∧ ∀ i, mem i (ranges_from_bits l) = bool_decide (i ∈ l).
Proof. intros [Hs F]. apply ranges_from_bits_ok; [done|]. eapply Forall_impl; [exact F|]. simpl. lia. Qed.

Lemma from_ranges_denotes rs s : ranges_ok rs → below_max rs → (∀ i, mem i rs = s i) → denotes (from_ranges rs) s.
Proof.
  intros Ho Hb Hm. split; [split_and!; try done; try apply bits_ok_nil; by intros i ?%elem_of_nil|].
  intros i. unfold has, from_ranges. simpl. by rewrite orb_false_r, andb_true_r.
Qed.

Section ranges.
Context (bf : BitField) (Hok : bf_ok bf).

Lemma inner_ok : let rs := ranges_union (bf_ranges bf) (ranges_from_bits (bf_set bf)) in
  ranges_ok rs ∧ ∀ i, mem i rs = mem i (bf_ranges bf) || bool_decide (i ∈ bf_set bf).
Proof using Hok.
  destruct Hok as (Hr & _ & Hs & _). destruct (bits_ok_ranges _ Hs) as [Hso Hsm].
  destruct (ranges_union_ok _ _ Hr Hso) as [Ho Hm]. split; [done|]. intros i. by rewrite Hm, Hsm.
Qed.

(** [ranges] gives the canonical ranges of the bits. *)
Lemma ranges_has : ranges_ok (ranges bf) ∧ ∀ i, mem i (ranges bf) = has bf i.
Proof using Hok.
  destruct inner_ok as [Ho Hm]. destruct Hok as (_ & _ & _ & Hu & _). destruct (bits_ok_ranges _ Hu) as [Huo Hum].
  destruct (ranges_difference_ok _ _ Ho Huo) as [Hdo Hdm]. split; [done|]. intros i. unfold ranges, has. by rewrite Hdm, Hm, Hum.
Qed.

Lemma has_bounds i : has bf i = true → 0 ≤ i < u64_max.
Proof using Hok.
  intros Hi. destruct ranges_has as [Ho Hm]. split.
  - rewrite <-Hm in Hi. apply (mem_above _ _ _ Ho) in Hi. lia.
  - unfold has in Hi. apply andb_true_iff in Hi as [[Hi|Hi]%orb_true_iff _]; [by apply Hok|].
    apply bool_decide_eq_true in Hi. destruct Hok as (_ & _ & [_ F] & _). rewrite Forall_forall in F. by apply F.
Qed.

Lemma below_max_ranges : below_max (ranges bf).
Proof using Hok. destruct ranges_has as [_ Hm]. intros i. rewrite Hm. apply has_bounds. Qed.

Lemma trivially_empty_has : is_trivially_empty bf = true → ∀ i, has bf i = false.
Proof using.
  unfold is_trivially_empty, has. destruct (bf_set bf), (bf_ranges bf); try done.
Qed.
End ranges.

(** ** Updates *)

Lemma try_set_denotes bit bf : in_u64 bit → bf_ok bf →
  match try_set bit bf with
  | Ok bf' => bit < u64_max ∧ denotes bf' (λ i, (i =? bit) || has bf i)
  | Err OutOfRange => bit = u64_max
  end.
Proof.
  intros Hb (Hr & Hbm & Hs & Hu & Hd). unfold try_set. destruct (Z.eqb_spec bit u64_max) as [?|Hne]; [done|].
  unfold in_u64 in Hb. split; [lia|]. split.
  - split_and!; simpl; [done..|apply bits_ok_insert; [lia|done]|by apply bits_ok_remove|].
    intros i [->|Hi]%elem_of_bt_insert [Hn Hi']%elem_of_bt_remove; [done|by eapply Hd].
  - intros i. unfold has. simpl. setoid_rewrite (bool_decide_ext _ _ (elem_of_bt_insert bit i _)).
    setoid_rewrite (bool_decide_ext _ _ (elem_of_bt_remove bit i _)).
    destruct (Z.eqb_spec i bit) as [->|Hni]; repeat case_bool_decide; simpl; rewrite ?orb_true_r, ?orb_false_r; try tauto; naive_solver.
Qed.

Lemma unset_denotes bit bf : in_u64 bit → bf_ok bf → denotes (unset bit bf) (λ i, negb (i =? bit) && has bf i).
Proof.
  intros Hb Hok. pose proof Hok as (Hr & Hbm & Hs & Hu & Hd). unfold unset. destruct (Z.eqb_spec bit u64_max) as [->|Hne].
  { split; [done|]. intros i. destruct (Z.eqb_spec i u64_max) as [->|]; [|done].
    destruct (has bf u64_max) eqn:E; [|done]. apply has_bounds in E; [lia|done]. }
  unfold in_u64 in Hb. split.
  - split_and!; simpl; [done..|by apply bits_ok_remove|apply bits_ok_insert; [lia|done]|].
    intros i [Hn Hi]%elem_of_bt_remove [->|Hi']%elem_of_bt_insert; [done|by eapply Hd].
  - intros i. unfold has. simpl. setoid_rewrite (bool_decide_ext _ _ (elem_of_bt_insert bit i _)).
    setoid_rewrite (bool_decide_ext _ _ (elem_of_bt_remove bit i _)).
    destruct (Z.eqb_spec i bit) as [->|Hni]; repeat case_bool_decide; simpl; rewrite ?orb_true_r, ?orb_false_r, ?andb_false_r; try tauto; naive_solver.
Qed.

Section binary.
Context (a b : BitField) (Ha : bf_ok a) (Hb : bf_ok b).

Lemma bitor_denotes : denotes (bitor a b) (λ i, has a i || has b i).
Proof using Ha Hb.
  unfold bitor. destruct (is_trivially_empty a) eqn:Ea.
  { split; [done|]. intros i. by rewrite (trivially_empty_has a Ea). }
  destruct (is_trivially_empty b) eqn:Eb.
  { split; [done|]. intros i. by rewrite (trivially_empty_has b Eb), orb_false_r. }
  destruct (ranges_has a Ha) as [Ho Hm], (ranges_has b Hb) as [Ho' Hm'], (ranges_union_ok _ _ Ho Ho') as [Hu Hum].
  apply from_ranges_denotes; [done| |intros i; by rewrite Hum, Hm, Hm'].
  intros i. rewrite Hum, orb_true_iff. by intros [?%below_max_ranges|?%below_max_ranges].
Qed.

Lemma bitand_denotes : denotes (bitand a b) (λ i, has a i && has b i).
Proof using Ha Hb.
  unfold bitand. destruct (is_trivially_empty a || is_trivially_empty b) eqn:E.
  { apply from_ranges_denotes; [done..|]. intros i.
    apply orb_true_iff in E as [E|E]; by rewrite (trivially_empty_has _ E), ?andb_false_r. }
  destruct (ranges_has a Ha) as [Ho Hm], (ranges_has b Hb) as [Ho' Hm'], (ranges_intersection_ok _ _ Ho Ho') as [Hu Hum].
  apply from_ranges_denotes; [done| |intros i; by rewrite Hum, Hm, Hm'].
  intros i. rewrite Hum, andb_true_iff. by intros [?%below_max_ranges _].
Qed.

Lemma sub_denotes : denotes (sub a b) (λ i, has a i && negb (has b i)).
Proof using Ha Hb.
  unfold sub. destruct (is_trivially_empty a || is_trivially_empty b) eqn:E.
  { split; [done|]. intros i.
    apply orb_true_iff in E as [E|E]; by rewrite (trivially_empty_has _ E), ?andb_true_r. }
  destruct (ranges_has a Ha) as [Ho Hm], (ranges_has b Hb) as [Ho' Hm'], (ranges_difference_ok _ _ Ho Ho') as [Hu Hum].
  apply from_ranges_denotes; [done| |intros i; by rewrite Hum, Hm, Hm'].
  intros i. rewrite Hum, andb_true_iff. by intros [?%below_max_ranges _].
Qed.

Lemma bitxor_denotes : denotes (bitxor a b) (λ i, xorb (has a i) (has b i)).
Proof using Ha Hb.
  unfold bitxor. destruct (is_trivially_empty a) eqn:Ea.
  { split; [done|]. intros i. by rewrite (trivially_empty_has a Ea). }
  destruct (is_trivially_empty b) eqn:Eb.
  { split; [done|]. intros i. by rewrite (trivially_empty_has b Eb), xorb_false_r. }
  destruct (ranges_has a Ha) as [Ho Hm], (ranges_has b Hb) as [Ho' Hm'], (ranges_symmetric_difference_ok _ _ Ho Ho') as [Hu Hum].
  apply from_ranges_denotes; [done| |intros i; by rewrite Hum, Hm, Hm'].
  intros i. rewrite Hum. intros Hi. pose proof (below_max_ranges a Ha i). pose proof (below_max_ranges b Hb i).
  destruct (mem i (ranges a)); [auto|]. destruct (mem i (ranges b)); [auto|done].
Qed.

(** The bits below [i], counted: what [cut] moves a bit down by. *)
Lemma rank_nonneg i rs : 0 ≤ rank i rs.
Proof using. induction rs as [|r rs IH]; simpl; [lia|]. unfold below. lia. Qed.

Lemma rank_count e i rs : ranges_above e rs → rank i rs = Z.of_nat (length (List.filter (λ j, j <? i) (flatten rs))).
Proof using.
  revert e. induction rs as [|r rs IH]; intros e; [done|]. intros (_ & Hr & Ha'). cbn [rank].
  unfold flatten. cbn [mbind list_bind]. fold (flatten rs). rewrite List.filter_app, length_app, Nat2Z.inj_add, (IH _ Ha').
  f_equal. clear. unfold below, range_bits, range_size, seqZ.
  destruct (Z.leb_spec r.2 r.1) as [|Hr]; [simpl; lia|]. destruct r as [s e]. simpl in *.
  replace (Z.min i e - s) with (Z.min (i - s) (e - s)) by lia. rewrite <-(Z2Nat.id (e - s)) at 1 by lia.
  generalize (Z.to_nat (e - s)) as n. intros n. clear.
  induction n as [|n IH]; [simpl; lia|]. rewrite seq_S, fmap_app, List.filter_app, length_app. cbn [fmap list_fmap List.filter Nat.add].
  destruct (Z.ltb_spec (Z.of_nat n + s) i); cbn [length]; lia.
Qed.

Lemma cut_has : bf_ok (cut a b) ∧ ∀ j, has (cut a b) j = true ↔
  ∃ i, has a i = true ∧ has b i = false ∧
    j = i - Z.of_nat (length (List.filter (λ k, k <? i) (flatten (ranges b)))).
Proof using Ha Hb.
  destruct (ranges_has a Ha) as [Ho Hm], (ranges_has b Hb) as [Ho' Hm'], (ranges_cut_ok _ _ Ho Ho') as [Hu Hum].
  assert (denotes (cut a b) (λ i, mem i (ranges_cut (ranges a) (ranges b)))) as [Hok Hh].
  { apply from_ranges_denotes; [done| |done]. intros j (i & Hi & _ & ->)%Hum. apply below_max_ranges in Hi; [|done].
    pose proof (rank_nonneg i (ranges b)). lia. }
  split; [done|]. intros j. rewrite Hh, Hum. setoid_rewrite Hm. setoid_rewrite Hm'.
  setoid_rewrite (rank_count (-1)); done.
Qed.

Lemma contains_any_has : contains_any a b = true ↔ ∃ i, has a i = true ∧ has b i = true.
Proof using Ha Hb.
  unfold contains_any. rewrite andb_true_iff, negb_true_iff, orb_false_iff.
  destruct (ranges_has a Ha) as [Ho Hm], (ranges_has b Hb) as [Ho' Hm'], (ranges_intersection_ok _ _ Ho Ho') as [Hu Hum].
  split.
  - intros [_ E]. destruct (ranges_intersection (ranges a) (ranges b)) as [|r rs] eqn:Er; [done|].
    destruct Hu as (_ & Hr & _). exists r.1. rewrite <-Hm, <-Hm'. apply andb_true_iff. rewrite <-Hum.
    simpl. unfold in_range. apply orb_true_iff. left. lia.
  - intros (i & Hi & Hi'). split.
    { split; [destruct (is_trivially_empty a) eqn:E|destruct (is_trivially_empty b) eqn:E]; try done;
        apply trivially_empty_has with (i := i) in E; congruence. }
    specialize (Hum i). rewrite Hm, Hm', Hi, Hi' in Hum. by destruct (ranges_intersection (ranges a) (ranges b)).
Qed.

Lemma contains_all_has : contains_all a b = true ↔ ∀ i, has b i = true → has a i = true.
Proof using Ha Hb.
  unfold contains_all. rewrite orb_true_iff.
  destruct (ranges_has a Ha) as [Ho Hm], (ranges_has b Hb) as [Ho' Hm'], (ranges_difference_ok _ _ Ho' Ho) as [Hu Hum].
  split.
  - intros [E|E] i Hi; [by rewrite (trivially_empty_has b E) in Hi|]. specialize (Hum i). rewrite Hm, Hm', Hi in Hum.
    destruct (ranges_difference (ranges b) (ranges a)); [|done]. by destruct (has a i).
  - intros Hsub. right. destruct (ranges_difference (ranges b) (ranges a)) as [|r rs] eqn:Er; [done|].
    destruct Hu as (_ & Hr & _). specialize (Hum r.1). rewrite Hm, Hm' in Hum.
    assert (mem r.1 (r :: rs) = true) as E by (simpl; unfold in_range; apply orb_true_iff; left; lia).
    rewrite E in Hum. symmetry in Hum. apply andb_true_iff in Hum as [H1 H2]. by rewrite Hsub in H2.
Qed.

Lemma bf_eq_has : bf_eq a b = true ↔ ∀ i, has a i = has b i.
Proof using Ha Hb.
  unfold bf_eq. rewrite bool_decide_eq_true. destruct (ranges_has a Ha) as [Ho Hm], (ranges_has b Hb) as [Ho' Hm'].
  setoid_rewrite <-Hm. setoid_rewrite <-Hm'. split; [by intros ->|]. by apply ranges_unique with (e := -1).
Qed.
End binary.

Lemma union_all_denotes bfs : Forall bf_ok bfs → denotes (union_all bfs) (λ i, existsb (λ bf, has bf i) bfs).
Proof.
  unfold union_all. intros F. assert (denotes new (λ _, false)) as Hn by (by apply from_ranges_denotes).
  assert (∀ acc s, denotes acc s → denotes (fold_left bitor bfs acc) (λ i, s i || existsb (λ bf, has bf i) bfs)) as Hg.
  { clear Hn. induction F as [|bf bfs Hbf F IH]; intros acc s [Hok Hs]; simpl.
    - split; [done|]. intros i. by rewrite Hs, orb_false_r.
    - destruct (IH (bitor acc bf) (λ i, has acc i || has bf i)) as [H1 H2]; [by apply bitor_denotes|].
      split; [done|]. intros i. by rewrite H2, Hs, orb_assoc. }
  exact (Hg new _ Hn).
Qed.

(** ** Queries *)

Lemma ranges_lookup_ok e rs k r : ranges_above e rs → rs !! k = Some r → e < r.1 < r.2.
Proof.
  revert e k. induction rs as [|r' rs IH]; intros e k Ha Hk; [done|]. destruct Ha as (? & ? & Ha).
  destruct k as [|k]; simpl in Hk; [by simplify_eq|]. specialize (IH _ _ Ha Hk). lia.
Qed.
Lemma ranges_lookup_lt e rs k1 k2 r1 r2 : ranges_above e rs → (k1 < k2)%nat →
  rs !! k1 = Some r1 → rs !! k2 = Some r2 → r1.2 < r2.1.
Proof.
  revert e k1 k2. induction rs as [|r rs IH]; intros e k1 k2 Ha Hk H1 H2; [done|]. destruct Ha as (_ & Hr & Ha).
  destruct k2 as [|k2]; [lia|]. destruct k1 as [|k1]; simpl in *; [|by eapply (IH _ k1 k2); [done|lia|..]].
  injection H1 as ->. by apply (ranges_lookup_ok _ _ _ _ Ha H2).
Qed.

Lemma search_base_ok fuel rs i base size k r : ranges_ok rs → rs !! k = Some r → in_range i r = true →
  (size ≤ S fuel)%nat → (base + size ≤ length rs)%nat → (base ≤ k < base + size)%nat →
  search_base fuel (locate i) rs base size = k.
Proof.
  revert base size. induction fuel as [|fuel IH]; intros base size Hok Hk Hi Hf Hl Hb; simpl; [lia|].
  destruct (Nat.leb_spec size 1) as [|Hs]; [lia|].
  assert (0 < Nat.div2 size < size ∧ 2 * Nat.div2 size <= size)%nat as Hh
    by (rewrite Nat.div2_div; split_and!; [apply Nat.div_str_pos; lia|apply Nat.div_lt; lia|apply Nat.Div0.mul_div_le]).
  destruct (lookup_lt_is_Some_2 rs (base + Nat.div2 size)%nat) as [m Hm]; [lia|]. rewrite Hm.
  unfold in_range in Hi.
  assert (i < m.1 → (k < base + Nat.div2 size)%nat) as Hlo.
  { intros Hlt. destruct (Nat.lt_ge_cases k (base + Nat.div2 size)) as [|Hge]; [done|].
    apply Nat.lt_eq_cases in Hge as [Hge|Heq].
    - pose proof (ranges_lookup_lt _ _ _ _ _ _ Hok Hge Hm Hk).
      pose proof (ranges_lookup_ok _ _ _ _ Hok Hm). lia.
    - rewrite Heq in Hm. rewrite Hm in Hk. injection Hk as ->. lia. }
  assert (m.1 ≤ i → (base + Nat.div2 size ≤ k)%nat) as Hhi.
  { intros Hle. destruct (Nat.lt_ge_cases k (base + Nat.div2 size)) as [Hlt|]; [|done].
    pose proof (ranges_lookup_lt _ _ _ _ _ _ Hok Hlt Hk Hm). lia. }
  destruct (locate i m) eqn:El; unfold locate in El; destruct (Z.ltb_spec i m.1), (Z.leb_spec m.2 i); try done;
    apply IH; try done; lia.
Qed.

Lemma binary_search_mem rs i : ranges_ok rs →
  match binary_search_by (locate i) rs with Some _ => true | None => false end = mem i rs.
Proof.
  intros Hok. destruct (mem i rs) eqn:E.
  - apply existsb_exists in E as (r & Hr%list_elem_of_In & Hi). apply list_elem_of_lookup in Hr as [k Hk].
    unfold binary_search_by. pose proof (lookup_lt_Some _ _ _ Hk).
    erewrite search_base_ok by (done || lia). rewrite Hk. unfold locate, in_range in *.
    destruct (Z.ltb_spec i r.1), (Z.leb_spec r.2 i); done || lia.
  - unfold binary_search_by. destruct (rs !! _) as [r|] eqn:Hk; [|done]. unfold locate.
    destruct (Z.ltb_spec i r.1); [done|]. destruct (Z.leb_spec r.2 i); [done|].
    assert (mem i rs = true); [|congruence]. apply existsb_exists. exists r.
    split; [by eapply list_elem_of_In, list_elem_of_lookup_2|]. unfold in_range. lia.
Qed.

Lemma find_first f l x : StronglySorted Z.lt l → List.find f l = Some x →
  x ∈ l ∧ f x = true ∧ ∀ y, y ∈ l → f y = true → x ≤ y.
Proof.
  induction 1 as [|z l Hs IH F]; simpl; [done|]. destruct (f z) eqn:E.
  - intros [= <-]. split_and!; [left|done|]. intros y [->|Hy]%elem_of_cons _; [lia|].
    rewrite Forall_forall in F. specialize (F _ Hy). lia.
  - intros (Hx & Hf & Hm)%IH. split_and!; [by right|done|]. intros y [->|Hy]%elem_of_cons; [congruence|by apply Hm].
Qed.
Lemma find_none_kept f (l : list Z) : List.find f l = None → ∀ y, y ∈ l → f y = false.
Proof. intros Hn y Hy%list_elem_of_In. by apply (List.find_none _ _ Hn). Qed.

Lemma find_map_flatten f rs : find_map (λ r, List.find f (range_bits r)) rs = List.find f (flatten rs).
Proof.
  induction rs as [|r rs IH]; [done|]. unfold flatten. cbn [mbind list_bind find_map]. fold (flatten rs). rewrite IH.
  generalize (range_bits r) as l. intros l. induction l as [|x l IHl]; simpl; [done|]. by destruct (f x).
Qed.

Lemma reverse_flatten rs : (reverse rs ≫= λ r, reverse (range_bits r)) = reverse (flatten rs).
Proof.
  induction rs as [|r rs IH]; [done|]. rewrite reverse_cons, bind_app, IH. unfold flatten. cbn [mbind list_bind].
  by rewrite app_nil_r, reverse_app.
Qed.

(** The reverse of [List.find]. *)
Lemma find_last f l x : StronglySorted Z.lt l → List.find f (reverse l) = Some x →
  x ∈ l ∧ f x = true ∧ ∀ y, y ∈ l → f y = true → y ≤ x.
Proof.
  induction l as [|z l IH] using rev_ind; [done|]. intros Hs. apply StronglySorted_app in Hs as (Hlt & Hs & _).
  rewrite reverse_app. simpl. setoid_rewrite elem_of_app. setoid_rewrite list_elem_of_singleton. destruct (f z) eqn:E.
  - intros [= <-]. split_and!; [by right|done|]. intros y [Hy| ->] _; [|lia].
    specialize (Hlt y z Hy). rewrite list_elem_of_singleton in Hlt. specialize (Hlt eq_refl). lia.
  - intros (Hx & Hf & Hm)%IH; [|done]. split_and!; [by left|done|]. intros y [Hy| ->]; [by apply Hm|congruence].
Qed.

Lemma ranges_len_bound e m rs : ranges_above e rs → (∀ i, mem i rs = true → i < m) → ranges_len rs ≤ Z.max 0 (m - e - 1).
Proof.
  revert e. induction rs as [|r rs IH]; intros e Ha Hb; simpl; [lia|]. destruct Ha as (? & Hr & Ha).
  assert (r.2 - 1 < m) by (apply Hb; simpl; unfold in_range; apply orb_true_iff; left; lia).
  assert (ranges_len rs ≤ Z.max 0 (m - r.2 - 1)); [|rewrite range_size_pos by done; unfold ranges_len in *; lia].
  apply IH; [done|]. intros i Hi. apply Hb. by rewrite mem_cons, Hi, orb_true_r.
Qed.

Section queries.
Context (bf : BitField) (Hok : bf_ok bf).

Lemma get_has i : get bf i = has bf i.
Proof using Hok.
  unfold get, has. rewrite !bt_contains_spec, binary_search_mem by apply Hok. destruct Hok as (_ & _ & _ & _ & Hd).
  case_bool_decide as Hs; [|case_bool_decide]; simpl; rewrite ?orb_true_r, ?orb_false_r, ?andb_false_r, ?andb_true_r; try done.
  rewrite bool_decide_eq_false_2; [done|]. intros Hu. by eapply Hd.
Qed.

(** [iter] gives the bits of [ranges] one by one. *)
Lemma bf_iter_flatten : bf_iter bf = flatten (ranges bf).
Proof using Hok.
  destruct (ranges_has bf Hok) as [Ho Hm], (inner_ok bf Hok) as [Hio Him].
  apply sorted_unique; [by eapply filter_sorted, flatten_sorted|by eapply flatten_sorted|].
  intros i. rewrite elem_of_flatten, Hm. unfold bf_iter, has, kept. rewrite list_elem_of_In, filter_In, <-list_elem_of_In, elem_of_flatten, Him.
  by rewrite bt_contains_spec, andb_true_iff.
Qed.

Lemma elem_of_bf_iter i : i ∈ bf_iter bf ↔ has bf i = true.
Proof using Hok. destruct (ranges_has bf Hok) as [_ Hm]. by rewrite bf_iter_flatten, elem_of_flatten, Hm. Qed.
Lemma bf_iter_sorted : StronglySorted Z.lt (bf_iter bf).
Proof using Hok. rewrite bf_iter_flatten. eapply flatten_sorted, ranges_has, Hok. Qed.

Lemma len_iter : len bf = Z.of_nat (length (bf_iter bf)).
Proof using Hok. by rewrite bf_iter_flatten, length_flatten. Qed.
Lemma len_bounds : 0 ≤ len bf ≤ u64_max.
Proof using Hok.
  split; [rewrite len_iter; lia|]. destruct (ranges_has bf Hok) as [Ho _].
  pose proof (ranges_len_bound (-1) u64_max _ Ho (below_max_ranges bf Hok)). unfold len, u64_max in *. lia.
Qed.

(** The ranges kept, without the unset bits; the set bits join them. *)
Lemma has_split i : has bf i = true ↔ i ∈ bf_set bf ∨ (mem i (bf_ranges bf) = true ∧ kept bf i = true).
Proof using Hok.
  unfold has, kept. rewrite bt_contains_spec, andb_true_iff, orb_true_iff, bool_decide_eq_true, !negb_true_iff, bool_decide_eq_false.
  destruct Hok as (_ & _ & _ & _ & Hd). specialize (Hd i). tauto.
Qed.

Lemma first_spec : match first bf with
  | Some x => has bf x = true ∧ ∀ y, has bf y = true → x ≤ y
  | None => ∀ y, has bf y = false
  end.
Proof using Hok.
  pose proof Hok as (Hr & _ & [Hs _] & _). unfold first. rewrite find_map_flatten.
  assert (∀ s, head (bf_set bf) = Some s → s ∈ bf_set bf ∧ ∀ y, y ∈ bf_set bf → s ≤ y) as Hset.
  { intros s E. destruct Hs as [|z l _ F]; simplify_eq/=. split; [left|]. intros y [->|Hy]%elem_of_cons; [lia|].
    rewrite Forall_forall in F. specialize (F _ Hy). lia. }
  pose proof (find_first (kept bf) (flatten (bf_ranges bf))) as Hf. pose proof (find_none_kept (kept bf) (flatten (bf_ranges bf))) as Hn.
  destruct (List.find _ _) as [x|].
  - destruct (Hf x) as (Hx & Hk & Hm); [by eapply flatten_sorted|done|]. apply elem_of_flatten in Hx.
    destruct (head (bf_set bf)) as [s|] eqn:Es; simpl.
    + destruct (Hset s eq_refl) as [Hin Hle]. setoid_rewrite has_split. split.
      * destruct (Z.min_spec x s) as [[? E]|[? E]]; rewrite Z.min_comm, E; [by right|by left].
      * intros y [Hy|[Hy Hky]]; [specialize (Hle _ Hy)|specialize (Hm y (proj2 (elem_of_flatten _ _) Hy) Hky)]; lia.
    + setoid_rewrite has_split. split; [by right|]. intros y [Hy|[Hy Hky]].
      * destruct (bf_set bf); [by apply elem_of_nil in Hy|done].
      * by apply Hm; [apply elem_of_flatten|].
  - specialize (Hn eq_refl). destruct (head (bf_set bf)) as [s|] eqn:Es; simpl.
    + destruct (Hset s eq_refl) as [Hin Hle]. setoid_rewrite has_split. split; [by left|].
      intros y [Hy|[Hy Hky]]; [by apply Hle|]. apply elem_of_flatten in Hy. by rewrite (Hn _ Hy) in Hky.
    + intros y. destruct (has bf y) eqn:E; [|done]. apply has_split in E as [Hy|[Hy Hky]].
      * destruct (bf_set bf); [by apply elem_of_nil in Hy|done].
      * apply elem_of_flatten in Hy. by rewrite (Hn _ Hy) in Hky.
Qed.

Lemma last_sorted l s : StronglySorted Z.lt l → last l = Some s → s ∈ l ∧ ∀ y, y ∈ l → y ≤ s.
Proof using.
  intros Hs E. apply last_Some in E as [l' ->]. apply StronglySorted_app in Hs as (Hlt & _).
  split; [apply elem_of_app; right; left|]. intros y [Hy|Hy]%elem_of_app; [|apply list_elem_of_singleton in Hy; lia].
  specialize (Hlt y s Hy ltac:(left)). lia.
Qed.

Lemma last_spec : match bf_last bf with
  | Some x => has bf x = true ∧ ∀ y, has bf y = true → y ≤ x
  | None => ∀ y, has bf y = false
  end.
Proof using Hok.
  pose proof Hok as (Hr & _ & [Hs _] & _). unfold bf_last. rewrite reverse_flatten.
  pose proof (λ s, last_sorted (bf_set bf) s Hs) as Hset.
  pose proof (find_last (kept bf) (flatten (bf_ranges bf))) as Hf.
  pose proof (find_none_kept (kept bf) (reverse (flatten (bf_ranges bf)))) as Hn. setoid_rewrite elem_of_reverse in Hn.
  assert (last (bf_set bf) = None → ∀ y, y ∈ bf_set bf → False) as Hne
    by (intros E y Hy; apply last_None in E; rewrite E in Hy; by apply elem_of_nil in Hy).
  destruct (List.find _ _) as [x|].
  - destruct (Hf x) as (Hx & Hk & Hm); [by eapply flatten_sorted|done|]. apply elem_of_flatten in Hx.
    destruct (last (bf_set bf)) as [s|] eqn:Es; simpl.
    + destruct (Hset s eq_refl) as [Hin Hle]. setoid_rewrite has_split. split.
      * destruct (Z.max_spec s x) as [[? E]|[? E]]; rewrite E; [by right|by left].
      * intros y [Hy|[Hy Hky]]; [specialize (Hle _ Hy)|specialize (Hm y (proj2 (elem_of_flatten _ _) Hy) Hky)]; lia.
    + setoid_rewrite has_split. split; [by right|]. intros y [Hy|[Hy Hky]]; [by destruct (Hne eq_refl y)|].
      by apply Hm; [apply elem_of_flatten|].
  - specialize (Hn eq_refl). destruct (last (bf_set bf)) as [s|] eqn:Es; simpl.
    + destruct (Hset s eq_refl) as [Hin Hle]. setoid_rewrite has_split. split; [by left|].
      intros y [Hy|[Hy Hky]]; [by apply Hle|]. apply elem_of_flatten in Hy. by rewrite (Hn _ Hy) in Hky.
    + intros y. destruct (has bf y) eqn:E; [|done]. apply has_split in E as [Hy|[Hy Hky]]; [by destruct (Hne eq_refl y)|].
      apply elem_of_flatten in Hy. by rewrite (Hn _ Hy) in Hky.
Qed.

Lemma is_empty_spec : is_empty bf = true ↔ ∀ i, has bf i = false.
Proof using Hok.
  unfold is_empty. rewrite andb_true_iff, forallb_forall. setoid_rewrite <-list_elem_of_In. setoid_rewrite elem_of_flatten. split.
  - intros [Hs Hu] i. destruct (has bf i) eqn:E; [|done]. apply has_split in E as [Hi|[Hi Hk]].
    + destruct (bf_set bf); [by apply elem_of_nil in Hi|done].
    + unfold kept in Hk. by rewrite (Hu _ Hi) in Hk.
  - intros Hn. split.
    + destruct (bf_set bf) as [|x s] eqn:E; [done|]. specialize (Hn x).
      rewrite (proj2 (has_split x)) in Hn; [done|]. left. rewrite E. left.
    + intros i Hi. destruct (bt_contains (bf_unset bf) i) eqn:E; [done|]. specialize (Hn i).
      rewrite (proj2 (has_split i)) in Hn; [done|]. right. unfold kept. by rewrite E.
Qed.

End queries.

Lemma bf_slice_spec bf start length : bf_ok bf → 0 ≤ start → 0 ≤ length →
  match slice bf start length with
  | Some s => length ≤ Z.max 0 (len bf - start) ∧ bf_ok s ∧
      bf_iter s = take (Z.to_nat length) (drop (Z.to_nat start) (bf_iter bf))
  | None => len bf < start + length
  end.
Proof.
  intros Hok Hs Hl. destruct (ranges_has bf Hok) as [Ho Hm]. destruct (skip_bits_ok start (-1) _ Hs Ho) as [Hso Hsf].
  destruct (take_bits_ok length (-1) _ Hl Hso) as [Hto Htf]. unfold slice.
  set (rs := take_bits length (skip_bits start (ranges bf))) in *.
  assert (denotes (from_ranges rs) (λ i, mem i rs)) as [Hsok Hhas].
  { apply from_ranges_denotes; [done| |done]. intros i Hi%elem_of_flatten. rewrite Htf, Hsf in Hi.
    by apply (below_max_ranges bf Hok), elem_of_flatten, (subseteq_drop (Z.to_nat start)), (subseteq_take (Z.to_nat length)). }
  assert (bf_iter (from_ranges rs) = take (Z.to_nat length) (drop (Z.to_nat start) (bf_iter bf))) as Hit.
  { rewrite (bf_iter_flatten bf Hok), <-Hsf, <-Htf. apply sorted_unique; [by apply bf_iter_sorted|by eapply flatten_sorted|].
    intros i. by rewrite elem_of_bf_iter, Hhas, elem_of_flatten. }
  rewrite (len_iter _ Hsok), Hit, (len_iter bf Hok), length_take, length_drop.
  case Z.eqb_spec; intros E; [split_and!; [lia|done..]|lia].
Qed.

(** ** Bits given one by one *)

Lemma positions_spec k bs : StronglySorted Z.lt (positions k bs) ∧
  ∀ i, i ∈ positions k bs ↔ k ≤ i ∧ bs !! Z.to_nat (i - k) = Some true.
Proof.
  revert k. induction bs as [|b bs IH]; intros k; [split; [constructor|]|].
  { intros i. rewrite lookup_nil. split; [by intros ?%elem_of_nil|by intros [_ ?]]. }
  destruct (IH (k + 1)) as [Hs Hm].
  assert (∀ i, k ≤ i ∧ (b :: bs) !! Z.to_nat (i - k) = Some true ↔
    (i = k ∧ b = true) ∨ (k + 1 ≤ i ∧ bs !! Z.to_nat (i - (k + 1)) = Some true)) as Hc.
  { intros i. destruct (Z.eq_dec i k) as [->|Hne].
    - rewrite Z.sub_diag. change (Z.to_nat 0) with 0%nat. simpl. split; [intros [_ [= ->]]; by left|].
      intros [[_ ->]|[? _]]; [done|lia].
    - destruct (Z.leb_spec k i); [|split; [lia|intros [[? _]|[? _]]; lia]].
      replace (Z.to_nat (i - k)) with (S (Z.to_nat (i - (k + 1)))) by lia. simpl. intuition lia. }
  simpl. destruct b.
  - split.
    + constructor; [done|]. apply Forall_forall. intros i [Hi _]%Hm. lia.
    + intros i. rewrite elem_of_cons, Hm, Hc. intuition.
  - split; [done|]. intros i. rewrite Hm, Hc. intuition discriminate.
Qed.

Lemma dedup_spec l : StronglySorted Z.le l → StronglySorted Z.lt (dedup l) ∧ ∀ i, i ∈ dedup l ↔ i ∈ l.
Proof.
  induction 1 as [|x l Hs [IHs IHm] F]; [split; [constructor|done]|]. destruct l as [|y l].
  { split; [repeat constructor|done]. }
  change (dedup (x :: y :: l)) with (if x =? y then dedup (y :: l) else x :: dedup (y :: l)).
  inversion_clear F as [|? ? Hxy F']. destruct (Z.eqb_spec x y) as [->|Hne].
  - split; [done|]. intros i. rewrite IHm, !elem_of_cons. tauto.
  - split.
    + constructor; [done|]. apply Forall_forall. intros i [->|Hi]%IHm%elem_of_cons; [lia|].
      inversion_clear Hs as [|? ? _ Fy]. rewrite Forall_forall in Fy. specialize (Fy _ Hi). lia.
    + intros i. by rewrite elem_of_cons, IHm, (elem_of_cons (y :: l)).
Qed.

Lemma from_bits_denotes l : bits_ok l → denotes (from_ranges (ranges_from_bits l)) (λ i, bool_decide (i ∈ l)).
Proof.
  intros Hl. destruct (bits_ok_ranges _ Hl) as [Ho Hm]. apply from_ranges_denotes; [done| |done].
  intros i. rewrite Hm, bool_decide_eq_true. destruct Hl as [_ F]. rewrite Forall_forall in F. intros Hi. by apply F.
Qed.

Lemma from_bools_spec bs : match from_bools bs with
  | Ok bf => denotes bf (λ i, bool_decide (0 ≤ i ∧ bs !! Z.to_nat i = Some true))
  | Err OutOfRange => u64_max < Z.of_nat (length bs)
  end.
Proof.
  unfold from_bools. destruct (Z.ltb_spec u64_max (Z.of_nat (length bs))); [done|]. destruct (positions_spec 0 bs) as [Hs Hm].
  destruct (from_bits_denotes (positions 0 bs)) as [H1 H2].
  { split; [done|]. apply Forall_forall. intros i [Hi Hl]%Hm. apply lookup_lt_Some in Hl. lia. }
  split; [done|]. intros i. rewrite H2. apply bool_decide_ext. by rewrite Hm, Z.sub_0_r.
Qed.

Lemma from_u64s_spec l : Forall in_u64 l → match from_u64s l with
  | Ok bf => denotes bf (λ i, bool_decide (i ∈ l))
  | Err OutOfRange => u64_max ∈ l
  end.
Proof.
  intros F. unfold from_u64s. destruct l as [|x l]; [by apply from_ranges_denotes|]. set (v := dedup _). destruct (dedup_spec (merge_sort Z.le (x :: l))) as [Hs Hm].
  { apply StronglySorted_merge_sort; [apply _|]. intros a b. lia. }
  assert (∀ i, i ∈ v ↔ i ∈ x :: l) as Hv by (intros i; unfold v; by rewrite Hm, merge_sort_Permutation). fold v in Hs.
  rewrite Forall_forall in F. case_bool_decide as E.
  - apply last_Some in E as [v' E]. apply Hv. rewrite E. apply elem_of_app. right. left.
  - destruct (from_bits_denotes v) as [H1 H2].
    { split; [done|]. apply Forall_forall. intros i Hi. destruct (F i (proj1 (Hv i) Hi)) as [H0 Hle]. split; [done|].
      destruct (Z.eq_dec i u64_max) as [->|]; [|lia]. destruct (last v) as [y|] eqn:El.
      - destruct (last_sorted v y Hs El) as [Hy Hmax]. specialize (Hmax _ Hi). destruct (F y (proj1 (Hv y) Hy)). destruct E. f_equal. lia.
      - apply last_None in El. rewrite El in Hi. by apply elem_of_nil in Hi. }
    split; [done|]. intros i. rewrite H2. by apply bool_decide_ext.
Qed.

(** ** What the operations do *)

(** C30: Bit fields act as sets of bits below [u64::MAX]: every update keeps the
    invariant of the struct; setting adds exactly the bit (or reports
    [u64::MAX]), unsetting removes it, the four operators and the n-ary union
    are the set operations, whatever was buffered on either side and whatever
    shortcut is taken, and cutting removes the bits of the other field and moves
    each remaining bit down by the number of bits cut out below it. *)
Theorem bitfield_set_operations (a b : BitField) (bit : Z) : bf_ok a → bf_ok b → in_u64 bit →
  match try_set bit a with
  | Ok a' => bit < u64_max ∧ denotes a' (λ i, (i =? bit) || has a i)
  | Err OutOfRange => bit = u64_max
  end ∧
  denotes (unset bit a) (λ i, negb (i =? bit) && has a i) ∧
  denotes (bitor a b) (λ i, has a i || has b i) ∧
  denotes (bitand a b) (λ i, has a i && has b i) ∧
  denotes (sub a b) (λ i, has a i && negb (has b i)) ∧
  denotes (bitxor a b) (λ i, xorb (has a i) (has b i)) ∧
  denotes (union_all [a; b]) (λ i, has a i || has b i) ∧
  bf_ok (cut a b) ∧
  ∀ j, has (cut a b) j = true ↔ ∃ i, has a i = true ∧ has b i = false ∧
    j = i - Z.of_nat (length (List.filter (λ k, k <? i) (bf_iter b))).
Proof.
  intros Ha Hb Hbit. split_and!; [by apply try_set_denotes|by apply unset_denotes|by apply bitor_denotes|
    by apply bitand_denotes|by apply sub_denotes|by apply bitxor_denotes| |by apply cut_has|].
  - destruct (union_all_denotes [a; b]) as [Ho Hu]; [constructor; [done|constructor; [done|constructor]]|]. split; [done|].
    intros i. rewrite Hu. simpl. by rewrite orb_false_r.
  - rewrite (bf_iter_flatten b Hb). by apply cut_has.
Qed.

(** C31: The observers of a bit field agree with its set of bits: [get]'s binary
    search finds exactly the members, [iter] (which filters the unset bits on
    the fly) yields the bits of [ranges] in increasing order, [len] counts them
    and never exceeds a [u64], [first] and [last] are the extremes, [slice]
    takes the requested members or reports that there are too few, equality,
    [is_empty], [contains_any] and [contains_all] decide the set relations. *)
Theorem bitfield_queries (a b : BitField) (start n : Z) : bf_ok a → bf_ok b → 0 ≤ start → 0 ≤ n →
  (∀ i, get a i = has a i) ∧
  bf_iter a = flatten (ranges a) ∧ StronglySorted Z.lt (bf_iter a) ∧
  (∀ i, i ∈ bf_iter a ↔ has a i = true) ∧
  len a = Z.of_nat (length (bf_iter a)) ∧ len a ≤ u64_max ∧
  match first a with
  | Some x => has a x = true ∧ ∀ y, has a y = true → x ≤ y
  | None => ∀ y, has a y = false
  end ∧
  match bf_last a with
  | Some x => has a x = true ∧ ∀ y, has a y = true → y ≤ x
  | None => ∀ y, has a y = false
  end ∧
  match slice a start n with
  | Some s => n ≤ Z.max 0 (len a - start) ∧ bf_ok s ∧
      bf_iter s = take (Z.to_nat n) (drop (Z.to_nat start) (bf_iter a))
  | None => len a < start + n
  end ∧
  (bf_eq a b = true ↔ ∀ i, has a i = has b i) ∧
  (is_empty a = true ↔ ∀ i, has a i = false) ∧
  (contains_any a b = true ↔ ∃ i, has a i = true ∧ has b i = true) ∧
  (contains_all a b = true ↔ ∀ i, has b i = true → has a i = true).
Proof.
  intros Ha Hb Hs Hn. split_and!.
  - intros i. by apply get_has.
  - by apply bf_iter_flatten.
  - by apply bf_iter_sorted.
  - intros i. by apply elem_of_bf_iter.
  - by apply len_iter.
  - by apply len_bounds.
  - by apply first_spec.
  - by apply last_spec.
  - by apply bf_slice_spec.
  - by apply bf_eq_has.
  - by apply is_empty_spec.
  - by apply contains_any_has.
  - by apply contains_all_has.
Qed.

(** ** A small bit field

    Bits 0, 2, 5, 10, 11, 12: bit 1 was unset and bit 5 set after the ranges. *)
Definition demo_bits : BitField := mkBitField [(0, 3); (10, 13)] [5] [1].
Lemma demo_bits_ok : bf_ok demo_bits.
Proof.
  split_and!; simpl.
  - unfold ranges_ok. simpl. lia.
  - intros i. unfold mem, in_range, u64_max. simpl. lia.
  - split; repeat constructor; unfold u64_max; lia.
  - split; repeat constructor; unfold u64_max; lia.
  - intros i Hi Hi'. apply list_elem_of_singleton in Hi, Hi'. lia.
Qed.

Lemma bitfield_set_operations_witness : bf_ok demo_bits ∧ in_u64 11 ∧
  denotes (unset 11 demo_bits) (λ i, negb (i =? 11) && has demo_bits i) ∧
  bf_iter (unset 11 demo_bits) = [0; 2; 5; 10; 12] ∧
  bf_iter (cut demo_bits (unset 11 demo_bits)) = [7].
Proof.
  assert (in_u64 11) as Hb by (unfold in_u64, u64_max; lia).
  destruct (bitfield_set_operations demo_bits demo_bits 11 demo_bits_ok demo_bits_ok Hb) as (_ & Hu & _).
  split; [exact demo_bits_ok|]. split; [exact Hb|]. split; [exact Hu|]. split; vm_compute; reflexivity.
Defined.

Lemma bitfield_queries_witness : bf_ok demo_bits ∧ bf_iter demo_bits = [0; 2; 5; 10; 11; 12] ∧
  first demo_bits = Some 0 ∧ bf_last demo_bits = Some 12 ∧ get demo_bits 1 = false ∧ len demo_bits = 6 ∧
  bf_iter demo_bits = flatten (ranges demo_bits).
Proof.
  destruct (bitfield_queries demo_bits demo_bits 1 2 demo_bits_ok demo_bits_ok ltac:(lia) ltac:(lia)) as (_ & Hf & _).
  split; [exact demo_bits_ok|]. do 5 (split; [vm_compute; reflexivity|]). exact Hf.
Defined.

(** The documentation of [slice] promises [None] when there are fewer than
    [start + len] bits; no bits past the end are still a slice. *)
Example slice_past_the_end : slice new 5 0 = Some new.
Proof. reflexivity. Qed.
