(* ===== verification/RlePlus.v ===== *)
(** * RLE+ (ipld/bitfield/src/rleplus/, unvalidated.rs)

    The reader and the writer handle bits through small buffers; [stream] and
    [written] say which infinite stream of bits (an integer, lowest bit first)
    a reader still has in front of it and a writer has produced. On streams,
    reading a length inverts writing one, so that a bit field has exactly one
    encoding and decoding accepts exactly the encodings. *)

From S2P Require Import Prelude Effects HamtBits Address BitRanges BitField.
From stdpp Require Import gmap strings list fin_maps sorting.
From Stdlib Require Import ZArith Lia.
#[local] Open Scope Z_scope.

Inductive RleError := NotMinimal | UnsupportedVersion | RLEOverflow | InvalidVarint.

(** ** reader.rs *)

Definition VARINT_MAX_BYTES : nat := 10.

Record BitReader := mkBitReader { br_bytes : bytes; br_bits : Z; br_num_bits : Z }.

Definition reader_new (bz : bytes) : result RleError BitReader :=
  if bool_decide (last bz = Some 0) then Err NotMinimal else
  let bits := fold_left (λ bits i, Z.lor bits (Z.shiftl (default 0 (bz !! i)) (8 * Z.of_nat i))) [0%nat; 1%nat] 0 in
  Ok (mkBitReader (drop 2 bz) bits 16).

Definition peek (num_bits : Z) (r : BitReader) : Z := Z.land (br_bits r) (Z.shiftl 1 num_bits - 1).
(** [bits] stays below [2 ^ 24], see [reader_ok]: the shift of the [u64] loses
    nothing. *)
Definition drop_bits (num_bits : Z) (r : BitReader) : BitReader :=
  let num := br_num_bits r - num_bits in
  let byte := default 0 (head (br_bytes r)) in
  let bits := Z.lor (Z.shiftr (br_bits r) num_bits) (Z.shiftl byte num) in
  if num <? 8 then mkBitReader (drop 1 (br_bytes r)) bits (num + 8)
  else mkBitReader (br_bytes r) bits num.
Definition read (num_bits : Z) : ME RleError BitReader Z :=
  res ← gets (peek num_bits);
  _ ← modify (drop_bits num_bits);
  mret res.

(** The loop of [read_varint]; [n] rounds are left and this is round [i]. *)
Fixpoint read_varint_from (n : nat) (i : Z) (len : Z) : ME RleError BitReader Z :=
  match n with
  | O => throw InvalidVarint
  | S n =>
      byte ← read 8;
      let len := Z.lor len (wrap64 (Z.shiftl (Z.land byte 127) (i * 7))) in
      if Z.land byte 128 =? 0 then
        if ((i =? 9) && (1 <? byte)) || ((byte =? 0) && negb (i =? 0)) then throw InvalidVarint
        else mret len
      else read_varint_from n (i + 1) len
  end.
Definition read_varint : ME RleError BitReader Z := read_varint_from VARINT_MAX_BYTES 0 0.

Definition has_more (r : BitReader) : bool :=
  negb (br_bits r =? 0) || match br_bytes r with [] => false | _ => true end.

Definition read_len : ME RleError BitReader (option Z) :=
  more ← gets has_more;
  if negb more then mret None else
  peek6 ← gets (peek 6);
  if negb (Z.land peek6 1 =? 0) then
    _ ← modify (drop_bits 1);
    mret (Some 1)
  else if negb (Z.land peek6 2 =? 0) then
    let val := Z.land (Z.shiftr peek6 2) 15 in
    _ ← modify (drop_bits 6);
    if val <? 2 then throw NotMinimal else mret (Some val)
  else
    _ ← modify (drop_bits 2);
    val ← read_varint;
    if val <? 16 then throw NotMinimal else mret (Some val).

(** ** writer.rs *)

Record BitWriter := mkBitWriter { bw_bytes : bytes; bw_bits : Z; bw_num_bits : Z }.
Definition writer_new : BitWriter := mkBitWriter [] 0 0.

(** [byte] has at most [num_bits] bits, [num_bits] is at most 8. *)
Definition write (byte num_bits : Z) (w : BitWriter) : BitWriter :=
  let bits := Z.lor (bw_bits w) (Z.shiftl byte (bw_num_bits w)) in
  let num := bw_num_bits w + num_bits in
  if 8 <=? num then mkBitWriter (bw_bytes w ++ [bits mod 256]) (Z.shiftr bits 8) (num - 8)
  else mkBitWriter (bw_bytes w) bits num.

(** [while let Some(0) = bytes.last() { bytes.pop() }]. *)
Definition pop_zeros (bz : bytes) : bytes :=
  reverse ((fix go l := match l with 0 :: l => go l | _ => l end) (reverse bz)).
Definition finish (w : BitWriter) : bytes :=
  pop_zeros (if 0 <? bw_bits w then bw_bytes w ++ [bw_bits w mod 256] else bw_bytes w).

Section encode.
(** [unsigned_varint::encode::u64] *)
Context `{Varint}.

Definition write_len (len : Z) (w : BitWriter) : BitWriter :=
  if len =? 1 then write 1 1 w
  else if len <? 16 then write (len mod 256) 4 (write 2 2 w)
  else fold_left (λ w byte, write byte 8 w) (varint_encode len) (write 0 2 w).

(** ** mod.rs *)

Fixpoint write_ranges (index : Z) (iter : list Range) (w : BitWriter) : BitWriter :=
  match iter with
  | [] => w
  | range :: iter =>
      write_ranges range.2 iter (write_len (range_size range) (write_len (range.1 - index) w))
  end.
Definition bf_to_bytes (bf : BitField) : bytes :=
  match ranges bf with
  | [] => []
  | first_range :: iter =>
      let w := write 0 2 writer_new in
      let w := if first_range.1 =? 0 then write 1 1 w
               else write_len first_range.1 (write 0 1 w) in
      let w := write_len (range_size first_range) w in
      finish (write_ranges first_range.2 iter w)
  end.
End encode.

(** The loop of [from_bytes]; every length takes at least one bit, so that the
    fuel of [bf_from_bytes] is enough. *)
Fixpoint read_ranges (fuel : nat) (next_value : bool) (ranges : list Range) (index total_len : Z) :
    ME RleError BitReader (bool * list Range) :=
  match fuel with
  | O => throw RLEOverflow
  | S fuel =>
      o ← read_len;
      match o with
      | None => mret (next_value, ranges)
      | Some len =>
          let new_total_len := total_len + len in
          if u64_max <? new_total_len then throw RLEOverflow else
          let end_ := index + len in
          read_ranges fuel (negb next_value) (if next_value then ranges ++ [(index, end_)] else ranges) end_ new_total_len
      end
  end.

Definition read_bitfield (fuel : nat) : ME RleError BitReader BitField :=
  version ← read 2;
  if negb (version =? 0) then throw UnsupportedVersion else
  first ← read 1;
  '(next_value, ranges) ← read_ranges fuel (first =? 1) [] 0 0;
  if next_value : bool then throw NotMinimal else mret (from_ranges ranges).
Definition bf_from_bytes (bz : bytes) : result RleError BitField :=
  match reader_new bz with
  | Ok r => (read_bitfield (S (8 * length bz)) r).1
  | Err e => Err e
  end.

(** [Serialize] and [Deserialize]: the byte string between [strict_bytes] and
    the bit field. *)
Definition MAX_ENCODED_SIZE : Z := 32768.
Inductive SerdeError := TooLarge (size : Z) | Custom (e : RleError).
Definition rle_serialize `{Varint} (bf : BitField) : result SerdeError bytes :=
  let bz := bf_to_bytes bf in
  if MAX_ENCODED_SIZE <? Z.of_nat (length bz) then Err (TooLarge (Z.of_nat (length bz))) else Ok bz.
Definition rle_deserialize (bz : bytes) : result SerdeError BitField :=
  if MAX_ENCODED_SIZE <? Z.of_nat (length bz) then Err (TooLarge (Z.of_nat (length bz))) else
  match bf_from_bytes bz with Ok bf => Ok bf | Err e => Err (Custom e) end.

(** ** unvalidated.rs *)

Inductive UnvalidatedBitField := Validated (bf : BitField) | Unvalidated (bz : bytes).
Definition validate_mut : ME RleError UnvalidatedBitField BitField := λ u,
  match u with
  | Unvalidated bz =>
      match bf_from_bytes bz with Ok bf => (Ok bf, Validated bf) | Err e => (Err e, u) end
  | Validated bf => (Ok bf, u)
  end.
Definition unvalidated_try_into (u : UnvalidatedBitField) : result RleError BitField :=
  match u with Validated bf => Ok bf | Unvalidated bz => bf_from_bytes bz end.
Definition unvalidated_deserialize (bz : bytes) : result SerdeError UnvalidatedBitField :=
  if MAX_ENCODED_SIZE <? Z.of_nat (length bz) then Err (TooLarge (Z.of_nat (length bz))) else Ok (Unvalidated bz).
(** The derived, untagged [Serialize]. *)
Definition unvalidated_serialize `{Varint} (u : UnvalidatedBitField) : result SerdeError bytes :=
  match u with Validated bf => rle_serialize bf | Unvalidated bz => Ok bz end.

(** ** The JSON form (lib.rs, mod json)

    The lengths of zeros and ones in turn. Reading back, [None] is an overflow of
    the [u64] index; nothing else is checked. *)
Fixpoint json_runs (last_index : Z) (iter : list Range) : list Z :=
  match iter with
  | [] => []
  | range :: iter => (range.1 - last_index) :: (range.2 - range.1) :: json_runs range.2 iter
  end.
Definition json_serialize (m : BitField) : list Z :=
  if negb (is_empty m) then json_runs 0 (ranges m) else [0].

Fixpoint json_ranges (should_set : bool) (last_index : Z) (l : list Z) : option (list Range) :=
  match l with
  | [] => Some []
  | index :: l =>
      let ending_index := index + last_index in
      if u64_max <? ending_index then None else
      rs ← json_ranges (negb should_set) ending_index l;
      Some (if should_set then (last_index, ending_index) :: rs else rs)
  end.
Definition json_deserialize (l : list Z) : option BitField := from_ranges <$> json_ranges false 0 l.
