(* ===== verification/RleStream.v ===== *)
(** * RLE+ on streams of bits

    The stream in front of a [BitReader] and the stream a [BitWriter] has
    produced, as integers; what reading and writing do to them; and from that
    the round trips of the encoding. *)

From S2P Require Import Prelude Effects HamtBits Address BitRanges BitField RlePlus.
From stdpp Require Import gmap strings list fin_maps sorting.
From Stdlib Require Import ZArith Lia.
#[local] Open Scope Z_scope.

(** ** Bits and bytes *)

Lemma land_shiftl_low a e k : 0 ≤ k → 0 ≤ a < 2 ^ k → Z.land a (Z.shiftl e k) = 0.
Proof.
  intros Hk Ha. apply Z.bits_inj'. intros n Hn. rewrite Z.land_spec, Z.bits_0. destruct (Z.ltb_spec n k).
  - by rewrite Z.shiftl_spec_low, andb_false_r.
  - rewrite <-(Z.mod_small a (2 ^ k)) by done. by rewrite Z.mod_pow2_bits_high.
Qed.
Lemma lor_shiftl_add a e k : 0 ≤ k → 0 ≤ a < 2 ^ k → Z.lor a (Z.shiftl e k) = a + 2 ^ k * e.
Proof.
  intros Hk Ha. pose proof (land_shiftl_low a e k Hk Ha) as E.
  rewrite <-Z.lxor_lor, <-Z.add_nocarry_lxor by done. rewrite Z.shiftl_mul_pow2 by done. lia.
Qed.
Lemma lor_high a e b k : 0 ≤ k → 0 ≤ a < 2 ^ k → Z.lor (a + 2 ^ k * e) (Z.shiftl b k) = a + 2 ^ k * Z.lor e b.
Proof. intros Hk Ha. by rewrite <-!lor_shiftl_add, <-Z.lor_assoc, <-Z.shiftl_lor by done. Qed.

(** The integer of a string of bytes, lowest byte first. *)
Definition le (bz : bytes) : Z := foldr (λ b x, b + 256 * x) 0 bz.
Definition trimmed (bz : bytes) : Prop := last bz ≠ Some 0.

Lemma le_nonneg bz : Forall is_byte bz → 0 ≤ le bz.
Proof. induction 1 as [|b bz Hb _ IH]; simpl; [lia|]. unfold is_byte, le in *. lia. Qed.
Lemma le_app bz bz' : le (bz ++ bz') = le bz + 256 ^ Z.of_nat (length bz) * le bz'.
Proof.
  induction bz as [|b bz IH]; simpl; [unfold le; lia|]. unfold le in *. rewrite IH.
  replace (Z.pow_pos 256 (Pos.of_succ_nat (length bz))) with (256 ^ Z.of_nat (S (length bz))) by done.
  rewrite Nat2Z.inj_succ, Z.pow_succ_r by lia. ring.
Qed.
Lemma le_bound bz : Forall is_byte bz → 0 ≤ le bz < 256 ^ Z.of_nat (length bz).
Proof.
  induction 1 as [|b bz Hb _ IH]; simpl length; [done|]. rewrite Nat2Z.inj_succ, Z.pow_succ_r by lia.
  unfold is_byte in Hb. unfold le in *. simpl. lia.
Qed.
Lemma trimmed_tail b bz : trimmed (b :: bz) → trimmed bz.
Proof. unfold trimmed. by destruct bz. Qed.
Lemma trimmed_zero bz : Forall is_byte bz → trimmed bz → le bz = 0 → bz = [].
Proof.
  induction 1 as [|b bz Hb F IH]; intros Ht E; [done|]. pose proof (le_nonneg bz F). unfold is_byte, le in *. simpl in E.
  assert (bz = []) as -> by (apply IH; [by eapply trimmed_tail|lia]). simpl in E. destruct Ht. simpl. f_equal. lia.
Qed.
Lemma le_inj bz bz' : Forall is_byte bz → Forall is_byte bz' → trimmed bz → trimmed bz' → le bz = le bz' → bz = bz'.
Proof.
  intros F. revert bz'. induction F as [|b bz Hb F IH]; intros bz' F' Ht Ht' E.
  { symmetry. by apply trimmed_zero. }
  destruct F' as [|b' bz' Hb' F']; [by apply trimmed_zero; [constructor|..]|].
  pose proof (trimmed_tail _ _ Ht). pose proof (trimmed_tail _ _ Ht'). unfold le, is_byte in *. simpl in E.
  assert (b = b') as <- by lia. f_equal. apply IH; [done..|]. lia.
Qed.

Lemma pop_zeros_ok bz : Forall is_byte bz → le (pop_zeros bz) = le bz ∧ trimmed (pop_zeros bz) ∧ Forall is_byte (pop_zeros bz).
Proof.
  unfold pop_zeros. set (go := fix go l := match l with 0 :: l => go l | _ => l end).
  induction bz as [|b bz IH] using rev_ind; [done|]. intros [F Fb]%Forall_app. rewrite reverse_app.
  change (reverse [b] ++ reverse bz) with (b :: reverse bz).
  assert (le (reverse (b :: reverse bz)) = le (bz ++ [b]) ∧ trimmed (reverse (b :: reverse bz)) ∨ b = 0) as Hc.
  { destruct (Z.eq_dec b 0) as [->|Hn]; [by right|]. left. rewrite reverse_cons, reverse_involutive. split; [done|].
    unfold trimmed. rewrite last_snoc. congruence. }
  destruct (Z.eq_dec b 0) as [->|Hn].
  - destruct (IH F) as (E & Ht & Hf). change (go (0 :: reverse bz)) with (go (reverse bz)).
    split_and!; [|done..]. rewrite E, le_app. unfold le at 3. simpl. lia.
  - assert (go (b :: reverse bz) = b :: reverse bz) as -> by (by destruct b). destruct Hc as [[E Ht]|?]; [|done].
    split_and!; [done..|]. rewrite reverse_cons, reverse_involutive. by apply Forall_app.
Qed.

(** ** Readers *)

Definition stream (r : BitReader) : Z := br_bits r mod 2 ^ br_num_bits r + 2 ^ br_num_bits r * le (br_bytes r).

(** At least eight bits are buffered; above the buffered bits there is nothing,
    or the next byte already. *)
Definition reader_ok (r : BitReader) : Prop :=
  8 ≤ br_num_bits r ≤ 16 ∧ Forall is_byte (br_bytes r) ∧ trimmed (br_bytes r) ∧ 0 ≤ br_bits r ∧
  (br_bits r / 2 ^ br_num_bits r = 0 ∨ br_bits r / 2 ^ br_num_bits r = default 0 (head (br_bytes r))).

Lemma stream_nonneg r : reader_ok r → 0 ≤ stream r.
Proof.
  intros (Hn & F & _ & Hb & _). unfold stream. pose proof (le_nonneg _ F).
  pose proof (Z.mod_pos_bound (br_bits r) (2 ^ br_num_bits r) ltac:(lia)). lia.
Qed.

Lemma has_more_stream r : reader_ok r → has_more r = negb (stream r =? 0).
Proof.
  intros (Hn & F & Ht & Hb & He). unfold has_more, stream. pose proof (le_nonneg _ F).
  assert (0 < 2 ^ br_num_bits r) as Hp by lia. pose proof (Z.mod_pos_bound (br_bits r) _ Hp).
  pose proof (Z.div_mod (br_bits r) (2 ^ br_num_bits r) ltac:(lia)) as Hd.
  destruct (br_bytes r) as [|b bz] eqn:Eb.
  - assert (br_bits r / 2 ^ br_num_bits r = 0) as E by (by destruct He). rewrite E in Hd. rewrite orb_false_r.
    change (le []) with 0. f_equal. destruct (Z.eqb_spec (br_bits r) 0), (Z.eqb_spec (br_bits r mod 2 ^ br_num_bits r + 2 ^ br_num_bits r * 0) 0); done || lia.
  - rewrite orb_true_r. assert (le (b :: bz) ≠ 0) by (intros E; by apply trimmed_zero in E).
    destruct (Z.eqb_spec (br_bits r mod 2 ^ br_num_bits r + 2 ^ br_num_bits r * le (b :: bz)) 0); [nia|done].
Qed.

Lemma peek_stream n r : reader_ok r → 0 ≤ n ≤ 8 → peek n r = stream r mod 2 ^ n.
Proof.
  intros (Hn & F & Ht & Hb & He) Hn8. unfold peek, stream. rewrite Z.shiftl_1_l.
  replace (2 ^ n - 1) with (Z.ones n) by (rewrite Z.ones_equiv; lia). rewrite Z.land_ones by lia.
  replace (br_num_bits r) with (n + (br_num_bits r - n)) at 2 by lia. rewrite Z.pow_add_r by lia.
  rewrite <-Z.mul_assoc, (Z.mul_comm (2 ^ n)), Z.mod_add by lia.
  rewrite (Z.mod_eq (br_bits r) (2 ^ br_num_bits r)) by lia.
  replace (br_num_bits r) with (n + (br_num_bits r - n)) at 1 by lia. rewrite Z.pow_add_r by lia.
  replace (br_bits r - 2 ^ n * 2 ^ (br_num_bits r - n) * (br_bits r / 2 ^ br_num_bits r))
    with (br_bits r + - (2 ^ (br_num_bits r - n) * (br_bits r / 2 ^ br_num_bits r)) * 2 ^ n) by ring.
  by rewrite Z.mod_add by lia.
Qed.

Lemma drop_bits_stream n r : reader_ok r → 0 ≤ n ≤ 8 → reader_ok (drop_bits n r) ∧ stream (drop_bits n r) = stream r / 2 ^ n.
Proof.
  intros (Hn & F & Ht & Hb & He) Hn8. destruct r as [bz bits nb]. unfold stream, drop_bits. simpl in *.
  set (byte := default 0 (head bz)) in *. set (num := nb - n).
  set (low := bits mod 2 ^ nb). pose proof (Z.mod_pos_bound bits (2 ^ nb) ltac:(lia)) as Hlow. fold low in Hlow.
  assert (2 ^ nb = 2 ^ n * 2 ^ num) as Hpow by (unfold num; rewrite <-Z.pow_add_r by lia; f_equal; lia).
  assert (0 < 2 ^ n) as Hpn by lia. assert (0 < 2 ^ num) as Hpm by (apply Z.pow_pos_nonneg; unfold num; lia).
  assert (is_byte byte) as Hbyte by (unfold byte; destruct F; simpl; unfold is_byte in *; lia).
  assert (0 ≤ low / 2 ^ n < 2 ^ num) as Hq by (split; [apply Z.div_pos; lia|apply Z.div_lt_upper_bound; lia]).
  assert (∀ x, (low + 2 ^ nb * x) / 2 ^ n = low / 2 ^ n + 2 ^ num * x) as Hsh.
  { intros x. rewrite Hpow. replace (2 ^ n * 2 ^ num * x) with (2 ^ num * x * 2 ^ n) by ring. by rewrite Z.div_add by lia. }
  assert (Z.lor (Z.shiftr bits n) (Z.shiftl byte num) = low / 2 ^ n + 2 ^ num * byte) as ->.
  { rewrite Z.shiftr_div_pow2 by lia. rewrite (Z.div_mod bits (2 ^ nb)) at 1 by lia. rewrite Z.add_comm. fold low. rewrite Hsh.
    rewrite lor_high by (done || unfold num; lia). do 2 f_equal. destruct He as [->| ->]; [done|apply Z.lor_diag]. }
  assert (le bz = byte + 256 * le (drop 1 bz)) as Hle by (by destruct bz).
  assert (Forall is_byte (drop 1 bz)) as F' by (by apply Forall_drop).
  assert (trimmed (drop 1 bz)) as Ht' by (destruct bz; [done|by eapply trimmed_tail]).
  rewrite Hsh. destruct (Z.ltb_spec num 8) as [Hlt|Hge]; simpl.
  - assert (2 ^ (num + 8) = 2 ^ num * 256) as Hp8 by (rewrite Z.pow_add_r by (unfold num; lia); done).
    assert (0 ≤ low / 2 ^ n + 2 ^ num * byte < 2 ^ (num + 8)) as Hs by (unfold is_byte in Hbyte; nia).
    split; [|rewrite Z.mod_small, Hle by done; lia].
    split_and!; simpl; [unfold num in *; lia|unfold num in *; lia|done|done|lia|]. left. by apply Z.div_small.
  - split.
    + split_and!; simpl; [unfold num in *; lia|unfold num in *; lia|done|done|unfold is_byte in Hbyte; nia|]. right.
      rewrite (Z.mul_comm (2 ^ num)), Z.div_add, Z.div_small by (done || lia). done.
    + rewrite (Z.mul_comm (2 ^ num) byte), Z.mod_add, Z.mod_small by (done || lia). done.
Qed.

Lemma read_stream n r : reader_ok r → 0 ≤ n ≤ 8 →
  ∃ r', read n r = (Ok (stream r mod 2 ^ n), r') ∧ reader_ok r' ∧ stream r' = stream r / 2 ^ n.
Proof.
  intros Hr Hn. destruct (drop_bits_stream n r Hr Hn) as [Ho Hs]. exists (drop_bits n r). split; [|done].
  unfold read, mbind, M_bind, mret, M_ret, gets, modify. by rewrite peek_stream.
Qed.

Lemma reader_new_ok bz : Forall is_byte bz →
  match reader_new bz with
  | Ok r => trimmed bz ∧ reader_ok r ∧ stream r = le bz
  | Err e => e = NotMinimal ∧ ¬ trimmed bz
  end.
Proof.
  intros F. unfold reader_new. case_bool_decide as E; [split; [done|]; unfold trimmed; tauto|]. split; [done|].
  simpl fold_left. change (8 * Z.of_nat 0) with 0. change (8 * Z.of_nat 1) with 8. rewrite Z.lor_0_l, Z.shiftl_0_r.
  set (b0 := default 0 (bz !! 0%nat)). set (b1 := default 0 (bz !! 1%nat)).
  assert (is_byte b0 ∧ is_byte b1) as [H0 H1].
  { split; [unfold b0; destruct (bz !! 0%nat) as [b|] eqn:El|unfold b1; destruct (bz !! 1%nat) as [b|] eqn:El]; simpl;
      try (unfold is_byte; lia); eapply Forall_lookup_1; done. }
  unfold is_byte in H0, H1. rewrite lor_shiftl_add by (simpl; lia).
  assert (le bz = b0 + 256 * b1 + 65536 * le (drop 2 bz)) as Hle.
  { unfold b0, b1. destruct bz as [|x [|y bz]]; simpl; unfold le; simpl; rewrite ?drop_0; lia. }
  unfold reader_ok, stream. simpl. change (Z.pow_pos 2 8) with 256. change (Z.pow_pos 2 16) with 65536.
  rewrite Z.mod_small, Z.div_small by lia. split; [|lia]. split_and!; [lia|lia|by apply Forall_drop| |lia|by left].
  destruct bz as [|x [|y bz]]; [done..|]. by do 2 eapply trimmed_tail.
Qed.

(** The first bits of a stream and the rest. *)
Lemma split_stream s k a b : 0 ≤ a < k → s = a + k * b → s mod k = a ∧ s / k = b.
Proof.
  intros Ha E. split; symmetry; [apply (Z.mod_unique s k b a); lia|apply (Z.div_unique s k b a); lia].
Qed.

(** ** Varints and lengths *)

Definition varint (m : Z) : bytes := leb_encode 9 m.

(** What [write_len] puts on the stream: the bits and their number. *)
Definition code (len : Z) : Z :=
  if len =? 1 then 1 else if len <? 16 then 2 + 4 * len else 4 * le (varint len).
Definition width (len : Z) : Z :=
  if len =? 1 then 1 else if len <? 16 then 6 else 2 + 8 * Z.of_nat (length (varint len)).
Definition len_ok (len : Z) : Prop := 1 ≤ len ≤ u64_max.

Lemma leb_bytes f m : 0 ≤ m < 128 ^ Z.of_nat (S f) → Forall is_byte (leb_encode f m).
Proof.
  revert m. induction f as [|f IH]; intros m Hm; simpl.
  { constructor; [unfold is_byte; lia|done]. }
  pose proof (Z.mod_pos_bound m 128 ltac:(lia)). rewrite Nat2Z.inj_succ, Z.pow_succ_r in Hm by lia.
  destruct (Z.ltb_spec m 128); constructor; try (unfold is_byte; lia); [done|]. apply IH.
  split; [apply Z.div_pos; lia|apply Z.div_lt_upper_bound; lia].
Qed.
Lemma varint_bytes m : in_u64 m → Forall is_byte (varint m).
Proof. intros Hm. apply leb_bytes. unfold in_u64, u64_max in Hm. lia. Qed.

Lemma byte_cont b : is_byte b → (Z.land b 128 =? 0) = (b <? 128) ∧ Z.land b 127 = b mod 128.
Proof.
  intros Hb. split; [|by apply (Z.land_ones b 7)]. assert (forallb (λ b, Bool.eqb (Z.land b 128 =? 0) (b <? 128)) (seqZ 0 256) = true) as Hall by (vm_compute; reflexivity).
  apply eqb_prop, (forallb_seqZ _ _ _ Hall). unfold is_byte in Hb. lia.
Qed.

Lemma varint_acc i acc b : 0 ≤ i → 0 ≤ acc < 128 ^ i → is_byte b → 128 ^ i * (b mod 128) ≤ u64_max →
  Z.lor acc (wrap64 (Z.shiftl (Z.land b 127) (i * 7))) = acc + 128 ^ i * (b mod 128).
Proof.
  intros Hi Ha Hb Hm. destruct (byte_cont b Hb) as [_ ->]. pose proof (Z.mod_pos_bound b 128 ltac:(lia)).
  assert (2 ^ (i * 7) = 128 ^ i) as Hp by (rewrite Z.mul_comm, Z.pow_mul_r by lia; done).
  unfold wrap64. rewrite Z.mod_small.
  - rewrite lor_shiftl_add by (rewrite ?Hp; lia). by rewrite Hp.
  - rewrite Z.shiftl_mul_pow2, Hp by lia. unfold u64_max in Hm. nia.
Qed.

Lemma pow256_succ k : 256 ^ Z.of_nat (S k) = 256 * 256 ^ Z.of_nat k.
Proof. rewrite Nat2Z.inj_succ, Z.pow_succ_r by lia. done. Qed.

(** One round of [read_varint]. *)
Lemma read_varint_step n i acc r : reader_ok r →
  ∃ r', reader_ok r' ∧ stream r' = stream r / 256 ∧ let b := stream r mod 256 in
    read_varint_from (S n) i acc r =
      (let len := Z.lor acc (wrap64 (Z.shiftl (Z.land b 127) (i * 7))) in
       if b <? 128 then
         if ((i =? 9) && (1 <? b)) || ((b =? 0) && negb (i =? 0)) then (Err InvalidVarint, r') else (Ok len, r')
       else read_varint_from n (i + 1) len r').
Proof.
  intros Hr. destruct (read_stream 8 r Hr ltac:(lia)) as (r' & Hrd & Ho & Hs). change (2 ^ 8) with 256 in *.
  exists r'. split_and!; [done..|]. cbv zeta. simpl read_varint_from. unfold mbind, M_bind. rewrite Hrd.
  destruct (byte_cont (stream r mod 256)) as [-> _]; [apply Z.mod_pos_bound; lia|].
  destruct (stream r mod 256 <? 128); [|done]. by destruct (_ || _).
Qed.

Lemma read_varint_complete n i m acc r X : reader_ok r → i = 9 - Z.of_nat n → 0 ≤ i → 0 ≤ acc < 128 ^ i →
  0 ≤ m → 128 ^ i * m ≤ u64_max → (i = 0 ∨ m ≠ 0) → 0 ≤ X →
  stream r = le (leb_encode n m) + 256 ^ Z.of_nat (length (leb_encode n m)) * X →
  ∃ r', read_varint_from (S n) i acc r = (Ok (acc + 128 ^ i * m), r') ∧ reader_ok r' ∧ stream r' = X.
Proof.
  revert i m acc r. induction n as [|n IH]; intros i m acc r Hr Hi H0 Ha Hm Hu Hnz HX Hs.
  - destruct (read_varint_step 0 i acc r Hr) as (r' & Ho & Hs' & ->). cbv zeta.
    assert (i = 9) as -> by lia. simpl in Hs. unfold le in Hs. simpl in Hs. change (Z.pow_pos 256 1) with 256 in Hs.
    unfold u64_max in Hu. change (128 ^ 9) with 9223372036854775808 in *. assert (m < 2) by lia.
    destruct (split_stream (stream r) 256 m X) as [-> Hd]; [lia..|]. rewrite varint_acc; [|lia|lia|unfold is_byte; lia|rewrite Z.mod_small by lia; unfold u64_max; lia].
    rewrite (Z.mod_small m 128) by lia. destruct (Z.ltb_spec m 128); [|lia]. destruct (Z.ltb_spec 1 m); [lia|].
    destruct (Z.eqb_spec m 0); [lia|]. simpl. exists r'. split_and!; [done..|lia].
  - destruct (read_varint_step (S n) i acc r Hr) as (r' & Ho & Hs' & ->). cbv zeta.
    simpl leb_encode in Hs. destruct (Z.ltb_spec m 128) as [Hlt|Hge].
    + unfold le in Hs. simpl in Hs. change (Z.pow_pos 256 1) with 256 in Hs.
      destruct (split_stream (stream r) 256 m X) as [-> Hd]; [lia..|].
      rewrite varint_acc; [|done|done|unfold is_byte; lia|rewrite Z.mod_small by lia; done].
      rewrite (Z.mod_small m 128) by lia. destruct (Z.ltb_spec m 128); [|lia].
      destruct (Z.eqb_spec i 9); [lia|]. simpl. destruct (Z.eqb_spec m 0), (Z.eqb_spec i 0); simpl; try lia; exists r'; split_and!; done || lia.
    + set (q := m / 128) in *. pose proof (Z.div_mod m 128 ltac:(lia)) as Hdm. fold q in Hdm.
      pose proof (Z.mod_pos_bound m 128 ltac:(lia)) as Hmod. set (d := m mod 128) in *.
      assert (0 < q) by (apply Z.div_str_pos; lia). assert (0 < 128 ^ i) by lia.
      simpl length in Hs. rewrite pow256_succ in Hs. change (le ((d + 128) :: leb_encode n q)) with (d + 128 + 256 * le (leb_encode n q)) in Hs.
      destruct (split_stream (stream r) 256 (d + 128) (le (leb_encode n q) + 256 ^ Z.of_nat (length (leb_encode n q)) * X)) as [-> Ed]; [lia|rewrite Hs; ring|].
      assert ((d + 128) mod 128 = d) as Hd128 by (apply (split_stream _ 128 d 1); lia). destruct (Z.ltb_spec (d + 128) 128); [lia|].
      rewrite varint_acc; [|done|done|unfold is_byte; lia|rewrite Hd128; nia]. rewrite Hd128.
      assert (128 ^ (i + 1) = 128 * 128 ^ i) as Hp by (rewrite Z.pow_add_r by lia; lia).
      destruct (IH (i + 1) q (acc + 128 ^ i * d) r' Ho ltac:(lia) ltac:(lia)) as (r2 & E & Ho2 & Hs2); [rewrite Hp; nia|lia|rewrite Hp; nia|right; lia|done|congruence|].
      exists r2. rewrite E. split_and!; [|done..]. do 2 f_equal. rewrite Hp. nia.
Qed.

Lemma read_varint_sound n i acc r len r' : reader_ok r → i = 9 - Z.of_nat n → 0 ≤ i → 0 ≤ acc < 128 ^ i →
  read_varint_from (S n) i acc r = (Ok len, r') →
  reader_ok r' ∧ ∃ m, len = acc + 128 ^ i * m ∧ 0 ≤ m ∧ 128 ^ i * m ≤ u64_max - (128 ^ i - 1) ∧ (i = 0 ∨ m ≠ 0) ∧
  stream r = le (leb_encode n m) + 256 ^ Z.of_nat (length (leb_encode n m)) * stream r'.
Proof.
  revert i acc r. induction n as [|n IH]; intros i acc r Hr Hi H0 Ha.
  - destruct (read_varint_step 0 i acc r Hr) as (r2 & Ho & Hs' & ->). cbv zeta.
    assert (i = 9) as -> by lia. pose proof (Z.mod_pos_bound (stream r) 256 ltac:(lia)) as Hb.
    pose proof (Z.div_mod (stream r) 256 ltac:(lia)) as Hdm.
    set (b := stream r mod 256) in *. destruct (Z.ltb_spec b 128) as [Hlt|]; [|done].
    destruct (Z.ltb_spec 1 b); [done|]. destruct (Z.eqb_spec b 0); [done|]. simpl. intros [= <- <-]. split; [done|].
    exists b. change (128 ^ 9) with 9223372036854775808 in *.
    rewrite varint_acc; [|lia|done|unfold is_byte; lia|rewrite Z.mod_small by lia; unfold u64_max; lia].
    rewrite (Z.mod_small b 128) by lia. unfold u64_max. split_and!; [lia..| |].
    + by right.
    + unfold le. simpl. change (Z.pow_pos 256 1) with 256. rewrite Hs'. lia.
  - destruct (read_varint_step (S n) i acc r Hr) as (r2 & Ho & Hs' & ->). cbv zeta.
    pose proof (Z.mod_pos_bound (stream r) 256 ltac:(lia)) as Hb. pose proof (Z.div_mod (stream r) 256 ltac:(lia)) as Hdm.
    set (b := stream r mod 256) in *. assert (0 < 128 ^ i ≤ 128 ^ 8) as Hp by (split; [lia|apply Z.pow_le_mono_r; lia]).
    change (128 ^ 8) with 72057594037927936 in Hp. pose proof (Z.mod_pos_bound b 128 ltac:(lia)) as Hb7.
    assert (128 ^ (i + 1) = 128 * 128 ^ i) as Hps by (rewrite Z.pow_add_r by lia; lia).
    rewrite varint_acc; [|done|done|done|unfold u64_max; nia]. destruct (Z.ltb_spec b 128) as [Hlt|Hge].
    + destruct (Z.eqb_spec i 9); [lia|]. simpl. destruct ((b =? 0) && negb (i =? 0)) eqn:Ez; [done|]. intros [= <- <-].
      split; [done|]. exists b. rewrite (Z.mod_small b 128) by lia. simpl leb_encode. destruct (Z.ltb_spec b 128); [|lia].
      unfold u64_max. split_and!; [done|lia|nia| |].
      * destruct (Z.eqb_spec b 0), (Z.eqb_spec i 0); try done; [by left|by right|by right].
      * unfold le. simpl. change (Z.pow_pos 256 1) with 256. rewrite Hs'. lia.
    + intros Hrun. apply IH in Hrun as (Ho2 & m & -> & Hm & Hu & Hnz & Hs2); [|done|lia|lia|rewrite Hps; nia].
      assert (b mod 128 = b - 128) as Hbm by (apply (split_stream _ 128 (b - 128) 1); lia). rewrite Hbm in *.
      assert (m ≠ 0) as Hm0 by lia.
      destruct (split_stream (b - 128 + 128 * m) 128 (b - 128) m ltac:(lia) eq_refl) as [Em Eq].
      split; [done|]. exists (b - 128 + 128 * m). simpl leb_encode. destruct (Z.ltb_spec (b - 128 + 128 * m) 128); [lia|].
      rewrite Em, Eq, Z.sub_add. simpl length. rewrite pow256_succ.
      change (le (b :: leb_encode n m)) with (b + 256 * le (leb_encode n m)). rewrite Hps in Hu |- *. split_and!.
      * ring.
      * lia.
      * nia.
      * right. lia.
      * rewrite Hs' in Hs2. rewrite Hdm at 1. rewrite Hs2. ring.
Qed.

Lemma width_pos len : 0 < width len.
Proof. unfold width. destruct (len =? 1), (len <? 16); lia. Qed.
Lemma code_pos len : len_ok len → 0 < code len.
Proof.
  intros Hl. unfold code. destruct (Z.eqb_spec len 1); [lia|]. destruct (Z.ltb_spec len 16); [unfold len_ok in Hl; lia|].
  assert (0 < le (varint len)); [|lia]. unfold len_ok, u64_max in Hl.
  change (varint len) with (if len <? 128 then [len] else (len mod 128 + 128) :: leb_encode 8 (len / 128)).
  pose proof (Z.mod_pos_bound len 128 ltac:(lia)). destruct (Z.ltb_spec len 128); [unfold le; simpl; lia|].
  assert (0 ≤ le (leb_encode 8 (len / 128))); [|unfold le in *; cbn [foldr]; lia]. apply le_nonneg, leb_bytes.
  split; [apply Z.div_pos; lia|apply Z.div_lt_upper_bound; simpl; lia].
Qed.

Lemma peek6_tests x : 0 ≤ x → let p := x mod 64 in
  (Z.land p 1 =? 0) = (x mod 2 =? 0) ∧ (Z.land p 2 =? 0) = ((x / 2) mod 2 =? 0) ∧ Z.land (Z.shiftr p 2) 15 = (x / 4) mod 16.
Proof.
  intros Hx p. pose proof (Z.mod_pos_bound x 64 ltac:(lia)) as Hp. fold p in Hp.
  assert (x = p + 64 * (x / 64)) as E by (unfold p; pose proof (Z.div_mod x 64 ltac:(lia)); lia).
  assert (x mod 2 = p mod 2 ∧ (x / 2) mod 2 = (p / 2) mod 2 ∧ (x / 4) mod 16 = (p / 4) mod 16) as (-> & -> & ->).
  { clearbody p. set (q := x / 64) in *. clearbody q. subst x. Z.to_euclidean_division_equations. lia. }
  assert (forallb (λ p, Bool.eqb (Z.land p 1 =? 0) (p mod 2 =? 0) && Bool.eqb (Z.land p 2 =? 0) ((p / 2) mod 2 =? 0) &&
    (Z.land (Z.shiftr p 2) 15 =? (p / 4) mod 16)) (seqZ 0 64) = true) as Hall by (vm_compute; reflexivity).
  pose proof (forallb_seqZ _ _ _ Hall p ltac:(lia)) as H. cbv beta in H.
  apply andb_true_iff in H as [[H1 H2]%andb_true_iff H3]. split_and!; [by apply eqb_prop..|lia].
Qed.

Lemma read_len_eq r : reader_ok r → let s := stream r in
  read_len r =
    if s =? 0 then (Ok None, r)
    else if negb (s mod 2 =? 0) then (Ok (Some 1), drop_bits 1 r)
    else if negb ((s / 2) mod 2 =? 0) then
      if (s / 4) mod 16 <? 2 then (Err NotMinimal, drop_bits 6 r) else (Ok (Some ((s / 4) mod 16)), drop_bits 6 r)
    else match read_varint (drop_bits 2 r) with
         | (Ok val, r') => if val <? 16 then (Err NotMinimal, r') else (Ok (Some val), r')
         | (Err e, r') => (Err e, r')
         end.
Proof.
  intros Hr s. unfold read_len, mbind, M_bind, mret, M_ret, gets, modify, throw. cbv beta iota zeta.
  rewrite has_more_stream, negb_involutive by done. fold s. destruct (s =? 0); [done|].
  cbv beta iota. rewrite !peek_stream by (done || lia). fold s.
  destruct (peek6_tests s) as (H1 & H2 & H3); [by apply stream_nonneg|]. change (2 ^ 6) with 64. rewrite H1, H2, H3.
  destruct (s mod 2 =? 0); [|done]. destruct ((s / 2) mod 2 =? 0); simpl.
  - destruct (read_varint (drop_bits 2 r)) as [[v|e] r']; [|done]. by destruct (v <? 16).
  - by destruct (_ <? 2).
Qed.

Lemma read_len_complete r len X : reader_ok r → len_ok len → 0 ≤ X → stream r = code len + 2 ^ width len * X →
  ∃ r', read_len r = (Ok (Some len), r') ∧ reader_ok r' ∧ stream r' = X.
Proof.
  intros Hr Hl HX Hs. rewrite read_len_eq by done. pose proof (code_pos len Hl) as Hc.
  assert (0 < 2 ^ width len) as Hw by (pose proof (width_pos len); lia).
  destruct (Z.eqb_spec (stream r) 0); [nia|]. unfold code, width in Hs. unfold len_ok in Hl.
  destruct (Z.eqb_spec len 1) as [->|Hn1]; [|destruct (Z.ltb_spec len 16) as [Hlt|Hge]].
  - change (2 ^ 1) with 2 in Hs. destruct (split_stream (stream r) 2 1 X ltac:(lia) Hs) as [-> Hd].
    destruct (drop_bits_stream 1 r Hr ltac:(lia)) as [Ho Hs1]. exists (drop_bits 1 r). simpl.
    split_and!; [done..|]. rewrite Hs1. exact Hd.
  - change (2 ^ 6) with 64 in Hs. destruct (drop_bits_stream 6 r Hr ltac:(lia)) as [Ho Hs6].
    destruct (split_stream (stream r) 2 0 (1 + 2 * len + 32 * X)) as [-> Hd2]; [lia..|]. rewrite Hd2.
    destruct (split_stream (1 + 2 * len + 32 * X) 2 1 (len + 16 * X)) as [-> _]; [lia..|].
    destruct (split_stream (stream r) 4 2 (len + 16 * X)) as [_ ->]; [lia..|].
    destruct (split_stream (len + 16 * X) 16 len X) as [-> _]; [lia..|]. simpl. destruct (Z.ltb_spec len 2); [lia|].
    exists (drop_bits 6 r). split_and!; [done..|]. rewrite Hs6. by apply (split_stream _ 64 (2 + 4 * len) X); [lia|].
  - rewrite Z.pow_add_r, Z.pow_mul_r in Hs by lia. change (2 ^ 2) with 4 in Hs. change (2 ^ 8) with 256 in Hs.
    set (Y := le (varint len) + 256 ^ Z.of_nat (length (varint len)) * X) in *.
    assert (stream r = 4 * Y) as E by (unfold Y; lia).
    destruct (split_stream (stream r) 2 0 (2 * Y)) as [-> Hd2]; [lia..|]. rewrite Hd2.
    destruct (split_stream (2 * Y) 2 0 Y) as [-> _]; [lia..|]. simpl.
    destruct (drop_bits_stream 2 r Hr ltac:(lia)) as [Ho Hs2]. change (2 ^ 2) with 4 in Hs2.
    destruct (split_stream (stream r) 4 0 Y) as [_ Hd4]; [lia..|]. rewrite Hd4 in Hs2.
    destruct (read_varint_complete 9 0 len 0 (drop_bits 2 r) X) as (r' & Hv & Ho' & Hs'); [done|lia|lia|simpl; lia|lia|simpl; lia|by left|done|exact Hs2|].
    unfold read_varint. change VARINT_MAX_BYTES with 10%nat. rewrite Hv. replace (0 + 128 ^ 0 * len) with len by (simpl; lia).
    destruct (Z.ltb_spec len 16); [lia|]. by exists r'.
Qed.

Lemma read_len_sound r o r' : reader_ok r → read_len r = (Ok o, r') → reader_ok r' ∧
  match o with
  | Some len => len_ok len ∧ stream r = code len + 2 ^ width len * stream r'
  | None => stream r = 0
  end.
Proof.
  intros Hr. rewrite read_len_eq by done. pose proof (stream_nonneg r Hr) as H0.
  destruct (Z.eqb_spec (stream r) 0) as [E|Hnz]; [by intros [= <- <-]|].
  pose proof (Z.div_mod (stream r) 2 ltac:(lia)) as D2. pose proof (Z.mod_pos_bound (stream r) 2 ltac:(lia)).
  destruct (Z.eqb_spec (stream r mod 2) 0) as [E2|E2]; simpl.
  2:{ intros [= <- <-]. destruct (drop_bits_stream 1 r Hr ltac:(lia)) as [Ho Hs]. split; [done|].
      split; [unfold len_ok, u64_max; lia|]. change (code 1) with 1. change (2 ^ width 1) with 2.
      change (2 ^ 1) with 2 in Hs. rewrite Hs. lia. }
  pose proof (Z.div_mod (stream r / 2) 2 ltac:(lia)) as D4. pose proof (Z.mod_pos_bound (stream r / 2) 2 ltac:(lia)).
  assert (stream r / 2 / 2 = stream r / 4) as E4 by (rewrite Z.div_div by lia; done). rewrite E4 in D4.
  destruct (Z.eqb_spec ((stream r / 2) mod 2) 0) as [E3|E3]; simpl.
  - destruct (drop_bits_stream 2 r Hr ltac:(lia)) as [Ho Hs]. change (2 ^ 2) with 4 in Hs.
    destruct (read_varint (drop_bits 2 r)) as [[val|e] r2] eqn:Ev; [|done]. destruct (Z.ltb_spec val 16); [done|].
    intros [= <- <-]. unfold read_varint in Ev. change VARINT_MAX_BYTES with 10%nat in Ev.
    apply read_varint_sound in Ev as (Ho2 & m & -> & Hm & Hu & _ & Hs2); [|done|lia|lia|simpl; lia].
    split; [done|]. change (128 ^ 0) with 1 in *. replace (0 + 1 * m) with m in * by lia. split; [unfold len_ok; lia|].
    unfold code, width. destruct (Z.eqb_spec m 1); [lia|]. destruct (Z.ltb_spec m 16); [lia|].
    rewrite Z.pow_add_r, Z.pow_mul_r by lia. change (2 ^ 2) with 4. change (2 ^ 8) with 256. unfold varint.
    rewrite <-Z.mul_assoc, <-Z.mul_add_distr_l, <-Hs2. lia.
  - pose proof (Z.mod_pos_bound (stream r / 4) 16 ltac:(lia)). destruct (Z.ltb_spec ((stream r / 4) mod 16) 2); [done|].
    intros [= <- <-]. destruct (drop_bits_stream 6 r Hr ltac:(lia)) as [Ho Hs]. split; [done|].
    set (v := (stream r / 4) mod 16) in *. split; [unfold len_ok, u64_max; lia|]. unfold code, width.
    destruct (Z.eqb_spec v 1); [lia|]. destruct (Z.ltb_spec v 16); [|lia]. change (2 ^ 6) with 64 in *.
    pose proof (Z.div_mod (stream r / 4) 16 ltac:(lia)) as D16. rewrite Z.div_div in D16 by lia. change (4 * 16) with 64 in D16.
    rewrite Hs. lia.
Qed.

(** ** Writers *)

Definition written (w : BitWriter) : Z := le (bw_bytes w) + 256 ^ Z.of_nat (length (bw_bytes w)) * bw_bits w.
Definition count (w : BitWriter) : Z := 8 * Z.of_nat (length (bw_bytes w)) + bw_num_bits w.
Definition writer_ok (w : BitWriter) : Prop :=
  0 ≤ bw_num_bits w < 8 ∧ 0 ≤ bw_bits w < 2 ^ bw_num_bits w ∧ Forall is_byte (bw_bytes w).

(** [w'] has written the [n] bits of [x] after those of [w]. *)
Definition wrote (w : BitWriter) (x n : Z) (w' : BitWriter) : Prop :=
  writer_ok w' ∧ written w' = written w + 2 ^ count w * x ∧ count w' = count w + n.

Lemma count_nonneg w : writer_ok w → 0 ≤ count w.
Proof. intros (? & _). unfold count. lia. Qed.
Lemma wrote_refl w : writer_ok w → wrote w 0 0 w.
Proof. intros Hw. split_and!; [done|lia|lia]. Qed.
Lemma wrote_trans w x n w' y m w'' : writer_ok w → 0 ≤ n → wrote w x n w' → wrote w' y m w'' → wrote w (x + 2 ^ n * y) (n + m) w''.
Proof.
  intros Hw Hn (_ & E1 & C1) (Hw2 & E2 & C2). split_and!; [done| |lia]. pose proof (count_nonneg w Hw).
  rewrite E2, E1, C1, Z.pow_add_r by lia. ring.
Qed.

Lemma write_ok w b n : writer_ok w → 0 ≤ n ≤ 8 → 0 ≤ b < 2 ^ n → wrote w b n (write b n w).
Proof.
  intros (Hn & Hb & F) Hn8 Hbn. unfold wrote, write, written, count. rewrite lor_shiftl_add by lia.
  set (k := bw_num_bits w) in *. set (l := length (bw_bytes w)).
  assert (2 ^ (k + n) = 2 ^ k * 2 ^ n) as Hp by (rewrite Z.pow_add_r by lia; done). assert (0 < 2 ^ k) by lia.
  assert (2 ^ (8 * Z.of_nat l + k) = 256 ^ Z.of_nat l * 2 ^ k) as Hc by (rewrite Z.pow_add_r, Z.pow_mul_r by lia; done).
  rewrite Hc. destruct (Z.leb_spec 8 (k + n)) as [Hge|Hlt]; simpl.
  - set (x := bw_bits w + 2 ^ k * b). assert (0 ≤ x < 2 ^ (k + n)) as Hx by (unfold x; nia).
    pose proof (Z.div_mod x 256 ltac:(lia)) as Hd. pose proof (Z.mod_pos_bound x 256 ltac:(lia)) as Hm.
    rewrite Z.shiftr_div_pow2 by lia. change (2 ^ 8) with 256. unfold writer_ok. simpl.
    rewrite le_app, length_app. simpl length. fold l. replace (l + 1)%nat with (S l) by lia. rewrite pow256_succ.
    change (le [x mod 256]) with (x mod 256 + 256 * 0). split_and!; [lia|lia|apply Z.div_pos; lia| | | |lia].
    + apply Z.div_lt_upper_bound; [lia|]. replace (k + n) with (8 + (k + n - 8)) in Hx by lia.
      rewrite Z.pow_add_r in Hx by lia. change (2 ^ 8) with 256 in Hx. lia.
    + apply Forall_app. split; [done|]. by constructor; [unfold is_byte|].
    + transitivity (le (bw_bytes w) + 256 ^ Z.of_nat l * x); [rewrite Hd at 3; ring|unfold x; ring].
  - split_and!; [|fold l; ring|fold l; lia]. split_and!; simpl; [lia|lia|lia|nia|done].
Qed.

Lemma finish_ok w : writer_ok w → le (finish w) = written w ∧ trimmed (finish w) ∧ Forall is_byte (finish w).
Proof.
  intros (Hn & Hb & F). unfold finish, written. assert (bw_bits w < 256) as Hs.
  { eapply Z.lt_le_trans; [apply Hb|]. change 256 with (2 ^ 8). apply Z.pow_le_mono_r; lia. }
  set (bz := if 0 <? bw_bits w then bw_bytes w ++ [bw_bits w mod 256] else bw_bytes w).
  assert (Forall is_byte bz ∧ le bz = le (bw_bytes w) + 256 ^ Z.of_nat (length (bw_bytes w)) * bw_bits w) as [Fz Ez].
  { unfold bz. destruct (Z.ltb_spec 0 (bw_bits w)).
    - rewrite Z.mod_small by lia. split; [apply Forall_app; split; [done|]; by constructor; [unfold is_byte; lia|]|].
      rewrite le_app. unfold le. simpl. ring.
    - split; [done|]. replace (bw_bits w) with 0 by lia. ring. }
  destruct (pop_zeros_ok bz Fz) as (E & Ht & Fp). rewrite E. by split_and!.
Qed.

(** The lengths of zeros and ones up to the end of the last range. *)
Abbreviation runs := json_runs.

Section encode.
Context `{V : Varint} (varint_leb : ∀ n, in_u64 n → varint_encode n = leb_encode 9 n).

Lemma write_bytes_ok w bz : writer_ok w → Forall is_byte bz →
  wrote w (le bz) (8 * Z.of_nat (length bz)) (fold_left (λ w byte, write byte 8 w) bz w).
Proof using.
  intros Hw F. revert w Hw. induction F as [|b bz Hb F IH]; intros w Hw; [by apply wrote_refl|]. simpl fold_left.
  destruct (write_ok w b 8 Hw ltac:(lia) Hb) as (Hw1 & E1 & C1). destruct (IH _ Hw1) as (Hw2 & E2 & C2).
  split_and!; [done| |simpl length; lia]. pose proof (count_nonneg w Hw). rewrite E2, E1, C1, Z.pow_add_r by lia.
  change (2 ^ 8) with 256. change (le (b :: bz)) with (b + 256 * le bz). ring.
Qed.

Lemma write_len_ok w len : writer_ok w → len_ok len → wrote w (code len) (width len) (write_len len w).
Proof using varint_leb.
  intros Hw Hl. unfold write_len, code, width. unfold len_ok in Hl.
  destruct (Z.eqb_spec len 1) as [->|Hn]; [by apply write_ok; simpl; [done|lia..]|]. destruct (Z.ltb_spec len 16).
  - rewrite Z.mod_small by lia. assert (wrote w 2 2 (write 2 2 w)) as H2 by (apply write_ok; simpl; [done|lia..]).
    exact (wrote_trans w 2 2 _ len 4 _ Hw ltac:(lia) H2 (write_ok _ len 4 (proj1 H2) ltac:(lia) ltac:(simpl; lia))).
  - assert (in_u64 len) as Hu by (unfold in_u64; lia). rewrite varint_leb by done.
    assert (wrote w 0 2 (write 0 2 w)) as H2 by (apply write_ok; simpl; [done|lia..]).
    exact (wrote_trans w 0 2 _ _ _ _ Hw ltac:(lia) H2 (write_bytes_ok _ (varint len) (proj1 H2) (varint_bytes len Hu))).
Qed.

(** ** Runs *)

(** The stream of a list of lengths. *)
Definition enc (lens : list Z) : Z := foldr (λ l x, code l + 2 ^ width l * x) 0 lens.
Definition enc_width (lens : list Z) : Z := foldr (λ l x, width l + x) 0 lens.
Definition total (lens : list Z) : Z := foldr Z.add 0 lens.

Lemma enc_nonneg lens : Forall len_ok lens → 0 ≤ enc lens.
Proof using.
  induction 1 as [|l lens Hl F IH]; simpl; [lia|]. pose proof (code_pos l Hl). pose proof (width_pos l). unfold enc in *. nia.
Qed.
Lemma enc_large lens : Forall len_ok lens → lens ≠ [] → 2 ^ (Z.of_nat (length lens) - 1) ≤ enc lens.
Proof using.
  induction 1 as [|l lens Hl F IH]; [done|]. intros _. pose proof (code_pos l Hl). pose proof (width_pos l) as Hw.
  destruct lens as [|l' lens']; [simpl in *; lia|]. specialize (IH ltac:(done)). set (lens := l' :: lens') in *.
  change (enc (l :: lens)) with (code l + 2 ^ width l * enc lens).
  assert (2 ≤ 2 ^ width l) by (change 2 with (2 ^ 1) at 1; apply Z.pow_le_mono_r; lia).
  replace (Z.of_nat (length (l :: lens)) - 1) with (1 + (Z.of_nat (length lens) - 1)) by (simpl length; lia).
  rewrite Z.pow_add_r by (unfold lens; simpl length; lia). change (2 ^ 1) with 2. nia.
Qed.

Lemma write_lens_ok w lens : writer_ok w → Forall len_ok lens →
  wrote w (enc lens) (enc_width lens) (fold_left (λ w l, write_len l w) lens w).
Proof using varint_leb.
  intros Hw F. revert w Hw. induction F as [|l lens Hl F IH]; intros w Hw; [by apply wrote_refl|]. simpl fold_left.
  pose proof (write_len_ok w l Hw Hl) as H1. pose proof (width_pos l).
  exact (wrote_trans w (code l) (width l) _ _ _ _ Hw ltac:(lia) H1 (IH _ (proj1 H1))).
Qed.

Lemma write_ranges_runs index rs w : ranges_above index rs →
  write_ranges index rs w = fold_left (λ w l, write_len l w) (runs index rs) w.
Proof using.
  revert index w. induction rs as [|r rs IH]; intros index w; [done|]. intros (_ & Hr & Ha). simpl.
  rewrite range_size_pos by done. by apply IH.
Qed.

(** Header bit and lengths of canonical ranges. *)
Definition first_one (rs : list Range) : bool := match rs with r :: _ => r.1 =? 0 | [] => false end.
Definition lens_of (rs : list Range) : list Z :=
  match rs with
  | [] => []
  | r :: rs' => if r.1 =? 0 then r.2 :: runs r.2 rs' else runs 0 rs
  end.

Lemma below_max_cons e r rs : ranges_above e (r :: rs) → below_max (r :: rs) → r.2 ≤ u64_max ∧ below_max rs.
Proof using.
  intros (_ & Hr & _) Hb. split.
  - assert (r.2 - 1 < u64_max); [|lia]. apply Hb. rewrite mem_cons. unfold in_range. lia.
  - intros i Hi. apply Hb. by rewrite mem_cons, Hi, orb_true_r.
Qed.

Lemma runs_ok e rs : ranges_above e rs → below_max rs → 0 ≤ e ≤ u64_max →
  Forall len_ok (runs e rs) ∧ e + total (runs e rs) ≤ u64_max.
Proof using.
  revert e. induction rs as [|r rs IH]; intros e Ha Hb He; simpl; [split; [done|lia]|].
  destruct (below_max_cons _ _ _ Ha Hb) as [Hr Hb']. destruct Ha as (H1 & H2 & Ha).
  destruct (IH r.2 Ha Hb' ltac:(lia)) as [F T]. unfold total in *. simpl.
  split; [|lia]. by constructor; [unfold len_ok; lia|constructor; [unfold len_ok; lia|]].
Qed.

Lemma lens_of_ok rs : ranges_ok rs → below_max rs → Forall len_ok (lens_of rs) ∧ total (lens_of rs) ≤ u64_max.
Proof using.
  destruct rs as [|r rs]; intros Ho Hb; [done|]. destruct (below_max_cons _ _ _ Ho Hb) as [Hr Hb'].
  pose proof Ho as (H1 & H2 & Ha). unfold lens_of. destruct (Z.eqb_spec r.1 0) as [E|E].
  - destruct (runs_ok r.2 rs) as [F T]; [done..|lia|]. unfold total in *. simpl.
    split; [constructor; [unfold len_ok; lia|done]|lia].
  - destruct (runs_ok 0 (r :: rs)) as [F T]; [split_and!; [lia|done..]|done|unfold u64_max; lia|]. split; [done|lia].
Qed.

Lemma bf_to_bytes_ok bf : bf_ok bf → let rs := ranges bf in let bz := bf_to_bytes bf in
  Forall is_byte bz ∧ trimmed bz ∧ le bz = (if first_one rs then 4 else 0) + 8 * enc (lens_of rs).
Proof using varint_leb.
  intros Hok rs bz. destruct (ranges_has bf Hok) as [Ho _]. pose proof (below_max_ranges bf Hok) as Hb.
  destruct (lens_of_ok _ Ho Hb) as [F _]. unfold bz, bf_to_bytes. fold rs in Ho, Hb, F |- *.
  destruct rs as [|r rs']; [done|]. pose proof Ho as (H1 & H2 & Ha). rewrite range_size_pos by done.
  assert (writer_ok writer_new) as Hw0 by done.
  assert (wrote writer_new 0 2 (write 0 2 writer_new)) as Hh by (apply write_ok; simpl; [done|lia..]).
  set (w := write 0 2 writer_new) in *. clearbody w. cbv zeta. simpl first_one.
  assert (∃ w3, write_ranges r.2 rs' (write_len (r.2 - r.1) (if r.1 =? 0 then write 1 1 w else write_len r.1 (write 0 1 w)))
      = fold_left (λ w l, write_len l w) (lens_of (r :: rs')) w3 ∧ wrote w (if r.1 =? 0 then 1 else 0) 1 w3) as (w3 & E & Hw3).
  { simpl lens_of. destruct (Z.eqb_spec r.1 0) as [E|E]; [exists (write 1 1 w)|exists (write 0 1 w)];
      (split; [|apply write_ok; [apply Hh|simpl; lia..]]); rewrite write_ranges_runs by done; simpl; repeat f_equal; lia. }
  rewrite E. pose proof (wrote_trans _ _ 2 _ _ _ _ Hw0 ltac:(lia) Hh Hw3) as H3.
  pose proof (wrote_trans _ _ (2 + 1) _ _ _ _ Hw0 ltac:(lia) H3 (write_lens_ok w3 (lens_of (r :: rs')) (proj1 Hw3) F)) as (Hwf & Ef & _).
  destruct (finish_ok _ Hwf) as (E1 & E2 & E3). split_and!; [done..|]. rewrite E1, Ef.
  change (written writer_new) with 0. change (2 ^ count writer_new) with 1. change (2 ^ (2 + 1)) with 8. change (2 ^ 2) with 4.
  destruct (r.1 =? 0); lia.
Qed.
End encode.

(** ** Decoding *)

(** The ranges that alternating lengths describe, and the value that would come next. *)
Fixpoint runs_ranges (nv : bool) (index : Z) (lens : list Z) : list Range :=
  match lens with
  | [] => []
  | l :: lens => (if nv then [(index, index + l)] else []) ++ runs_ranges (negb nv) (index + l) lens
  end.
Fixpoint runs_next (nv : bool) (lens : list Z) : bool :=
  match lens with [] => nv | _ :: lens => runs_next (negb nv) lens end.

Lemma total_nonneg lens : Forall len_ok lens → 0 ≤ total lens.
Proof. induction 1 as [|l lens Hl F IH]; unfold total in *; simpl; [lia|]. unfold len_ok in Hl. lia. Qed.

Lemma read_ranges_complete fuel nv rs index t lens r : reader_ok r → Forall len_ok lens → stream r = enc lens →
  t + total lens ≤ u64_max → (length lens < fuel)%nat →
  ∃ r', read_ranges fuel nv rs index t r = (Ok (runs_next nv lens, rs ++ runs_ranges nv index lens), r').
Proof.
  intros Hr F. revert fuel nv rs index t r Hr. induction F as [|l lens Hl F IH]; intros fuel nv rs index t r Hr Hs Ht Hf;
    (destruct fuel as [|fuel]; [simpl in Hf; lia|]); cbn [read_ranges]; unfold mbind, M_bind.
  - rewrite read_len_eq by done. simpl in Hs. rewrite Hs. simpl. rewrite app_nil_r. by eexists.
  - destruct (read_len_complete r l (enc lens) Hr Hl (enc_nonneg _ F) Hs) as (r1 & E & Ho & Hs1). rewrite E.
    unfold total in *. simpl in Ht. pose proof (total_nonneg _ F) as Hn. unfold total in Hn.
    destruct (Z.ltb_spec u64_max (t + l)); [lia|].
    destruct (IH fuel (negb nv) (if nv then rs ++ [(index, index + l)] else rs) (index + l) (t + l) r1 Ho Hs1) as (r2 & E2);
      [lia|simpl in Hf; lia|]. exists r2. rewrite E2. do 3 f_equal. simpl. destruct nv; [by rewrite <-app_assoc|done].
Qed.

Lemma read_ranges_sound fuel nv rs index t r nv' rs' r' : reader_ok r → t ≤ u64_max →
  read_ranges fuel nv rs index t r = (Ok (nv', rs'), r') →
  ∃ lens, Forall len_ok lens ∧ stream r = enc lens ∧ t + total lens ≤ u64_max ∧
    nv' = runs_next nv lens ∧ rs' = rs ++ runs_ranges nv index lens.
Proof.
  revert nv rs index t r. induction fuel as [|fuel IH]; intros nv rs index t r Hr Ht; [done|]. cbn [read_ranges]. unfold mbind, M_bind.
  destruct (read_len r) as [[o|e] r1] eqn:E; [|done]. destruct (read_len_sound _ _ _ Hr E) as [Ho Hlen].
  destruct o as [l|].
  - destruct Hlen as [Hl Hs]. destruct (Z.ltb_spec u64_max (t + l)); [done|].
    intros (lens & F & Hs1 & Ht1 & -> & ->)%IH; [|done..]. exists (l :: lens). unfold total in *. simpl.
    split_and!; [by constructor|by rewrite Hs, Hs1|lia|done|]. destruct nv; [by rewrite <-app_assoc|done].
  - intros [= <- <- <-]. exists []. unfold total. simpl. split_and!; [done..|lia|done|by rewrite app_nil_r].
Qed.

(** Canonical ranges are read back from their runs ... *)
Lemma runs_ranges_runs e rs : runs_ranges false e (runs e rs) = rs ∧ runs_next false (runs e rs) = false.
Proof.
  revert e. induction rs as [|r rs IH]; intros e; simpl; [done|].
  replace (e + (r.1 - e) + (r.2 - r.1)) with r.2 by lia. destruct (IH r.2) as [-> ->].
  replace (e + (r.1 - e)) with r.1 by lia. by destruct r.
Qed.
Lemma runs_ranges_lens_of rs : ranges_ok rs →
  runs_ranges (first_one rs) 0 (lens_of rs) = rs ∧ runs_next (first_one rs) (lens_of rs) = false.
Proof.
  destruct rs as [|r rs]; [done|]. intros (_ & _ & _). unfold first_one, lens_of. destruct (Z.eqb_spec r.1 0) as [E|E].
  - cbn [runs_ranges runs_next negb app]. rewrite Z.add_0_l. destruct (runs_ranges_runs r.2 rs) as [-> ->].
    split; [|done]. rewrite <-E. by destruct r.
  - apply runs_ranges_runs.
Qed.

(** ... and lengths that end with ones are the runs of what they describe. *)
Lemma runs_of_ranges n lens index : (length lens ≤ n)%nat → Forall len_ok lens → runs_next false lens = false →
  let rs := runs_ranges false index lens in
  lens = runs index rs ∧ ranges_above index rs ∧ ∀ i, mem i rs = true → i < index + total lens.
Proof.
  revert lens index. induction n as [|n IH]; intros lens index Hn F Hnext; [by destruct lens; [|simpl in Hn; lia]|].
  destruct F as [|l lens Hl F]; [done|]. destruct F as [|l' lens Hl' F]; [done|]. simpl in Hn, Hnext |- *. unfold len_ok in Hl, Hl'.
  destruct (IH lens (index + l + l') ltac:(lia) F Hnext) as (E & Ha & Hm). pose proof (total_nonneg _ F). unfold total in *.
  split_and!; simpl; [|lia|lia|done|].
  - rewrite <-E. f_equal; [lia|]. f_equal. lia.
  - intros i. rewrite orb_true_iff. intros [Hi|Hi]; [unfold in_range in Hi; simpl in Hi; lia|]. specialize (Hm i Hi). lia.
Qed.

Lemma lens_of_runs nv lens : Forall len_ok lens → runs_next nv lens = false → total lens ≤ u64_max →
  let rs := runs_ranges nv 0 lens in
  ranges_ok rs ∧ below_max rs ∧ lens = lens_of rs ∧ nv = first_one rs.
Proof.
  intros F Hn Ht. destruct nv; cycle 1.
  - destruct (runs_of_ranges (length lens) lens 0) as (E & Ha & Hm); [lia|done..|]. cbv zeta.
    set (rs := runs_ranges false 0 lens) in *. split_and!; [by eapply ranges_above_weaken; [|exact Ha]; lia| | |].
    + intros i Hi. specialize (Hm i Hi). lia.
    + destruct rs as [|r rs]; [done|]. destruct Ha as (Hr & _). unfold lens_of. destruct (Z.eqb_spec r.1 0); [lia|done].
    + destruct rs as [|r rs]; [done|]. destruct Ha as (Hr & _). simpl. destruct (Z.eqb_spec r.1 0); [lia|done].
  - destruct F as [|l lens Hl F]; [done|]. cbn [runs_next negb] in Hn. unfold len_ok in Hl.
    destruct (runs_of_ranges (length lens) lens l) as (E & Ha & Hm); [lia|done..|]. cbn [runs_ranges negb app]. rewrite Z.add_0_l.
    set (rs := runs_ranges false l lens) in *. unfold total in *. simpl in Ht. pose proof (total_nonneg _ F) as Hp. unfold total in Hp.
    split_and!; [split_and!; simpl; [lia|lia|done]| |simpl; by rewrite E at 1|done].
    intros i. rewrite mem_cons, orb_true_iff. intros [Hi|Hi]; [unfold in_range in Hi; simpl in Hi; lia|]. specialize (Hm i Hi). lia.
Qed.

(** [from_bytes] on a well-formed string of bytes. *)
Lemma bf_from_bytes_complete bz rs : Forall is_byte bz → trimmed bz → ranges_ok rs → below_max rs →
  le bz = (if first_one rs then 4 else 0) + 8 * enc (lens_of rs) → bf_from_bytes bz = Ok (from_ranges rs).
Proof.
  intros Fb Ht Ho Hb Hle. destruct (lens_of_ok rs Ho Hb) as [F Htot]. pose proof (enc_nonneg _ F) as Hen.
  unfold bf_from_bytes. pose proof (reader_new_ok bz Fb) as Hnew. destruct (reader_new bz) as [r|e]; [|by destruct Hnew].
  destruct Hnew as (_ & Hr & Hs). rewrite Hle in Hs. unfold read_bitfield, mbind, M_bind.
  destruct (read_stream 2 r Hr ltac:(lia)) as (r1 & E1 & Ho1 & Hs1). rewrite E1. change (2 ^ 2) with 4 in *.
  destruct (split_stream (stream r) 4 0 ((if first_one rs then 1 else 0) + 2 * enc (lens_of rs))) as [-> Hd]; [lia|destruct (first_one rs); lia|].
  rewrite Hd in Hs1. cbn [Z.eqb negb].
  destruct (read_stream 1 r1 Ho1 ltac:(lia)) as (r2 & E2 & Ho2 & Hs2). rewrite E2. change (2 ^ 1) with 2 in *.
  destruct (split_stream (stream r1) 2 (if first_one rs then 1 else 0) (enc (lens_of rs))) as [-> Hd2]; [destruct (first_one rs); lia|lia|].
  rewrite Hd2 in Hs2. replace ((if first_one rs then 1 else 0) =? 1) with (first_one rs) by (by destruct (first_one rs)).
  destruct (read_ranges_complete (S (8 * length bz)) (first_one rs) [] 0 0 (lens_of rs) r2 Ho2 F Hs2) as (r3 & E3); [lia| |].
  - destruct (lens_of rs) as [|l lens] eqn:El; [simpl; lia|]. rewrite <-El in *. pose proof (enc_large _ F ltac:(by rewrite El)) as Hlarge.
    pose proof (le_bound bz Fb) as Hbd. change 256 with (2 ^ 8) in Hbd. rewrite <-Z.pow_mul_r in Hbd by lia.
    assert (2 ^ (Z.of_nat (length (lens_of rs)) - 1) < 2 ^ (8 * Z.of_nat (length bz))) as Hlt by (destruct (first_one rs); lia).
    apply Z.pow_lt_mono_r_iff in Hlt; lia.
  - rewrite E3. destruct (runs_ranges_lens_of rs Ho) as [-> ->]. done.
Qed.

Lemma bf_from_bytes_sound bz bf : Forall is_byte bz → bf_from_bytes bz = Ok bf →
  ∃ rs, bf = from_ranges rs ∧ trimmed bz ∧ ranges_ok rs ∧ below_max rs ∧
    le bz = (if first_one rs then 4 else 0) + 8 * enc (lens_of rs).
Proof.
  intros Fb. unfold bf_from_bytes. pose proof (reader_new_ok bz Fb) as Hnew. destruct (reader_new bz) as [r|e]; [|done].
  destruct Hnew as (Ht & Hr & Hs). unfold read_bitfield, mbind, M_bind.
  destruct (read_stream 2 r Hr ltac:(lia)) as (r1 & E1 & Ho1 & Hs1). rewrite E1. change (2 ^ 2) with 4 in *.
  destruct (Z.eqb_spec (stream r mod 4) 0) as [E4|]; [|done]. cbn [negb].
  destruct (read_stream 1 r1 Ho1 ltac:(lia)) as (r2 & E2 & Ho2 & Hs2). rewrite E2. change (2 ^ 1) with 2 in *.
  destruct (read_ranges _ _ _ _ _ _) as [[[nv rs]|e] r3] eqn:E3; [|done]. destruct nv; [done|]. intros [= <-].
  destruct (read_ranges_sound _ _ _ _ 0 _ _ _ _ Ho2 ltac:(unfold u64_max; lia) E3) as (lens & F & Hse & Htot & Hnext & ->).
  destruct (lens_of_runs (stream r1 mod 2 =? 1) lens F (eq_sym Hnext) ltac:(lia)) as (Hok & Hb & El & Ef). cbv zeta in *.
  exists (runs_ranges (stream r1 mod 2 =? 1) 0 lens). split_and!; [done..|]. rewrite <-El, <-Ef, <-Hs, <-Hse, Hs2.
  pose proof (Z.div_mod (stream r) 4 ltac:(lia)). pose proof (Z.div_mod (stream r1) 2 ltac:(lia)).
  pose proof (Z.mod_pos_bound (stream r1) 2 ltac:(lia)). destruct (Z.eqb_spec (stream r1 mod 2) 1); lia.
Qed.

(** ** Round trips *)

Section theorems.
Context `{V : Varint} (varint_leb : ∀ n, in_u64 n → varint_encode n = leb_encode 9 n).

Lemma ranges_from_ranges rs : ranges_ok rs → below_max rs → bf_ok (from_ranges rs) ∧ ranges (from_ranges rs) = rs.
Proof using.
  intros Ho Hb. destruct (from_ranges_denotes rs (λ i, mem i rs)) as [Hok Hh]; [done..|]. split; [done|].
  destruct (ranges_has _ Hok) as [Ho' Hm]. apply (ranges_unique (-1)); [done..|]. intros i. by rewrite Hm, Hh.
Qed.

(** C32: The RLE+ encoding of a bit field is unique and decoding accepts nothing
    else: decoding what [to_bytes] writes gives back the bits in canonical
    ranges, and a byte string that [from_bytes] accepts is the one [to_bytes]
    writes for the bit field it returns (so every other string, with wasted
    blocks, trailing zeros or overlong varints, is refused). Bit fields with
    the same bits have the same bytes, whatever is buffered in them. *)
Theorem rleplus_unique (bf bf' : BitField) (bz : bytes) : bf_ok bf → bf_ok bf' → Forall is_byte bz →
  bf_from_bytes (bf_to_bytes bf) = Ok (from_ranges (ranges bf)) ∧
  (bf_from_bytes bz = Ok bf → bf_to_bytes bf = bz) ∧
  (bf_to_bytes bf = bf_to_bytes bf' ↔ ∀ i, has bf i = has bf' i).
Proof using varint_leb.
  intros Hok Hok' Fb. destruct (bf_to_bytes_ok varint_leb bf Hok) as (F1 & T1 & L1). destruct (ranges_has bf Hok) as [Ho Hm].
  destruct (bf_to_bytes_ok varint_leb bf' Hok') as (F2 & T2 & L2). destruct (ranges_has bf' Hok') as [Ho' Hm'].
  assert (∀ b, bf_ok b → bf_from_bytes (bf_to_bytes b) = Ok (from_ranges (ranges b))) as Hrt.
  { intros b Hb. destruct (bf_to_bytes_ok varint_leb b Hb) as (? & ? & ?).
    apply bf_from_bytes_complete; [done..|by apply ranges_has|by apply below_max_ranges|done]. }
  split_and!; [by apply Hrt| |split].
  - intros (rs & -> & Ht & Hro & Hrb & Hle)%bf_from_bytes_sound; [|done]. cbv zeta in *.
    destruct (ranges_from_ranges rs Hro Hrb) as [_ Er]. rewrite Er in L1. apply le_inj; [done..|]. by rewrite L1.
  - intros E i. pose proof (Hrt bf Hok) as R1. rewrite E, (Hrt bf' Hok') in R1. injection R1 as R1. by rewrite <-Hm, <-Hm', R1.
  - intros Hs. assert (ranges bf = ranges bf') as E.
    { apply (ranges_unique (-1)); [done..|]. intros i. by rewrite Hm, Hm'. }
    unfold bf_to_bytes. by rewrite E.
Qed.

(** Bit fields on the wire: (de)serializing enforces the size limit and
    nothing more; a bit field whose validation is deferred carries its bytes
    unchanged, validating it succeeds exactly when eager decoding does and with
    the same bit field, a failed validation leaves it as it was, and a
    validated one answers without decoding again and re-encodes to the bytes it
    came from. *)
Theorem deferred_validation (bz : bytes) : Forall is_byte bz →
  match unvalidated_deserialize bz with
  | Err e => MAX_ENCODED_SIZE < Z.of_nat (length bz) ∧ rle_deserialize bz = Err e
  | Ok u =>
      unvalidated_serialize u = Ok bz ∧
      match validate_mut u, rle_deserialize bz with
      | (Ok bf, u'), Ok bf' => bf' = bf ∧ bf_ok bf ∧ u' = Validated bf ∧ unvalidated_serialize u' = Ok bz ∧
          unvalidated_try_into u = Ok bf ∧ validate_mut u' = (Ok bf, u')
      | (Err e, u'), Err e' => e' = Custom e ∧ u' = u ∧ unvalidated_try_into u = Err e
      | _, _ => False
      end
  end.
Proof using varint_leb.
  intros Fb. unfold unvalidated_deserialize, rle_deserialize.
  destruct (Z.ltb_spec MAX_ENCODED_SIZE (Z.of_nat (length bz))); [done|]. split; [done|]. simpl.
  destruct (bf_from_bytes bz) as [bf|e] eqn:E; [|done].
  destruct (bf_from_bytes_sound bz bf Fb E) as (rs & -> & Ht & Ho & Hb & Hle). destruct (ranges_from_ranges rs Ho Hb) as [Hok Er].
  split_and!; [done..| |done|done]. simpl. unfold rle_serialize.
  assert (bf_to_bytes (from_ranges rs) = bz) as ->; [|destruct (Z.ltb_spec MAX_ENCODED_SIZE (Z.of_nat (length bz))); [lia|done]].
  destruct (bf_to_bytes_ok varint_leb _ Hok) as (F1 & T1 & L1). cbv zeta in *. rewrite Er in L1.
  apply le_inj; [done..|]. by rewrite L1.
Qed.
End theorems.

(** The JSON form gives back the bits. *)
Lemma json_ranges_runs e rs : ranges_above e rs ∨ e = 0 ∧ ranges_ok rs → below_max rs → 0 ≤ e ≤ u64_max →
  json_ranges false e (runs e rs) = Some rs.
Proof.
  revert e. induction rs as [|r rs IH]; intros e Ha Hb He; [done|].
  assert (e ≤ r.1 ∧ r.1 < r.2 ∧ ranges_above r.2 rs) as (H1 & H2 & Ha') by (destruct Ha as [(? & ? & ?)|[-> (? & ? & ?)]]; split_and!; done || lia).
  assert (r.2 ≤ u64_max ∧ below_max rs) as [Hr Hb'].
  { apply (below_max_cons (r.1 - 1)); [split_and!; [lia|done..]|done]. }
  simpl. replace (r.1 - e + e) with r.1 by lia. replace (r.2 - r.1 + r.1) with r.2 by lia.
  destruct (Z.ltb_spec u64_max r.1); [lia|]. destruct (Z.ltb_spec u64_max r.2); [lia|].
  rewrite IH by (auto || lia). simpl. by destruct r.
Qed.
Lemma json_roundtrip bf : bf_ok bf → json_deserialize (json_serialize bf) = Some (from_ranges (ranges bf)).
Proof.
  intros Hok. destruct (ranges_has bf Hok) as [Ho Hm]. unfold json_serialize. destruct (is_empty bf) eqn:E; simpl.
  - unfold json_deserialize. simpl. destruct (Z.ltb_spec u64_max 0); [unfold u64_max in *; lia|]. simpl. do 2 f_equal.
    apply (ranges_unique (-1)); [done..|]. intros i. rewrite Hm. symmetry. by apply is_empty_spec.
  - unfold json_deserialize. rewrite json_ranges_runs; [done|by right|by apply below_max_ranges|unfold u64_max; lia].
Qed.
(** The JSON form is not validated: a run of no ones becomes an empty range,
    which the requirements on range iterators exclude. *)
Example json_empty_range : json_deserialize [1; 0] = Some (from_ranges [(1, 1)]).
Proof. reflexivity. Qed.

Lemma leb128_bytes n : in_u64 n → @varint_encode leb128 n = leb_encode 9 n.
Proof. done. Qed.

Lemma rleplus_unique_witness : bf_ok demo_bits ∧ @bf_to_bytes leb128 demo_bits = [188; 82; 114] ∧
  bf_from_bytes [188; 82; 114] = Ok (from_ranges (ranges demo_bits)).
Proof.
  split; [exact demo_bits_ok|]. split; [vm_compute; reflexivity|].
  destruct (rleplus_unique (V := leb128) leb128_bytes demo_bits demo_bits [188; 82; 114] demo_bits_ok demo_bits_ok) as (E & _).
  { repeat constructor; unfold is_byte; lia. }
  exact E.
Defined.

Lemma deferred_validation_witness : Forall is_byte [188; 82; 114] ∧
  @unvalidated_serialize leb128 (Unvalidated [188; 82; 114]) = Ok [188; 82; 114] ∧
  unvalidated_deserialize [188; 82; 114] = Ok (Unvalidated [188; 82; 114]) ∧
  (validate_mut (Unvalidated [188; 82; 114])).2 = Validated (from_ranges (ranges demo_bits)) ∧
  rle_deserialize [188; 82; 114] = Ok (from_ranges (ranges demo_bits)) ∧
  rle_deserialize [188; 82; 114; 0] = Err (Custom NotMinimal).
Proof.
  assert (Forall is_byte [188; 82; 114]) as F by (repeat constructor; unfold is_byte; lia).
  destruct (deferred_validation (V := leb128) leb128_bytes [188; 82; 114] F) as [Hs _].
  split; [exact F|]. split; [exact Hs|]. split; [reflexivity|]. split; [vm_compute; reflexivity|]. split; vm_compute; reflexivity.
Defined.
