(* ===== verification/MemoryEnv.v ===== *)
(** * A concrete environment

    [MemoryBlockstore] (ipld/blockstore/src/memory.rs), the HAMT of HamtTop.v with
    the [Identity] hash of its tests, codecs that number the values they encode,
    and a collision-free stand-in for the other hash functions. It shows that the
    promises of [EnvSpec] can be kept, and the witnesses run in it. *)

From S2P Require Import Prelude Effects Gas PriceList Address HistoryMap Types StateTree.
From S2P Require Import HamtBits HamtCommon Hamt HamtRep HamtMap HamtTop.
From stdpp Require Import gmap strings list fin_maps countable.
From Stdlib Require Import ZArith Lia.
#[local] Open Scope Z_scope.

(** ** MemoryBlockstore *)

Abbreviation MemoryBlockstore := (gmap Cid bytes) (only parsing).
Definition mbs_has (s : MemoryBlockstore) (k : Cid) : result string bool :=
  Ok (bool_decide (is_Some (s !! k))).
Definition mbs_get (s : MemoryBlockstore) (k : Cid) : result string (option bytes) := Ok (s !! k).
Definition mbs_put_keyed (s : MemoryBlockstore) (k : Cid) (block : bytes)
    : result string unit * MemoryBlockstore := (Ok tt, <[k := block]> s).

(** ** Codecs *)

#[export] Instance ActorState_countable : Countable ActorState.
Proof.
  apply (inj_countable' (λ a, (as_code a, as_state a, as_sequence a, as_balance a, as_delegated_address a))
    (λ '(c, s, q, b, d), mkActorState c s q b d)). by intros [].
Defined.
#[export] Instance StateTreeVersion_eq_dec : EqDecision StateTreeVersion.
Proof. solve_decision. Defined.
#[export] Instance StateTreeVersion_countable : Countable StateTreeVersion.
Proof.
  apply (inj_countable' (λ v, match v with V0 => 0 | V1 => 1 | V2 => 2 | V3 => 3 | V4 => 4 | V5 => 5 end)
    (λ n, if n =? 0 then V0 else if n =? 1 then V1 else if n =? 2 then V2 else if n =? 3 then V3
          else if n =? 4 then V4 else V5)). by intros [].
Defined.
#[export] Instance StateRoot_eq_dec : EqDecision StateRoot.
Proof. solve_decision. Defined.
#[export] Instance StateRoot_countable : Countable StateRoot.
Proof.
  apply (inj_countable' (λ r, (sr_version r, sr_actors r, sr_info r))
    (λ '(v, a, i), mkStateRoot v a i)). by intros [].
Defined.
#[export] Instance InitState_eq_dec : EqDecision InitState.
Proof. solve_decision. Defined.
#[export] Instance InitState_countable : Countable InitState.
Proof.
  apply (inj_countable' (λ s, (address_map s, next_id s, network_name s))
    (λ '(a, n, w), mkInitState a n w)). by intros [].
Defined.

Definition number {T} `{Countable T} (t : T) : bytes := [Zpos (encode t)].
Definition unnumber {T} `{Countable T} (bz : bytes) : result string T :=
  match bz with
  | [Zpos p] => ok_or (decode p) "not an encoding"%string
  | _ => Err "not an encoding"%string
  end.
Definition num_cbor {T} `{Countable T} : Cbor T := {| to_vec t := Ok (number t); from_slice := unnumber |}.

Lemma unnumber_number {T} `{Countable T} (t : T) : unnumber (number t) = Ok t.
Proof. unfold unnumber, number. by rewrite decode_encode. Qed.
Lemma num_cbor_spec {T} `{Countable T} : @CborSpec T num_cbor.
Proof. intros t. exists (number t). split; [done|]. apply unnumber_number. Qed.

(** ** Hashes and HAMTs *)

(** 32 "bytes", the first of which determines the data. *)
Definition num_digest (code : Z) (d : bytes) : bytes := Zpos (encode d) :: replicate 31 0.
Lemma num_digest_inj c d d' : num_digest c d = num_digest c d' → d = d'.
Proof. unfold num_digest. intros [= Hd]. by apply (inj encode). Qed.

Definition one_block (bz : bytes) : Cid := mkCid DAG_CBOR BLAKE2B_256 (num_digest BLAKE2B_256 bz).

#[export] Instance PointerBlock_eq_dec {V} `{EqDecision V} : EqDecision (PointerBlock V).
Proof. solve_decision. Defined.
#[export] Instance PointerBlock_countable {V} `{Countable V} : Countable (PointerBlock V).
Proof.
  apply (inj_countable' (λ p : PointerBlock V, match p with BVals kvs => inl kvs | BLink c => inr c end)
    (λ p : list (bytes * V) + Cid, match p with inl kvs => BVals kvs | inr c => BLink c end)). by intros [].
Defined.

(** [Identity] (ipld/hamt/src/hash_algorithm.rs): the first 32 bytes of the key. *)
Definition identity_hash (k : bytes) : bytes :=
  take 32 (((λ b, b `mod` 256) <$> k) ++ replicate 32 0).
Definition memory_conf : Config := mkConfig 5 0 3.

Lemma identity_hash_ok k : hash_ok (identity_hash k).
Proof.
  unfold identity_hash. split; [rewrite length_take, length_app, length_replicate; lia|].
  apply Forall_take, Forall_app. split; [|by apply Forall_replicate].
  apply Forall_fmap, Forall_true. intros b. simpl. unfold is_byte. apply Z.mod_pos_bound. lia.
Qed.
#[export] Instance memory_params : HamtParams memory_conf identity_hash.
Proof. split; [apply identity_hash_ok|cbv; split; congruence|cbv; lia|cbv; lia]. Qed.

Definition memory_bs : Blockstore := {|
  Store := MemoryBlockstore;
  bs_get := mbs_get;
  bs_put_keyed := mbs_put_keyed;
  mh_digest := num_digest;
|}.

Definition memory_hamt {V} `{Countable V} : HamtOps MemoryBlockstore V :=
  @hamt_ops memory_bs V _ num_cbor memory_conf identity_hash.

#[export] Instance memory_env : Env := {|
  env_bs := memory_bs;
  env_varint := leb128;
  env_state_root := num_cbor;
  env_init_state := num_cbor;
  env_actors := memory_hamt;
  env_addresses := memory_hamt;
|}.

(** Every block is stored under its hash. *)
Definition mbs_ok (s : MemoryBlockstore) : Prop :=
  ∀ c b, s !! c = Some b → cid_digest c = num_digest (cid_hash_code c) b.

Lemma mbs_put_ok (s : MemoryBlockstore) (k : Cid) (b : bytes) :
  mbs_ok s → cid_digest k = num_digest (cid_hash_code k) b →
  mbs_ok (<[k := b]> s) ∧ s ⊆ (<[k := b]> s : MemoryBlockstore).
Proof.
  intros Hs Hk. split.
  - intros c b'. rewrite lookup_insert. case_decide; [|apply Hs]. subst. by intros [= <-].
  - apply map_subseteq_spec. intros c b' Hc. rewrite lookup_insert. case_decide; [|done].
    subst. f_equal. apply (num_digest_inj (cid_hash_code c)).
    rewrite <-(Hs _ _ Hc). done.
Qed.

Definition memory_bs_spec : @BlockstoreSpec memory_bs.
Proof.
  unshelve refine (@Build_BlockstoreSpec memory_bs mbs_ok (λ s s' : gmap Cid bytes, s ⊆ s') _ _ _ _).
  - split; [intros s; reflexivity|intros a b c ??; by etrans].
  - intros s s' c b Hle [= Hc]. simpl. unfold mbs_get. by rewrite (lookup_weaken _ _ _ _ Hc Hle).
  - intros s k b r s' Hs Hk [= <- <-]. by apply mbs_put_ok.
  - intros s k b s' Hs Hk [= <-]. simpl. unfold mbs_get. by rewrite lookup_insert_eq.
Defined.

Definition memory_hamt_spec {V} `{Countable V} : @HamtSpec V memory_bs memory_bs_spec memory_hamt :=
  @hamt_spec memory_bs memory_bs_spec V _ num_cbor num_cbor_spec memory_conf identity_hash memory_params.

#[export] Instance memory_spec : EnvSpec.
Proof.
  by refine (@Build_EnvSpec memory_env memory_bs_spec
    _ leb128_spec num_cbor_spec num_cbor_spec memory_hamt_spec memory_hamt_spec).
Defined.

#[export] Instance memory_total : StoreTotal.
Proof. intros s k b. by eexists. Qed.

(** ** A small chain state

    The init actor (with an empty address map and 100 as next id), and two
    actors with funds; the HAMT holds the actors. *)

Lemma mbs_ok_empty : mbs_ok ∅.
Proof. intros c b. by rewrite lookup_empty. Qed.
Lemma mbs_ok_one s bz : mbs_ok s → mbs_ok (<[one_block bz := bz]> s).
Proof. intros Hs. by apply mbs_put_ok. Qed.

(** Filling a new HAMT. *)
Definition fill {V} `{HamtOps Store V} (s : Store) (kvs : list (bytes * V)) : Types.Hamt Store V :=
  foldr (λ kv h, (hamt_set s h kv.1 kv.2).2) hamt_new kvs.

Lemma fill_rep (s : Store) (kvs : list (bytes * ActorState)) :
  store_ok s → hamt_keys_ok (V := ActorState) (list_to_set kvs.*1) →
  hamt_rep (V := ActorState) s (fill s kvs) (foldr (λ kv m, <[kv.1 := kv.2]> m) ∅ kvs).
Proof.
  intros Hs Hk.
  assert (∀ l, l `suffix_of` kvs → dom (foldr (λ kv m, <[kv.1 := kv.2]> m) (∅ : gmap bytes ActorState) l) ⊆
    list_to_set kvs.*1) as Hdom.
  { induction l as [|kv l IH]; intros Hl; simpl; [set_solver|]. rewrite dom_insert.
    assert (kv ∈ kvs) by (destruct Hl as [l' ->]; set_solver).
    specialize (IH (suffix_cons_l _ _ _ Hl)). apply union_subseteq. split; [|done].
    apply singleton_subseteq_l, elem_of_list_to_set. by apply list_elem_of_fmap_2. }
  assert (∀ l, l `suffix_of` kvs → hamt_rep (V := ActorState) s (fill s l) (foldr (λ kv m, <[kv.1 := kv.2]> m) ∅ l)) as Hall.
  { induction l as [|kv l IH]; intros Hl; [by apply (hamt_rep_new (V := ActorState))|].
    destruct (hamt_rep_set (V := ActorState) s (fill s l) _ kv.1 kv.2 Hs (IH (suffix_cons_l _ _ _ Hl))) as (h' & E & Hh').
    - eapply (hamt_keys_sub (V := ActorState)); [apply (Hdom (kv :: l) Hl)|done].
    - change (fill s (kv :: l)) with ((hamt_set s (fill s l) kv.1 kv.2).2). rewrite E. exact Hh'. }
  by apply Hall.
Qed.

Lemma keys_apart_decide (X : gset bytes) :
  bool_decide (Forall (λ k, Forall (λ k', identity_hash k = identity_hash k' → k = k') (elements X)) (elements X)) = true →
  keys_apart identity_hash X.
Proof.
  intros Hb%bool_decide_eq_true. rewrite Forall_forall in Hb. intros k k' Hk Hk'.
  specialize (Hb k ltac:(by apply list_elem_of_In, elem_of_elements)). rewrite Forall_forall in Hb.
  apply Hb. by apply list_elem_of_In, elem_of_elements.
Qed.

(** The block of an empty HAMT. *)
Definition demo_map_block : bytes := number (([], []) : NodeBlock ActorID).
Definition demo_map : gmap bytes ActorID := ∅.
Definition demo_init : InitState := mkInitState (one_block demo_map_block) 100 "testnet".
Definition demo_store : gmap Cid bytes :=
  <[one_block (number demo_init) := number demo_init]>
    (<[one_block demo_map_block := demo_map_block]> ∅).
Definition demo_code (n : Z) : Cid := mkCid IPLD_RAW 0 [n].
Definition demo_init_actor : ActorState :=
  mkActorState (demo_code 2) (one_block (number demo_init)) 0 0 None.
Definition demo_actor (b : TokenAmount) : ActorState :=
  mkActorState (demo_code 7) EMPTY_ARR_CID 0 b None.

(** An account with the code the demo manifest knows. *)
Definition demo_account : ActorState := mkActorState (demo_code 5) EMPTY_ARR_CID 3 (10 ^ 12) None.

Definition demo_bm : gmap ActorID ActorState :=
  <[1 := demo_init_actor]> (<[50 := demo_actor 1000]> (<[99 := demo_actor 0]>
    (<[2 := demo_actor 0]> (<[70 := demo_account]> ∅)))).
Definition demo_hamt : gmap bytes ActorState :=
  <[actor_key 1 := demo_init_actor]>
    (<[actor_key 50 := demo_actor 1000]> (<[actor_key 99 := demo_actor 0]>
      (<[actor_key 2 := demo_actor 0]> (<[actor_key 70 := demo_account]> ∅)))).

Definition demo_root : Types.Hamt Store ActorState :=
  fill demo_store [(actor_key 1, demo_init_actor); (actor_key 50, demo_actor 1000); (actor_key 99, demo_actor 0);
    (actor_key 2, demo_actor 0); (actor_key 70, demo_account)].

Definition demo_tree : StateTree :=
  mkStateTree _ demo_store demo_root V5 (Some EMPTY_ARR_CID) hm_default hm_default [].

Lemma demo_store_ok : mbs_ok demo_store.
Proof. apply mbs_ok_one, mbs_ok_one, mbs_ok_empty. Qed.
Lemma demo_root_rep : hamt_rep (V := ActorState) demo_store demo_root demo_hamt.
Proof. apply fill_rep; [apply demo_store_ok|]. apply keys_apart_decide. vm_compute. reflexivity. Qed.
Lemma demo_inv : st_inv demo_hamt demo_tree.
Proof.
  split_and!; [apply demo_store_ok|apply demo_root_rep|]. intros id e. simpl. by rewrite lookup_empty.
Qed.
Lemma demo_tree_rep : tree_rep demo_hamt demo_tree (mkAbs (λ id, demo_hamt !! actor_key id) []).
Proof. split_and!; [apply demo_inv| |done]. intros id. done. Qed.

(** Keys of different small ids differ. *)
Lemma demo_hamt_at id : in_u64 id → demo_hamt !! actor_key id = demo_bm !! id.
Proof.
  intros Hid. unfold demo_hamt, demo_bm.
  assert (∀ j a (h : gmap bytes ActorState) (b : gmap ActorID ActorState), in_u64 j →
    h !! actor_key id = b !! id → <[actor_key j := a]> h !! actor_key id = <[j := a]> b !! id) as Hk.
  { intros j a h b Hj Hhb. destruct (decide (j = id)) as [->|Hne]; [by rewrite !lookup_insert_eq|].
    rewrite !lookup_insert_ne; [done|done|]. by intros Hk%actor_key_inj. }
  repeat (apply Hk; [mlia|]). by rewrite !lookup_empty.
Qed.

Lemma state_tree_refines_witness :
  answers run_op [OGet 50; OBegin; OSet 50 (demo_actor 1); ODelete 99; OGet 50; OEnd true; OGet 50; OEnd false]
    demo_tree =
  [Ok (Some (demo_actor 1000)); Ok None; Ok None; Ok None; Ok (Some (demo_actor 1)); Ok None;
   Ok (Some (demo_actor 1000)); Err (Fatal "state snapshots empty")].
Proof. rewrite (state_tree_refines _ _ _ _ demo_tree_rep). reflexivity. Defined.

Lemma demo_ids : cached_ids_ok (set_actor 60 (demo_actor 5) demo_tree).2.
Proof.
  intros id e Hl. unfold set_actor, modify in Hl. cbn [snd actor_cache st_set_actors] in Hl.
  rewrite lookup_hm_insert in Hl. case_decide; [subst; mlia|]. by vm_compute in Hl.
Qed.

Lemma flush_reload_witness :
  ∃ root t' t'', st_flush (set_actor 60 (demo_actor 5) demo_tree).2 = (Ok root, t') ∧
    st_new_from_root (st_store t') root = Ok t'' ∧
    (get_actor 60 t'').1 = Ok (Some (demo_actor 5)) ∧
    (get_actor 50 t'').1 = Ok (Some (demo_actor 1000)).
Proof.
  destruct (flush_reload demo_hamt (set_actor 60 (demo_actor 5) demo_tree).2 EMPTY_ARR_CID)
    as (root & t' & t'' & E1 & E2 & Hg).
  - apply st_inv_actors; [apply demo_inv|]. apply cache_ok_insert, demo_inv.
  - reflexivity.
  - reflexivity.
  - reflexivity.
  - apply demo_ids.
  - apply keys_apart_decide. vm_compute. reflexivity.
  - exists root, t', t''. split; [exact E1|]. split; [exact E2|].
    rewrite (Hg 60), (Hg 50) by mlia. split; reflexivity.
Defined.

Definition demo_addr (n : Z) : Address := ActorAddr (replicate 20 n).

Lemma demo_init_rep : init_rep demo_hamt demo_tree demo_init_actor demo_init demo_map.
Proof.
  split_and!.
  - apply demo_inv.
  - reflexivity.
  - vm_compute. reflexivity.
  - exists Node_default, ([], []), demo_map_block. split_and!; [constructor|by apply (new_ok memory_conf identity_hash)|done..].
  - intros b i. simpl. by rewrite lookup_empty.
Qed.

Lemma demo_addr_keys : hamt_keys_ok (V := ActorID) ({[to_bytes (demo_addr 3)]} ∪ dom demo_map).
Proof. apply keys_apart_decide. vm_compute. reflexivity. Qed.

Lemma register_then_lookup_witness :
  ∃ t' t'', register_new_address (demo_addr 3) demo_tree = (Ok 100, t') ∧
    lookup_id (demo_addr 3) t' = (Ok (Some 100), t'').
Proof.
  destruct (register_then_lookup demo_hamt demo_tree demo_init_actor demo_init demo_map
    (demo_addr 3) (demo_addr 3) demo_init_rep eq_refl eq_refl eq_refl demo_addr_keys) as (t' & t'' & E1 & E2 & _).
  exists t', t''. split; [exact E1|]. rewrite E2. reflexivity.
Defined.

(** The same actors written along another path: overwritten, created and deleted. *)
Definition demo_detour : StateTree :=
  (set_actor 60 (demo_actor 5) (delete_actor 61 (set_actor 61 (demo_actor 9) (set_actor 60 (demo_actor 7) demo_tree).2).2).2).2.

Lemma demo_detour_ids : cached_ids_ok demo_detour.
Proof.
  intros id e Hl. unfold demo_detour, set_actor, delete_actor, modify in Hl. cbn [snd actor_cache st_set_actors] in Hl.
  rewrite !lookup_hm_insert in Hl. repeat (case_decide; [subst; mlia|]). by vm_compute in Hl.
Qed.
Lemma demo_detour_inv : st_inv demo_hamt demo_detour.
Proof.
  unfold demo_detour, set_actor, delete_actor, modify. cbn [snd].
  repeat first [apply demo_inv|apply st_inv_actors|apply cache_ok_insert].
Qed.

Lemma flush_root_deterministic_witness :
  ∃ root t1 t2, st_flush (set_actor 60 (demo_actor 5) demo_tree).2 = (Ok root, t1) ∧
    st_flush demo_detour = (Ok root, t2).
Proof.
  apply (flush_root_deterministic demo_hamt _ demo_hamt _ EMPTY_ARR_CID).
  - apply st_inv_actors; [apply demo_inv|]. apply cache_ok_insert, demo_inv.
  - reflexivity.
  - reflexivity.
  - reflexivity.
  - apply demo_ids.
  - apply keys_apart_decide. vm_compute. reflexivity.
  - apply demo_detour_inv.
  - reflexivity.
  - reflexivity.
  - reflexivity.
  - apply demo_detour_ids.
  - apply keys_apart_decide. vm_compute. reflexivity.
  - intros k Hk. assert (k ∈ actor_key <$> [1; 50; 99; 2; 70]) as Hin.
    { unfold demo_hamt in Hk. rewrite !dom_insert_L, dom_empty_L in Hk. set_solver. }
    apply list_elem_of_fmap in Hin as (id & -> & Hid). exists id. split; [|done].
    repeat (apply elem_of_cons in Hid as [->|Hid]; [mlia|]). by apply elem_of_nil in Hid.
  - intros id Hid. unfold demo_detour, set_actor, delete_actor, modify, actor_at. cbn [snd actor_cache st_set_actors].
    rewrite !cache_at_insert. repeat case_decide; subst; done.
Defined.
