(* ===== verification/HamtDemo.v ===== *)
(** * HAMTs in memory

    The HAMT's theorems at a concrete store, and what the code does where they
    do not apply: keys with equal hashes. *)

From S2P Require Import Prelude Effects Address Types StateTree MemoryEnv.
From S2P Require Import HamtBits HamtCommon Hamt HamtRep HamtMap HamtTop HamtIter HamtWalk.
From stdpp Require Import gmap strings list fin_maps.
From Stdlib Require Import ZArith Lia.
#[local] Open Scope Z_scope.

#[local] Instance demo_block : Cbor (NodeBlock Z) := num_cbor.
#[local] Instance demo_block_spec : CborSpec (NodeBlock Z) := num_cbor_spec.

(** Five keys that share a slot at the first two levels, one elsewhere. *)
Definition demo_key (n : Z) : bytes := [0; n].
Definition demo_sets : list (HamtOp Z) :=
  [HSet (demo_key 1) 10; HSet (demo_key 2) 20; HSet (demo_key 3) 30; HSet (demo_key 4) 40; HSet [200] 50].
Definition demo_ops : list (HamtOp Z) :=
  demo_sets ++ [HFlush; HSet (demo_key 5) 51; HDelete (demo_key 5); HGet (demo_key 4); HSetIfAbsent (demo_key 4) 41;
    HDelete (demo_key 1); HContains (demo_key 1); HFlush; HDelete (demo_key 9)].
(** The same content, in another order and without the detours. *)
Definition demo_short : list (HamtOp Z) :=
  [HSet [200] 50; HSet (demo_key 4) 40; HSet (demo_key 2) 20; HSet (demo_key 3) 30].

Definition demo_new : @HamtImpl Z := new_with_config.

Lemma demo_ops_keys : keys_apart identity_hash (set_keys demo_ops).
Proof. apply keys_apart_decide. vm_compute. reflexivity. Qed.
Lemma demo_short_keys : keys_apart identity_hash (set_keys demo_short).
Proof. apply keys_apart_decide. vm_compute. reflexivity. Qed.

Lemma hamt_refines_map_witness :
  ∃ h s, hamt_run_ops memory_conf identity_hash demo_ops demo_new ∅ =
    (Ok [AValue None; AValue None; AValue None; AValue None; AValue None; ADone; AValue None;
         AEntry (Some (demo_key 5, 51)); AValue (Some 40); ABool false; AEntry (Some (demo_key 1, 10));
         ABool false; ADone; AEntry None], h, s).
Proof.
  destruct (hamt_refines_map memory_conf identity_hash demo_ops ∅ demo_new ∅) as (h & s & E & _).
  - apply mbs_ok_empty.
  - apply new_ok, _.
  - rewrite dom_empty_L, (left_id_L ∅ (∪)). apply demo_ops_keys.
  - exists h, s. rewrite E. reflexivity.
Defined.

Lemma hamt_root_canonical_witness :
  ∃ r1 h1 t1 r2 h2 t2 c h1' t1' h2' t2',
    hamt_run_ops memory_conf identity_hash demo_ops demo_new ∅ = (Ok r1, h1, t1) ∧
    hamt_run_ops memory_conf identity_hash demo_short demo_new demo_store = (Ok r2, h2, t2) ∧
    flush t1 h1 = (Ok c, h1', t1') ∧ flush t2 h2 = (Ok c, h2', t2').
Proof.
  apply (hamt_root_canonical memory_conf identity_hash demo_ops demo_short).
  - apply mbs_ok_empty.
  - apply demo_store_ok.
  - apply demo_ops_keys.
  - apply demo_short_keys.
  - vm_compute. reflexivity.
Defined.

Lemma hamt_flush_load_witness :
  ∃ c h s, flush ∅ demo_new = (Ok c, h, s) ∧ (store_le s s → ∃ h' h3 t,
    load_with_config memory_conf s c = Ok h' ∧
    hamt_run_ops memory_conf identity_hash demo_short h' s =
      (Ok [AValue None; AValue None; AValue None; AValue None], h3, t)).
Proof.
  pose (s := (flush ∅ demo_new).2).
  destruct (hamt_flush_load memory_conf identity_hash demo_short ∅ demo_new ∅ s) as (c & h & s' & E & Hl).
  - apply mbs_ok_empty.
  - apply new_ok, _.
  - unfold s. destruct (flush ∅ demo_new) as [[??]?] eqn:E. eapply flush_le; [apply mbs_ok_empty|exact E].
  - rewrite dom_empty_L, (left_id_L ∅ (∪)). apply demo_short_keys.
  - exists c, h, s'. split; [exact E|]. assert (s' = s) as -> by (unfold s; by rewrite E). exact Hl.
Defined.

(** Collecting what an iteration visits. *)
Definition collect (k : bytes) (v : Z) (a : list (bytes * Z)) : result string unit * list (bytes * Z) :=
  (Ok tt, a ++ [(k, v)]).


(** Pages of two pairs: the second starts where the first ended. *)
Example demo_pages :
  let h := (hamt_run_ops memory_conf identity_hash demo_short demo_new ∅).1.2 in
  for_each_ranged memory_conf identity_hash collect 100 ∅ None (Some 2%nat) h [] =
    Some (Ok (2%nat, Some (demo_key 4)), [(demo_key 2, 20); (demo_key 3, 30)]) ∧
  for_each_ranged memory_conf identity_hash collect 100 ∅ (Some (demo_key 4)) (Some 2%nat) h [] =
    Some (Ok (2%nat, None), [(demo_key 4, 40); ([200], 50)]).
Proof. vm_compute. done. Qed.

(** A starting key that is not there: not always [StartKeyNotFound]. *)
Example start_key_not_found :
  iter_new_from memory_conf identity_hash ∅ (hamt_root demo_new) [1] = Err MaxDepth.
Proof. vm_compute. done. Qed.

(** Four keys with one hash: the fourth does not fit at any depth, and by the
    time that is known the bucket has been emptied. The call fails and
    the three keys that were there are gone. *)
Definition same_hash (k : bytes) : bytes := replicate 32 7.

Example failed_set_loses_bucket :
  let h := foldr (λ n h, (set memory_conf same_hash ∅ [n] n h).2) demo_new [1; 2; 3] in
  (get memory_conf same_hash ∅ [1] h).1 = Ok (Some 1) ∧
  let '(r, h) := set memory_conf same_hash ∅ [4] 4 h in
  r = Err MaxDepth ∧ (get memory_conf same_hash ∅ [1] h).1 = Ok None.
Proof. vm_compute. done. Qed.
