(* ===== verification/KamtDemo.v ===== *)
(** * KAMTs in memory

    The KAMT's theorems at a concrete store, and what the code does outside of
    them: [set_root] after a flush, blocks with short paths, keys with equal
    hashes. *)

From S2P Require Import Prelude Effects Address Types StateTree HamtBits HamtCommon MemoryEnv.
From S2P Require Import KamtExt KamtPaths Kamt KamtRep KamtMap KamtTop KamtIter KamtWalk.
From stdpp Require Import gmap strings list fin_maps sorting.
From Stdlib Require Import ZArith Lia.
#[local] Open Scope Z_scope.

#[local] Instance KPointerBlock_eq_dec {V} `{EqDecision V} : EqDecision (PointerBlock V).
Proof. solve_decision. Defined.
#[local] Instance KPointerBlock_countable {V} `{Countable V} : Countable (PointerBlock V).
Proof.
  apply (inj_countable' (λ p : PointerBlock V, match p with BVals kvs => inl kvs | BLink c l bz => inr (c, l, bz) end)
    (λ p : list (bytes * V) + (Cid * Z * bytes), match p with inl kvs => BVals kvs | inr (c, l, bz) => BLink c l bz end)).
  by intros [].
Defined.
#[local] Instance kdemo_block : Cbor (NodeBlock Z) := num_cbor.
#[local] Instance kdemo_block_spec : CborSpec (NodeBlock Z) := num_cbor_spec.

(** Keys that share their first three bytes and part in the fourth, as the
    slots of one array of a contract do; and one elsewhere. *)
Definition kdemo_key (n : Z) : bytes := [7; 0; 0; n].
Definition kdemo_ops : list (HamtOp Z) :=
  [HSet (kdemo_key 1) 10; HSet (kdemo_key 2) 20; HSet (kdemo_key 3) 30; HSet (kdemo_key 4) 40; HFlush;
   HSet [7; 0; 9] 50; HSet [200] 60; HGet (kdemo_key 4); HSetIfAbsent (kdemo_key 4) 41; HDelete [7; 0; 9]; HFlush;
   HDelete (kdemo_key 9); HContains (kdemo_key 1)].
(** The same content, in another order and without the detours. *)
Definition kdemo_short : list (HamtOp Z) :=
  [HSet [200] 60; HSet (kdemo_key 4) 40; HSet (kdemo_key 2) 20; HSet (kdemo_key 3) 30; HSet (kdemo_key 1) 10].

Definition kdemo_new : @Kamt Z := new_with_config.

Lemma kdemo_ops_keys : keys_apart identity_hash (set_keys kdemo_ops).
Proof. apply keys_apart_decide. vm_compute. reflexivity. Qed.
Lemma kdemo_short_keys : keys_apart identity_hash (set_keys kdemo_short).
Proof. apply keys_apart_decide. vm_compute. reflexivity. Qed.

(** Four keys under one link that skips the 20 bits they share after the first
    index; a fifth key that leaves the path after 15 of them splits it. *)
Definition kdemo_node : Node Z :=
  mkNode [3; 0; 0; 0] [Values [(kdemo_key 1, 10); (kdemo_key 2, 20); (kdemo_key 3, 30)]; Values [(kdemo_key 4, 40)]].
Example kdemo_extension :
  let h := (kamt_run_ops memory_conf identity_hash (take 4 kdemo_ops) kdemo_new ∅).1.2 in
  pointers (root h) = [Dirty kdemo_node (mkExtension 20 [224; 0; 0])] ∧
  pointers (root (set memory_conf identity_hash ∅ [7; 0; 9] 50 h).2) =
    [Dirty (mkNode [262145; 0; 0; 0] [Dirty kdemo_node (mkExtension 0 []); Values [([7; 0; 9], 50)]])
       (mkExtension 15 [224; 0])].
Proof. vm_compute. done. Qed.

Lemma kamt_refines_map_witness :
  ∃ h s, kamt_run_ops memory_conf identity_hash kdemo_ops kdemo_new ∅ =
    (Ok [AValue None; AValue None; AValue None; AValue None; ADone; AValue None; AValue None; AValue (Some 40);
         ABool false; AValue (Some 50); ADone; AValue None; ABool true], h, s).
Proof.
  destruct (kamt_refines_map memory_conf identity_hash kdemo_ops ∅ kdemo_new ∅) as (h & s & E & _).
  - apply mbs_ok_empty.
  - apply knew_ok, _.
  - rewrite dom_empty_L, (left_id_L ∅ (∪)). apply kdemo_ops_keys.
  - exists h, s. rewrite E. reflexivity.
Defined.

Lemma kamt_root_canonical_witness :
  ∃ r1 h1 t1 r2 h2 t2 c h1' t1' h2' t2',
    kamt_run_ops (BS := @env_bs memory_env) memory_conf identity_hash kdemo_ops kdemo_new ∅ = (Ok r1, h1, t1) ∧
    kamt_run_ops (BS := @env_bs memory_env) memory_conf identity_hash kdemo_short kdemo_new demo_store = (Ok r2, h2, t2) ∧
    flush (BS := @env_bs memory_env) t1 h1 = (Ok c, h1', t1') ∧ flush (BS := @env_bs memory_env) t2 h2 = (Ok c, h2', t2').
Proof.
  destruct (kamt_root_canonical memory_conf identity_hash kdemo_ops kdemo_short [HGet [200]] ∅ (demo_store : @Store (@env_bs memory_env)) ∅)
    as (r1 & h1 & t1 & r2 & h2 & t2 & c & h1' & t1' & h2' & t2' & E1 & E2 & F1 & F2 & _).
  - apply mbs_ok_empty.
  - apply demo_store_ok.
  - apply mbs_ok_empty.
  - apply kdemo_ops_keys.
  - apply kdemo_short_keys.
  - vm_compute. reflexivity.
  - apply keys_apart_decide. vm_compute. reflexivity.
  - exists r1, h1, t1, r2, h2, t2, c, h1', t1', h2', t2'. auto.
Defined.

(** Collecting what an iteration visits. *)
Definition kcollect (k : bytes) (v : Z) (a : list (bytes * Z)) : result string unit * list (bytes * Z) :=
  (Ok tt, a ++ [(k, v)]).
Definition kdemo_map : gmap bytes Z := (kmap_ops kdemo_short ∅).2.
Definition kdemo_h : @Kamt Z := (kamt_run_ops memory_conf identity_hash kdemo_short kdemo_new ∅).1.2.

Lemma kdemo_rep : krep memory_conf identity_hash ∅ kdemo_h kdemo_map.
Proof.
  destruct (kamt_run_ops_ok memory_conf identity_hash kdemo_short ∅ kdemo_new ∅) as (h' & s' & E & _ & _ & Hh).
  - apply mbs_ok_empty.
  - apply knew_ok, _.
  - rewrite dom_empty_L, (left_id_L ∅ (∪)). apply kdemo_short_keys.
  - assert (s' = ∅) as -> by (apply (f_equal snd) in E; symmetry; exact E). unfold kdemo_h. rewrite E. exact Hh.
Qed.

(** These keys are ordered as their padded forms. *)
Lemma kdemo_order : order_preserving identity_hash kdemo_map.
Proof.
  assert (bool_decide (Forall (λ k, Forall (λ k', be_value (identity_hash k) < be_value (identity_hash k') →
    key_lt k k' = true) (map_to_list kdemo_map).*1) (map_to_list kdemo_map).*1) = true) as Hb by (vm_compute; reflexivity).
  apply bool_decide_eq_true in Hb. rewrite Forall_forall in Hb. intros k k' [v Hk] [v' Hk'].
  specialize (Hb k ltac:(apply list_elem_of_fmap; exists (k, v); by rewrite elem_of_map_to_list)).
  rewrite Forall_forall in Hb. apply Hb. apply list_elem_of_fmap. exists (k', v').
  by rewrite elem_of_map_to_list.
Qed.

Lemma kamt_iteration_witness :
  ∃ l, l ≡ₚ map_to_list kdemo_map ∧ StronglySorted kv_lt l ∧
    ∃ N, ∀ fuel, (N ≤ fuel)%nat → for_each memory_conf kcollect fuel ∅ kdemo_h [] = Some (visit kcollect l []).
Proof.
  destruct (kamt_iteration memory_conf identity_hash ∅ kdemo_h kdemo_map kdemo_rep) as (l & Hp & Ho & Hf & _).
  exists l. split; [exact Hp|]. split; [apply Ho, kdemo_order|apply Hf].
Defined.

Example kdemo_walk :
  for_each memory_conf kcollect 100 ∅ kdemo_h [] = Some (Ok tt,
    [(kdemo_key 1, 10); (kdemo_key 2, 20); (kdemo_key 3, 30); (kdemo_key 4, 40); ([200], 60)]).
Proof. vm_compute. done. Qed.

(** [Identity] of a number writes its bytes in the machine's order: on a little
    endian machine the pairs of 1, 2, 256 and 512 do not come in ascending order
    of the numbers. *)
Definition kdemo_le (k : bytes) : bytes := identity_hash (rev k).
Example kdemo_not_ascending :
  let h := foldr (λ n h, (set memory_conf kdemo_le ∅ [0; 0; n / 256; n mod 256] n h).2) kdemo_new [1; 2; 256; 512] in
  for_each memory_conf kcollect 100 ∅ h [] =
    Some (Ok tt, [([0; 0; 1; 0], 256); ([0; 0; 2; 0], 512); ([0; 0; 0; 1], 1); ([0; 0; 0; 2], 2)]).
Proof. vm_compute. done. Qed.

(** A starting key that is not there: not always [StartKeyNotFound]. *)
Example kstart_key_not_found : iter_from memory_conf identity_hash ∅ [1] kdemo_new = Err MaxDepth.
Proof. vm_compute. done. Qed.

(** [set_root] to an older root after a flush: lookups see the old content, and
    the flush returns the newer root. *)
Example kdemo_set_root :
  let '(r0, h0, s0) := flush ∅ kdemo_new in
  let '(r1, h1, s1) := flush s0 (set memory_conf identity_hash s0 [1] 10 h0).2 in
  match r0, r1 with
  | Ok old, Ok new =>
      let '(r, h2) := set_root memory_conf s1 old h1 in
      old ≠ new ∧ r = Ok tt ∧ (get memory_conf identity_hash s1 [1] h2).1 = Ok None ∧ (flush s1 h2).1.1 = Ok new
  | _, _ => False
  end.
Proof. vm_compute. split_and!; done. Qed.

(** A block whose link claims an extension of five bits and has no bytes for it
    passes the checks of a load; a lookup through it reads out of bounds. *)
Definition short_block : NodeBlock Z := ([1], [BLink (one_block [0]) 5 []]).
Definition short_child : NodeBlock Z := ([1], [BVals [([0], 1)]]).
Definition short_store : gmap Cid bytes :=
  <[one_block (number short_block) := number short_block]> (<[one_block [0] := number short_child]> ∅).
Example short_path_out_of_bounds :
  match load_with_config (BS := @env_bs memory_env) memory_conf short_store (one_block (number short_block)) with
  | Ok h => (get memory_conf identity_hash short_store [0] h).1 = Err out_of_bounds
  | Err _ => False
  end.
Proof. vm_compute. done. Qed.

(** Four keys with one hash: the fourth does not fit at any depth, and by the
    time that is known the bucket has been emptied. The call fails and
    the three keys that were there are gone. *)
Definition kdemo_same (k : bytes) : bytes := replicate 32 7.
Example kfailed_set_loses_bucket :
  let h := foldr (λ n h, (set memory_conf kdemo_same ∅ [n] n h).2) kdemo_new [1; 2; 3] in
  (get memory_conf kdemo_same ∅ [1] h).1 = Ok (Some 1) ∧
  let '(r, h) := set memory_conf kdemo_same ∅ [4] 4 h in
  r = Err MaxDepth ∧ (get memory_conf kdemo_same ∅ [1] h).1 = Ok None.
Proof. vm_compute. done. Qed.
