(* ===== verification/AmtDemo.v ===== *)
(** * AMTs in memory

    The AMT's theorems at a concrete store, and what the code does where they do
    not apply: walks that start in a gap, differences of AMTs whose
    ranges do not meet, callbacks that fail, bit width 0. *)

From S2P Require Import Prelude Effects Address Types StateTree MemoryEnv Machine Buffered.
From S2P Require Import Amt AmtRep AmtMap AmtTop AmtIter AmtDiff AmtEvents.
From stdpp Require Import gmap strings list fin_maps.
From Stdlib Require Import ZArith Lia.
#[local] Open Scope Z_scope.

#[local] Instance demo_codec {V} `{Countable V} : AmtCodec V :=
  {| amt_cbor_node := num_cbor; amt_cbor_v3 := num_cbor; amt_cbor_v0 := num_cbor |}.
#[local] Instance demo_codec_spec {V} `{Countable V} : AmtCodecSpec V :=
  Build_AmtCodecSpec V _ num_cbor_spec num_cbor_spec num_cbor_spec.
#[local] Instance demo_value : Cbor Z := num_cbor.
#[local] Instance demo_value_spec : CborSpec Z := num_cbor_spec.

#[local] Existing Instance memory_bs.
#[local] Existing Instance memory_bs_spec.

Lemma demo_width : 1 ≤ 3 ≤ 63.
Proof. lia. Qed.
Definition demo_amt : AmtImpl Z := new_with_bit_width 3.
Definition demo_fill : list (AmtOp Z) := [ASet 3 30; ASet 16 160; ASet 17 170].
Definition demo_filled : AmtImpl Z := (amt_ops V3 demo_fill demo_amt ∅).1.2.
Definition demo_content : gmap Z Z := (ref_ops demo_fill ∅).2.

Lemma demo_fill_rep ops : Forall (λ op, Forall (λ i, 0 ≤ i) (op_indices op)) ops →
  (amt_ops V3 ops demo_amt ∅).2 = ∅ → amt_rep V3 3 ∅ (amt_ops V3 ops demo_amt ∅).1.2 (ref_ops ops ∅).2.
Proof.
  intros Hops Hst. destruct (amt_ops_ok (BSS := memory_bs_spec) V3 3 demo_width ops ∅ demo_amt ∅ mbs_ok_empty (amt_new_ok V3 3 demo_width ∅) Hops)
    as (t' & s' & E & _ & _ & Ht). rewrite E in Hst |- *. simpl in Hst. subst s'. exact Ht.
Qed.
Lemma demo_filled_rep : amt_rep V3 3 ∅ demo_filled demo_content.
Proof. apply demo_fill_rep; [repeat constructor; lia|reflexivity]. Qed.

(** Growing, overwriting, deleting with collapse, batches, an index out of range. *)
Lemma amt_refines_map_witness :
  ∃ t s, amt_ops V3 (demo_fill ++ [ASet 3 31; AGet 3; AGet 100; ADelete 16; ADelete 17; ACount; ABatchSet [7; 8];
      AForEachMut (λ i v, if i =? 1 then Some (v + 1) else None); AGet 1; ABatchDelete [1; 0; 5] true; AGet u64_max]) demo_amt ∅ =
    ([Ok AmtDone; Ok AmtDone; Ok AmtDone; Ok AmtDone; Ok (AmtValue (Some 31)); Ok (AmtValue None); Ok (AmtValue (Some 160));
      Ok (AmtValue (Some 170)); Ok (AmtCount 1); Ok AmtDone; Ok AmtDone; Ok (AmtValue (Some 9));
      Err (AmtDynamic "no such index {} in Amt for batch delete"); Err (OutOfRange u64_max)], t, s) ∧ count (root t) = 1.
Proof.
  destruct (amt_refines_map V3 3 demo_width (demo_fill ++ [ASet 3 31; AGet 3; AGet 100; ADelete 16; ADelete 17; ACount; ABatchSet [7; 8];
      AForEachMut (λ i v, if i =? 1 then Some (v + 1) else None); AGet 1; ABatchDelete [1; 0; 5] true; AGet u64_max]) ∅ demo_amt ∅)
    as (t & s & E & _ & Hc & _).
  - apply mbs_ok_empty.
  - apply amt_new_ok. exact demo_width.
  - repeat constructor; unfold u64_max; lia.
  - exists t, s. rewrite E, Hc. split; reflexivity.
Defined.

(** The same content by two histories. *)
Definition demo_detour : list (AmtOp Z) := [ASet 100 1; ASet 17 170; ASet 3 3; ASet 16 160; ADelete 100; ASet 3 30].
Lemma amt_root_determined_witness :
  ∃ c t1 s1 t2 s2, flush V3 ∅ demo_filled = (Ok c, t1, s1) ∧ flush V3 ∅ (amt_ops V3 demo_detour demo_amt ∅).1.2 = (Ok c, t2, s2) ∧
    ∃ t, load V3 s1 c = Ok t ∧ amt_rep V3 3 s1 t demo_content.
Proof.
  destruct (amt_root_determined V3 3 demo_width (λ _, eq_refl) ∅ ∅ demo_filled (amt_ops V3 demo_detour demo_amt ∅).1.2 demo_content)
    as (c & t1 & s1 & t2 & s2 & E1 & E2 & Hl).
  - apply mbs_ok_empty.
  - apply mbs_ok_empty.
  - apply demo_filled_rep.
  - apply (demo_fill_rep demo_detour); [repeat constructor; lia|reflexivity].
  - exists c, t1, s1, t2, s2. split; [exact E1|]. split; [exact E2|]. apply Hl. reflexivity.
Defined.

Definition push_pair (k v : Z) (a : list (Z * Z)) : result string bool * list (Z * Z) := (Ok true, a ++ [(k, v)]).
Lemma amt_iteration_witness :
  (∀ k v, (k, v) ∈ entries_from demo_content 16 ↔ 16 ≤ k ∧ demo_content !! k = Some v) ∧
  ∃ N, ∀ fuel, (N ≤ fuel)%nat → for_each_while_ranged push_pair fuel ∅ (Some 16) (Some 1) demo_filled [] =
    Some (list_ranged push_pair (Some 1) 0 true (entries_from demo_content 16) []).
Proof.
  destruct (amt_iteration V3 3 demo_width push_pair ∅ demo_filled demo_content [] 16 (Some 1)) as (_ & Hel & N & HN).
  - apply demo_filled_rep.
  - lia.
  - right. left. by exists 160.
  - split; [exact Hel|]. exists N. intros fuel Hf. apply (HN fuel Hf).
Defined.
Example pages : for_each_while_ranged push_pair 100 ∅ (Some 16) (Some 1) demo_filled [] = Some (Ok (1, Some 17), [(16, 160)]) ∧
  for_each_while_ranged push_pair 100 ∅ (Some 17) (Some 1) demo_filled [] = Some (Ok (1, None), [(17, 170)]).
Proof. split; vm_compute; reflexivity. Qed.

(** A walk that starts in a gap reports wrong indices: 16 and 17 as 17 and 18. *)
Example start_in_gap_shifts :
  for_each_while_ranged push_pair 100 ∅ (Some 9) None demo_filled [] = Some (Ok (2, None), [(17, 160); (18, 170)]).
Proof. vm_compute. reflexivity. Qed.

Lemma amt_diff_exact_witness :
  let t2 := (amt_ops V3 [ASet 3 31; ASet 16 160; ASet 500 5] demo_amt ∅).1.2 in
  let m2 := (ref_ops [ASet 3 31; ASet 16 160; ASet 500 5] ∅).2 in
  (∃ N, ∀ fuel, (N ≤ fuel)%nat → diff fuel ∅ demo_filled ∅ t2 = Some (Ok (all_changes demo_content m2))) ∧
  mkChange 3 (Some 30) (Some 31) ∈ all_changes demo_content m2.
Proof.
  intros t2 m2. destruct (amt_diff_exact (BSS1 := memory_bs_spec) (BSS2 := memory_bs_spec) (λ d d', num_digest_inj BLAKE2B_256 d d') V3 3 demo_width ∅ demo_filled demo_content ∅ t2 m2) as [Hd He].
  - apply demo_filled_rep.
  - apply (demo_fill_rep [ASet 3 31; ASet 16 160; ASet 500 5]); [repeat constructor; lia|reflexivity].
  - right. right. right. left. split; [vm_compute; lia|]. exists 3. split; [by exists 31|reflexivity].
  - split; [exact Hd|]. apply He. split; [reflexivity|]. split; [reflexivity|done].
Defined.
Example diff_run : diff 100 ∅ demo_filled ∅ (amt_ops V3 [ASet 3 31; ASet 16 160; ASet 500 5] demo_amt ∅).1.2 =
  Some (Ok [mkChange 3 (Some 30) (Some 31); mkChange 17 (Some 170) None; mkChange 500 None (Some 5)]).
Proof. vm_compute. reflexivity. Qed.

(** Without an entry in the range of the lower AMT its removals are missing. *)
Example diff_misses_removals :
  diff 100 ∅ (amt_ops V3 [ASet 0 1] demo_amt ∅).1.2 ∅ (amt_ops V3 [ASet 100 2] demo_amt ∅).1.2 =
  Some (Ok [mkChange 100 None (Some 2)]).
Proof. vm_compute. reflexivity. Qed.

(** A callback that mutates a value and then fails: the value has changed, and
    the AMT still answers with the CID it had before. *)
Example failed_mutation_keeps_cid :
  let '(r, t, s) := flush V3 ∅ (amt_ops V3 [ASet 0 1] demo_amt ∅).1.2 in
  let '(_, t', _) := for_each_mut (λ i v (_ : unit), (Err "failed"%string, Some 2, tt)) s t tt in
  (get s 0 t').1 = Ok (Some 2) ∧ (flush V3 s t').1.1 = r ∧
  match r with Ok c => match load V3 s c with Ok t'' => (get s 0 t'').1 = Ok (Some 1) | Err _ => False end | Err _ => False end.
Proof. vm_compute. split_and!; reflexivity. Qed.

(** With bit width 0 the range never grows, and [set] beyond index 0 does not end. *)
Example zero_bit_width_diverges fuel (r : RootImpl Z) : bit_width r = 0 → grow fuel 1 r = Err (Panic "the loop does not end").
Proof. revert r. induction fuel as [|fuel IH]; intros r E; cbn [grow]; rewrite E; [done|]. by apply IH. Qed.

#[local] Instance Entry_eq_dec : EqDecision Entry.
Proof. solve_decision. Defined.
#[local] Instance Entry_countable : Countable Entry.
Proof. apply (inj_countable' (λ e, (ee_flags e, ee_key e, ee_codec e, ee_value e)) (λ '(a, b, c, d), mkEventEntry a b c d)). by intros []. Defined.
#[local] Instance StampedEvent_eq_dec : EqDecision StampedEvent.
Proof. solve_decision. Defined.
#[local] Instance StampedEvent_countable : Countable StampedEvent.
Proof. apply (inj_countable' (λ e, (ev_emitter e, ev_entries e)) (λ '(a, b), mkStampedEvent a b)). by intros []. Defined.

Lemma events_root_real_witness :
  let evs := [mkStampedEvent 100 []; mkStampedEvent 101 [mkEventEntry 3 [107] 0x55 [1; 2]]] in
  ∃ (c : Cid) (s : MemoryBlockstore) (t t' : AmtImpl StampedEvent), events_root evs = Ok c ∧
    new_from_iter_with_bit_width (BS := memory_bs) V3 (∅ : MemoryBlockstore) EVENTS_AMT_BITWIDTH evs = (Ok c, s) ∧ load (BS := memory_bs) V3 s c = Ok t ∧
    get (BS := memory_bs) s 1 t = (Ok (evs !! 1%nat), t').
Proof.
  intros evs. destruct (events_root_real (BSS := memory_bs_spec) ∅ evs) as (c & s & t & E1 & _ & E2 & E3 & _ & _ & Hg).
  - apply mbs_ok_empty.
  - done.
  - unfold MAX_INDEX, u64_max. simpl. lia.
  - destruct (Hg 1%nat ltac:(simpl; lia)) as [t' E4]. exists c, s, t, t'. split; [exact E1|]. split; [exact E2|]. split; [exact E3|exact E4].
Defined.
