(* ===== verification/Depth.v ===== *)
(** * Nested calls are bounded by the network's call depth

    [call_actor] recurses through the guests it runs; the model gives it fuel.
    Every level of the recursion is a stack frame, and frames are refused at
    [max_call_depth], so fuel beyond the remaining depth changes nothing. *)

From S2P Require Import Prelude Effects Gas PriceList Address HistoryMap Types StateTree.
From S2P Require Import Access Blocks Machine Ipld Host CallManager Frame Kernel Syscalls.
From S2P Require Import Invocation Carry.
From stdpp Require Import gmap strings list fin_maps.
From Stdlib Require Import ZArith Lia.
#[local] Open Scope Z_scope.

(** Two computations that agree on the states satisfying [D]. *)
Definition agree {Er S A} (D : S → Prop) (a b : ME Er S A) : Prop := ∀ s, D s → a s = b s.
Definition keeps {Er S A} (D : S → Prop) (a : ME Er S A) : Prop := ∀ s, D s → D (a s).2.

Lemma agree_refl {Er S A} (D : S → Prop) (a : ME Er S A) : agree D a a.
Proof. by intros s _. Qed.
Lemma agree_bind {Er S A B} D (a b : ME Er S A) (k k' : A → ME Er S B) :
  keeps D a → agree D a b → (∀ x, agree D (k x) (k' x)) → agree D (a ≫= k) (b ≫= k').
Proof.
  intros Hk Hab Hkk s Hs. unfold mbind, M_bind. rewrite <-(Hab s Hs).
  specialize (Hk s Hs). destruct (a s) as [[x|e] s']; [|done]. by apply Hkk.
Qed.
Lemma bind_cong {Er S A B} (a b : ME Er S A) (k : A → ME Er S B) s :
  a s = b s → (a ≫= k) s = (b ≫= k) s.
Proof. intros Hab. unfold mbind, M_bind. by rewrite Hab. Qed.
Lemma agree_map_err {Er Er' S A} D (f : Er → Er') (a b : ME Er S A) :
  agree D a b → agree D (map_err f a) (map_err f b).
Proof. intros Hab s Hs. unfold map_err. by rewrite (Hab s Hs). Qed.
Lemma agree_attempt {Er Er' S A} D (a b : ME Er S A) :
  agree D a b → agree D (attempt (Er' := Er') a) (attempt b).
Proof. intros Hab s Hs. unfold attempt. by rewrite (Hab s Hs). Qed.
Lemma agree_zoom {Er S T A} (D : S → Prop) (D' : T → Prop) (g : S → T) u (a b : ME Er T A) :
  (∀ s, D s → D' (g s)) → agree D' a b → agree D (zoom g u a) (zoom g u b).
Proof. intros Hg Hab s Hs. unfold zoom. by rewrite (Hab _ (Hg s Hs)). Qed.

Section depth.
Context `{H : Host} {ES : EnvSpec}.

(** The relation that only keeps the frame. *)
Definition any (c c' : CM) : Prop := True.
#[export] Instance any_adm : Adm false any.
Proof. by repeat split. Qed.

Section at_depth.
Context (d : Z) (k0 : CallConst).

Definition DC (c : CM) : Prop := cm_depth c = d ∧ cm_const c = k0.
Definition DK (k : Kernel) : Prop := DC (k_cm k).
Definition DX (x : Ctx) : Prop := DK (ctx_kernel x).
Definition DI (i : Inv) : Prop := DK (iv_kernel i).

Lemma frame_DC c c' : cm_frame c c' → DC c → DC c'.
Proof. intros (Hc&_&_&_&_&Hd&_) [? ?]. split; congruence. Qed.
Lemma keeps_CM {A} (a : M CM A) : pres cm_frame a → keeps DC a.
Proof. intros Hp c. by apply frame_DC. Qed.
Lemma keeps_K {A} (a : M Kernel A) : pres (krel false any) a → keeps DK a.
Proof. intros Hp k. apply frame_DC. by destruct (Hp k) as (_ & _ & _ & [? _] & _). Qed.
Lemma keeps_X {Er A} (a : ME Er Ctx A) : pres (crel false any) a → keeps DX a.
Proof. intros Hp x. apply frame_DC. by destruct (Hp x) as (_ & _ & _ & [? _] & _). Qed.
Lemma keeps_I {A} (a : ME Abort Inv A) : pres (irel false any) a → keeps DI a.
Proof. intros Hp x. apply frame_DC. by destruct (Hp x) as (_ & _ & _ & [? _] & _). Qed.

Context (call call' : CallFn).
Context (Hc : call_carries false any call) (Hc' : call_carries false any call').
Context (Heq : ∀ from to e p v l r, agree DC (call from to e p v l r) (call' from to e p v l r)).

Lemma agree_transaction f f' : agree DC f f' → agree DC (with_transaction f) (with_transaction f').
Proof.
  intros Hf c Hd. unfold with_transaction. rewrite !(bind_ok _ _ c tt (cm_begin c).2) by done.
  unfold mbind at 1, M_bind at 1, attempt at 1. rewrite (Hf (cm_begin c).2) by apply Hd. done.
Qed.

Lemma agree_kcm {A} (a b : M CM A) : agree DC a b → agree DK (kcm a) (kcm b).
Proof. by apply agree_zoom. Qed.

(** Follow two copies of the same code to the calls. *)
Ltac astep :=
  match goal with
  | |- agree _ ?a ?a => apply agree_refl
  | |- keeps DK _ => solve [apply keeps_K; solve_k]
  | |- keeps DC _ => solve [apply keeps_CM; solve_pres]
  | |- agree _ (mbind _ _) (mbind _ _) => apply agree_bind; [| |intros ?]
  | |- agree DK (kcm _) (kcm _) => apply agree_kcm
  | |- agree _ (with_transaction _) (with_transaction _) => apply agree_transaction
  | |- agree _ (call _ _ _ _ _ _ _) (call' _ _ _ _ _ _ _) => apply Heq
  | |- agree _ (let '(_, _) := ?p in _) _ => destruct p
  | |- agree _ (match ?x with _ => _ end) _ => destruct x
  end.
Lemma rel_call from to e p v l r : pres (cm_rel any) (call from to e p v l r).
Proof. by apply Hc. Qed.
Lemma frame_call from to e p v l r : pres cm_frame (call from to e p v l r).
Proof. intros c. apply rel_call. Qed.
#[local] Hint Resolve krel_params rel_call frame_call : pres.

Lemma agree_send to m p v l f : agree DK (k_send call to m p v l f) (k_send call' to m p v l f).
Proof. unfold k_send. repeat astep. Qed.
Lemma agree_upgrade c p : agree DK (k_upgrade_actor call c p) (k_upgrade_actor call' c p).
Proof.
  unfold k_upgrade_actor. repeat astep. apply keeps_K, krel_cm, (rel_transaction false any).
  apply pres_bind; [exact _|by apply (rel_update false any)|intros; apply rel_call].
Qed.

(** ** System calls and guests *)

Lemma agree_kern {A} (a b : M Kernel A) : agree DK a b → agree DX (kern a) (kern b).
Proof. by apply agree_zoom. Qed.

Lemma agree_dispatch req : agree DX (dispatch call req) (dispatch call' req).
Proof.
  destruct req; try apply agree_refl; simpl.
  - unfold sys_upgrade_actor. apply agree_bind; [|apply agree_refl|intros c].
    { apply keeps_X, pres_map_err; try exact _. apply (crel_rd false any). }
    apply agree_bind; [| |intros r; apply agree_refl].
    + apply keeps_X, pres_map_err; try exact _. apply crel_kern; by apply (krel_upgrade false any call Hc).
    + apply agree_map_err, agree_kern, agree_upgrade.
  - apply agree_map_err. unfold sys_send.
    apply agree_bind; [apply keeps_X, (crel_rd false any)|apply agree_refl|intros a].
    destruct (negb _); [apply agree_refl|].
    apply agree_bind; [apply keeps_X, crel_kern; by apply (krel_send false any call Hc)|
      apply agree_kern, agree_send|intros r; apply agree_refl].
Qed.

Lemma agree_link mem req : agree DI (link_syscall call mem req) (link_syscall call' mem req).
Proof.
  unfold link_syscall. apply agree_bind; [apply keeps_I; apply (irel_exec false any)|apply agree_refl|intros _].
  apply agree_bind; [apply keeps_I; apply (irel_syscall_gas false any)|apply agree_refl|intros _].
  destruct (no_space req mem); [apply agree_refl|].
  intros i Hi. unfold gets. rewrite !(bind_ok _ _ i (iv_kernel i) i) by done.
  by rewrite (agree_dispatch req (mkCtx _ (iv_kernel i) mem)).
Qed.

Lemma agree_run g : agree DI (run_guest call g) (run_guest call' g).
Proof.
  induction g as [gas ret|gas t|cur des mx k IH|cur des mx k IH|gas mem req k IH]; simpl;
    [apply agree_refl|apply agree_refl|..].
  - apply agree_bind; [|apply agree_refl|done].
    apply keeps_I, (irel_limited false any). intros. apply lim_le_grow_instance.
  - apply agree_bind; [|apply agree_refl|done].
    apply keeps_I, (irel_limited false any). intros. apply lim_le_grow_table.
  - apply agree_bind; [by intros i|apply agree_refl|intros _].
    apply agree_bind; [apply keeps_I; by apply (irel_link false any call Hc)|apply agree_link|intros [err mem']].
    apply agree_bind; [by intros i|apply agree_refl|intros g1; apply IH].
Qed.

Lemma keeps_run g : keeps DI (run_guest call g).
Proof. apply keeps_I. by apply (irel_run false any call Hc). Qed.
Lemma keeps_attempt_run g : keeps DI (attempt (Er' := Abort) (run_guest call g)).
Proof. intros i Hi. unfold attempt. pose proof (keeps_run g i Hi). by destruct (run_guest call g i). Qed.

Lemma agree_instantiate code : agree DI (instantiate call code) (instantiate call' code).
Proof.
  unfold instantiate. apply agree_bind; [by intros i|apply agree_refl|intros c].
  destruct (host_module _ _) as [[m|]|]; [|apply agree_refl..].
  apply agree_bind; [apply keeps_I; apply (irel_init false any)|apply agree_refl|intros _].
  apply agree_bind; [intros i ?; by destruct (mod_links m)|apply agree_refl|intros _].
  apply agree_bind; [apply keeps_I; apply (irel_update false any)|apply agree_refl|intros _].
  apply agree_bind; [by intros i|apply agree_refl|intros g1].
  apply agree_bind; [apply keeps_attempt_run|apply agree_attempt, agree_run|intros r; apply agree_refl].
Qed.

Lemma agree_invoke code e p ex : agree DI (invoke call code e p ex) (invoke call' code e p ex).
Proof.
  unfold invoke. apply agree_bind; [apply keeps_I; by apply (irel_instantiate false any call Hc)|apply agree_instantiate|intros o].
  apply agree_bind; [by intros i|apply agree_refl|intros m].
  destruct (mod_func m _); [|apply agree_refl].
  apply agree_bind; [apply keeps_I; apply (irel_update false any)|apply agree_refl|intros _].
  apply agree_bind; [by intros i|apply agree_refl|intros g0].
  apply agree_bind; [apply keeps_attempt_run|apply agree_attempt, agree_run|intros r; apply agree_refl].
Qed.

(** ** Calls *)

Lemma agree_callee br code from to e p ex v r :
  agree DC (run_callee call br code from to e p ex v r) (run_callee call' br code from to e p ex v r).
Proof.
  intros c Hd. unfold run_callee, gets. rewrite !(bind_ok _ _ c c c) by done.
  by rewrite (agree_invoke code e p ex (new_store (mkKernel _ from to (entry_method_num e) v r c br))).
Qed.

Lemma agree_resolved from to e params v r :
  agree DC (call_actor_resolved call from to e params v r) (call_actor_resolved call' from to e params v r).
Proof. unfold call_actor_resolved. repeat astep. apply agree_callee. Qed.

Lemma frame_resolved from to e params v r : pres cm_frame (call_actor_resolved call from to e params v r).
Proof. intros c. by apply (rel_call_resolved false any call Hc). Qed.

Lemma agree_create_account a :
  agree DC (create_account_actor_from_send call a) (create_account_actor_from_send call' a).
Proof.
  unfold create_account_actor_from_send. repeat astep; [|apply agree_resolved].
  apply keeps_CM, frame_resolved.
Qed.

Lemma agree_unchecked from to e params v r :
  agree DC (call_actor_unchecked call from to e params v r)
           (call_actor_unchecked call' from to e params v r).
Proof.
  unfold call_actor_unchecked.
  apply agree_bind; [apply keeps_CM, frame_resolve|apply agree_refl|intros o].
  apply agree_bind; [| |intros id].
  - apply keeps_CM.
    assert (pres cm_frame (create_account_actor_from_send call to)) as Hca.
    { intros c0. by apply (rel_create_account false any call Hc). }
    assert (pres cm_frame (create_placeholder_actor_from_send to)) as Hcp.
    { intros c0. by apply (rel_create_placeholder false any). }
    destruct o; [solve_pres|]. destruct to, r; solve_pres.
  - destruct o; [apply agree_refl|]. destruct to, r;
      lazymatch goal with
      | |- agree _ (create_account_actor_from_send _ _) _ => apply agree_create_account
      | |- _ => apply agree_refl
      end.
  - apply agree_bind; [by intros c|apply agree_refl|intros _].
    apply agree_bind; [|apply agree_attempt, agree_resolved|intros res].
    + intros c Hd. unfold attempt. pose proof (frame_DC _ _ (frame_resolved from id e params v r c) Hd) as Hd'.
      by destruct (call_actor_resolved _ _ _ _ _ _ _ c).
    + apply agree_refl.
Qed.
End at_depth.

(** One level: the level below is only used one frame deeper. *)
Lemma agree_step d k0 call call' from to e params v l r :
  call_carries false any call → call_carries false any call' →
  (d < max_call_depth (mc_network (cc_context k0)) →
   ∀ from to e p v l r, agree (DC (d + 1) k0) (call from to e p v l r) (call' from to e p v l r)) →
  agree (DC d k0) (call_actor_step call from to e params v l r)
                  (call_actor_step call' from to e params v l r).
Proof.
  intros Hc Hc' Heq. unfold call_actor_step.
  assert (∀ c, DC d k0 c →
    with_stack_frame (call_actor_unchecked call from to e params v r) c =
    with_stack_frame (call_actor_unchecked call' from to e params v r) c) as Hsf.
  { intros c [Hd Hk]. unfold with_stack_frame, gets, mbind, M_bind, modify, attempt, limiter_with_stack_frame.
    destruct (Z.leb_spec (max_call_depth (cm_network c)) (cm_depth c)) as [?|Hlt]; [done|].
    unfold cm_network, cm_context in Hlt. rewrite Hk, Hd in Hlt.
    rewrite (agree_unchecked (d + 1) k0 call call' Hc (Heq Hlt) from to e params v r); [done|].
    split; simpl; congruence. }
  apply agree_bind; [|apply agree_refl|intros _].
  { apply keeps_CM. intros c. by apply (rel_trace_call false any). }
  apply agree_bind; [by destruct l; intros c|apply agree_refl|intros _].
  intros c Hd. apply bind_cong. unfold attempt. rewrite (Hsf c); [done|]. exact Hd.
Qed.

Lemma call_actor_enough n1 : ∀ n2 from to e params v l r c,
  (Z.to_nat (max_call_depth (cm_network c) - cm_depth c) < n1)%nat →
  (Z.to_nat (max_call_depth (cm_network c) - cm_depth c) < n2)%nat →
  call_actor n1 from to e params v l r c = call_actor n2 from to e params v l r c.
Proof.
  induction n1 as [|n1 IH]; intros [|n2] from to e params v l r c H1 H2; try lia. simpl.
  apply (agree_step (cm_depth c) (cm_const c)); [apply rel_call_actor; exact _..| |done].
  intros Hlt from' to' e' p' v' l' r' c' [Hd Hk].
  assert (cm_network c' = cm_network c) as En by (unfold cm_network, cm_context; by rewrite Hk).
  fold (cm_context c) in Hlt. fold (cm_network c) in Hlt. apply IH; rewrite En, Hd; lia.
Qed.
End depth.
