(* ===== verification/Demo.v ===== *)
(** * A concrete machine

    A host with one actor code, whose method sends ten tokens to the burnt
    funds actor, on the small chain state of [MemoryEnv]. The witnesses of the
    theorems about calls and messages run in it. *)

From S2P Require Import Prelude Effects Gas PriceList Address HistoryMap Types Sector Proofs StateTree.
From S2P Require Import Access Blocks Machine Ipld Host CallManager Frame Kernel Syscalls.
From S2P Require Import Invocation Executor MemoryEnv Supply.
From stdpp Require Import gmap strings list fin_maps.
From Stdlib Require Import ZArith Lia.
#[local] Open Scope Z_scope.

(** The address f099 at the front of the memory; the result goes to offset 100. *)
Definition demo_memory : bytes := [0; 99] ++ replicate 198 0.

Definition demo_guest (gas : Z) : Guest :=
  GSyscall gas demo_memory (SendSend 100 0 2 METHOD_SEND 0 0 10 u64_max 0)
    (λ err _ g, if err =? 0 then GReturn g 0 else GTrap g (TrapExit "unreachable")).

Definition demo_module (guest : Z → Guest) : Module_ :=
  mkModule (Some 1) None true (λ g, GReturn g 0)
    (λ f, if String.eqb f "invoke" then Some (λ _ g, guest g) else None).

(** A proofs library that accepts the proof [1], panics on the empty proof and
    sums up pieces. *)
Definition demo_answer (proof : bytes) : option (result string bool) :=
  match proof with [] => None | b :: _ => Some (Ok (b =? 1)) end.
#[local] Instance demo_proofs : ProofsApi := {|
  api_verify_window_post _ ps _ _ := demo_answer (mjoin (snd <$> ps));
  api_verify_seal _ _ _ _ _ _ _ proof := demo_answer proof;
  api_get_seal_inputs _ commr _ _ _ _ _ := Some (Ok [commr]);
  api_verify_aggregate _ _ proof _ _ _ := demo_answer proof;
  api_verify_update _ proof _ _ _ := demo_answer proof;
  api_compute_comm_d _ ps := Some (Ok (replicate 32 (Z.of_nat (length ps))));
|}.
Definition demo_seal (b : Z) : SealVerifyInfo :=
  mkSealVerifyInfo StackedDRG2KiBV1P1 (mkSectorID 7 1) [] (replicate 32 0) (replicate 32 0) [b]
    (mkCid FIL_COMMITMENT_SEALED POSEIDON_BLS12_381_A1_FC1 (replicate 32 2))
    (mkCid FIL_COMMITMENT_UNSEALED SHA2_256_TRUNC254_PADDED (replicate 32 3)).

(** A host whose one actor runs [guest]. *)
Definition host_running (guest : Z → Guest) : Host := {|
  host_cid_parser := short_cid_parser;
  host_module _ c := Ok (if bool_decide (c = demo_code 7) then Some (demo_module guest) else None);
  host_cid_bytes c := cid_codec c :: (if cid_hash_code c =? BLAKE2B_256 then 1 else 0) :: cid_digest c;
  host_address_hash bz := take 20 (bz ++ replicate 20 0);
  host_upgrade_info c := Ok (number c);
  host_events_root evs := Ok (demo_code (Z.of_nat (length evs)));
  host_from_utf8 _ := Some ""%string;
  host_verify_signature _ _ _ _ := Ok true;
  host_verify_bls_aggregate _ _ _ := Ok true;
  host_recover_secp _ _ := Err "invalid signature"%string;
  host_chain_randomness _ := Ok (replicate 32 4);
  host_beacon_randomness _ := Ok (replicate 32 4);
  host_tipset_cid _ := Ok (demo_code 0);
  host_verify_consensus_fault h1 h2 _ :=
    Ok (if bool_decide (h1 = h2) then None else Some (mkConsensusFault (ID 7) 3 DoubleForkMining), 0);
  host_proofs := demo_proofs;
  host_cbor_pieces bz := Some (Ok (replicate (length bz) (demo_piece 128)));
  host_cbor_window_post _ := Some (Err "not a struct"%string);
  host_cbor_aggregate _ := Some (Err "not a struct"%string);
  host_cbor_replica _ := Some (Err "not a struct"%string);
  host_cbor_seals bz := Some (Ok (demo_seal <$> bz));
|}.
#[export] Instance demo_host : Host := host_running demo_guest.

(** A guest that exits with the handle of a block that does not exist. *)
Definition exit_guest (gas : Z) : Guest :=
  GSyscall gas demo_memory (VmExit 20 77 0 0) (λ _ _ g, GReturn g 0).

Definition demo_manifest : Manifest :=
  mkManifest (demo_code 5) (demo_code 6) (demo_code 1) (demo_code 2) (demo_code 3) (demo_code 4)
    (list_to_map [(1, demo_code 1); (2, demo_code 2); (3, demo_code 3); (4, demo_code 4);
                  (5, demo_code 5); (6, demo_code 6)])
    (list_to_map [(demo_code 1, 1); (demo_code 2, 2); (demo_code 3, 3); (demo_code 4, 4);
                  (demo_code 5, 5); (demo_code 6, 6)]).

Definition demo_network : NetworkConfig :=
  mkNetworkConfig 25 314 1024 2048 (512 * 2 ^ 20) (2 * 2 ^ 30) (2 ^ 20) None false WATERMELON_PRICES [].
Definition demo_context : MachineContext :=
  mkMachineContext demo_network 1000 1700000000 100 EMPTY_ARR_CID TOTAL_FILECOIN false.

Definition demo_cm : CM :=
  cm_new demo_tree demo_context demo_manifest 10000000000 50 (ID 50) (Some 50) (ID 50) 0 0.

Lemma demo_key id j : 0 ≤ j < 128 → actor_key j = actor_key id → j = id.
Proof.
  intros Hj. unfold actor_key, to_bytes, to_raw_bytes, new_id, to_leb_bytes.
  cbn [protocol protocol_byte varint_encode env_varint memory_env leb128 leb_encode].
  destruct (Z.ltb_spec j 128); [|lia]. destruct (Z.ltb_spec id 128); [by intros [= ?]|].
  destruct (id / 128 <? 128); intros [= ?].
Qed.

Lemma demo_bm_at id : demo_hamt !! actor_key id = demo_bm !! id.
Proof.
  unfold demo_hamt, demo_bm.
  assert (∀ j a (h : gmap bytes ActorState) (b : gmap ActorID ActorState), 0 ≤ j < 128 →
    h !! actor_key id = b !! id → <[actor_key j := a]> h !! actor_key id = <[j := a]> b !! id) as Hk.
  { intros j a h b Hj Hhb. destruct (decide (j = id)) as [->|Hne]; [by rewrite !lookup_insert_eq|].
    rewrite !lookup_insert_ne; [done|done|]. by intros Hk%demo_key. }
  repeat (apply Hk; [lia|]). by rewrite !lookup_empty.
Qed.

Lemma demo_cm_inv : cm_inv demo_hamt demo_cm.
Proof. exact demo_inv. Qed.
Lemma demo_solvent : solvent demo_hamt demo_cm.
Proof.
  intros id. unfold cm_at, actor_at, cache_at. cbn [cm_tree demo_cm cm_new demo_tree actor_cache hm_default hm_map].
  rewrite lookup_empty, demo_bm_at. unfold demo_bm. rewrite !lookup_insert, lookup_empty.
  repeat case_decide; simpl; lia.
Qed.

(** The demo call, and that it does what it should. *)
Definition demo_call : M CM InvocationResult :=
  call_actor 2000 50 (ID 50) (Invoke 2) None 0 None false.

Example demo_call_runs :
  (demo_call demo_cm).1 = Ok (mkInvocationResult 0 None) ∧
  as_balance <$> cm_at demo_hamt (demo_call demo_cm).2 99 = Some 10.
Proof. vm_compute. done. Qed.

(** A machine on the same state, and messages of the account to actor 50: one
    that succeeds, and one to a missing actor. *)
Definition demo_machine : Machine := mkMachine _ demo_context demo_manifest demo_tree.
Definition demo_message (to : ActorID) : Message :=
  mkMessage 0 (ID 70) (ID to) 3 0 2 [] 100000000 150 10.

Example demo_message_runs :
  match (execute_message (demo_message 50) Explicit 100 demo_machine).1 with
  | Ok ret => rc_exit_code (ar_msg_receipt ret) = 0
  | Err _ => False
  end.
Proof. vm_compute. done. Qed.
