(* ===== verification/PersistDemo.v ===== *)
(** * A machine over the in-memory store: the witness of persistence

    A codec that numbers its values, like the one of MemoryEnv.v, but followed by
    the value's links in DAG-CBOR: the nested arrays [[n, [l1, [l2, .. 0]]]]. *)

From S2P Require Import Prelude Effects Gas PriceList Address HistoryMap Types HamtBits HamtCommon Hamt HamtRep HamtMap HamtTop.
From S2P Require Import StateTree Blocks Machine Ipld Buffered Host CallManager Executor Persist MemoryEnv Demo.
From stdpp Require Import gmap strings list fin_maps countable.
From Stdlib Require Import ZArith Lia.
#[local] Open Scope Z_scope.

(** A CID as its codec, its hash code and its digest. *)
Definition plain_cid_parser : CidParser := λ bz,
  match bz with
  | codec :: hash :: digest => Ok (mkCid codec hash digest, [])
  | _ => Err "invalid cid"%string
  end.
#[local] Existing Instance plain_cid_parser.
#[local] Instance plain_cid_parser_spec : CidParserSpec.
Proof. intros bz c rest. destruct bz as [|x [|y d]]; try done. intros [= <- <-]. simpl. lia. Qed.

Definition link_bytes (c : Cid) : bytes :=
  [0xd8; 42; 0x58; 3 + Z.of_nat (length (cid_digest c)); 0; cid_codec c; cid_hash_code c] ++ cid_digest c.
Fixpoint links_bytes (cs : list Cid) : bytes :=
  match cs with [] => [0] | c :: cs => 0x82 :: link_bytes c ++ links_bytes cs end.

Class Links (T : Type) := links : T → list Cid.
#[local] Instance NodeBlock_links {V} : Links (NodeBlock V) := λ b,
  omap (λ p, match p with BLink c => Some c | BVals _ => None end) b.2.
#[local] Instance StateRoot_links : Links StateRoot := λ r, [sr_actors r; sr_info r].
#[local] Instance InitState_links : Links InitState := λ s, [address_map s].

Definition linked_cbor {T} `{Countable T} `{Links T} : Cbor T := {|
  to_vec t := Ok ([0x82; 0x18; Zpos (encode t)] ++ links_bytes (links t));
  from_slice bz := match bz with
    | _ :: _ :: Zpos p :: _ => ok_or (decode p) "not an encoding"%string
    | _ => Err "not an encoding"%string
    end;
|}.
Lemma linked_cbor_spec {T} `{Countable T} `{Links T} : @CborSpec T linked_cbor.
Proof. intros t. eexists. split; [done|]. simpl. by rewrite decode_encode. Qed.

Lemma scan_step_link r c rest : 0 < r ≤ u64_max →
  scan_step r (link_bytes c ++ rest) = Ok (r - 1, rest, Some c).
Proof.
  intros Hr. unfold link_bytes. cbn [app]. unfold scan_step, bb_read_header.
  set (rest1 := 0 :: cid_codec c :: cid_hash_code c :: cid_digest c ++ rest).
  set (n := 3 + Z.of_nat (length (cid_digest c))).
  assert (∀ x, cbor_read_header_buf (0xd8 :: 42 :: x) = Ok (6, 42, x)) as -> by reflexivity. cbn [orb Z.eqb Pos.eqb].
  assert (∀ y x, cbor_read_header_buf (0x58 :: y :: x) = Ok (2, y, x)) as -> by reflexivity. cbn [orb Z.eqb Pos.eqb negb].
  assert (length rest1 = (3 + length (cid_digest c) + length rest)%nat) as Hl by (unfold rest1; simpl; rewrite length_app; lia).
  destruct (Z.ltb_spec (Z.of_nat (length rest1)) n); [lia|]. rewrite bool_decide_eq_true_2 by done. cbn [negb]. destruct (Z.eqb_spec n 0); [lia|].
  replace (Z.to_nat (n - 1)) with (2 + length (cid_digest c))%nat by lia. replace (Z.to_nat n) with (3 + length (cid_digest c))%nat by lia.
  unfold rest1, cid_try_from, cid_read_bytes, plain_cid_parser. simpl. rewrite take_app_length, drop_app_length.
  unfold wrap64, u64_max in *. rewrite Z.mod_small by lia. by destruct c.
Qed.

Lemma scan_links_bytes cs out n : (length (links_bytes cs) < n)%nat → bb_scan n 1 (links_bytes cs) out = Ok (reverse cs ++ out).
Proof.
  revert out n. induction cs as [|c cs IH]; intros out n Hn; simpl in Hn.
  { destruct n as [|[|n]]; [lia..|]. reflexivity. }
  rewrite length_app in Hn. unfold link_bytes in Hn. simpl in Hn. destruct n as [|[|n]]; [lia..|].
  cbn [links_bytes bb_scan]. change (1 =? 0) with false. cbn iota.
  assert (∀ x, scan_step 1 (0x82 :: x) = Ok (2, x, None)) as -> by reflexivity. cbn [push]. change (2 =? 0) with false. cbn iota.
  rewrite scan_step_link by (unfold u64_max; lia). cbn [push]. change (2 - 1) with 1. rewrite IH by lia.
  by rewrite reverse_cons, <-app_assoc.
Qed.

Lemma linked_scan {T} `{Countable T} `{Links T} (t : T) bz : @to_vec T linked_cbor t = Ok bz →
  scan_for_links bz [] = Ok (reverse (links t)).
Proof.
  intros [= <-]. unfold scan_for_links. cbn [app].
  assert (∀ n y, (length (links_bytes (links t)) < n)%nat →
    bb_scan (S (S n)) 1 (0x82 :: 0x18 :: y :: links_bytes (links t)) [] = Ok (reverse (links t))) as Hs.
  { intros n y Hn. cbn [bb_scan]. change (1 =? 0) with false. cbn iota.
    assert (∀ x, scan_step 1 (0x82 :: x) = Ok (2, x, None)) as -> by reflexivity. cbn [push]. change (2 =? 0) with false. cbn iota.
    assert (∀ y x, scan_step 2 (0x18 :: y :: x) = Ok (1, x, None)) as -> by reflexivity. cbn [push].
    rewrite scan_links_bytes by done. by rewrite app_nil_r. }
  apply (Hs (S (S (length (links_bytes (links t)))))). lia.
Qed.

#[local] Existing Instance memory_bs.
#[local] Existing Instance memory_bs_spec.

(** ** A machine with three accounts *)

Definition demo_env : Env := @machine_env memory_bs leb128 linked_cbor linked_cbor linked_cbor linked_cbor memory_conf identity_hash.
#[local] Existing Instance demo_env.

Definition small_actor (b : TokenAmount) : ActorState := mkActorState (mkCid 0 0 []) (mkCid 0 0 []) 0 b None.
Definition account_ids : list ActorID := [100; 101; 102].
Definition demo_cache : HistoryMap ActorID ActorCacheEntry :=
  foldr (λ id c, hm_insert id (mkEntry true (Some (small_actor id))) c) hm_default account_ids.
Definition demo_machine_tree : StateTree :=
  mkStateTree _ (bb_new (∅ : gmap Cid bytes)) hamt_new V5 (Some EMPTY_ARR_CID) demo_cache hm_default [].
Definition demo_buffered_machine : Machine := mkMachine _ demo_context demo_manifest demo_machine_tree.


Lemma num_digest_len d : length (num_digest BLAKE2B_256 d) = 32%nat.
Proof. reflexivity. Qed.
Lemma memory_addressed (s : gmap Cid bytes) k b : mbs_ok s → mbs_get s k = Ok (Some b) → cid_digest k = num_digest (cid_hash_code k) b.
Proof. intros Hs [= Hk]. by apply Hs. Qed.
Definition demo_spec : @EnvSpec demo_env :=
  machine_spec (BSS := memory_bs_spec) num_digest_len num_digest_inj memory_addressed (VS := leb128_spec)
    (CRS := linked_cbor_spec) (CIS := linked_cbor_spec) (CAS := linked_cbor_spec) (CNS := linked_cbor_spec) memory_conf identity_hash.
#[local] Existing Instance demo_spec.

Lemma demo_machine_inv : st_inv ∅ demo_machine_tree.
Proof.
  split_and!.
  - split; [apply mbs_ok_empty|]. apply map_Forall_empty.
  - apply (hamt_rep_new (V := ActorState)). split; [apply mbs_ok_empty|]. apply map_Forall_empty.
  - unfold demo_machine_tree, demo_cache. cbn [actor_cache foldr account_ids]. repeat apply cache_ok_insert.
    intros id e. by rewrite lookup_empty.
Qed.
Lemma demo_machine_ids : cached_ids_ok demo_machine_tree.
Proof.
  intros id e Hl. unfold demo_machine_tree, demo_cache in Hl. cbn [actor_cache foldr account_ids] in Hl.
  rewrite !lookup_hm_insert in Hl. repeat (case_decide; [subst; mlia|]). by vm_compute in Hl.
Qed.

Lemma node_links_demo (b : NodeBlock ActorState) bz : @to_vec _ linked_cbor b = Ok bz →
  ∃ cs, scan_for_links bz [] = Ok cs ∧ ∀ c, BLink c ∈ b.2 → c ∈ cs.
Proof.
  intros Hz. exists (reverse (links b)). split; [exact (linked_scan b bz Hz)|]. intros c Hc.
  apply elem_of_reverse, list_elem_of_omap. by exists (BLink c).
Qed.
Lemma root_links_demo (r : StateRoot) bz : @to_vec _ linked_cbor r = Ok bz →
  ∃ cs, scan_for_links bz [] = Ok cs ∧ sr_actors r ∈ cs.
Proof. intros Hz. exists (reverse (links r)). split; [exact (linked_scan r bz Hz)|]. apply elem_of_reverse. left. Qed.

(** The buffered blocks link to blocks only. *)
Definition storedb (c : Cid) : bool :=
  match check_cid c with Ok true => negb (cid_hash_code c =? IDENTITY_HASH) | _ => false end.
Definition block_okb (kb : Cid * bytes) : bool :=
  match block_links kb.1 kb.2 with Ok cs => forallb storedb cs | Err _ => false end.
Lemma block_okb_ok k b : block_okb (k, b) = true → block_ok k b.
Proof.
  unfold block_okb, block_ok. simpl. destruct (block_links k b) as [cs|]; [|done]. intros Hf. exists cs. split; [done|].
  rewrite forallb_forall in Hf. apply Forall_forall. intros c Hc. apply flush_stored.
  specialize (Hf c Hc). unfold storedb in Hf. destruct (check_cid c) as [[]|] eqn:E; try done.
  split; [done|]. apply negb_true_iff, Z.eqb_neq in Hf. done.
Qed.

Lemma blocks_okb_ok (m : gmap Cid bytes) : forallb block_okb (map_to_list m) = true → ∀ k b, m !! k = Some b → block_ok k b.
Proof.
  rewrite forallb_forall. intros Hf k b Hb. apply block_okb_ok, Hf. by apply list_elem_of_In, elem_of_map_to_list.
Qed.
Lemma demo_flushed_blocks : forallb block_okb (map_to_list (bb_write (st_store (st_flush demo_machine_tree).2))) = true.
Proof. vm_compute. reflexivity. Qed.

Lemma machine_flush_persists_witness :
  ∃ root m' t'', machine_flush memory_conf identity_hash demo_buffered_machine = (Ok root, m') ∧
    @st_new_from_root (@client_env memory_bs leb128 linked_cbor linked_cbor linked_cbor linked_cbor memory_conf identity_hash)
      (bb_base (st_store (ma_tree m'))) root = Ok t'' ∧
    (@get_actor (@client_env memory_bs leb128 linked_cbor linked_cbor linked_cbor linked_cbor memory_conf identity_hash) 102 t'').1 = Ok (Some (small_actor 102)) ∧
    (@get_actor (@client_env memory_bs leb128 linked_cbor linked_cbor linked_cbor linked_cbor memory_conf identity_hash) 7 t'').1 = Ok None.
Proof.
  destruct (machine_flush_persists (BSS := memory_bs_spec) (ST := memory_total) (CP := plain_cid_parser) num_digest_len num_digest_inj memory_addressed
    (VS := leb128_spec) (CRS := linked_cbor_spec) (CIS := linked_cbor_spec) (CAS := linked_cbor_spec) (CNS := linked_cbor_spec)
    memory_conf identity_hash node_links_demo root_links_demo
    demo_buffered_machine ∅ EMPTY_ARR_CID) as (root & t' & E1 & Hfl).
  - exact demo_machine_inv.
  - reflexivity.
  - reflexivity.
  - reflexivity.
  - exact demo_machine_ids.
  - apply keys_apart_decide. vm_compute. reflexivity.
  - intros k b cs c [=].
  - destruct Hfl as (m' & t'' & E2 & E3 & Hact).
    + apply (f_equal snd) in E1. cbn [snd] in E1. rewrite <-E1. exact (blocks_okb_ok _ demo_flushed_blocks).
    + exists root, m', t''. split; [exact E2|]. split; [exact E3|]. split; (rewrite Hact by mlia; reflexivity).
Defined.

(** ** The write buffer alone *)

Module Flush.
#[local] Existing Instance memory_bs.
#[local] Existing Instance memory_bs_spec.
#[local] Existing Instance short_cid_parser.
#[local] Existing Instance short_cid_parser_spec.

(** A block of one integer, and an array that links to it. *)
Definition leaf : bytes := [7].
Definition leaf_cid : Cid := block_cid DAG_CBOR BLAKE2B_256 leaf.
Definition parent : bytes := [0x82; 1; 0xd8; 42; 0x58; 35; 0; DAG_CBOR; 1] ++ cid_digest leaf_cid.
Definition parent_cid : Cid := block_cid DAG_CBOR BLAKE2B_256 parent.
(** A block nothing links to. *)
Definition stray : bytes := [8].
Definition stray_cid : Cid := block_cid IPLD_RAW BLAKE2B_256 stray.

Definition demo_buffer : BufferedBlockstore :=
  (bb_put_many_keyed (bb_new (∅ : gmap Cid bytes)) [(leaf_cid, leaf); (parent_cid, parent); (stray_cid, stray)]).2.
Definition demo_flushed : BufferedBlockstore := (bb_flush parent_cid demo_buffer).2.

Lemma demo_buffer_ok : bb_ok demo_buffer.
Proof.
  split; [apply mbs_ok_empty|]. simpl. repeat apply map_Forall_insert_2; try done.
Qed.

Lemma flush_moves_reachable_witness : bb_ok demo_buffer ∧ bb_flush parent_cid demo_buffer = (Ok tt, demo_flushed) ∧
  bb_ok demo_flushed ∧ bb_write demo_flushed !! stray_cid = Some stray ∧ bb_write demo_flushed !! leaf_cid = None ∧
  bs_get (bb_base demo_flushed) leaf_cid = Ok (Some leaf) ∧ bs_get (bb_base demo_flushed) stray_cid = Ok None.
Proof.
  assert (bb_flush parent_cid demo_buffer = (Ok tt, demo_flushed)) as E.
  { assert ((bb_flush parent_cid demo_buffer).1 = Ok tt) as E1 by (vm_compute; reflexivity).
    rewrite (surjective_pairing (bb_flush parent_cid demo_buffer)), E1. reflexivity. }
  destruct (flush_moves_reachable parent_cid demo_buffer demo_flushed demo_buffer_ok E) as (Hok & _).
  split; [exact demo_buffer_ok|]. split; [exact E|]. split; [exact Hok|].
  do 3 (split; [vm_compute; reflexivity|]). vm_compute; reflexivity.
Defined.

(** The array of Ipld.v, whose link is not buffered. *)
Definition accepted_buffer : BufferedBlockstore := mkBuffered (∅ : gmap Cid bytes) {[parent_cid := linked_block]}.

Lemma short_cid_digest bz c rest : cid_read_bytes bz = Ok (c, rest) →
  ∃ k, cid_digest c = take (length (cid_digest c)) (drop k bz).
Proof.
  destruct bz as [|x [|y d]]; try done. intros [= <- <-]. exists 2%nat. simpl. by rewrite firstn_all.
Qed.

Lemma flush_accepts_kernel_blocks_witness : ∃ s', bb_flush parent_cid accepted_buffer = (Ok tt, s').
Proof.
  apply (flush_accepts_kernel_blocks short_cid_digest parent_cid accepted_buffer).
  - split; [vm_compute; reflexivity|]. vm_compute. discriminate.
  - intros k b Hk. unfold accepted_buffer in Hk. cbn [bb_write] in Hk. apply lookup_singleton_Some in Hk as [<- <-]. split.
    + apply Forall_app. split; [repeat constructor; unfold is_byte; vm_compute; intuition congruence|].
      apply Forall_replicate. unfold is_byte. lia.
    + exists (visitor_new WATERMELON_PRICES 1000000000). eexists. vm_compute. reflexivity.
Defined.

(** The flush's scanner slices into the empty string of a tagged CID that the
    kernel's scanner refuses: the bytes of [[42(h''), 0]]. *)
Definition empty_cid_block : bytes := [0x82; 0xd8; 42; 0x40; 0].
Example empty_cid_panics :
  scan_for_links empty_cid_block [] = Err (FlushPanic "range start index 1 out of range for slice of length 0") ∧
  (scan_for_links_inner DAG_CBOR empty_cid_block (visitor_new WATERMELON_PRICES 1000000000)).1 =
    Err (syscall_error Serialization "DagCBOR CID does not start with a 0x byte").
Proof. split; vm_compute; reflexivity. Qed.

(** A flush that fails has removed the blocks it had visited from the buffer
    without writing them: here the root links to a CID of an unknown codec. *)
Definition bad_parent : bytes := [0xd8; 42; 0x43; 0; 9; 1].
Definition bad_cid : Cid := block_cid DAG_CBOR BLAKE2B_256 bad_parent.
Definition bad_buffer : BufferedBlockstore := mkBuffered (∅ : gmap Cid bytes) {[bad_cid := bad_parent]}.
Example failed_flush_loses_blocks :
  let '(r, s') := bb_flush bad_cid bad_buffer in
  r = Err (FlushFailed "cid {k} has unexpected codec ({codec})") ∧
  bb_get bad_buffer bad_cid = Ok (Some bad_parent) ∧ bb_get s' bad_cid = Ok None.
Proof. vm_compute. done. Qed.
End Flush.
