(* ===== verification/EngineDemo.v ===== *)
(** * A concrete engine

    A compiler that adds a byte for each instrumentation, two contending
    executors on a small pool, and the cases where the limits or the cache do
    not hold what their comments say. *)

From S2P Require Import Prelude Effects Gas PriceList Address HistoryMap Types StateTree Blocks Machine.
From S2P Require Import Ipld Host Invocation MemoryEnv Demo EnginePool Engine.
From stdpp Require Import gmap strings list fin_maps.
From Stdlib Require Import ZArith Lia.
#[local] Open Scope Z_scope.

#[local] Instance demo_compiler : WasmCompiler := {|
  wasm_module := bytes;
  engine_new _ := Ok tt;
  validate bz := match bz with [] => Err "empty" | _ => Ok tt end;
  inject_stack_limiter bz n := Ok (n :: bz);
  inject_gas bz _ := Ok (0 :: bz);
  from_binary bz := Ok bz;
  deserialize bz := Ok bz;
|}.
#[local] Existing Instance memory_bs.
#[local] Existing Instance memory_bs_spec.

Definition demo_wasm : bytes := [7; 8].
Definition wasm_cid : Cid := one_block demo_wasm.
Definition wasm_store : MemoryBlockstore := {[ wasm_cid := demo_wasm ]}.
Definition small_config : EngineConfig :=
  mkEngineConfig 2 2048 65536 1 (wasm_rules WATERMELON_PRICES) [].
Definition small_engine : EngineInner :=
  match EnginePool_new (with_concurrency 2 small_config) with
  | Ok e => e
  | Err _ => mkEngineInner (concurrency_new 0) (instance_pool_new 0 0) ∅ small_config ∅
  end.
Definition frames : list Act := [Acquire; Take; Take; Put; Take; Put; Put; Release].

(** The first executor drains a pool of three down below a full stack and locks
    it; the second sleeps in [take] until the lock is gone. *)
Definition tight_system : Sys :=
  mkSys (concurrency_new 2) (instance_pool_new 3 2) (thread_new <$> [frames; frames]) None.
Definition contention : list Label :=
  [Run 0 None; Run 1 None; Run 0 None; Run 0 None; Run 1 None; Spurious 1; Run 1 None; Run 0 (Some 1%nat)].
Example second_waits_then_runs :
  let s1 := steps (take 5 contention) tight_system in
  let s2 := steps contention tight_system in
  ((λ s, (locked (sy_pool s), available (sy_pool s), th_asleep <$> sy_threads s)) <$> s1 =
    Some (Some 0, 1, [false; true])) ∧
  ((λ s, (locked (sy_pool s), available (sy_pool s), th_asleep <$> sy_threads s)) <$> s2 =
    Some (None, 2, [false; false])).
Proof. vm_compute. done. Qed.

Definition live_labels : list Label := [Run 0 None; Run 1 None; Run 0 None; Run 0 None].
Definition live_state : Sys :=
  default (pool_system small_engine []) (steps live_labels (pool_system small_engine [frames; frames])).
Lemma engine_pool_live_witness :
  steps live_labels (pool_system small_engine [frames; frames]) = Some live_state ∧
  sy_panic live_state = None ∧ available (sy_pool live_state) + held (sy_threads live_state) = 42 ∧
  ((∃ i w s', step (Run i w) live_state = Some s') ∨
   Forall done (sy_threads live_state) ∧ sy_pool live_state = ei_instance_limit small_engine ∧
   limit (sy_conc live_state) = 2).
Proof.
  split; [reflexivity|].
  destruct (engine_pool_live (with_concurrency 2 small_config) small_engine [frames; frames] live_labels live_state)
    as (Hp & Ha & _ & _ & _ & Hl & _).
  - reflexivity.
  - split; vm_compute; [split; congruence|reflexivity].
  - repeat constructor.
  - vm_compute. reflexivity.
  - reflexivity.
  - split; [exact Hp|split; [exact Ha|exact Hl]].
Defined.

(** More frames than the depth, or a pool smaller than a stack: [take] panics. *)
Example small_pool_panics :
  sy_panic <$> steps [Run 0 None; Run 0 None; Run 0 None]
    (mkSys (concurrency_new 1) (instance_pool_new 1 2) [thread_new frames] None) =
  Some (Some "no instances available: we must have exceeded our stack depth"%string).
Proof. reflexivity. Qed.

(** The pool of a network with a deeper call stack than 48Ki is that small. *)
Example pool_size_capped :
  let ec := mkEngineConfig 60000 2048 65536 1 (wasm_rules WATERMELON_PRICES) [] in
  instance_pool_size ec = 49152 ∧ ¬ (ec_max_call_depth ec ≤ instance_pool_size ec).
Proof. split; [reflexivity|]. vm_compute. by intros H; apply H. Qed.

(** The size recorded for a module is that of the instrumented code. *)
Example size_is_instrumented :
  (preload wasm_store wasm_cid small_engine).1 = Ok 4 ∧ length demo_wasm = 2%nat.
Proof. split; reflexivity. Qed.

(** A store that lacks the code is served from the cache another one filled. *)
Example cache_hides_missing_block :
  (serve [(wasm_store, ReqPreload [wasm_cid]); (∅, ReqModule wasm_cid)] small_engine).1 =
    [None; Some (Ok (Some [0; 2048; 7; 8]))] ∧
  module_of (with_concurrency 2 small_config) (∅ : MemoryBlockstore) wasm_cid = Ok None.
Proof. split; reflexivity. Qed.

Definition cache_requests : list (MemoryBlockstore * EngineReq) :=
  [(∅, ReqModule wasm_cid); (wasm_store, ReqPreload [wasm_cid]); (wasm_store, ReqModule wasm_cid)].

(** Executors of one configuration get one pool, others another. *)
Example two_networks_two_pools :
  let deep := mkNetworkConfig 25 314 2048 2048 (512 * 2 ^ 20) (2 * 2 ^ 30) (2 ^ 20) None false WATERMELON_PRICES [] in
  let '(r1, me1) := multi_get demo_network (mkMultiEngine [] 4 []) in
  let '(r2, me2) := multi_get deep me1 in
  let '(r3, me3) := multi_get demo_network me2 in
  (r1, r2, r3) = (Ok 0%nat, Ok 1%nat, Ok 0%nat) ∧ length (me_pools me3) = 2%nat.
Proof. vm_compute. done. Qed.
