(* ===== verification/CarDemo.v ===== *)
(** * CAR files over LEB128 and a store in memory: witnesses *)

From S2P Require Import Prelude Effects Address Types Ipld Buffered Car MemoryEnv.
From stdpp Require Import gmap strings list fin_maps.
From Stdlib Require Import ZArith Lia.
#[local] Open Scope Z_scope.
#[local] Existing Instance leb128.
#[local] Existing Instance leb128_spec.

(** ** Lengths *)

(** An input whose bytes all announce another one ends early. *)
#[export] Instance leb_io : VarintIo := λ bz,
  match varint_decode bz with
  | Some (n, rest) => VarDone n rest
  | None => if (length bz <? 10)%nat && forallb (λ b, 128 <=? b) bz then VarEof else VarInvalid
  end.

#[export] Instance leb_io_spec : VarintIoSpec.
Proof.
  split.
  - intros n rest Hn. unfold varint_read, leb_io. by rewrite varint_decode_encode.
  - intros bz n rest. unfold varint_read, leb_io. destruct (varint_decode bz) as [[m r]|] eqn:E; [|by case_match].
    intros [= <- <-]. by apply varint_encode_decode in E.
  - reflexivity.
  - intros n. apply varint_encode_nonempty.
Qed.

(** ** CIDs of version 1 *)

#[export] Instance car_cid_bytes : CidBytes := λ c,
  varint_encode 1 ++ varint_encode (cid_codec c) ++ varint_encode (cid_hash_code c) ++
  varint_encode (Z.of_nat (length (cid_digest c))) ++ cid_digest c.
#[export] Instance car_cid_parser : CidParser := λ bz,
  match varint_decode bz with
  | Some (1, bz) =>
      match varint_decode bz with
      | Some (codec, bz) =>
          match varint_decode bz with
          | Some (code, bz) =>
              match varint_decode bz with
              | Some (n, bz) =>
                  if (n <=? 64) && (n <=? Z.of_nat (length bz)) then
                    Ok (mkCid codec code (take (Z.to_nat n) bz), drop (Z.to_nat n) bz)
                  else Err "invalid multihash size"%string
              | None => Err "varint"%string
              end
          | None => Err "varint"%string
          end
      | None => Err "varint"%string
      end
  | _ => Err "invalid cid version"%string
  end.

#[export] Instance car_cid_spec : CidBytesSpec.
Proof.
  split.
  - intros [codec code d] rest (H1 & H2 & H3). unfold cid_read_bytes, car_cid_parser, cid_to_bytes, car_cid_bytes.
    cbn [cid_codec cid_hash_code cid_digest] in *.
    rewrite <-!app_assoc. rewrite !varint_decode_encode by (unfold in_u64, u64_max; lia || done).
    destruct (Z.leb_spec (Z.of_nat (length d)) 64); [|lia].
    destruct (Z.leb_spec (Z.of_nat (length d)) (Z.of_nat (length (d ++ rest)))) as [_|Hl]; [|rewrite length_app in Hl; lia].
    simpl. by rewrite Nat2Z.id, take_app_length, drop_app_length.
  - intros bz c rest. unfold cid_read_bytes, car_cid_parser.
    destruct (varint_decode bz) as [[v b1]|] eqn:E1; [|done]. destruct v as [|[]|]; try done.
    destruct (varint_decode b1) as [[codec b2]|] eqn:E2; [|done]. destruct (varint_decode b2) as [[code b3]|] eqn:E3; [|done].
    destruct (varint_decode b3) as [[n b4]|] eqn:E4; [|done].
    destruct (Z.leb_spec n 64); [|done]. destruct (Z.leb_spec n (Z.of_nat (length b4))); [|done]. simpl. intros [= <- <-].
    apply varint_encode_decode in E1 as [-> _], E2 as [-> H2], E3 as [-> H3], E4 as [-> H4]. unfold in_u64 in H4.
    unfold cid_to_bytes, car_cid_bytes. cbn [cid_codec cid_hash_code cid_digest]. rewrite length_take, Nat.min_l, Z2Nat.id by lia.
    split; [by rewrite <-!app_assoc, take_drop|]. split_and!; [done..|]. simpl. rewrite length_take. lia.
Qed.

(** ** A store with an identity hash *)

Definition car_digest (code : Z) (d : bytes) : bytes := if code =? 0 then d else num_digest code d.
Lemma car_digest_inj code d d' : car_digest code d = car_digest code d' → d = d'.
Proof. unfold car_digest. case_match; [done|]. apply num_digest_inj. Qed.

Definition car_bs : Blockstore := {|
  Store := gmap Cid bytes;
  bs_get := mbs_get;
  bs_put_keyed := mbs_put_keyed;
  mh_digest := car_digest;
|}.
#[local] Existing Instance car_bs.
Lemma car_put_ok (s : gmap Cid bytes) (k : Cid) (b : bytes) : map_Forall addressed s → addressed k b →
  map_Forall addressed (<[k := b]> s) ∧ s ⊆ <[k := b]> s.
Proof.
  intros Hs Hk. split; [by apply map_Forall_insert_2|].
  destruct (s !! k) as [b'|] eqn:E; [|by apply insert_subseteq]. rewrite insert_id; [done|].
  rewrite E. f_equal. apply (car_digest_inj (cid_hash_code k)). rewrite <-(Hs _ _ E). apply Hk.
Qed.
Definition car_bs_spec : BlockstoreSpec.
Proof.
  unshelve refine (@Build_BlockstoreSpec car_bs (map_Forall addressed) (λ s s' : gmap Cid bytes, s ⊆ s') _ _ _ _).
  - split; [intros s; reflexivity|intros a b c ??; by etrans].
  - intros s s' c b Hle [= Hc]. simpl. unfold mbs_get. by rewrite (lookup_weaken _ _ _ _ Hc Hle).
  - intros s k b r s' Hs Hk [= <- <-]. by apply car_put_ok.
  - intros s k b s' Hs Hk [= <-]. simpl. unfold mbs_get. by rewrite lookup_insert_eq.
Defined.
#[local] Existing Instance car_bs_spec.
#[local] Instance car_total : StoreTotal.
Proof. intros s k b. by eexists. Qed.

#[export] Instance CarHeader_eq_dec : EqDecision CarHeader.
Proof. solve_decision. Defined.
#[export] Instance CarHeader_countable : Countable CarHeader.
Proof. apply (inj_countable' (λ h, (roots h, version h)) (λ '(r, v), mkCarHeader r v)). by intros []. Defined.
#[local] Instance car_header_cbor : Cbor CarHeader := num_cbor.
#[local] Instance car_header_cbor_spec : CborSpec CarHeader := num_cbor_spec.

(** ** Two blocks, one of them inline *)

Definition car_empty : @Store car_bs := ∅.
Definition blake_only (code : Z) : bool := code =? BLAKE2B_256.
Definition car_leaf : bytes := [7].
Definition car_leaf_cid : Cid := mkCid DAG_CBOR BLAKE2B_256 (car_digest BLAKE2B_256 car_leaf).
Definition car_inline : Cid := mkCid IPLD_RAW 0 [1; 2; 3].
Definition car_blocks : list (Cid * bytes) := [(car_leaf_cid, car_leaf); (car_inline, [1; 2; 3])].
Definition car_file : bytes := match write_stream (car_header [car_leaf_cid]) car_blocks with Ok bz => bz | Err _ => [] end.

Lemma car_digest_identity b : mh_digest 0 b = b.
Proof. reflexivity. Qed.

Lemma car_empty_ok : store_ok car_empty.
Proof. exact (map_Forall_empty (M := gmap Cid) addressed). Qed.

Lemma car_blocks_fit : Forall node_fits car_blocks.
Proof.
  apply Forall_forall. intros x Hx. unfold car_blocks in Hx. rewrite !elem_of_cons, elem_of_nil in Hx.
  destruct Hx as [->|[->|[]]]; (split; [split_and!|]); unfold in_u64, u64_max; vm_compute; intuition (lia || congruence).
Qed.

Lemma car_roundtrip_witness : ∃ bz s', write_stream (car_header [car_leaf_cid]) car_blocks = Ok bz ∧
  load_car blake_only car_empty bz = (Ok [car_leaf_cid], s') ∧ bs_get s' car_leaf_cid = Ok (Some car_leaf).
Proof.
  destruct (car_roundtrip blake_only car_digest_identity car_empty (car_header [car_leaf_cid]) car_blocks)
    as (bz & s' & E & Hl & _ & _ & Hg).
  - exact car_empty_ok.
  - discriminate.
  - reflexivity.
  - intros bz [= <-]. unfold in_u64, u64_max. simpl. lia.
  - exact car_blocks_fit.
  - repeat constructor; vm_compute; reflexivity.
  - exists bz, s'. split; [exact E|]. split; [exact Hl|]. apply Hg. left.
Defined.

Lemma load_car_sound_witness : ∃ s', load_car blake_only car_empty car_file = (Ok [car_leaf_cid], s') ∧ store_ok s' ∧
  ∃ bz rest, car_file = ld_write bz ++ rest.
Proof.
  destruct (load_car blake_only car_empty car_file) as [r s'] eqn:E.
  destruct (load_car_sound blake_only car_digest_identity car_empty s' car_file r car_empty_ok E) as (Hs & _ & Hr).
  assert (r = Ok [car_leaf_cid]) as Er by (change r with (r, s').1; rewrite <-E; vm_compute; reflexivity).
  exists s'. rewrite Er. split; [reflexivity|]. split; [exact Hs|]. destruct (Hr _ Er) as (bz & h & rest & bl & -> & _). eauto.
Defined.

(** ** Damaged files *)

(** A block under the CID of another one. *)
Definition wrong_block : list (Cid * bytes) := [(car_leaf_cid, [8])].
Example wrong_block_refused :
  (load_car blake_only car_empty
    (match write_stream (car_header [car_leaf_cid]) wrong_block with Ok bz => bz | Err _ => [] end)).1 =
    Err (InvalidFile "CAR has an incorrect CID: expected {}, found {}") ∧
  (load_car_unchecked blake_only car_empty
    (match write_stream (car_header [car_leaf_cid]) wrong_block with Ok bz => bz | Err _ => [] end)).1 = Ok [car_leaf_cid].
Proof. vm_compute. done. Qed.

(** A file that ends inside a block is refused, but one that ends inside the
    length of a block (here of more than 127 bytes) loads as if it ended before it. *)
Definition long_data : bytes := replicate 100 1.
Definition long_cid : Cid := mkCid IPLD_RAW BLAKE2B_256 (car_digest BLAKE2B_256 long_data).
Definition long_node : bytes := write_node (long_cid, long_data).
Example cut_in_length :
  (load_car blake_only car_empty (car_file ++ take 1 long_node)).1 = Ok [car_leaf_cid] ∧
  (load_car blake_only car_empty (car_file ++ take 1 long_node)).2 = (load_car blake_only car_empty car_file).2 ∧
  (load_car blake_only car_empty (car_file ++ take 2 long_node)).1 =
    Err (IoError "expected to read at least {} bytes, but read {}").
Proof. split_and!; vm_compute; reflexivity. Qed.
