(* ===== verification/Metering.v ===== *)
(** * Metering of guest code

    The gas tracker counts what the host charges, the guest's counter what the
    instrumented Wasm consumes; [charge_for_exec] and [update_gas_available]
    keep the two in step around every host call. *)

From S2P Require Import Prelude Effects Gas PriceList Address HistoryMap Types StateTree.
From S2P Require Import Access Blocks Machine Ipld Host CallManager Frame Kernel Syscalls.
From S2P Require Import Invocation Carry Depth MemoryEnv Supply Executor Demo.
From stdpp Require Import gmap strings list fin_maps.
From Stdlib Require Import ZArith Lia.
#[local] Open Scope Z_scope.

Section metering.
Context `{H : Host}.

Definition iv_gas (i : Inv) : GasTracker := cm_gas (k_cm (iv_kernel i)).

(** The next charge for execution is measured from what is really available. *)
Definition in_step (i : Inv) : Prop :=
  gt_ok (iv_gas i) ∧ iv_last_gas_available i = gas_available (iv_gas i).

(** A charge touches the tracker only. *)
Definition only_gas (i i' : Inv) : Prop :=
  iv_last_error i' = iv_last_error i ∧ iv_gas_global i' = iv_gas_global i ∧
  iv_last_gas_available i' = iv_last_gas_available i ∧
  iv_last_memory_bytes i' = iv_last_memory_bytes i ∧
  k_memory_used (iv_kernel i') = k_memory_used (iv_kernel i) ∧
  cm_const (k_cm (iv_kernel i')) = cm_const (k_cm (iv_kernel i)) ∧
  cm_tree (k_cm (iv_kernel i')) = cm_tree (k_cm (iv_kernel i)) ∧
  gas_limit (iv_gas i') = gas_limit (iv_gas i).
#[export] Instance only_gas_preorder : PreOrder only_gas.
Proof.
  split; [by intros i|]. intros a b c (?&?&?&?&?&?&?&?) (?&?&?&?&?&?&?&?). split_and!; congruence.
Qed.

Lemma available_bound t : gt_ok t → (gas_available t ≤ I64_MAX)%N.
Proof. intros [? Hs]. apply snaps_ok_bound in Hs. unfold gas_available, gas_sub. lia. Qed.

Lemma iv_charge_spec name g i :
  gt_ok (iv_gas i) →
  ∃ i', gt_ok (iv_gas i') ∧ only_gas i i' ∧
    if decide (g ≤ gas_available (iv_gas i))%N
    then iv_charge name g i = (Ok tt, i') ∧
         gas_available (iv_gas i') = (gas_available (iv_gas i) - g)%N
    else iv_charge name g i = (Err AOutOfGas, i') ∧ gas_available (iv_gas i') = 0%N.
Proof.
  intros Hok. exists (iv_charge name g i).2.
  unfold iv_charge, map_err, k_charge_gas, kcm, on_gas, zoom, gt_charge_gas.
  fold (iv_gas i). rewrite (charge_gas_inner_spec g (iv_gas i) Hok). pose proof Hok as [Hu Hs].
  unfold gas_available, gas_sub in *. repeat case_decide; try lia; simpl;
    (split; [split; simpl; [lia|done]|]); (split; [by split_and!|]);
    (split; [done|]); unfold iv_gas; simpl; fold (iv_gas i); lia.
Qed.

(** Two charges in a row: all of the sum, or nothing left. *)
Lemma iv_charge_two n1 n2 a b i :
  gt_ok (iv_gas i) →
  ∃ i', gt_ok (iv_gas i') ∧ only_gas i i' ∧
    (_ ← iv_charge n1 a; if (b =? 0)%N then mret tt else iv_charge n2 b) i =
      (if decide (a + b ≤ gas_available (iv_gas i))%N then Ok tt else Err AOutOfGas, i') ∧
    gas_available (iv_gas i') = (gas_available (iv_gas i) - (a + b))%N.
Proof.
  intros Hok. destruct (iv_charge_spec n1 a i Hok) as (i1 & Hok1 & Hg1 & H1).
  destruct (decide (a ≤ gas_available (iv_gas i))%N) as [Ha|Ha]; destruct H1 as [E1 Hav1].
  - rewrite (bind_ok _ _ _ _ _ E1). destruct (N.eqb_spec b 0) as [->|Hb].
    + exists i1. rewrite decide_True by lia. split; [done|]. split; [done|]. split; [done|lia].
    + destruct (iv_charge_spec n2 b i1 Hok1) as (i2 & Hok2 & Hg2 & H2). exists i2.
      rewrite Hav1 in H2. split; [done|]. split; [by etrans|].
      repeat case_decide; try lia; destruct H2 as [E2 Hav2]; rewrite E2; (split; [done|lia]).
  - rewrite (bind_err _ _ _ _ _ E1). exists i1. rewrite decide_False by lia.
    split; [done|]. split; [done|]. split; [done|lia].
Qed.

(** What is charged for execution, and that it is all or nothing. *)
Definition exec_charge (i : Inv) : Gas :=
  if iv_gas_global i <? 0
  then gas_add (iv_last_gas_available i) (Z.to_N (Z.abs (iv_gas_global i)))
  else gas_sub (iv_last_gas_available i) (Z.to_N (Z.abs (iv_gas_global i))).

Lemma charge_for_exec_amount i :
  gt_ok (iv_gas i) →
  ∃ i', gt_ok (iv_gas i') ∧ only_gas i i' ∧
    charge_for_exec i =
      (if decide (exec_charge i ≤ gas_available (iv_gas i))%N then Ok tt else Err AOutOfGas, i') ∧
    gas_available (iv_gas i') = (gas_available (iv_gas i) - exec_charge i)%N.
Proof.
  intros Hok.
  assert (∃ a b, (a + b = exec_charge i)%N ∧ charge_for_exec i =
    (_ ← iv_charge "wasm_exec" a; if (b =? 0)%N then mret tt else iv_charge "wasm_memory_grow" b) i)
    as (a & b & Hab & ->).
  { unfold charge_for_exec. rewrite (bind_ok _ _ i i i) by done. cbn zeta. fold (exec_charge i).
    destruct (N.leb_spec (grow_memory_gas (wasm_prices i) (Z.to_N (sat_sub (k_memory_used (iv_kernel i))
      (iv_last_memory_bytes i)))) (exec_charge i)); eexists _, _; (split; [|reflexivity]);
      unfold gas_sub; lia. }
  destruct (iv_charge_two "wasm_exec" "wasm_memory_grow" a b i Hok) as (i' & Hok' & Hog & -> & Hav).
  exists i'. rewrite Hab in *. by split_and!.
Qed.

(** Charging for execution brings the tracker in line with the counter. *)
Lemma charge_for_exec_sync i :
  in_step i → i64_min ≤ iv_gas_global i ≤ Z.of_N (iv_last_gas_available i) →
  ∃ i', gt_ok (iv_gas i') ∧ only_gas i i' ∧
    charge_for_exec i = (if 0 <=? iv_gas_global i then Ok tt else Err AOutOfGas, i') ∧
    gas_available (iv_gas i') = Z.to_N (iv_gas_global i).
Proof.
  intros [Hok Hlast] Hg. pose proof (available_bound _ Hok) as Hb. rewrite Hlast in Hg.
  destruct (charge_for_exec_amount i Hok) as (i' & Hok' & Hog & E1 & Hav).
  exists i'. split; [done|]. split; [done|]. rewrite E1, Hav. unfold exec_charge, gas_add, gas_sub. rewrite Hlast.
  destruct (Z.ltb_spec (iv_gas_global i) 0), (Z.leb_spec 0 (iv_gas_global i)); try lia.
  - assert ((gas_available (iv_gas i) + Z.to_N (Z.abs (iv_gas_global i))) ≤ U64_MAX)%N.
    { unfold i64_min in Hg. unfold I64_MAX, U64_MAX in *. lia. }
    rewrite N.min_l by lia. rewrite decide_False by lia. split; [done|lia].
  - rewrite decide_True by lia. split; [done|lia].
Qed.

(** Refreshing puts them in step and never fails. *)
Lemma update_gas_available_ok i :
  gt_ok (iv_gas i) →
  ∃ i', update_gas_available i = (Ok tt, i') ∧ in_step i' ∧ iv_kernel i' = iv_kernel i ∧
    iv_gas_global i' = Z.of_N (gas_available (iv_gas i)).
Proof.
  intros Hok. pose proof (available_bound _ Hok) as Hb. unfold update_gas_available.
  rewrite (bind_ok _ _ i (gas_available (iv_gas i)) i) by done.
  destruct (N.ltb_spec I64_MAX (gas_available (iv_gas i))); [lia|].
  eexists. split; [reflexivity|]. split; [|done]. by split.
Qed.
End metering.

Section host_calls.
Context `{H : Host} {ES : EnvSpec}.

Definition host_cost (i : Inv) : Gas := host_call_cost (wasm_prices i).

(** The charges made before a host call runs. *)
Lemma entry_charges i :
  gt_ok (iv_gas i) →
  ∃ i', gt_ok (iv_gas i') ∧ only_gas i i' ∧
    (_ ← charge_for_exec; charge_syscall_gas) i =
      (if decide (exec_charge i + host_cost i ≤ gas_available (iv_gas i))%N then Ok tt else Err AOutOfGas, i') ∧
    gas_available (iv_gas i') = (gas_available (iv_gas i) - (exec_charge i + host_cost i))%N.
Proof.
  intros Hok. destruct (charge_for_exec_amount i Hok) as (i1 & Hok1 & Hog1 & E1 & Hav1).
  case_decide as Hd1.
  - rewrite (bind_ok _ _ _ _ _ E1). unfold charge_syscall_gas.
    assert (host_call_cost (wasm_prices i1) = host_cost i) as Ep.
    { destruct Hog1 as (_&_&_&_&_&Hc&_). unfold host_cost, wasm_prices, cm_price_list, cm_network, cm_context.
      by rewrite Hc. }
    rewrite (bind_ok _ _ i1 (host_cost i) i1) by (unfold gets; by rewrite Ep).
    destruct (iv_charge_spec "OnSyscall" (host_cost i) i1 Hok1) as (i2 & Hok2 & Hog2 & H2).
    exists i2. split; [done|]. split; [by etrans|]. rewrite Hav1 in H2.
    repeat case_decide; try lia; destruct H2 as [-> Hav2]; (split; [done|lia]).
  - rewrite (bind_err _ _ _ _ _ E1). exists i1. rewrite decide_False by lia.
    split; [done|]. split; [done|]. split; [done|lia].
Qed.

(** The wrapper, after its charges. *)
Definition link_rest (call : CallFn) (mem : bytes) (req : SyscallReq) : ME Abort Inv (Z * bytes) :=
  if no_space req mem
  then _ ← modify (iv_set_error (Some (CauseSyscall "{module}" "{name}"
             (mkSyscallError "no space for return value" IllegalArgument))));
       mret (errno IllegalArgument, mem)
  else
    k ← gets iv_kernel;
    let '(out, ctx) := dispatch call req (mkCtx _ k mem) in
    _ ← modify (iv_set_kernel (ctx_kernel ctx));
    match out with
    | Ok v =>
        _ ← modify (iv_set_error None);
        _ ← update_gas_available;
        mret (0, write_out req v (ctx_mem ctx))
    | Err (CError e) =>
        _ ← modify (iv_set_error (Some (CauseSyscall "{module}" "{name}" e)));
        _ ← update_gas_available;
        mret (errno (se_number e), ctx_mem ctx)
    | Err (CAbort a) =>
        _ ← update_gas_available;
        throw a
    end.

Lemma link_syscall_split call mem req i :
  link_syscall call mem req i = (_ ← (_ ← charge_for_exec; charge_syscall_gas); link_rest call mem req) i.
Proof.
  unfold link_syscall, mbind, M_bind. destruct (charge_for_exec i) as [[[]|?] i1]; [|done].
  by destruct (charge_syscall_gas i1) as [[[]|?] i2].
Qed.

(** When there is room for the value, whatever the call did, the guest resumes
    in step. *)
Lemma link_rest_in_step n mem req i r i' :
  gt_ok (iv_gas i) → no_space req mem = false →
  link_rest (call_actor n) mem req i = (r, i') → in_step i' ∧
  (gas_available (iv_gas i') ≤ gas_available (iv_gas i))%N ∧
  iv_gas_global i' = Z.of_N (gas_available (iv_gas i')).
Proof.
  intros Hok Hns Hrun. unfold link_rest in Hrun. rewrite Hns in Hrun.
  rewrite (bind_ok _ _ i (iv_kernel i) i) in Hrun by done.
  pose proof (crel_dispatch false any (call_actor n) (rel_call_actor false any n) req
    (mkCtx _ (iv_kernel i) mem)) as Hd.
  destruct (dispatch (call_actor n) req (mkCtx _ (iv_kernel i) mem)) as [out ctx].
  destruct Hd as (_ & _ & _ & [(_ & _ & (Hgl & _ & Hgu) & _) _] & _); [done|]. simpl in Hgl, Hgu.
  fold (iv_gas i) in Hgl, Hgu. destruct (Hgu Hok) as [Hok1 Hle].
  rewrite (bind_ok _ _ i tt (iv_set_kernel (ctx_kernel ctx) i)) in Hrun by done.
  set (i1 := iv_set_kernel (ctx_kernel ctx) i) in Hrun.
  assert (∀ e, gt_ok (iv_gas (iv_set_error e i1)) ∧
    gas_available (iv_gas (iv_set_error e i1)) ≤ gas_available (iv_gas i))%N as Hav.
  { intros e. split; [done|]. unfold iv_gas, gas_available, gas_sub in *; simpl. lia. }
  assert (∀ e, ∃ i2, update_gas_available (iv_set_error e i1) = (Ok tt, i2) ∧ in_step i2 ∧
    (gas_available (iv_gas i2) ≤ gas_available (iv_gas i))%N ∧
    iv_gas_global i2 = Z.of_N (gas_available (iv_gas i2))) as Hup.
  { intros e. destruct (Hav e) as [Hoke Hlee].
    destruct (update_gas_available_ok _ Hoke) as (i2 & E2 & Hs2 & Hk2 & Hg2).
    exists i2. split; [done|]. split; [done|]. unfold iv_gas in *. rewrite Hk2. done. }
  destruct out as [v|[e|a]].
  - destruct (Hup None) as (i2 & E2 & Hs). rewrite (bind_ok _ _ i1 tt (iv_set_error None i1)) in Hrun by done.
    rewrite (bind_ok _ _ _ _ _ E2) in Hrun. by injection Hrun as <- <-.
  - set (er := Some _) in Hrun. destruct (Hup er) as (i2 & E2 & Hs).
    rewrite (bind_ok _ _ i1 tt (iv_set_error er i1)) in Hrun by done.
    rewrite (bind_ok _ _ _ _ _ E2) in Hrun. by injection Hrun as <- <-.
  - destruct (Hup (iv_last_error i1)) as (i2 & E2 & Hs).
    change (iv_set_error (iv_last_error i1) i1) with i1 in E2.
    rewrite (bind_ok _ _ _ _ _ E2) in Hrun. by injection Hrun as <- <-.
Qed.
End host_calls.

Section theorems.
Context `{H : Host} {ES : EnvSpec}.

(** execution is charged exactly. When the tracker and the guest's counter
    were in step, charging for execution makes the gas available exactly what
    the counter says, memory growth included; if the counter went negative the
    guest is out of gas and nothing is left. Nothing but the tracker changes. *)
Theorem exec_gas_exact i
    (Hs : in_step i) (Hg : i64_min ≤ iv_gas_global i ≤ Z.of_N (iv_last_gas_available i)) :
  ∃ i', gt_ok (iv_gas i') ∧ only_gas i i' ∧
    charge_for_exec i = (if 0 <=? iv_gas_global i then Ok tt else Err AOutOfGas, i') ∧
    gas_available (iv_gas i') = Z.to_N (iv_gas_global i).
Proof. by apply charge_for_exec_sync. Qed.

(** C11: host calls are metered. For every host call with room for its result,
    whatever it does and whatever it calls: if the guest can pay for what it ran
    and for the call, it resumes (or unwinds) with its counter equal to the gas
    available and in step with the tracker, having paid at least the price of a
    host call; otherwise it is out of gas. *)
Theorem host_call_metering n mem req i r i'
    (Hs : in_step i) (Hg : i64_min ≤ iv_gas_global i ≤ Z.of_N (iv_last_gas_available i))
    (Hns : no_space req mem = false)
    (Hrun : link_syscall (call_actor n) mem req i = (r, i')) :
  if decide (Z.of_N (host_cost i) ≤ iv_gas_global i)
  then in_step i' ∧ iv_gas_global i' = Z.of_N (gas_available (iv_gas i')) ∧
       Z.of_N (gas_available (iv_gas i') + host_cost i) ≤ iv_gas_global i
  else r = Err AOutOfGas ∧ gas_available (iv_gas i') = 0%N.
Proof.
  pose proof Hs as [Hok Hlast]. rewrite link_syscall_split in Hrun.
  assert (if 0 <=? iv_gas_global i
          then (exec_charge i + Z.to_N (iv_gas_global i) = gas_available (iv_gas i))%N
          else (gas_available (iv_gas i) < exec_charge i)%N) as Hexec.
  { destruct (charge_for_exec_sync i Hs Hg) as (j & _ & _ & E1 & Ha1).
    destruct (charge_for_exec_amount i Hok) as (j' & _ & _ & E2 & Ha2). rewrite E1 in E2.
    injection E2 as E2 <-. destruct (Z.leb_spec 0 (iv_gas_global i)), (decide _) in E2; try done; lia. }
  destruct (entry_charges i Hok) as (i1 & Hok1 & Hog1 & E1 & Hav1).
  destruct (Z.leb_spec 0 (iv_gas_global i)).
  - destruct (decide (exec_charge i + host_cost i ≤ gas_available (iv_gas i))%N).
    + rewrite (bind_ok _ _ _ _ _ E1) in Hrun.
      destruct (link_rest_in_step n mem req i1 r i' Hok1 Hns Hrun) as (? & ? & ?).
      rewrite decide_True by lia. split; [done|]. split; [done|lia].
    + rewrite (bind_err _ _ _ _ _ E1) in Hrun. injection Hrun as <- <-.
      rewrite decide_False by lia. split; [done|lia].
  - rewrite decide_False in E1 by lia. rewrite (bind_err _ _ _ _ _ E1) in Hrun. injection Hrun as <- <-.
    rewrite decide_False by lia. split; [done|lia].
Qed.

(** a host call without room for its result is charged twice. The early
    return skips the refresh, so the guest's counter and the point the next
    charge is measured from are stale: a second call at the same counter value
    charges the guest again for the execution it already paid for. *)
Theorem no_space_charges_twice call mem req i
    (Hs : in_step i) (Hg : 0 ≤ iv_gas_global i ≤ Z.of_N (iv_last_gas_available i))
    (Hns : no_space req mem = true)
    (Henough : (2 * (exec_charge i + host_cost i) ≤ gas_available (iv_gas i))%N) :
  ∃ i1 i2, link_syscall call mem req i = (Ok (errno IllegalArgument, mem), i1) ∧
    iv_gas_global i1 = iv_gas_global i ∧
    link_syscall call mem req i1 = (Ok (errno IllegalArgument, mem), i2) ∧
    gas_available (iv_gas i2) =
      (gas_available (iv_gas i) - 2 * (exec_charge i + host_cost i))%N.
Proof.
  pose proof Hs as [Hok Hlast].
  assert (∀ j, gt_ok (iv_gas j) → (exec_charge j + host_cost j ≤ gas_available (iv_gas j))%N →
    ∃ j', link_syscall call mem req j = (Ok (errno IllegalArgument, mem), j') ∧
      gt_ok (iv_gas j') ∧ exec_charge j' = exec_charge j ∧ host_cost j' = host_cost j ∧
      iv_gas_global j' = iv_gas_global j ∧
      gas_available (iv_gas j') = (gas_available (iv_gas j) - (exec_charge j + host_cost j))%N) as Hone.
  { intros j Hj Hle. destruct (entry_charges j Hj) as (j1 & Hj1 & Hog & E1 & Hav).
    rewrite decide_True in E1 by done. rewrite link_syscall_split, (bind_ok _ _ _ _ _ E1).
    unfold link_rest. rewrite Hns. eexists. split; [reflexivity|].
    destruct Hog as (_ & Hgl & Hla & _ & _ & Hc & _).
    unfold exec_charge, host_cost, wasm_prices, cm_price_list, cm_network, cm_context; simpl.
    rewrite Hgl, Hla, Hc. by split_and!. }
  destruct (Hone i Hok) as (i1 & E1 & Hok1 & Hx1 & Hh1 & Hgl1 & Hav1); [lia|].
  destruct (Hone i1 Hok1) as (i2 & E2 & _ & _ & _ & _ & Hav2); [lia|].
  exists i1, i2. split; [done|]. split; [done|]. split; [done|]. rewrite Hav2, Hav1, Hx1, Hh1. lia.
Qed.
End theorems.

(** ** The theorems at work *)

Definition demo_kernel : Kernel := mkKernel _ 50 50 2 0 false demo_cm registry_new.
(** A running guest with 1000 milligas used since the last refresh. *)
Definition demo_invocation : Inv :=
  let i := (update_gas_available (new_store demo_kernel)).2 in
  iv_set_global (iv_gas_global i - 1000) i.

Lemma demo_in_step : in_step demo_invocation.
Proof. split; [apply gt_new_ok|reflexivity]. Qed.

Lemma exec_gas_exact_witness :
  ∃ i', charge_for_exec demo_invocation = (Ok tt, i') ∧
    gas_available (iv_gas i') = 9999999999000%N.
Proof.
  destruct (exec_gas_exact demo_invocation demo_in_step ltac:(vm_compute; split; congruence))
    as (i' & _ & _ & E1 & E2).
  exists i'. split; [exact E1|]. rewrite E2. reflexivity.
Defined.

Lemma host_call_metering_witness :
  ∃ r i', link_syscall (call_actor 5) demo_memory (GasAvailable 8) demo_invocation = (r, i') ∧ in_step i'.
Proof.
  destruct (link_syscall (call_actor 5) demo_memory (GasAvailable 8) demo_invocation) as [r i'] eqn:Hrun.
  exists r, i'. split; [reflexivity|].
  pose proof (host_call_metering 5 demo_memory (GasAvailable 8) demo_invocation r i' demo_in_step
    ltac:(vm_compute; split; congruence) eq_refl Hrun) as Hm.
  rewrite decide_True in Hm by (vm_compute; congruence). apply Hm.
Defined.

Lemma no_space_charges_twice_witness :
  ∃ i1 i2, link_syscall (call_actor 5) demo_memory (GasAvailable 500) demo_invocation
             = (Ok (1, demo_memory), i1) ∧
    link_syscall (call_actor 5) demo_memory (GasAvailable 500) i1 = (Ok (1, demo_memory), i2) ∧
    gas_available (iv_gas i2) = (10000000000000 - 2 * (1000 + host_cost demo_invocation))%N.
Proof.
  destruct (no_space_charges_twice (call_actor 5) demo_memory (GasAvailable 500) demo_invocation demo_in_step
    ltac:(vm_compute; split; congruence) eq_refl ltac:(vm_compute; congruence))
    as (i1 & i2 & E1 & _ & E2 & E3).
  exists i1, i2. split; [exact E1|]. split; [exact E2|]. rewrite E3. reflexivity.
Defined.
