(* ===== verification/KernelSpec.v ===== *)
(** * What the kernel's operations do

    Functional specifications of the operations an actor changes the world
    with: events, IPLD blocks, its state root, its own deletion, and the
    creation of actors. *)

From S2P Require Import Prelude Effects Gas PriceList Address HistoryMap Types StateTree.
From S2P Require Import Access Blocks Machine Ipld Host CallManager Frame Kernel Syscalls.
From S2P Require Import Invocation Carry Supply MemoryEnv Depth Executor Demo Metering.
From stdpp Require Import gmap strings list fin_maps.
From Stdlib Require Import ZArith Lia.
#[local] Open Scope Z_scope.

(** Follow a run that succeeded, one bind at a time. *)
Ltac run_ok H x s E := apply bind_inv_ok in H as (x & s & E & H).

Section steps.
Context `{H : Host}.

Lemma require_ok b n msg k r k' :
  require b n msg k = (r, k') → k' = k ∧ (r = Ok tt → b = true).
Proof. unfold require. destruct b; intros [= <- <-]; split; done. Qed.

Lemma kcm_run {A} (m : M CM A) k r k' :
  kcm m k = (r, k') → ∃ c', m (k_cm k) = (r, c') ∧ k' = k_set_cm c' k.
Proof. unfold kcm, zoom. destruct (m (k_cm k)) as [r1 c']. intros [= <- <-]. by exists c'. Qed.

Lemma kblk_run {A} (m : M BlockRegistry A) k r k' :
  kblk m k = (r, k') → ∃ b', m (k_blocks k) = (r, b') ∧ k' = k_set_blocks b' k.
Proof. unfold kblk, zoom. destruct (m (k_blocks k)) as [r1 b']. intros [= <- <-]. by exists b'. Qed.

(** Charges leave the tree, the events and the registry alone. *)
Definition quiet (k k' : Kernel) : Prop :=
  k_blocks k' = k_blocks k ∧ k_actor_id k' = k_actor_id k ∧ k_read_only k' = k_read_only k ∧
  cm_tree (k_cm k') = cm_tree (k_cm k) ∧ cm_events (k_cm k') = cm_events (k_cm k).
#[export] Instance quiet_preorder : PreOrder quiet.
Proof. split; [by intros k|]. intros a b c (?&?&?&?&?) (?&?&?&?&?). split_and!; congruence. Qed.

Lemma quiet_gas {A} (m : M GasTracker A) : pres quiet (kcm (on_gas m)).
Proof.
  intros k. unfold kcm, on_gas, zoom. destruct (m (cm_gas (k_cm k))). by split_and!.
Qed.
Lemma quiet_charge f : pres quiet (kcm (charge_gas f)).
Proof.
  intros k. pose proof (charge_tree f (k_cm k)) as [Ht He]. unfold kcm, zoom.
  destruct (charge_gas f (k_cm k)) as [r c]. by split_and!.
Qed.
Lemma quiet_require b n msg : pres quiet (require b n msg).
Proof. intros k. unfold require. by destruct b. Qed.
Lemma quiet_run {A} (m : M Kernel A) k r k' : pres quiet m → m k = (r, k') → quiet k k'.
Proof. intros Hp Hm. pose proof (Hp k) as Hq. by rewrite Hm in Hq. Qed.
End steps.
#[export] Hint Resolve quiet_gas quiet_charge quiet_require : pres.

(** ** Events *)

Section events.
Context `{H : Host}.

(** An entry is the header's slice of the two buffers, within the limits. *)
Definition entry_of (h : EventHeader) (en : Entry) : Prop :=
  ee_flags en = eh_flags h ∧ ee_codec en = eh_codec h ∧
  Z.land (ee_flags en) (Z.lnot ALL_EVENT_FLAGS) = 0 ∧
  (ee_codec en = IPLD_RAW ∨ ee_codec en = CBOR) ∧
  Z.of_nat (length (ee_key en)) = eh_key_len h ∧ eh_key_len h ≤ MAX_KEY_LEN ∧
  Z.of_nat (length (ee_value en)) = eh_val_len h.

Definition header_wf (h : EventHeader) : Prop := 0 ≤ eh_key_len h ∧ 0 ≤ eh_val_len h.

Lemma slice_spec s a b x :
  0 ≤ a ≤ b → slice s a b = Some x →
  x = take (Z.to_nat (b - a)) (drop (Z.to_nat a) s) ∧ Z.of_nat (length x) = b - a ∧
  b ≤ Z.of_nat (length s).
Proof.
  unfold slice. intros Hab. destruct (Z.leb_spec b (Z.of_nat (length s))); [|done]. intros [= <-].
  split; [done|]. rewrite length_take, length_drop. lia.
Qed.

Lemma parse_entry_spec keys values ko vo h en :
  header_wf h → 0 ≤ ko → 0 ≤ vo → parse_entry keys values ko vo h = Ok en →
  entry_of h en ∧
  ee_key en = take (Z.to_nat (eh_key_len h)) (drop (Z.to_nat ko) keys) ∧
  ee_value en = take (Z.to_nat (eh_val_len h)) (drop (Z.to_nat vo) values).
Proof.
  intros [Hk Hv] Hko Hvo. unfold parse_entry, str_slice.
  destruct (Z.eqb_spec (Z.land (eh_flags h) (Z.lnot ALL_EVENT_FLAGS)) 0); [|done]. simpl.
  destruct (Z.ltb_spec MAX_KEY_LEN (eh_key_len h)); [done|].
  destruct (Z.ltb_spec MAX_TOTAL_VALUES_LEN (eh_val_len h)); [done|].
  destruct (_ && _); [|done].
  destruct (slice keys ko _) as [key|] eqn:Ek; [|done].
  destruct (slice values vo _) as [value|] eqn:Ev; [|done].
  apply slice_spec in Ek as (-> & Lk & _); [|lia]. apply slice_spec in Ev as (-> & Lv & _); [|lia].
  replace (ko + eh_key_len h - ko) with (eh_key_len h) in * by lia.
  replace (vo + eh_val_len h - vo) with (eh_val_len h) in * by lia.
  destruct (Z.eqb_spec (eh_codec h) IPLD_RAW), (Z.eqb_spec (eh_codec h) CBOR); simpl; try done;
    intros [= <-]; unfold entry_of; simpl; split_and!; try done; try lia; auto.
Qed.

Lemma take_drop_app (s : bytes) a b c :
  0 ≤ a → 0 ≤ b → 0 ≤ c →
  take (Z.to_nat b) (drop (Z.to_nat a) s) ++ take (Z.to_nat c) (drop (Z.to_nat (a + b)) s) =
  take (Z.to_nat (b + c)) (drop (Z.to_nat a) s).
Proof.
  intros. rewrite !Z2Nat.inj_add by lia. rewrite <-drop_drop. apply take_take_drop.
Qed.

Lemma parse_entries_spec keys values hs : ∀ ko vo ens ko' vo',
  Forall header_wf hs → 0 ≤ ko → 0 ≤ vo → parse_entries keys values ko vo hs = Ok (ens, ko', vo') →
  ko ≤ ko' ∧ vo ≤ vo' ∧ Forall2 entry_of hs ens ∧
  concat (ee_key <$> ens) = take (Z.to_nat (ko' - ko)) (drop (Z.to_nat ko) keys) ∧
  concat (ee_value <$> ens) = take (Z.to_nat (vo' - vo)) (drop (Z.to_nat vo) values).
Proof.
  induction hs as [|h hs IH]; intros ko vo ens ko' vo' Hwf Hko Hvo; simpl.
  { intros [= <- <- <-]. rewrite !Z.sub_diag. by split_and!. }
  apply Forall_cons in Hwf as [Hh Hwf].
  destruct (parse_entry keys values ko vo h) as [en|] eqn:Ee; [|done].
  destruct (parse_entry_spec _ _ _ _ _ _ Hh Hko Hvo Ee) as (Hen & Ek & Ev). destruct Hh as [Hk Hv].
  destruct (parse_entries _ _ _ _ hs) as [[[ens1 ko1] vo1]|] eqn:Er; [|done].
  destruct (IH (ko + eh_key_len h) (vo + eh_val_len h) _ _ _ Hwf ltac:(lia) ltac:(lia) Er) as (? & ? & Hf & Hck & Hcv).
  intros [= <- <- <-]. split; [lia|]. split; [lia|]. split; [by constructor|].
  rewrite !fmap_cons. cbn [concat]. rewrite Hck, Hcv, Ek, Ev, !take_drop_app by lia.
  split; do 2 f_equal; lia.
Qed.

Lemma emit_event_run hs keys values k r k' :
  Forall header_wf hs → k_emit_event hs keys values k = (r, k') →
  cm_tree (k_cm k') = cm_tree (k_cm k) ∧
  match r with
  | Err _ => evs_events (cm_events (k_cm k')) = evs_events (cm_events (k_cm k))
  | Ok _ => k_read_only k = false ∧ Z.of_nat (length hs) ≤ MAX_NR_ENTRIES ∧
      Z.of_nat (length values) ≤ MAX_TOTAL_VALUES_LEN ∧
      ∃ entries, Forall2 entry_of hs entries ∧
        concat (ee_key <$> entries) = keys ∧ concat (ee_value <$> entries) = values ∧
        evs_events (cm_events (k_cm k')) =
          evs_events (cm_events (k_cm k)) ++ [mkStampedEvent (k_actor_id k) entries]
  end.
Proof.
  intros Hwf Hrun. unfold k_emit_event in Hrun.
  rewrite (bind_ok _ _ k (k_read_only k) k) in Hrun by done.
  unfold mbind at 1, M_bind at 1, require at 1 in Hrun.
  destruct (k_read_only k) eqn:Hro; cbn [negb] in Hrun; [by injection Hrun as <- <-|].
  unfold mret at 1, M_ret at 1, mbind at 1, M_bind at 1 in Hrun. set (ch := λ pl, _) in Hrun.
  pose proof (quiet_charge ch k) as (_ & Hid & _ & Ht & He).
  destruct (kcm (charge_gas ch) k) as [[[]|e] k1]; cbn [snd] in Hid, Ht, He;
    [|injection Hrun as <- <-; by rewrite Ht, He].
  rewrite <-Ht, <-He, <-Hid.
  unfold require, mbind, M_bind, lift, gets, mret, M_ret, throw in Hrun.
  destruct (Z.leb_spec (Z.of_nat (length hs)) MAX_NR_ENTRIES); [|by injection Hrun as <- <-].
  destruct (Z.leb_spec (Z.of_nat (length values)) MAX_TOTAL_VALUES_LEN); [|by injection Hrun as <- <-].
  destruct (host_from_utf8 keys); cbn [ok_or] in Hrun; [|by injection Hrun as <- <-].
  destruct (parse_entries keys values 0 0 hs) as [[[ens ko] vo]|e] eqn:Ep; [|by injection Hrun as <- <-].
  destruct (parse_entries_spec _ _ _ _ _ _ _ _ Hwf (Z.le_refl 0) (Z.le_refl 0) Ep) as (_ & _ & Hf & Hk & Hv).
  destruct (Z.eqb_spec ko (Z.of_nat (length keys))) as [->|]; [|by injection Hrun as <- <-].
  destruct (Z.eqb_spec vo (Z.of_nat (length values))) as [->|]; [|by injection Hrun as <- <-].
  injection Hrun as <- <-. split; [done|]. split_and!; try done. exists ens.
  rewrite Z.sub_0_r, Nat2Z.id, Z2Nat.inj_0, drop_0, firstn_all in Hk, Hv. by split_and!.
Qed.
End events.

(** ** Blocks *)

Section blocks.
Context `{H : Host} {ES : EnvSpec}.

Definition k_store (k : Kernel) : Store := st_store (cm_tree (k_cm k)).

Lemma scan_quiet codec data : pres quiet (k_scan codec data).
Proof. unfold k_scan. solve_pres. Qed.
#[local] Hint Resolve scan_quiet : pres.

Lemma block_create_run codec data k id k' :
  br_ok (k_blocks k) → k_block_create codec data k = (Ok id, k') →
  codec ∈ ALLOWED_CODECS ∧ Z.of_nat (length data) ≤ max_block_size (cm_network (k_cm k)) ∧
  cm_tree (k_cm k') = cm_tree (k_cm k) ∧ br_ok (k_blocks k') ∧
  ∃ links, br_get id (k_blocks k') = Ok (mkBlock codec data links) ∧
    Forall (λ c, is_reachable c (k_blocks k) = true) links.
Proof.
  intros Hok Hrun. unfold k_block_create in Hrun.
  run_ok Hrun mx k1 Hm. injection Hm as <- <-.
  run_ok Hrun u1 k1 Hr1. apply require_ok in Hr1 as [-> Hr1]. specialize (Hr1 ltac:(by destruct u1)).
  run_ok Hrun u2 k2 Hr2. apply require_ok in Hr2 as [-> Hr2]. specialize (Hr2 ltac:(by destruct u2)).
  run_ok Hrun links k3 Hs. apply (quiet_run _ _ _ _ (scan_quiet _ _)) in Hs as (Hb3 & _ & _ & Ht3 & _).
  run_ok Hrun u3 k4 Hc. apply (quiet_run _ _ _ _ (quiet_charge _)) in Hc as (Hb4 & _ & _ & Ht4 & _).
  apply kblk_run in Hrun as (br & Hput & ->). simpl. rewrite Hb4, Hb3 in Hput.
  unfold put_check_reachable in Hput. set (blk := mkBlock codec data links) in Hput.
  pose proof (put_inner_spec blk true (k_blocks k) Hok) as Hps.
  pose proof (put_inner_get blk true (k_blocks k) Hok) as Hpg.
  rewrite Hput in Hps, Hpg. destruct Hps as (_ & _ & _ & _ & Hall). destruct Hpg as (Hok' & _ & _ & Hget & _).
  split; [by apply bool_decide_eq_true in Hr2|]. split; [lia|]. split; [congruence|]. split; [done|].
  exists links. split; [done|]. eapply Forall_impl; [by apply Hall|]. intros c Hc'.
  unfold is_reachable. by apply bool_decide_eq_true.
Qed.

Lemma block_link_run id hash_fun hash_len k cid k' :
  store_ok (k_store k) → k_block_link id hash_fun hash_len k = (Ok cid, k') →
  ∃ b, br_get id (k_blocks k) = Ok b ∧
    cid = mkCid (blk_codec b) BLAKE2B_256 (mh_digest BLAKE2B_256 (blk_data b)) ∧
    bs_get (k_store k') cid = Ok (Some (blk_data b)) ∧ store_ok (k_store k') ∧
    store_le (k_store k) (k_store k') ∧ k_blocks k' = mark_reachable cid (k_blocks k).
Proof.
  intros Hs Hrun. unfold k_block_link in Hrun.
  run_ok Hrun u1 k1 Hr1. apply require_ok in Hr1 as [-> Hr1]. specialize (Hr1 ltac:(by destruct u1)).
  apply andb_true_iff in Hr1 as [Hf%Z.eqb_eq Hn%Z.eqb_eq]. subst hash_fun hash_len.
  run_ok Hrun r k1 Hg. injection Hg as <- <-.
  run_ok Hrun b k1 Hl. unfold lift in Hl. injection Hl as Hb <-.
  run_ok Hrun code k1 Hl. unfold lift in Hl. injection Hl as _ <-.
  run_ok Hrun u2 k2 Hc. apply (quiet_run _ _ _ _ (quiet_charge _)) in Hc as (Hb2 & _ & _ & Ht2 & _).
  cbn zeta in Hrun. run_ok Hrun u3 k3 Hr3. apply require_ok in Hr3 as [-> _].
  rewrite take_ge in Hrun by (rewrite blake2b_len; done).
  set (c := mkCid _ _ _) in Hrun. run_ok Hrun u4 k4 Hw. apply kcm_run in Hw as (c4 & Hw & ->).
  unfold on_tree, zoom, st_write in Hw. rewrite Ht2 in Hw. fold (k_store k) in Hw.
  destruct (bs_put_keyed (k_store k) c (blk_data b)) as [[[]|e] s'] eqn:Hp; simpl in Hw; [|done].
  injection Hw as _ <-.
  run_ok Hrun u5 k5 Hm. injection Hm as _ <-. injection Hrun as <- <-.
  exists b. split; [done|]. split; [done|].
  destruct (put_keyed_ok _ _ _ _ _ Hs (eq_refl : cid_digest c = mh_digest (cid_hash_code c) _) Hp) as [??].
  split; [exact (put_keyed_get _ _ _ _ Hs (eq_refl : cid_digest c = mh_digest (cid_hash_code c) _) Hp)|].
  split; [done|]. split; [done|]. simpl. by rewrite Hb2.
Qed.

Lemma block_open_run cid k id stat k' :
  br_ok (k_blocks k) → k_block_open cid k = (Ok (id, stat), k') →
  is_reachable cid (k_blocks k) = true ∧ cm_tree (k_cm k') = cm_tree (k_cm k) ∧ br_ok (k_blocks k') ∧
  ∃ data links, bs_get (k_store k) cid = Ok (Some data) ∧
    stat = (cid_codec cid, blk_size (mkBlock (cid_codec cid) data links)) ∧
    br_get id (k_blocks k') = Ok (mkBlock (cid_codec cid) data links) ∧
    ∀ c, c ∈ br_reachable (k_blocks k') ↔ c ∈ br_reachable (k_blocks k) ∨ c ∈ links.
Proof.
  intros Hok Hrun. unfold k_block_open in Hrun.
  run_ok Hrun u1 k1 Hc. apply (quiet_run _ _ _ _ (quiet_charge _)) in Hc as (Hb1 & _ & _ & Ht1 & _).
  run_ok Hrun reach k2 Hg. injection Hg as <- <-.
  run_ok Hrun u2 k2 Hr. apply require_ok in Hr as [-> Hr]. specialize (Hr ltac:(by destruct u2)).
  run_ok Hrun r k2 Hg. injection Hg as <- <-.
  run_ok Hrun o k2 Hl. unfold lift in Hl. injection Hl as Ho <-.
  run_ok Hrun data k2 Hl. unfold lift in Hl. injection Hl as Hd <-.
  run_ok Hrun links k3 Hs. apply (quiet_run _ _ _ _ (scan_quiet _ _)) in Hs as (Hb3 & _ & _ & Ht3 & _).
  run_ok Hrun u3 k4 Hc. apply (quiet_run _ _ _ _ (quiet_charge _)) in Hc as (Hb4 & _ & _ & Ht4 & _).
  cbn zeta in Hrun. run_ok Hrun id0 k5 Hp. apply kblk_run in Hp as (br & Hput & ->).
  injection Hrun as <- <- <-. simpl. rewrite Hb1 in Hr. split; [done|]. split; [congruence|].
  rewrite Hb4, Hb3, Hb1 in Hput. unfold put_reachable in Hput.
  pose proof (put_inner_spec (mkBlock (cid_codec cid) data links) false (k_blocks k) Hok) as Hps.
  pose proof (put_inner_get (mkBlock (cid_codec cid) data links) false (k_blocks k) Hok) as Hpg.
  rewrite Hput in Hps, Hpg. destruct Hps as (_ & _ & _ & Hreach & _). destruct Hpg as (Hok' & _ & _ & Hget & _).
  split; [done|]. exists data, links. split.
  - unfold k_store. rewrite <-Ht1. destruct (bs_get _ cid) as [x|]; [|done]. simpl in Ho. injection Ho as ->.
    destruct o; [|done]. simpl in Hd. by injection Hd as ->.
  - split; [done|]. split; [done|]. intros c. rewrite Hreach. simpl. naive_solver.
Qed.

Lemma block_read_run id offset buf_len k n bz k' :
  0 ≤ offset → 0 ≤ buf_len → k_block_read id offset buf_len k = (Ok (n, bz), k') →
  k_blocks k' = k_blocks k ∧ cm_tree (k_cm k') = cm_tree (k_cm k) ∧ offset + buf_len ≤ i32_max ∧
  ∃ b, br_get id (k_blocks k) = Ok b ∧
    bz = take (Z.to_nat buf_len) (drop (Z.to_nat offset) (blk_data b)) ∧
    (Z.of_nat (length (blk_data b)) ≤ i32_max →
     n = Z.of_nat (length (blk_data b)) - (offset + buf_len)).
Proof.
  intros Ho Hl Hrun. unfold k_block_read in Hrun. cbn zeta in Hrun.
  run_ok Hrun u1 k1 Hr. apply require_ok in Hr as [-> Hr]. specialize (Hr ltac:(by destruct u1)).
  run_ok Hrun r k1 Hg. injection Hg as <- <-.
  run_ok Hrun b k1 Hlf. unfold lift in Hlf. injection Hlf as Hb <-.
  run_ok Hrun u2 k2 Hc. apply (quiet_run _ _ _ _ (quiet_charge _)) in Hc as (Hb2 & _ & _ & Ht2 & _).
  injection Hrun as <- <- <-. apply Z.leb_le in Hr.
  split; [done|]. split; [done|]. split; [done|]. exists b. split; [done|]. split.
  - set (len := length (blk_data b)). destruct (decide (buf_len ≤ Z.max (Z.of_nat len - offset) 0)).
    + by rewrite Z.min_r by lia.
    + rewrite Z.min_l by lia. rewrite !take_ge; [done|rewrite length_drop; fold len; lia..].
  - intros Hlen. unfold wrap_i32, wrap32, i32_max in *. case_tests; try lia;
      Z.div_mod_to_equations; lia.
Qed.
End blocks.

(** ** Actors *)

Section actors.
Context `{H : Host} {ES : EnvSpec}.
Implicit Type m : gmap bytes ActorState.

Definition k_at m (k : Kernel) : ActorID → option ActorState := cm_at m (k_cm k).
Definition k_inv m (k : Kernel) : Prop := cm_inv m (k_cm k).

(** Charges and checks, on the actors. *)
Lemma quiet_at m k k' : quiet k k' → k_inv m k → k_inv m k' ∧ ∀ j, k_at m k' j = k_at m k j.
Proof. intros (_ & _ & _ & Ht & _) Hi. unfold k_inv, cm_inv, k_at, cm_at. by rewrite Ht. Qed.

Lemma set_root_run m new k r k' :
  k_inv m k → k_set_root new k = (r, k') →
  k_inv m k' ∧ evs_events (cm_events (k_cm k')) = evs_events (cm_events (k_cm k)) ∧
  match r with
  | Err _ => ∀ j, k_at m k' j = k_at m k j
  | Ok _ => k_read_only k = false ∧ is_reachable new (k_blocks k) = true ∧
      ∃ a, k_at m k (k_actor_id k) = Some a ∧
        ∀ j, k_at m k' j = if decide (k_actor_id k = j) then Some (as_set_state new a) else k_at m k j
  end.
Proof.
  intros Hi Hrun. unfold k_set_root in Hrun.
  rewrite (bind_ok _ _ k (k_read_only k) k) in Hrun by done.
  unfold mbind at 1, M_bind at 1, require at 1 in Hrun.
  destruct (k_read_only k) eqn:Hro; cbn [negb] in Hrun; [by injection Hrun as <- <-|].
  unfold mret at 1, M_ret at 1, mbind at 1, M_bind at 1 in Hrun.
  pose proof (quiet_charge on_set_root k) as Hq. destruct (kcm (charge_gas on_set_root) k) as [[[]|e] k1];
    cbn [snd] in Hq; destruct (quiet_at m _ _ Hq Hi) as [Hi1 Hat1]; destruct Hq as (Hb & Hid & _ & _ & He);
    [|injection Hrun as <- <-; by rewrite He].
  rewrite (bind_ok _ _ k1 (is_reachable new (k_blocks k1)) k1) in Hrun by done.
  unfold mbind at 1, M_bind at 1, require at 1 in Hrun. rewrite Hb in Hrun.
  destruct (is_reachable new (k_blocks k)) eqn:Hre; [|injection Hrun as <- <-; by rewrite He].
  unfold mret at 1, M_ret at 1 in Hrun.
  rewrite (bind_ok _ _ k1 (k_actor_id k1) k1) in Hrun by done. rewrite Hid in Hrun.
  unfold mbind at 1, M_bind at 1, kcm, zoom in Hrun.
  destruct (cm_update_actor _ _ _ (k_cm k1)) as [ru c2] eqn:Hu.
  destruct (cm_update_at m _ _ _ _ _ _ Hi1 Hu) as (Hi2 & He2 & Hr2).
  assert (k_inv m k' ∧ evs_events (cm_events (k_cm k')) = evs_events (cm_events (k_cm k))) as [??].
  { destruct ru; injection Hrun as <- <-; (split; [done|]); simpl; by rewrite He2, He. }
  split; [done|]. split; [done|]. destruct ru as [a|e]; injection Hrun as <- <-.
  - split; [done|]. split; [done|]. destruct Hr2 as [Ha Hs]. exists a. rewrite <-Hat1. split; [done|].
    intros j. rewrite <-(Hat1 j). apply Hs.
  - intros j. rewrite <-Hat1. apply Hr2.
Qed.

Lemma create_actor_run m code id da k r k' :
  k_inv m k → k_create_actor code id da k = (r, k') →
  k_inv m k' ∧ evs_events (cm_events (k_cm k')) = evs_events (cm_events (k_cm k)) ∧
  match r with
  | Err _ => ∀ j, k_at m k' j = k_at m k j
  | Ok _ => k_actor_id k = INIT_ACTOR_ID ∧ k_read_only k = false ∧
      is_placeholder_actor (cm_builtin (k_cm k)) code = false ∧
      ∃ a, created (cm_builtin (k_cm k)) code da (k_at m k id) a ∧
        ∀ j, k_at m k' j = if decide (id = j) then Some a else k_at m k j
  end.
Proof.
  intros Hi Hrun. unfold k_create_actor in Hrun.
  rewrite (bind_ok _ _ k (k_actor_id k) k) in Hrun by done.
  unfold mbind at 1, M_bind at 1, require at 1 in Hrun.
  destruct (Z.eqb_spec (k_actor_id k) INIT_ACTOR_ID) as [Hid|]; [|by injection Hrun as <- <-].
  unfold mret at 1, M_ret at 1 in Hrun. rewrite (bind_ok _ _ k (k_read_only k) k) in Hrun by done.
  unfold mbind at 1, M_bind at 1, require at 1 in Hrun.
  destruct (k_read_only k) eqn:Hro; cbn [negb] in Hrun; [by injection Hrun as <- <-|].
  unfold mret, M_ret in Hrun. apply kcm_run in Hrun as (c' & Hc & ->).
  destruct (cm_create_at m _ _ _ _ _ _ Hi Hc) as (? & ? & Hr). split; [done|]. split; [done|].
  destruct r as [[]|]; [|done]. destruct Hr as [? Hr]. split_and!; try done; exact Hr.
Qed.

Lemma current_balance_run m k b k' :
  k_inv m k → k_current_balance k = (Ok b, k') →
  b = bal (k_at m k (k_actor_id k)) ∧ k_inv m k' ∧ k_actor_id k' = k_actor_id k ∧
  evs_events (cm_events (k_cm k')) = evs_events (cm_events (k_cm k)) ∧
  ∀ j, k_at m k' j = k_at m k j.
Proof.
  intros Hi Hrun. unfold k_current_balance in Hrun.
  run_ok Hrun u k1 Hc. apply (quiet_run _ _ _ _ (quiet_charge _)) in Hc as Hq.
  destruct (quiet_at m _ _ Hq Hi) as [Hi1 Hat1]. destruct Hq as (_ & Hid & _ & _ & He).
  run_ok Hrun o k2 Hg. injection Hrun as <- <-. unfold k_get_self in Hg.
  rewrite (bind_ok _ _ k1 (k_actor_id k1) k1) in Hg by done. apply kcm_run in Hg as (c2 & Hg & ->).
  destruct (cm_get_actor_at m _ _ _ _ Hi1 Hg) as [Hs2 Ho2]. destruct (same_at m _ _ Hs2 Hi1) as [Hi2 Hat2].
  rewrite (Ho2 o eq_refl). split; [rewrite <-Hat1, <-Hid; done|]. split; [done|]. split; [done|].
  split; [simpl; rewrite (proj2 Hs2); by rewrite He|]. intros j. rewrite <-Hat1. apply Hat2.
Qed.

(** What self-destruction leaves of the actors. *)
Definition destructed m (k k' : Kernel) : Prop :=
  let id := k_actor_id k in
  let b := bal (k_at m k id) in
  ∀ j, k_at m k' j =
    if decide (j = id) then None
    else if decide (j = BURNT_FUNDS_ACTOR_ID)
         then (λ a, as_set_balance (as_balance a + b) a) <$> k_at m k j
         else k_at m k j.

Lemma self_destruct_run m burn_unspent k k' :
  k_inv m k → k_self_destruct burn_unspent k = (Ok tt, k') →
  k_inv m k' ∧ evs_events (cm_events (k_cm k')) = evs_events (cm_events (k_cm k)) ∧
  k_read_only k = false ∧ (bal (k_at m k (k_actor_id k)) ≠ 0 → burn_unspent = true) ∧
  (bal (k_at m k (k_actor_id k)) ≠ 0 → k_actor_id k ≠ BURNT_FUNDS_ACTOR_ID →
     is_Some (k_at m k BURNT_FUNDS_ACTOR_ID)) ∧
  destructed m k k'.
Proof.
  intros Hi Hrun. unfold k_self_destruct in Hrun.
  run_ok Hrun ro k0 Hg. injection Hg as <- <-.
  run_ok Hrun u1 k1 Hr. apply require_ok in Hr as [-> Hr]. specialize (Hr ltac:(by destruct u1)).
  apply negb_true_iff in Hr.
  run_ok Hrun u2 k1 Hc. apply (quiet_run _ _ _ _ (quiet_charge _)) in Hc as Hq.
  destruct (quiet_at m _ _ Hq Hi) as [Hi1 Hat1]. destruct Hq as (_ & Hid1 & _ & _ & He1).
  run_ok Hrun b k2 Hb. destruct (current_balance_run m _ _ _ Hi1 Hb) as (Eb & Hi2 & Hid2 & He2 & Hat2).
  rewrite Hat1, Hid1 in Eb. run_ok Hrun aid k3 Hg. injection Hg as <- <-. rewrite Hid2, Hid1 in Hrun.
  run_ok Hrun u3 k3 Ht. apply kcm_run in Hrun as (c4 & Hdel & ->).
  assert (k_inv m k3 ∧ evs_events (cm_events (k_cm k3)) = evs_events (cm_events (k_cm k)) ∧
    (b ≠ 0 → burn_unspent = true) ∧
    (b ≠ 0 → k_actor_id k ≠ BURNT_FUNDS_ACTOR_ID → is_Some (k_at m k BURNT_FUNDS_ACTOR_ID)) ∧
    ∀ j, j ≠ k_actor_id k → k_at m k3 j = if decide (j = BURNT_FUNDS_ACTOR_ID)
      then (λ a, as_set_balance (as_balance a + b) a) <$> k_at m k j else k_at m k j)
    as (Hi3 & He3 & Hburn & Hsome & Hat3).
  { destruct (Z.eqb_spec b 0) as [->|Hne].
    - injection Ht as _ <-. split; [done|]. split; [congruence|]. split; [done|]. split; [done|].
      intros j _. rewrite Hat2, Hat1. case_decide; [|done]. destruct (k_at m k j) as [a|]; [|done]. simpl.
      rewrite Z.add_0_r. by destruct a.
    - run_ok Ht u4 k5 Hreq. apply require_ok in Hreq as [-> Hreq]. specialize (Hreq ltac:(by destruct u4)).
      run_ok Ht r5 k5 Hatt. unfold attempt in Hatt.
      destruct (kcm (cm_transfer _ _ b) k2) as [rt k6] eqn:Htr. injection Hatt as <- <-.
      unfold lift in Ht. injection Ht as Hrt <-. destruct rt as [[]|[]]; try done.
      apply kcm_run in Htr as (c6 & Htr & ->).
      destruct (cm_transfer_at m _ _ _ _ _ _ Hi2 Htr) as (Hi6 & He6 & _ & fa & Hfa & _ & Hmv).
      split; [done|]. split; [simpl; congruence|]. split; [done|].
      destruct Hmv as [[Hsame Hat]|(Hdiff & ta & Hta & Hat)].
      + split; [congruence|]. intros j Hj. rewrite decide_False by congruence.
        rewrite <-Hat1, <-Hat2. apply Hat.
      + fold (k_at m k2 BURNT_FUNDS_ACTOR_ID) in Hta. rewrite Hat2, Hat1 in Hta. split; [by eexists|].
        intros j Hj. unfold k_at at 1. simpl. rewrite Hat.
        fold (k_at m k2 j). rewrite Hat2, Hat1. repeat case_decide; try congruence. subst j. by rewrite Hta. }
  destruct (cm_delete_actor_at m _ _ _ _ Hi3 Hdel) as (Hi4 & He4 & Hat4).
  split; [done|]. split; [simpl; congruence|]. split; [done|]. rewrite <-Eb.
  split; [done|]. split; [done|]. intros j. unfold k_at at 1. simpl. rewrite Hat4. rewrite <-Eb.
  repeat case_decide; try congruence.
  - fold (k_at m k3 j). by rewrite Hat3, decide_True by congruence.
  - fold (k_at m k3 j). by rewrite Hat3, decide_False by congruence.
Qed.

(** The burnt funds are still there. *)
Lemma destructed_total m bm (Hbm : ∀ id, m !! actor_key id = bm !! id) k k' :
  destructed m k k' → k_actor_id k ≠ BURNT_FUNDS_ACTOR_ID →
  (bal (k_at m k (k_actor_id k)) ≠ 0 → is_Some (k_at m k BURNT_FUNDS_ACTOR_ID)) →
  token_total bm (k_cm k') = token_total bm (k_cm k).
Proof.
  intros Hd Hne Hsome. unfold token_total, tree_total.
  set (id := k_actor_id k) in *. set (b := bal (k_at m k id)) in *.
  set (v := tree_view bm (cm_tree (k_cm k))).
  assert (∀ j, v !! j = k_at m k j) as Hv by (intros j; apply (tree_view_at m bm Hbm)).
  destruct (k_at m k BURNT_FUNDS_ACTOR_ID) as [ba|] eqn:Hba.
  - assert (tree_view bm (cm_tree (k_cm k')) =
      delete id (<[BURNT_FUNDS_ACTOR_ID := as_set_balance (as_balance ba + b) ba]> v)) as ->.
    { apply map_eq. intros j. rewrite (tree_view_at m bm Hbm). fold (cm_at m (k_cm k') j).
      fold (k_at m k' j). rewrite Hd. fold id. fold b. rewrite lookup_delete, lookup_insert, Hv.
      repeat case_decide; try congruence. subst j. by rewrite Hba. }
    rewrite balance_sum_delete, lookup_insert_ne, balance_sum_insert, !Hv, Hba by done.
    fold b. simpl. lia.
  - assert (b = 0) as Hb0 by (destruct (decide (b = 0)); [done|by destruct (Hsome n)]).
    assert (tree_view bm (cm_tree (k_cm k')) = delete id v) as ->.
    { apply map_eq. intros j. rewrite (tree_view_at m bm Hbm). fold (cm_at m (k_cm k') j).
      fold (k_at m k' j). rewrite Hd. fold id. rewrite lookup_delete, Hv.
      repeat case_decide; try congruence. subst j. by rewrite Hba. }
    rewrite balance_sum_delete, Hv. fold b. lia.
Qed.
End actors.

(** ** The theorems *)

Section theorems.
Context `{H : Host} {ES : EnvSpec}.

(** events. Emitting an event either fails and appends nothing, or appends
    exactly one event, stamped with the running actor, whose entries partition
    the key and value buffers exactly in the order of their headers, with valid
    flags and codecs and within the limits on entries, keys and values; it is
    never done read-only and never touches the state tree. *)
Theorem emit_event_spec hs keys values k r k'
    (Hwf : Forall header_wf hs) (Hrun : k_emit_event hs keys values k = (r, k')) :
  cm_tree (k_cm k') = cm_tree (k_cm k) ∧
  match r with
  | Err _ => evs_events (cm_events (k_cm k')) = evs_events (cm_events (k_cm k))
  | Ok _ => k_read_only k = false ∧ Z.of_nat (length hs) ≤ MAX_NR_ENTRIES ∧
      Z.of_nat (length values) ≤ MAX_TOTAL_VALUES_LEN ∧
      ∃ entries, Forall2 entry_of hs entries ∧
        concat (ee_key <$> entries) = keys ∧ concat (ee_value <$> entries) = values ∧
        evs_events (cm_events (k_cm k')) =
          evs_events (cm_events (k_cm k)) ++ [mkStampedEvent (k_actor_id k) entries]
  end.
Proof. by apply emit_event_run. Qed.

(** blocks. A block created, linked, opened by the CID the link returned
    and read through the new handle gives back the bytes it was created from,
    cut to the requested range, with the number of bytes left after it; only
    blocks of allowed codecs and size whose links were all reachable are ever
    created, and the CID is the blake2b hash of the bytes. *)
Theorem block_roundtrip codec data k0 id k1 cid k2 id' stat k3 offset buf_len n bz k4
    (Hbr : br_ok (k_blocks k0)) (Hst : store_ok (k_store k0))
    (Ho : 0 ≤ offset) (Hl : 0 ≤ buf_len) (Hd : Z.of_nat (length data) ≤ i32_max)
    (Hcreate : k_block_create codec data k0 = (Ok id, k1))
    (Hlink : k_block_link id BLAKE2B_256 32 k1 = (Ok cid, k2))
    (Hopen : k_block_open cid k2 = (Ok (id', stat), k3))
    (Hread : k_block_read id' offset buf_len k3 = (Ok (n, bz), k4)) :
  codec ∈ ALLOWED_CODECS ∧ Z.of_nat (length data) ≤ max_block_size (cm_network (k_cm k0)) ∧
  cid = mkCid codec BLAKE2B_256 (mh_digest BLAKE2B_256 data) ∧
  bz = take (Z.to_nat buf_len) (drop (Z.to_nat offset) data) ∧
  n = Z.of_nat (length data) - (offset + buf_len) ∧
  ∃ links, br_get id (k_blocks k1) = Ok (mkBlock codec data links) ∧
    Forall (λ c, is_reachable c (k_blocks k0) = true) links.
Proof.
  destruct (block_create_run _ _ _ _ _ Hbr Hcreate) as (Hc & Hsz & Ht1 & Hbr1 & links & Hg1 & Hall).
  assert (store_ok (k_store k1)) as Hs1 by (unfold k_store; by rewrite Ht1).
  destruct (block_link_run _ _ _ _ _ _ Hs1 Hlink) as (b & Hb & -> & Hget & _ & _ & Hb2).
  rewrite Hg1 in Hb. injection Hb as <-. simpl in *.
  assert (br_ok (k_blocks k2)) as Hbr2 by (rewrite Hb2; by apply mark_reachable_ok).
  destruct (block_open_run _ _ _ _ _ Hbr2 Hopen) as (_ & _ & _ & data' & links' & Hget' & _ & Hg3 & _).
  rewrite Hget in Hget'. injection Hget' as <-.
  destruct (block_read_run _ _ _ _ _ _ _ Ho Hl Hread) as (_ & _ & _ & b & Hb & -> & Hn).
  rewrite Hg3 in Hb. injection Hb as <-. simpl in *.
  split; [done|]. split; [done|]. split; [done|]. split; [done|]. split; [by apply Hn|]. by exists links.
Qed.

(** State roots. [set_root] either fails, changing no actor, or sets the
    running actor's state to the new root and nothing else; it succeeds only
    outside read-only calls and only for a root the actor could reach. *)
Theorem set_root_spec m new k r k'
    (Hi : k_inv m k) (Hrun : k_set_root new k = (r, k')) :
  k_inv m k' ∧ evs_events (cm_events (k_cm k')) = evs_events (cm_events (k_cm k)) ∧
  match r with
  | Err _ => ∀ j, k_at m k' j = k_at m k j
  | Ok _ => k_read_only k = false ∧ is_reachable new (k_blocks k) = true ∧
      ∃ a, k_at m k (k_actor_id k) = Some a ∧
        ∀ j, k_at m k' j = if decide (k_actor_id k = j) then Some (as_set_state new a) else k_at m k j
  end.
Proof. by apply set_root_run. Qed.

(** actor creation. Only the init actor, outside read-only calls, creates
    actors; what it installs is a fresh actor without funds in an empty slot, or
    a placeholder with the same delegated address, which keeps its balance and
    gets its code. Any other existing actor is refused, and a refusal changes no
    actor. *)
Theorem create_actor_spec m code id da k r k'
    (Hi : k_inv m k) (Hrun : k_create_actor code id da k = (r, k')) :
  k_inv m k' ∧ evs_events (cm_events (k_cm k')) = evs_events (cm_events (k_cm k)) ∧
  match r with
  | Err _ => ∀ j, k_at m k' j = k_at m k j
  | Ok _ => k_actor_id k = INIT_ACTOR_ID ∧ k_read_only k = false ∧
      is_placeholder_actor (cm_builtin (k_cm k)) code = false ∧
      ∃ a, created (cm_builtin (k_cm k)) code da (k_at m k id) a ∧
        ∀ j, k_at m k' j = if decide (id = j) then Some a else k_at m k j
  end.
Proof. by apply create_actor_run. Qed.

(** self-destruction. When it succeeds the running actor is gone and its
    balance is on the burnt-funds actor (only if the caller agreed to burn it);
    no other actor changes and, unless the burnt-funds actor destroyed itself,
    no tokens are lost. *)
Theorem self_destruct_spec m bm burn_unspent k k'
    (Hbm : ∀ id, m !! actor_key id = bm !! id) (Hi : k_inv m k)
    (Hrun : k_self_destruct burn_unspent k = (Ok tt, k')) :
  k_inv m k' ∧ k_read_only k = false ∧
  (bal (k_at m k (k_actor_id k)) ≠ 0 → burn_unspent = true) ∧
  destructed m k k' ∧
  (k_actor_id k ≠ BURNT_FUNDS_ACTOR_ID → token_total bm (k_cm k') = token_total bm (k_cm k)).
Proof.
  destruct (self_destruct_run m _ _ _ Hi Hrun) as (? & _ & ? & ? & Hs & Hd).
  split; [done|]. split; [done|]. split; [done|]. split; [done|].
  intros Hne. apply (destructed_total m bm Hbm k k' Hd Hne). auto.
Qed.

(** self-destruction out of gas is fatal. When the gas runs out while the
    remaining balance is being burnt, the out-of-gas error is turned into a
    fatal one, which aborts the whole message instead of ending the call. *)
Theorem self_destruct_out_of_gas_fatal k k1 b k2 c3
    (Hro : k_read_only k = false)
    (Hcharge : kcm (charge_gas (λ _, on_delete_actor)) k = (Ok tt, k1))
    (Hbal : k_current_balance k1 = (Ok b, k2)) (Hne : b ≠ 0)
    (Hoog : cm_transfer (k_actor_id k2) BURNT_FUNDS_ACTOR_ID b (k_cm k2) = (Err OutOfGas, c3)) :
  k_self_destruct true k = (Err (Fatal "out of gas"), k_set_cm c3 k2).
Proof.
  unfold k_self_destruct. rewrite (bind_ok _ _ k (k_read_only k) k) by done. rewrite Hro.
  rewrite (bind_ok _ _ k tt k) by done. rewrite (bind_ok _ _ _ _ _ Hcharge), (bind_ok _ _ _ _ _ Hbal).
  rewrite (bind_ok _ _ k2 (k_actor_id k2) k2) by done. destruct (Z.eqb_spec b 0); [done|].
  unfold mbind, M_bind, require, mret, M_ret, attempt, kcm, zoom, lift. by rewrite Hoog.
Qed.
End theorems.

(** ** The theorems at work *)

(** The kernel of an actor in the concrete machine. *)
Definition demo_kernel_of (id : ActorID) : Kernel := mkKernel _ 50 id 2 0 false demo_cm registry_new.

Definition demo_header : EventHeader := mkEventHeader 1 IPLD_RAW 2 3.
Lemma emit_event_spec_witness :
  ∃ k', k_emit_event [demo_header] [97; 98] [1; 2; 3] demo_kernel = (Ok tt, k') ∧
    length (evs_events (cm_events (k_cm k'))) = 1%nat.
Proof.
  destruct (k_emit_event [demo_header] [97; 98] [1; 2; 3] demo_kernel) as [r k'] eqn:Hrun.
  assert (r = Ok tt) as ->.
  { replace r with (k_emit_event [demo_header] [97; 98] [1; 2; 3] demo_kernel).1
      by (rewrite Hrun; reflexivity). vm_compute. reflexivity. }
  exists k'. split; [reflexivity|].
  destruct (emit_event_spec [demo_header] [97; 98] [1; 2; 3] demo_kernel (Ok tt) k'
    ltac:(repeat constructor; simpl; lia) Hrun) as (_ & _ & _ & _ & es & _ & _ & _ & Hev).
  rewrite Hev. reflexivity.
Defined.

(** What a run returned, made concrete. *)
Lemma first_of {A B} (p : A * B) a b x : p = (a, b) → p.1 = x → a = x.
Proof. intros ->. done. Qed.

Lemma block_roundtrip_witness :
  ∃ id k1 cid k2 id' stat k3 n bz k4,
    k_block_create IPLD_RAW [1; 2; 3] demo_kernel = (Ok id, k1) ∧
    k_block_link id BLAKE2B_256 32 k1 = (Ok cid, k2) ∧ k_block_open cid k2 = (Ok (id', stat), k3) ∧
    k_block_read id' 1 5 k3 = (Ok (n, bz), k4) ∧ bz = [2; 3] ∧ n = -3.
Proof.
  destruct (k_block_create IPLD_RAW [1; 2; 3] demo_kernel) as [r1 k1] eqn:H1.
  assert (r1 = Ok 1) as -> by (eapply first_of; [exact H1|vm_compute; reflexivity]).
  destruct (k_block_link 1 BLAKE2B_256 32 k1) as [r2 k2] eqn:H2.
  set (cid := block_cid IPLD_RAW BLAKE2B_256 [1; 2; 3]).
  assert (r2 = Ok cid) as ->.
  { eapply first_of; [exact H2|]. replace k1 with (k_block_create IPLD_RAW [1; 2; 3] demo_kernel).2
      by (rewrite H1; reflexivity). vm_compute. reflexivity. }
  destruct (k_block_open cid k2) as [r3 k3] eqn:H3.
  assert (r3 = Ok (2, (IPLD_RAW, 3))) as ->.
  { eapply first_of; [exact H3|]. replace k2 with (k_block_link 1 BLAKE2B_256 32
      (k_block_create IPLD_RAW [1; 2; 3] demo_kernel).2).2 by (rewrite H1; simpl; rewrite H2; reflexivity).
    vm_compute. reflexivity. }
  destruct (k_block_read 2 1 5 k3) as [r4 k4] eqn:H4.
  assert (r4 = Ok (-3, [2; 3])) as ->.
  { eapply first_of; [exact H4|]. replace k3 with (k_block_open cid (k_block_link 1 BLAKE2B_256 32
      (k_block_create IPLD_RAW [1; 2; 3] demo_kernel).2).2).2
      by (rewrite H1; simpl; rewrite H2; simpl; rewrite H3; reflexivity). vm_compute. reflexivity. }
  exists 1, k1, cid, k2, 2, (IPLD_RAW, 3), k3, (-3), [2; 3], k4.
  split; [reflexivity|]. split; [exact H2|]. split; [exact H3|]. split; [exact H4|].
  destruct (block_roundtrip IPLD_RAW [1; 2; 3] demo_kernel 1 k1 cid k2 2 (IPLD_RAW, 3) k3 1 5 (-3) [2; 3] k4
    registry_new_ok (proj1 demo_inv) ltac:(lia) ltac:(lia) ltac:(vm_compute; congruence) H1 H2 H3 H4)
    as (_ & _ & _ & Hb & Hn & _).
  split; [exact Hb|exact Hn].
Defined.

Lemma set_root_spec_witness :
  ∃ r k', k_set_root (demo_code 1) demo_kernel = (r, k') ∧
    k_at demo_hamt k' 50 = k_at demo_hamt demo_kernel 50.
Proof.
  destruct (k_set_root (demo_code 1) demo_kernel) as [r k'] eqn:Hrun. exists r, k'. split; [reflexivity|].
  destruct r as [[]|e].
  - exfalso. apply (f_equal fst) in Hrun. vm_compute in Hrun. discriminate.
  - destruct (set_root_spec demo_hamt (demo_code 1) demo_kernel _ k' demo_cm_inv Hrun) as (_ & _ & Hat).
    apply Hat.
Defined.

Lemma create_actor_spec_witness :
  ∃ k', k_create_actor (demo_code 7) 200 None (demo_kernel_of 1) = (Ok tt, k') ∧
    k_at demo_hamt k' 200 = Some (new_empty (demo_code 7) None).
Proof.
  destruct (k_create_actor (demo_code 7) 200 None (demo_kernel_of 1)) as [r k'] eqn:Hrun.
  assert (r = Ok tt) as -> by (eapply first_of; [exact Hrun|vm_compute; reflexivity]).
  exists k'. split; [reflexivity|].
  destruct (create_actor_spec demo_hamt (demo_code 7) 200 None (demo_kernel_of 1) (Ok tt) k' demo_cm_inv Hrun)
    as (_ & _ & _ & _ & _ & a & Hc & Hat).
  rewrite Hat, decide_True by reflexivity. f_equal. exact Hc.
Defined.

Lemma self_destruct_spec_witness :
  ∃ k', k_self_destruct true demo_kernel = (Ok tt, k') ∧
    token_total demo_bm (k_cm k') = token_total demo_bm demo_cm.
Proof.
  destruct (k_self_destruct true demo_kernel) as [r k'] eqn:Hrun.
  assert (r = Ok tt) as -> by (eapply first_of; [exact Hrun|vm_compute; reflexivity]).
  exists k'. split; [reflexivity|].
  destruct (self_destruct_spec demo_hamt demo_bm true demo_kernel k' demo_bm_at demo_cm_inv Hrun)
    as (_ & _ & _ & _ & Ht).
  apply Ht. vm_compute. congruence.
Defined.

(** Gas that pays for looking the actor up but not for writing it. *)
Definition demo_poor_kernel : Kernel :=
  mkKernel _ 50 70 2 0 false
    (cm_new demo_tree demo_context demo_manifest 600000 50 (ID 50) (Some 50) (ID 50) 0 0) registry_new.

Lemma self_destruct_out_of_gas_fatal_witness :
  ∃ k', k_self_destruct true demo_poor_kernel = (Err (Fatal "out of gas"), k').
Proof.
  destruct (kcm (charge_gas (λ _, on_delete_actor)) demo_poor_kernel) as [r1 k1] eqn:H1.
  assert (r1 = Ok tt) as -> by (eapply first_of; [exact H1|vm_compute; reflexivity]).
  assert (k1 = (kcm (charge_gas (λ _, on_delete_actor)) demo_poor_kernel).2) as Ek1 by (rewrite H1; reflexivity).
  destruct (k_current_balance k1) as [r2 k2] eqn:H2.
  assert (r2 = Ok (10 ^ 12)) as -> by (eapply first_of; [exact H2|rewrite Ek1; vm_compute; reflexivity]).
  assert (k2 = (k_current_balance k1).2) as Ek2 by (rewrite H2; reflexivity).
  destruct (cm_transfer (k_actor_id k2) BURNT_FUNDS_ACTOR_ID (10 ^ 12) (k_cm k2)) as [r3 c3] eqn:H3.
  assert (r3 = Err OutOfGas) as ->
    by (eapply first_of; [exact H3|rewrite Ek2, Ek1; vm_compute; reflexivity]).
  exists (k_set_cm c3 k2).
  apply (self_destruct_out_of_gas_fatal demo_poor_kernel k1 (10 ^ 12) k2 c3 eq_refl H1 H2); [lia|exact H3].
Defined.
