(* ===== verification/SdkLogic.v ===== *)
(** * Running SDK code

    A small program logic for [Sdk]: [sdk_post m i g Q] says that, whatever comes
    after it, [m] runs from the invocation [i] and the guest state [g] to a state
    and result in [Q], unless the message runs out of gas. Host calls are the
    real ones: metering, argument decoding and the kernel. *)

From S2P Require Import Prelude Effects Gas PriceList Address Types Blocks Machine Ipld Host CallManager Kernel Syscalls.
From S2P Require Import Invocation Carry Depth Sdk Metering KernelSpec.
From stdpp Require Import gmap strings list fin_maps.
From Stdlib Require Import ZArith Lia.
#[local] Open Scope Z_scope.

(** ** Memory *)

Section memory.
Implicit Types (mem d : bytes) (off n : Z).

Definition in_mem off n mem : Prop := 0 ≤ off ∧ 0 ≤ n ∧ off + n ≤ mem_len mem.

Lemma mem_write_len off d mem : in_mem off (Z.of_nat (length d)) mem → length (mem_write off d mem) = length mem.
Proof.
  unfold in_mem, mem_len, mem_write. intros (? & ? & ?). rewrite !length_app, length_take, length_drop. lia.
Qed.

Lemma mem_write_lookup off d mem (j : nat) : in_mem off (Z.of_nat (length d)) mem →
  mem_write off d mem !! j =
    if decide (off ≤ Z.of_nat j < off + Z.of_nat (length d)) then d !! (j - Z.to_nat off)%nat else mem !! j.
Proof.
  unfold in_mem, mem_len, mem_write. intros (? & ? & ?).
  assert (length (take (Z.to_nat off) mem) = Z.to_nat off) as Ht by (rewrite length_take; lia).
  case_decide.
  - rewrite lookup_app_r, Ht, lookup_app_l by lia. done.
  - destruct (decide (Z.of_nat j < off)).
    + rewrite lookup_app_l by lia. apply lookup_take_lt. lia.
    + rewrite !lookup_app_r, lookup_drop, Ht by lia. f_equal. lia.
Qed.

Lemma load_write off d mem : in_mem off (Z.of_nat (length d)) mem →
  load_at (mem_write off d mem) off (Z.of_nat (length d)) = d.
Proof.
  intros (? & ? & ?). unfold mem_len in *. unfold load_at, mem_write. rewrite Nat2Z.id, drop_app_length'.
  - by rewrite take_app_length.
  - rewrite length_take. lia.
Qed.

(** Ranges that agree byte by byte. *)
Lemma load_at_ext off n mem mem' : 0 ≤ off →
  (∀ j : nat, off ≤ Z.of_nat j < off + n → mem' !! j = mem !! j) → load_at mem' off n = load_at mem off n.
Proof.
  intros Ho Hj. unfold load_at. apply list_eq. intros k. destruct (decide (k < Z.to_nat n)%nat).
  - rewrite !lookup_take_lt, !lookup_drop by lia. apply Hj. lia.
  - rewrite !lookup_take_ge by lia. done.
Qed.

Lemma load_write_other off n off' d mem : 0 ≤ off → in_mem off' (Z.of_nat (length d)) mem →
  off + n ≤ off' ∨ off' + Z.of_nat (length d) ≤ off → load_at (mem_write off' d mem) off n = load_at mem off n.
Proof.
  intros Ho Hin Hd. apply load_at_ext; [done|]. intros j Hj. rewrite mem_write_lookup by done.
  rewrite decide_False by lia. done.
Qed.

Lemma load_at_slice off n mem : in_mem off n mem → try_slice off n mem = Ok (load_at mem off n).
Proof.
  unfold in_mem, try_slice. intros (? & ? & ?). destruct (Z.ltb_spec (mem_len mem) off); [lia|].
  destruct (Z.ltb_spec (mem_len mem - off) n); [lia|]. done.
Qed.
End memory.

(** Memory below [top] is the actor's own. *)
Definition mem_keeps (top : Z) (mem mem' : bytes) : Prop :=
  length mem' = length mem ∧ ∀ j : nat, Z.of_nat j < top → mem' !! j = mem !! j.

Lemma mem_keeps_write top off d mem : in_mem off (Z.of_nat (length d)) mem → top ≤ off →
  mem_keeps top mem (mem_write off d mem).
Proof.
  intros Hin Ht. split; [by apply mem_write_len|]. intros j Hj. rewrite mem_write_lookup by done.
  rewrite decide_False by lia. done.
Qed.
#[export] Instance mem_keeps_preorder top : PreOrder (mem_keeps top).
Proof.
  split; [by split|]. intros a b c [? H1] [? H2]. split; [congruence|]. intros j Hj. rewrite H2, H1; done.
Qed.
Lemma mem_keeps_mono top top' mem mem' : top' ≤ top → mem_keeps top mem mem' → mem_keeps top' mem mem'.
Proof. intros ? [? Hk]. split; [done|]. intros j ?. apply Hk. lia. Qed.

(** ** Returned values, two's complement included *)

Lemma from_le_bytes_mod n x : from_le_bytes (to_le_bytes n x) = x `mod` 256 ^ Z.of_nat n.
Proof.
  revert x. induction n as [|n IH]; intros x; [by rewrite Z.mod_1_r|]. cbn [to_le_bytes]. unfold from_le_bytes in *.
  cbn [foldr]. rewrite IH. rewrite Nat2Z.inj_succ, Z.pow_succ_r by lia.
  rewrite Z.rem_mul_r by lia. lia.
Qed.

Definition fields_of (ws : list nat) (vs : list Z) : list Z := zip_with (λ w v, v `mod` 256 ^ Z.of_nat w) ws vs.

Lemma decode_encode_mod ws vs rest : length vs = length ws →
  length (encode_fields ws vs) = sum_list ws ∧ decode_fields ws (encode_fields ws vs ++ rest) = fields_of ws vs.
Proof.
  revert vs. induction ws as [|w ws IH]; intros [|v vs] Hl; try done. simpl in Hl.
  destruct (IH vs ltac:(lia)) as [E1 E2]. simpl. rewrite length_app, to_le_bytes_length, E1. split; [done|].
  rewrite <-app_assoc. rewrite take_app_length', drop_app_length' by (by rewrite to_le_bytes_length).
  by rewrite from_le_bytes_mod, E2.
Qed.

Lemma wrap_i32_mod x : - 2147483648 ≤ x ≤ i32_max → wrap_i32 (x `mod` 256 ^ 4) = x.
Proof.
  unfold wrap_i32, wrap32, i32_max. change (256 ^ 4) with 4294967296. intros Hx. rewrite Z.mod_mod by lia.
  destruct (Z.ltb_spec 2147483647 (x `mod` 4294967296)); Z.div_mod_to_equations; lia.
Qed.

Lemma errno_from_errno e : errno_from (errno e) = Some e.
Proof. by destruct e. Qed.
Lemma errno_nonzero e : (errno e =? 0) = false.
Proof. by destruct e. Qed.

(** ** Runs *)

Section logic.
Context `{H : Host} {ES : EnvSpec} `{RT : Runtime} (n : nat).
Implicit Types (i : Inv) (g : Gs).

Definition sdk_post {A} (stop : Abort → Prop) (m : Sdk A) i g (Q : A → Inv → Gs → Prop) : Prop := ∀ k,
  (∃ a i', run_guest (call_actor n) (m k g) i = (Err a, i') ∧ stop a) ∨
  (∃ a i' g', run_guest (call_actor n) (m k g) i = run_guest (call_actor n) (k a g') i' ∧ Q a i' g').

Variable stop : Abort → Prop.
Hypothesis stop_gas : stop AOutOfGas.

Lemma post_ret {A} (a : A) i g (Q : A → Inv → Gs → Prop) : Q a i g → sdk_post stop (mret a) i g Q.
Proof using. intros HQ k. right. by exists a, i, g. Qed.

Lemma post_bind {A B} (m : Sdk A) (f : A → Sdk B) i g Q R :
  sdk_post stop m i g Q → (∀ a i' g', Q a i' g' → sdk_post stop (f a) i' g' R) → sdk_post stop (m ≫= f) i g R.
Proof using.
  intros Hm Hf k. destruct (Hm (λ a g', f a k g')) as [?|(a & i' & g' & Er & HQ)]; [by left|].
  unfold mbind, sdk_bind. rewrite Er. by apply Hf.
Qed.

Lemma post_seq {A B} (m : Sdk A) (f : A → Sdk B) i g R :
  sdk_post stop m i g (λ a i' g', sdk_post stop (f a) i' g' R) → sdk_post stop (m ≫= f) i g R.
Proof using. intros Hm. by eapply post_bind; [exact Hm|]. Qed.

Lemma post_mono {A} (m : Sdk A) i g (Q R : A → Inv → Gs → Prop) :
  sdk_post stop m i g Q → (∀ a i' g', Q a i' g' → R a i' g') → sdk_post stop m i g R.
Proof using. intros Hm HQ k. destruct (Hm k) as [?|(a & i' & g' & Er & ?)]; [by left|right]. exists a, i', g'. auto. Qed.

Lemma post_alloc sz i g Q : gs_top g + sz ≤ mem_len (gs_mem g) → Q (gs_top g) i (set_top (gs_top g + sz) g) →
  sdk_post stop (alloc sz) i g Q.
Proof using.
  intros Hr HQ k. right. unfold alloc. destruct (Z.ltb_spec (mem_len (gs_mem g)) (gs_top g + sz)); [lia|]. by eexists _, _, _.
Qed.
Lemma post_store off d i g Q : Q tt i (set_mem (mem_write off d (gs_mem g)) g) → sdk_post stop (store_at off d) i g Q.
Proof using. intros HQ k. right. by eexists _, _, _. Qed.
Lemma post_load off sz i g Q : Q (load_at (gs_mem g) off sz) i g → sdk_post stop (load off sz) i g Q.
Proof using. intros HQ k. right. by eexists _, _, _. Qed.

Lemma post_scope {A} (m : Sdk A) i g Q :
  sdk_post stop m i g (λ a i' g', Q a i' (set_top (gs_top g) g')) → sdk_post stop (scope m) i g Q.
Proof using.
  intros Hm k. destruct (Hm (λ a g', k a (set_top (gs_top g) g'))) as [?|(a & i' & g' & Er & HQ)]; [by left|right].
  exists a, i', (set_top (gs_top g) g'). done.
Qed.

Lemma post_and_then {A B} (m : Sdk (SyscallResult A)) (f : A → Sdk (SyscallResult B)) i g (Q : SyscallResult B → Inv → Gs → Prop) :
  sdk_post stop m i g (λ r i' g', match r with Ok a => sdk_post stop (f a) i' g' Q | Err e => Q (Err e) i' g' end) →
  sdk_post stop (and_then m f) i g Q.
Proof using.
  intros Hm. eapply post_bind; [exact Hm|]. intros [a|e] i' g' HQ; [done|by apply post_ret].
Qed.

(** ** Host calls *)

Lemma quiet_iv_charge name c : pres (λ i i', quiet (iv_kernel i) (iv_kernel i')) (iv_charge name c).
Proof using.
  intros i. unfold iv_charge, map_err, zoom. pose proof (quiet_gas (gt_charge_gas name c) (iv_kernel i)) as Hq.
  unfold k_charge_gas. destruct (kcm _ (iv_kernel i)) as [r k]. done.
Qed.
#[local] Instance quiet_iv_preorder : PreOrder (λ i i' : Inv, quiet (iv_kernel i) (iv_kernel i')).
Proof using. split; [by intros i|]. intros a b c ??. by etrans. Qed.

#[local] Hint Resolve quiet_iv_charge : pres.
Lemma entry_quiet : pres (λ i i', quiet (iv_kernel i) (iv_kernel i')) (_ ← charge_for_exec; charge_syscall_gas).
Proof using. unfold charge_for_exec, charge_syscall_gas. solve_pres. Qed.

(** What a host call may do to the kernel and the memory, and what the guest
    sees of it. *)
Definition call_post (req : SyscallReq) i g (Q : Z → Inv → Gs → Prop) : Prop :=
  ∀ i1, gt_ok (iv_gas i1) → quiet (iv_kernel i) (iv_kernel i1) →
  match dispatch (call_actor n) req (mkCtx _ (iv_kernel i1) (gs_mem g)) with
  | (Ok v, c) => ∀ i' gas, gt_ok (iv_gas i') → iv_kernel i' = ctx_kernel c → Q 0 i' (resume (write_out req v (ctx_mem c)) gas g)
  | (Err (CError e), c) => ∀ i' gas, gt_ok (iv_gas i') → iv_kernel i' = ctx_kernel c → Q (errno (se_number e)) i' (resume (ctx_mem c) gas g)
  | (Err (CAbort a), _) => stop a
  end.

(** The wrapper after its charges, by the outcome of the call. *)
Lemma link_rest_run mem req i : gt_ok (iv_gas i) → no_space req mem = false →
  ∃ i', gt_ok (iv_gas i') ∧
  match dispatch (call_actor n) req (mkCtx _ (iv_kernel i) mem) with
  | (Ok v, c) => link_rest (call_actor n) mem req i = (Ok (0, write_out req v (ctx_mem c)), i') ∧ iv_kernel i' = ctx_kernel c
  | (Err (CError e), c) => link_rest (call_actor n) mem req i = (Ok (errno (se_number e), ctx_mem c), i') ∧ iv_kernel i' = ctx_kernel c
  | (Err (CAbort a), c) => link_rest (call_actor n) mem req i = (Err a, i')
  end.
Proof using ES.
  intros Hok Hns. unfold link_rest. rewrite Hns, (bind_ok _ _ i (iv_kernel i) i) by done.
  pose proof (crel_dispatch false any (call_actor n) (rel_call_actor false any n) req (mkCtx _ (iv_kernel i) mem)) as Hd.
  destruct (dispatch (call_actor n) req (mkCtx _ (iv_kernel i) mem)) as [out c].
  destruct Hd as (_ & _ & _ & [(_ & _ & (_ & _ & Hgu) & _) _] & _); [done|]. simpl in Hgu.
  destruct (Hgu Hok) as [Hok1 _].
  assert (∀ e, ∃ i2, update_gas_available (iv_set_error e (iv_set_kernel (ctx_kernel c) i)) = (Ok tt, i2) ∧
    gt_ok (iv_gas i2) ∧ iv_kernel i2 = ctx_kernel c) as Hup.
  { intros e. destruct (update_gas_available_ok (iv_set_error e (iv_set_kernel (ctx_kernel c) i)) Hok1) as (i2 & E2 & [? _] & Hk2 & _).
    by exists i2. }
  rewrite (bind_ok _ _ i tt (iv_set_kernel (ctx_kernel c) i)) by done. set (i1 := iv_set_kernel (ctx_kernel c) i) in *.
  destruct out as [v|[e|a]].
  - destruct (Hup None) as (i2 & E2 & ? & ?). exists i2. rewrite (bind_ok _ _ i1 tt (iv_set_error None i1)) by done.
    by rewrite (bind_ok _ _ _ _ _ E2).
  - set (er := Some _). destruct (Hup er) as (i2 & E2 & ? & ?). exists i2. rewrite (bind_ok _ _ i1 tt (iv_set_error er i1)) by done.
    by rewrite (bind_ok _ _ _ _ _ E2).
  - destruct (Hup (iv_last_error i1)) as (i2 & E2 & ? & ?). exists i2. change (iv_set_error (iv_last_error i1) i1) with i1 in E2.
    by rewrite (bind_ok _ _ _ _ _ E2).
Qed.

Lemma post_syscall req i g Q : gt_ok (iv_gas i) → no_space req (gs_mem g) = false →
  call_post req i g Q → sdk_post stop (syscall req) i g Q.
Proof using ES stop_gas.
  intros Hok Hns Hcall k. unfold syscall. cbn [run_guest].
  set (i0 := iv_set_global (rt_exec (gs_gas g)) i). rewrite !(bind_ok _ _ i tt i0) by done.
  destruct (entry_charges i0 Hok) as (i1 & Hok1 & _ & E1 & _). pose proof (entry_quiet i0) as Hq. rewrite E1 in Hq. cbn [snd] in Hq.
  assert (∀ r i2, (_ ← (_ ← charge_for_exec; charge_syscall_gas); link_rest (call_actor n) (gs_mem g) req) i0 = (r, i2) →
    link_syscall (call_actor n) (gs_mem g) req i0 = (r, i2)) as Hsplit by (intros ??; by rewrite link_syscall_split).
  case_decide; cycle 1.
  { left. exists AOutOfGas, i1. split; [|done]. eapply bind_err, Hsplit. by rewrite (bind_err _ _ _ _ _ E1). }
  rewrite (bind_ok _ _ _ _ _ E1) in Hsplit. destruct (link_rest_run (gs_mem g) req i1 Hok1 Hns) as (i2 & Hok2 & Hr).
  specialize (Hcall i1 Hok1 Hq). destruct (dispatch _ _ _) as [[v|[e|a]] c].
  - destruct Hr as [Hr%Hsplit Hk]. right. eexists _, _, _. rewrite (bind_ok _ _ _ _ _ Hr).
    split; [reflexivity|]. by apply Hcall.
  - destruct Hr as [Hr%Hsplit Hk]. right. eexists _, _, _. rewrite (bind_ok _ _ _ _ _ Hr).
    split; [reflexivity|]. by apply Hcall.
  - left. exists a, i2. split; [|done]. by eapply bind_err, Hsplit.
Qed.

(** A call that returns a value: what the guest decodes at its out pointer. *)
Lemma post_call_value ws req i g (Q : SyscallResult (list Z) → Inv → Gs → Prop) :
  gt_ok (iv_gas i) → in_mem (gs_top g) (Z.of_nat (sum_list ws)) (gs_mem g) → (∀ ret, out_value (req ret) = Some (ret, ws)) →
  (∀ i1, gt_ok (iv_gas i1) → quiet (iv_kernel i) (iv_kernel i1) →
    match dispatch (call_actor n) (req (gs_top g)) (mkCtx _ (iv_kernel i1) (gs_mem g)) with
    | (Ok v, c) => length v = length ws ∧ length (ctx_mem c) = length (gs_mem g) ∧
        ∀ i' gas, gt_ok (iv_gas i') → iv_kernel i' = ctx_kernel c →
          Q (Ok (fields_of ws v)) i' (resume (mem_write (gs_top g) (encode_fields ws v) (ctx_mem c)) gas g)
    | (Err (CError e), c) => ∀ i' gas, gt_ok (iv_gas i') → iv_kernel i' = ctx_kernel c → Q (Err (se_number e)) i' (resume (ctx_mem c) gas g)
    | (Err (CAbort a), _) => stop a
    end) →
  sdk_post stop (call_value ws req) i g Q.
Proof using ES stop_gas.
  intros Hok Hin Hout Hcall. pose proof Hin as (Ht & _ & Hr). apply post_scope, post_seq, post_alloc; [done|].
  eapply (post_bind _ _ _ _ (λ code i' g', ∃ gas mem, g' = resume mem gas (set_top (gs_top g + Z.of_nat (sum_list ws)) g) ∧
    gt_ok (iv_gas i') ∧
    ((code = 0 ∧ Q (Ok (decode_fields ws (load_at mem (gs_top g) (Z.of_nat (sum_list ws))))) i' (resume mem gas g)) ∨
     ∃ e, code = errno e ∧ Q (Err e) i' (resume mem gas g)))).
  - apply post_syscall; [done| |].
    { unfold no_space. rewrite Hout. cbn [gs_mem set_top]. apply orb_false_iff. split; apply Z.ltb_ge; lia. }
    intros i1 Hok1 Hq1. cbn [gs_mem set_top]. specialize (Hcall i1 Hok1 Hq1). destruct (dispatch _ _ _) as [[v|[e|b]] c]; [| |done].
    + destruct Hcall as (Hv & Hm & HQ). intros i' gas Hok' Hk'. eexists gas, _. split; [reflexivity|]. split; [done|]. left.
      split; [done|]. unfold write_out. rewrite Hout. destruct (decode_encode_mod ws v [] Hv) as [Hl Hd].
      rewrite app_nil_r in Hd. rewrite <-Hl at 1. rewrite load_write; [rewrite Hd; by apply HQ|].
      unfold in_mem, mem_len in *. rewrite Hm, Hl. done.
    + intros i' gas Hok' Hk'. eexists gas, _. split; [reflexivity|]. split; [done|]. right. exists (se_number e). split; [done|]. by apply Hcall.
  - intros code i' g' (gas & mem & -> & _ & [[-> HQ]|(e & -> & HQ)]).
    + cbn [Z.eqb]. apply post_seq, post_load, post_ret. exact HQ.
    + rewrite errno_nonzero, errno_from_errno. apply post_ret. exact HQ.
Qed.

Lemma post_call_num w req i g (Q : SyscallResult Z → Inv → Gs → Prop) :
  sdk_post stop (call_value [w] req) i g (λ r i' g', Q (match r with Ok v => Ok (field 0 v) | Err e => Err e end) i' g') →
  sdk_post stop (call_num w req) i g Q.
Proof using.
  intros Hc. apply post_and_then. eapply post_mono; [exact Hc|]. intros [v|e] i' g' HQ; [by apply post_ret|done].
Qed.

Lemma post_call_unit req i g (Q : SyscallResult unit → Inv → Gs → Prop) : gt_ok (iv_gas i) → out_value req = None →
  (∀ i1, gt_ok (iv_gas i1) → quiet (iv_kernel i) (iv_kernel i1) →
    match dispatch (call_actor n) req (mkCtx _ (iv_kernel i1) (gs_mem g)) with
    | (Ok v, c) => ∀ i' gas, gt_ok (iv_gas i') → iv_kernel i' = ctx_kernel c → Q (Ok tt) i' (resume (ctx_mem c) gas g)
    | (Err (CError e), c) => ∀ i' gas, gt_ok (iv_gas i') → iv_kernel i' = ctx_kernel c → Q (Err (se_number e)) i' (resume (ctx_mem c) gas g)
    | (Err (CAbort a), _) => stop a
    end) →
  sdk_post stop (call_unit req) i g Q.
Proof using ES stop_gas.
  intros Hok Hout Hcall. eapply (post_bind _ _ _ _ (λ code i' g', (code = 0 ∧ Q (Ok tt) i' g') ∨ ∃ e, code = errno e ∧ Q (Err e) i' g')).
  - apply post_syscall; [done|by unfold no_space; rewrite Hout|]. intros i1 Hok1 Hq1. specialize (Hcall i1 Hok1 Hq1).
    destruct (dispatch _ _ _) as [[v|[e|b]] c]; [| |done]; intros i' gas Hok' Hk'.
    + left. split; [done|]. unfold write_out. rewrite Hout. by apply Hcall.
    + right. exists (se_number e). split; [done|]. by apply Hcall.
  - intros code i' g' [[-> HQ]|(e & -> & HQ)]; [by apply post_ret|]. rewrite errno_nonzero, errno_from_errno. by apply post_ret.
Qed.

Lemma post_slice_in d i g Q : in_mem (gs_top g) (Z.of_nat (length d)) (gs_mem g) →
  Q (gs_top g) i (set_mem (mem_write (gs_top g) d (gs_mem g)) (set_top (gs_top g + Z.of_nat (length d)) g)) →
  sdk_post stop (slice_in d) i g Q.
Proof using. intros (_ & _ & Hr) HQ. by apply post_seq, post_alloc, post_seq, post_store, post_ret. Qed.
End logic.

Lemma post_weaken `{H : Host} {ES : EnvSpec} n {A} (P P' : Abort → Prop) (m : Sdk A) i g Q : (∀ a, P a → P' a) →
  sdk_post n P m i g Q → sdk_post n P' m i g Q.
Proof. intros HP Hm k. destruct (Hm k) as [(a & i' & Er & ?)|?]; [left|by right]. exists a, i'. auto. Qed.
