(* ===== verification/SdkSpec.v ===== *)
(** * What the SDK promises actors

    The SDK's functions over the real host calls: reading blocks, storing and
    loading data, events, messages. *)

From S2P Require Import Prelude Effects Gas PriceList Address Types StateTree Blocks Machine Ipld Buffered Car Host CallManager Kernel Syscalls.
From S2P Require Import Invocation Sdk Metering KernelSpec SdkLogic.
From stdpp Require Import gmap strings list fin_maps.
From Stdlib Require Import ZArith Lia.
#[local] Open Scope Z_scope.

(** [Vec::with_capacity] gives at least what was asked for. *)
Class RuntimeSpec `{RT : Runtime} : Prop := rt_capacity_le m : m ≤ rt_capacity m.

(** ** Reading blocks *)

Section blocks.
Context `{H : Host} {ES : EnvSpec} `{RTS : RuntimeSpec} (n : nat).

Definition out_of_gas (a : Abort) : Prop := a = AOutOfGas.

(** The state an SDK function leaves: nothing of the kernel but its gas changed,
    the actor's own memory and the allocator are as before. *)
Definition unchanged (i : Inv) (g : Gs) (i' : Inv) (g' : Gs) : Prop :=
  gt_ok (iv_gas i') ∧ quiet (iv_kernel i) (iv_kernel i') ∧ mem_keeps (gs_top g) (gs_mem g) (gs_mem g') ∧ gs_top g' = gs_top g.

Lemma charge_gas_cases f c : (∃ c', charge_gas f c = (Ok tt, c')) ∨ (∃ c', charge_gas f c = (Err OutOfGas, c')).
Proof.
  unfold charge_gas, on_gas, zoom, apply_charge, mbind, M_bind, gets, charge_gas_inner.
  cbn. destruct (_ <? _)%N; [right|left]; eauto.
Qed.

(** A read within the bounds of a known block fails only for want of gas. *)
Lemma block_read_cases id offset off len k mem b : br_get id (k_blocks k) = Ok b → 0 ≤ offset → 0 ≤ len →
  offset + len ≤ i32_max → Z.of_nat (length (blk_data b)) ≤ i32_max → in_mem off len mem → ∀ ret,
  (∃ k', dispatch (call_actor n) (IpldBlockRead ret id offset off len) (mkCtx _ k mem) =
    (Ok [Z.of_nat (length (blk_data b)) - (offset + len)],
     mkCtx _ k' (mem_write off (take (Z.to_nat len) (drop (Z.to_nat offset) (blk_data b))) mem)) ∧ quiet k k') ∨
  (∃ c, dispatch (call_actor n) (IpldBlockRead ret id offset off len) (mkCtx _ k mem) = (Err (CAbort AOutOfGas), c)).
Proof using ES.
  intros Hb Ho Hl Hi Hd Hin ret. cbn [dispatch]. unfold sys_block_read.
  destruct (k_block_read id offset len k) as [[[m bz]|e] k'] eqn:Er.
  - left. exists k'. pose proof Er as Er'. apply block_read_run in Er' as (Hk & Ht & _ & b' & Hb' & -> & Hm); [|done..].
    rewrite Hb in Hb'. injection Hb' as <-. specialize (Hm Hd). subst m.
    assert (quiet k k') as Hq.
    { apply (quiet_run (k_block_read id offset len) _ _ _) in Er; [done|]. unfold k_block_read. solve_pres. }
    split; [|done]. unfold map_err, rd, kern, zoom, write_mem, modify, mbind, M_bind. simpl. rewrite load_at_slice by done. rewrite Er. reflexivity.
  - right. unfold map_err, rd, kern, zoom, write_mem, modify, mbind, M_bind. simpl. rewrite load_at_slice by done. rewrite Er.
    eexists. f_equal. unfold k_block_read in Er. cbn zeta in Er.
    unfold require, mbind, M_bind, gets, lift in Er. destruct (Z.leb_spec (offset + len) i32_max); [|lia]. cbn in Er. rewrite Hb in Er.
    unfold kcm, zoom in Er. destruct (charge_gas_cases (λ pl, on_block_read pl (Z.to_N (Z.min (Z.max (Z.of_nat (length (blk_data b)) - offset) 0) len))) (k_cm k)) as [[c Ec]|[c Ec]];
      rewrite Ec in Er; [done|]. injection Er as <- _. reflexivity.
Qed.

(** One read into a buffer below the free memory: the bytes are there, the rest
    of the memory in use is as before, and the number says what is left. *)
Lemma post_block_read id offset off len b i g (Q : SyscallResult Z → Inv → Gs → Prop) :
  gt_ok (iv_gas i) → br_get id (k_blocks (iv_kernel i)) = Ok b → 0 ≤ offset → 0 ≤ len → offset + len ≤ i32_max →
  Z.of_nat (length (blk_data b)) ≤ i32_max → in_mem off len (gs_mem g) → off + len ≤ gs_top g → gs_top g + 4 ≤ mem_len (gs_mem g) →
  (let bz := take (Z.to_nat len) (drop (Z.to_nat offset) (blk_data b)) in ∀ i' gas mem' r,
    gt_ok (iv_gas i') → quiet (iv_kernel i) (iv_kernel i') → length mem' = length (gs_mem g) →
    load_at mem' off (Z.of_nat (length bz)) = bz →
    (∀ j : nat, Z.of_nat j < gs_top g → ¬ (off ≤ Z.of_nat j < off + len) → mem' !! j = gs_mem g !! j) →
    wrap_i32 r = Z.of_nat (length (blk_data b)) - (offset + len) → Q (Ok r) i' (resume mem' gas g)) →
  sdk_post n out_of_gas (call_num 4 (λ ret, IpldBlockRead ret id offset off len)) i g Q.
Proof using ES.
  intros Hok Hb Ho Hl Hi Hd Hin Htop Hroom HQ. cbn zeta in HQ. apply post_call_num, post_call_value; [done|done| |done|].
  { unfold in_mem in *. simpl. lia. }
  intros i1 Hok1 Hq1. destruct (block_read_cases id offset off len (iv_kernel i1) (gs_mem g) b) with (ret := gs_top g) as [(k' & -> & Hq)|[c ->]]; try done.
  { by rewrite (proj1 Hq1). }
  cbn [ctx_mem]. set (bz := take _ _) in *. assert (Z.of_nat (length bz) ≤ len) as Hbz by (unfold bz; rewrite length_take; lia).
  assert (in_mem off (Z.of_nat (length bz)) (gs_mem g)) as Hin' by (unfold in_mem in *; lia).
  assert (length (mem_write off bz (gs_mem g)) = length (gs_mem g)) as Hlen by (by apply mem_write_len).
  split; [done|]. split; [done|]. intros i' gas Hok' Hk'. set (v := Z.of_nat (length (blk_data b)) - (offset + len)).
  assert (in_mem (gs_top g) (Z.of_nat (length (encode_fields [4%nat] [v]))) (mem_write off bz (gs_mem g))) as Hret.
  { simpl. unfold in_mem, mem_len in *. rewrite Hlen. simpl. lia. }
  apply HQ.
  - done.
  - rewrite Hk'. simpl. by etrans.
  - rewrite mem_write_len by done. done.
  - rewrite load_write_other by (done || unfold in_mem in *; lia). by apply load_write.
  - intros j Hj Hno. rewrite !mem_write_lookup by done. rewrite !decide_False by lia. done.
  - unfold fields_of, field. simpl. apply wrap_i32_mod. unfold v, i32_max in *. lia.
Qed.

Lemma load_at_take mem off m bz : load_at mem off (Z.of_nat (length bz)) = bz → m ≤ Z.of_nat (length bz) →
  load_at mem off m = take (Z.to_nat m) bz.
Proof. unfold load_at. rewrite Nat2Z.id. intros <- Hm. rewrite take_take. f_equal. rewrite length_take in Hm. lia. Qed.

Lemma load_at_app mem off p q : 0 ≤ off → load_at mem off (Z.of_nat (length p)) = p →
  load_at mem (off + Z.of_nat (length p)) (Z.of_nat (length q)) = q → load_at mem off (Z.of_nat (length p + length q)) = p ++ q.
Proof.
  unfold load_at. rewrite !Nat2Z.id. intros Ho Hp Hq. rewrite Z2Nat.inj_add, Nat2Z.id in Hq by lia.
  rewrite <-drop_drop in Hq. rewrite <-Hp at 2. rewrite <-Hq at 2. by rewrite take_take_drop.
Qed.

(** A buffer that was moved to [buf] and then filled up behind its old content. *)
Lemma moved_buffer buf old rest mem1 mem2 : in_mem buf (Z.of_nat (length old)) mem1 →
  (∀ j : nat, buf ≤ Z.of_nat j < buf + Z.of_nat (length old) → mem2 !! j = mem_write buf old mem1 !! j) →
  load_at mem2 (buf + Z.of_nat (length old)) (Z.of_nat (length rest)) = rest →
  load_at mem2 buf (Z.of_nat (length old + length rest)) = old ++ rest.
Proof.
  intros Hin Hj Hr. pose proof Hin as [Hb _]. apply load_at_app; [done| |done].
  transitivity (load_at (mem_write buf old mem1) buf (Z.of_nat (length old))); [by apply load_at_ext|by apply load_write].
Qed.

Lemma post_assert stop c msg i g Q : c = true → Q tt i g → sdk_post n stop (assert c msg) i g Q.
Proof using. intros -> HQ. by apply post_ret. Qed.

(** C17: Reading a block by its handle gives exactly the block's data, whatever
    size hint the actor passes (too small, too large or none) and whatever
    capacities its vectors get, with the host's real [block_read]. The only other
    outcome is running out of gas. Nothing of the kernel changes but its gas, and
    the actor's memory below the allocator's mark stays as it was. *)
Theorem get_block_exact id size_hint b i g :
  let cap := rt_capacity (default 1024 size_hint) in
  let size := Z.of_nat (length (blk_data b)) in
  gt_ok (iv_gas i) → br_get id (k_blocks (iv_kernel i)) = Ok b → 0 ≤ gs_top g → 0 ≤ default 1024 size_hint →
  cap ≤ i32_max → rt_capacity size ≤ i32_max → gs_top g + cap + rt_capacity size + 4 ≤ mem_len (gs_mem g) →
  sdk_post n out_of_gas (get_block id size_hint) i g (λ r i' g', r = Ok (blk_data b) ∧ unchanged i g i' g').
Proof using ES RTS.
  intros cap size Hok Hb Ht Hh Hc Hc' Hroom. unfold get_block.
  assert ((id =? NO_DATA_BLOCK_ID) = false) as ->.
  { unfold br_get, FIRST_ID in Hb. unfold NO_DATA_BLOCK_ID. destruct (Z.ltb_spec id 1); [done|]. lia. }
  pose proof (rt_capacity_le (default 1024 size_hint)) as Hcap. fold cap in Hcap. pose proof (rt_capacity_le size) as Hsz.
  assert (0 ≤ size) by (unfold size; lia).
  apply post_scope, post_seq, post_alloc; [fold cap; lia|]. fold cap.
  assert (wrap32 cap = cap) as Ewr by (apply wrap32_small; unfold i32_max in *; mlia). rewrite Ewr.
  apply post_and_then. eapply post_block_read; [done|exact Hb|lia|lia|lia|fold size; lia| | | |]; cbn [gs_mem gs_top set_top].
  { unfold in_mem. lia. }
  { lia. }
  { lia. }
  cbn zeta. intros i1 gas1 mem1 r1 Hok1 Hq1 Hl1 Hd1 Hf1 Hr1. rewrite Hr1. rewrite drop_0 in *. fold size.
  destruct (Z.ltb_spec 0 (size - (0 + cap))) as [Hmore|Hall].
  - replace (cap + (size - (0 + cap))) with size by lia. set (cap' := rt_capacity size) in *.
    assert (length (take (Z.to_nat cap) (blk_data b)) = Z.to_nat cap) as Hlold by (rewrite length_take; unfold size in *; lia).
    rewrite Hlold, Z2Nat.id in Hd1 by lia. set (old := take (Z.to_nat cap) (blk_data b)) in *.
    apply post_seq, post_alloc; cbn [gs_mem gs_top resume set_top]; [unfold mem_len in *; rewrite Hl1; lia|].
    apply post_seq, post_load. cbn [gs_mem gs_top resume set_top]. rewrite Hd1. apply post_seq, post_store. cbn [gs_mem set_mem resume set_top].
    assert (in_mem (gs_top g + cap) (Z.of_nat (length old)) mem1) as Hin2 by (unfold in_mem, mem_len in *; rewrite Hl1, Hlold; lia).
    assert (wrap32 (cap' - cap) = cap' - cap) as -> by (apply wrap32_small; unfold i32_max in *; mlia).
    apply post_and_then. eapply post_block_read; [done|rewrite (proj1 Hq1); exact Hb|lia|lia|lia|fold size; lia| | | |];
      cbn [gs_mem gs_top set_top set_mem resume].
    { unfold in_mem, mem_len in *. rewrite mem_write_len, Hl1 by done. lia. }
    { lia. }
    { unfold mem_len in *. rewrite mem_write_len, Hl1 by done. lia. }
    cbn zeta. intros i2 gas2 mem2 r2 Hok2 Hq2 Hl2 Hd2 Hf2 Hr2. rewrite Hr2. fold size.
    replace (cap' + (size - (cap + (cap' - cap)))) with size by lia.
    do 3 (apply post_seq, post_assert; [lia|]). apply post_seq, post_load, post_ret. cbn [gs_mem gs_top set_top set_mem resume].
    assert (take (Z.to_nat (cap' - cap)) (drop (Z.to_nat cap) (blk_data b)) = drop (Z.to_nat cap) (blk_data b)) as Erest.
    { apply take_ge. rewrite length_drop. unfold size in *. lia. }
    rewrite Erest in Hd2. rewrite mem_write_len in Hl2 by done. split.
    + f_equal. rewrite <-(take_drop (Z.to_nat cap) (blk_data b)). fold old.
      replace size with (Z.of_nat (length old + length (drop (Z.to_nat cap) (blk_data b)))) by (rewrite Hlold, length_drop; unfold size in *; lia).
      eapply moved_buffer; [exact Hin2| |by rewrite Hlold, Z2Nat.id by lia]. intros j Hj. apply Hf2; rewrite Hlold in Hj; lia.
    + split; [done|]. split; [by etrans|]. split; [|done]. split; [by etrans|]. intros j Hj.
      rewrite Hf2, mem_write_lookup, decide_False, Hf1 by (done || lia). done.
  - assert (take (Z.to_nat cap) (blk_data b) = blk_data b) as Eall by (apply take_ge; unfold size in *; lia). rewrite Eall in Hd1.
    replace (cap + (size - (0 + cap))) with size by lia. do 2 (apply post_seq, post_assert; [lia|]).
    apply post_seq, post_load, post_ret. cbn [gs_mem gs_top resume set_top]. split; [by f_equal|].
    split; [done|]. split; [done|]. split; [|done]. split; [done|]. intros j Hj. apply Hf1; lia.
Qed.
End blocks.

(** ** Events *)

Section events.
Context `{H : Host} {ES : EnvSpec} `{RT : Runtime} (n : nat).

(** A Rust string starts with the first byte of a character. *)
Definition utf8_start (s : bytes) : Prop := match s with b :: _ => b < 0x80 ∨ 0xc0 ≤ b | [] => True end.

Definition entry_valid (e : Entry) : Prop :=
  in_u64 (ee_flags e) ∧ Z.land (ee_flags e) (Z.lnot ALL_EVENT_FLAGS) = 0 ∧ (ee_codec e = IPLD_RAW ∨ ee_codec e = CBOR) ∧
  Z.of_nat (length (ee_key e)) ≤ MAX_KEY_LEN ∧ Z.of_nat (length (ee_value e)) ≤ MAX_TOTAL_VALUES_LEN ∧ utf8_start (ee_key e).
Definition event_valid (entries : list Entry) : Prop :=
  Forall entry_valid entries ∧ Z.of_nat (length entries) ≤ MAX_NR_ENTRIES ∧
  Z.of_nat (length (concat (ee_value <$> entries))) ≤ MAX_TOTAL_VALUES_LEN ∧ is_Some (host_from_utf8 (concat (ee_key <$> entries))).

Definition header_of (e : Entry) : EventHeader :=
  mkEventHeader (ee_flags e) (ee_codec e) (Z.of_nat (length (ee_key e))) (Z.of_nat (length (ee_value e))).

Lemma event_entry_length e : length (event_entry e) = 24%nat.
Proof. unfold event_entry. by rewrite !length_app, !to_le_bytes_length. Qed.

Lemma event_entry_fields e : event_entry e =
  encode_fields [8; 8; 4; 4]%nat [ee_flags e; ee_codec e; u32_len (ee_key e); u32_len (ee_value e)].
Proof. unfold event_entry. cbn [encode_fields]. by rewrite app_nil_r. Qed.
Lemma decode_header_fields bz : decode_header bz =
  match decode_fields [8; 8; 4; 4]%nat bz with
  | [f; c; k; v] => mkEventHeader f c k v
  | _ => decode_header bz
  end.
Proof. unfold decode_header. cbn [decode_fields]. by rewrite !drop_drop. Qed.

Lemma entry_lens e : entry_valid e →
  u32_len (ee_key e) = Z.of_nat (length (ee_key e)) ∧ u32_len (ee_value e) = Z.of_nat (length (ee_value e)).
Proof.
  intros (_ & _ & _ & Hk & Hv & _). unfold MAX_KEY_LEN, MAX_TOTAL_VALUES_LEN in *. split; apply wrap32_small; mlia.
Qed.

Lemma decode_event_entry e : entry_valid e → decode_header (event_entry e) = header_of e.
Proof.
  intros He. rewrite decode_header_fields, event_entry_fields. pose proof (entry_lens e He) as [-> ->].
  destruct He as (Hf & _ & Hc & Hk & Hv & _).
  rewrite <-(app_nil_r (encode_fields _ _)), decode_encode_fields; [done|].
  repeat constructor; unfold field_fits, in_u64, u64_max, MAX_KEY_LEN, MAX_TOTAL_VALUES_LEN in *; simpl; try lia;
    destruct Hc as [-> | ->]; unfold IPLD_RAW, CBOR; lia.
Qed.

Lemma decode_entries es : Forall entry_valid es → decode_headers (length es) (concat (event_entry <$> es)) = header_of <$> es.
Proof.
  induction 1 as [|e es He _ IH]; [done|]. rewrite fmap_cons. cbn [length decode_headers concat].
  rewrite take_app_length', drop_app_length' by (by rewrite event_entry_length). by rewrite decode_event_entry, IH.
Qed.

(** ** The kernel reads the event back *)

Lemma keys_start es : Forall entry_valid es → utf8_start (concat (ee_key <$> es)).
Proof.
  induction 1 as [|e es He _ IH]; [done|]. rewrite fmap_cons. cbn [concat]. destruct He as (_ & _ & _ & _ & _ & Hs).
  by destruct (ee_key e).
Qed.

Lemma boundary_at pre rest : utf8_start rest → is_char_boundary (pre ++ rest) (Z.of_nat (length pre)) = true.
Proof.
  intros Hs. unfold is_char_boundary. destruct rest as [|b rest].
  - rewrite app_nil_r, Z.eqb_refl. by rewrite orb_true_r.
  - rewrite Nat2Z.id, lookup_app_r, Nat.sub_diag by lia. simpl in *.
    destruct (Z.ltb_spec b 128), (Z.leb_spec 192 b); simpl; rewrite ?orb_true_r; try done. lia.
Qed.

Lemma slice_at pre x rest : slice (pre ++ x ++ rest) (Z.of_nat (length pre)) (Z.of_nat (length pre) + Z.of_nat (length x)) = Some x.
Proof.
  unfold slice. rewrite !length_app. destruct (Z.leb_spec (Z.of_nat (length pre) + Z.of_nat (length x)) (Z.of_nat (length pre + (length x + length rest)))); [|lia].
  rewrite Z.add_simpl_l, !Nat2Z.id, drop_app_length, take_app_length. done.
Qed.

Lemma parse_entry_flat pk pv e rk rv : entry_valid e → utf8_start rk →
  parse_entry (pk ++ ee_key e ++ rk) (pv ++ ee_value e ++ rv) (Z.of_nat (length pk)) (Z.of_nat (length pv)) (header_of e) = Ok e.
Proof.
  intros (_ & Hf & Hc & Hk & Hv & Hs) Hrk. unfold parse_entry, header_of. cbn [eh_flags eh_codec eh_key_len eh_val_len].
  rewrite Hf. cbn [Z.eqb negb]. destruct (Z.ltb_spec MAX_KEY_LEN (Z.of_nat (length (ee_key e)))); [lia|].
  destruct (Z.ltb_spec MAX_TOTAL_VALUES_LEN (Z.of_nat (length (ee_value e)))); [lia|]. unfold str_slice.
  assert (utf8_start (ee_key e ++ rk)) as Hs' by (destruct (ee_key e); [exact Hrk|exact Hs]).
  assert (is_char_boundary (pk ++ ee_key e ++ rk) (Z.of_nat (length pk) + Z.of_nat (length (ee_key e))) = true) as Hb2
    by (rewrite app_assoc, <-Nat2Z.inj_add, <-length_app; by apply boundary_at).
  rewrite (boundary_at pk _ Hs'), Hb2. cbn [andb]. rewrite !slice_at.
  destruct e as [f k c v]. cbn in *. destruct Hc as [-> | ->]; reflexivity.
Qed.

Lemma parse_entries_flat es : ∀ pk pv, Forall entry_valid es →
  parse_entries (pk ++ concat (ee_key <$> es)) (pv ++ concat (ee_value <$> es)) (Z.of_nat (length pk)) (Z.of_nat (length pv)) (header_of <$> es) =
    Ok (es, Z.of_nat (length (pk ++ concat (ee_key <$> es))), Z.of_nat (length (pv ++ concat (ee_value <$> es)))).
Proof.
  induction es as [|e es IH]; intros pk pv Hes; [by rewrite !app_nil_r|]. apply Forall_cons in Hes as [He Hes].
  rewrite !fmap_cons. cbn [concat parse_entries]. rewrite parse_entry_flat by (done || by apply keys_start).
  cbn [eh_key_len eh_val_len header_of]. rewrite <-!Nat2Z.inj_add, <-!length_app. rewrite !app_assoc. by rewrite IH.
Qed.

Lemma emit_event_cases es k : event_valid es →
  if k_read_only k then k_emit_event (header_of <$> es) (concat (ee_key <$> es)) (concat (ee_value <$> es)) k =
    (Err (syscall_error ReadOnly "cannot emit events while read-only"), k)
  else (∃ k', k_emit_event (header_of <$> es) (concat (ee_key <$> es)) (concat (ee_value <$> es)) k = (Ok tt, k') ∧
      cm_tree (k_cm k') = cm_tree (k_cm k) ∧ k_blocks k' = k_blocks k ∧
      evs_events (cm_events (k_cm k')) = evs_events (cm_events (k_cm k)) ++ [mkStampedEvent (k_actor_id k) es]) ∨
    (∃ k', k_emit_event (header_of <$> es) (concat (ee_key <$> es)) (concat (ee_value <$> es)) k = (Err OutOfGas, k')).
Proof.
  intros (Hes & Hn & Hv & [x Hx]). unfold k_emit_event. rewrite (bind_ok _ _ k (k_read_only k) k) by done.
  destruct (k_read_only k); [done|]. rewrite (bind_ok _ _ k tt k) by done.
  set (ch := λ pl, on_actor_event pl (N.of_nat (length (header_of <$> es))) (N.of_nat (length (concat (ee_key <$> es)))) (N.of_nat (length (concat (ee_value <$> es))))).
  pose proof (quiet_charge ch k) as Hq. unfold kcm, zoom in Hq.
  destruct (charge_gas_cases ch (k_cm k)) as [[c' Ec]|[c' Ec]]; rewrite Ec in Hq.
  - left. rewrite (bind_ok _ _ k tt (k_set_cm c' k)) by (unfold kcm, zoom; by rewrite Ec). destruct Hq as (Hb & Hid & _ & Ht & He). cbn [snd] in *.
    pose proof (parse_entries_flat es [] [] Hes) as Hp. cbn [app length] in Hp. change (Z.of_nat 0) with 0 in Hp.
    unfold require, mbind, M_bind, lift, gets, mret, M_ret. rewrite length_fmap.
    destruct (Z.leb_spec (Z.of_nat (length es)) MAX_NR_ENTRIES); [|lia].
    destruct (Z.leb_spec (Z.of_nat (length (concat (ee_value <$> es)))) MAX_TOTAL_VALUES_LEN); [|lia].
    rewrite Hx, Hp, !Z.eqb_refl. cbn. eexists. split; [reflexivity|]. by rewrite <-He, <-Ht.
  - right. rewrite (bind_err _ _ k OutOfGas (k_set_cm c' k)) by (unfold kcm, zoom; by rewrite Ec). eauto.
Qed.

Lemma fixed_entries_length es : length (concat (event_entry <$> es)) = (24 * length es)%nat.
Proof. induction es as [|e es IH]; [done|]. rewrite fmap_cons. cbn [concat length]. rewrite length_app, event_entry_length, IH. lia. Qed.

(** Three buffers side by side. *)
Lemma three_slices top a b c mem : 0 ≤ top → top + Z.of_nat (length a + length b + length c) ≤ mem_len mem →
  let ob := top + Z.of_nat (length a) in let oc := ob + Z.of_nat (length b) in
  let mem' := mem_write oc c (mem_write ob b (mem_write top a mem)) in
  mem_keeps top mem mem' ∧ try_slice top (Z.of_nat (length a)) mem' = Ok a ∧ try_slice ob (Z.of_nat (length b)) mem' = Ok b ∧
  try_slice oc (Z.of_nat (length c)) mem' = Ok c.
Proof.
  intros Ht Hr ob oc mem'. unfold mem_len in Hr.
  assert (in_mem top (Z.of_nat (length a)) mem) as H1 by (unfold in_mem, mem_len; lia).
  pose proof (mem_write_len _ _ _ H1) as L1. set (m1 := mem_write top a mem) in *.
  assert (in_mem ob (Z.of_nat (length b)) m1) as H2 by (unfold in_mem, mem_len; rewrite L1; unfold ob; lia).
  pose proof (mem_write_len _ _ _ H2) as L2. set (m2 := mem_write ob b m1) in *.
  assert (in_mem oc (Z.of_nat (length c)) m2) as H3 by (unfold in_mem, mem_len; rewrite L2, L1; unfold oc, ob; lia).
  pose proof (mem_write_len _ _ _ H3) as L3. fold mem' in L3.
  split; [|split_and!].
  - etrans; [by apply mem_keeps_write|]. etrans; [apply mem_keeps_write; [exact H2|unfold ob; lia]|].
    apply mem_keeps_write; [exact H3|unfold oc, ob; lia].
  - rewrite load_at_slice by (unfold in_mem, mem_len in *; rewrite L3, L2, L1; lia). f_equal. unfold mem', m2.
    rewrite !load_write_other by (done || unfold oc, ob; lia). by apply load_write.
  - rewrite load_at_slice by (unfold in_mem, mem_len in *; rewrite L3, L2; lia). f_equal. unfold mem'.
    rewrite load_write_other by (done || unfold oc, ob; lia). by apply load_write.
  - rewrite load_at_slice by (unfold in_mem, mem_len in *; rewrite L3; lia). f_equal. by apply load_write.
Qed.

(** C16: An actor's event arrives as it was emitted. For entries within the limits
    the SDK's flattening into headers, keys and values is what the kernel takes
    apart again: one event with exactly these entries, stamped with the actor's
    id, is appended, or the call answers that the context is read-only and nothing
    is appended, or the message runs out of gas. State tree, block registry and the
    actor's memory are as before. *)
Theorem emit_event_delivered es i g :
  event_valid es → gt_ok (iv_gas i) → 0 ≤ gs_top g →
  gs_top g + Z.of_nat (24 * length es + length (concat (ee_key <$> es)) + length (concat (ee_value <$> es))) ≤ mem_len (gs_mem g) →
  sdk_post n out_of_gas (emit_event es) i g (λ r i' g',
    let k := iv_kernel i in let k' := iv_kernel i' in
    r = (if k_read_only k then Err ReadOnly else Ok tt) ∧
    evs_events (cm_events (k_cm k')) = evs_events (cm_events (k_cm k)) ++
      (if k_read_only k then [] else [mkStampedEvent (k_actor_id k) es]) ∧
    cm_tree (k_cm k') = cm_tree (k_cm k) ∧ k_blocks k' = k_blocks k ∧ mem_keeps (gs_top g) (gs_mem g) (gs_mem g')).
Proof using ES.
  intros Hes Hok Ht Hroom. pose proof Hes as (Hv & Hn & Hvl & _). unfold emit_event. set (f := concat (event_entry <$> es)).
  set (ks := concat (ee_key <$> es)) in *. set (vs := concat (ee_value <$> es)) in *.
  assert (length f = (24 * length es)%nat) as Lf by apply fixed_entries_length.
  assert (length ks ≤ 31 * length es)%nat as Lk.
  { unfold ks. clear -Hv. induction Hv as [|e es (_ & _ & _ & Hk & _) _ IH]; [simpl; lia|]. rewrite fmap_cons. cbn [concat length].
    rewrite length_app. unfold MAX_KEY_LEN in Hk. lia. }
  destruct (three_slices (gs_top g) f ks vs (gs_mem g) Ht) as (Hkeep & Sf & Sk & Sv); [lia|]. cbn zeta in *.
  unfold MAX_NR_ENTRIES, MAX_TOTAL_VALUES_LEN in *.
  apply post_scope. do 3 (apply post_seq, post_slice_in; cbn [gs_mem gs_top set_mem set_top];
    [unfold in_mem, mem_len in *; rewrite ?mem_write_len by (unfold in_mem, mem_len; rewrite ?mem_write_len by (unfold in_mem, mem_len; lia); lia); lia|]).
  cbn [gs_mem gs_top set_mem set_top]. set (mem' := mem_write _ vs _) in *.
  apply post_call_unit; [done|done|done|]. intros i1 Hok1 (Hb1 & Hid1 & Hro1 & Ht1 & He1). cbn [gs_mem set_mem set_top dispatch].
  unfold sys_emit_event, u32_len. rewrite !wrap32_small by mlia. unfold EVENT_SIZE.
  destruct (Z.ltb_spec u32_max (Z.of_nat (length es) * 24)) as [|_]; [mlia|].
  replace (Z.of_nat (length es) * 24) with (Z.of_nat (length f)) by lia.
  unfold map_err, rd, kern, zoom, mbind, M_bind, mret, M_ret. cbn [ctx_mem ctx_kernel]. rewrite Sf, Sk, Sv, Nat2Z.id.
  unfold f. rewrite decode_entries by done. pose proof (emit_event_cases es (iv_kernel i1) Hes) as Hcase. fold ks vs in Hcase.
  rewrite Hro1 in Hcase. destruct (k_read_only (iv_kernel i)).
  - rewrite Hcase. cbn. intros i' gas _ Hk'. cbn zeta. rewrite Hk'. cbn. rewrite app_nil_r. by rewrite <-He1, <-Ht1, <-Hb1.
  - destruct Hcase as [(k' & -> & Htr & Hbl & Hev)|[k' ->]]; [|done]. cbn. intros i' gas _ Hk'. rewrite Hk'. cbn.
    rewrite Hev, He1, Hid1, Htr, Hbl. done.
Qed.
End events.

(** ** The shape of returned values *)

Definition yields_only {Er S A} (P : A → Prop) (m : ME Er S A) : Prop := ∀ s v s', m s = (Ok v, s') → P v.

Section shapes.
Context {Er S : Type}.
Lemma yields_ret {A} (P : A → Prop) a : P a → yields_only P (mret a : ME Er S A).
Proof. by intros HP s v s' [= <- _]. Qed.
Lemma yields_throw {A} (P : A → Prop) e : yields_only P (throw e : ME Er S A).
Proof. by intros s v s' [=]. Qed.
Lemma yields_bind {A B} (P : B → Prop) (m : ME Er S A) f : (∀ a, yields_only P (f a)) → yields_only P (m ≫= f).
Proof. intros Hf s v s' (a & s1 & _ & Hv)%bind_inv_ok. by eapply Hf. Qed.
Lemma yields_gets {A} (P : A → Prop) (f : S → A) : (∀ s, P (f s)) → yields_only P (gets f : ME Er S A).
Proof. intros Hf s v s' [= <- _]. apply Hf. Qed.
Lemma yields_map_err {Er' A} (P : A → Prop) (h : Er → Er') (m : ME Er S A) : yields_only P m → yields_only P (map_err h m).
Proof. intros Hm s v s'. unfold map_err. destruct (m s) as [[a|e] s1] eqn:Em; intros [= <- _]. by eapply Hm. Qed.
Lemma yields_zoom {T A} (P : A → Prop) (get : T → S) set (m : ME Er S A) : yields_only P m → yields_only P (zoom get set m).
Proof. intros Hm s v s'. unfold zoom. destruct (m (get s)) as [r s1] eqn:Em. intros [= -> _]. by eapply Hm. Qed.
Lemma yields_lift {A} (P : A → Prop) (r : result Er A) : (∀ a, r = Ok a → P a) → yields_only P (lift r : ME Er S A).
Proof. intros Hr s v s' [= Ev _]. by apply Hr. Qed.
End shapes.

Ltac yields_step :=
  match goal with
  | |- yields_only _ (mbind _ _) => apply yields_bind; intros ?
  | |- yields_only _ (mret _) => apply yields_ret; try done
  | |- yields_only _ (throw _) => apply yields_throw
  | |- yields_only _ (map_err _ _) => apply yields_map_err
  | |- yields_only _ (gets _) => apply yields_gets; done
  | |- yields_only _ (match ?x with _ => _ end) => destruct x
  end.

Section types.
Context `{H : Host} (call : CallFn).
(** Documented sizes: recovered keys and randomness. *)
Context (secp_len : ∀ h s k, host_recover_secp h s = Ok k → length k = 65%nat).
Context (rand_len : ∀ e r, host_chain_randomness e = Ok r → length r = 32%nat).
Context (beacon_len : ∀ e r, host_beacon_randomness e = Ok r → length r = 32%nat).

(** As many fields as the structure at the out pointer has, none without one. *)
Definition shaped (req : SyscallReq) (v : list Z) : Prop :=
  match out_value req with Some (_, ws) => length v = length ws | None => v = [] end.

Lemma yields_kern (P : list Z → Prop) (m : M Kernel (list Z)) : yields_only P m → yields_only P (kern m).
Proof. apply yields_zoom. Qed.

Lemma yields_or_illegal (P : bytes → Prop) (r : result string bytes) : (∀ a, r = Ok a → P a) →
  yields_only P (lift (or_illegal_argument r) : M Kernel bytes).
Proof. intros Hr. apply yields_lift. intros a. destruct r; simpl; [intros [= <-]; by apply Hr|done]. Qed.

End types.

(** ** Storing and loading *)

(** Out of gas, or an error of the node itself. *)
Definition host_stop (a : Abort) : Prop := a = AOutOfGas ∨ ∃ msg, a = AFatal msg.

Section cids.
Context `{H : Host} {ES : EnvSpec} `{RTS : RuntimeSpec} (n : nat).
Context {CBS : @CidBytesSpec host_cid_parser host_cid_bytes}.
(** An encoded CID of at most 64 digest bytes fits the SDK's buffers. *)
Context (cid_bytes_max : ∀ k, cid_fits k → Z.of_nat (length (host_cid_bytes k)) ≤ MAX_CID_LEN).

Lemma cid_parse k rest : cid_fits k → cid_read_bytes (host_cid_bytes k ++ rest) = Ok (k, rest).
Proof using CBS. exact (cid_read_to_bytes k rest). Qed.

Lemma stop_gas : host_stop AOutOfGas.
Proof. by left. Qed.

(** What the guest state may look like after a function that used [m] bytes. *)
Definition kept (m : Z) (g h : Gs) : Prop := gs_top h = gs_top g + m ∧ mem_keeps (gs_top g) (gs_mem g) (gs_mem h).

Lemma kept_trans a b g h h' : 0 ≤ a → kept a g h → kept b h h' → kept (a + b) g h'.
Proof using.
  intros Ha [E1 M1] [E2 M2]. split; [lia|]. etrans; [exact M1|]. eapply mem_keeps_mono; [|exact M2]. lia.
Qed.
Lemma kept_pop a g h : kept a g h → kept 0 g (set_top (gs_top g) h).
Proof using. intros [_ M1]. split; [cbn; lia|done]. Qed.
Lemma kept_len a g h : kept a g h → mem_len (gs_mem h) = mem_len (gs_mem g).
Proof using. intros [_ [Hl _]]. unfold mem_len. by rewrite Hl. Qed.

Lemma post_zeroed sz i g Q : 0 ≤ sz → 0 ≤ gs_top g → gs_top g + sz ≤ mem_len (gs_mem g) →
  (∀ h, kept sz g h → Q (gs_top g) i h) → sdk_post n host_stop (zeroed sz) i g Q.
Proof using.
  intros Hsz Ht Hr HQ. assert (in_mem (gs_top g) (Z.of_nat (length (replicate (Z.to_nat sz) 0))) (gs_mem g)) as Hin.
  { rewrite length_replicate. unfold in_mem. lia. }
  apply post_seq, post_alloc; [done|]. apply post_seq, post_store, post_ret. apply HQ. split; [done|]. by apply mem_keeps_write.
Qed.

(** The outcome of a kernel operation, as the binding sees it. *)
Definition kernel_post {A} (r : result ExecutionError A) (ok : A → Prop) (err : ErrorNumber → Prop) : Prop :=
  match r with Ok a => ok a | Err (Syscall e) => err (se_number e) | Err _ => True end.

(** A kernel operation that answers with a CID, through the SDK's buffer. *)
Lemma post_cid_out (m : M Kernel Cid) (req : Z → Z → SyscallReq) on_err msg i g (Q : SyscallResult Cid → Inv → Gs → Prop) :
  (∀ buf ret, dispatch (call_actor n) (req buf ret) = map_err into_control_flow (out_cid m buf MAX_CID_LEN)) →
  (∀ buf ret, out_value (req buf ret) = Some (ret, [4%nat])) →
  gt_ok (iv_gas i) → 0 ≤ gs_top g → gs_top g + MAX_CID_LEN + 4 ≤ mem_len (gs_mem g) →
  (∀ i1, gt_ok (iv_gas i1) → quiet (iv_kernel i) (iv_kernel i1) →
    kernel_post (m (iv_kernel i1)).1
      (λ c, cid_fits c ∧ ∀ i' h, gt_ok (iv_gas i') → iv_kernel i' = (m (iv_kernel i1)).2 → kept MAX_CID_LEN g h → Q (Ok c) i' h)
      (λ e, ∀ i' h, gt_ok (iv_gas i') → iv_kernel i' = (m (iv_kernel i1)).2 → kept MAX_CID_LEN g h →
        sdk_post n host_stop (on_err e) i' h Q)) →
  sdk_post n host_stop (cid_out req on_err msg) i g Q.
Proof using ES CBS cid_bytes_max.
  intros Hd Ho Hok Ht Hr Hm. unfold cid_out. apply post_seq, post_zeroed; [unfold MAX_CID_LEN; lia|done|unfold MAX_CID_LEN in *; lia|].
  intros h [Htop Hkeep]. pose proof Hkeep as [Hlen _]. apply post_seq, post_call_num, post_call_value; [apply stop_gas|done| |done|].
  { unfold in_mem, mem_len in *. unfold MAX_CID_LEN in *. rewrite Hlen, Htop. simpl. lia. }
  assert (in_mem (gs_top g) MAX_CID_LEN (gs_mem h)) as Hbuf by (unfold in_mem, mem_len in *; unfold MAX_CID_LEN in *; rewrite Hlen; lia).
  intros i1 Hok1 Hq1. specialize (Hm i1 Hok1 Hq1). rewrite Hd. unfold out_cid, map_err, mbind, M_bind, rd, kern, zoom. cbn [ctx_mem ctx_kernel].
  assert (check_bounds (gs_top g) MAX_CID_LEN (gs_mem h) = Ok tt) as ->.
  { unfold check_bounds. destruct Hbuf as (_ & _ & ?). destruct (Z.leb_spec (gs_top g + MAX_CID_LEN) (mem_len (gs_mem h))); [done|lia]. }
  destruct (m (iv_kernel i1)) as [[c|e] k']; cbn [kernel_post fst snd] in Hm.
  - destruct Hm as [Hc HQ]. unfold write_cid, mbind, M_bind, rd, throw, write_mem, modify, mret, M_ret. cbn [ctx_mem].
    rewrite load_at_slice by done. pose proof (cid_bytes_max c Hc) as Hmax. set (bz := host_cid_bytes c) in *.
    assert (length (load_at (gs_mem h) (gs_top g) MAX_CID_LEN) = Z.to_nat MAX_CID_LEN) as ->.
    { unfold load_at. rewrite length_take, length_drop. unfold in_mem, mem_len, MAX_CID_LEN in *. lia. }
    rewrite Z2Nat.id by (unfold MAX_CID_LEN; lia). destruct (Z.ltb_spec MAX_CID_LEN (Z.of_nat (length bz))); [lia|].
    assert (in_mem (gs_top g) (Z.of_nat (length bz)) (gs_mem h)) as Hin by (unfold in_mem in *; lia).
    assert (in_mem (gs_top h) (Z.of_nat (length (encode_fields [4%nat] [Z.of_nat (length bz)]))) (mem_write (gs_top g) bz (gs_mem h))) as Hret.
    { simpl. unfold in_mem, mem_len in *. rewrite mem_write_len, Hlen, Htop by (unfold in_mem, mem_len; lia). lia. }
    cbn [fst snd ctx_mem ctx_kernel]. split; [done|]. split; [by apply mem_write_len|]. intros i' gas Hok' Hk'.
    assert (field 0 (fields_of [4%nat] [Z.of_nat (length bz)]) = Z.of_nat (length bz)) as ->.
    { unfold field, fields_of. simpl. apply Z.mod_small. unfold MAX_CID_LEN in *. lia. }
    apply post_seq, post_load. cbn [gs_mem resume]. rewrite load_write_other by (done || unfold MAX_CID_LEN in *; lia).
    rewrite load_write by done. pose proof (cid_parse c [] Hc) as Hp. rewrite app_nil_r in Hp. fold bz in Hp. rewrite Hp.
    apply post_ret, HQ; [done..|].
    split; [done|]. cbn [gs_mem resume]. etrans; [exact Hkeep|]. etrans; [apply mem_keeps_write; [exact Hin|lia]|].
    apply mem_keeps_write; [exact Hret|unfold MAX_CID_LEN in *; lia].
  - destruct e as [|e|msg']; cbn [into_control_flow]; [by left| |right; by exists msg'].
    intros i' gas Hok' Hk'. cbn [field]. by apply Hm.
Qed.

(** ** put *)

Definition storage_ok (k : Kernel) : Prop := br_ok (k_blocks k) ∧ store_ok (k_store k).

Lemma quiet_storage k k' : quiet k k' → storage_ok k → storage_ok k'.
Proof using. intros (Hb & _ & _ & Ht & _). unfold storage_ok, k_store. by rewrite Hb, Ht. Qed.

Lemma handle_small id k b : br_ok (k_blocks k) → br_get id (k_blocks k) = Ok b → id `mod` 256 ^ Z.of_nat 4 = id.
Proof using.
  intros [Hmax _] Hget. apply Z.mod_small. unfold br_get, FIRST_ID in Hget. destruct (Z.ltb_spec id 1); [done|].
  destruct (br_blocks (k_blocks k) !! Z.to_nat (id - 1)) eqn:El; [|done]. apply lookup_lt_Some in El.
  unfold MAX_BLOCKS, i32_max in Hmax. change (256 ^ Z.of_nat 4) with 4294967296. lia.
Qed.

Lemma blake_fits codec data : codec ∈ ALLOWED_CODECS → cid_fits (block_cid codec BLAKE2B_256 data).
Proof using ES.
  intros Hcodec. split_and!; cbn; [|unfold in_u64, u64_max, BLAKE2B_256; lia|rewrite blake2b_len; lia].
  unfold ALLOWED_CODECS in Hcodec. rewrite !elem_of_cons, elem_of_nil in Hcodec. unfold in_u64, u64_max.
  destruct Hcodec as [->|[->|[->|[]]]]; vm_compute; split; congruence.
Qed.

(** Creating a block from data in memory. *)
Lemma post_block_create codec off data i g (Q : SyscallResult Z → Inv → Gs → Prop) :
  gt_ok (iv_gas i) → storage_ok (iv_kernel i) → Z.of_nat (length data) ≤ u32_max →
  try_slice off (Z.of_nat (length data)) (gs_mem g) = Ok data → in_mem (gs_top g) 4 (gs_mem g) →
  (∀ i' h id links, gt_ok (iv_gas i') → storage_ok (iv_kernel i') → kept 0 g h → codec ∈ ALLOWED_CODECS →
    br_get id (k_blocks (iv_kernel i')) = Ok (mkBlock codec data links) → Q (Ok id) i' h) →
  (∀ e i' h, gt_ok (iv_gas i') → kept 0 g h → Q (Err e) i' h) →
  sdk_post n host_stop (call_num 4 (λ ret, IpldBlockCreate ret codec off (u32_len data))) i g Q.
Proof using ES.
  intros Hok Hst Hd Hs Hin HQ He. apply post_call_num, post_call_value; [apply stop_gas|done|by simpl|done|].
  intros i1 Hok1 Hq1. apply (quiet_storage _ _ Hq1) in Hst as [Hbr Hstore]. cbn [dispatch]. unfold u32_len. rewrite wrap32_small by mlia.
  unfold map_err, mbind, M_bind, rd, kern, zoom. cbn [ctx_mem ctx_kernel]. rewrite Hs.
  destruct (k_block_create codec data (iv_kernel i1)) as [[id|e] k'] eqn:Ek.
  - apply block_create_run in Ek as (Hc & _ & Ht & Hbr' & links & Hget & _); [|done]. cbn. split; [done|]. split; [done|].
    intros i' gas Hok' Hk'. assert (in_mem (gs_top g) (Z.of_nat (length (encode_fields [4%nat] [id]))) (gs_mem g)) as Hret by done.
    unfold field, fields_of. cbn [zip_with nth]. rewrite (handle_small id k' _ Hbr' Hget). apply (HQ _ _ _ links).
    + done.
    + rewrite Hk'. split; [done|]. unfold k_store in *. cbn. by rewrite Ht.
    + split; [cbn; lia|]. by apply mem_keeps_write.
    + done.
    + by rewrite Hk'.
  - destruct e as [|e|msg]; cbn; [by left| |right; by eexists]. intros i' gas Hok' Hk'. apply He; [done|]. split; [cbn; lia|done].
Qed.

(** What [put] leaves: the block under its CID, and the CID within reach. *)
Definition put_done (codec : Z) (data : bytes) (c : Cid) (k : Kernel) : Prop :=
  c = block_cid codec BLAKE2B_256 data ∧ codec ∈ ALLOWED_CODECS ∧ storage_ok k ∧
  is_reachable c (k_blocks k) = true ∧ bs_get (k_store k) c = Ok (Some data).

Lemma post_put codec data i g (Q : SyscallResult Cid → Inv → Gs → Prop) :
  gt_ok (iv_gas i) → storage_ok (iv_kernel i) → 0 ≤ gs_top g → Z.of_nat (length data) ≤ u32_max →
  gs_top g + Z.of_nat (length data) + MAX_CID_LEN + 4 ≤ mem_len (gs_mem g) →
  (∀ c i' h, gt_ok (iv_gas i') → put_done codec data c (iv_kernel i') → kept 0 g h → Q (Ok c) i' h) →
  (∀ e i' h, gt_ok (iv_gas i') → kept 0 g h → Q (Err e) i' h) →
  sdk_post n host_stop (put BLAKE2B_256 32 codec data) i g Q.
Proof using ES CBS RTS cid_bytes_max.
  intros Hok Hst Ht Hd Hr HQ He. unfold put. change (BLAKE2B_256 =? IDENTITY_HASH) with false. cbv match.
  assert (in_mem (gs_top g) (Z.of_nat (length data)) (gs_mem g)) as Hin by (unfold in_mem; unfold MAX_CID_LEN in *; lia).
  pose proof (mem_write_len _ _ _ Hin) as Hlen.
  apply post_scope, post_seq, post_slice_in; [done|]. set (g1 := set_mem _ _).
  assert (kept (Z.of_nat (length data)) g g1) as Hk1 by (split; [done|by apply mem_keeps_write]).
  assert (mem_len (gs_mem g1) = mem_len (gs_mem g)) as Hml by (unfold mem_len; f_equal; exact Hlen).
  apply post_and_then, post_block_create; [done|done|done| | | |].
  { rewrite load_at_slice; [f_equal; by apply load_write|]. unfold in_mem in *. rewrite Hml. done. }
  { unfold in_mem. rewrite Hml. cbn. unfold MAX_CID_LEN in *. lia. }
  - intros i1 h1 id links Hok1 Hst1 Hk2 Hcodec Hget.
    assert (kept (Z.of_nat (length data) + 0) g h1) as Hkh by (eapply kept_trans; [lia|exact Hk1|exact Hk2]).
    pose proof (kept_len _ _ _ Hkh) as Hl1. pose proof Hkh as [Etop _].
    apply (post_cid_out (k_block_link id BLAKE2B_256 32)); [done|done|done|lia|rewrite Hl1; lia|].
    intros i2 Hok2 Hq2. pose proof (quiet_storage _ _ Hq2 Hst1) as [Hbr2 Hs2].
    assert (∀ h, kept MAX_CID_LEN h1 h → kept 0 g (set_top (gs_top g) h)) as Hend.
    { intros h Hkept. eapply kept_pop, kept_trans; [|exact Hkh|exact Hkept]. lia. }
    destruct (k_block_link id BLAKE2B_256 32 (iv_kernel i2)) as [[c|[|e|msg]] k'] eqn:Ek; cbn [fst snd kernel_post]; try done.
    + apply block_link_run in Ek as (b & Hb & -> & Hgc & Hs' & _ & Hbl); [|done]. rewrite (proj1 Hq2), Hget in Hb. injection Hb as <-.
      split; [by apply blake_fits|].
      intros i' h Hok' Hk' Hkept. apply HQ; [done| |by apply Hend]. rewrite Hk'. split_and!; try done.
      * split; [|done]. rewrite Hbl. by apply mark_reachable_ok.
      * rewrite Hbl. unfold is_reachable, mark_reachable. cbn. apply bool_decide_eq_true. set_solver.
    + intros i' h Hok' Hk' Hkept. apply post_ret, He; [done|by apply Hend].
  - intros e i' h Hok' Hkept. apply He; [done|]. eapply kept_pop, kept_trans; [|exact Hk1|exact Hkept]. lia.
Qed.

(** ** get *)

Lemma read_cid_written off c mem : cid_fits c → in_mem off (Z.of_nat (length (host_cid_bytes c))) mem →
  read_cid off (mem_write off (host_cid_bytes c) mem) = Ok c.
Proof using CBS.
  intros Hc Hin. pose proof (mem_write_len _ _ _ Hin) as Hl. unfold in_mem in Hin. unfold read_cid, mem_len in *. rewrite Hl.
  destruct (Z.ltb_spec (Z.of_nat (length mem)) off); [lia|]. unfold mem_write.
  rewrite drop_app_length' by (rewrite length_take; lia). by rewrite cid_parse.
Qed.

(** Opening a stored block from the CID at [off]. *)
Lemma post_block_open codec data c off i g (Q : SyscallResult (list Z) → Inv → Gs → Prop) :
  gt_ok (iv_gas i) → put_done codec data c (iv_kernel i) → Z.of_nat (length data) ≤ i32_max →
  read_cid off (gs_mem g) = Ok c → in_mem (gs_top g) 16 (gs_mem g) →
  (∀ i' h o links, gt_ok (iv_gas i') → kept 0 g h →
    br_get (field 1 o) (k_blocks (iv_kernel i')) = Ok (mkBlock codec data links) → field 2 o = Z.of_nat (length data) → Q (Ok o) i' h) →
  (∀ e i' h, gt_ok (iv_gas i') → kept 0 g h → Q (Err e) i' h) →
  sdk_post n host_stop (call_value [8; 4; 4]%nat (λ ret, IpldBlockOpen ret off)) i g Q.
Proof using ES.
  intros Hok (-> & _ & Hst & _ & Hdata) Hd Hc Hin HQ He. apply post_call_value; [apply stop_gas|done|by simpl|done|].
  intros i1 Hok1 Hq1. apply (quiet_storage _ _ Hq1) in Hst as [Hbr Hstore]. cbn [dispatch].
  unfold map_err, mbind, M_bind, rd, kern, zoom. cbn [ctx_mem ctx_kernel]. rewrite Hc.
  destruct (k_block_open _ (iv_kernel i1)) as [[[id stat]|e] k'] eqn:Ek.
  - apply block_open_run in Ek as (_ & Ht & Hbr' & data' & links & Hget' & -> & Hget & _); [|done].
    assert (data' = data) as ->.
    { unfold k_store in *. destruct Hq1 as (_ & _ & _ & Et & _). rewrite Et, Hdata in Hget'. by injection Hget' as <-. }
    cbn [fst snd]. split; [done|]. split; [done|]. intros i' gas Hok' Hk'.
    apply (HQ _ _ _ links); [done| | |].
    + split; [cbn; lia|]. by apply mem_keeps_write.
    + unfold field, fields_of. cbn [zip_with nth]. rewrite Hk'. cbn. rewrite (handle_small id k' _ Hbr' Hget). done.
    + unfold field, fields_of. cbn [zip_with nth]. unfold blk_size. cbn [blk_data].
      rewrite wrap32_small by (unfold i32_max in *; mlia). apply Z.mod_small. unfold i32_max in Hd. simpl. lia.
  - destruct e as [|e|msg]; cbn; [by left| |right; by eexists]. intros i' gas Hok' Hk'. apply He; [done|]. split; [cbn; lia|done].
Qed.

Lemma post_get codec data c i g (Q : SyscallResult bytes → Inv → Gs → Prop) :
  let size := Z.of_nat (length data) in
  gt_ok (iv_gas i) → put_done codec data c (iv_kernel i) → 0 ≤ gs_top g → rt_capacity size ≤ i32_max →
  gs_top g + MAX_CID_LEN + rt_capacity size + 16 ≤ mem_len (gs_mem g) →
  (∀ i' h, gt_ok (iv_gas i') → kept 0 g h → Q (Ok data) i' h) →
  (∀ e i' h, gt_ok (iv_gas i') → kept 0 g h → Q (Err e) i' h) →
  sdk_post n host_stop (get c) i g Q.
Proof using ES CBS RTS cid_bytes_max.
  intros size Hok Hput Ht Hcap Hr HQ He. pose proof (rt_capacity_le size) as Hsz. assert (0 ≤ size) by (unfold size; lia).
  assert (cid_fits c) as Hc by (destruct Hput as (-> & ? & _); by apply blake_fits). pose proof (cid_bytes_max c Hc) as Hmax.
  unfold get. assert ((cid_hash_code c =? IDENTITY_HASH) = false) as -> by (by destruct Hput as (-> & _)).
  apply post_scope, post_seq, post_seq, post_zeroed; [unfold MAX_CID_LEN; lia|done|unfold MAX_CID_LEN in *; lia|]. intros h Hk1.
  destruct (Z.ltb_spec MAX_CID_LEN (Z.of_nat (length (host_cid_bytes c)))); [lia|].
  assert (in_mem (gs_top g) (Z.of_nat (length (host_cid_bytes c))) (gs_mem h)) as Hin.
  { unfold in_mem. rewrite (kept_len _ _ _ Hk1). unfold MAX_CID_LEN in *. lia. }
  apply post_seq, post_store, post_ret. set (h1 := set_mem _ h).
  assert (kept MAX_CID_LEN g h1) as Hkh.
  { destruct Hk1 as [E1 M1]. split; [done|]. etrans; [exact M1|]. apply mem_keeps_write; [done|lia]. }
  pose proof (kept_len _ _ _ Hkh) as Hl1. pose proof Hkh as [Et1 _].
  apply post_and_then, (post_block_open codec data c); [done|done|unfold i32_max in *; lia|by apply read_cid_written| | |].
  { unfold in_mem. rewrite Hl1, Et1. unfold MAX_CID_LEN in *. lia. }
  - intros i2 h2 o links Hok2 Hk2 Hget Hsize. cbv zeta. rewrite Hsize. fold size. assert (kept (MAX_CID_LEN + 0) g h2) as Hkh2 by (by eapply kept_trans).
    pose proof (kept_len _ _ _ Hkh2) as Hl2. pose proof Hkh2 as [Et2 _]. unfold MAX_CID_LEN in *.
    apply post_seq, post_alloc; [rewrite Hl2; lia|].
    apply post_and_then. apply (post_weaken n out_of_gas); [intros a ->; apply stop_gas|].
    eapply post_block_read; [done|exact Hget|lia|lia|lia|cbn [blk_data]; fold size; lia| | | |]; cbn [gs_mem gs_top set_top blk_data].
    { unfold in_mem. rewrite Hl2. lia. }
    { lia. }
    { rewrite Hl2. lia. }
    cbn zeta. intros i3 gas mem3 r Hok3 _ Hl3 Hd3 Hf3 Hr3. cbn [blk_data] in *. rewrite Hr3. fold size.
    replace (size - (0 + size)) with 0 by lia. apply post_seq, post_assert; [done|]. apply post_seq, post_load, post_ret. cbn [gs_mem resume].
    rewrite drop_0, take_ge in Hd3 by (unfold size; lia). fold size in Hd3. rewrite Hd3. apply HQ; [done|].
    eapply kept_pop, (kept_trans _ (rt_capacity size)); [|exact Hkh2|]; [lia|].
    split; [done|]. split; [done|]. intros j Hj. apply Hf3; lia.
  - intros e i' h2 Hok' Hkept. apply He; [done|]. eapply kept_pop, kept_trans; [|exact Hkh|exact Hkept]. unfold MAX_CID_LEN. lia.
Qed.

End cids.

(** ** The message's context *)

Section context.
Context `{H : Host} {ES : EnvSpec} `{RT : Runtime} (n : nat).

Definition MESSAGE_FIELDS : list nat := [8; 8; 8; 8; 8; 16; 16; 8]%nat.
(** What the kernel knows of the message, in the order of the structure. *)
Definition message_fields (k : Kernel) : list Z :=
  [cc_origin (cm_const (k_cm k)); cc_nonce (cm_const (k_cm k)); k_caller k; k_actor_id k; k_method k; k_value_received k;
   cc_gas_premium (cm_const (k_cm k)); if k_read_only k then 1 else 0].

(** A charge does not touch what the context is made of. *)
Definition same_message (k k' : Kernel) : Prop := message_fields k' = message_fields k.
Lemma msg_context_cases k : match k_msg_context k with
  | (Ok v, k') => v = message_fields k ∧ quiet k k' ∧ same_message k k'
  | (Err (Syscall _), _) => False
  | (Err _, _) => True
  end.
Proof using.
  unfold k_msg_context, mbind, M_bind, kcm, zoom, gets, lift. pose proof (quiet_charge on_message_context k) as Hq. unfold kcm, zoom in Hq.
  assert (∀ f (c : CM), cm_const (charge_gas f c).2 = cm_const c) as Hconst.
  { intros f c. unfold charge_gas, mbind, M_bind, gets, on_gas, zoom. by destruct (apply_charge _ _). }
  specialize (Hconst on_message_context (k_cm k)). destruct (charge_gas_cases on_message_context (k_cm k)) as [[c' Ec]|[c' Ec]]; rewrite Ec in *; [|done].
  cbn [snd] in *. unfold token_to_u128, message_fields, same_message. cbn. rewrite Hconst.
  assert (message_fields (k_set_cm c' k) = message_fields k) as Hs by (unfold message_fields; cbn; by rewrite Hconst).
  destruct ((k_value_received k <? 0) || _); [done|]. destruct ((cc_gas_premium _ <? 0) || _); [done|]. cbn. done.
Qed.

(** The context is what the kernel knows of the message, cut to the widths of
    its fields, and the host is asked for it once: the second use makes no call and
    gives the same. *)
Theorem message_context_once i g : gt_ok (iv_gas i) → gs_message g = None → in_mem (gs_top g) 80 (gs_mem g) →
  sdk_post n host_stop (c1 ← message_context; c2 ← message_context; mret (c1, c2)) i g
    (λ r i' g', ∃ k, quiet (iv_kernel i) k ∧ r.1 = fields_of MESSAGE_FIELDS (message_fields k) ∧ r.2 = r.1 ∧
      gs_message g' = Some r.1 ∧ kept 0 g g').
Proof using ES.
  intros Hok Hnone Hin. apply post_seq.
  enough (sdk_post n host_stop message_context i g (λ c i' g', gs_message g' = Some c ∧ kept 0 g g' ∧
    ∃ k, quiet (iv_kernel i) k ∧ c = fields_of MESSAGE_FIELDS (message_fields k))) as Hone.
  { eapply post_mono; [exact Hone|]. intros c i' g' (Hc & Hk & k & Hq & Ec). apply post_seq. intros kk. right.
    exists c, i', g'. split; [unfold message_context; by rewrite Hc|]. apply post_ret. by exists k. }
  assert (sdk_post n host_stop (r ← call_value MESSAGE_FIELDS VmMessageContext; expect "failed to lookup message context" r) i g
    (λ c i' g', kept 0 g g' ∧ ∃ k, quiet (iv_kernel i) k ∧ c = fields_of MESSAGE_FIELDS (message_fields k))) as Hask.
  { apply post_seq, post_call_value; [by left|done|done|done|]. intros i1 Hok1 Hq1. cbn [dispatch].
    unfold map_err, kern, zoom. cbn [ctx_kernel]. pose proof (msg_context_cases (iv_kernel i1)) as Hc.
    destruct (k_msg_context (iv_kernel i1)) as [[v|[|e|msg]] k']; cbn; [|by left|done|right; by eexists].
    destruct Hc as (-> & Hq & Hs). split; [done|]. split; [done|]. intros i' gas Hok' Hk'. apply post_ret. split.
    - split; [cbn; lia|]. by apply mem_keeps_write.
    - by exists (iv_kernel i1). }
  intros kk. unfold message_context at 1 2. rewrite Hnone. destruct (Hask (λ c g', kk c (set_message c g'))) as [?|(c & i' & g' & Er & Hk & Hq)]; [by left|].
  right. exists c, i', (set_message c g'). done.
Qed.
End context.
