(* ===== verification/SdkDemo.v ===== *)
(** * SDK code at work

    The concrete machine of [Demo] with CIDs as the SDK writes them, a simple
    runtime, and small actors built from SDK functions. *)

From S2P Require Import Prelude Effects Gas PriceList Address Types StateTree Blocks Machine Ipld Buffered Car Host CallManager Kernel Syscalls.
From S2P Require Import Invocation Depth MemoryEnv Demo CarDemo Sdk Metering KernelSpec SdkLogic SdkSpec.
From stdpp Require Import gmap strings list fin_maps.
From Stdlib Require Import ZArith Lia.
#[local] Open Scope Z_scope.

#[local] Instance sdk_host : Host := {|
  host_cid_parser := car_cid_parser;
  host_module := @host_module _ demo_host;
  host_cid_bytes := car_cid_bytes;
  host_address_hash := @host_address_hash _ demo_host;
  host_upgrade_info := @host_upgrade_info _ demo_host;
  host_events_root := @host_events_root _ demo_host;
  host_from_utf8 := @host_from_utf8 _ demo_host;
  host_verify_signature := @host_verify_signature _ demo_host;
  host_verify_bls_aggregate := @host_verify_bls_aggregate _ demo_host;
  host_recover_secp := @host_recover_secp _ demo_host;
  host_chain_randomness := @host_chain_randomness _ demo_host;
  host_beacon_randomness := @host_beacon_randomness _ demo_host;
  host_tipset_cid := @host_tipset_cid _ demo_host;
  host_verify_consensus_fault := @host_verify_consensus_fault _ demo_host;
  host_proofs := @host_proofs _ demo_host;
  host_cbor_pieces := @host_cbor_pieces _ demo_host;
  host_cbor_window_post := @host_cbor_window_post _ demo_host;
  host_cbor_aggregate := @host_cbor_aggregate _ demo_host;
  host_cbor_replica := @host_cbor_replica _ demo_host;
  host_cbor_seals := @host_cbor_seals _ demo_host;
|}.

(** A hundred units between two host calls, and vectors a little too large. *)
#[local] Instance sdk_runtime : Runtime := {|
  rt_exec gas := gas - 100;
  rt_capacity n := n + 8;
  rt_panic_info msg := replicate (String.length msg) 33;
  rt_initialized := true;
|}.
#[local] Instance sdk_runtime_spec : RuntimeSpec.
Proof. intros m. cbn. lia. Qed.

Lemma leb_length fuel x : (length (leb_encode fuel x) ≤ S fuel)%nat.
Proof. revert x. induction fuel as [|fuel IH]; intros x; cbn; [lia|]. case_match; cbn; [lia|]. specialize (IH (x / 128)). lia. Qed.
Lemma sdk_cid_max k : cid_fits k → Z.of_nat (length (host_cid_bytes k)) ≤ MAX_CID_LEN.
Proof.
  intros (_ & _ & Hd). cbn [host_cid_bytes sdk_host]. unfold car_cid_bytes. rewrite !length_app. cbn [varint_encode leb128].
  pose proof (leb_length 9 (cid_codec k)). pose proof (leb_length 9 (cid_hash_code k)).
  pose proof (leb_length 9 (Z.of_nat (length (cid_digest k)))). change (length (leb_encode 9 1)) with 1%nat. unfold MAX_CID_LEN. lia.
Qed.

(** A running actor, and one whose registry holds a block of six bytes. *)
Definition sdk_inv : Inv := (update_gas_available (new_store demo_kernel)).2.
Definition six : Block := mkBlock IPLD_RAW [1; 2; 3; 4; 5; 6] [].
Definition sdk_inv_six : Inv := iv_set_kernel (k_set_blocks (mkRegistry [six] ∅) demo_kernel) sdk_inv.
Definition sdk_gs : Gs := mkGs (replicate 4096 9) 256 (iv_gas_global sdk_inv) None None None.

(** The result of a piece of SDK code, by a guest that checks it. *)
Definition sdk_check {A} (m : Sdk A) (ok : A → bool) (i : Inv) : result Abort Z :=
  (run_guest (call_actor 5) (m (λ a g, GReturn (gs_gas g) (if ok a then 1 else 0)) sdk_gs) i).1.

Definition put_then_get : Sdk (SyscallResult bytes) := c ?← put BLAKE2B_256 32 IPLD_RAW [1; 2; 3]; get c.
Example put_get_runs : sdk_check put_then_get (λ r, match r with Ok d => bool_decide (d = [1; 2; 3]) | Err _ => false end) sdk_inv = Ok 1.
Proof. vm_compute. reflexivity. Qed.

(** Every hint reads the whole block. *)
Example get_block_runs :
  (λ hint, sdk_check (get_block 1 hint) (λ r, match r with Ok d => bool_decide (d = blk_data six) | Err _ => false end) sdk_inv_six)
    <$> [None; Some 0; Some 2; Some 6; Some 50] = replicate 5 (Ok 1).
Proof. vm_compute. reflexivity. Qed.

Definition sdk_event : list Entry := [mkEventEntry 3 [107] IPLD_RAW [1; 2]; mkEventEntry 0 [] CBOR []; mkEventEntry 1 [120; 121] CBOR [7]].
Example emit_event_runs :
  evs_events (cm_events (k_cm (iv_kernel (run_guest (call_actor 5)
    (emit_event sdk_event (λ _ g, GReturn (gs_gas g) 0) sdk_gs) sdk_inv).2))) = [mkStampedEvent 50 sdk_event].
Proof. vm_compute. reflexivity. Qed.

(** A root that is not reachable is not one of the errors [set_root] returns: it
    is a panic, which the panic handler turns into an exit of the actor. *)
Example set_root_unreachable_panics :
  sdk_check (set_root (block_cid DAG_CBOR BLAKE2B_256 [1])) (λ _, true) sdk_inv = Err (AExit USR_ASSERTION_FAILED "{message}" 0).
Proof. vm_compute. reflexivity. Qed.
(** So is an unknown builtin type. *)
Example unknown_type_panics :
  sdk_check (get_code_cid_for_type 99) (λ _, true) sdk_inv = Err (AExit USR_ASSERTION_FAILED "{message}" 0).
Proof. vm_compute. reflexivity. Qed.

(** A send of ten tokens to the burnt funds actor, and the balances after. *)
Example send_runs :
  sdk_check (r ← send (ID 99) METHOD_SEND None 10 None 0; b ← balance_of 99; mret (r, b))
    (λ '(r, b), match r, b with Ok r, Some b => (resp_exit_code r =? 0) && (b =? 10) | _, _ => false end) sdk_inv = Ok 1.
Proof. vm_compute. reflexivity. Qed.

Example message_runs :
  sdk_check (c ← caller; r ← receiver; m ← method_number; v ← value_received; ro ← read_only; e ← curr_epoch; mret (c, r, m, v, ro, e))
    (λ x, bool_decide (x = (50, 50, 2, 0, false, 1000))) sdk_inv = Ok 1.
Proof. vm_compute. reflexivity. Qed.

(** ** The theorems at work *)

Lemma sdk_gas_ok : gt_ok (iv_gas sdk_inv).
Proof. apply gt_new_ok. Qed.
Lemma sdk_mem_len : mem_len (gs_mem sdk_gs) = 4096.
Proof. reflexivity. Qed.

Lemma get_block_exact_witness :
  sdk_post 5 out_of_gas (get_block 1 (Some 2)) sdk_inv_six sdk_gs
    (λ r i' g', r = Ok [1; 2; 3; 4; 5; 6] ∧ unchanged sdk_inv_six sdk_gs i' g').
Proof.
  apply (get_block_exact 5 1 (Some 2) six sdk_inv_six sdk_gs); rewrite ?sdk_mem_len; cbn; try reflexivity; try lia;
    try (unfold i32_max; lia). exact sdk_gas_ok.
Defined.

Lemma sdk_event_valid : event_valid sdk_event.
Proof.
  unfold event_valid, entry_valid, sdk_event, in_u64, u64_max, MAX_KEY_LEN, MAX_TOTAL_VALUES_LEN, MAX_NR_ENTRIES. split_and!.
  - apply Forall_forall. intros e He. rewrite !elem_of_cons, elem_of_nil in He.
    destruct He as [->|[->|[->|[]]]]; split_and!; cbn; try lia; try done; auto.
  - cbn. lia.
  - cbn. lia.
  - by eexists.
Qed.

Lemma emit_event_delivered_witness : sdk_post 5 out_of_gas (emit_event sdk_event) sdk_inv sdk_gs
  (λ r i' g', r = Ok tt ∧ evs_events (cm_events (k_cm (iv_kernel i'))) = [mkStampedEvent 50 sdk_event]).
Proof.
  eapply post_mono; [apply (emit_event_delivered 5 sdk_event sdk_inv sdk_gs sdk_event_valid sdk_gas_ok)|].
  - cbn. lia.
  - rewrite sdk_mem_len. cbn. lia.
  - intros r i' g' (Hr & He & _). split; [exact Hr|exact He].
Defined.

Lemma sdk_storage_ok : storage_ok (iv_kernel sdk_inv).
Proof. split; [exact registry_new_ok|exact (proj1 demo_inv)]. Qed.


