(* ===== verification/FilSpec.v ===== *)
(** * What the Filecoin calls do

    The calls the Filecoin kernel adds ask third parties about data an actor
    supplies. The theorems say that nothing an actor, the proofs library or the
    client does in them reaches further than the gas and the actor's own memory,
    and what a batch of seals is answered with. *)

From S2P Require Import Prelude Effects Gas PriceList Address HistoryMap Types Sector Proofs StateTree.
From S2P Require Import Access Blocks Machine Ipld Host CallManager Frame Kernel FilKernel Syscalls.
From S2P Require Import Invocation Carry Supply MemoryEnv Depth Executor Demo Metering KernelSpec.
From stdpp Require Import gmap strings list fin_maps.
From Stdlib Require Import ZArith Lia.
#[local] Open Scope Z_scope.

(** [tame I Rok Rerr G m]: from a state in [I], [m] relates the states by [Rok]
    on success and by [Rerr] on failure, and fails only with errors in [G]. *)
Definition tame {Er S A} (I : S → Prop) (Rok Rerr : relation S) (G : Er → Prop) (m : ME Er S A) : Prop :=
  ∀ s, I s → match m s with (Ok _, s') => Rok s s' | (Err e, s') => Rerr s s' ∧ G e end.

Section tame.
Context {Er S : Type} (I : S → Prop) (R Rok : relation S) (G : Er → Prop) `{!PreOrder R}.
Context (HI : ∀ a b, I a → R a b → I b) (Htr : ∀ a b c, R a b → Rok b c → Rok a c).

Lemma tame_bind {A B} (m : ME Er S A) (k : A → ME Er S B) :
  tame I R R G m → (∀ a, tame I Rok R G (k a)) → tame I Rok R G (m ≫= k).
Proof.
  intros Hm Hk s Hs. unfold mbind, M_bind. specialize (Hm s Hs).
  destruct (m s) as [[a|e] s']; [|done]. specialize (Hk a s' (HI _ _ Hs Hm)).
  destruct (k a s') as [[b|e] s''].
  - by eapply Htr.
  - destruct Hk as [Hr Hg]. split; [by etrans|done].
Qed.
Lemma tame_lift {A} (r : result Er A) : (∀ e, r = Err e → G e) → tame I R R G (lift r).
Proof. intros Hg s _. unfold lift. destruct r; [reflexivity|]. split; [reflexivity|by apply Hg]. Qed.
Lemma tame_ret {A} (a : A) : tame I R R G (mret a : ME Er S A).
Proof. intros s _. simpl. reflexivity. Qed.
Lemma tame_throw {A} (e : Er) : G e → tame I R R G (throw e : ME Er S A).
Proof. intros He s _. split; [reflexivity|done]. Qed.
Lemma tame_gets {A} (f : S → A) : tame I R R G (gets f : ME Er S A).
Proof. intros s _. simpl. reflexivity. Qed.
End tame.

Section calls.
Context `{H : Host}.

(** Only the gas tracker of the call manager differs. *)
Definition gas_only (k k' : Kernel) : Prop := ∃ g, k' = k_set_cm (cm_set_gas g (k_cm k)) k.
#[export] Instance gas_only_preorder : PreOrder gas_only.
Proof.
  split.
  - intros k. exists (cm_gas (k_cm k)). by destruct k as [? ? ? ? ? [] ?].
  - intros k k1 k2 [g ->] [g' ->]. by exists g'.
Qed.
(** The prices of the supported network versions. *)
Definition priced (k : Kernel) : Prop := cm_price_list (k_cm k) = WATERMELON_PRICES.
Lemma gas_only_priced k k' : priced k → gas_only k k' → priced k'.
Proof. by intros Hp [g ->]. Qed.
Lemma gas_only_trans a b c : gas_only a b → gas_only b c → gas_only a c.
Proof. apply transitivity. Qed.

(** The errors an actor sees: its arguments were wrong, its buffer too small, or
    it ran out of gas. *)
Definition actor_error (e : ExecutionError) : Prop :=
  match e with
  | OutOfGas => True
  | Syscall e => se_number e = IllegalArgument ∨ se_number e = BufferTooSmall
  | Fatal _ => False
  end.

(** The two errors that are fatal are the client's: its answer names no actor
    id, or its circulating supply is out of range. *)
Definition call_error (e : ExecutionError) : Prop :=
  actor_error e ∨ e = Fatal "kernel returned non-id target address" ∨ e = Fatal "token amount exceeds u128".

Abbreviation ktame := (tame priced gas_only gas_only call_error).

Lemma charge_tame f : tame priced gas_only gas_only call_error (kcm (charge_gas f)).
Proof.
  intros k _. unfold kcm, charge_gas, gets, on_gas, zoom, mbind, M_bind.
  unfold apply_charge, charge_gas_inner. destruct (_ <? _)%N.
  - split; [by eexists|by left].
  - by eexists.
Qed.
Lemma catch_error {A} ctx (f : Fallible A) e :
  (∀ e, f = Err (Raise e) → actor_error e) → catch_and_log_panic ctx f = Err e → call_error e.
Proof.
  intros Hf. destruct f as [a|[msg|e']]; simpl; [done| |]; intros [= <-]; left.
  - by left.
  - by apply Hf.
Qed.

Create HintDb raises.

(** Everything the verification functions raise is an illegal argument. *)
Definition raises_illegal {A} (f : Fallible A) : Prop := ∀ e, f = Err (Raise e) → actor_error e.
Lemma raises_bind {A B} (f : Fallible A) (k : A → Fallible B) :
  raises_illegal f → (∀ a, raises_illegal (k a)) → raises_illegal (f ≫= k).
Proof. intros Hf Hk e. unfold mbind, result_bind. destruct f as [a|u]; simpl; [apply Hk|]. intros [= ->]. by apply Hf. Qed.
Lemma raises_ok {A} (a : A) : raises_illegal (Ok a).
Proof. done. Qed.
Lemma raises_panic {A} msg (o : option A) : raises_illegal (or_panic msg o).
Proof. by destruct o. Qed.
Lemma raises_arg {A} (r : result string A) : raises_illegal (raise (or_illegal_argument r)).
Proof. intros e. destruct r; simpl; [done|]. intros [= <-]. by left. Qed.
Lemma raises_library {A} (r : option (result string A)) : raises_illegal (library r).
Proof. destruct r; [apply raises_arg|done]. Qed.
Lemma raises_context {A} msg (f : Fallible A) : raises_illegal f → raises_illegal (err_context msg f).
Proof. intros Hf e. destruct f as [|[|[]]]; simpl; try done; intros [= <-]; by eapply (Hf _ eq_refl). Qed.
Lemma raises_collect {A B} (f : A → Fallible B) l :
  (∀ a, raises_illegal (f a)) → raises_illegal (collect f l).
Proof. intros Hf. induction l as [|a l IH]; simpl; [done|]. by repeat (apply raises_bind; [done|intros ?]). Qed.

#[local] Hint Resolve raises_ok raises_panic raises_arg raises_library raises_context raises_collect : raises.
Ltac solve_raises := repeat match goal with
  | |- raises_illegal (mbind _ _) => apply raises_bind; [|intros ?]
  | |- raises_illegal (let '(_, _) := ?p in _) => destruct p
  | |- raises_illegal (if ?b then _ else _) => destruct b
  | |- raises_illegal (match ?x with _ => _ end) => destruct x
  | |- raises_illegal (Err (Panic _)) => intros ?; discriminate
  | |- raises_illegal (Err (Raise _)) => intros ? [= <-]; by left
  | |- raises_illegal (collect _ _) => apply raises_collect; intros ?
  | |- raises_illegal (err_context _ _) => apply raises_context
  | |- raises_illegal _ => solve [eauto with raises]
  end.

Lemma raises_prover id : raises_illegal (Fil.prover_id_from_u64 id).
Proof. apply raises_panic. Qed.
Lemma raises_bytes bz : raises_illegal (bytes_32 bz).
Proof. apply raises_panic. Qed.
#[local] Hint Resolve raises_prover raises_bytes : raises.
Lemma raises_padding a b : raises_illegal (get_required_padding a b).
Proof. unfold get_required_padding. solve_raises. Qed.
Lemma raises_pad_to ps acc s : raises_illegal (pad_to ps acc s).
Proof. revert acc s. induction ps as [|p ps IH]; intros acc s; cbn [pad_to]; solve_raises. Qed.
#[local] Hint Resolve raises_padding raises_pad_to : raises.
Lemma raises_add_pieces ps acc s : raises_illegal (add_pieces ps acc s).
Proof. revert acc s. induction ps as [|p ps IH]; intros acc s; cbn [add_pieces]; solve_raises. Qed.
#[local] Hint Resolve raises_add_pieces : raises.
Lemma raises_unsealed t ps : raises_illegal (Fil.compute_unsealed_sector_cid t ps).
Proof. unfold Fil.compute_unsealed_sector_cid, sector_pieces. solve_raises. Qed.
Lemma raises_post i : raises_illegal (Fil.verify_post i).
Proof. unfold Fil.verify_post, Fil.to_fil_public_replica_infos. solve_raises. Qed.
Lemma raises_aggregate a : raises_illegal (Fil.verify_aggregate_seals a).
Proof. unfold Fil.verify_aggregate_seals, Fil.aggregation_inputs. solve_raises. Qed.
Lemma raises_update r : raises_illegal (Fil.verify_replica_update r).
Proof. unfold Fil.verify_replica_update. solve_raises. Qed.

(** The prices of proofs are in the table. *)
Lemma expect_tame f msg :
  is_Some (f WATERMELON_PRICES) → ktame (kcharge_expect f msg).
Proof.
  intros [ch Hch] k Hk. unfold kcharge_expect, gets, mbind, M_bind. unfold priced in Hk. rewrite Hk, Hch.
  by apply charge_tame.
Qed.
Lemma post_priced o n : is_Some (on_verify_post WATERMELON_PRICES o n).
Proof. destruct o as [[]|]; by eexists. Qed.
Lemma aggregate_priced p n : is_Some (on_verify_aggregate_seals WATERMELON_PRICES p n).
Proof. destruct p; by eexists. Qed.

(** Sequencing of kernel operations that touch only the gas. *)
Lemma kt_bind {A B} (m : M Kernel A) (k : A → M Kernel B) :
  ktame m → (∀ a, ktame (k a)) → ktame (m ≫= k).
Proof. intros Hm Hk. apply tame_bind; [exact _|exact gas_only_priced|exact gas_only_trans|done|done]. Qed.
Lemma kt_lift {A} (r : Result A) : (∀ e, r = Err e → call_error e) → ktame (lift r).
Proof. apply tame_lift; exact _. Qed.
Lemma kt_ret {A} (a : A) : ktame (mret a).
Proof. apply tame_ret; exact _. Qed.

Lemma kt_unsealed t ps : ktame (k_compute_unsealed_sector_cid t ps).
Proof. apply kt_bind; [apply charge_tame|intros _]. apply kt_lift. intros e. apply catch_error, raises_unsealed. Qed.
Lemma kt_post i : ktame (k_verify_post i).
Proof.
  apply kt_bind; [apply expect_tame, post_priced|intros _]. apply kt_lift. intros e. apply catch_error, raises_post.
Qed.
Lemma kt_aggregate a : ktame (k_verify_aggregate_seals a).
Proof.
  apply kt_bind; [apply expect_tame, aggregate_priced|intros _]. apply kt_lift. intros e.
  apply catch_error, raises_aggregate.
Qed.
Lemma kt_update r : ktame (k_verify_replica_update r).
Proof. apply kt_bind; [apply charge_tame|intros _]. apply kt_lift. intros e. apply catch_error, raises_update. Qed.
Lemma kt_fault h1 h2 ex : ktame (k_verify_consensus_fault h1 h2 ex).
Proof.
  apply kt_bind; [apply charge_tame|intros _]. apply kt_bind; [|intros []; apply kt_ret]. apply kt_lift.
  intros e. destruct (host_verify_consensus_fault h1 h2 ex); simpl; [done|]. intros [= <-]. by left; left.
Qed.
Lemma kt_seals vis : ktame (k_batch_verify_seals vis).
Proof.
  apply kt_bind; [|intros _; apply kt_ret].
  induction vis as [|v vis IH]; cbn [charge_seals]; [apply kt_ret|]. apply kt_bind; [apply charge_tame|done].
Qed.

(** ** The host calls *)

Definition is_filecoin_call (req : SyscallReq) : bool :=
  match req with
  | NetworkTotalFilCircSupply _ | CryptoComputeUnsealedSectorCid _ _ _ _ _ _ | CryptoVerifyPost _ _ _
  | CryptoVerifyConsensusFault _ _ _ _ _ _ _ | CryptoVerifyAggregateSeals _ _ _
  | CryptoVerifyReplicaUpdate _ _ _ | CryptoBatchVerifySeals _ _ _ => true
  | _ => false
  end.

(** With the memory untouched, and with any memory. *)
Definition quiet_ctx (c c' : Ctx) : Prop :=
  gas_only (ctx_kernel c) (ctx_kernel c') ∧ ctx_mem c' = ctx_mem c.
Definition gas_ctx (c c' : Ctx) : Prop := gas_only (ctx_kernel c) (ctx_kernel c').
#[export] Instance quiet_ctx_preorder : PreOrder quiet_ctx.
Proof. split; [intros c; by split|]. intros a b c [? Hm] [? Hm']. split; [by etrans|congruence]. Qed.
Definition priced_ctx (c : Ctx) : Prop := priced (ctx_kernel c).
Abbreviation ctame := (tame priced_ctx quiet_ctx quiet_ctx call_error).
Abbreviation wtame := (tame priced_ctx gas_ctx quiet_ctx call_error).

Lemma ct_bind {A B} (m : M Ctx A) (k : A → M Ctx B) : ctame m → (∀ a, wtame (k a)) → wtame (m ≫= k).
Proof.
  intros Hm Hk. apply tame_bind; [exact _| | |done|done].
  - intros a b Ha [Hb _]. by eapply gas_only_priced.
  - intros a b c [Hab _] Hbc. by eapply gas_only_trans.
Qed.
Lemma ct_quiet {A} (m : M Ctx A) : ctame m → wtame m.
Proof. intros Hm c Hc. specialize (Hm c Hc). destruct (m c) as [[|] c']; [by destruct Hm|done]. Qed.
Lemma ct_kern {A} (m : M Kernel A) : ktame m → ctame (kern m).
Proof.
  intros Hm c Hc. specialize (Hm (ctx_kernel c) Hc). unfold kern, zoom.
  destruct (m (ctx_kernel c)) as [[a|e] k']; simpl in *; [done|]. by destruct Hm.
Qed.
Lemma ct_rd {A} (f : bytes → Result A) :
  (∀ mem e, f mem = Err e → call_error e) → ctame (rd f).
Proof.
  intros Hf c _. unfold rd. destruct (f (ctx_mem c)) eqn:Ef; [reflexivity|]. split; [reflexivity|by eapply Hf].
Qed.
Lemma ct_lift {A} (r : Result A) : (∀ e, r = Err e → call_error e) → ctame (lift r).
Proof. apply tame_lift; exact _. Qed.
Lemma ct_ret {A} (a : A) : ctame (mret a).
Proof. apply tame_ret; exact _. Qed.
Lemma ct_throw {A} e : call_error e → ctame (throw e : M Ctx A).
Proof. apply tame_throw; exact _. Qed.
(** Writing ends a call; what follows cannot fail. *)
Lemma wt_write {A} off data (a : A) : wtame (_ ← write_mem off data; mret a).
Proof. intros c _. unfold gas_ctx. simpl. reflexivity. Qed.

Lemma slice_error off len mem e : try_slice off len mem = Err e → call_error e.
Proof. unfold try_slice. repeat case_match; intros [= <-]; by left; left. Qed.
Lemma bounds_error off len mem e : check_bounds off len mem = Err e → call_error e.
Proof. unfold check_bounds. case_match; intros [= <-]; by left; left. Qed.
Lemma cbor_error {T} `{CborIn T} off len mem e : read_cbor (T := T) off len mem = Err e → call_error e.
Proof.
  unfold read_cbor. destruct (try_slice off len mem) eqn:Es; [|intros [= <-]; by eapply slice_error].
  destruct (cbor_in a) as [[|]|]; simpl; [done|intros [= <-]..]; by left; left.
Qed.

Lemma ct_slice off len : ctame (rd (try_slice off len)).
Proof. apply ct_rd. intros mem e. apply slice_error. Qed.
Lemma ct_bounds off len : ctame (rd (check_bounds off len)).
Proof. apply ct_rd. intros mem e. apply bounds_error. Qed.
Lemma ct_cbor {T} `{CborIn T} off len : ctame (rd (read_cbor (T := T) off len)).
Proof. apply ct_rd. intros mem e. apply cbor_error. Qed.

Lemma ct_out_cid m off len : ktame m → wtame (out_cid m off len).
Proof.
  intros Hm. unfold out_cid. apply ct_bind; [apply ct_bounds|intros _].
  apply ct_bind; [by apply ct_kern|intros k]. unfold write_cid. intros c Hc.
  unfold mbind, M_bind, rd. destruct (try_slice off len (ctx_mem c)) eqn:Es; simpl.
  - destruct (_ <? _); simpl; [|unfold gas_ctx; simpl; reflexivity].
    split; [reflexivity|]. by left; right.
  - split; [reflexivity|by eapply slice_error].
Qed.
Lemma ct_status m : ktame m → wtame (status m).
Proof. intros Hm. unfold status. apply ct_bind; [by apply ct_kern|intros v]. apply ct_quiet, ct_ret. Qed.

Lemma ct_batch bo bl ro : wtame (sys_batch_verify_seals bo bl ro).
Proof.
  unfold sys_batch_verify_seals. apply ct_bind; [apply ct_cbor|intros a]. apply ct_bind; [apply ct_slice|intros _].
  intros c Hc. unfold mbind at 1, M_bind. 
  pose proof (ct_kern _ (kt_seals a) c Hc) as Hk. unfold kern, zoom, k_batch_verify_seals in *.
  revert Hk. unfold mbind at 1 2, M_bind. destruct (charge_seals a (ctx_kernel c)) as [[u|e] k'].
  - unfold mret, M_ret. rewrite length_fmap, Nat.eqb_refl. intros [Hk _]. exact Hk.
  - done.
Qed.

Lemma filecoin_tame call req :
  is_filecoin_call req = true →
  ∃ m, wtame m ∧ dispatch call req = map_err into_control_flow m.
Proof.
  destruct req; try done; intros _; eexists; (split; [|reflexivity]).
  - unfold token_out. apply ct_bind; [apply ct_kern, tame_gets; exact _|intros v].
    apply ct_bind; [|intros; apply ct_quiet, ct_ret]. apply ct_lift. intros e.
    unfold token_to_u128. destruct (_ || _); simpl; intros [= <-]. by right; right.
  - unfold sys_compute_unsealed_sector_cid. apply ct_bind; [|intros _].
    { destruct (seal_from_i64 proof_type); [apply ct_ret..|]. apply ct_throw. by left; left. }
    apply ct_bind; [apply ct_cbor|intros ps]. apply ct_out_cid, kt_unsealed.
  - apply ct_bind; [apply ct_cbor|intros i]. apply ct_status, kt_post.
  - do 3 (apply ct_bind; [apply ct_slice|intros ?]). apply ct_bind; [apply ct_kern, kt_fault|].
    intros [fault|]; [|apply ct_quiet, ct_ret]. apply ct_bind; [|intros; apply ct_quiet, ct_ret].
    apply ct_lift. intros e. destruct (address_id _); intros [= <-]. by right; left.
  - apply ct_bind; [apply ct_cbor|intros i]. apply ct_status, kt_aggregate.
  - apply ct_bind; [apply ct_cbor|intros i]. apply ct_status, kt_update.
  - apply ct_batch.
Qed.

(** C33: whatever an actor passes to the calls of the Filecoin kernel and however
    the proofs library and the client behave, panics of the library included,
    such a call changes nothing of the VM but the gas used and nothing of the
    actor's memory unless it succeeds, and it fails as out of gas or with an
    error number of the caller (illegal argument, buffer too small). It is fatal
    only when the client's own answer is malformed. *)
Theorem filecoin_calls_isolated call req c r c'
    (Hfil : is_filecoin_call req = true)
    (Hprices : cm_price_list (k_cm (ctx_kernel c)) = WATERMELON_PRICES)
    (Hrun : dispatch call req c = (r, c')) :
  (∃ g, ctx_kernel c' = k_set_cm (cm_set_gas g (k_cm (ctx_kernel c))) (ctx_kernel c)) ∧
  match r with
  | Ok _ => True
  | Err (CError e) =>
      ctx_mem c' = ctx_mem c ∧ (se_number e = IllegalArgument ∨ se_number e = BufferTooSmall)
  | Err (CAbort AOutOfGas) => ctx_mem c' = ctx_mem c
  | Err (CAbort (AFatal msg)) =>
      ctx_mem c' = ctx_mem c ∧
      (msg = "kernel returned non-id target address"%string ∨ msg = "token amount exceeds u128"%string)
  | Err (CAbort (AExit _ _ _)) => False
  end.
Proof.
  destruct (filecoin_tame call req Hfil) as (m & Hm & Ed). specialize (Hm c Hprices).
  rewrite Ed in Hrun. unfold map_err in Hrun. destruct (m c) as [[a|e] c1]; injection Hrun as <- <-; [done|].
  destruct Hm as [[Hg Hmem] He]. split; [done|].
  destruct He as [He|[->| ->]]; [|simpl; split; [done|]..].
  - by destruct e.
  - by left.
  - by right.
Qed.

(** ** Batches of seals *)

Lemma charge_run f k u k' :
  gt_ok (cm_gas (k_cm k)) → kcm (charge_gas f) k = (Ok u, k') →
  gt_ok (cm_gas (k_cm k')) ∧ cm_price_list (k_cm k') = cm_price_list (k_cm k) ∧
  gas_used (cm_gas (k_cm k')) = (gas_used (cm_gas (k_cm k)) + gc_total (f (cm_price_list (k_cm k))))%N.
Proof.
  intros Hok. unfold kcm, charge_gas, gets, on_gas, zoom, mbind, M_bind.
  destruct (apply_charge_spec (f (cm_price_list (k_cm k))) (cm_gas (k_cm k)) Hok) as (t & Ht & _ & _ & _ & Hd).
  destruct (decide _); destruct Hd as [-> Hu]; intros [= <- <-]. by split_and!.
Qed.
Lemma charge_seals_run vis k u k' :
  gt_ok (cm_gas (k_cm k)) → charge_seals vis k = (Ok u, k') →
  gas_used (cm_gas (k_cm k')) =
    (gas_used (cm_gas (k_cm k)) + N.of_nat (length vis) * gc_total (on_verify_seal (cm_price_list (k_cm k))))%N.
Proof.
  revert k. induction vis as [|v vis IH]; intros k Hok Hrun; cbn [charge_seals] in Hrun.
  - injection Hrun as _ <-. simpl. lia.
  - run_ok Hrun u1 k1 E1. destruct (charge_run _ _ _ _ Hok E1) as (Hok1 & Hpl & Hu).
    rewrite (IH k1 Hok1 Hrun), Hpl, Hu. simpl length. lia.
Qed.

(** The verdict on a seal that is reported as good. *)
Definition seal_verified (vi : SealVerifyInfo) : Prop :=
  ∃ commr commd typ,
    cid_to_replica_commitment_v1 (sv_sealed_cid vi) = Ok commr ∧
    cid_to_data_commitment_v1 (sv_unsealed_cid vi) = Ok commd ∧
    seal_to_api (sv_registered_proof vi) = Ok typ ∧
    (length (varint_encode (sid_miner (sv_sector_id vi))) ≤ 32)%nat ∧
    length (sv_randomness vi) = 32%nat ∧ length (sv_interactive_randomness vi) = 32%nat ∧
    api_verify_seal typ commr commd (prover_bytes (sid_miner (sv_sector_id vi)))
      (sid_number (sv_sector_id vi)) (sv_randomness vi) (sv_interactive_randomness vi) (sv_proof vi)
    = Some (Ok true).
Lemma seal_ok_iff vi : seal_ok vi = true ↔ seal_verified vi.
Proof.
  unfold seal_verified. rewrite <-(verify_seal_iff vi true). unfold seal_ok. destruct (Fil.verify_seal vi); naive_solver.
Qed.

(** a batch of seals. When the call succeeds, the actor finds at its result
    pointer exactly one byte per seal of its batch, in order, 1 where the seal's
    CIDs are commitments, its proof type is known, its randomness has 32 bytes and
    the proofs library verified it, and 0 everywhere else (errors and panics of
    the library included, which do not stop the batch); and it has paid the price
    of every seal. *)
Theorem batch_verify_seals_spec bo bl ro c v c'
    (Hgas : gt_ok (cm_gas (k_cm (ctx_kernel c))))
    (Hrun : sys_batch_verify_seals bo bl ro c = (Ok v, c')) :
  ∃ batch verdicts,
    read_cbor (T := list SealVerifyInfo) bo bl (ctx_mem c) = Ok batch ∧
    Forall2 (λ vi b, b = 1 ∧ seal_verified vi ∨ b = 0 ∧ ¬ seal_verified vi) batch verdicts ∧
    ctx_mem c' = mem_write ro verdicts (ctx_mem c) ∧
    gas_used (cm_gas (k_cm (ctx_kernel c'))) =
      (gas_used (cm_gas (k_cm (ctx_kernel c))) +
       N.of_nat (length batch) * gc_total (on_verify_seal (cm_price_list (k_cm (ctx_kernel c)))))%N.
Proof.
  unfold sys_batch_verify_seals in Hrun. run_ok Hrun batch c1 E1. injection E1 as E1 <-.
  run_ok Hrun u c2 E2. injection E2 as _ <-. run_ok Hrun res c3 E3.
  unfold kern, zoom in E3. destruct (k_batch_verify_seals batch (ctx_kernel c)) as [r k3] eqn:Ek.
  injection E3 as -> <-. run_ok Ek u1 k4 E4. injection Ek as <- <-. rewrite length_fmap, Nat.eqb_refl in Hrun.
  injection Hrun as _ <-. exists batch, ((λ b : bool, if b then 1 else 0) <$> (seal_ok <$> batch)).
  split_and!; [done| |done|by apply (charge_seals_run _ _ _ _ Hgas E4)].
  rewrite <-list_fmap_compose. apply Forall2_fmap_r, Forall_Forall2_diag, Forall_true. intros vi.
  unfold compose. pose proof (seal_ok_iff vi). destruct (seal_ok vi); naive_solver.
Qed.
End calls.

(** ** Witnesses, on the demonstration host *)

Definition fil_ctx : Ctx := mkCtx _ demo_kernel (replicate 4 1 ++ [0; 1; 2; 9] ++ replicate 4 7).

Definition succeeds {E A} (r : result E A) : bool := match r with Ok _ => true | Err _ => false end.

Lemma filecoin_calls_isolated_witness :
  let run := dispatch (call_actor 0) (CryptoVerifyPost 0 0 9) fil_ctx in
  ctx_mem run.2 = ctx_mem fil_ctx ∧ ∃ g, ctx_kernel run.2 = k_set_cm (cm_set_gas g demo_cm) demo_kernel.
Proof.
  intros run. assert (succeeds run.1 = false) as Hf by (vm_compute; reflexivity).
  destruct (filecoin_calls_isolated (call_actor 0) (CryptoVerifyPost 0 0 9) fil_ctx run.1 run.2
    eq_refl eq_refl (surjective_pairing run)) as [Hk Hr]. split; [|exact Hk].
  destruct run.1 as [v|[e|[]]]; [discriminate|..]; tauto.
Defined.

(** Two seals, decoded from two bytes of memory: one verified, one refused. *)
Lemma batch_verify_seals_spec_witness :
  ∃ batch verdicts,
    read_cbor (T := list SealVerifyInfo) 5 2 (ctx_mem fil_ctx) = Ok batch ∧ length batch = 2%nat ∧
    Forall2 (λ vi b, b = 1 ∧ seal_verified vi ∨ b = 0 ∧ ¬ seal_verified vi) batch verdicts ∧
    ctx_mem (sys_batch_verify_seals 5 2 8 fil_ctx).2 = mem_write 8 verdicts (ctx_mem fil_ctx).
Proof.
  assert (succeeds (sys_batch_verify_seals 5 2 8 fil_ctx).1 = true) as Hs by (vm_compute; reflexivity).
  destruct (sys_batch_verify_seals 5 2 8 fil_ctx) as [r c'] eqn:Er. destruct r as [v|e]; [|discriminate].
  destruct (batch_verify_seals_spec 5 2 8 fil_ctx v c' (gt_new_ok _ _ _) Er) as (batch & vs & Hb & Hv & Hm & _).
  exists batch, vs. split_and!; try done. revert Hb. vm_compute. by intros [= <-].
Defined.

Example batch_run : ctx_mem (sys_batch_verify_seals 5 2 8 fil_ctx).2 =
  replicate 4 1 ++ [0; 1; 2; 9] ++ [1; 0; 7; 7].
Proof. vm_compute. reflexivity. Qed.
