(* ===== verification/Safety.v ===== *)
(** * What a call may do

    The theorems about [call_actor], for every guest program: it never creates
    tokens, a read-only call changes nothing, a failed call leaves nothing
    behind, limits and meters are respected, and the recursion is bounded by
    the call depth. *)

From S2P Require Import Prelude Effects Gas PriceList Address HistoryMap Types StateTree.
From S2P Require Import Access Blocks Machine Ipld Host CallManager Frame Kernel Syscalls.
From S2P Require Import Invocation Carry Supply MemoryEnv Depth Demo.
From stdpp Require Import gmap strings list fin_maps.
From Stdlib Require Import ZArith Lia.
#[local] Open Scope Z_scope.

Section safety.
Context `{H : Host} {ES : EnvSpec}.

(** Reads are the only thing a read-only call does. *)
#[export] Instance same_adm : Adm true cm_same.
Proof. split; try done; exact _. Qed.

Lemma call_frame n from to e params v l ro c :
  cm_frame c (call_actor n from to e params v l ro c).2.
Proof.
  pose proof (rel_call_actor false any n from to e params v l ro ltac:(done) ltac:(done) c) as [Hf _].
  exact Hf.
Qed.

Lemma call_supply m bm (Hbm : ∀ id, m !! actor_key id = bm !! id) n from to e params v l ro c :
  supply_le m bm c (call_actor n from to e params v l ro c).2.
Proof.
  pose proof (supply_adm m bm Hbm) as Ha.
  pose proof (rel_call_actor false (supply_le m bm) n from to e params v l ro
    ltac:(done) ltac:(done) c) as [_ Hx]. exact Hx.
Qed.

Lemma transaction_of_call n from to e params v l ro c r c' :
  with_transaction (call_actor n from to e params v l ro) c = (r, c') →
  ∃ c2, call_actor n from to e params v l ro (cm_begin c).2 = (r, c2) ∧
    cm_frame c c' ∧ cm_gas c' = cm_gas c2 ∧ cm_limits c' = cm_limits c2 ∧
    (reverted r = true →
       hm_map (actor_cache (cm_tree c')) = hm_map (actor_cache (cm_tree c)) ∧
       hm_map (resolve_cache (cm_tree c')) = hm_map (resolve_cache (cm_tree c)) ∧
       evs_events (cm_events c') = evs_events (cm_events c) ∧ cm_access c' = cm_access c ∧
       st_read (cm_tree c) (cm_tree c')) ∧
    (reverted r = false →
       st_read (cm_tree c2) (cm_tree c') ∧
       evs_events (cm_events c') = evs_events (cm_events c2)).
Proof.
  intros Hrun. pose proof (call_frame n from to e params v l ro (cm_begin c).2) as Hf.
  destruct (call_actor n from to e params v l ro (cm_begin c).2) as [r2 c2] eqn:Hc.
  destruct (with_transaction_spec _ c r2 c2 Hc Hf) as (c3 & Hw & ?).
  rewrite Hrun in Hw. injection Hw as -> ->. by exists c2.
Qed.

(** The memory a call's frames reserved is handed back. *)
Lemma stack_frame_memory {A} (f : M CM A) c :
  pres cm_frame f → lim_curr (cm_limits (with_stack_frame f c).2) = lim_curr (cm_limits c).
Proof.
  intros Hf. destruct (decide (cm_depth c < max_call_depth (cm_network c))) as [Hd|Hd].
  - pose proof (Hf (cm_set_depth (cm_depth c + 1) c)) as Hfr.
    destruct (f (cm_set_depth (cm_depth c + 1) c)) as [r c2] eqn:Ef.
    by rewrite (with_stack_frame_spec f c r c2 Hd Ef Hfr).
  - unfold with_stack_frame, mbind, M_bind, gets.
    destruct (Z.leb_spec (max_call_depth (cm_network c)) (cm_depth c)); [done|lia].
Qed.

Lemma unchecked_frame n from to e params v ro :
  pres cm_frame (call_actor_unchecked (call_actor n) from to e params v ro).
Proof.
  intros c. by apply (rel_unchecked false any (call_actor n) (rel_call_actor false any n)).
Qed.

(** Tracing touches neither the meters nor the memory. *)
Definition meters (c c' : CM) : Prop :=
  cm_limits c' = cm_limits c ∧ gas_used (cm_gas c') = gas_used (cm_gas c) ∧
  gas_limit (cm_gas c') = gas_limit (cm_gas c) ∧ gas_snapshots (cm_gas c') = gas_snapshots (cm_gas c).
#[export] Instance meters_preorder : PreOrder meters.
Proof. split; [by intros c|]. intros a b c (?&?&?&?) (?&?&?&?). split_and!; congruence. Qed.
Lemma meters_trace ev : pres meters (cm_trace ev).
Proof.
  intros c. unfold cm_trace, mbind, M_bind, on_gas, zoom, drain_trace, modify. simpl. by split_and!.
Qed.
#[local] Hint Resolve meters_trace : pres.
Lemma meters_trace_call from to e params v l ro : pres meters (trace_call from to e params v l ro).
Proof. unfold trace_call. solve_pres. Qed.
Lemma meters_trace_return e r : pres meters (trace_return e r).
Proof. unfold trace_return. solve_pres. Qed.

Lemma call_trace_ok from to e params v l ro c :
  ∃ c1, trace_call from to e params v l ro c = (Ok tt, c1).
Proof.
  unfold trace_call, mbind, M_bind, gets. destruct (cm_tracing c), e; by eexists.
Qed.

(** What a limited call can spend, and that its memory comes back. *)
Lemma call_meters n from to e params v l ro c r c' :
  call_actor n from to e params v l ro c = (r, c') →
  lim_curr (cm_limits c') = lim_curr (cm_limits c) ∧
  (gt_ok (cm_gas c) → ∀ g, l = Some g → (gas_used (cm_gas c') ≤ gas_used (cm_gas c) + g)%N).
Proof.
  destruct n as [|n]; [intros [= _ <-]; split; [done|intros; lia]|]. simpl.
  unfold call_actor_step. destruct (call_trace_ok from to e params v l ro c) as [c1 Ht].
  pose proof (meters_trace_call from to e params v l ro c) as (Hl1 & Hu1 & Hm1 & Hs1).
  rewrite Ht in *. simpl in *. rewrite (bind_ok _ _ _ _ _ Ht).
  set (body := with_stack_frame _).
  assert (pres cm_frame body) as Hfr.
  { intros c0. by apply (rel_stack_frame false any),
      (rel_unchecked false any (call_actor n) (rel_call_actor false any n)). }
  assert (∀ c0, lim_curr (cm_limits (body c0).2) = lim_curr (cm_limits c0)) as Hmem
    by (intros c0; apply stack_frame_memory, unchecked_frame).
  assert (∀ (res : Result InvocationResult) c0,
    (_ ← trace_return e res; lift res) c0 = (r, c') → meters c0 c') as Hret.
  { intros res c0 Hr. pose proof (meters_trace_return e res c0) as Hm. unfold mbind, M_bind in Hr.
    destruct (trace_return e res c0) as [[[]|?] c4]; by injection Hr as <- <-. }
  destruct l as [g|].
  - unfold mbind at 1, M_bind at 1, on_gas at 1, zoom at 1. cbn [push_limit].
    set (c2 := cm_set_gas _ c1). unfold mbind at 1, M_bind at 1, attempt.
    pose proof (Hfr c2) as (_ & _ & Hg & _). pose proof (Hmem c2) as Hm2.
    destruct (body c2) as [r3 c3]. simpl in Hg, Hm2.
    destruct (push_pop_le g (cm_gas c1) (cm_gas c3) Hg) as (g3 & Hpop & _ & Hsum).
    unfold mbind at 1, M_bind at 1, on_gas, zoom. rewrite Hpop.
    unfold mbind at 1, M_bind at 1, gets. intros (Hl4 & Hu4 & _)%Hret. simpl in Hl4, Hu4.
    split; [congruence|]. intros Hok g' [= <-].
    destruct Hsum as [Hsum ?]; [unfold gt_ok; rewrite Hu1, Hm1, Hs1; exact Hok|].
    rewrite Hu4, Hsum, Hu1. lia.
  - unfold mbind at 1, M_bind at 1, mret, M_ret. unfold mbind at 1, M_bind at 1, attempt.
    pose proof (Hmem c1) as Hm2. destruct (body c1) as [r3 c3]. simpl in Hm2.
    unfold mbind at 1, M_bind at 1. unfold mbind at 1, M_bind at 1, gets.
    intros (Hl4 & _)%Hret. split; [congruence|done].
Qed.

(** ** Transfers, completely *)

(** What a transfer answers, as a function of the two actors. *)
Definition transfer_outcome (m : gmap bytes ActorState) (c : CM) (from to : ActorID)
    (v : TokenAmount) : Result unit :=
  if v <? 0 then Err (syscall_error IllegalArgument "attempted to transfer negative transfer value {}")
  else match cm_at m c from with
  | None => Err (syscall_error InsufficientFunds
                   "insufficient funds to transfer {value}FIL from {from} to {to})")
  | Some fa =>
      if as_balance fa <? v
      then Err (syscall_error InsufficientFunds
                  "sender does not have funds to transfer (balance {}, transfer {})")
      else if from =? to then Ok tt
      else match cm_at m c to with
           | None => Err (syscall_error NotFound "transfer recipient {to} does not exist in state-tree")
           | Some _ => Ok tt
           end
  end.

Lemma transfer_result m from to v c r c' :
  cm_inv m c → cm_transfer from to v c = (r, c') →
  r = transfer_outcome m c from to v ∨ (r = Err OutOfGas ∧ gas_available (cm_gas c') = 0%N).
Proof.
  intros Hi Hrun. unfold cm_transfer, transfer_outcome in *.
  destruct (Z.ltb_spec v 0); [injection Hrun as <- <-; by left|].
  unfold mbind at 1, M_bind at 1 in Hrun.
  destruct (cm_get_actor from c) as [[o|e] c1] eqn:Hg1;
    pose proof (get_actor_dry m _ _ _ _ Hi Hg1) as Hd1;
    destruct (cm_get_actor_at m _ _ _ _ Hi Hg1) as [Hs1 Ho1];
    destruct (same_at m _ _ Hs1 Hi) as [Hi1 Hat1];
    [|injection Hrun as <- <-; right; destruct Hd1 as [-> ?]; done].
  rewrite <-(Ho1 o eq_refl). unfold mbind at 1, M_bind at 1, lift at 1 in Hrun.
  destruct o as [fa|]; simpl in Hrun; [|injection Hrun as <- <-; by left].
  destruct (Z.ltb_spec (as_balance fa) v); [injection Hrun as <- <-; by left|].
  destruct (Z.eqb_spec from to) as [->|Hne]; [injection Hrun as <- <-; by left|].
  unfold mbind at 1, M_bind at 1 in Hrun.
  destruct (cm_get_actor to c1) as [[o|e] c2] eqn:Hg2;
    pose proof (get_actor_dry m _ _ _ _ Hi1 Hg2) as Hd2;
    destruct (cm_get_actor_at m _ _ _ _ Hi1 Hg2) as [Hs2 Ho2];
    [|injection Hrun as <- <-; right; destruct Hd2 as [-> ?]; done].
  rewrite <-Hat1, <-(Ho2 o eq_refl). unfold mbind at 1, M_bind at 1, lift at 1 in Hrun.
  destruct o as [ta|]; simpl in Hrun; [|injection Hrun as <- <-; by left].
  unfold deduct_funds, deposit_funds, mbind at 1, M_bind at 1, lift at 1 in Hrun.
  destruct (Z.ltb_spec v 0), (Z.ltb_spec (as_balance fa) v); [lia..|]. simpl in Hrun.
  unfold mbind at 1, M_bind at 1, lift at 1 in Hrun. unfold mbind, M_bind in Hrun.
  destruct (cm_set_actor from _ c2) as [[[]|e] c3] eqn:Hw1; apply set_actor_dry in Hw1;
    [|injection Hrun as <- <-; right; destruct Hw1 as [-> ?]; done].
  apply set_actor_dry in Hrun. destruct r as [[]|e]; [by left|].
  right. destruct Hrun as [-> ?]. done.
Qed.

(** An answered transfer did all or nothing. *)
Lemma transfer_effect m bm (Hbm : ∀ id, m !! actor_key id = bm !! id) from to v c r c' :
  moved m c c' from to v r → r = transfer_outcome m c from to v →
  match r with
  | Ok _ => token_total bm c' = token_total bm c ∧
      0 ≤ v ≤ bal (cm_at m c from) ∧
      (∀ j, as_set_balance 0 <$> cm_at m c' j = as_set_balance 0 <$> cm_at m c j) ∧
      (∀ j, bal (cm_at m c' j) = bal (cm_at m c j)
         + (if decide (j = to) then v else 0) - (if decide (j = from) then v else 0))
  | Err _ => ∀ j, cm_at m c' j = cm_at m c j
  end.
Proof.
  intros Hm Hr. destruct r as [[]|e].
  - destruct Hm as (Hv & fa & Hfa & Hle & [[-> Hs]|(Hne & ta & Hta & Hs)]);
      rewrite Hfa; simpl; split_and!; try lia.
    + by apply (total_same m bm Hbm).
    + intros j. by rewrite Hs.
    + intros j. rewrite Hs. case_decide; lia.
    + by apply (total_transfer m bm Hbm c c' from to v fa ta).
    + intros j. rewrite Hs. repeat case_decide; subst; [by rewrite Hta|by rewrite Hfa|done].
    + intros j. rewrite Hs. repeat case_decide; subst; try done; simpl; rewrite ?Hta, ?Hfa; simpl; lia.
  - destruct Hm as [?|[-> _]]; [done|]. unfold transfer_outcome in Hr.
    repeat case_match; simplify_eq.
Qed.
End safety.

(** ** The theorems *)

Section theorems.
Context `{H : Host} {ES : EnvSpec}.

(** C3: no minting. Whatever the guests do, and however the call ends, a call
    keeps the state tree sound (the cached actors over the stored ones), every
    balance non-negative, and the sum of all balances from growing. *)
Theorem call_never_mints m bm n from to e params v l ro c
    (Hbm : ∀ id, m !! actor_key id = bm !! id) (Hi : cm_inv m c) (Hs : solvent m c) :
  let c' := (call_actor n from to e params v l ro c).2 in
  cm_inv m c' ∧ solvent m c' ∧ token_total bm c' ≤ token_total bm c.
Proof. by apply call_supply. Qed.

(** C5: read-only calls. A call made read-only (and so without value) shows
    every actor and every event exactly as before, whatever the callee and the
    actors it calls attempt. *)
Theorem read_only_call_pure m n from to e params l c (Hi : cm_inv m c) :
  let c' := (call_actor n from to e params 0 l true c).2 in
  cm_inv m c' ∧ (∀ id, cm_at m c' id = cm_at m c id) ∧
  evs_events (cm_events c') = evs_events (cm_events c).
Proof.
  pose proof (rel_call_actor true cm_same n from to e params 0 l true ltac:(done) ltac:(done) c)
    as [_ [Hr He]]. destruct (Hr m Hi). done.
Qed.

(** C4: atomicity. A call in a transaction returns the call's own result; if
    that is an error or a non-zero exit code, every actor, every address
    mapping, the events and the access records are those of before the call. *)
Theorem failed_call_reverts m n from to e params v l ro c r c'
    (Hi : cm_inv m c)
    (Hrun : with_transaction (call_actor n from to e params v l ro) c = (r, c'))
    (Hfail : reverted r = true) :
  r = (call_actor n from to e params v l ro (cm_begin c).2).1 ∧
  cm_inv m c' ∧ (∀ id, cm_at m c' id = cm_at m c id) ∧
  hm_map (actor_cache (cm_tree c')) = hm_map (actor_cache (cm_tree c)) ∧
  hm_map (resolve_cache (cm_tree c')) = hm_map (resolve_cache (cm_tree c)) ∧
  evs_events (cm_events c') = evs_events (cm_events c) ∧ cm_access c' = cm_access c.
Proof.
  destruct (transaction_of_call _ _ _ _ _ _ _ _ _ _ _ Hrun)
    as (c2 & Hc & _ & _ & _ & Hrev & _).
  destruct (Hrev Hfail) as (? & ? & ? & ? & Hr). destruct (Hr m Hi). by rewrite Hc.
Qed.

(** C7: limits. Whatever the guests do, a call leaves the gas limit, the
    stack of outer gas limits, the call depth, the call stack and the memory in
    use as it found them; gas consumption grows, within the limit in force and
    by at most the call's own gas limit; open transactions stay open and events
    are only appended. *)
Theorem call_respects_limits n from to e params v l ro c
    (Hg : gt_ok (cm_gas c)) (Hl : lim_ok (cm_limits c)) :
  let c' := (call_actor n from to e params v l ro c).2 in
  gt_ok (cm_gas c') ∧ gas_limit (cm_gas c') = gas_limit (cm_gas c) ∧
  gas_snapshots (cm_gas c') = gas_snapshots (cm_gas c) ∧
  (gas_used (cm_gas c) ≤ gas_used (cm_gas c') ≤ gas_limit (cm_gas c))%N ∧
  (∀ g, l = Some g → (gas_used (cm_gas c') ≤ gas_used (cm_gas c) + g)%N) ∧
  cm_depth c' = cm_depth c ∧ cm_call_stack c' = cm_call_stack c ∧ cm_const c' = cm_const c ∧
  cm_limits c' = cm_limits c ∧
  layers (cm_tree c') = layers (cm_tree c) ∧
  evs_idxs (cm_events c') = evs_idxs (cm_events c) ∧
  evs_events (cm_events c) `prefix_of` evs_events (cm_events c').
Proof.
  pose proof (call_frame n from to e params v l ro c) as
    (Hc & [(_&_&_&Hly&_) _] & (Hgl & Hgs & Hgu) & _ & (Hei & Hep) & Hd & Hst & (Hlm & _)).
  destruct (call_actor n from to e params v l ro c) as [r c'] eqn:Hrun. simpl in *.
  destruct (call_meters _ _ _ _ _ _ _ _ _ _ _ Hrun) as [Hm Hlim].
  destruct (Hgu Hg) as [Hg' Hle]. pose proof Hg' as [Hu _]. rewrite Hgl in Hu.
  split_and!; try done; [by apply Hlim|].
  destruct (cm_limits c'), (cm_limits c); simpl in *; by subst.
Qed.

(** C40: the recursion terminates by the call depth: any two fuels above the
    frames still allowed run the same call, so the bottom case is never
    reached. *)
Theorem call_depth_fuel n1 n2 from to e params v l ro c
    (H1 : (Z.to_nat (max_call_depth (cm_network c) - cm_depth c) < n1)%nat)
    (H2 : (Z.to_nat (max_call_depth (cm_network c) - cm_depth c) < n2)%nat) :
  call_actor n1 from to e params v l ro c = call_actor n2 from to e params v l ro c.
Proof. by apply call_actor_enough. Qed.

(** C12: transfers. Unless the message runs out of gas, a transfer answers
    what the two actors call for; on success it moves exactly [v], conserving
    the total and every other field of every actor; a refused transfer changes
    nothing. Out of gas, no gas is left. *)
Theorem transfer_spec m bm from to v c r c'
    (Hbm : ∀ id, m !! actor_key id = bm !! id) (Hi : cm_inv m c)
    (Hrun : cm_transfer from to v c = (r, c')) :
  cm_inv m c' ∧ evs_events (cm_events c') = evs_events (cm_events c) ∧
  ((r = Err OutOfGas ∧ gas_available (cm_gas c') = 0%N) ∨
   (r = transfer_outcome m c from to v ∧
    match r with
    | Ok _ => token_total bm c' = token_total bm c ∧
        0 ≤ v ≤ bal (cm_at m c from) ∧
        (∀ j, as_set_balance 0 <$> cm_at m c' j = as_set_balance 0 <$> cm_at m c j) ∧
        (∀ j, bal (cm_at m c' j) = bal (cm_at m c j)
           + (if decide (j = to) then v else 0) - (if decide (j = from) then v else 0))
    | Err _ => ∀ j, cm_at m c' j = cm_at m c j
    end)).
Proof.
  destruct (cm_transfer_at m _ _ _ _ _ _ Hi Hrun) as (? & ? & Hm). split_and!; [done..|].
  destruct (transfer_result m _ _ _ _ _ _ Hi Hrun) as [Hr|?]; [right|by left].
  split; [done|]. by apply transfer_effect.
Qed.
End theorems.

(** ** The theorems at work on the concrete machine *)

Lemma call_never_mints_witness :
  token_total demo_bm (demo_call demo_cm).2 ≤ token_total demo_bm demo_cm.
Proof.
  destruct (call_never_mints demo_hamt demo_bm 2000 50 (ID 50) (Invoke 2) None 0 None false demo_cm
    demo_bm_at demo_cm_inv demo_solvent) as (_ & _ & Ht). exact Ht.
Defined.

(** The demo guest tries to send ten tokens; called read-only it cannot. *)
Lemma read_only_call_pure_witness :
  cm_at demo_hamt (call_actor 2000 50 (ID 50) (Invoke 2) None 0 None true demo_cm).2 99 =
  cm_at demo_hamt demo_cm 99.
Proof.
  destruct (read_only_call_pure demo_hamt 2000 50 (ID 50) (Invoke 2) None None demo_cm demo_cm_inv)
    as (_ & Ha & _). apply Ha.
Defined.

(** There is no actor 1234. *)
Lemma failed_call_reverts_witness :
  ∃ r c', with_transaction (call_actor 2000 50 (ID 1234) (Invoke 2) None 5 None false) demo_cm = (r, c') ∧
    reverted r = true ∧ ∀ id, cm_at demo_hamt c' id = cm_at demo_hamt demo_cm id.
Proof.
  destruct (with_transaction (call_actor 2000 50 (ID 1234) (Invoke 2) None 5 None false) demo_cm)
    as [r c'] eqn:Hrun.
  assert (reverted r = true) as Hr.
  { replace r with (with_transaction (call_actor 2000 50 (ID 1234) (Invoke 2) None 5 None false) demo_cm).1
      by (rewrite Hrun; reflexivity). vm_compute. reflexivity. }
  exists r, c'. split; [reflexivity|]. split; [exact Hr|].
  destruct (failed_call_reverts demo_hamt 2000 50 (ID 1234) (Invoke 2) None 5 None false demo_cm r c'
    demo_cm_inv Hrun Hr) as (_ & _ & Ha & _). exact Ha.
Defined.

Lemma call_respects_limits_witness :
  (gas_used (cm_gas (call_actor 2000 50 (ID 50) (Invoke 2) None 0 (Some 77%N) false demo_cm)%Z.2) ≤ 77)%N.
Proof.
  destruct (call_respects_limits 2000 50 (ID 50) (Invoke 2) None 0 (Some 77%N) false demo_cm
    (gt_new_ok _ _ _) ltac:(split; [split|]; vm_compute; congruence)) as (_&_&_&_&Hl&_).
  apply (Hl 77%N eq_refl).
Defined.

Lemma call_depth_fuel_witness :
  call_actor 1025 50 (ID 50) (Invoke 2) None 0 None false demo_cm =
  call_actor 5000 50 (ID 50) (Invoke 2) None 0 None false demo_cm.
Proof.
  apply (call_depth_fuel 1025 5000 50 (ID 50) (Invoke 2) None 0 None false demo_cm);
    apply Nat.ltb_lt; vm_compute; reflexivity.
Defined.

Lemma transfer_spec_witness :
  ∃ c', cm_transfer 50 99 7 demo_cm = (Ok tt, c') ∧ token_total demo_bm c' = token_total demo_bm demo_cm.
Proof.
  destruct (cm_transfer 50 99 7 demo_cm) as [r c'] eqn:Hrun.
  assert (r = Ok tt) as ->.
  { replace r with (cm_transfer 50 99 7 demo_cm).1 by (rewrite Hrun; reflexivity). vm_compute. reflexivity. }
  exists c'. split; [reflexivity|].
  destruct (transfer_spec demo_hamt demo_bm 50 99 7 demo_cm _ c' demo_bm_at demo_cm_inv Hrun)
    as (_ & _ & [[? _]|(_ & Ht & _)]); [congruence|exact Ht].
Defined.
