(* ===== verification/Messages.v ===== *)
(** * What a message may do

    The theorems about the executor: which messages are accepted and what is
    taken from the sender, how the bill is settled, that a failed message only
    pays for gas, and that no message creates tokens. *)

From S2P Require Import Prelude Effects Gas PriceList Address HistoryMap Types StateTree.
From S2P Require Import Access Blocks Machine Ipld Host CallManager Frame Kernel Syscalls.
From S2P Require Import Invocation Executor Carry Supply MemoryEnv Depth Demo Safety.
From stdpp Require Import gmap strings list fin_maps.
From Stdlib Require Import ZArith Lia.
#[local] Open Scope Z_scope.

Section messages.
Context `{H : Host} {ES : EnvSpec}.
(** The content of the HAMT, by key and by actor. *)
Context (m : gmap bytes ActorState) (bm : gmap ActorID ActorState).
Context (Hbm : ∀ id, m !! actor_key id = bm !! id).

Definition ma_at (M : Machine) : ActorID → option ActorState := actor_at m (ma_tree M).
Definition ma_inv (M : Machine) : Prop := st_inv m (ma_tree M).
Definition same_config (M M' : Machine) : Prop :=
  ma_context M' = ma_context M ∧ ma_builtin M' = ma_builtin M.

(** Reads of the tree, from a machine. *)
Lemma on_state_read {A} (op : M StateTree A) M :
  pres st_both op → ma_inv M →
  ma_inv (on_state op M).2 ∧ same_config M (on_state op M).2 ∧
  ∀ j, ma_at (on_state op M).2 j = ma_at M j.
Proof.
  intros Hop Hi. pose proof (Hop (ma_tree M)) as [_ Hr]. unfold on_state, zoom.
  destruct (op (ma_tree M)) as [r t]. simpl in *. destruct (Hr m Hi). by split_and!.
Qed.

(** ** Preflight *)

(** The sender after it was charged. *)
Definition charged_sender (b : Manifest) (s : ActorState) (cost : TokenAmount) : option ActorState :=
  (λ s', as_set_balance (as_balance s - cost) (as_set_sequence (wrap64 (as_sequence s + 1)) s'))
    <$> valid_sender b s.

Lemma valid_sender_same b s s' :
  valid_sender b s = Some s' → as_sequence s' = as_sequence s ∧ as_balance s' = as_balance s.
Proof. unfold valid_sender. repeat case_match; by intros [= <-]. Qed.

Definition refusal (code : ExitCode) : bool :=
  bool_decide (code ∈ [SYS_OUT_OF_GAS; SYS_SENDER_INVALID; SYS_SENDER_STATE_INVALID]).

Definition refused (ret : ApplyRet) (penalty : TokenAmount) : Prop :=
  rc_gas_used (ar_msg_receipt ret) = 0 ∧ rc_events_root (ar_msg_receipt ret) = None ∧
  refusal (rc_exit_code (ar_msg_receipt ret)) = true ∧
  ar_penalty ret = penalty ∧ ar_miner_tip ret = 0 ∧ ar_base_fee_burn ret = 0 ∧
  ar_over_estimation_burn ret = 0 ∧ ar_refund ret = 0 ∧ ar_events ret = [].

Definition inclusion (M : Machine) (raw_length : Z) : GasCharge :=
  on_chain_message (ma_price_list M) (Z.to_N raw_length).

(** The sender [id] was charged. *)
Definition sender_charged (msg : Message) (id : ActorID) (cost : TokenAmount) (M M' : Machine) : Prop :=
  cost = msg_gas_fee_cap msg * msg_gas_limit msg ∧
  ∃ s s', ma_at M id = Some s ∧ charged_sender (ma_builtin M) s cost = Some s' ∧
    msg_sequence msg = as_sequence s ∧ 0 ≤ cost ≤ as_balance s ∧
    ∀ j, ma_at M' j = if decide (id = j) then Some s' else ma_at M j.

(** What preflight did, by its answer; [penalty] is the miner's. *)
Definition preflight_done (msg : Message) (kind : ApplyKind) (raw_length : Z) (M M' : Machine)
    (r : Result (ApplyRet + ActorID * TokenAmount * GasCharge)) : Prop :=
  let n := Z.of_N (round_up (gc_total (inclusion M raw_length))) in
  match r with
  | Err _ => ∀ j, ma_at M' j = ma_at M j
  | Ok (inl ret) =>
      (∀ j, ma_at M' j = ma_at M j) ∧
      refused ret (match kind with
        | Implicit => 0
        | Explicit => ma_base_fee M * (if msg_gas_limit msg <? n then n else msg_gas_limit msg)
        end)
  | Ok (inr (id, cost, inc)) =>
      (lookup_id (msg_from msg) (ma_tree M)).1 = Ok (Some id) ∧
      0 < msg_gas_limit msg ≤ i64_max ∧
      match kind with
      | Implicit => cost = 0 ∧ inc = mkGasCharge "none" 0 0 ∧ ∀ j, ma_at M' j = ma_at M j
      | Explicit =>
          inc = inclusion M raw_length ∧ n ≤ msg_gas_limit msg ∧ sender_charged msg id cost M M'
      end
  end.

Lemma refused_fail code message penalty :
  refusal code = true →
  refused (prevalidation_fail code message penalty) penalty.
Proof. intros Hc. unfold refused. by split_and!. Qed.

Lemma charge_sender_cases msg id inc penalty M r M' :
  ma_inv M → charge_sender msg id inc penalty M = (r, M') →
  ma_inv M' ∧ same_config M M' ∧
  match r with
  | Err _ => ∀ j, ma_at M' j = ma_at M j
  | Ok (inl ret) => (∀ j, ma_at M' j = ma_at M j) ∧ refused ret penalty
  | Ok (inr (id', cost, inc')) => id' = id ∧ inc' = inc ∧ sender_charged msg id cost M M'
  end.
Proof.
  intros Hi Hrun. unfold charge_sender in Hrun. cbn zeta in Hrun.
  unfold mbind at 1, M_bind at 1, on_state at 1, zoom at 1 in Hrun.
  destruct (get_actor_spec m id (ma_tree M) Hi) as (ch & Hg & Hch & _ & Hat). rewrite Hg in Hrun.
  set (M1 := ma_set_tree _ M) in Hrun. assert (ma_inv M1) as Hi1 by by apply st_inv_actors.
  assert (∀ j, ma_at M1 j = ma_at M j) as Hat1 by apply Hat. fold (ma_at M id) in Hrun.
  assert (∀ code message, refusal code = true →
    (Ok (inl (prevalidation_fail code message penalty)), M1) = (r, M') →
    ma_inv M' ∧ same_config M M' ∧ match r with
    | Err _ => ∀ j, ma_at M' j = ma_at M j
    | Ok (inl ret) => (∀ j, ma_at M' j = ma_at M j) ∧ refused ret penalty
    | Ok (inr (id', cost, inc')) => id' = id ∧ inc' = inc ∧ sender_charged msg id cost M M'
    end) as Hfail.
  { intros code message Hc [= <- <-]. by split_and!. }
  destruct (ma_at M id) as [s|] eqn:Hs; [|by eapply Hfail, Hrun].
  unfold mbind at 1, M_bind at 1, gets at 1 in Hrun. cbn [ma_builtin ma_set_tree M1] in Hrun.
  destruct (valid_sender (ma_builtin M) s) as [s'|] eqn:Hv; [|by eapply Hfail, Hrun].
  pose proof (valid_sender_same _ _ _ Hv) as [Hseq Hbal].
  destruct (Z.eqb_spec (msg_sequence msg) (as_sequence s')); cbn [negb] in Hrun;
    [|by eapply Hfail, Hrun].
  destruct (Z.ltb_spec (as_balance (as_set_sequence (wrap64 (as_sequence s' + 1)) s'))
    (msg_gas_fee_cap msg * msg_gas_limit msg)) as [|Hb]; [by eapply Hfail, Hrun|].
  unfold mbind at 1, M_bind at 1, lift at 1, deduct_funds in Hrun.
  destruct (Z.ltb_spec (msg_gas_fee_cap msg * msg_gas_limit msg) 0);
    [injection Hrun as <- <-; by split_and!|].
  rewrite (proj2 (Z.ltb_ge _ _) Hb) in Hrun. injection Hrun as <- <-. simpl in Hb.
  split_and!; [apply st_inv_actors; [done|by apply cache_ok_insert]|done..|].
  split; [done|]. exists s. eexists. unfold charged_sender. rewrite Hv. simpl.
  rewrite <-Hseq, <-Hbal. split_and!; try done; try lia.
  intros j. unfold ma_at at 1, actor_at. simpl. rewrite cache_at_insert.
  case_decide; [done|]. by rewrite <-Hat1.
Qed.

Lemma same_config_trans a b c : same_config a b → same_config b c → same_config a c.
Proof. intros [] []. split; congruence. Qed.

Lemma preflight_cases msg kind raw_length M r M' :
  0 ≤ msg_gas_limit msg → ma_inv M →
  preflight_message msg kind raw_length M = (r, M') →
  ma_inv M' ∧ same_config M M' ∧ preflight_done msg kind raw_length M M' r.
Proof.
  intros Hl Hi Hrun. unfold preflight_message, mbind at 1, M_bind at 1, lift at 1, msg_check in Hrun.
  destruct (Z.eqb_spec (msg_gas_limit msg) 0) as [|Hnz]; [injection Hrun as <- <-; by split_and!|].
  destruct (Z.ltb_spec i64_max (msg_gas_limit msg)); [injection Hrun as <- <-; by split_and!|].
  cbn [or_fatal] in Hrun. do 2 unfold mbind at 1, M_bind at 1, gets at 1 in Hrun.
  unfold preflight_done, inclusion.
  set (n := Z.of_N (round_up (gc_total (on_chain_message (ma_price_list M) (Z.to_N raw_length))))) in *.
  destruct (match kind with Explicit => _ | Implicit => _ end) eqn:Hover.
  { destruct kind; [|done]. fold n in Hover. injection Hrun as <- <-. split_and!; try done.
    rewrite Hover. by apply refused_fail. }
  unfold mbind at 1, M_bind at 1 in Hrun.
  destruct (on_state_read (lookup_id (msg_from msg)) M (st_both_lookup_id _) Hi) as (Hi1 & Hc1 & Hat1).
  assert ((on_state (lookup_id (msg_from msg)) M).1 = (lookup_id (msg_from msg) (ma_tree M)).1) as Hl1
    by (unfold on_state, zoom; by destruct (lookup_id _ _)).
  destruct (on_state (lookup_id (msg_from msg)) M) as [[[id|]|e] M1]; simpl in Hi1, Hat1, Hc1, Hl1.
  - destruct kind.
    + destruct (charge_sender_cases _ _ _ _ _ _ _ Hi1 Hrun) as (Hi' & Hc' & Hr). fold n in Hover.
      split_and!; [done|by eapply same_config_trans..|].
      destruct r as [[ret|[[id' cost] inc]]|e].
      * destruct Hr as [Hs ?]. rewrite Hover. split; [|done]. intros j. by rewrite Hs.
      * destruct Hr as (-> & -> & -> & s & s' & Hs & Hch & Hseq & Hcost & Hat).
        destruct Hc1 as [_ Hb1]. rewrite Hb1, Hat1 in *. split_and!; try done; try lia.
        split; [done|]. exists s, s'. split_and!; try done; try lia. intros j. rewrite Hat. case_decide; [done|apply Hat1].
      * intros j. by rewrite Hr.
    + injection Hrun as <- <-. split_and!; try done; try apply Hc1; lia.
  - injection Hrun as <- <-. split_and!; [done|apply Hc1..|done|].
    destruct kind; [fold n in Hover; rewrite Hover|]; by apply refused_fail.
  - injection Hrun as <- <-. by split_and!; try apply Hc1.
Qed.

(** ** Execution *)

Definition ma_solvent (M : Machine) : Prop := tree_solvent m (ma_tree M).
Definition ma_total (M : Machine) : TokenAmount := tree_total bm (ma_tree M).

Lemma round_up_mono a b : (a ≤ b)%N → (b ≤ U64_MAX)%N → (round_up a ≤ round_up b)%N.
Proof.
  intros Hab Hb. unfold round_up, milligas_to_gas, MILLIGAS_PRECISION. cbn [andb].
  assert (a / 1000 ≤ b / 1000)%N by (apply N.Div0.div_le_mono; lia).
  pose proof (N.Div0.div_mod a 1000) as Ea. pose proof (N.Div0.div_mod b 1000) as Eb.
  generalize dependent (a / 1000)%N. generalize dependent (b / 1000)%N.
  generalize (a `mod` 1000)%N (b `mod` 1000)%N. intros ra rb qb Eb qa Hq Ea.
  destruct (N.eqb_spec ra 0), (N.eqb_spec rb 0); cbn [negb]; lia.
Qed.

(** The tracker's limit is the message's gas limit, capped at [i64::MAX]
    milligas; rounding what was used up to gas stays within the gas limit. *)
Lemma gas_within_limit limit used :
  0 < limit ≤ i64_max → (used ≤ N.min (Gas_new (Z.to_N limit)) I64_MAX)%N →
  Z.of_N (round_up used) ≤ limit.
Proof.
  intros Hl Hu. apply round_up_mono in Hu; [|pose proof I64_lt_U64; lia].
  assert (round_up (N.min (Gas_new (Z.to_N limit)) I64_MAX) ≤ Z.to_N limit)%N; [|lia].
  unfold Gas_new, round_up, milligas_to_gas, MILLIGAS_PRECISION. cbn [andb].
  destruct (N.leb_spec (Z.to_N limit * 1000) I64_MAX) as [Hs|Hb].
  - pose proof I64_lt_U64. rewrite !N.min_l by lia.
    rewrite N.Div0.mod_mul, N.div_mul by lia. simpl. lia.
  - assert (N.min (N.min (Z.to_N limit * 1000) U64_MAX) I64_MAX = I64_MAX) as ->
      by (pose proof I64_lt_U64; lia).
    change (I64_MAX / 1000)%N with 9223372036854775%N.
    change (I64_MAX `mod` 1000)%N with 807%N. change I64_MAX with 9223372036854775807%N in Hb.
    cbn [N.eqb negb]. lia.
Qed.

(** What running the message between preflight and settlement may do. *)
Lemma transaction_supply n from to e params v l ro c r c' :
  with_transaction (call_actor n from to e params v l ro) c = (r, c') → supply_le m bm c c'.
Proof.
  intros Hw Hi Hs. destruct (transaction_of_call _ _ _ _ _ _ _ _ _ _ _ Hw)
    as (c3 & Hc3 & _ & _ & _ & Hrev & Hcom).
  pose proof (call_supply m bm Hbm n from to e params v l ro (cm_begin c).2 Hi Hs) as H3.
  rewrite Hc3 in H3. destruct H3 as (Hi3 & Hs3 & Hle3). destruct (reverted r).
  - destruct Hrev as (_&_&_&_&Hr); [done|]. destruct (Hr m Hi) as [? Hat].
    by apply (supply_same m bm Hbm c c').
  - destruct Hcom as [Hr _]; [done|]. destruct (Hr m Hi3) as [Hi2 Hat].
    destruct (supply_same m bm Hbm c3 c' Hi2 Hat Hi3 Hs3) as (? & ? & ?).
    split_and!; [done..|]. by etrans.
Qed.

Lemma cm_finish_ok c fin :
  (cm_finish c).1 = Ok fin →
  fin_gas_used fin = round_up (gas_used (cm_gas c)) ∧ fin_events fin = evs_events (cm_events c).
Proof.
  unfold cm_finish, evs_finish. destruct (evs_idxs _); [|done]. destruct (evs_events _) eqn:Hev.
  - by intros [= <-].
  - destruct (host_events_root _); [|done]. by intros [= <-].
Qed.

Lemma run_message_cases msg sender inc receiver M r M' :
  0 < msg_gas_limit msg ≤ i64_max → ma_inv M → ma_solvent M →
  run_message msg sender inc receiver M = (r, M') →
  ma_inv M' ∧ same_config M M' ∧ ma_solvent M' ∧ ma_total M' ≤ ma_total M ∧
  match r with
  | Ok ret => Z.of_N (fin_gas_used (er_fin ret)) ≤ msg_gas_limit msg ∧
      (reverted (er_result ret) = true →
         fin_events (er_fin ret) = [] ∧ ∀ j, ma_at M' j = ma_at M j)
  | Err _ => True
  end.
Proof.
  intros Hl Hi Hsol Hrun. unfold run_message in Hrun.
  set (c0 := cm_new _ _ _ _ _ _ _ _ _ _) in Hrun.
  pose proof (charge_tree (λ _, inc) c0) as [Ht1 He1].
  pose proof (frame_charge (λ _, inc) c0) as (_ & _ & Hg1 & _).
  destruct (charge_gas (λ _, inc) c0) as [[[]|e] c1]; simpl in Ht1, He1, Hg1.
  2: { injection Hrun as <- <-. unfold ma_inv, ma_solvent, ma_total. simpl. rewrite Ht1. by split_and!. }
  assert (cm_inv m c1) as Hi1 by (unfold cm_inv; by rewrite Ht1).
  assert (solvent m c1) as Hs1 by (intros j; unfold cm_at; rewrite Ht1; apply Hsol).
  destruct (with_transaction _ c1) as [res c2] eqn:Hw.
  destruct (transaction_supply _ _ _ _ _ _ _ _ _ _ _ Hw Hi1 Hs1) as (Hi2 & Hs2 & Hle2).
  destruct (transaction_of_call _ _ _ _ _ _ _ _ _ _ _ Hw)
    as (c3 & _ & (_ & _ & Hg2 & _) & _ & _ & Hrev & _).
  assert (gt_le (cm_gas c0) (cm_gas c2)) as (Hgl & _ & Hgu) by (by etrans).
  destruct (Hgu (gt_new_ok _ _ _)) as [[Hu _] _]. rewrite Hgl in Hu.
  destruct (cm_finish c2) as [fin tree] eqn:Hfin. injection Hrun as <- <-.
  assert (tree = cm_tree c2) as -> by (unfold cm_finish in Hfin; by injection Hfin).
  split_and!; [done..| |].
  { unfold ma_total. simpl. unfold token_total in Hle2. by rewrite Ht1 in Hle2. }
  destruct fin as [fin|e]; [|done].
  destruct (cm_finish_ok c2 fin) as [Eg Eev]; [by rewrite Hfin|]. simpl. rewrite Eg, Eev.
  split; [by apply gas_within_limit|]. intros Hr. destruct (Hrev Hr) as (_ & _ & Hev & _ & Hread).
  split; [by rewrite Hev, He1|]. destruct (Hread m Hi1) as [_ Hat]. intros j.
  unfold ma_at; simpl. rewrite Hat. by rewrite Ht1.
Qed.

(** ** Settlement *)

(** [amt] paid to [id], who exists. *)
Definition credit (id : ActorID) (amt : TokenAmount) (f : Actors) : Actors := λ j,
  if decide (id = j) then (λ a, as_set_balance (as_balance a + amt) a) <$> f j else f j.

Lemma credit_bal id amt f j :
  (amt ≠ 0 → is_Some (f id)) →
  bal (credit id amt f j) = bal (f j) + (if decide (id = j) then amt else 0) ∧
  as_set_balance 0 <$> credit id amt f j = as_set_balance 0 <$> f j.
Proof.
  intros Hs. unfold credit. case_decide; [subst|split; [lia|done]].
  destruct (f j) as [a|]; simpl; [split; [lia|done]|].
  destruct (decide (amt = 0)) as [->|Hne]; [done|]. by destruct (Hs Hne).
Qed.

Lemma set_same_balance a : as_set_balance (as_balance a + 0) a = a.
Proof. rewrite Z.add_0_r. by destruct a. Qed.

Lemma transfer_to_actor_cases id amt M r M' :
  ma_inv M → transfer_to_actor id amt M = (r, M') →
  ma_inv M' ∧ same_config M M' ∧
  match r with
  | Ok _ => 0 ≤ amt ∧ (amt ≠ 0 → is_Some (ma_at M id)) ∧ ∀ j, ma_at M' j = credit id amt (ma_at M) j
  | Err _ => (amt < 0 ∨ (0 < amt ∧ ma_at M id = None)) ∧ ∀ j, ma_at M' j = ma_at M j
  end.
Proof.
  intros Hi Hrun. unfold transfer_to_actor in Hrun.
  destruct (Z.ltb_spec amt 0); [injection Hrun as <- <-; split_and!; try done; by left|].
  destruct (Z.eqb_spec amt 0) as [->|Hne].
  { injection Hrun as <- <-. split_and!; try done. intros j. unfold credit.
    case_decide; [|done]. destruct (ma_at M j); simpl; by rewrite ?set_same_balance. }
  unfold on_state, zoom, mutate_actor, maybe_mutate_actor_id in Hrun.
  destruct (get_actor_spec m id (ma_tree M) Hi) as (ch & Hg & Hch & _ & Hat).
  unfold mbind at 2, M_bind at 2 in Hrun. unfold mbind at 1, M_bind at 1 in Hrun. rewrite Hg in Hrun.
  fold (ma_at M id) in Hrun. destruct (ma_at M id) as [a|] eqn:Ha.
  - unfold mbind, M_bind, lift, deposit_funds in Hrun.
    destruct (Z.ltb_spec amt 0); [lia|]. injection Hrun as <- <-.
    split; [apply st_inv_actors; [by apply st_inv_actors|by apply cache_ok_insert]|].
    split; [done|]. split; [done|]. split; [by intros _; eexists|]. intros j. unfold ma_at at 1, actor_at. simpl.
    rewrite cache_at_insert. unfold credit. case_decide; [subst; by rewrite Ha|apply Hat].
  - injection Hrun as <- <-. split; [by apply st_inv_actors|]. split; [done|].
    split; [right; split; [lia|done]|]. intros j. apply Hat.
Qed.

Lemma ma_total_credit M M' id amt :
  (amt ≠ 0 → is_Some (ma_at M id)) → (∀ j, ma_at M' j = credit id amt (ma_at M) j) →
  ma_total M' = ma_total M + amt.
Proof.
  intros Hs Hat. pose proof (credit_bal id amt (ma_at M) id Hs) as [Hb _].
  rewrite decide_True in Hb by done. unfold ma_total.
  rewrite (tree_total_set m bm Hbm (ma_tree M) (ma_tree M') id (credit id amt (ma_at M) id)).
  - unfold ma_at in *. lia.
  - intros j. fold (ma_at M' j) (ma_at M j). rewrite Hat. unfold credit.
    case_decide; subst; [by rewrite decide_True|done].
Qed.

Lemma ma_solvent_credit M M' id amt :
  0 ≤ amt → (amt ≠ 0 → is_Some (ma_at M id)) → (∀ j, ma_at M' j = credit id amt (ma_at M) j) →
  ma_solvent M → ma_solvent M'.
Proof.
  intros Ha Hs Hat Hsol j. fold (ma_at M' j). rewrite Hat.
  destruct (credit_bal id amt (ma_at M) j Hs) as [-> _]. pose proof (Hsol j) as Hj.
  fold (ma_at M j) in Hj. case_decide; lia.
Qed.

(** A list of payments, stopped at the first that fails. *)
Fixpoint pay (l : list (ActorID * TokenAmount)) : M Machine unit :=
  match l with
  | [] => mret tt
  | (id, amt) :: l => _ ← transfer_to_actor id amt; pay l
  end.
Fixpoint paid (l : list (ActorID * TokenAmount)) (f : Actors) : Actors :=
  match l with
  | [] => f
  | (id, amt) :: l => paid l (credit id amt f)
  end.
Definition pay_sum (l : list (ActorID * TokenAmount)) : TokenAmount := foldr (λ p s, p.2 + s) 0 l.

Definition payees (l : list (ActorID * TokenAmount)) (f : Actors) : Prop :=
  Forall (λ p, p.2 ≠ 0 → is_Some (f p.1)) l.

Lemma credit_some id amt f j : is_Some (credit id amt f j) ↔ is_Some (f j).
Proof. unfold credit. case_decide; [apply fmap_is_Some|done]. Qed.

(** What an actor received in all. *)
Definition received (l : list (ActorID * TokenAmount)) (j : ActorID) : TokenAmount :=
  foldr (λ p s, (if decide (p.1 = j) then p.2 else 0) + s) 0 l.

Lemma paid_bal l : ∀ f j, payees l f →
  bal (paid l f j) = bal (f j) + received l j ∧
  as_set_balance 0 <$> paid l f j = as_set_balance 0 <$> f j.
Proof.
  induction l as [|[id amt] l IH]; intros f j Hp; simpl; [split; [lia|done]|].
  apply Forall_cons in Hp as [Hs Hp].
  assert (payees l (credit id amt f)) as Hp'.
  { eapply Forall_impl; [exact Hp|]. intros p Hq Hne. apply credit_some. auto. }
  destruct (IH _ j Hp') as [-> ->], (credit_bal id amt f j Hs) as [-> ->].
  split; [lia|done].
Qed.

Lemma pay_sum_nonneg l : Forall (λ p, 0 ≤ p.2) l → 0 ≤ pay_sum l.
Proof. induction 1; simpl; lia. Qed.

Lemma paid_ext l : ∀ f g, (∀ j, f j = g j) → ∀ j, paid l f j = paid l g j.
Proof.
  induction l as [|[id amt] l IH]; intros f g Hfg; simpl; [done|]. apply IH. intros j.
  unfold credit. by rewrite !Hfg.
Qed.

Lemma pay_cases l : ∀ M r M',
  Forall (λ p, 0 ≤ p.2) l → ma_inv M → ma_solvent M → pay l M = (r, M') →
  ma_inv M' ∧ same_config M M' ∧ ma_solvent M' ∧ ma_total M' ≤ ma_total M + pay_sum l ∧
  match r with
  | Ok _ => ma_total M' = ma_total M + pay_sum l ∧ payees l (ma_at M) ∧
      ∀ j, ma_at M' j = paid l (ma_at M) j
  | Err _ => ∃ p, p ∈ l ∧ 0 < p.2 ∧ ma_at M p.1 = None
  end.
Proof.
  induction l as [|[id amt] l IH]; intros M r M' Hl Hi Hsol Hrun; simpl in Hrun.
  { injection Hrun as <- <-. simpl. split_and!; try done; try lia. by constructor. }
  apply Forall_cons in Hl as [Ha Hl]. pose proof (pay_sum_nonneg l Hl) as Hp. simpl in *.
  unfold mbind, M_bind in Hrun. destruct (transfer_to_actor id amt M) as [[[]|e] M1] eqn:Ht;
    destruct (transfer_to_actor_cases _ _ _ _ _ Hi Ht) as (Hi1 & Hc1 & Hr).
  - destruct Hr as (_ & Hs & Hat). pose proof (ma_total_credit _ _ _ _ Hs Hat) as Ht1.
    destruct (IH M1 r M' Hl Hi1 (ma_solvent_credit _ _ _ _ Ha Hs Hat Hsol) Hrun)
      as (Hi' & Hc' & Hs' & Hle & Hr).
    split; [done|]. split; [by eapply same_config_trans|]. split; [done|]. split; [lia|].
    destruct r as [[]|e'].
    + destruct Hr as (Ht' & Hp' & Hat'). split; [lia|]. split.
      * constructor; [done|]. eapply Forall_impl; [exact Hp'|]. intros p Hq Hne. specialize (Hq Hne).
        rewrite Hat in Hq. by apply credit_some in Hq.
      * intros j. rewrite Hat'. by apply paid_ext.
    + destruct Hr as (p & Hin & Hp1 & Hn). exists p. split_and!; [by right|done|].
      rewrite Hat in Hn. unfold credit in Hn. case_decide; [|done]. by destruct (ma_at M p.1).
  - injection Hrun as <- <-. destruct Hr as [[?|[Hpos Hn]] Hat]; [lia|].
    split; [done|]. split; [done|]. split; [|split].
    + intros j. fold (ma_at M1 j). rewrite Hat. apply Hsol.
    + rewrite (tree_total_same m bm Hbm (ma_tree M) (ma_tree M1) Hat : ma_total M1 = ma_total M). lia.
    + exists (id, amt). by split_and!; [left| |].
Qed.

(** The payments that settle a message, in order. *)
Definition settlement (sender : ActorID) (o : GasOutputs) : list (ActorID * TokenAmount) :=
  [(BURNT_FUNDS_ACTOR_ID, base_fee_burn o); (REWARD_ACTOR_ID, miner_tip o);
   (BURNT_FUNDS_ACTOR_ID, over_estimation_burn o); (sender, refund o)].

Lemma finish_message_pay sender msg receipt fi cost tr evs M :
  let o := GasOutputs_compute (rc_gas_used receipt) (msg_gas_limit msg) (ma_base_fee M)
             (msg_gas_fee_cap msg) (msg_gas_premium msg) in
  finish_message sender msg receipt fi cost tr evs M =
  match pay (settlement sender o) M with
  | (Ok _, M') =>
      (if negb (base_fee_burn o + over_estimation_burn o + refund o + miner_tip o =? cost)
       then Err (Fatal "Gas handling math is wrong")
       else Ok (mkApplyRet receipt (miner_penalty o) (miner_tip o) (base_fee_burn o)
                  (over_estimation_burn o) (refund o) (gas_refund o) (gas_burned o) fi tr evs), M')
  | (Err e, M') => (Err e, M')
  end.
Proof.
  cbn zeta. unfold finish_message, settlement, pay, mbind, M_bind, gets, mret, M_ret.
  repeat (destruct (transfer_to_actor _ _ _) as [[[]|?] ?]; [|done]). by destruct (negb _).
Qed.

(** What [ApplyRet] reports is what was computed. *)
Definition reports (ret : ApplyRet) (o : GasOutputs) : Prop :=
  ar_penalty ret = miner_penalty o ∧ ar_miner_tip ret = miner_tip o ∧
  ar_base_fee_burn ret = base_fee_burn o ∧ ar_over_estimation_burn ret = over_estimation_burn o ∧
  ar_refund ret = refund o ∧ ar_gas_refund ret = gas_refund o ∧ ar_gas_burned ret = gas_burned o.

(** With a negative premium the tip is negative and the settlement stops. *)
Lemma negative_premium used limit base_fee fee_cap premium :
  0 ≤ used ≤ limit → 0 < limit → 0 ≤ base_fee → 0 ≤ fee_cap → premium < 0 →
  let o := GasOutputs_compute used limit base_fee fee_cap premium in
  0 ≤ base_fee_burn o ≤ fee_cap * limit ∧ miner_tip o < 0.
Proof.
  intros Hu Hl Hb Hf Hp. unfold GasOutputs_compute.
  destruct (compute_gas_overestimation_burn used limit) as [gr gb].
  destruct (Z.ltb_spec fee_cap base_fee); simpl.
  - destruct (Z.ltb_spec fee_cap (fee_cap + premium)), (Z.eqb_spec gb 0); simpl; (split; nia).
  - destruct (Z.ltb_spec fee_cap (base_fee + premium)), (Z.eqb_spec gb 0); simpl; (split; nia).
Qed.

Lemma pay_stops id1 a1 id2 a2 l M r M' :
  0 ≤ a1 → a2 < 0 → ma_inv M → ma_solvent M → pay ((id1, a1) :: (id2, a2) :: l) M = (r, M') →
  ma_inv M' ∧ same_config M M' ∧ ma_solvent M' ∧ ma_total M' ≤ ma_total M + a1 ∧ ∃ e, r = Err e.
Proof.
  intros H1 H2 Hi Hsol Hrun. cbn [pay] in Hrun. unfold mbind at 1, M_bind at 1 in Hrun.
  destruct (pay [(id1, a1)] M) as [r1 M1] eqn:Hp.
  destruct (pay_cases [(id1, a1)] M r1 M1) as (Hi1 & Hc1 & Hs1 & Hle & _); try done.
  { repeat constructor. done. }
  simpl in Hp, Hle. unfold mbind, M_bind in Hp.
  assert (∀ M0, transfer_to_actor id2 a2 M0 =
    (Err (Fatal "attempted to transfer negative value into actor"), M0)) as Ht
    by (intros M0; unfold transfer_to_actor; by rewrite (proj2 (Z.ltb_lt _ _) H2)).
  destruct (transfer_to_actor id1 a1 M) as [[[]|e] M2]; injection Hp as <- <-.
  - rewrite (bind_err _ _ _ _ _ (Ht M2)) in Hrun. injection Hrun as <- <-.
    split; [done|]. split; [done|]. split; [done|]. split; [lia|by eexists].
  - injection Hrun as <- <-. split; [done|]. split; [done|]. split; [done|]. split; [lia|by eexists].
Qed.

Lemma finish_cases sender msg receipt fi cost tr evs M r M' :
  ma_inv M → ma_solvent M → 0 < msg_gas_limit msg ≤ i64_max →
  0 ≤ rc_gas_used receipt ≤ msg_gas_limit msg → 0 ≤ ma_base_fee M → 0 ≤ cost →
  cost = msg_gas_fee_cap msg * msg_gas_limit msg →
  finish_message sender msg receipt fi cost tr evs M = (r, M') →
  let o := GasOutputs_compute (rc_gas_used receipt) (msg_gas_limit msg) (ma_base_fee M)
             (msg_gas_fee_cap msg) (msg_gas_premium msg) in
  ma_inv M' ∧ same_config M M' ∧ ma_solvent M' ∧ ma_total M' ≤ ma_total M + cost ∧
  match r with
  | Ok ret => ar_msg_receipt ret = receipt ∧ ar_events ret = evs ∧ reports ret o ∧
      pay_sum (settlement sender o) = cost ∧
      ma_total M' = ma_total M + cost ∧ payees (settlement sender o) (ma_at M) ∧
      ∀ j, ma_at M' j = paid (settlement sender o) (ma_at M) j
  | Err _ => msg_gas_premium msg < 0 ∨ ∃ p, p ∈ settlement sender o ∧ 0 < p.2 ∧ ma_at M p.1 = None
  end.
Proof.
  intros Hi Hsol Hl Hu Hb Hcost Ec Hrun o. rewrite finish_message_pay in Hrun. fold o in Hrun.
  assert (0 ≤ msg_gas_fee_cap msg) as Hf by nia.
  assert (in_u64 (rc_gas_used receipt) ∧ in_u64 (msg_gas_limit msg)) as [Hu64 Hl64] by mlia.
  destruct (pay (settlement sender o) M) as [r1 M1] eqn:Hpay.
  destruct (Z.ltb_spec (msg_gas_premium msg) 0) as [Hneg|Hp].
  - pose proof (negative_premium (rc_gas_used receipt) (msg_gas_limit msg) (ma_base_fee M)
      (msg_gas_fee_cap msg) (msg_gas_premium msg) Hu (proj1 Hl) Hb Hf Hneg) as Hn.
    cbn zeta in Hn. fold o in Hn. destruct Hn as [Hburn Htip].
    destruct (pay_stops _ _ _ _ _ _ _ _ (proj1 Hburn) Htip Hi Hsol Hpay)
      as (Hi1 & Hc1 & Hs1 & Hle & e & ->).
    injection Hrun as <- <-. split; [done|]. split; [done|]. split; [done|]. split; [lia|by left].
  - pose proof (gas_outputs_closed _ _ _ _ _ Hu64 Hl64 (proj2 Hu) Hb Hf Hp) as Hset.
    cbn zeta in Hset. fold o in Hset. destruct Hset as (_ & _ & _ & _ & _ & Hsum & ? & ? & _ & ? & ? & _).
    destruct (pay_cases (settlement sender o) M r1 M1) as (Hi1 & Hc1 & Hs1 & Hle1 & Hr1); try done.
    { repeat constructor; simpl; lia. }
    assert (pay_sum (settlement sender o) = cost) as Es by (simpl; lia). rewrite Es in *.
    destruct r1 as [[]|e].
    + rewrite (proj2 (Z.eqb_eq _ _)) in Hrun by lia. simpl in Hrun. injection Hrun as <- <-.
      destruct Hr1 as (Ht & Hpy & Hat). split; [done|]. split; [done|]. split; [done|]. split; [done|].
      split; [done|]. split; [done|]. by split_and!.
    + injection Hrun as <- <-. split; [done|]. split; [done|]. split; [done|]. split; [done|by right].
Qed.

(** ** Whole messages *)

Lemma receipt_cases msg ret :
  let rc := (message_receipt msg ret).1 in
  (is_success (rc_exit_code rc) = false → reverted (er_result ret) = true) ∧
  (0 ≤ msg_gas_limit msg → Z.of_N (fin_gas_used (er_fin ret)) ≤ msg_gas_limit msg →
   0 ≤ rc_gas_used rc ≤ msg_gas_limit msg).
Proof.
  unfold message_receipt, reverted. destruct ret as [[[code v]|[]] fin]; simpl; split; intros; try done; try lia.
  match goal with Hs : is_success _ = false |- _ => by rewrite Hs end.
Qed.

Lemma ma_same M M' : (∀ j, ma_at M' j = ma_at M j) →
  ma_total M' = ma_total M ∧ (ma_solvent M → ma_solvent M').
Proof.
  intros Hat. split; [by apply (tree_total_same m bm Hbm)|].
  intros Hs j. fold (ma_at M' j). rewrite Hat. apply Hs.
Qed.

Lemma sender_charged_total msg id cost M M' :
  sender_charged msg id cost M M' → ma_total M' = ma_total M - cost ∧ (ma_solvent M → ma_solvent M').
Proof.
  intros (_ & s & s' & Hs & Hc & _ & Hcost & Hat). unfold charged_sender in Hc.
  destruct (valid_sender _ _) as [v|]; [|done]. injection Hc as <-. split.
  - unfold ma_total. rewrite (tree_total_set m bm Hbm _ _ _ _ Hat). unfold ma_at in Hs. rewrite Hs. simpl. lia.
  - intros Hsol j. fold (ma_at M' j). rewrite Hat. case_decide; [simpl; lia|apply Hsol].
Qed.

(** A message that got past preflight: [M1] is the machine after it and [M2]
    the machine before settlement. *)
Definition executed (msg : Message) (kind : ApplyKind) (raw_length : Z) (M M' : Machine)
    (ret : ApplyRet) : Prop :=
  ∃ id cost inc M1 M2,
    preflight_done msg kind raw_length M M1 (Ok (inr (id, cost, inc))) ∧
    (is_success (rc_exit_code (ar_msg_receipt ret)) = false →
       ar_events ret = [] ∧ ∀ j, ma_at M2 j = ma_at M1 j) ∧
    match kind with
    | Explicit =>
        let o := GasOutputs_compute (rc_gas_used (ar_msg_receipt ret)) (msg_gas_limit msg)
                   (ma_base_fee M) (msg_gas_fee_cap msg) (msg_gas_premium msg) in
        reports ret o ∧ pay_sum (settlement id o) = cost ∧ payees (settlement id o) (ma_at M2) ∧
        ∀ j, ma_at M' j = paid (settlement id o) (ma_at M2) j
    | Implicit =>
        reports ret (mkGasOutputs 0 0 0 0 0 0 0) ∧ ∀ j, ma_at M' j = ma_at M2 j
    end.

(** From the acceptance of a message to its end. *)
Lemma execute_rest msg kind raw_length id cost inc M M1 r M' :
  ma_solvent M → 0 ≤ ma_base_fee M → ma_inv M1 → same_config M M1 →
  preflight_done msg kind raw_length M M1 (Ok (inr (id, cost, inc))) →
  (receiver_id ← on_state (lookup_id (msg_to msg));
   ret ← run_message msg id inc receiver_id;
   let '(receipt, backtrace) := message_receipt msg ret in
   let failure_info :=
     if bt_is_empty backtrace || is_success (rc_exit_code receipt) then None
     else Some (MessageBacktrace backtrace) in
   let exec_trace := fin_exec_trace (er_fin ret) in
   let events := fin_events (er_fin ret) in
   match kind with
   | Explicit => finish_message id msg receipt failure_info cost exec_trace events
   | Implicit => mret (mkApplyRet receipt 0 0 0 0 0 0 0 failure_info exec_trace events)
   end) M1 = (r, M') →
  ma_inv M' ∧ same_config M M' ∧ ma_solvent M' ∧ ma_total M' ≤ ma_total M ∧
  match r with
  | Err _ => True
  | Ok ret => 0 ≤ rc_gas_used (ar_msg_receipt ret) ≤ msg_gas_limit msg ∧
      executed msg kind raw_length M M' ret
  end.
Proof.
  intros Hsol Hb Hi1 Hc1 Hpre Hrun. pose proof Hpre as (_ & Hl & Hkind).
  assert (ma_total M1 ≤ ma_total M - cost ∧ ma_solvent M1 ∧ 0 ≤ cost) as (Ht1 & Hs1 & Hcost).
  { destruct kind.
    - destruct Hkind as (_ & _ & Hch). destruct (sender_charged_total _ _ _ _ _ Hch) as [Ht Hs].
      destruct Hch as (_ & ? & ? & _ & _ & _ & ? & _). split_and!; [lia|auto|lia].
    - destruct Hkind as (-> & _ & Hat). destruct (ma_same _ _ Hat). split_and!; [lia|auto|done]. }
  unfold mbind at 1, M_bind at 1 in Hrun.
  destruct (on_state_read (lookup_id (msg_to msg)) M1 (st_both_lookup_id _) Hi1) as (Hi2 & Hc2 & Hat2).
  destruct (on_state _ M1) as [[recv|e] M2]; simpl in Hi2, Hc2, Hat2; destruct (ma_same _ _ Hat2) as [Ht2 Hs2].
  2: { injection Hrun as <- <-. split; [done|]. split; [by eapply same_config_trans|]. split; [auto|].
       split; [lia|done]. }
  unfold mbind at 1, M_bind at 1 in Hrun.
  destruct (run_message msg id inc recv M2) as [[ret|e] M3] eqn:Hr3;
    destruct (run_message_cases _ _ _ _ _ _ _ Hl Hi2 (Hs2 Hs1) Hr3) as (Hi3 & Hc3 & Hs3 & Ht3 & Hret);
    assert (same_config M M3) as Hc03 by (eapply same_config_trans; [exact Hc1|by eapply same_config_trans]).
  2: { injection Hrun as <- <-. split; [done|]. split; [done|]. split; [done|]. split; [lia|done]. }
  destruct Hret as [Hgas Hrev]. pose proof (receipt_cases msg ret) as [Hfail Hused].
  destruct (message_receipt msg ret) as [receipt backtrace]. cbn [fst] in Hfail, Hused.
  specialize (Hused ltac:(lia) Hgas).
  assert (is_success (rc_exit_code receipt) = false →
    fin_events (er_fin ret) = [] ∧ ∀ j, ma_at M3 j = ma_at M1 j) as Hback.
  { intros Hx. destruct (Hrev (Hfail Hx)) as [? Hat3]. split; [done|]. intros j. by rewrite Hat3, Hat2. }
  destruct kind.
  - assert (ma_base_fee M3 = ma_base_fee M) as Eb by (destruct Hc03 as [Ec _]; unfold ma_base_fee; by rewrite Ec).
    destruct Hkind as (_ & _ & Hch). pose proof (proj1 Hch) as Ecost.
    pose proof (finish_cases _ _ _ _ _ _ _ _ _ _ Hi3 Hs3 Hl Hused ltac:(lia) Hcost Ecost Hrun) as Hfin.
    cbn zeta in Hfin. rewrite Eb in Hfin. destruct Hfin as (Hi4 & Hc4 & Hs4 & Ht4 & Hr4).
    split; [done|]. split; [by eapply same_config_trans|]. split; [done|]. split; [lia|].
    destruct r as [ar|e]; [|done]. destruct Hr4 as (Er & Ee & Hrep & Hsum & _ & Hpy & Hat4). rewrite Er.
    split; [done|]. exists id, cost, inc, M1, M3. rewrite Er, Ee. by split_and!.
  - injection Hrun as <- <-. split; [done|]. split; [done|]. split; [done|]. split; [lia|].
    split; [done|]. exists id, cost, inc, M1, M3. by split_and!.
Qed.

Lemma execute_cases msg kind raw_length M r M' :
  0 ≤ msg_gas_limit msg → 0 ≤ ma_base_fee M → ma_inv M → ma_solvent M →
  execute_message msg kind raw_length M = (r, M') →
  ma_inv M' ∧ same_config M M' ∧ ma_solvent M' ∧ ma_total M' ≤ ma_total M ∧
  match r with
  | Err _ => True
  | Ok ret => 0 ≤ rc_gas_used (ar_msg_receipt ret) ≤ msg_gas_limit msg ∧
      ((∃ penalty, refused ret penalty ∧ ∀ j, ma_at M' j = ma_at M j) ∨
       executed msg kind raw_length M M' ret)
  end.
Proof.
  intros Hl Hb Hi Hsol Hrun. unfold execute_message, mbind at 1, M_bind at 1 in Hrun.
  destruct (preflight_message msg kind raw_length M) as [[[ret|[[id cost] inc]]|e] M1] eqn:Hpre;
    destruct (preflight_cases _ _ _ _ _ _ Hl Hi Hpre) as (Hi1 & Hc1 & Hp).
  - injection Hrun as <- <-. destruct Hp as [Hat Href]. destruct (ma_same _ _ Hat) as [Ht Hs].
    split; [done|]. split; [done|]. split; [auto|]. split; [lia|].
    split; [destruct Href; lia|]. left. by eexists.
  - destruct (execute_rest _ _ _ _ _ _ _ _ _ _ Hsol Hb Hi1 Hc1 Hp Hrun) as (?&?&?&?&Hr).
    split; [done|]. split; [done|]. split; [done|]. split; [done|].
    destruct r; [|done]. destruct Hr. split; [done|by right].
  - injection Hrun as <- <-. destruct (ma_same _ _ Hp) as [Ht Hs].
    split; [done|]. split; [done|]. split; [auto|]. split; [lia|done].
Qed.
End messages.

Section theorems.
Context `{H : Host} {ES : EnvSpec}.

Definition add_if (b : bool) (v : Z) : Z := if b then v else 0.

Lemma settlement_received sender o j :
  received (settlement sender o) j =
    add_if (bool_decide (j = BURNT_FUNDS_ACTOR_ID)) (base_fee_burn o + over_estimation_burn o) +
    add_if (bool_decide (j = REWARD_ACTOR_ID)) (miner_tip o) +
    add_if (bool_decide (j = sender)) (refund o).
Proof.
  unfold received, settlement, add_if; simpl.
  repeat case_decide; repeat case_bool_decide; try congruence; lia.
Qed.

(** What a failed message did to each actor. *)
Lemma failed_pays m msg raw_length M M' ret :
  executed m msg Explicit raw_length M M' ret →
  is_success (rc_exit_code (ar_msg_receipt ret)) = false →
  ar_events ret = [] ∧
  ∃ id s, ma_at m M id = Some s ∧ (lookup_id (msg_from msg) (ma_tree M)).1 = Ok (Some id) ∧
    let cost := msg_gas_fee_cap msg * msg_gas_limit msg in
    ar_base_fee_burn ret + ar_over_estimation_burn ret + ar_refund ret + ar_miner_tip ret = cost ∧
    (∀ j, bal (ma_at m M' j) = bal (ma_at m M j) +
       add_if (bool_decide (j = BURNT_FUNDS_ACTOR_ID)) (ar_base_fee_burn ret + ar_over_estimation_burn ret) +
       add_if (bool_decide (j = REWARD_ACTOR_ID)) (ar_miner_tip ret) +
       add_if (bool_decide (j = id)) (ar_refund ret - cost)) ∧
    (∀ j, j ≠ id → as_set_balance 0 <$> ma_at m M' j = as_set_balance 0 <$> ma_at m M j) ∧
    as_set_balance 0 <$> ma_at m M' id = as_set_balance 0 <$> charged_sender (ma_builtin M) s cost.
Proof.
  intros (id & cost & inc & M1 & M2 & Hpre & Hfail & Hrep & Hsum & Hpy & Hat) Hx.
  destruct (Hfail Hx) as [Hev Hback]. split; [done|].
  destruct Hpre as (Hres & _ & _ & _ & -> & s & s' & Hs & Hch & _ & _ & Hat1).
  destruct Hrep as (_ & Etip & Eburn & Eover & Eref & _). rewrite Etip, Eburn, Eover, Eref.
  exists id, s. split; [done|]. split; [done|]. cbn zeta. split; [simpl in Hsum; lia|].
  pose proof (λ j, paid_bal _ (ma_at m M2) j Hpy) as Hpaid.
  assert (as_balance s' = as_balance s - msg_gas_fee_cap msg * msg_gas_limit msg) as Hbs.
  { unfold charged_sender in Hch. destruct (valid_sender _ _); [|done]. by injection Hch as <-. }
  split; [|split].
  - intros j. rewrite Hat. destruct (Hpaid j) as [-> _]. rewrite Hback, Hat1, settlement_received.
    unfold add_if. case_decide; [subst j; rewrite Hs|]; repeat case_bool_decide; simpl; try congruence; lia.
  - intros j Hne. rewrite Hat. destruct (Hpaid j) as [_ ->]. rewrite Hback, Hat1. by rewrite decide_False.
  - rewrite Hat. destruct (Hpaid id) as [_ ->]. rewrite Hback, Hat1, decide_True by done. by rewrite Hch.
Qed.


(** C1: no message mints. Whatever the guests do and however it ends, error
    returns of the executor included, executing a message keeps the state tree
    sound, every balance non-negative, and the sum of all balances from
    growing. *)
Theorem message_never_mints m bm msg kind raw_length M
    (Hbm : ∀ id, m !! actor_key id = bm !! id)
    (Hl : 0 ≤ msg_gas_limit msg) (Hb : 0 ≤ ma_base_fee M) (Hi : ma_inv m M) (Hs : ma_solvent m M) :
  let M' := (execute_message msg kind raw_length M).2 in
  ma_inv m M' ∧ same_config M M' ∧ ma_solvent m M' ∧ ma_total bm M' ≤ ma_total bm M.
Proof.
  destruct (execute_message msg kind raw_length M) as [r M'] eqn:Hrun.
  destruct (execute_cases m bm Hbm _ _ _ _ _ _ Hl Hb Hi Hs Hrun) as (?&?&?&?&_). done.
Qed.



(** settlement succeeds. For non-negative premium and base fee, settling a
    message fails only if one of the three payees is missing; the sanity check
    on the sum of the payments never fires. *)
Theorem settlement_succeeds m bm sender msg receipt fi cost tr evs M
    (Hbm : ∀ id, m !! actor_key id = bm !! id) (Hi : ma_inv m M) (Hs : ma_solvent m M)
    (Hl : 0 < msg_gas_limit msg ≤ i64_max)
    (Hu : 0 ≤ rc_gas_used receipt ≤ msg_gas_limit msg) (Hb : 0 ≤ ma_base_fee M)
    (Hf : 0 ≤ msg_gas_fee_cap msg) (Hp : 0 ≤ msg_gas_premium msg)
    (Hc : cost = msg_gas_fee_cap msg * msg_gas_limit msg)
    (Hpay : ∀ id, id ∈ [BURNT_FUNDS_ACTOR_ID; REWARD_ACTOR_ID; sender] → is_Some (ma_at m M id)) :
  ∃ ret M', finish_message sender msg receipt fi cost tr evs M = (Ok ret, M') ∧
    ma_total bm M' = ma_total bm M + cost.
Proof.
  destruct (finish_message sender msg receipt fi cost tr evs M) as [r M'] eqn:Hrun.
  assert (0 ≤ cost) as Hcost by (rewrite Hc; nia).
  destruct (finish_cases m bm Hbm _ _ _ _ _ _ _ _ _ _ Hi Hs Hl Hu Hb Hcost Hc Hrun)
    as (_ & _ & _ & _ & Hr). destruct r as [ret|e].
  - exists ret, M'. split; [done|]. apply Hr.
  - exfalso. destruct Hr as [?|(p & Hin & _ & Hn)]; [lia|].
    assert (is_Some (ma_at m M p.1)) as Hsome.
    { apply Hpay. unfold settlement in Hin. apply list_elem_of_In in Hin. simpl in Hin.
      rewrite list_elem_of_In. simpl. naive_solver. }
    rewrite Hn in Hsome. by destruct Hsome.
Qed.
End theorems.

(** ** The theorems at work on the concrete machine *)

Lemma demo_ma_inv : ma_inv demo_hamt demo_machine.
Proof. exact demo_inv. Qed.
Lemma demo_ma_solvent : ma_solvent demo_hamt demo_machine.
Proof. exact demo_solvent. Qed.


Lemma message_never_mints_witness :
  ma_total demo_bm (execute_message (demo_message 50) Explicit 100 demo_machine).2 ≤
  ma_total demo_bm demo_machine.
Proof.
  destruct (message_never_mints demo_hamt demo_bm (demo_message 50) Explicit 100 demo_machine
    demo_bm_at ltac:(simpl; lia) ltac:(vm_compute; congruence) demo_ma_inv demo_ma_solvent)
    as (_ & _ & _ & Ht). exact Ht.
Defined.



Lemma settlement_succeeds_witness :
  ∃ ret M', finish_message 70 (demo_message 50) (mkReceipt 0 [] 1000 None) None 15000000000 [] []
    demo_machine = (Ok ret, M') ∧ ma_total demo_bm M' = ma_total demo_bm demo_machine + 15000000000.
Proof.
  apply (settlement_succeeds demo_hamt demo_bm 70 (demo_message 50) (mkReceipt 0 [] 1000 None) None
    15000000000 [] [] demo_machine demo_bm_at demo_ma_inv demo_ma_solvent).
  - vm_compute. split; congruence.
  - vm_compute. split; congruence.
  - vm_compute. congruence.
  - vm_compute. congruence.
  - vm_compute. congruence.
  - reflexivity.
  - intros id Hin. apply list_elem_of_In in Hin. simpl in Hin.
    destruct Hin as [<-|[<-|[<-|[]]]]; eexists; vm_compute; reflexivity.
Defined.

(** an exit with an unknown block is fatal. When an actor exits with a
    user exit code and the handle of a block that does not exist, the message is
    not reported as a missing return value: the whole gas limit is consumed and
    the receipt carries the code of a failed system assertion. *)
Theorem exit_unknown_block_fatal :
  match (execute_message (H := host_running exit_guest) (demo_message 50) Explicit 100 demo_machine).1 with
  | Ok ret => rc_exit_code (ar_msg_receipt ret) = SYS_ASSERTION_FAILED ∧
      rc_gas_used (ar_msg_receipt ret) = msg_gas_limit (demo_message 50)
  | Err _ => False
  end.
Proof. vm_compute. split; reflexivity. Qed.
